(* ===== verification/_CoqProject ===== *)
-Q . S2P
Prelude.v
Decimal.v
Utf8.v
Lines.v
Privacy.v
Float32.v
Layout.v
Arrange.v
Overview.v
Chrome.v
ChromeSpec.v
RunGraph.v
Artifact.v
Orchestrate.v
Inbox.v
Guardrail.v
Cell.v
Agent.v
AgentDetail.v
Waiting.v
Tasks.v
Instruction.v
Events.v
EventLog.v
EventLogSpec.v
History.v
Replay.v
ReplaySpec.v
SnapshotSpec.v
Stacks.v
StacksSpec.v
Frame.v
Keyboard.v
KeyboardSpec.v
Outbox.v
OutboxSpec.v
Grid.v
GridInv.v
GridEdit.v
GridScroll.v
GridRoom.v
Reflow.v
ReflowInv.v
GridOps.v
Wide.v
Damage.v
Renderer.v
Host.v
Paint.v
Stored.v
Restore.v
Freeze.v
Copy.v
CopySpec.v
Emu.v
Terminal.v
TermInv.v
TermView.v
TermSpec.v
Pen.v
AltScreen.v
Text.v
Detect.v
BuiltIns.v
Providers.v
ProvidersSpec.v
Launch.v
LaunchSpec.v
Xorshift.v
Turns.v
Runs.v
TurnsInv.v
TurnsSpec.v
