(* ===== verification/Prelude.v ===== *)
(** * Uniterm: a verification development for a terminal multiplexer

    Uniterm is a server that owns terminals and coding agents, and clients that
    attach to it.  The server keeps its state in plain data structures
    ([src/crates/uniterm-core]), feeds each program's output to a terminal
    emulator ([src/crates/uniterm-server/src/terminal.rs]) over the grid of
    [uniterm-core/src/grid.rs], speaks frames over a socket
    ([src/crates/uniterm-proto]), and records what happens in an event log from
    which it rebuilds its state ([uniterm-server/src/eventlog.rs]).  Everything
    else (processes, the event loop, git, the control API) is input and output
    around these parts.  The development models the parts and proves what they
    promise.

    ** Files

    Prelude.v holds the lemmas on lists, maps and numbers that the components
    share, their tactics and hint database.  Strings are lists of scalar values;
    Utf8.v decodes bytes as Rust's standard library does, Decimal.v prints and
    parses numbers, Lines.v reads a stream by lines, Text.v has the operations of
    [str], Float32.v the binary32 operations of the layout's ratios.

    Tabs and Panes:
    - Layout.v ([uniterm-core/src/layout.rs]): the split tree, [compute] and
      every edit of the tree;
    - Arrange.v: directional focus, Dwindle and Scrolling arrangements;
      Overview.v: the overview grid;
    - Chrome.v, ChromeSpec.v ([uniterm-server/src/chrome.rs]): scrollbars, cards,
      segments and the tab bar;
    - Stacks.v, StacksSpec.v ([server/tab_stacks.rs], [server/projects.rs]): Tabs
      under Tabs, Panes that leave, the order of Tabs.

    Supervision of agents, [uniterm-core/src]:
    - RunGraph.v ([run_graph.rs]): durable run events, their projection, the
      scalar indexes and pruning;
    - Orchestrate.v ([orchestrate.rs]): the state machine of workflows;
    - Inbox.v ([inbox.rs]): the bounded board of Project conversations;
    - Artifact.v ([artifact.rs]): the ledger of observed artifacts;
    - Guardrail.v ([guardrail.rs]), Agent.v ([agent.rs]), AgentDetail.v
      ([agent_detail.rs]), Waiting.v ([waiting.rs]), Tasks.v ([tasks.rs]) and
      Instruction.v ([instruction.rs]).

    Agents and their runs, [uniterm-server/src]:
    - Detect.v, BuiltIns.v, Providers.v, ProvidersSpec.v ([providers/]): manifests
      of agents, the catalog layered from them, and the evidence it reads from
      commands, screens and session logs;
    - Launch.v, LaunchSpec.v ([workflow.rs] and the launch contracts of
      [providers/]): which executable is started, and that the line sent to a
      Pane's shell runs it with the prompt as one argument;
    - Xorshift.v, Turns.v, Runs.v, TurnsInv.v, TurnsSpec.v
      ([server/orchestration.rs] and the handlers of [server/agents.rs] and
      [server/artifact.rs] that drive runs): the server's live workflows and
      relays around the engine of Orchestrate.v, the generator of their tokens,
      and their recovery.  The handlers use Waiting.v, Tasks.v, RunGraph.v and
      Artifact.v, and write the events that Replay.v reads back.

    Durable state, [uniterm-server/src]:
    - Events.v: the events, structural projections, snapshots and checkpoints;
    - EventLog.v, EventLogSpec.v ([eventlog.rs]): the writer, startup repair, the
      passes of projections and subscribers, and what a crash leaves;
    - History.v ([history.rs]): compaction and reading across its archives;
    - Replay.v ([eventlog.rs], [server/event_projection.rs]): the reducers that
      rebuild tasks, structure, attention, runs, instructions and artifacts, and
      recovery from a snapshot; ReplaySpec.v and SnapshotSpec.v: what compaction
      and snapshots keep;
    - Privacy.v ([privacy.rs]): sealed records and the migration to them.

    The socket and the runtime's queue: Frame.v ([uniterm-proto/src/lib.rs] and
    the client's read loop); Outbox.v, OutboxSpec.v ([runtime/outbox.rs]).

    Keyboard input, [uniterm-core/src/keyboard.rs]: Keyboard.v, KeyboardSpec.v.

    The terminal grid, [uniterm-core/src/grid.rs] and [grid/capture.rs]:
    - Cell.v: colours, attributes, compact cells and stored cells;
    - Grid.v: the screen, the scrollback ring, damage, arenas and every
      operation; Reflow.v: [resize_reflow];
    - GridInv.v, GridEdit.v, GridScroll.v: well-formedness ([wf]) and that the
      operations keep it; GridRoom.v: the bound on the arenas;
    - ReflowInv.v: what a resize keeps; GridOps.v: sequences of operations;
    - Stored.v: export and captures; Restore.v: [load_scrollback]; Freeze.v:
      [freeze_screen]; Wide.v: wide glyphs keep both halves; Damage.v: the
      contract of damage and repaint.

    Copy mode, [uniterm-server/src/copymode.rs]: Copy.v, CopySpec.v (navigation,
    selections, frozen screens, search).

    Painting, [uniterm-server/src/renderer.rs]:
    - Renderer.v: the operations, as lists of typed sequences with their bytes;
    - Host.v: what a host terminal does with these sequences (a class of
      operations and a class of laws, met by a concrete host);
    - Paint.v: painting makes any such host show the grid.

    The terminal emulator, [uniterm-server/src/terminal.rs]:
    - Emu.v: the state, modes, colours and system commands; Terminal.v: what
      each parsed action does; TermView.v: the text views that detection reads;
    - TermInv.v: nothing panics; TermSpec.v, AltScreen.v: what the controls do;
      Pen.v: the emulator reads back the pens the renderer writes.

    ** How the models correspond to the code

    A [struct] is a [Record] with its field names, an [enum] an [Inductive]
    with its constructors, a method with [&mut self] a function that returns
    the new state with its value.  [HashMap] and [BTreeMap] are [gmap]s, sets
    [gset]s; a [BTreeMap] is iterated in key order where the order shows.  A
    panic (an index out of range, an [expect]) is [None] where it can be
    reached and excluded by an invariant otherwise.  Machine integers keep their
    width where it shows: [u16] coordinates, [u32] handles, [u64] tokens and
    task identities wrap as the release build does, which has overflow checks
    off; it aborts on panic.  Left unbounded are the sequence and revision
    counters of the inbox and the line identities of the grid, which grow by
    one per event.  A file is the list of its bytes; files are written, appended
    and renamed by operations on that list, and a crash cuts an append anywhere.

    Loops are structural recursions, or recursions on a measure given as fuel
    that is computed from the input and proved to suffice by the theorem
    about the loop: the column search of the overview, the frame loop of the
    client, the chunks of a lossy decoder, the rewrapping of a logical line, the
    records of a pass (one per line of the stream), the archives of a history
    (the cursor of its checkpoint, [follow_fuel]), the input of copy mode
    ([handle_loop_fuel]), the search for a free token (one round more than there
    are occupied ones, [mint_fresh]).  The bounded loops of the
    stacks are the code's own, shown to reach the root.

    ** Theorems

    - Invariants under every sequence of operations: [run_graph_invariant],
      [board_invariant], [ledger_invariant], [grid_invariant],
      [reachable_banded], [next_instruction_oldest].
    - Durability: whatever bytes a crash leaves, startup keeps whole records
      that every pass reads ([repaired_stream_replays]); of what the log wrote it
      keeps every record written whole ([crash_recovery]); compaction changes no
      projection and loses no history ([compaction_keeps_projections],
      [compaction_keeps_history]); a snapshot recovers to the structure of the
      stream ([snapshot_recovery]); what recovery reads of the log is exactly the
      live runs ([tokens_never_return]); a subscriber gets each record once
      ([subscribers_exact]); sealing changes no record
      ([protect_keeps_records]).
    - Safety: [terminal_never_panics] (for screens of two columns at least; one
      column panics, [narrow_panic]), a token whose turn is over never comes back
      and no handler of a live run panics ([tokens_never_return]), a launch runs
      what it says ([launch_exact]), typed text does not make an agent look busy
      ([typed_text_inert]; [gemini_impersonated] is where it does),
      [terminal_run_immutable], [paused_and_terminal], pasted text is never taken
      for keys ([paste_literal]), stacks outlive the Panes that anchor them
      ([detach_keeps_stacks]), a selection keeps its text while output goes on
      ([selection_survives]; [eviction_miscounted] and [frozen_history_replaced]
      are the cases where the code does not keep it).
    - Refinement of an abstract specification: the engine and its completion
      contract, tasks as a finite map, the runtime's queue as the list of what
      was pushed ([outbox_faithful]), the keyboard modes as a bounded list,
      damage as a repaint, painting as what the host shows.
    - Types: no operation leaves half of a wide glyph ([glyphs_whole]).
    - Equivalence with a reference definition: scalar indexes and scans, the
      incremental decoder and the stream of frames, captures and the export,
      a frozen screen and the screen, the two colour spellings, replayed and live
      Tabs ([tab_events_replay]), highlighted and copied cells
      ([highlight_is_copied]).
    - Round trips: frames, stored lines, restored history, splits, pens, the
      alternate screen, the attention queue's changes.
    - Function: layouts and arrangements tile their area, resizing keeps the
      text, pages of the inbox list what changed, positions answer addresses,
      keys decode one by one, the tab bar shows the active Tab, a parent is
      assigned exactly when the Tabs stay a forest, a move changes one place, a
      search lands on the next line with a match.
    - Errors, bounds, termination and progress: rejected events change nothing,
      drags land where they are dropped, an engine prompts finitely often, a
      queue with room drains ([outbox_drains]).

    ** Parameters

    Code outside the repository is a class of operations; a class of laws states
    what the code relies on, and each theorem that uses one has an instance of it
    in its witness.
    - the tables of the [unicode-width] and [unicode-segmentation] crates: the
      class [Unicode] of Cell.v, with a width of at most two columns for a
      grapheme and one for a blank; [UnicodeLaws] of Paint.v for the widths of
      single characters;
    - [serde_json]: the class [Json] of Emu.v for hook reports, [LogJson] of
      EventLog.v with [LogJsonLaws] of EventLogSpec.v for events (a serialized
      event parses back and has no line break), [SealedJson] of Privacy.v for
      sealed envelopes;
    - the [bincode] payload of a frame: the arguments of Frame.v; the sizes of
      messages to the runtime: [Payloads] of Outbox.v;
    - the ciphers and digests: [Aead] and [SealedLaws] of Privacy.v, [Sha256] of
      History.v with [Sha256Laws] of ReplaySpec.v (a digest is 64 hexadecimal
      digits);
    - the bounded channel of [std::sync::mpsc]: [Channel] and [ChannelLaws] of
      Outbox.v;
    - the host terminal that is painted: [Host] and [HostLaws] of Host.v;
    - the clock, JSON and digests of provider documents: [Env] of Providers.v with
      [EnvelopeLaws] of ProvidersSpec.v; the files on a search path: [Files] of
      Launch.v; the shell of a Pane: [Shell] of Launch.v with [ShellLaws] of
      LaunchSpec.v, the part of POSIX that the lines use;
    - the terminals behind the Panes of a run: [Ptys] of Turns.v;
    - the escape-sequence parser of the [vte] crate: Terminal.v starts from the
      actions it calls.

    The terminal's theorems speak of screens of at least two columns whose
    retained cells stay within [CELLS_MAX], so that arena handles fit 32 bits.

    ** Not modelled

    The event loop, PTYs, signals, processes and runtime threads (input and
    output); git worktrees, the connectors and session files of third-party
    agents (they follow other programs' files); the control API, the
    command line and the client's interface (routing and drawing over the
    modelled operations); the painting of borders and sidebars (text over many
    projections); configuration and menus (independent settings and labels);
    timeline entries and the catalog of Workspaces, which read the modelled
    state and keep little of their own; serde derives and [Display].
    Of the server's Tab actions, those around the stack operations (opening and
    closing processes, focus, redrawing) are left out; of a launched run, the
    guards before it, the spawning of its Panes and the name of its Tab. *)

From stdpp Require Export base tactics numbers list gmap strings pretty sorting.
From Stdlib Require Export Lia.

#[global] Open Scope N_scope.

(** Facts that close the common goals of the components: invariants of
    reachable states and bounds of the operations. *)
Create HintDb uniterm.

(** ** Machine integers

    Unsigned integers are [N] with their width written out at each operation.
    The release profile leaves overflow checks off, so [+] and [-] wrap;
    [saturating_add] and [saturating_sub] clamp. *)

Declare Scope u_scope.
Delimit Scope u_scope with u.

Definition U16 : N := 65536.
Definition U32 : N := 4294967296.
Definition U64 : N := 18446744073709551616.

Definition u16_max : N := 65535.
Definition u32_max : N := 4294967295.
Definition u64_max : N := 18446744073709551615.

(** [wadd m a b] and [wsub m a b] are addition and subtraction modulo [m]. *)
Definition wadd (m a b : N) : N := (a + b) mod m.
Definition wsub (m a b : N) : N := (a + m - b) mod m.

(** [sadd mx a b] is [a.saturating_add(b)] for a type whose maximum is [mx];
    [a.saturating_sub(b)] is the truncated subtraction of [N]. *)
Definition sadd (mx a b : N) : N := N.min (a + b) mx.
Definition ssub (a b : N) : N := a - b.

(** [x.clamp(lo, hi)] on integers. *)
Definition nclamp (x lo hi : N) : N :=
  if x <? lo then lo else if hi <? x then hi else x.

Notation "a +16 b" := (wadd U16 a b) (at level 50, left associativity) : u_scope.
Notation "a -16 b" := (wsub U16 a b) (at level 50, left associativity) : u_scope.
Notation "a +32 b" := (wadd U32 a b) (at level 50, left associativity) : u_scope.
Notation "a +64 b" := (wadd U64 a b) (at level 50, left associativity) : u_scope.
#[global] Open Scope u_scope.

Lemma wadd_small m a b : a + b < m -> wadd m a b = a + b.
Proof. intros H. unfold wadd. by apply N.mod_small. Qed.

Lemma wsub_small m a b : b <= a -> a < m -> wsub m a b = a - b.
Proof.
  intros Hb Ha. unfold wsub.
  replace (a + m - b) with (a - b + 1 * m) by lia.
  rewrite N.Div0.mod_add. apply N.mod_small. lia.
Qed.

Lemma nclamp_range x lo hi : lo <= hi -> lo <= nclamp x lo hi <= hi.
Proof.
  intros H. unfold nclamp.
  destruct (N.ltb_spec x lo), (N.ltb_spec hi x); lia.
Qed.

Lemma sadd_small mx a b : a + b <= mx -> sadd mx a b = a + b.
Proof. unfold sadd. lia. Qed.

(** ** Booleans: destruct every comparison in sight and finish with [lia]. *)

Ltac bool_lia :=
  repeat match goal with
  | |- context [?a <? ?b] => destruct (N.ltb_spec a b)
  | |- context [?a <=? ?b] => destruct (N.leb_spec a b)
  | |- context [?a =? ?b] => destruct (N.eqb_spec a b)
  | H : context [?a <? ?b] |- _ => destruct (N.ltb_spec a b)
  | H : context [?a <=? ?b] |- _ => destruct (N.leb_spec a b)
  | H : context [?a =? ?b] |- _ => destruct (N.eqb_spec a b)
  end; simpl in *; try done; try lia.

(** ** Record update

    [r <| p := v |>] is [r] with the field [p] set to [v], for a record type
    whose fields an instance of [Fields] lists. *)

Class Fields (R : Type) := fields : R -> R.
Class Setter {R T : Type} (p : R -> T) := put_field : T -> R -> R.

Ltac find_setter :=
  match goal with
  | |- @Setter ?R ?T ?p =>
      let f := constr:(fun (v : T) (r : R) => ltac:(
        let e := constr:(fields r) in
        let e := eval cbv [fields] in e in
        let e := eval hnf in e in
        let e := eval pattern (p r) in e in
        match e with ?k _ => let b := eval cbv beta in (k v) in exact b end)) in
      exact f
  end.

#[global] Hint Extern 1 (Setter _) => find_setter : typeclass_instances.

Notation "r '<|' p ':=' v '|>'" := (put_field (p := p) v r)
  (at level 12, left associativity, p constr at level 99, v at level 99) : u_scope.

(** ** Text

    A Rust [char] is a Unicode scalar value and a [String] the sequence of its
    scalar values; [utf8] gives the bytes it is stored as, so [len] counts
    bytes and [chars] ranges over the list. *)

Abbreviation char := N (only parsing).
Abbreviation str := (list N) (only parsing).

Definition utf8_char (c : char) : list N :=
  if c <? 128 then [c]
  else if c <? 2048 then [192 + N.shiftr c 6; 128 + N.land c 63]
  else if c <? 65536 then
    [224 + N.shiftr c 12; 128 + N.land (N.shiftr c 6) 63; 128 + N.land c 63]
  else
    [240 + N.shiftr c 18; 128 + N.land (N.shiftr c 12) 63;
     128 + N.land (N.shiftr c 6) 63; 128 + N.land c 63].

Definition utf8 (s : str) : list N := concat (map utf8_char s).

(** [String::len]: the number of bytes. *)
Definition len8 (s : str) : N := N.of_nat (length (utf8 s)).

(** An ASCII literal of the source as a [str]. *)
Definition lit (s : string) : str := map Ascii.N_of_ascii (String.list_ascii_of_string s).

(** [format!("{n}")] for an unsigned integer. *)
Definition dec (n : N) : str := lit (pretty n).

(** [char::is_control]: the general category Cc. *)
Definition is_control (c : char) : bool :=
  (c <? 32) || ((127 <=? c) && (c <? 160)).

(** [char::is_whitespace]: the property White_Space. *)
Definition is_whitespace (c : char) : bool :=
  ((9 <=? c) && (c <=? 13)) || (c =? 32) || (c =? 133) || (c =? 160) ||
  (c =? 5760) || ((8192 <=? c) && (c <=? 8202)) || (c =? 8232) || (c =? 8233) ||
  (c =? 8239) || (c =? 8287) || (c =? 12288).

Fixpoint trim_start (s : str) : str :=
  match s with
  | c :: s' => if is_whitespace c then trim_start s' else s
  | [] => []
  end.

Definition trim_end (s : str) : str := rev (trim_start (rev s)).
Definition trim (s : str) : str := trim_end (trim_start s).

Definition str_eqb (a b : str) : bool := bool_decide (a = b).

(** ** Lists *)

Lemma filter_all {A} (P : A -> Prop) `{forall x, Decision (P x)} l : Forall P l -> filter P l = l.
Proof. induction 1 as [|x l Hx _ IH]; [done|]. by rewrite filter_cons_True, IH. Qed.

(** [while l.last().is_some_and(f) { l.pop() }] *)
Fixpoint trim_by {A} (f : A -> bool) (l : list A) : list A :=
  match l with
  | [] => []
  | x :: l =>
      match trim_by f l with
      | [] => if f x then [] else [x]
      | l' => x :: l'
      end
  end.

Lemma trim_by_spec {A} (f : A -> bool) l :
  exists k, l = trim_by f l ++ k /\ Forall (fun x => f x = true) k
    /\ forall x, last (trim_by f l) = Some x -> f x = false.
Proof.
  induction l as [|x l (k & IH & Hk & Hl)]; [by exists []|]. cbn [trim_by].
  destruct (trim_by f l) as [|y l'] eqn:E.
  - destruct (f x) eqn:Ef.
    + exists (x :: l). split; [done|]. split; [|done]. constructor; [done|]. by rewrite IH.
    + exists l. split; [done|]. split; [by rewrite IH|]. by intros ? [= <-].
  - exists k. split; [by rewrite IH at 1|]. split; [done|]. intros z Hz. apply Hl. exact Hz.
Qed.

Lemma trim_by_length {A} (f : A -> bool) l : (length (trim_by f l) <= length l)%nat.
Proof. destruct (trim_by_spec f l) as (k & E & _). rewrite E at 2. rewrite length_app. lia. Qed.

Lemma trim_by_id {A} (f : A -> bool) l :
  (forall x, last l = Some x -> f x = false) -> trim_by f l = l.
Proof.
  induction l as [|x l IH]; intros H; [done|]. cbn [trim_by].
  destruct l as [|y l]; [by cbn; rewrite (H x)|].
  rewrite IH; [done|]. intros z Hz. apply H. exact Hz.
Qed.

(** ** Stable sorting by a key

    [sort_by_key] of the standard library is stable; [sort_by] is the insertion
    sort that keeps the order of elements the comparison does not separate. *)

Section SortBy.
Context {A : Type} (le : A -> A -> bool).

Fixpoint insert_by (x : A) (l : list A) : list A :=
  match l with
  | [] => [x]
  | y :: l' => if le x y then x :: l else y :: insert_by x l'
  end.

Fixpoint sort_by (l : list A) : list A :=
  match l with
  | [] => []
  | x :: l' => insert_by x (sort_by l')
  end.

Lemma insert_by_perm x l : insert_by x l ≡ₚ x :: l.
Proof.
  induction l as [|y l IH]; simpl; [done|].
  destruct (le x y); [done|]. rewrite IH. apply Permutation_swap.
Qed.

Lemma sort_by_perm l : sort_by l ≡ₚ l.
Proof. induction l as [|x l IH]; simpl; [done|]. by rewrite insert_by_perm, IH. Qed.

Lemma sort_by_elem x l : x ∈ sort_by l <-> x ∈ l.
Proof. by rewrite sort_by_perm. Qed.

Lemma sort_by_length l : length (sort_by l) = length l.
Proof. by rewrite sort_by_perm. Qed.

Context (le_total : forall x y, le x y = false -> le y x = true).
Context (le_trans : forall x y z, le x y = true -> le y z = true -> le x z = true).

Lemma insert_by_sorted x l :
  StronglySorted (fun a b => le a b = true) l ->
  StronglySorted (fun a b => le a b = true) (insert_by x l).
Proof.
  induction 1 as [|y l Hs IH Hall]; simpl.
  - repeat constructor.
  - destruct (le x y) eqn:E.
    + constructor; [by constructor|]. constructor; [done|].
      eapply Forall_impl; [exact Hall|]. simpl. eauto.
    + constructor; [done|]. rewrite insert_by_perm. constructor; [|done].
      by apply le_total.
Qed.

Lemma sort_by_sorted l : StronglySorted (fun a b => le a b = true) (sort_by l).
Proof.
  induction l; simpl; [constructor|]. by apply insert_by_sorted.
Qed.

(** A list already in order is left as it is. *)
Lemma sort_by_id l :
  StronglySorted (fun a b => le a b = true) l -> sort_by l = l.
Proof.
  induction 1 as [|x l Hs IH Hall]; simpl; [done|]. rewrite IH.
  destruct l as [|y l]; simpl; [done|]. inversion Hall as [|? ? Hxy]; subst.
  by rewrite Hxy.
Qed.
End SortBy.

Section SortByKey.
Context {A : Type} (key : A -> N).

Definition by_key (x y : A) : bool := key x <=? key y.

Lemma sort_by_key_sorted l : StronglySorted (fun x y => key x <= key y) (sort_by by_key l).
Proof.
  assert (StronglySorted (fun x y => by_key x y = true) (sort_by by_key l)) as Hs.
  { apply sort_by_sorted; unfold by_key; intros; bool_lia. }
  induction Hs as [|x s Hs IH Hall]; constructor; [done|].
  eapply Forall_impl; [exact Hall|]. intros y Hy. by apply N.leb_le.
Qed.

(** Sorting by a key keeps the order of the elements that share one. *)
Lemma sort_by_key_stable l k :
  filter (fun x => key x = k) (sort_by by_key l) = filter (fun x => key x = k) l.
Proof.
  assert (forall x s, filter (fun x => key x = k) (insert_by by_key x s)
    = filter (fun x => key x = k) (x :: s)) as Hins.
  { intros x s. induction s as [|y s IH]; [done|]. cbn [insert_by].
    unfold by_key at 1. destruct (N.leb_spec (key x) (key y)) as [|Hlt]; [done|].
    rewrite filter_cons, IH, !filter_cons.
    destruct (decide (key y = k)), (decide (key x = k)); try done. lia. }
  induction l as [|x l IH]; [done|]. cbn [sort_by]. rewrite Hins, !filter_cons, IH. done.
Qed.
End SortByKey.

(** ** Results

    [Result<T, E>] of an operation on [&mut self] is the pair of the new state
    and the result, so that what an error leaves behind is part of the model. *)

Inductive result (T E : Type) : Type :=
| Ok (x : T)
| Err (e : E).
Arguments Ok {T E} x.
Arguments Err {T E} e.

Definition is_ok {T E} (r : result T E) : bool :=
  match r with Ok _ => true | Err _ => false end.

(** ** Ordered maps

    A [BTreeMap] with integer keys is a [gmap]; [entries] is its iteration
    order, by increasing key. *)

Section Entries.
Context {A : Type}.

Definition key_le (a b : N * A) : bool := a.1 <=? b.1.
Definition entries (m : gmap N A) : list (N * A) := sort_by key_le (map_to_list m).
Definition values (m : gmap N A) : list A := (entries m).*2.

Lemma entries_elem m k x : (k, x) ∈ entries m <-> m !! k = Some x.
Proof. unfold entries. rewrite sort_by_elem. apply elem_of_map_to_list. Qed.

Lemma entries_perm m : entries m ≡ₚ map_to_list m.
Proof. apply sort_by_perm. Qed.

Lemma entries_sorted m : StronglySorted (fun a b => a.1 < b.1) (entries m).
Proof.
  assert (StronglySorted (fun a b => key_le a b = true) (entries m)) as Hs.
  { apply sort_by_sorted; unfold key_le; intros; bool_lia. }
  assert (NoDup (entries m).*1) as Hn.
  { rewrite (entries_perm m). apply NoDup_fst_map_to_list. }
  revert Hs Hn. generalize (entries m) as l.
  induction l as [|[k x] l IH]; intros Hs Hn; [constructor|].
  inversion Hs as [|? ? Hs' Hall]; subst. simpl in Hn.
  apply NoDup_cons in Hn as [Hk Hn].
  constructor; [auto|]. apply Forall_forall. intros [k' x'] Hin.
  rewrite Forall_forall in Hall. pose proof (Hall _ Hin) as Hle.
  unfold key_le in Hle. simpl in *. apply N.leb_le in Hle.
  assert (k <> k'); [|lia]. intros ->. apply Hk. apply list_elem_of_fmap. by exists (k', x').
Qed.

Lemma values_elem m x : x ∈ values m <-> exists k, m !! k = Some x.
Proof.
  unfold values. rewrite list_elem_of_fmap. split.
  - intros [[k y] [-> Hin]]. exists k. by apply entries_elem.
  - intros [k Hk]. exists (k, x). split; [done|]. by apply entries_elem.
Qed.

(** The first entry, in key order, that satisfies a test. *)
Definition find_entry (f : N * A -> bool) (m : gmap N A) : option (N * A) :=
  snd <$> list_find (fun e => f e = true) (entries m).

Lemma find_entry_some f m k x :
  find_entry f m = Some (k, x) -> m !! k = Some x /\ f (k, x) = true.
Proof.
  unfold find_entry. destruct (list_find _ _) as [[i e]|] eqn:E; [|done].
  simpl. intros [= ->]. apply list_find_Some in E as (Hl & Hf & _).
  split; [|done]. apply entries_elem. by eapply list_elem_of_lookup_2.
Qed.

Lemma find_entry_none f m :
  find_entry f m = None <-> forall k x, m !! k = Some x -> f (k, x) = false.
Proof.
  unfold find_entry. destruct (list_find _ _) as [[i e]|] eqn:E; simpl.
  - split; [done|]. intros H. apply list_find_Some in E as (Hl & Hf & _).
    destruct e as [k x]. apply list_elem_of_lookup_2, entries_elem, H in Hl. congruence.
  - split; [|done]. intros _ k x Hk. apply list_find_None in E.
    rewrite Forall_forall in E. apply entries_elem, E in Hk.
    by apply not_true_is_false in Hk.
Qed.
End Entries.

(** ** Index lists

    [index_of P l]: [l] lists exactly the identities that satisfy [P], each
    once and in increasing order. The scalar indexes of the components are
    maps to such lists that hold no empty entry. *)

Definition index_of (P : N -> Prop) (l : list N) : Prop :=
  StronglySorted N.lt l /\ forall x, x ∈ l <-> P x.

#[global] Instance index_of_proper :
  Proper (pointwise_relation N iff ==> eq ==> iff) index_of.
Proof.
  intros P Q HPQ l _ <-. unfold index_of.
  split; intros [Hs He]; split; auto; intros x; rewrite He; [|symmetry]; apply HPQ.
Qed.

Lemma index_of_iff (P Q : N -> Prop) l :
  (forall x, P x <-> Q x) -> index_of P l -> index_of Q l.
Proof. intros H. by rewrite (index_of_proper P Q H l l eq_refl). Qed.

Lemma StronglySorted_app_last {A} (R : A -> A -> Prop) l x :
  StronglySorted R l -> Forall (fun y => R y x) l -> StronglySorted R (l ++ [x]).
Proof.
  induction 1 as [|y l Hs IH Hall]; intros HF; simpl; [repeat constructor|].
  inversion HF; subst. constructor; [auto|]. apply Forall_app. auto.
Qed.

Lemma StronglySorted_at {A} (R : A -> A -> Prop) l i j x y :
  StronglySorted R l -> l !! i = Some x -> l !! j = Some y -> (i < j)%nat -> R x y.
Proof.
  intros Hs. revert i j. induction Hs as [|z l Hs IH Hall]; intros i j Hi Hj Hlt; [done|].
  destruct j as [|j]; [lia|]. destruct i as [|i]; simpl in *.
  - injection Hi as ->. rewrite Forall_forall in Hall.
    apply Hall. by eapply list_elem_of_lookup_2.
  - apply (IH i j); [done..|lia].
Qed.

Lemma StronglySorted_filter {A} (R : A -> A -> Prop) (f : A -> Prop)
    `{forall x, Decision (f x)} l :
  StronglySorted R l -> StronglySorted R (filter f l).
Proof.
  induction 1 as [|y l Hs IH Hall]; [constructor|]. rewrite filter_cons.
  destruct (decide (f y)); [|done]. constructor; [done|].
  rewrite Forall_forall in Hall |- *. intros z [_ Hz]%list_elem_of_filter. auto.
Qed.

Lemma index_of_push P l n :
  index_of P l -> (forall x, P x -> x < n) -> index_of (fun x => P x \/ x = n) (l ++ [n]).
Proof.
  intros [Hs He] Hn. split.
  - apply StronglySorted_app_last; [done|]. apply Forall_forall.
    intros x Hx. by apply Hn, He.
  - intros x. rewrite elem_of_app, list_elem_of_singleton, He. done.
Qed.

Lemma index_of_drop P l n :
  index_of P l -> index_of (fun x => P x /\ x <> n) (filter (fun x => x <> n) l).
Proof.
  intros [Hs He]. split; [by apply StronglySorted_filter|].
  intros x. rewrite list_elem_of_filter, He. tauto.
Qed.

Lemma index_of_nil P : (forall x, ~ P x) -> index_of P [].
Proof. intros H. split; [constructor|]. intros x. rewrite elem_of_nil. firstorder. Qed.

Lemma index_of_NoDup P l : index_of P l -> NoDup l.
Proof.
  intros [Hs _]. induction Hs as [|y l Hs IH Hall]; constructor; [|done].
  rewrite Forall_forall in Hall. intros Hin. apply Hall in Hin. lia.
Qed.

(** The keys a test selects, in iteration order, form an index list. *)
Lemma index_of_entries {A} (m : gmap N A) (f : A -> Prop) `{forall x, Decision (f x)} :
  index_of (fun k => exists x, m !! k = Some x /\ f x)
    (filter (fun e => f e.2) (entries m)).*1.
Proof.
  split.
  - pose proof (StronglySorted_filter _ (fun e : N * A => f e.2) _ (entries_sorted m)) as Hs.
    induction Hs as [|a l Hs IH Hall]; simpl; constructor; [done|].
    rewrite Forall_fmap. exact Hall.
  - intros k. rewrite list_elem_of_fmap. split.
    + intros [[k' x] [-> Hin]]. apply list_elem_of_filter in Hin as [Hf Hin].
      exists x. split; [by apply entries_elem|done].
    + intros (x & Hk & Hf). exists (k, x). split; [done|].
      apply list_elem_of_filter. split; [done|]. by apply entries_elem.
Qed.

(** Two index lists of the same predicate are the same list. *)
Lemma index_of_unique P l l' : index_of P l -> index_of P l' -> l = l'.
Proof.
  intros [Hs He] [Hs' He']. assert (forall x, x ∈ l <-> x ∈ l') as H.
  { intros x. by rewrite He, He'. }
  clear He He' P. revert l' Hs' H. induction Hs as [|a l Hs IH Ha]; intros l' Hs' H.
  - destruct l' as [|b l']; [done|]. exfalso. apply (not_elem_of_nil b), H. left.
  - destruct Hs' as [|b l' Hs' Hb]; [exfalso; apply (not_elem_of_nil a), H; left|].
    rewrite Forall_forall in Ha, Hb.
    assert (a = b) as ->.
    { assert (a ∈ b :: l') as Ha' by (apply H; left).
      assert (b ∈ a :: l) as Hb' by (apply H; left).
      apply elem_of_cons in Ha' as [|Ha']; [done|].
      apply elem_of_cons in Hb' as [|Hb']; [done|].
      apply Hb in Ha'. apply Ha in Hb'. lia. }
    f_equal. apply IH; [done|]. intros x. split; intros Hx.
    + assert (x ∈ b :: l') as Hx' by (apply H; by right).
      apply elem_of_cons in Hx' as [->|]; [|done]. apply Ha in Hx. lia.
    + assert (x ∈ b :: l) as Hx' by (apply H; by right).
      apply elem_of_cons in Hx' as [->|]; [|done]. apply Hb in Hx. lia.
Qed.

(** *** Index maps *)

Definition posting (m : gmap N (list N)) (k : N) : list N := default [] (m !! k).

(** [m.entry(k).or_default().push(x)] *)
Definition entry_push (m : gmap N (list N)) (k x : N) : gmap N (list N) :=
  <[k := posting m k ++ [x]]> m.

(** [if let Some(l) = m.get_mut(&k) { l.retain(|y| y != x); if l.is_empty() { m.remove(&k) } }] *)
Definition entry_drop (m : gmap N (list N)) (k x : N) : gmap N (list N) :=
  match m !! k with
  | Some l =>
      match filter (fun y => y <> x) l with
      | [] => delete k m
      | l' => <[k := l']> m
      end
  | None => m
  end.

Definition indexes (R : N -> N -> Prop) (m : gmap N (list N)) : Prop :=
  forall k, index_of (R k) (posting m k) /\ m !! k <> Some [].

Lemma posting_insert m k l j :
  posting (<[k := l]> m) j = if decide (j = k) then l else posting m j.
Proof.
  unfold posting. destruct (decide (j = k)) as [->|].
  - by rewrite lookup_insert_eq.
  - by rewrite lookup_insert_ne.
Qed.

Lemma posting_delete m k j :
  posting (delete k m) j = if decide (j = k) then [] else posting m j.
Proof.
  unfold posting. destruct (decide (j = k)) as [->|].
  - by rewrite lookup_delete_eq.
  - by rewrite lookup_delete_ne.
Qed.

Lemma posting_drop m k x j :
  posting (entry_drop m k x) j =
    if decide (j = k) then filter (fun y => y <> x) (posting m k) else posting m j.
Proof.
  unfold entry_drop. destruct (m !! k) as [l|] eqn:E.
  - destruct (filter _ l) as [|a l'] eqn:F.
    + rewrite posting_delete. unfold posting at 2. rewrite E. simpl. by rewrite F.
    + rewrite posting_insert. unfold posting at 2. rewrite E. simpl. by rewrite F.
  - destruct (decide (j = k)) as [->|]; [|done]. unfold posting. by rewrite E.
Qed.

Lemma indexes_push R m k x :
  indexes R m -> (forall y, R k y -> y < x) ->
  indexes (fun j y => R j y \/ (j = k /\ y = x)) (entry_push m k x).
Proof.
  intros H Hx j. unfold entry_push. rewrite posting_insert.
  destruct (H j) as [Hj Hne]. destruct (decide (j = k)) as [->|Hjk].
  - split.
    + eapply index_of_proper; [|reflexivity|by apply (index_of_push (R k))].
      intros y. tauto.
    + rewrite lookup_insert_eq. destruct (posting m k); done.
  - split; [|by rewrite lookup_insert_ne].
    eapply index_of_proper; [|reflexivity|exact Hj]. intros y. tauto.
Qed.

Lemma indexes_drop R m k x :
  indexes R m -> (forall j, R j x -> j = k) ->
  indexes (fun j y => R j y /\ y <> x) (entry_drop m k x).
Proof.
  intros H Hx j. rewrite posting_drop. destruct (H j) as [Hj Hne].
  destruct (decide (j = k)) as [->|Hjk].
  - split; [by apply index_of_drop|]. unfold entry_drop.
    destruct (m !! k) as [l|] eqn:E; [|by rewrite E].
    destruct (filter _ l) eqn:F; [by rewrite lookup_delete_eq|].
    by rewrite lookup_insert_eq.
  - split.
    + eapply index_of_proper; [|reflexivity|exact Hj]. intros y. split; [tauto|].
      intros Hy. split; [done|]. intros ->. by apply Hx in Hy.
    + unfold entry_drop. destruct (m !! k) as [l|] eqn:E; [|done].
      destruct (filter _ l) eqn:F; [by rewrite lookup_delete_ne|].
      by rewrite lookup_insert_ne.
Qed.

Lemma indexes_proper R S m :
  (forall k x, R k x <-> S k x) -> indexes R m -> indexes S m.
Proof.
  intros HRS H k. destruct (H k) as [Hk Hne]. split; [|done].
  eapply index_of_proper; [|reflexivity|exact Hk]. intros x. symmetry. apply HRS.
Qed.
