(* ===== verification/Decimal.v ===== *)
(** * Decimal numbers

    [str::parse] for unsigned integers and [format!("{n}")]: parsing undoes
    printing. *)

From S2P Require Import Prelude.

(** The digits that remain, after a number [acc] below [bound]. *)
Fixpoint digits (bound acc : N) (s : str) : option N :=
  match s with
  | [] => Some acc
  | b :: s =>
      if (48 <=? b) && (b <=? 57) then
        let acc := acc * 10 + (b - 48) in
        if acc <? bound then digits bound acc s else None
      else None
  end.

(** [str::parse::<T>] for a type of values below [bound]: an optional plus sign
    and decimal digits. *)
Definition parse_uint (bound : N) (s : str) : option N :=
  match s with
  | [] => None
  | 43 :: (_ :: _) as rest => digits bound 0 (tail rest)
  | _ => digits bound 0 s
  end.

Definition digit (c : N) : Prop := 48 <= c <= 57.

Lemma digits_app bound acc s s' : digits bound acc (s ++ s') = digits bound acc s ≫= fun n => digits bound n s'.
Proof.
  revert acc. induction s as [|c s IH]; intros acc; simpl; [done|].
  destruct (_ && _); [|done]. destruct (_ <? _); [apply IH|done].
Qed.

Definition digit_of (x : N) : N := Ascii.N_of_ascii (pretty_N_char x).

Lemma digit_of_spec x : x < 10 -> digit_of x = 48 + x.
Proof.
  intros Hx. assert (x ∈ [0; 1; 2; 3; 4; 5; 6; 7; 8; 9]) as Hin by (rewrite !elem_of_cons; lia).
  rewrite !elem_of_cons in Hin. by repeat destruct Hin as [->|Hin]; [..|inversion Hin].
Qed.

Lemma lit_cons (c : Ascii.ascii) (s : string) : lit (String c s) = Ascii.N_of_ascii c :: lit s.
Proof. done. Qed.

(** [lia] knows no lower bound of [mod]. *)
Lemma mod_digit n : digit (48 + n mod 10).
Proof. pose proof (N.mod_lt n 10 ltac:(lia)) as Hm. revert Hm. unfold digit. generalize (n mod 10). lia. Qed.

(** A positive number prints as its leading digits and the last one. *)
Lemma dec_step x : 0 < x -> dec x = (if x <? 10 then [] else dec (x / 10)) ++ [48 + x mod 10].
Proof.
  assert (Hacc : forall x s, lit (pretty_N_go x s) = lit (pretty_N_go x "") ++ lit s).
  { clear x. intros x. induction (N.lt_wf_0 x) as [x _ IH]. intros s. destruct (decide (x = 0)) as [->|Hx].
    { by rewrite !pretty_N_go_0. }
    assert (Hl : x / 10 < x) by (apply N.div_lt; lia).
    rewrite (pretty_N_go_step x s), (pretty_N_go_step x "") by lia. set (c := pretty_N_char (x mod 10)). rewrite (IH _ Hl (String c s)), (IH _ Hl (String c "")).
    by rewrite !lit_cons, <- app_assoc. }
  intros Hx. unfold dec at 1, pretty, pretty_N. rewrite decide_False by lia.
  rewrite pretty_N_go_step, Hacc, lit_cons by lia. fold (digit_of (x mod 10)).
  rewrite digit_of_spec by (apply N.mod_lt; lia). change (lit "") with (@nil N). f_equal.
  destruct (N.ltb_spec x 10) as [Hl|Hl].
  - by rewrite N.div_small, pretty_N_go_0.
  - unfold dec, pretty, pretty_N. assert (1 <= x / 10) by (apply N.div_le_lower_bound; lia). by rewrite decide_False by lia.
Qed.

Lemma dec_digits n : Forall digit (dec n) /\ dec n <> [].
Proof.
  induction (N.lt_wf_0 n) as [n _ IH]. destruct (decide (n = 0)) as [->|Hn].
  { split; [|done]. by repeat constructor. }
  rewrite dec_step by lia. split; [|by intros []%app_nil].
  apply Forall_app. split; [|constructor; [apply mod_digit|done]].
  destruct (N.ltb_spec n 10); [done|]. apply IH, N.div_lt; lia.
Qed.

Lemma digits_dec bound n : n < bound -> digits bound 0 (dec n) = Some n.
Proof.
  induction (N.lt_wf_0 n) as [n _ IH]. intros Hb. destruct (decide (n = 0)) as [->|Hn].
  { change (dec 0) with [48]. cbn [digits]. change (0 * 10 + (48 - 48)) with 0. by rewrite (proj2 (N.ltb_lt 0 bound)). }
  pose proof (N.div_mod n 10 ltac:(lia)) as Hd. pose proof (N.mod_lt n 10 ltac:(lia)) as Hm.
  rewrite dec_step, digits_app by lia.
  assert (digits bound 0 (if n <? 10 then [] else dec (n / 10)) = Some (n / 10)) as ->.
  { destruct (N.ltb_spec n 10); simpl; [by rewrite N.div_small|].
    pose proof (N.div_lt n 10 ltac:(lia) ltac:(lia)). apply IH; lia. }
  destruct (mod_digit n) as [H1 H2]. simpl. replace ((48 <=? 48 + n mod 10) && (48 + n mod 10 <=? 57)) with true by bool_lia.
  replace (n / 10 * 10 + (48 + n mod 10 - 48)) with n by lia. by rewrite (proj2 (N.ltb_lt n bound)).
Qed.

(** Parsing undoes printing. *)
Lemma parse_dec bound n : n < bound -> parse_uint bound (dec n) = Some n.
Proof.
  intros Hb. destruct (dec_digits n) as [Hd Hne]. unfold parse_uint.
  destruct (dec n) as [|c s] eqn:E; [done|]. inversion Hd as [|? ? [Hc1 Hc2] Hs]; subst.
  rewrite <- (digits_dec bound n Hb), E. destruct c as [|p]; [lia|].
  do 6 (destruct p as [p|p|]; try done; try lia).
Qed.

(** A number below ten to the [k] has at most [k] digits. *)
Lemma dec_length k : forall n, (0 < k)%nat -> n < 10 ^ N.of_nat k -> (length (dec n) <= k)%nat.
Proof.
  induction k as [|k IH]; intros n Hk Hn; [lia|]. destruct (decide (n = 0)) as [->|Hn0]; [simpl; lia|].
  rewrite dec_step, length_app by lia. simpl. destruct (N.ltb_spec n 10) as [|Hge]; [simpl; lia|].
  destruct k as [|k]; [simpl in Hn; lia|]. specialize (IH (n / 10) ltac:(lia)).
  rewrite Nat2N.inj_succ, N.pow_succ_r' in Hn. specialize (IH ltac:(apply N.Div0.div_lt_upper_bound; done)). lia.
Qed.
