(* ===== verification/Utf8.v ===== *)
(** * Decoding UTF-8

    [str::from_utf8] and [String::from_utf8_lossy] of the standard library, on
    which the escape-sequence handlers of Terminal.v and the readers of durable
    lines rely: decoding and [utf8] undo each other, and the lossy decoder never
    fails. *)

From S2P Require Import Prelude.

(** What stands at the front of the bytes: a character and its length, or the
    length of an ill-formed sequence. *)
Inductive decoded : Set := Good (c : char) (n : nat) | Bad (n : nat).

(** The lead bytes: how many bytes follow, the range of the first of them, and
    the bits of the lead. *)
Definition lead_byte (b : N) : option (nat * N * N * N) :=
  if b <? 194 then None
  else if b <? 224 then Some (1%nat, 128, 191, b - 192)
  else if b =? 224 then Some (2%nat, 160, 191, 0)
  else if b =? 237 then Some (2%nat, 128, 159, 13)
  else if b <? 240 then Some (2%nat, 128, 191, b - 224)
  else if b =? 240 then Some (3%nat, 144, 191, 0)
  else if b <? 244 then Some (3%nat, 128, 191, b - 240)
  else if b =? 244 then Some (3%nat, 128, 143, 4)
  else None.

Definition within (lo hi b : N) : bool := (lo <=? b) && (b <=? hi).

(** [k] more continuation bytes; [seen] are accepted already. *)
Fixpoint decode_rest (k seen : nat) (acc : N) (bs : list N) : decoded :=
  match k with
  | O => Good acc seen
  | S k =>
      match bs with
      | b :: bs => if within 128 191 b then decode_rest k (S seen) (acc * 64 + (b - 128)) bs else Bad seen
      | [] => Bad seen
      end
  end.

Definition decode_first (b : N) (bs : list N) : decoded :=
  if b <? 128 then Good b 1
  else match lead_byte b with
  | None => Bad 1
  | Some (k, lo, hi, bits) =>
      match bs with
      | b1 :: bs => if within lo hi b1 then decode_rest (k - 1) 2 (bits * 64 + (b1 - 128)) bs else Bad 1
      | [] => Bad 1
      end
  end.

Fixpoint from_utf8_fuel (fuel : nat) (bs : list N) : option str :=
  match fuel, bs with
  | _, [] => Some []
  | O, _ => None
  | S fuel, b :: rest =>
      match decode_first b rest with
      | Good c n => (cons c) <$> from_utf8_fuel fuel (drop n bs)
      | Bad _ => None
      end
  end.

Definition from_utf8 (bs : list N) : option str := from_utf8_fuel (length bs) bs.

(** Ill-formed sequences become U+FFFD. *)
Fixpoint lossy_fuel (fuel : nat) (bs : list N) : str :=
  match fuel, bs with
  | _, [] => []
  | O, _ => []
  | S fuel, b :: rest =>
      match decode_first b rest with
      | Good c n => c :: lossy_fuel fuel (drop n bs)
      | Bad n => 65533 :: lossy_fuel fuel (drop n bs)
      end
  end.

Definition from_utf8_lossy (bs : list N) : str := lossy_fuel (length bs) bs.

(** A Unicode scalar value. *)
Definition scalar (c : char) : Prop := c < 55296 \/ 57344 <= c < 1114112.

(** ** Facts *)

Lemma land_63 x : N.land x 63 = x mod 64.
Proof. change 63 with (N.ones 6). apply N.land_ones. Qed.

Lemma shiftr_64 x k : N.shiftr x k = x / 2 ^ k.
Proof. apply N.shiftr_div_pow2. Qed.

Lemma lead_spec b :
  194 <= b -> lead_byte b =
    if b <? 224 then Some (1%nat, 128, 191, b - 192)
    else if b =? 224 then Some (2%nat, 160, 191, 0)
    else if b =? 237 then Some (2%nat, 128, 159, 13)
    else if b <? 240 then Some (2%nat, 128, 191, b - 224)
    else if b =? 240 then Some (3%nat, 144, 191, 0)
    else if b <? 244 then Some (3%nat, 128, 191, b - 240)
    else if b =? 244 then Some (3%nat, 128, 143, 4) else None.
Proof. intros H. unfold lead_byte. by destruct (N.ltb_spec b 194); [lia|]. Qed.

Lemma within_cont x : within 128 191 (128 + x mod 64) = true.
Proof.
  pose proof (N.mod_lt x 64 ltac:(done)) as H. revert H. generalize (x mod 64) as r. intros r H.
  unfold within. apply andb_true_iff. split; apply N.leb_le; lia.
Qed.

Lemma decode_char c rest :
  scalar c ->
  match utf8_char c with
  | b :: bs => decode_first b (bs ++ rest) = Good c (length (utf8_char c))
  | [] => False
  end.
Proof.
  unfold scalar. intros Hc. unfold utf8_char. rewrite !land_63, !shiftr_64. change (2 ^ 6) with 64.
  change (2 ^ 12) with 4096. change (2 ^ 18) with 262144.
  destruct (N.ltb_spec c 128) as [H1|H1].
  { cbn. unfold decode_first. by destruct (N.ltb_spec c 128); [|lia]. }
  pose proof (N.div_mod c 64 ltac:(done)) as D1. pose proof (N.mod_lt c 64 ltac:(done)) as M1.
  set (q1 := c / 64) in *. set (r1 := c mod 64) in *.
  destruct (N.ltb_spec c 2048) as [H2|H2].
  - cbn [app length]. unfold decode_first. destruct (N.ltb_spec (192 + q1) 128); [lia|].
    rewrite lead_spec by lia. destruct (N.ltb_spec (192 + q1) 224); [|lia].
    unfold within. destruct (N.leb_spec 128 (128 + r1)); [|lia]. destruct (N.leb_spec (128 + r1) 191); [|lia].
    cbn. f_equal. lia.
  - pose proof (N.div_mod q1 64 ltac:(done)) as D2. pose proof (N.mod_lt q1 64 ltac:(done)) as M2.
    assert (c / 4096 = q1 / 64) as E2 by (unfold q1; rewrite N.Div0.div_div; done).
    assert (c / 4096 mod 64 = q1 / 64 mod 64) as E2' by by rewrite E2.
    destruct (N.ltb_spec c 65536) as [H3|H3].
    + rewrite E2. set (q2 := q1 / 64) in *. set (r2 := q1 mod 64) in *.
      cbn [app length]. unfold decode_first. destruct (N.ltb_spec (224 + q2) 128); [lia|].
      rewrite lead_spec by lia. destruct (N.ltb_spec (224 + q2) 224); [lia|].
      assert (within 128 191 (128 + r1) = true) as W1 by (unfold within; apply andb_true_iff; split; apply N.leb_le; lia).
      assert (forall lo hi, lo <= 128 + r2 <= hi -> within lo hi (128 + r2) = true) as W2
        by (intros; unfold within; apply andb_true_iff; split; apply N.leb_le; lia).
      destruct (N.eqb_spec (224 + q2) 224) as [E|E]; [|destruct (N.eqb_spec (224 + q2) 237) as [F|F]].
      * rewrite W2 by lia. cbn [Nat.sub decode_rest]. rewrite W1. f_equal. lia.
      * rewrite W2 by (destruct Hc; lia). cbn [Nat.sub decode_rest]. rewrite W1. f_equal. lia.
      * destruct (N.ltb_spec (224 + q2) 240); [|lia]. rewrite W2 by lia. cbn [Nat.sub decode_rest]. rewrite W1.
        f_equal. lia.
    + pose proof (N.div_mod (q1 / 64) 64 ltac:(done)) as D3. pose proof (N.mod_lt (q1 / 64) 64 ltac:(done)) as M3.
      assert (c / 262144 = q1 / 64 / 64) as E3 by (unfold q1; rewrite !N.Div0.div_div; done).
      rewrite E2, E3. set (q2 := q1 / 64) in *. set (r2 := q1 mod 64) in *. set (q3 := q2 / 64) in *. set (r3 := q2 mod 64) in *.
      cbn [app length]. unfold decode_first. destruct (N.ltb_spec (240 + q3) 128); [lia|].
      rewrite lead_spec by lia. destruct (N.ltb_spec (240 + q3) 224); [lia|].
      destruct (N.eqb_spec (240 + q3) 224); [lia|]. destruct (N.eqb_spec (240 + q3) 237); [lia|].
      destruct (N.ltb_spec (240 + q3) 240); [lia|].
      assert (forall r lo hi, lo <= 128 + r <= hi -> within lo hi (128 + r) = true) as W
        by (intros; unfold within; apply andb_true_iff; split; apply N.leb_le; lia).
      destruct (N.eqb_spec (240 + q3) 240) as [E|E]; [|destruct (N.ltb_spec (240 + q3) 244) as [F|F]].
      * rewrite W by lia. cbn [Nat.sub decode_rest]. rewrite !W by lia. f_equal. lia.
      * rewrite W by lia. cbn [Nat.sub decode_rest]. rewrite !W by lia. f_equal. lia.
      * destruct (N.eqb_spec (240 + q3) 244); [|lia]. rewrite W by lia. cbn [Nat.sub decode_rest].
        rewrite !W by lia. f_equal. lia.
Qed.

Lemma utf8_char_nonempty c : utf8_char c <> [].
Proof. unfold utf8_char. by destruct (c <? 128), (c <? 2048), (c <? 65536). Qed.

Lemma from_utf8_grow s : forall fuel, Forall scalar s -> (length (utf8 s) <= fuel)%nat ->
  from_utf8_fuel fuel (utf8 s) = Some s.
Proof.
  induction s as [|c s IH]; intros fuel Hs Hf; [by destruct fuel|].
  apply Forall_cons in Hs as [Hc Hs]. unfold utf8 in *. cbn [map concat] in *.
  pose proof (decode_char c (concat (map utf8_char s)) Hc) as Hd.
  destruct (utf8_char c) as [|b bs] eqn:E; [done|]. cbn [app] in *.
  destruct fuel as [|fuel]; [cbn in Hf; lia|]. cbn [from_utf8_fuel]. rewrite Hd.
  cbn [length drop]. rewrite drop_app_length.
  rewrite IH; [done|done|]. cbn in Hf. rewrite length_app in Hf. lia.
Qed.

(** Decoding undoes encoding. *)
Lemma from_utf8_utf8 s : Forall scalar s -> from_utf8 (utf8 s) = Some s.
Proof. intros Hs. by apply from_utf8_grow. Qed.

Lemma decode_rest_pos k seen acc bs : (0 < seen)%nat ->
  match decode_rest k seen acc bs with Good _ n => (0 < n)%nat | Bad n => (0 < n)%nat end.
Proof.
  revert seen acc bs. induction k as [|k IH]; intros seen acc bs H; [done|]. cbn.
  destruct bs as [|b bs]; [done|]. destruct (within 128 191 b); [apply IH; lia|done].
Qed.

(** The lossy decoder agrees with the strict one on well-formed bytes. *)
Lemma lossy_agrees fuel bs s : from_utf8_fuel fuel bs = Some s -> lossy_fuel fuel bs = s.
Proof.
  revert bs s. induction fuel as [|fuel IH]; intros [|b bs] s; cbn [from_utf8_fuel lossy_fuel]; try (by intros [= <-]).
  destruct (decode_first b bs) as [c n|n]; [|done]. intros H. apply fmap_Some in H as (s' & Hs & ->).
  f_equal. by apply IH.
Qed.

Lemma decode_first_pos b bs :
  match decode_first b bs with Good _ n => (0 < n)%nat | Bad n => (0 < n)%nat end.
Proof.
  unfold decode_first. destruct (b <? 128); [lia|]. destruct (lead_byte b) as [[[[k lo] hi] bits]|]; [|lia].
  destruct bs as [|b1 bs]; [lia|]. destruct (within lo hi b1); [|lia]. apply decode_rest_pos. lia.
Qed.

(** Every round consumes a byte at least, so the length is fuel enough. *)
Lemma lossy_fuel_enough fuel bs : (length bs <= fuel)%nat -> lossy_fuel fuel bs = from_utf8_lossy bs.
Proof.
  unfold from_utf8_lossy. revert bs. assert (forall n m bs, (length bs <= n)%nat -> (length bs <= m)%nat ->
    lossy_fuel n bs = lossy_fuel m bs) as H; [|intros bs Hl; by apply H].
  induction n as [|n IH]; intros [|m] [|b bs] Hn Hm; try done; cbn in Hn, Hm; try lia.
  cbn [lossy_fuel]. pose proof (decode_first_pos b bs) as Hp.
  destruct (decode_first b bs) as [c k|k]; f_equal; apply IH; rewrite length_drop; cbn; lia.
Qed.
Lemma split_64 a r : r < 64 -> (a * 64 + r) / 64 = a /\ (a * 64 + r) mod 64 = r.
Proof.
  intros Hr. rewrite (N.add_comm (a * 64)), N.div_add, N.Div0.mod_add, N.div_small, N.mod_small by lia. by split.
Qed.

Lemma within_spec lo hi b : within lo hi b = true <-> lo <= b <= hi.
Proof. unfold within. rewrite andb_true_iff, !N.leb_le. done. Qed.

Lemma lead_bits b k lo hi bits : lead_byte b = Some (k, lo, hi, bits) ->
  k = 1%nat /\ 194 <= b < 224 /\ bits = b - 192 /\ lo = 128 /\ hi = 191
  \/ k = 2%nat /\ 224 <= b < 240 /\ bits = b - 224 /\ 128 <= lo /\ hi <= 191
     /\ (b = 224 -> lo = 160) /\ (b = 237 -> hi = 159)
  \/ k = 3%nat /\ 240 <= b <= 244 /\ bits = b - 240 /\ 128 <= lo /\ hi <= 191
     /\ (b = 240 -> lo = 144) /\ (b = 244 -> hi = 143).
Proof.
  unfold lead_byte.
  repeat match goal with
  | |- context [?x <? ?y] => destruct (N.ltb_spec x y)
  | |- context [?x =? ?y] => destruct (N.eqb_spec x y)
  end; intros [= <- <- <- <-]; lia.
Qed.

(** A decoded character is a scalar value, and stood there as it is encoded. *)
Lemma decode_first_good b rest c n : decode_first b rest = Good c n ->
  scalar c /\ b :: rest = utf8_char c ++ drop n (b :: rest).
Proof.
  unfold decode_first, scalar. destruct (N.ltb_spec b 128) as [Hb|Hb].
  { intros [= <- <-]. unfold utf8_char. rewrite (proj2 (N.ltb_lt b 128)) by done. split; [lia|done]. }
  destruct (lead_byte b) as [[[[k lo] hi] bits]|] eqn:E; [|done]. apply lead_bits in E.
  destruct rest as [|b1 rest]; [done|]. destruct (within lo hi b1) eqn:W1; [|done]. apply within_spec in W1.
  unfold utf8_char. rewrite !land_63, !shiftr_64. change (2 ^ 6) with 64. change (2 ^ 12) with (64 * 64).
  change (2 ^ 18) with (64 * 64 * 64). rewrite <- !N.Div0.div_div.
  destruct E as [(-> & E)|[(-> & E)|(-> & E)]]; cbn [Nat.sub decode_rest].
  - intros [= <- <-]. destruct (split_64 bits (b1 - 128) ltac:(lia)) as [-> ->].
    rewrite (proj2 (N.ltb_ge _ 128)), (proj2 (N.ltb_lt _ 2048)) by lia. cbn [drop app]. split; [lia|]. do 2 f_equal; lia.
  - destruct rest as [|b2 rest]; [done|]. destruct (within 128 191 b2) eqn:W2; [|done]. apply within_spec in W2.
    intros [= <- <-]. destruct (split_64 (bits * 64 + (b1 - 128)) (b2 - 128) ltac:(lia)) as [-> ->].
    destruct (split_64 bits (b1 - 128) ltac:(lia)) as [-> ->].
    rewrite (proj2 (N.ltb_ge _ 128)), (proj2 (N.ltb_ge _ 2048)), (proj2 (N.ltb_lt _ 65536)) by lia.
    cbn [drop app]. split; [lia|]. do 3 (f_equal; try lia).
  - destruct rest as [|b2 rest]; [done|]. destruct (within 128 191 b2) eqn:W2; [|done]. apply within_spec in W2.
    destruct rest as [|b3 rest]; [done|]. destruct (within 128 191 b3) eqn:W3; [|done]. apply within_spec in W3.
    intros [= <- <-]. destruct (split_64 ((bits * 64 + (b1 - 128)) * 64 + (b2 - 128)) (b3 - 128) ltac:(lia)) as [-> ->].
    destruct (split_64 (bits * 64 + (b1 - 128)) (b2 - 128) ltac:(lia)) as [-> ->].
    destruct (split_64 bits (b1 - 128) ltac:(lia)) as [-> ->].
    rewrite (proj2 (N.ltb_ge _ 128)), (proj2 (N.ltb_ge _ 2048)), (proj2 (N.ltb_ge _ 65536)) by lia.
    cbn [drop app]. split; [lia|]. do 4 (f_equal; try lia).
Qed.

(** Encoding undoes strict decoding. *)
Lemma utf8_from_utf8 bs s : from_utf8 bs = Some s -> utf8 s = bs /\ Forall scalar s.
Proof.
  unfold from_utf8. generalize (length bs). intros fuel. revert bs s.
  induction fuel as [|fuel IH]; intros [|b bs] s; cbn [from_utf8_fuel]; try done; [intros [= <-]; by split|intros [= <-]; by split|].
  destruct (decode_first b bs) as [c n|n] eqn:E; [|done]. apply decode_first_good in E as [Hc E].
  intros H. apply fmap_Some in H as (s' & Hs & ->). apply IH in Hs as [Hs Hf].
  split; [|by constructor]. unfold utf8 in *. cbn [map concat]. by rewrite Hs, <- E.
Qed.

Lemma utf8_app s t : utf8 (s ++ t) = utf8 s ++ utf8 t.
Proof. unfold utf8. by rewrite map_app, concat_app. Qed.

Lemma utf8_ascii s : Forall (fun c => c < 128) s -> utf8 s = s.
Proof.
  induction 1 as [|c s Hc _ IH]; [done|]. unfold utf8 in *. cbn [map concat]. rewrite IH.
  unfold utf8_char. by rewrite (proj2 (N.ltb_lt c 128)).
Qed.

(** A tactic for the bytes of a short list. *)
Ltac bytes :=
  repeat match goal with
  | |- Forall _ [] => constructor
  | |- Forall _ (_ :: _) => apply Forall_cons; split; [cbn beta; lia|]
  end.

Lemma utf8_char_bytes c : scalar c -> Forall (fun b => (b = c \/ 128 <= b) /\ b < 256) (utf8_char c).
Proof.
  intros Hc. unfold scalar in Hc. unfold utf8_char. rewrite !land_63, !shiftr_64.
  change (2 ^ 6) with 64. change (2 ^ 12) with 4096. change (2 ^ 18) with 262144.
  pose proof (N.mod_lt c 64 ltac:(lia)). pose proof (N.mod_lt (c / 64) 64 ltac:(lia)). pose proof (N.mod_lt (c / 4096) 64 ltac:(lia)).
  pose proof (N.le_0_l (c mod 64)). pose proof (N.le_0_l ((c / 64) mod 64)). pose proof (N.le_0_l ((c / 4096) mod 64)).
  pose proof (N.le_0_l (c / 64)). pose proof (N.le_0_l (c / 4096)). pose proof (N.le_0_l (c / 262144)).
  destruct (N.ltb_spec c 128) as [Hlt|Hge].
  { apply Forall_cons. split; [|constructor]. split; [by left|lia]. }
  destruct (N.ltb_spec c 2048).
  { assert (c / 64 < 32) by (apply N.div_lt_upper_bound; lia). bytes. }
  destruct (N.ltb_spec c 65536).
  { assert (c / 4096 < 16) by (apply N.div_lt_upper_bound; lia). bytes. }
  assert (c / 262144 < 8) by (apply N.div_lt_upper_bound; lia). bytes.
Qed.

Lemma utf8_bytes s : Forall scalar s -> Forall (fun b => b < 256) (utf8 s).
Proof.
  induction 1 as [|c s Hc _ IH]; [constructor|]. change (utf8 (c :: s)) with (utf8_char c ++ utf8 s).
  apply Forall_app; split; [|done]. eapply Forall_impl; [by apply utf8_char_bytes|]. cbn. intros b [_ Hb]. exact Hb.
Qed.
