(* ===== verification/Lines.v ===== *)
(** * Lines of a byte stream

    [BufRead::read_until(b'\n', ..)], [read_line] and [lines] of the standard
    library, on which the event log reads its files: the records of a stream,
    each with its terminator, and what appending and truncating do to them. *)

From S2P Require Import Prelude.

(** The successive results of [read_until(b'\n', ..)]: only the last may lack
    its terminator. *)
Fixpoint chunks (bs : list N) : list (list N) :=
  match bs with
  | [] => []
  | b :: rest =>
      if b =? 10 then [10] :: chunks rest
      else match chunks rest with
      | [] => [[b]]
      | c :: cs => (b :: c) :: cs
      end
  end.

Definition terminated (c : list N) : bool := bool_decide (last c = Some 10).

(** What [lines] drops: a newline, and a carriage return before it. *)
Definition chomp (c : list N) : list N :=
  if terminated c then
    let l := removelast c in
    if bool_decide (last l = Some 13) then removelast l else l
  else c.

(** [bytes[..count - 1]] *)
Definition body (c : list N) : list N := removelast c.

Definition lines (bs : list N) : list (list N) := map chomp (chunks bs).

(** A record with its terminator. *)
Definition record (c : list N) : Prop := exists l, c = l ++ [10] /\ 10 ∉ l.

(** ** Facts *)

Lemma concat_chunks bs : concat (chunks bs) = bs.
Proof.
  induction bs as [|b bs IH]; simpl; [done|]. case (N.eqb_spec b 10) as [->|]; simpl; [by rewrite IH|].
  destruct (chunks bs) as [|c cs]; simpl in *; by rewrite <- IH.
Qed.

Lemma chunks_line l : 10 ∉ l -> l <> [] -> chunks l = [l].
Proof.
  induction l as [|b l IH]; [done|]. intros Hl _. apply not_elem_of_cons in Hl as [Hb Hl]. simpl.
  rewrite (proj2 (N.eqb_neq b 10)) by congruence. destruct l as [|c l]; [done|]. by rewrite IH.
Qed.

Lemma chunks_record_app l rest : 10 ∉ l -> chunks ((l ++ [10]) ++ rest) = (l ++ [10]) :: chunks rest.
Proof.
  rewrite <- app_assoc. induction l as [|b l IH]; [done|]. intros Hl. apply not_elem_of_cons in Hl as [Hb Hl]. simpl in *.
  rewrite (proj2 (N.eqb_neq b 10)) by congruence. by rewrite IH.
Qed.

Lemma chunks_records cs rest : Forall record cs -> chunks (concat cs ++ rest) = cs ++ chunks rest.
Proof.
  induction cs as [|c cs IH]; [done|]. intros [(l & -> & Hl) Hcs]%Forall_cons.
  cbn [concat app]. rewrite <- app_assoc, chunks_record_app by done. by rewrite IH.
Qed.

Lemma chunks_concat cs : Forall record cs -> chunks (concat cs) = cs.
Proof. intros Hcs. pose proof (chunks_records cs [] Hcs) as E. by rewrite !app_nil_r in E. Qed.

Lemma terminated_app l : terminated (l ++ [10]) = true.
Proof. unfold terminated. rewrite last_snoc. by apply bool_decide_eq_true. Qed.

Lemma record_terminated c : record c -> terminated c = true.
Proof. intros (l & -> & _). apply terminated_app. Qed.

Lemma record_body c : record c -> c = body c ++ [10].
Proof. intros (l & -> & _). unfold body. by rewrite removelast_last. Qed.

Lemma body_app l : body (l ++ [10]) = l.
Proof. apply removelast_last. Qed.

(** Every chunk but the last is a record; the last is one if it is terminated. *)
Lemma chunks_cons bs c cs : chunks bs = c :: cs ->
  c <> [] /\ (record c /\ bs = c ++ concat cs /\ chunks (concat cs) = cs \/ 10 ∉ c /\ cs = [] /\ bs = c).
Proof.
  revert c cs. induction bs as [|b bs IH]; intros c cs; simpl; [done|].
  case (N.eqb_spec b 10) as [->|Hb].
  - intros [= <- <-]. split; [done|]. left. split; [exists []; split; [done|apply not_elem_of_nil]|].
    rewrite concat_chunks. by split.
  - destruct (chunks bs) as [|d ds] eqn:E.
    + intros [= <- <-]. split; [done|]. right.
      assert (bs = []) as -> by (by rewrite <- (concat_chunks bs), E).
      by rewrite list_elem_of_singleton.
    + intros [= <- <-]. destruct (IH _ _ eq_refl) as [_ [((l & -> & Hl) & -> & Hc)|(Hd & -> & ->)]]; (split; [done|]).
      * left. split; [|by rewrite Hc]. exists (b :: l). rewrite not_elem_of_cons. split; [done|split; [congruence|done]].
      * right. rewrite not_elem_of_cons. split; [split; [congruence|done]|done].
Qed.

Lemma chunk_record bs c cs : chunks bs = c :: cs -> terminated c = true -> record c.
Proof.
  intros E Ht. destruct (chunks_cons _ _ _ E) as [Hne [(Hr & _)|(Hc & _)]]; [done|].
  unfold terminated in Ht. apply bool_decide_eq_true in Ht. apply last_Some in Ht as (l & ->). exfalso. set_solver.
Qed.

Lemma unterminated_last bs c cs : chunks bs = c :: cs -> terminated c = false -> cs = [] /\ 10 ∉ c.
Proof.
  intros E Ht. destruct (chunks_cons _ _ _ E) as [_ [(Hr & _)|(Hc & -> & _)]]; [|done].
  by rewrite record_terminated in Ht.
Qed.

Lemma chunks_tail bs c cs : chunks bs = c :: cs -> chunks (concat cs) = cs.
Proof. intros E. by destruct (chunks_cons _ _ _ E) as [_ [(_ & _ & Hc)|(_ & -> & _)]]. Qed.

Lemma terminated_cons b c : c <> [] -> terminated (b :: c) = terminated c.
Proof. intros Hc. unfold terminated. by destruct c. Qed.

Lemma chomp_app l : last l <> Some 13 -> chomp (l ++ [10]) = l.
Proof.
  intros Hl. unfold chomp. rewrite terminated_app, removelast_last. by rewrite bool_decide_eq_false_2.
Qed.

(** Dropping the terminator leaves the body, less a carriage return. *)
Lemma chomp_body c : record c -> body c = chomp c \/ body c = chomp c ++ [13].
Proof.
  intros (l & -> & _). unfold chomp, body. rewrite terminated_app, removelast_last.
  case_bool_decide as Hl; [|by left]. right. apply last_Some in Hl as (l' & ->). by rewrite removelast_last.
Qed.

Lemma chomp_elem b c : b ∈ chomp c -> b ∈ c.
Proof.
  assert (forall l : list N, b ∈ removelast l -> b ∈ l) as Hr.
  { intros l. destruct (decide (l = [])) as [->|Hl]; [done|].
    rewrite (app_removelast_last 0 Hl) at 2. intros. apply elem_of_app. by left. }
  unfold chomp. destruct (terminated c); [|done]. case_bool_decide; [|apply Hr]. intros. by apply Hr, Hr.
Qed.

Lemma lines_no_newline bs : Forall (fun l => 10 ∉ l) (lines bs).
Proof.
  unfold lines. remember (chunks bs) as cs eqn:E. symmetry in E. revert bs E.
  induction cs as [|c cs IH]; intros bs E; [constructor|]. pose proof (chunks_tail _ _ _ E) as Ht. cbn.
  apply Forall_cons. split; [|by eapply IH].
  destruct (chunks_cons _ _ _ E) as [_ [((l & -> & Hl) & _)|(Hc & _)]]; [|intros Hin; by apply Hc, chomp_elem].
  unfold chomp. rewrite terminated_app, removelast_last. case_bool_decide as Hlast; [|done].
  apply last_Some in Hlast as (l' & ->). rewrite removelast_last. set_solver.
Qed.

(** Truncation at any byte keeps the records that lie before it, all of them,
    and a rest without a terminator. *)
Lemma take_records cs n : Forall record cs ->
  exists k r, take n (concat cs) = concat (take k cs) ++ r /\ 10 ∉ r /\ (k <= length cs)%nat
    /\ (length (concat (take k cs)) <= n)%nat
    /\ ((k < length cs)%nat -> (n < length (concat (take (S k) cs)))%nat).
Proof.
  revert n. induction cs as [|c cs IH]; intros n Hcs.
  - exists 0%nat, []. simpl. rewrite take_nil. split; [done|]. split; [apply not_elem_of_nil|]. simpl. split; [lia|]. split; lia.
  - apply Forall_cons in Hcs as [Hc Hcs]. cbn [concat]. destruct (decide (length c <= n)%nat) as [Hn|Hn].
    + destruct (IH (n - length c)%nat Hcs) as (k & r & E & Hr & Hk & Hlow & Hhigh). exists (S k), r.
      rewrite take_app, (take_ge c) by lia. rewrite E. cbn [take concat length]. rewrite app_assoc, !length_app.
      split; [done|]. split; [done|]. split; [lia|]. split; [lia|]. intros Hlt. apply Nat.succ_lt_mono, Hhigh in Hlt.
      cbn [take] in Hlt. lia.
    + exists 0%nat, (take n c). rewrite take_app_le by lia. cbn [take concat app length]. split; [done|].
      split; [|split; [lia|split; [lia|intros _; rewrite length_app; lia]]].
      destruct Hc as (l & -> & Hl). rewrite length_app in Hn. simpl in Hn. rewrite take_app_le by lia.
      intros Hin. apply Hl. rewrite <- (take_drop n l). by apply elem_of_app; left.
Qed.

(** Text that is empty or ends with a newline. *)
Definition whole_lines (pre : list N) : Prop := pre = [] \/ exists p, pre = p ++ [10].

Lemma chunks_nonempty b bs : chunks (b :: bs) <> [].
Proof. simpl. destruct (b =? 10); [done|]. by destruct (chunks bs). Qed.

Lemma whole_records p : Forall record (chunks (p ++ [10])).
Proof.
  assert (record [10]) as H10 by (exists []; split; [done|apply not_elem_of_nil]).
  induction p as [|b p IH]; [by apply Forall_singleton|]. cbn [chunks app].
  destruct (N.eqb_spec b 10) as [->|Hb]; [by constructor|].
  destruct (chunks (p ++ [10])) as [|c cs] eqn:E.
  - by destruct p; apply chunks_nonempty in E.
  - apply Forall_cons in IH as [(l & -> & Hl) IH]. constructor; [|done]. exists (b :: l). split; [done|].
    intros [H|?]%elem_of_cons; [congruence|done].
Qed.

Lemma chunks_whole pre rest : whole_lines pre -> chunks (pre ++ rest) = chunks pre ++ chunks rest.
Proof.
  intros H. rewrite <- (concat_chunks pre) at 1. apply chunks_records.
  destruct H as [->|[p ->]]; [constructor|apply whole_records].
Qed.
