(* ===== verification/Privacy.v ===== *)
(** * Protected durable data

    [uniterm-server/src/privacy.rs]: records and files are sealed with an
    authenticated cipher when a Workspace asks for it. The cipher
    ([chacha20poly1305]) and the JSON parser are parameters; the sealed
    formats, the hexadecimal coding and the migration of a stream are modelled.
    The migration changes no record a reader decodes, and can be repeated. *)

From S2P Require Import Prelude Utf8 Lines.

(** [XChaCha20Poly1305] under the process's key, [None] without one: nonce,
    associated data and message. *)
Class Aead : Type := {
  encrypt : list N -> list N -> list N -> option (list N);
  decrypt : list N -> list N -> list N -> option (list N) }.

(** The string [value["uniterm_encrypted"]] of a JSON line. *)
Class SealedJson : Type := json_sealed : str -> option str.

Definition quote : char := 34.

Definition MAGIC : list N := lit "UNITERM-PRIVATE-1" ++ [10].

(** [{"version":4294967295,"uniterm_encrypted":] *)
Definition SEALED : str :=
  [123; quote] ++ lit "version" ++ [quote] ++ lit ":4294967295," ++ [quote] ++ lit "uniterm_encrypted" ++ [quote; 58].

Fixpoint strip (p s : list N) : option (list N) :=
  match p, s with
  | [], _ => Some s
  | a :: p', b :: s' => if a =? b then strip p' s' else None
  | _, [] => None
  end.

Definition starts_with (p s : list N) : bool := bool_decide (is_Some (strip p s)).

Definition digit (n : N) : char := if n <? 10 then 48 + n else 87 + n.

(** [hex] *)
Fixpoint hex (bytes : list N) : str :=
  match bytes with
  | [] => []
  | b :: bytes => digit (b / 16) :: digit (b mod 16) :: hex bytes
  end.

(** [char::to_digit(16)] *)
Definition to_digit (c : char) : option N :=
  if (48 <=? c) && (c <=? 57) then Some (c - 48)
  else if (97 <=? c) && (c <=? 102) then Some (c - 87)
  else if (65 <=? c) && (c <=? 70) then Some (c - 55)
  else None.

(** [unhex], on the bytes of the text. *)
Fixpoint unhex (text : list N) : option (list N) :=
  match text with
  | [] => Some []
  | [_] => None
  | a :: b :: text =>
      h ← to_digit a; l ← to_digit b; rest ← unhex text; Some (h * 16 + l :: rest)
  end.

(** A lower-case hexadecimal digit. *)
Definition is_hex (c : char) : bool := ((48 <=? c) && (c <=? 57)) || ((97 <=? c) && (c <=? 102)).

Definition byte (b : N) : Prop := b < 256.

(** What the formats rely on: the cipher yields bytes, and a string of
    hexadecimal digits is read back from the object that holds it. *)
Class SealedLaws {A : Aead} {J : SealedJson} : Prop := {
  decrypt_encrypt nonce aad msg c : encrypt nonce aad msg = Some c -> decrypt nonce aad c = Some msg;
  encrypt_bytes nonce aad msg c : encrypt nonce aad msg = Some c -> Forall byte c;
  sealed_field h : Forall (fun c => is_hex c = true) h -> json_sealed (SEALED ++ [quote] ++ h ++ [quote; 125]) = Some h }.

(** [trim_end_matches(['\r', '\n'])] *)
Fixpoint drop_space (l : list N) : list N :=
  match l with
  | c :: l' => if (c =? 10) || (c =? 13) then drop_space l' else l
  | [] => []
  end.

Definition trim (l : list N) : list N := rev (drop_space (rev l)).

Lemma trim_space l c : c = 10 \/ c = 13 -> trim (l ++ [c]) = trim l.
Proof. intros Hc. unfold trim. rewrite rev_app_distr. simpl. by destruct Hc as [-> | ->]. Qed.

Section Privacy.
Context {A : Aead} {J : SealedJson}.

Definition seal (nonce plain : list N) : option (list N) :=
  encrypted ← encrypt nonce MAGIC plain; Some (MAGIC ++ nonce ++ encrypted).

Definition open (bytes : list N) : option (list N) :=
  bytes ← strip MAGIC bytes;
  if (length bytes <? 24)%nat then None else decrypt (take 24 bytes) MAGIC (drop 24 bytes).

Definition sealed_line (nonce : list N) (line : str) : option str :=
  bytes ← seal nonce (utf8 line);
  Some (SEALED ++ [quote] ++ hex bytes ++ [quote; 125; 10]).

Definition encode_line (protected : bool) (nonce : list N) (line : str) : option str :=
  if protected then sealed_line nonce line else Some line.

Definition decode_line (line : str) : option str :=
  if negb (starts_with SEALED line) then Some line
  else encoded ← json_sealed line; bytes ← unhex (utf8 encoded); plain ← open bytes; from_utf8 plain.

Definition CHECK : list N := lit "Uniterm local state key verification v1".

(** [verify]: no migration is pending, and the key opens the marker of a
    protected Workspace. *)
Definition verify (pending : bool) (marker : option (list N)) : bool :=
  negb pending && match marker with Some m => bool_decide (open m = Some CHECK) | None => true end.

(** Whole files. *)
Definition encode (protected : bool) (nonce bytes : list N) : option (list N) :=
  if protected then seal nonce bytes else Some bytes.

Definition decode (bytes : list N) : option (list N) :=
  if starts_with MAGIC bytes then open bytes else Some bytes.

(** One line of [protect_lines]. *)
Definition protect_line (nonce : list N) (line : list N) : option (list N) :=
  line ← from_utf8 line;
  if starts_with SEALED line then
    encoded ← json_sealed line; bytes ← unhex (utf8 encoded); _ ← open bytes; Some (utf8 line ++ [10])
  else sealed ← sealed_line nonce line; Some (utf8 sealed).

Fixpoint protect_loop (nonces : nat -> list N) (i : nat) (ls : list (list N)) : option (list N) :=
  match ls with
  | [] => Some []
  | l :: ls => out ← protect_line (nonces i) l; rest ← protect_loop nonces (S i) ls; Some (out ++ rest)
  end.

(** [protect_lines]: the file that replaces [file]; [nonces] are drawn from the
    system's randomness. *)
Definition protect_lines (nonces : nat -> list N) (file : list N) : option (list N) :=
  protect_loop nonces 0 (lines file).

(** What a reader decodes from a line of a file. *)
Definition decoded (line : list N) : option str := line ← from_utf8 line; decode_line line.

(** ** Coding *)

Lemma strip_whole p s : strip p (p ++ s) = Some s.
Proof. induction p as [|a p IH]; simpl; [done|]. by rewrite N.eqb_refl. Qed.

Lemma strip_some p s r : strip p s = Some r -> s = p ++ r.
Proof.
  revert s. induction p as [|a p IH]; intros s; simpl; [by intros [= ->]|].
  destruct s as [|b s]; [done|]. case (N.eqb_spec a b) as [->|]; [|done]. by intros ->%IH.
Qed.

Lemma begins_app p s : starts_with p (p ++ s) = true.
Proof. unfold starts_with. rewrite strip_whole. by apply bool_decide_eq_true. Qed.

Lemma to_digit_digit n : n < 16 -> to_digit (digit n) = Some n.
Proof.
  intros Hn. unfold digit, to_digit. destruct (N.ltb_spec n 10) as [H|H].
  - replace ((48 <=? 48 + n) && (48 + n <=? 57)) with true by (symmetry; apply andb_true_iff; split; apply N.leb_le; lia). f_equal. lia.
  - replace ((48 <=? 87 + n) && (87 + n <=? 57)) with false by (symmetry; apply andb_false_iff; right; apply N.leb_gt; lia).
    replace ((97 <=? 87 + n) && (87 + n <=? 102)) with true by (symmetry; apply andb_true_iff; split; apply N.leb_le; lia). f_equal. lia.
Qed.

Lemma unhex_hex bytes : Forall byte bytes -> unhex (hex bytes) = Some bytes.
Proof.
  induction 1 as [|b bytes Hb _ IH]; [done|]. unfold byte in Hb. cbn [hex unhex].
  assert (Hd : b / 16 < 16) by (apply N.div_lt_upper_bound; lia). assert (Hm : b mod 16 < 16) by (apply N.mod_lt; lia).
  rewrite !to_digit_digit by done. cbn [mbind option_bind]. rewrite IH. simpl. do 2 f_equal.
  pose proof (N.div_mod b 16 ltac:(lia)). lia.
Qed.

Lemma digit_hex n : n < 16 -> is_hex (digit n) = true.
Proof.
  intros Hn. unfold digit, is_hex. apply orb_true_iff. destruct (N.ltb_spec n 10); [left|right];
    apply andb_true_iff; split; apply N.leb_le; lia.
Qed.

Lemma hex_digits bytes : Forall byte bytes -> Forall (fun c => is_hex c = true) (hex bytes).
Proof.
  induction 1 as [|b bytes Hb _ IH]; cbn [hex]; [constructor|]. unfold byte in Hb.
  apply Forall_cons; split; [apply digit_hex, N.div_lt_upper_bound; lia|].
  apply Forall_cons; split; [apply digit_hex, N.mod_lt; lia|done].
Qed.

(** ** Sealed lines *)

Context {L : SealedLaws}.

(** A nonce is 24 bytes. *)
Definition nonce_ok (nonce : list N) : Prop := length nonce = 24%nat /\ Forall byte nonce.

Lemma open_seal nonce plain bytes : nonce_ok nonce -> seal nonce plain = Some bytes ->
  open bytes = Some plain /\ Forall byte bytes.
Proof.
  intros [Hn Hb]. unfold seal, open. intros (c & Hc & E)%bind_Some.
  assert (bytes = MAGIC ++ nonce ++ c) as -> by congruence. rewrite strip_whole. cbn [mbind option_bind].
  rewrite length_app, Hn. destruct (Nat.ltb_spec (24 + length c) 24); [lia|].
  rewrite take_app_length', drop_app_length' by done. split; [by apply decrypt_encrypt|].
  apply Forall_app; split; [by repeat constructor|]. apply Forall_app. split; [done|by eapply encrypt_bytes].
Qed.

Lemma is_hex_small c : is_hex c = true -> 13 < c < 128.
Proof. unfold is_hex. rewrite orb_true_iff, !andb_true_iff, !N.leb_le. lia. Qed.

(** A sealed line: printable, terminated, recognised, and read back. *)
Lemma sealed_line_spec nonce line s : nonce_ok nonce -> Forall scalar line -> sealed_line nonce line = Some s ->
  exists l, s = l ++ [10] /\ Forall (fun c => 13 < c < 128) l /\ starts_with SEALED l = true
    /\ decode_line l = Some line /\ exists h b, json_sealed l = Some h /\ unhex (utf8 h) = Some b /\ is_Some (open b).
Proof.
  intros Hn Hl. unfold sealed_line. intros (bytes & Hb & E)%bind_Some.
  assert (s = SEALED ++ [quote] ++ hex bytes ++ [quote; 125; 10]) as -> by congruence.
  apply open_seal in Hb as [Ho Hb]; [|done]. pose proof (hex_digits _ Hb) as Hh.
  exists (SEALED ++ [quote] ++ hex bytes ++ [quote; 125]).
  pose proof (sealed_field _ Hh) as Hf.
  assert (utf8 (hex bytes) = hex bytes) as Hu.
  { apply utf8_ascii. eapply Forall_impl; [exact Hh|]. intros c Hc%is_hex_small. lia. }
  split; [by rewrite <- !app_assoc|]. split; [|split; [apply begins_app|split]].
  - apply Forall_app; split; [by repeat constructor|]. apply Forall_app; split; [by repeat constructor|].
    apply Forall_app; split; [|by repeat constructor]. eapply Forall_impl; [exact Hh|apply is_hex_small].
  - unfold decode_line. rewrite begins_app. cbn [negb]. rewrite Hf. cbn [mbind option_bind].
    rewrite Hu, unhex_hex by done. cbn [mbind option_bind]. rewrite Ho. cbn [mbind option_bind]. by apply from_utf8_utf8.
  - exists (hex bytes), bytes. rewrite Hu, unhex_hex, Ho by done. by split.
Qed.

Definition sealed (l : list N) : bool := starts_with SEALED l.

(** A line as [lines] yields it from a file with no doubled carriage return. *)
Definition clean (l : list N) : Prop := 10 ∉ l /\ last l <> Some 13.

Lemma small_clean l : Forall (fun c => 13 < c < 128) l -> clean l.
Proof.
  rewrite Forall_forall. intros Hl. split; [intros Hin; specialize (Hl _ Hin); lia|].
  intros Hlast. apply last_Some_elem_of in Hlast. specialize (Hl _ Hlast). lia.
Qed.

Lemma ascii_text l : Forall (fun c => 13 < c < 128) l -> utf8 l = l /\ from_utf8 l = Some l.
Proof.
  intros Hl. assert (Hu : utf8 l = l) by (apply utf8_ascii; eapply Forall_impl; [exact Hl|]; intros c Hc; simpl in Hc; lia).
  split; [done|]. rewrite <- Hu at 1. apply from_utf8_utf8. eapply Forall_impl; [exact Hl|].
  intros c Hc. simpl in Hc. unfold scalar. lia.
Qed.

Lemma protect_line_spec nonce l out : nonce_ok nonce -> clean l -> protect_line nonce l = Some out ->
  exists l', out = l' ++ [10] /\ clean l' /\ decoded l' = decoded l
    /\ (exists s, from_utf8 l' = Some s /\ sealed s = true) /\ forall nonce', protect_line nonce' l' = Some out.
Proof.
  intros Hn Hc. unfold protect_line. intros (s & Hs & H)%bind_Some. destruct (starts_with SEALED s) eqn:Hp.
  - pose proof (utf8_from_utf8 _ _ Hs) as [Hu Hf].
    apply bind_Some in H as (h & Hh & H). apply bind_Some in H as (b & Hb & H).
    apply bind_Some in H as (q & Hq & H). exists l. assert (out = l ++ [10]) as -> by congruence.
    split; [done|]. split; [done|]. split; [done|]. split; [by exists s|]. intros nonce'.
    rewrite Hs. cbn [mbind option_bind]. rewrite Hp, Hh. cbn [mbind option_bind]. rewrite Hb. cbn [mbind option_bind].
    rewrite Hq. cbn [mbind option_bind]. by rewrite Hu.
  - pose proof (utf8_from_utf8 _ _ Hs) as [_ Hf]. apply bind_Some in H as (t & Ht & H).
    destruct (sealed_line_spec _ _ _ Hn Hf Ht) as (l' & -> & Hl & Hstart & Hd & h & b & Hh & Hb & q & Hq).
    destruct (ascii_text _ Hl) as [Hu Hfrom]. assert (out = l' ++ [10]) as ->.
    { assert (out = utf8 (l' ++ [10])) as -> by congruence. rewrite utf8_app, Hu. done. }
    exists l'. split; [done|]. split; [by apply small_clean|].
    split; [|split; [by exists l'|]].
    + unfold decoded. rewrite Hfrom, Hs. cbn [mbind option_bind]. rewrite Hd. unfold decode_line. by rewrite Hp.
    + intros nonce'. rewrite Hfrom. cbn [mbind option_bind]. rewrite Hstart, Hh. cbn [mbind option_bind].
      rewrite Hb. cbn [mbind option_bind]. rewrite Hq. cbn [mbind option_bind]. by rewrite Hu.
Qed.

Lemma protect_loop_spec nonces i ls out : (forall k, nonce_ok (nonces k)) -> Forall clean ls ->
  protect_loop nonces i ls = Some out ->
  exists ls', out = concat (map (.++ [10]) ls') /\ Forall clean ls' /\ map decoded ls' = map decoded ls
    /\ Forall (fun l => exists s, from_utf8 l = Some s /\ sealed s = true) ls'
    /\ forall nonces' j, protect_loop nonces' j ls' = Some out.
Proof.
  intros Hn. revert i out. induction ls as [|l ls IH]; intros i out; cbn [protect_loop].
  - intros _ [= <-]. by exists [].
  - intros [Hl Hls]%Forall_cons (o & Ho & H)%bind_Some. apply bind_Some in H as (r & Hr & H).
    assert (out = o ++ r) as -> by congruence.
    destruct (protect_line_spec _ _ _ (Hn i) Hl Ho) as (l' & -> & Hc & Hd & Hs & Hagain).
    destruct (IH _ _ Hls Hr) as (ls' & -> & Hcs & Hds & Hss & Hagains).
    exists (l' :: ls'). split; [done|]. split; [by constructor|]. split; [cbn; by rewrite Hd, Hds|].
    split; [by constructor|]. intros nonces' j. cbn [protect_loop].
    rewrite Hagain. cbn [mbind option_bind]. by rewrite Hagains.
Qed.

Lemma lines_clean ls : Forall clean ls -> lines (concat (map (.++ [10]) ls)) = ls.
Proof.
  intros Hls. unfold lines. rewrite chunks_concat.
  - induction Hls as [|l ls [_ Hl] _ IH]; [done|]. cbn. by rewrite chomp_app, IH.
  - induction Hls as [|l ls [Hl _] _ IH]; [constructor|]. constructor; [by exists l|done].
Qed.

(** C40: protecting a stream changes no record: every line of the new file is
    sealed and a reader decodes from it what it decoded from the old one; and an
    interrupted migration can be repeated, it leaves a protected file as it is. *)
Theorem protect_keeps_records nonces file file' :
  (forall k, nonce_ok (nonces k)) -> Forall (fun l => last l <> Some 13) (lines file) ->
  protect_lines nonces file = Some file' ->
  map decoded (lines file') = map decoded (lines file)
  /\ Forall (fun l => exists s, from_utf8 l = Some s /\ sealed s = true) (lines file')
  /\ forall nonces', protect_lines nonces' file' = Some file'.
Proof.
  intros Hn Hcr H. unfold protect_lines in *.
  assert (Hclean : Forall clean (lines file)).
  { pose proof (lines_no_newline file) as Hnl. rewrite Forall_forall in *. intros l Hl. split; auto. }
  destruct (protect_loop_spec _ _ _ _ Hn Hclean H) as (ls & -> & Hls & Hd & Hs & Hagain).
  rewrite lines_clean by done. split; [done|]. by split.
Qed.
End Privacy.

(** ** A concrete cipher *)

#[local] Instance sample_aead : Aead := {|
  encrypt := fun _ _ msg => if forallb (fun b => b <? 256) msg then Some (rev msg) else None;
  decrypt := fun _ _ c => Some (rev c) |}.

#[local] Instance sample_json : SealedJson := fun line =>
  rest ← strip (SEALED ++ [quote]) (trim line); Some (take (length rest - 2) rest).

#[local] Instance sample_laws : SealedLaws.
Proof.
  assert (forall msg c, (if forallb (fun b => b <? 256) msg then Some (rev msg) else None) = Some c ->
    c = rev msg /\ Forall byte msg) as H.
  { intros msg c. destruct (forallb _ msg) eqn:E; [|done]. intros [= <-]. split; [done|].
    apply Is_true_true, forallb_True in E. eapply Forall_impl; [exact E|].
    intros b Hb. apply Is_true_true, N.ltb_lt in Hb. exact Hb. }
  split.
  - intros nonce aad msg c [-> _]%H. simpl. by rewrite rev_involutive.
  - intros nonce aad msg c [-> Hm]%H. by apply Forall_rev.
  - intros h _. unfold json_sealed, sample_json.
    replace (trim (SEALED ++ [quote] ++ h ++ [quote; 125])) with (SEALED ++ [quote] ++ h ++ [quote; 125])
      by (unfold trim; by rewrite !rev_app_distr; simpl; rewrite !rev_app_distr, !rev_involutive; simpl; rewrite <- !app_assoc).
    rewrite app_assoc, strip_whole. cbn [mbind option_bind].
    rewrite length_app, Nat.add_sub. by rewrite take_app_length.
Qed.

Definition zeros : list N := replicate 24 0.

(** A stream with a plain line, a plain line cut short, and before them a line
    that an interrupted migration sealed. *)
Definition sample_stream : list N :=
  default [] (sealed_line zeros (lit "{}")) ++ lit "{1}" ++ [10] ++ lit "{2".

Lemma protect_keeps_records_witness :
  exists file', protect_lines (fun _ => zeros) sample_stream = Some file'
    /\ map decoded (lines file') = [Some (lit "{}"); Some (lit "{1}"); Some (lit "{2")]
    /\ protect_lines (fun _ => replicate 24 1) file' = Some file'.
Proof.
  destruct (protect_lines (fun _ => zeros) sample_stream) as [file'|] eqn:E; [|vm_compute in E; discriminate E].
  exists file'. split; [done|].
  destruct (protect_keeps_records (fun _ => zeros) sample_stream file') as (H1 & _ & H3).
  - intros k. split; [done|]. by repeat constructor.
  - apply (bool_decide_unpack _). by vm_compute.
  - exact E.
  - split; [|apply H3]. rewrite H1. by vm_compute.
Defined.
