(* ===== verification/Float32.v ===== *)
(** * Binary32 arithmetic, for the split ratios of the layout tree

    A Rust [f32] is an IEEE 754 binary32 number: the Standard Library's
    [spec_float] at precision 24 and maximal exponent 128, whose operations
    round to nearest even as the hardware does. No primitive floats are used. *)

From S2P Require Import Prelude.
From Stdlib Require Import ZArith Floats.SpecFloat.

Abbreviation f32 := spec_float (only parsing).

Definition f32_mul : f32 -> f32 -> f32 := SFmul 24 128.
Definition f32_add : f32 -> f32 -> f32 := SFadd 24 128.
Definition f32_div : f32 -> f32 -> f32 := SFdiv 24 128.

(** [n as f32] and [f32::from(n)] for an unsigned integer. *)
Definition f32_of_N (n : N) : f32 := binary_normalize 24 128 (Z.of_N n) 0 false.

(** The literals [0.5], [0.1] and [0.9], correctly rounded. *)
Definition f32_half : f32 := S754_finite false 8388608 (-24).
Definition f32_0_1 : f32 := S754_finite false 13421773 (-27).
Definition f32_0_9 : f32 := S754_finite false 15099494 (-24).

(** [x.clamp(lo, hi)] on floats: a NaN stays a NaN. *)
Definition f32_clamp (x lo hi : f32) : f32 :=
  let x := if SFltb x lo then lo else x in
  if SFltb hi x then hi else x.

(** [x.round() as u16]: to the nearest integer with halves away from zero, then
    the saturating cast, which sends a NaN and every negative number to 0. *)
Definition f32_round_u16 (x : f32) : N :=
  match x with
  | S754_nan | S754_zero _ | S754_infinity true => 0
  | S754_infinity false => u16_max
  | S754_finite true _ _ => 0
  | S754_finite false m e =>
      match e with
      | Zneg p => N.min (N.shiftr (Npos m + 2 ^ (Npos p - 1)) (Npos p)) u16_max
      | _ => N.min (N.shiftl (Npos m) (Z.to_N e)) u16_max
      end
  end.

(** The band a divider may be dragged in: a real number between the two
    literals, so in particular not a NaN. *)
Definition in_band (x : f32) : bool := SFleb f32_0_1 x && SFleb x f32_0_9.

Definition is_nan (x : f32) : bool :=
  match x with S754_nan => true | _ => false end.

Lemma SFcompare_nan_r x : SFcompare x S754_nan = None.
Proof. by destruct x. Qed.

Lemma SFltb_false_leb x y :
  is_nan x = false -> is_nan y = false -> SFltb x y = false -> SFleb y x = true.
Proof.
  unfold SFltb, SFleb. destruct x as [s|s| |s m e], y as [s'|s'| |s' m' e']; simpl;
    try done; intros _ _; try (by destruct s, s'); try (by destruct s); try (by destruct s').
  pose proof (Pos.compare_cont_antisym m m' Eq : _ = PosDef.Pos.compare_cont Eq m' m) as Hm.
  destruct s, s'; simpl; try done;
    rewrite (Z.compare_antisym e e'); destruct (Z.compare e e'); simpl; try done;
    rewrite <- Hm; simpl; by destruct (PosDef.Pos.compare_cont Eq m m').
Qed.

(** Clamping anything but a NaN into the band lands in the band. *)
Lemma f32_clamp_in_band x :
  is_nan x = false -> in_band (f32_clamp x f32_0_1 f32_0_9) = true.
Proof.
  intros Hx. unfold f32_clamp, in_band.
  destruct (SFltb x f32_0_1) eqn:E1; [by vm_compute|].
  destruct (SFltb f32_0_9 x) eqn:E2; [by vm_compute|].
  apply SFltb_false_leb in E1; [|done|done].
  apply SFltb_false_leb in E2; [|done|done].
  by rewrite E1, E2.
Qed.

Lemma in_band_not_nan x : in_band x = true -> is_nan x = false.
Proof. by destruct x. Qed.

(** A number in the band is a positive finite number. *)
Lemma in_band_finite x :
  in_band x = true -> exists m e, x = S754_finite false m e.
Proof.
  destruct x as [[]|[]| |[] m e]; intros H;
    [exfalso; vm_compute in H; discriminate H..|exists m, e; reflexivity].
Qed.

(** Rounding a finite number gives a number. *)
Lemma shr_1_nonneg r :
  (0 <= shr_m r)%Z -> (0 <= shr_m (shr_1 r))%Z.
Proof. destruct r as [[|[]|[]] r s]; simpl; lia. Qed.

Lemma iter_shr_1_nonneg p r :
  (0 <= shr_m r)%Z -> (0 <= shr_m (iter_pos shr_1 p r))%Z.
Proof.
  revert r. induction p; intros r Hr; simpl; auto using shr_1_nonneg.
Qed.

Lemma shr_fexp_nonneg m e l :
  (0 <= m)%Z -> (0 <= shr_m (fst (shr_fexp 24 128 m e l)))%Z.
Proof.
  intros Hm. unfold shr_fexp, shr.
  assert (0 <= shr_m (shr_record_of_loc m l))%Z by (by destruct l as [|[]]; simpl).
  destruct (_ - _)%Z; simpl; auto using iter_shr_1_nonneg.
Qed.

Lemma round_nearest_even_nonneg m l :
  (0 <= m)%Z -> (0 <= round_nearest_even m l)%Z.
Proof. intros. destruct l as [|[]]; simpl; [done|destruct (Z.even m)|..]; lia. Qed.

Lemma binary_round_aux_not_nan s m e l :
  (0 <= m)%Z -> is_nan (binary_round_aux 24 128 s m e l) = false.
Proof.
  intros Hm. unfold binary_round_aux.
  pose proof (shr_fexp_nonneg m e l Hm) as H1.
  destruct (shr_fexp 24 128 m e l) as [r1 e1]; simpl in *.
  pose proof (shr_fexp_nonneg _ e1 loc_Exact
                (round_nearest_even_nonneg _ (loc_of_shr_record r1) H1)) as H2.
  destruct (shr_fexp 24 128 (round_nearest_even _ _) e1 loc_Exact) as [r2 e2]; simpl in *.
  destruct (shr_m r2); [done| |lia]. by destruct (_ <=? _)%Z.
Qed.

Lemma binary_normalize_not_nan m e z : is_nan (binary_normalize 24 128 m e z) = false.
Proof.
  unfold binary_normalize, binary_round. destruct m as [|m|m]; [done|..];
    destruct (shl_align _ _ _); by apply binary_round_aux_not_nan.
Qed.

(** Nudging a ratio of the band by anything but a NaN is not a NaN. *)
Lemma f32_add_not_nan x y :
  in_band x = true -> is_nan y = false -> is_nan (f32_add x y) = false.
Proof.
  intros (m & e & ->)%in_band_finite Hy. unfold f32_add, SFadd.
  destruct y as [|[]| |]; try done. apply binary_normalize_not_nan.
Qed.

(** Every nonzero [u16] converts to a positive finite number: checked value by
    value. *)
Definition is_pos_finite (x : f32) : bool :=
  match x with S754_finite false _ _ => true | _ => false end.

Fixpoint all_below (f : N -> bool) (k : nat) (n : N) : bool :=
  match k with
  | O => true
  | S k' => f n && all_below f k' (N.succ n)
  end.

Lemma all_below_spec f k n :
  all_below f k n = true -> forall i, n <= i -> i < n + N.of_nat k -> f i = true.
Proof.
  revert n. induction k as [|k IH]; intros n; simpl; [lia|].
  intros [H1 H2]%andb_prop i Hi Hk.
  destruct (decide (i = n)) as [->|]; [done|]. apply (IH (N.succ n)); [done|lia..].
Qed.

Lemma f32_of_N_check :
  all_below (fun n => is_pos_finite (f32_of_N n)) (N.to_nat u16_max) 1 = true.
Proof. by vm_compute. Qed.

Lemma f32_of_N_finite n :
  0 < n -> n < U16 -> exists m e, f32_of_N n = S754_finite false m e.
Proof.
  intros H1 H2.
  pose proof (all_below_spec _ _ _ f32_of_N_check n) as H.
  rewrite N2Nat.id in H. change U16 with 65536 in H2. change u16_max with 65535 in H.
  specialize (H ltac:(lia) ltac:(lia)).
  destruct (f32_of_N n) as [|[]| |[]]; try done. eauto.
Qed.

(** The quotient of a drag, [f32::from(wanted) / f32::from(avail)]. *)
Lemma f32_div_not_nan a b :
  0 < a < U16 -> 0 < b < U16 -> is_nan (f32_div (f32_of_N a) (f32_of_N b)) = false.
Proof.
  intros [Ha Ha'] [Hb Hb'].
  destruct (f32_of_N_finite a Ha Ha') as (m & e & ->).
  destruct (f32_of_N_finite b Hb Hb') as (m' & e' & ->).
  unfold f32_div, SFdiv, SFdiv_core_binary.
  set (k := match _ with Z0 => _ | Zpos _ => _ | Zneg _ => _ end).
  assert (0 <= k)%Z as Hk.
  { subst k. destruct (_ - _)%Z; [lia| |lia]. apply Z.shiftl_nonneg. lia. }
  pose proof (Z.div_pos k (Zpos m') Hk ltac:(lia)) as Hd. unfold Z.div in Hd.
  destruct (Z.div_eucl k (Zpos m')). by apply binary_round_aux_not_nan.
Qed.
