(* ===== verification/Layout.v ===== *)
(** * The window layout tree ([crates/uniterm-core/src/layout.rs])

    A Tab is tiled by a binary tree of splits with Pane leaves. This file has the
    tree, the geometry [compute] gives it in an area of cells, and the edits:
    splitting a leaf, removing one, nudging a split and dragging a divider.
    Coordinates are [u16], so every sum is taken modulo 65536; a theorem about
    geometry assumes an area that fits the coordinate space ([fits]). *)

From S2P Require Import Prelude Float32.
From Stdlib Require Import Floats.SpecFloat.

(** [PaneId] is a newtype over [u64]. *)
Abbreviation PaneId := N (only parsing).

Record Rect := mkRect { rx : N; ry : N; rw : N; rh : N }.

#[export] Instance Rect_eq_dec : EqDecision Rect.
Proof. solve_decision. Defined.

Definition right (r : Rect) : N := rx r +16 rw r.
Definition bottom (r : Rect) : N := ry r +16 rh r.
Definition contains (r : Rect) (x y : N) : bool :=
  (rx r <=? x) && (x <? right r) && (ry r <=? y) && (y <? bottom r).

Inductive SplitDir := Horizontal | Vertical.
#[export] Instance SplitDir_eq_dec : EqDecision SplitDir.
Proof. solve_decision. Defined.

Inductive LayoutNode :=
  | Leaf (id : PaneId)
  | Split (dir : SplitDir) (ratio : f32) (first second : LayoutNode).

Record Divider := mkDivider { d_dir : SplitDir; d_rect : Rect }.

Record Layout := mkLayout { panes : list (PaneId * Rect); dividers : list Divider }.

Definition Layout_default : Layout := mkLayout [] [].

Definition push_pane (out : Layout) (id : PaneId) (r : Rect) : Layout :=
  mkLayout (panes out ++ [(id, r)]) (dividers out).
Definition push_divider (out : Layout) (d : Divider) : Layout :=
  mkLayout (panes out) (dividers out ++ [d]).

Definition rect_of (l : Layout) (id : PaneId) : option Rect :=
  (fun p : nat * (PaneId * Rect) => (p.2).2) <$> list_find (fun p => p.1 = id) (panes l).

(** The size a split gives its first child out of [avail] cells. *)
Definition first_extent (avail : N) (ratio : f32) : N :=
  nclamp (f32_round_u16 (f32_mul (f32_of_N avail) ratio)) 1 (avail -16 1).

Module LayoutNode.

Fixpoint walk (n : LayoutNode) (area : Rect) (out : Layout) : Layout :=
  match n with
  | Leaf id => push_pane out id area
  | Split Horizontal ratio first second =>
      if rw area <? 3 then walk first area out
      else
        let avail := rw area -16 1 in
        let w1 := first_extent avail ratio in
        let w2 := avail -16 w1 in
        let out := walk first (mkRect (rx area) (ry area) w1 (rh area)) out in
        let out := push_divider out
          (mkDivider Horizontal (mkRect (rx area +16 w1) (ry area) 1 (rh area))) in
        walk second (mkRect (rx area +16 w1 +16 1) (ry area) w2 (rh area)) out
  | Split Vertical ratio first second =>
      if rh area <? 3 then walk first area out
      else
        let avail := rh area -16 1 in
        let h1 := first_extent avail ratio in
        let h2 := avail -16 h1 in
        let out := walk first (mkRect (rx area) (ry area) (rw area) h1) out in
        let out := push_divider out
          (mkDivider Vertical (mkRect (rx area) (ry area +16 h1) (rw area) 1)) in
        walk second (mkRect (rx area) (ry area +16 h1 +16 1) (rw area) h2) out
  end.

Definition compute (n : LayoutNode) (area : Rect) : Layout := walk n area Layout_default.

Fixpoint first_pane (n : LayoutNode) : PaneId :=
  match n with
  | Leaf id => id
  | Split _ _ first _ => first_pane first
  end.

Fixpoint collect (n : LayoutNode) (v : list PaneId) : list PaneId :=
  match n with
  | Leaf id => v ++ [id]
  | Split _ _ first second => collect second (collect first v)
  end.

Definition pane_ids (n : LayoutNode) : list PaneId := collect n [].
#[global] Arguments pane_ids : simpl never.

Fixpoint pane_count (n : LayoutNode) : nat :=
  match n with
  | Leaf _ => 1
  | Split _ _ first second => pane_count first + pane_count second
  end.

Fixpoint contains_pane (n : LayoutNode) (id : PaneId) : bool :=
  match n with
  | Leaf p => p =? id
  | Split _ _ first second => contains_pane first id || contains_pane second id
  end.

(** [split] mutates the tree in place and reports whether it found the target;
    the second child is visited only when the first one did not have it. *)
Fixpoint split (n : LayoutNode) (target : PaneId) (dir : SplitDir) (new_pane : PaneId)
    : LayoutNode * bool :=
  match n with
  | Leaf id =>
      if id =? target then (Split dir f32_half (Leaf id) (Leaf new_pane), true)
      else (n, false)
  | Split d r first second =>
      let (first', found) := split first target dir new_pane in
      if found then (Split d r first' second, true)
      else
        let (second', found) := split second target dir new_pane in
        (Split d r first' second', found)
  end.

Fixpoint without (n : LayoutNode) (target : PaneId) : option LayoutNode :=
  match n with
  | Leaf id => if id =? target then None else Some (Leaf id)
  | Split dir ratio first second =>
      match without first target, without second target with
      | None, None => None
      | Some n, None | None, Some n => Some n
      | Some a, Some b => Some (Split dir ratio a b)
      end
  end.

(** How far a resize got: the target is not in the subtree, it was found, or a
    matching split already adjusted its ratio. *)
Inductive Resize := Absent | Found | Handled.

Fixpoint resize_inner (n : LayoutNode) (target : PaneId) (orient : SplitDir) (delta : f32)
    : LayoutNode * Resize :=
  match n with
  | Leaf id => (n, if id =? target then Found else Absent)
  | Split dir ratio first second =>
      let (first, r) := resize_inner first target orient delta in
      let (second, r) :=
        match r with
        | Absent => resize_inner second target orient delta
        | _ => (second, r)
        end in
      match r with
      | Found =>
          if bool_decide (dir = orient)
          then (Split dir (f32_clamp (f32_add ratio delta) f32_0_1 f32_0_9) first second, Handled)
          else (Split dir ratio first second, r)
      | _ => (Split dir ratio first second, r)
      end
  end.

Definition resize_pane (n : LayoutNode) (target : PaneId) (orient : SplitDir) (delta : f32)
    : LayoutNode * bool :=
  let (n, r) := resize_inner n target orient delta in
  (n, match r with Handled => true | _ => false end).

(** The ratio a drag to [pos] asks for, on an axis starting at [origin]. *)
Definition drag_ratio (pos origin avail : N) : f32 :=
  let wanted := nclamp (ssub pos origin) 1 (avail -16 1) in
  f32_clamp (f32_div (f32_of_N wanted) (f32_of_N avail)) f32_0_1 f32_0_9.

Fixpoint set_divider_at (n : LayoutNode) (area divider : Rect) (x y : N)
    : LayoutNode * bool :=
  match n with
  | Leaf _ => (n, false)
  | Split Horizontal ratio first second =>
      if rw area <? 3 then
        let (first, b) := set_divider_at first area divider x y in
        (Split Horizontal ratio first second, b)
      else
        let avail := rw area -16 1 in
        let w1 := first_extent avail ratio in
        let here := mkRect (rx area +16 w1) (ry area) 1 (rh area) in
        if bool_decide (here = divider) then
          (Split Horizontal (drag_ratio x (rx area) avail) first second, true)
        else
          let (first, b) := set_divider_at first (mkRect (rx area) (ry area) w1 (rh area)) divider x y in
          if b then (Split Horizontal ratio first second, true)
          else
            let (second, b) := set_divider_at second
              (mkRect (rx area +16 w1 +16 1) (ry area) (avail -16 w1) (rh area)) divider x y in
            (Split Horizontal ratio first second, b)
  | Split Vertical ratio first second =>
      if rh area <? 3 then
        let (first, b) := set_divider_at first area divider x y in
        (Split Vertical ratio first second, b)
      else
        let avail := rh area -16 1 in
        let h1 := first_extent avail ratio in
        let here := mkRect (rx area) (ry area +16 h1) (rw area) 1 in
        if bool_decide (here = divider) then
          (Split Vertical (drag_ratio y (ry area) avail) first second, true)
        else
          let (first, b) := set_divider_at first (mkRect (rx area) (ry area) (rw area) h1) divider x y in
          if b then (Split Vertical ratio first second, true)
          else
            let (second, b) := set_divider_at second
              (mkRect (rx area) (ry area +16 h1 +16 1) (rw area) (avail -16 h1)) divider x y in
            (Split Vertical ratio first second, b)
  end.

End LayoutNode.
Import LayoutNode.

(** ** Geometry

    [cover r x y] is 1 on the cells of [r]; summed over the rectangles of a
    layout it counts how many of them a cell lies in. *)

Definition cover (r : Rect) (x y : N) : nat := if contains r x y then 1%nat else 0%nat.

Definition covers (rs : list Rect) (x y : N) : nat :=
  sum_list (map (fun r => cover r x y) rs).

Definition rects (l : Layout) : list Rect := map snd (panes l) ++ map d_rect (dividers l).

(** The area lies inside the coordinate space and is not empty. *)
Definition fits (r : Rect) : Prop :=
  0 < rw r /\ 0 < rh r /\ rx r + rw r < U16 /\ ry r + rh r < U16.

#[export] Instance fits_dec r : Decision (fits r).
Proof. unfold fits. apply _. Defined.

Lemma contains_fits r x y :
  rx r + rw r < U16 -> ry r + rh r < U16 ->
  contains r x y =
  (rx r <=? x) && (x <? rx r + rw r) && (ry r <=? y) && (y <? ry r + rh r).
Proof. intros H1 H2. unfold contains, right, bottom. by rewrite !wadd_small. Qed.

Lemma first_extent_range avail ratio :
  2 <= avail < U16 -> 1 <= first_extent avail ratio <= avail - 1.
Proof.
  intros H. unfold first_extent. rewrite wsub_small by lia. apply nclamp_range. lia.
Qed.

(** A horizontal cut at [a] cells, with a one-cell divider, covers each cell of
    the area once; [cut_v] is the same for rows. *)
Lemma cut_h r a x y :
  fits r -> 1 <= a <= rw r - 2 -> 3 <= rw r ->
  (cover (mkRect (rx r) (ry r) a (rh r)) x y +
   (cover (mkRect (rx r +16 a) (ry r) 1 (rh r)) x y +
    cover (mkRect (rx r +16 a +16 1) (ry r) (rw r -16 1 -16 a) (rh r)) x y) = cover r x y)%nat.
Proof.
  intros (Hw & Hh & Hx & Hy) Ha H3. unfold cover.
  rewrite (wadd_small U16 (rx r)), (wadd_small U16 _ 1) by lia.
  rewrite (wsub_small U16 (rw r)), (wsub_small U16 _ a) by lia.
  rewrite !contains_fits by (simpl; lia). simpl. bool_lia.
Qed.

Lemma cut_v r a x y :
  fits r -> 1 <= a <= rh r - 2 -> 3 <= rh r ->
  (cover (mkRect (rx r) (ry r) (rw r) a) x y +
   (cover (mkRect (rx r) (ry r +16 a) (rw r) 1) x y +
    cover (mkRect (rx r) (ry r +16 a +16 1) (rw r) (rh r -16 1 -16 a)) x y) = cover r x y)%nat.
Proof.
  intros (Hw & Hh & Hx & Hy) Ha H3. unfold cover.
  rewrite (wadd_small U16 (ry r)), (wadd_small U16 _ 1) by lia.
  rewrite (wsub_small U16 (rh r)), (wsub_small U16 _ a) by lia.
  rewrite !contains_fits by (simpl; lia). simpl. bool_lia.
Qed.

(** The three parts of a cut fit where the area does. *)
Lemma cut_fits_h r a :
  fits r -> 1 <= a <= rw r - 2 -> 3 <= rw r ->
  fits (mkRect (rx r) (ry r) a (rh r)) /\
  fits (mkRect (rx r +16 a) (ry r) 1 (rh r)) /\
  fits (mkRect (rx r +16 a +16 1) (ry r) (rw r -16 1 -16 a) (rh r)).
Proof.
  intros (Hw & Hh & Hx & Hy) Ha H3. unfold fits; simpl.
  rewrite (wadd_small U16 (rx r)), (wadd_small U16 _ 1) by lia.
  rewrite (wsub_small U16 (rw r)), (wsub_small U16 _ a) by lia. lia.
Qed.

Lemma cut_fits_v r a :
  fits r -> 1 <= a <= rh r - 2 -> 3 <= rh r ->
  fits (mkRect (rx r) (ry r) (rw r) a) /\
  fits (mkRect (rx r) (ry r +16 a) (rw r) 1) /\
  fits (mkRect (rx r) (ry r +16 a +16 1) (rw r) (rh r -16 1 -16 a)).
Proof.
  intros (Hw & Hh & Hx & Hy) Ha H3. unfold fits; simpl.
  rewrite (wadd_small U16 (ry r)), (wadd_small U16 _ 1) by lia.
  rewrite (wsub_small U16 (rh r)), (wsub_small U16 _ a) by lia. lia.
Qed.

(** One cut serves both orientations: the two child areas and the divider's
    rectangle, or [None] when the area is too small to divide. *)
Definition cut (dir : SplitDir) (ratio : f32) (area : Rect) : option (Rect * Rect * Rect) :=
  match dir with
  | Horizontal =>
      if rw area <? 3 then None
      else
        let avail := rw area -16 1 in
        let a := first_extent avail ratio in
        Some (mkRect (rx area) (ry area) a (rh area),
              mkRect (rx area +16 a) (ry area) 1 (rh area),
              mkRect (rx area +16 a +16 1) (ry area) (avail -16 a) (rh area))
  | Vertical =>
      if rh area <? 3 then None
      else
        let avail := rh area -16 1 in
        let a := first_extent avail ratio in
        Some (mkRect (rx area) (ry area) (rw area) a,
              mkRect (rx area) (ry area +16 a) (rw area) 1,
              mkRect (rx area) (ry area +16 a +16 1) (rw area) (avail -16 a))
  end.

Lemma cut_spec dir ratio area r1 d r2 :
  fits area -> cut dir ratio area = Some (r1, d, r2) ->
  fits r1 /\ fits d /\ fits r2 /\
  (forall x y, cover r1 x y + (cover d x y + cover r2 x y) = cover area x y)%nat.
Proof.
  intros Hf Hc. pose proof Hf as (Hw & Hh & Hx & Hy).
  destruct dir; simpl in Hc; case_match eqn:E; simplify_eq; apply N.ltb_ge in E.
  - pose proof (first_extent_range (rw area -16 1) ratio) as Hr.
    set (a := first_extent _ _) in *. rewrite wsub_small in Hr by lia.
    pose proof (cut_fits_h area a Hf ltac:(lia) ltac:(lia)) as (?&?&?).
    split; [done|split; [done|split; [done|]]]. intros x y. by apply cut_h; [|lia..].
  - pose proof (first_extent_range (rh area -16 1) ratio) as Hr.
    set (a := first_extent _ _) in *. rewrite wsub_small in Hr by lia.
    pose proof (cut_fits_v area a Hf ltac:(lia) ltac:(lia)) as (?&?&?).
    split; [done|split; [done|split; [done|]]]. intros x y. by apply cut_v; [|lia..].
Qed.

(** [walk] appends what [compute] gives, so [compute] satisfies the equations of
    a direct recursion. *)
Definition lapp (l1 l2 : Layout) : Layout :=
  mkLayout (panes l1 ++ panes l2) (dividers l1 ++ dividers l2).

Lemma lapp_assoc a b c : lapp (lapp a b) c = lapp a (lapp b c).
Proof. unfold lapp; simpl. by rewrite <- !app_assoc. Qed.

Lemma lapp_default_r a : lapp a Layout_default = a.
Proof. destruct a; unfold lapp; simpl. by rewrite !app_nil_r. Qed.

Lemma walk_split dir ratio a b area out :
  walk (Split dir ratio a b) area out =
  match cut dir ratio area with
  | None => walk a area out
  | Some (r1, d, r2) => walk b r2 (push_divider (walk a r1 out) (mkDivider dir d))
  end.
Proof. destruct dir; simpl; by case_match. Qed.

Lemma push_divider_lapp l d : push_divider l d = lapp l (mkLayout [] [d]).
Proof. destruct l; unfold lapp, push_divider; simpl. by rewrite app_nil_r. Qed.

Lemma walk_app n area out : walk n area out = lapp out (compute n area).
Proof.
  unfold compute. revert area out. induction n as [id|dir ratio a IHa b IHb]; intros area out.
  - unfold lapp; simpl. by rewrite app_nil_r.
  - rewrite !walk_split. destruct (cut dir ratio area) as [[[r1 d] r2]|]; [|apply IHa].
    rewrite (IHb r2 (push_divider (walk a r1 out) _)).
    rewrite (IHb r2 (push_divider (walk a r1 Layout_default) _)).
    rewrite (IHa r1 out), !push_divider_lapp, !lapp_assoc. done.
Qed.

Lemma compute_split dir ratio a b area :
  compute (Split dir ratio a b) area =
  match cut dir ratio area with
  | None => compute a area
  | Some (r1, d, r2) =>
      lapp (compute a r1) (lapp (mkLayout [] [mkDivider dir d]) (compute b r2))
  end.
Proof.
  unfold compute at 1. rewrite walk_split.
  destruct (cut dir ratio area) as [[[r1 d] r2]|]; [|done].
  by rewrite walk_app, push_divider_lapp, lapp_assoc.
Qed.

Lemma covers_app l1 l2 x y : covers (l1 ++ l2) x y = (covers l1 x y + covers l2 x y)%nat.
Proof. unfold covers. rewrite map_app. induction (map _ l1); simpl; lia. Qed.

Lemma covers_rects_lapp l1 l2 x y :
  covers (rects (lapp l1 l2)) x y = (covers (rects l1) x y + covers (rects l2) x y)%nat.
Proof. unfold rects, lapp; simpl. rewrite !map_app, !covers_app. lia. Qed.

Lemma Forall_rects_lapp (P : Rect -> Prop) l1 l2 :
  Forall P (rects l1) -> Forall P (rects l2) -> Forall P (rects (lapp l1 l2)).
Proof.
  unfold rects, lapp; simpl. rewrite !map_app, !Forall_app. intros [? ?] [? ?]. auto.
Qed.

(** ** Laying a tree out *)

Lemma compute_fits n area :
  fits area -> Forall fits (rects (compute n area)).
Proof.
  revert area. induction n as [id|dir ratio a IHa b IHb]; intros area Hf.
  - by apply Forall_singleton.
  - rewrite compute_split. destruct (cut dir ratio area) as [[[r1 d] r2]|] eqn:Hc; [|auto].
    destruct (cut_spec _ _ _ _ _ _ Hf Hc) as (H1 & Hd & H2 & _).
    apply Forall_rects_lapp; [auto|]. apply Forall_rects_lapp; [|auto].
    by apply Forall_singleton.
Qed.

(** C16: Laying a layout tree into a nonempty area tiles it exactly, whatever the
    ratios (a NaN included): every cell of the area lies in exactly one Pane
    rectangle or divider, no cell outside it lies in any, and every rectangle
    produced has at least one column and one row and stays inside the [u16]
    coordinate space. *)
Theorem compute_tiles n area :
  fits area ->
  (forall x y, covers (rects (compute n area)) x y = cover area x y) /\
  Forall fits (rects (compute n area)).
Proof.
  intros Hf. split; [|by apply compute_fits].
  revert area Hf. induction n as [id|dir ratio a IHa b IHb]; intros area Hf x y.
  - unfold covers; simpl. lia.
  - rewrite compute_split. destruct (cut dir ratio area) as [[[r1 d] r2]|] eqn:Hc; [|auto].
    destruct (cut_spec _ _ _ _ _ _ Hf Hc) as (H1 & Hd & H2 & Hcov).
    rewrite !covers_rects_lapp, IHa, IHb, <- Hcov by done.
    unfold covers; simpl. lia.
Qed.

Definition sample_tree : LayoutNode :=
  Split Horizontal f32_half (Leaf 1)
    (Split Vertical S754_nan (Leaf 2) (Split Horizontal f32_0_9 (Leaf 3) (Leaf 4))).

Lemma compute_tiles_witness :
  fits (mkRect 4 2 81 24) /\
  (forall x y, covers (rects (compute sample_tree (mkRect 4 2 81 24))) x y
               = cover (mkRect 4 2 81 24) x y) /\
  length (panes (compute sample_tree (mkRect 4 2 81 24))) = 4%nat.
Proof.
  split; [by vm_compute|]. split; [|by vm_compute].
  apply (compute_tiles sample_tree (mkRect 4 2 81 24)). by vm_compute.
Defined.

(** ** Pane identities *)

Lemma collect_app n v : collect n v = v ++ pane_ids n.
Proof.
  unfold pane_ids. revert v. induction n as [id|d r a IHa b IHb]; intros v; simpl; [done|].
  rewrite IHb, IHa, (IHb (collect a [])), (IHa []). by rewrite <- !app_assoc.
Qed.

Lemma pane_ids_split d r a b : pane_ids (Split d r a b) = pane_ids a ++ pane_ids b.
Proof. unfold pane_ids at 1; simpl. by rewrite collect_app. Qed.


Lemma pane_count_ids n : pane_count n = length (pane_ids n).
Proof.
  induction n; [done|]. rewrite pane_ids_split, length_app; simpl. by f_equal.
Qed.

Lemma contains_pane_ids n id : contains_pane n id = bool_decide (id ∈ pane_ids n).
Proof.
  induction n as [p|d r a IHa b IHb]; simpl.
  - unfold pane_ids; simpl. destruct (N.eqb_spec p id) as [->|].
    + symmetry. apply bool_decide_eq_true. by constructor.
    + symmetry. apply bool_decide_eq_false. set_solver.
  - rewrite pane_ids_split, IHa, IHb, <- bool_decide_or.
    apply bool_decide_ext. set_solver.
Qed.

Lemma first_pane_head n : head (pane_ids n) = Some (first_pane n).
Proof.
  induction n as [|d r a IHa b IHb]; [done|]. rewrite pane_ids_split; simpl.
  destruct (pane_ids a); simpl in *; congruence.
Qed.

(** The Panes drawn are those of the tree in tree order; an area too small to
    divide drops the second child, never the first. *)
Lemma compute_panes n area :
  (panes (compute n area)).*1 `sublist_of` pane_ids n /\
  head (panes (compute n area)).*1 = Some (first_pane n).
Proof.
  revert area. induction n as [id|dir ratio a IHa b IHb]; intros area.
  - done.
  - rewrite compute_split, pane_ids_split. simpl.
    destruct (cut dir ratio area) as [[[r1 d] r2]|]; simpl.
    + rewrite fmap_app. split; [by apply sublist_app; [apply IHa|apply IHb]|].
      destruct (IHa r1) as [_ Hh]. by destruct ((panes (compute a r1)).*1).
    + split; [|apply IHa]. by apply sublist_inserts_r, IHa.
Qed.

Lemma without_absent n p : p ∉ pane_ids n -> without n p = Some n.
Proof.
  induction n as [id|d r a IHa b IHb]; simpl.
  - unfold pane_ids; simpl. intros. rewrite (proj2 (N.eqb_neq id p)); [done|set_solver].
  - rewrite pane_ids_split, not_elem_of_app. intros [Ha Hb]. by rewrite IHa, IHb.
Qed.

Lemma split_spec n target dir new_pane :
  new_pane ∉ pane_ids n ->
  let (n', found) := split n target dir new_pane in
  found = contains_pane n target /\
  (if found
   then exists l1 l2, pane_ids n = l1 ++ target :: l2 /\
                      pane_ids n' = l1 ++ target :: new_pane :: l2 /\ target ∉ l1
   else n' = n) /\
  without n' new_pane = Some n.
Proof.
  induction n as [id|d r a IHa b IHb]; simpl; intros Hnew.
  - unfold pane_ids in Hnew; simpl in Hnew. destruct (N.eqb_spec id target) as [->|Hne]; simpl.
    + split; [done|]. split; [|by rewrite N.eqb_refl, (proj2 (N.eqb_neq target new_pane)); [|set_solver]].
      exists [], []. repeat split; set_solver.
    + by rewrite (proj2 (N.eqb_neq id new_pane)); [|set_solver].
  - rewrite pane_ids_split, not_elem_of_app in Hnew. destruct Hnew as [Ha Hb].
    specialize (IHa Ha). specialize (IHb Hb).
    destruct (split a target dir new_pane) as [a' fa]. destruct IHa as (Hfa & Hia & Hwa).
    destruct fa; simpl.
    + destruct Hia as (l1 & l2 & E1 & E2 & Hl). rewrite <- Hfa, Hwa, (without_absent b) by done.
      split; [done|]. split; [|done]. exists l1, (l2 ++ pane_ids b).
      rewrite !pane_ids_split, E1, E2, <- !app_assoc. done.
    + subst a'. destruct (split b target dir new_pane) as [b' fb].
      destruct IHb as (Hfb & Hib & Hwb). rewrite <- Hfa, <- Hfb; simpl.
      rewrite Hwa, Hwb. split; [done|]. split; [|done]. destruct fb; [|by subst b'].
      destruct Hib as (l1 & l2 & E1 & E2 & Hl). exists (pane_ids a ++ l1), l2.
      rewrite !pane_ids_split, E1, E2, <- !app_assoc. repeat split.
      rewrite not_elem_of_app. split; [|done].
      rewrite contains_pane_ids in Hfa. symmetry in Hfa. by apply bool_decide_eq_false in Hfa.
Qed.

(** Splitting a Pane finds it exactly when it is in the tree and inserts the
    new Pane right after its first occurrence; a Pane that is not in the tree
    leaves the tree alone. Removing the new Pane again gives back the very tree
    it was split from, ratios included. *)
Theorem split_without n target dir new_pane :
  new_pane ∉ pane_ids n ->
  let (n', found) := split n target dir new_pane in
  found = contains_pane n target /\
  (if found
   then exists l1 l2, pane_ids n = l1 ++ target :: l2 /\
                      pane_ids n' = l1 ++ target :: new_pane :: l2 /\ target ∉ l1
   else n' = n) /\
  without n' new_pane = Some n.
Proof. apply split_spec. Qed.

Lemma split_without_witness :
  5 ∉ pane_ids sample_tree /\
  without ((split sample_tree 3 Vertical 5).1) 5 = Some sample_tree.
Proof.
  assert (H : 5 ∉ pane_ids sample_tree) by (apply (bool_decide_unpack _); by vm_compute).
  split; [done|]. pose proof (split_without sample_tree 3 Vertical 5 H) as Hs.
  destruct (split sample_tree 3 Vertical 5) as [n' f]. apply Hs.
Defined.

(** Removing a Pane deletes its occurrences and keeps every other Pane in
    order; the tree becomes empty exactly when no other Pane is left. *)
Theorem without_ids n target :
  match without n target with
  | None => Forall (fun id => id = target) (pane_ids n)
  | Some n' => pane_ids n' = filter (fun id => id ≠ target) (pane_ids n)
  end.
Proof.
  induction n as [id|d r a IHa b IHb]; simpl.
  - unfold pane_ids; simpl. destruct (N.eqb_spec id target) as [->|]; [by repeat constructor|].
    by rewrite filter_cons_True.
  - rewrite pane_ids_split.
    assert (Hall : forall l : list N, Forall (fun id => id = target) l -> filter (fun id => id ≠ target) l = []).
    { induction 1; [done|]. rewrite filter_cons_False; auto. }
    destruct (without a target) eqn:Ea, (without b target) eqn:Eb;
      rewrite ?pane_ids_split, ?filter_app.
    + congruence.
    + rewrite (Hall (pane_ids b)) by done. by rewrite app_nil_r.
    + rewrite (Hall (pane_ids a)) by done. done.
    + by rewrite Forall_app.
Qed.

(** ** Ratios

    [edit] is one change the server makes to a stored tree: a split, a removal,
    a nudge by a number, or a drag inside a laid-out area. *)

Fixpoint ratios (n : LayoutNode) : list f32 :=
  match n with
  | Leaf _ => []
  | Split _ r a b => r :: ratios a ++ ratios b
  end.

Definition banded (n : LayoutNode) : Prop := Forall (fun r => in_band r = true) (ratios n).

Lemma banded_split d r a b :
  banded (Split d r a b) <-> in_band r = true /\ banded a /\ banded b.
Proof. unfold banded; simpl. by rewrite Forall_cons, Forall_app. Qed.

Lemma resize_inner_ids n target orient delta :
  pane_ids (resize_inner n target orient delta).1 = pane_ids n.
Proof.
  induction n as [|d r a IHa b IHb]; [done|]. simpl.
  destruct (resize_inner a target orient delta) as [a' ra]; simpl in *.
  destruct (resize_inner b target orient delta) as [b' rb]; simpl in *.
  rewrite pane_ids_split. destruct ra; [destruct rb| |]; simpl; try case_bool_decide; simpl;
    rewrite ?pane_ids_split; congruence.
Qed.

Lemma resize_inner_banded n target orient delta :
  is_nan delta = false -> banded n -> banded (resize_inner n target orient delta).1.
Proof.
  intros Hd. induction n as [|d r a IHa b IHb]; [done|]. rewrite banded_split. intros (Hr & Ha & Hb).
  specialize (IHa Ha). specialize (IHb Hb). simpl.
  destruct (resize_inner a target orient delta) as [a' ra]; simpl in *.
  destruct (resize_inner b target orient delta) as [b' rb]; simpl in *.
  assert (in_band (f32_clamp (f32_add r delta) f32_0_1 f32_0_9) = true)
    by auto using f32_clamp_in_band, f32_add_not_nan.
  destruct ra; [destruct rb| |]; simpl; try case_bool_decide; simpl; by rewrite banded_split.
Qed.

(** The orientations of the splits above a Pane, nearest first. *)
Fixpoint above (n : LayoutNode) (target : PaneId) : option (list SplitDir) :=
  match n with
  | Leaf id => if id =? target then Some [] else None
  | Split d _ a b =>
      match above a target with
      | Some l => Some (l ++ [d])
      | None => (fun l => l ++ [d]) <$> above b target
      end
  end.

Lemma resize_inner_spec n target orient delta :
  match resize_inner n target orient delta with
  | (n', Absent) => n' = n /\ above n target = None
  | (n', Found) => n' = n /\ exists l, above n target = Some l /\ orient ∉ l
  | (n', Handled) => exists l, above n target = Some l /\ orient ∈ l
  end.
Proof.
  induction n as [id|d r a IHa b IHb]; simpl.
  - destruct (id =? target); [|done]. split; [done|]. exists []. split; [done|]. set_solver.
  - destruct (resize_inner a target orient delta) as [a' ra]; simpl.
    destruct ra.
    + destruct IHa as [-> Ea]. rewrite Ea.
      destruct (resize_inner b target orient delta) as [b' rb]. destruct rb.
      * destruct IHb as [-> Eb]. by rewrite Eb.
      * destruct IHb as [-> (l & Eb & Hl)]. rewrite Eb. case_bool_decide; simpl.
        -- exists (l ++ [d]). set_solver.
        -- split; [done|]. exists (l ++ [d]). set_solver.
      * destruct IHb as (l & Eb & Hl). rewrite Eb. exists (l ++ [d]). set_solver.
    + destruct IHa as [-> (l & Ea & Hl)]. rewrite Ea. case_bool_decide; simpl.
      * exists (l ++ [d]). set_solver.
      * split; [done|]. exists (l ++ [d]). set_solver.
    + destruct IHa as (l & Ea & Hl). rewrite Ea. exists (l ++ [d]). set_solver.
Qed.

(** Nudging a Pane reports an adjustment exactly when the Pane is in the
    tree below a split of the asked orientation, and otherwise leaves the tree
    untouched; the Panes and their order never change. *)
Theorem resize_pane_spec n target orient delta :
  let (n', ok) := resize_pane n target orient delta in
  (ok = true <-> exists l, above n target = Some l /\ orient ∈ l) /\
  (ok = false -> n' = n) /\ pane_ids n' = pane_ids n.
Proof.
  unfold resize_pane. pose proof (resize_inner_spec n target orient delta) as H.
  pose proof (resize_inner_ids n target orient delta) as Hids.
  destruct (resize_inner n target orient delta) as [n' r]. simpl in Hids. destruct r.
  - destruct H as [-> E]. repeat split; try done. intros (l & E' & _). congruence.
  - destruct H as [-> (l & E & Hl)]. repeat split; try done. intros (l' & E' & Hl'). congruence.
  - by repeat split.
Qed.

(** Dragging follows the same cuts as [compute]. *)
Lemma set_divider_at_split dir ratio a b area dv x y :
  set_divider_at (Split dir ratio a b) area dv x y =
  match cut dir ratio area with
  | None => let (a', f) := set_divider_at a area dv x y in (Split dir ratio a' b, f)
  | Some (r1, d, r2) =>
      if bool_decide (d = dv) then
        (Split dir (match dir with
                    | Horizontal => drag_ratio x (rx area) (rw area -16 1)
                    | Vertical => drag_ratio y (ry area) (rh area -16 1)
                    end) a b, true)
      else
        let (a', f) := set_divider_at a r1 dv x y in
        if f then (Split dir ratio a' b, true)
        else let (b', f) := set_divider_at b r2 dv x y in (Split dir ratio a' b', f)
  end.
Proof. destruct dir; simpl; by case_match. Qed.

(** A drag finds a split exactly when [compute] draws a divider with that
    rectangle in the same area, and changes nothing when it draws none; the
    Panes and their order never change. *)
Theorem set_divider_at_spec n area dv x y :
  let (n', ok) := set_divider_at n area dv x y in
  (ok = true <-> dv ∈ map d_rect (dividers (compute n area))) /\
  (ok = false -> n' = n) /\ pane_ids n' = pane_ids n.
Proof.
  revert area. induction n as [id|d r a IHa b IHb]; intros area.
  - repeat split; simpl; try done. set_solver.
  - rewrite set_divider_at_split, compute_split.
    destruct (cut d r area) as [[[r1 dd] r2]|].
    + simpl. rewrite map_app; simpl. case_bool_decide as Hd.
      { subst dd. rewrite !pane_ids_split. split; [|done]. set_solver. }
      specialize (IHa r1). specialize (IHb r2).
      destruct (set_divider_at a r1 dv x y) as [a' fa]. destruct IHa as (Ha & Ha' & Hai).
      destruct fa.
      { rewrite !pane_ids_split. split; [set_solver|]. split; [done|congruence]. }
      rewrite (Ha' eq_refl).
      destruct (set_divider_at b r2 dv x y) as [b' fb]. destruct IHb as (Hb & Hb' & Hbi).
      assert (dv ∉ map d_rect (dividers (compute a r1))) by (intros H; by apply Ha in H).
      rewrite !pane_ids_split. split; [|split; [intros ->; by rewrite Hb'|congruence]].
      rewrite elem_of_app, elem_of_cons. naive_solver.
    + specialize (IHa area). destruct (set_divider_at a area dv x y) as [a' fa].
      destruct IHa as (Ha & Ha' & Hai). rewrite !pane_ids_split.
      split; [apply Ha|]. split; [intros ->; by rewrite Ha'|congruence].
Qed.

Lemma drag_ratio_in_band pos origin avail :
  2 <= avail < U16 -> in_band (drag_ratio pos origin avail) = true.
Proof.
  intros H. unfold drag_ratio. apply f32_clamp_in_band, f32_div_not_nan; [|lia].
  rewrite wsub_small by lia.
  pose proof (nclamp_range (ssub pos origin) 1 (avail - 1) ltac:(lia)). lia.
Qed.

Lemma set_divider_at_banded n area dv x y :
  fits area -> banded n -> banded (set_divider_at n area dv x y).1.
Proof.
  revert area. induction n as [|d r a IHa b IHb]; intros area Hf; [done|].
  rewrite banded_split. intros (Hr & Ha & Hb). rewrite set_divider_at_split.
  destruct (cut d r area) as [[[r1 dd] r2]|] eqn:Hc.
  - destruct (cut_spec _ _ _ _ _ _ Hf Hc) as (Hf1 & _ & Hf2 & _).
    case_bool_decide; simpl.
    { apply banded_split. split; [|done]. destruct Hf as (?&?&?&?).
      destruct d; simpl in Hc; case_match eqn:E; try done; apply N.ltb_ge in E;
        apply drag_ratio_in_band; rewrite wsub_small by lia; lia. }
    specialize (IHa r1 Hf1 Ha). specialize (IHb r2 Hf2 Hb).
    destruct (set_divider_at a r1 dv x y) as [a' []]; simpl in *; [by rewrite banded_split|].
    destruct (set_divider_at b r2 dv x y) as [b' fb]; simpl in *. by rewrite banded_split.
  - specialize (IHa area Hf Ha).
    destruct (set_divider_at a area dv x y) as [a' fa]; simpl in *. by rewrite banded_split.
Qed.

Lemma split_banded n target dir p : banded n -> banded (split n target dir p).1.
Proof.
  induction n as [id|d r a IHa b IHb]; simpl.
  - intros _. destruct (id =? target); [|by constructor].
    apply banded_split. split; [by vm_compute|]. by split; constructor.
  - rewrite banded_split. intros (Hr & Ha & Hb). specialize (IHa Ha). specialize (IHb Hb).
    destruct (split a target dir p) as [a' []]; simpl in *; [by rewrite banded_split|].
    destruct (split b target dir p) as [b' fb]; simpl in *. by rewrite banded_split.
Qed.

Lemma without_banded n target n' : banded n -> without n target = Some n' -> banded n'.
Proof.
  revert n'. induction n as [id|d r a IHa b IHb]; intros n'; simpl.
  - intros _. destruct (id =? target); intros; simplify_eq. constructor.
  - rewrite banded_split. intros (Hr & Ha & Hb).
    destruct (without a target), (without b target); intros; simplify_eq; auto.
    rewrite banded_split. auto.
Qed.

Inductive edit : LayoutNode -> LayoutNode -> Prop :=
  | edit_split n target dir p : edit n (split n target dir p).1
  | edit_without n target n' : without n target = Some n' -> edit n n'
  | edit_resize n target orient delta :
      is_nan delta = false -> edit n (resize_pane n target orient delta).1
  | edit_drag n area dv x y : fits area -> edit n (set_divider_at n area dv x y).1.

(** Every tree the server reaches from one Pane by splitting, closing,
    nudging (by any number, an infinity included) and dragging has all its
    ratios in the 10 to 90 percent band, so none is ever a NaN. *)
Theorem reachable_banded id n : rtc edit (Leaf id) n -> banded n.
Proof.
  assert (H0 : banded (Leaf id)) by constructor. revert H0. generalize (Leaf id).
  intros n0 H0 Hr. revert H0. induction Hr as [|n1 n2 n3 He _ IH]; [done|]. intros Hb. apply IH.
  destruct He; eauto using split_banded, without_banded, set_divider_at_banded.
  unfold resize_pane. pose proof (resize_inner_banded n target orient delta H Hb).
  by destruct (resize_inner n target orient delta).
Qed.

Lemma reachable_banded_witness :
  let n := fst (resize_pane (fst (split (Leaf 1) 1 Horizontal 2)) 1 Horizontal
                 (S754_infinity false)) in
  rtc edit (Leaf 1) n /\ banded n.
Proof.
  intros n. assert (H : rtc edit (Leaf 1) n).
  { eapply rtc_l; [apply (edit_split (Leaf 1) 1 Horizontal 2)|].
    apply rtc_once, edit_resize. reflexivity. }
  split; [done|]. by apply (reachable_banded 1).
Defined.

(** The round trip of a drag through the stored ratio, checked for every axis of
    at most 161 cells. *)
Definition drag_lands (avail wanted : N) : bool :=
  negb (in_band (f32_div (f32_of_N wanted) (f32_of_N avail))) ||
  (first_extent avail (drag_ratio wanted 0 avail) =? wanted).

Lemma drag_check :
  all_below (fun avail => all_below (drag_lands avail) (N.to_nat (avail - 1)) 1) 159 2 = true.
Proof. by vm_compute. Qed.

(** On an axis of up to 161 cells, dragging a divider to a cell between a
    tenth and nine tenths of the way lands exactly there: laying out again with
    the ratio the drag stores gives the first child the cells up to the
    pointer, in spite of the two binary32 roundings. *)
Theorem drag_exact origin avail wanted :
  2 <= avail <= 160 -> 1 <= wanted < avail ->
  in_band (f32_div (f32_of_N wanted) (f32_of_N avail)) = true ->
  first_extent avail (drag_ratio (origin + wanted) origin avail) = wanted.
Proof.
  intros Ha Hw Hb.
  pose proof (all_below_spec _ _ _ drag_check avail ltac:(lia) ltac:(lia)) as H; simpl in H.
  pose proof (all_below_spec _ _ _ H wanted ltac:(lia) ltac:(lia)) as Hd.
  unfold drag_lands in Hd. rewrite Hb in Hd. apply N.eqb_eq in Hd. etransitivity; [|exact Hd].
  unfold drag_ratio, ssub. by replace (origin + wanted - origin) with (wanted - 0) by lia.
Qed.

Lemma drag_exact_witness :
  in_band (f32_div (f32_of_N 20) (f32_of_N 80)) = true /\
  first_extent 80 (drag_ratio (7 + 20) 7 80) = 20.
Proof.
  split; [by vm_compute|]. apply (drag_exact 7 80 20); [lia..|by vm_compute].
Defined.
