(* ===== verification/Arrange.v ===== *)
(** * Arrangements and focus ([crates/uniterm-core/src/layout.rs])

    What the server does with a laid-out Tab: directional focus ([neighbor]),
    the overview grid, and the two automatic arrangements, Dwindle and
    Scrolling, that show a tree's Panes without changing the tree. *)

From S2P Require Import Prelude Float32 Layout.

(** ** Directional focus *)

Inductive Direction := DLeft | DRight | DUp | DDown.

Definition overlaps_vertically (a b : Rect) : bool := (ry a <? bottom b) && (ry b <? bottom a).
Definition overlaps_horizontally (a b : Rect) : bool := (rx a <? right b) && (rx b <? right a).

(** Whether [r] lies on the asked side of [a], and how far away it is. *)
Definition candidate (a r : Rect) (dir : Direction) : bool * N :=
  match dir with
  | DRight => ((right a <=? rx r) && overlaps_vertically a r, ssub (rx r) (right a))
  | DLeft => ((right r <=? rx a) && overlaps_vertically a r, ssub (rx a) (right r))
  | DDown => ((bottom a <=? ry r) && overlaps_horizontally a r, ssub (ry r) (bottom a))
  | DUp => ((bottom r <=? ry a) && overlaps_horizontally a r, ssub (ry a) (bottom r))
  end.

Definition better (best : option (PaneId * N)) (id : PaneId) (dist : N) : option (PaneId * N) :=
  match best with
  | None => Some (id, dist)
  | Some (_, d) => if dist <? d then Some (id, dist) else best
  end.

Definition scan (a : Rect) (active : PaneId) (dir : Direction)
    (best : option (PaneId * N)) (p : PaneId * Rect) : option (PaneId * N) :=
  let (id, r) := p in
  if id =? active then best
  else
    let (is_candidate, dist) := candidate a r dir in
    if is_candidate then better best id dist else best.

Definition neighbor (panes : list (PaneId * Rect)) (active : PaneId) (dir : Direction)
    : option PaneId :=
  match list_find (fun p : PaneId * Rect => p.1 = active) panes with
  | None => None
  | Some (_, (_, a)) => fst <$> foldl (scan a active dir) None panes
  end.

(** ** The overview grid *)

(** [while cols * cols < n { cols += 1 }], which [n] rounds are enough for. *)
Fixpoint cols_loop (fuel : nat) (cols n : nat) : nat :=
  match fuel with
  | O => cols
  | S fuel => if (cols * cols <? n)%nat then cols_loop fuel (S cols) n else cols
  end.

Definition overview_cols (n : nat) : nat := cols_loop n 1 n.

(** [n.div_ceil(cols)]. *)
Definition div_ceil (n d : nat) : nat := ((n + d - 1) / d)%nat.

Section Overview.
Context (area : Rect) (n : nat).

Definition bw (cols : nat) : N := rw area / (N.of_nat cols mod U16).
Definition xw (cols : nat) : nat := N.to_nat (rw area mod (N.of_nat cols mod U16)).
Definition bh (rows : nat) : N := rh area / (N.of_nat rows mod U16).
Definition xh (rows : nat) : nat := N.to_nat (rh area mod (N.of_nat rows mod U16)).

Definition col_w (cols c : nat) : N := bw cols +16 (if (c <? xw cols)%nat then 1 else 0).
Definition row_h (rows r : nat) : N := bh rows +16 (if (r <? xh rows)%nat then 1 else 0).

(** One row: [break] leaves the rest of the row alone, as does every later
    column once [i] has reached [n]. *)
Definition row_step (cols rows r : nat) (y : N) (st : list Rect * nat * N) (c : nat)
    : list Rect * nat * N :=
  let '(tiles, i, x) := st in
  if (n <=? i)%nat then st
  else (tiles ++ [mkRect x y (col_w cols c) (row_h rows r)], S i, x +16 col_w cols c).

Definition grid_step (cols rows : nat) (st : list Rect * nat * N) (r : nat)
    : list Rect * nat * N :=
  let '(tiles, i, y) := st in
  let '(tiles, i, _) := foldl (row_step cols rows r y) (tiles, i, rx area) (seq 0 cols) in
  (tiles, i, y +16 row_h rows r).

Definition overview_tiles : list Rect :=
  if (n =? 0)%nat || (rw area =? 0) || (rh area =? 0) then []
  else
    let cols := cols_loop n 1 n in
    let rows := div_ceil n cols in
    (foldl (grid_step cols rows) ([], 0%nat, ry area) (seq 0 rows)).1.1.
End Overview.

(** ** Automatic arrangements *)

Inductive PaneLayout := PLSplit | Dwindle | Scrolling.
#[export] Instance PaneLayout_eq_dec : EqDecision PaneLayout.
Proof. solve_decision. Defined.

Definition scrolling_columns (width : N) : nat := if 49 <=? width then 2%nat else 1%nat.

(** [dwindle] halves the remaining area along its longer visual axis. *)
Fixpoint dwindle (ids : list PaneId) (area : Rect) (active : PaneId) (out : Layout) : Layout :=
  match ids with
  | [] => out
  | id0 :: rest =>
      if (length ids =? 1)%nat || ((rw area <? 3) && (rh area <? 3)) then
        push_pane out (if bool_decide (active ∈ ids) then active else id0) area
      else
        let horizontal := (3 <=? rw area) && ((rh area <? 3) || (rh area * 2 <=? rw area)) in
        let '(first, second, divider) :=
          if horizontal then
            let f := ssub (rw area) 1 / 2 in
            (mkRect (rx area) (ry area) f (rh area),
             mkRect (rx area +16 f +16 1) (ry area) (rw area -16 f -16 1) (rh area),
             mkDivider Horizontal (mkRect (rx area +16 f) (ry area) 1 (rh area)))
          else
            let f := ssub (rh area) 1 / 2 in
            (mkRect (rx area) (ry area) (rw area) f,
             mkRect (rx area) (ry area +16 f +16 1) (rw area) (rh area -16 f -16 1),
             mkDivider Vertical (mkRect (rx area) (ry area +16 f) (rw area) 1)) in
        dwindle rest second active (push_divider (push_pane out id0 first) divider)
  end.

(** [compute_mode] returns the layout and the viewport origin it leaves in
    [scroll]. *)
Definition compute_mode (n : LayoutNode) (area : Rect) (mode : PaneLayout) (active : PaneId)
    (scroll : nat) : Layout * nat :=
  match mode with
  | PLSplit => (LayoutNode.compute n area, scroll)
  | Dwindle => (dwindle (LayoutNode.pane_ids n) area active Layout_default, scroll)
  | Scrolling =>
      let ids := LayoutNode.pane_ids n in
      let visible := scrolling_columns (rw area) in
      let selected :=
        match list_find (fun id => id = active) ids with Some (i, _) => i | None => 0%nat end in
      let scroll := Nat.min scroll (length ids - visible) in
      let scroll := if (selected <? scroll)%nat then selected else scroll in
      let scroll :=
        if (scroll + visible <=? selected)%nat then (selected + 1 - visible)%nat else scroll in
      let shown := take (Nat.min (length ids) (scroll + visible) - scroll) (drop scroll ids) in
      let out :=
        match shown with
        | [p0] => push_pane Layout_default p0 area
        | [p0; p1] =>
            let left := ssub (rw area) 1 / 2 in
            push_pane
              (push_divider
                (push_pane Layout_default p0 (mkRect (rx area) (ry area) left (rh area)))
                (mkDivider Horizontal (mkRect (rx area +16 left) (ry area) 1 (rh area))))
              p1 (mkRect (rx area +16 left +16 1) (ry area) (rw area -16 left -16 1) (rh area))
        | _ => Layout_default
        end in
      (out, scroll)
  end.

(** ** Dwindle tiles its area *)

(** The first Pane's area, what is left of the area, and the divider between. *)
Definition halve (area : Rect) : Rect * Rect * Divider :=
  if (3 <=? rw area) && ((rh area <? 3) || (rh area * 2 <=? rw area)) then
    let f := ssub (rw area) 1 / 2 in
    (mkRect (rx area) (ry area) f (rh area),
     mkRect (rx area +16 f +16 1) (ry area) (rw area -16 f -16 1) (rh area),
     mkDivider Horizontal (mkRect (rx area +16 f) (ry area) 1 (rh area)))
  else
    let f := ssub (rh area) 1 / 2 in
    (mkRect (rx area) (ry area) (rw area) f,
     mkRect (rx area) (ry area +16 f +16 1) (rw area) (rh area -16 f -16 1),
     mkDivider Vertical (mkRect (rx area) (ry area +16 f) (rw area) 1)).

Lemma half_range a : 3 <= a -> 1 <= ssub a 1 / 2 <= a - 2.
Proof.
  intros H. unfold ssub. split.
  - apply N.div_le_lower_bound; lia.
  - enough ((a - 1) / 2 < a - 1) by lia. apply N.div_lt; lia.
Qed.

Lemma wsub_swap a f : f + 1 <= a -> a < U16 -> a -16 f -16 1 = a -16 1 -16 f.
Proof.
  intros. rewrite (wsub_small U16 a f), (wsub_small U16 a 1) by lia.
  rewrite !wsub_small by lia. lia.
Qed.

Lemma halve_spec area :
  fits area -> (3 <= rw area \/ 3 <= rh area) ->
  let '(first, second, d) := halve area in
  fits first /\ fits (d_rect d) /\ fits second /\
  (forall x y, cover first x y + (cover (d_rect d) x y + cover second x y) = cover area x y)%nat.
Proof.
  intros Hf Hbig. pose proof Hf as (Hw & Hh & Hx & Hy). unfold halve.
  destruct ((3 <=? rw area) && _) eqn:E; simpl.
  - assert (3 <= rw area) as H3 by bool_lia.
    pose proof (half_range _ H3). rewrite wsub_swap by lia.
    destruct (cut_fits_h area (ssub (rw area) 1 / 2) Hf) as (?&?&?); [lia..|].
    split; [done|split; [done|split; [done|]]]. intros. by apply cut_h; [|lia..].
  - assert (3 <= rh area) as H3 by (destruct Hbig; bool_lia).
    pose proof (half_range _ H3). rewrite wsub_swap by lia.
    destruct (cut_fits_v area (ssub (rh area) 1 / 2) Hf) as (?&?&?); [lia..|].
    split; [done|split; [done|split; [done|]]]. intros. by apply cut_v; [|lia..].
Qed.

(** [dwindle] places the last Pane, or the focused one when no room is left. *)
Lemma dwindle_cons id rest area active out :
  dwindle (id :: rest) area active out =
  if (length (id :: rest) =? 1)%nat || ((rw area <? 3) && (rh area <? 3)) then
    push_pane out (if bool_decide (active ∈ id :: rest) then active else id) area
  else
    let '(first, second, divider) := halve area in
    dwindle rest second active (push_divider (push_pane out id first) divider).
Proof.
  cbn [dwindle]. unfold halve. by destruct ((3 <=? rw area) && _).
Qed.

Lemma push_lapp out id r d :
  push_divider (push_pane out id r) d = lapp out (mkLayout [(id, r)] [d]).
Proof. done. Qed.

Lemma dwindle_app ids area active out :
  dwindle ids area active out = lapp out (dwindle ids area active Layout_default).
Proof.
  revert area out. induction ids as [|id rest IH]; intros area out.
  - by rewrite lapp_default_r.
  - rewrite !dwindle_cons. case_match.
    { unfold lapp, push_pane; simpl. by rewrite app_nil_r. }
    destruct (halve area) as [[first second] d].
    rewrite (IH second (push_divider (push_pane out id first) d)).
    rewrite (IH second (push_divider (push_pane Layout_default id first) d)).
    by rewrite !push_lapp, !lapp_assoc.
Qed.

(** A layout tiles an area: each cell of it is in exactly one rectangle, and no
    rectangle is empty or leaves the coordinate space. *)
Definition tiles (l : Layout) (area : Rect) : Prop :=
  (forall x y, covers (rects l) x y = cover area x y) /\ Forall fits (rects l).

Lemma tiles_one id area : fits area -> tiles (push_pane Layout_default id area) area.
Proof.
  intros Hf. split.
  - intros. unfold covers; simpl. lia.
  - by apply Forall_singleton.
Qed.

Lemma tiles_cut id d first second area l :
  fits first -> fits (d_rect d) ->
  (forall x y, cover first x y + (cover (d_rect d) x y + cover second x y) = cover area x y)%nat ->
  tiles l second -> tiles (lapp (mkLayout [(id, first)] [d]) l) area.
Proof.
  intros Hf Hd Hc [Hcov Hfs]. split.
  - intros x y. rewrite covers_rects_lapp, Hcov, <- Hc. unfold covers; simpl. lia.
  - apply Forall_rects_lapp; [|done]. unfold rects; simpl. by repeat apply Forall_cons_2.
Qed.

Lemma dwindle_tiles ids area active :
  ids ≠ [] -> fits area -> tiles (dwindle ids area active Layout_default) area.
Proof.
  revert area. induction ids as [|id rest IH]; intros area Hne Hf; [done|].
  rewrite dwindle_cons. case_match eqn:E; [by apply tiles_one|].
  apply orb_false_elim in E as [E1 E2].
  assert (3 <= rw area \/ 3 <= rh area) as Hbig
    by (destruct (N.ltb_spec (rw area) 3); [right; bool_lia|by left]).
  pose proof (halve_spec area Hf Hbig) as Hh.
  destruct (halve area) as [[first second] d]. destruct Hh as (H1 & Hd & H2 & Hc).
  rewrite dwindle_app, push_lapp. apply (tiles_cut _ _ _ second); [done..|].
  apply IH; [|done]. by destruct rest.
Qed.

Lemma dwindle_panes ids area active :
  (forall id, id ∈ (panes (dwindle ids area active Layout_default)).*1 -> id ∈ ids) /\
  (active ∈ ids -> active ∈ (panes (dwindle ids area active Layout_default)).*1).
Proof.
  revert area. induction ids as [|id rest IH]; intros area; [set_solver|].
  rewrite dwindle_cons. case_match eqn:E.
  - simpl. case_bool_decide; set_solver.
  - destruct (halve area) as [[first second] d]. rewrite dwindle_app, push_lapp. simpl.
    destruct (IH second) as [H1 H2]. set_solver.
Qed.

(** ** The scrolling viewport *)

(** The viewport origin [compute_mode] settles on, and the Panes it shows. *)
Definition viewport (total visible selected scroll : nat) : nat :=
  let scroll := Nat.min scroll (total - visible) in
  let scroll := if (selected <? scroll)%nat then selected else scroll in
  if (scroll + visible <=? selected)%nat then (selected + 1 - visible)%nat else scroll.

Lemma viewport_spec total visible selected scroll :
  (1 <= visible)%nat -> (selected < total)%nat ->
  let s := viewport total visible selected scroll in
  (s <= selected < s + visible)%nat /\ (s <= total - visible)%nat /\
  viewport total visible selected s = s /\
  ((scroll <= selected < scroll + visible)%nat -> (scroll <= total - visible)%nat -> s = scroll).
Proof.
  intros Hv Hs. unfold viewport. cbn zeta.
  repeat match goal with
  | |- context [(?a <? ?b)%nat] => destruct (Nat.ltb_spec a b)
  | |- context [(?a <=? ?b)%nat] => destruct (Nat.leb_spec a b)
  end; lia.
Qed.

Definition selected_of (ids : list PaneId) (active : PaneId) : nat :=
  match list_find (fun id => id = active) ids with Some (i, _) => i | None => 0%nat end.

Lemma selected_of_lt ids active : ids ≠ [] -> (selected_of ids active < length ids)%nat.
Proof.
  intros Hne. unfold selected_of.
  destruct (list_find _ ids) as [[i id]|] eqn:E.
  - apply list_find_Some in E as [E _]. by apply lookup_lt_Some in E.
  - destruct ids; simpl; [done|lia].
Qed.

Lemma selected_of_lookup ids active :
  active ∈ ids -> ids !! selected_of ids active = Some active.
Proof.
  intros Hin. unfold selected_of.
  destruct (list_find _ ids) as [[i id]|] eqn:E.
  - by apply list_find_Some in E as (E & -> & _).
  - apply list_find_None in E. rewrite Forall_forall in E. by destruct (E _ Hin).
Qed.

Lemma pane_ids_nonempty n : LayoutNode.pane_ids n ≠ [].
Proof. intros E. pose proof (first_pane_head n). by rewrite E in H. Qed.

(** How the columns in view are placed: one fills the area, two share it. *)
Definition columns (shown : list PaneId) (area : Rect) : Layout :=
  match shown with
  | [p0] => push_pane Layout_default p0 area
  | [p0; p1] =>
      let left := ssub (rw area) 1 / 2 in
      push_pane
        (push_divider
          (push_pane Layout_default p0 (mkRect (rx area) (ry area) left (rh area)))
          (mkDivider Horizontal (mkRect (rx area +16 left) (ry area) 1 (rh area))))
        p1 (mkRect (rx area +16 left +16 1) (ry area) (rw area -16 left -16 1) (rh area))
  | _ => Layout_default
  end.

Lemma scrolling_columns_range w : (1 <= scrolling_columns w <= 2)%nat.
Proof. unfold scrolling_columns. case_match; lia. Qed.

Lemma compute_mode_viewport n area active scroll :
  let ids := LayoutNode.pane_ids n in
  let visible := scrolling_columns (rw area) in
  let s := viewport (length ids) visible (selected_of ids active) scroll in
  compute_mode n area Scrolling active scroll = (columns (take visible (drop s ids)) area, s) /\
  length (take visible (drop s ids)) = Nat.min visible (length ids).
Proof.
  cbv zeta. pose proof (selected_of_lt _ active (pane_ids_nonempty n)) as Hsel.
  pose proof (scrolling_columns_range (rw area)) as Hv.
  pose proof (viewport_spec (length (LayoutNode.pane_ids n)) (scrolling_columns (rw area))
                (selected_of (LayoutNode.pane_ids n) active) scroll ltac:(lia) Hsel) as (Hs1 & Hs2 & _).
  unfold compute_mode. fold (selected_of (LayoutNode.pane_ids n) active).
  fold (viewport (length (LayoutNode.pane_ids n)) (scrolling_columns (rw area))
         (selected_of (LayoutNode.pane_ids n) active) scroll).
  set (s := viewport _ _ _ _) in *. set (ids := LayoutNode.pane_ids n) in *.
  set (v := scrolling_columns (rw area)) in *. split.
  - replace (take (Nat.min (length ids) (s + v) - s) (drop s ids)) with (take v (drop s ids)); [done|].
    destruct (decide (s + v <= length ids)%nat); [f_equal; lia|].
    rewrite !take_ge; [done|rewrite length_drop; lia..].
  - rewrite length_take, length_drop. lia.
Qed.

(** The columns shown are consecutive Panes of the tree. *)
Lemma columns_panes shown area :
  (1 <= length shown <= 2)%nat -> (panes (columns shown area)).*1 = shown.
Proof. destruct shown as [|p0 [|p1 [|p2 l]]]; simpl; (lia || done). Qed.

Lemma columns_tiles shown area :
  fits area -> (1 <= length shown <= 2)%nat -> (length shown = 2%nat -> 3 <= rw area) ->
  tiles (columns shown area) area.
Proof.
  intros Hf Hl H2. pose proof Hf as (Hw & Hh & Hx & Hy).
  destruct shown as [|p0 [|p1 [|p2 l]]]; simpl in Hl; [lia| | |lia].
  - by apply tiles_one.
  - specialize (H2 eq_refl). unfold columns.
    pose proof (half_range (rw area) H2) as Hr. rewrite wsub_swap by lia.
    set (a := ssub (rw area) 1 / 2) in *.
    destruct (cut_fits_h area a Hf ltac:(lia) ltac:(lia)) as (H1 & Hd & H3).
    pose proof (fun x y => cut_h area a x y Hf ltac:(lia) ltac:(lia)) as Hc.
    eapply (tiles_cut p0 (mkDivider _ _) _ _ _ (push_pane Layout_default p1 _)); [done..|].
    by apply tiles_one.
Qed.

(** Every arrangement tiles its area: in Split, Dwindle and Scrolling mode
    alike each cell of the area lies in exactly one Pane or divider and no
    rectangle is empty, for any tree, focus and stored scroll position. *)
Theorem compute_mode_tiles n area mode active scroll :
  fits area -> tiles (compute_mode n area mode active scroll).1 area.
Proof.
  intros Hf. destruct mode.
  - by apply compute_tiles.
  - apply dwindle_tiles; [apply pane_ids_nonempty|done].
  - pose proof (compute_mode_viewport n area active scroll) as [-> Hl]. simpl.
    pose proof (scrolling_columns_range (rw area)). pose proof (pane_ids_nonempty n).
    assert (1 <= length (LayoutNode.pane_ids n))%nat by (destruct (LayoutNode.pane_ids n); simpl; [done|lia]).
    apply columns_tiles; [done|lia|]. intros H2. rewrite Hl in H2.
    unfold scrolling_columns in H2. destruct (N.leb_spec 49 (rw area)); lia.
Qed.

Lemma compute_mode_tiles_witness :
  fits (mkRect 4 2 120 36) /\
  tiles (compute_mode sample_tree (mkRect 4 2 120 36) Dwindle 4 0).1 (mkRect 4 2 120 36).
Proof.
  assert (H : fits (mkRect 4 2 120 36)) by (by vm_compute).
  split; [done|]. by apply compute_mode_tiles.
Defined.

(** An automatic arrangement always shows the focused Pane. Dwindle shows
    only Panes of the tree, the focused one among them. Scrolling shows
    consecutive Panes of the tree, as many as the width has columns, keeps the
    stored origin when the focused Pane is already in view, and an origin it
    returns is left alone by the next layout. *)
Theorem compute_mode_focus n area active scroll :
  active ∈ LayoutNode.pane_ids n ->
  let dw := (compute_mode n area Dwindle active scroll).1 in
  let (sc, scroll') := compute_mode n area Scrolling active scroll in
  let visible := scrolling_columns (rw area) in
  let ids := LayoutNode.pane_ids n in
  active ∈ (panes dw).*1 /\ (forall id, id ∈ (panes dw).*1 -> id ∈ ids) /\
  (panes sc).*1 = take visible (drop scroll' ids) /\ active ∈ (panes sc).*1 /\
  length (panes sc) = Nat.min visible (length ids) /\
  (compute_mode n area Scrolling active scroll').2 = scroll' /\
  (active ∈ take visible (drop scroll ids) -> (scroll + visible <= length ids)%nat ->
   NoDup ids -> scroll' = scroll).
Proof.
  intros Hin. cbv zeta.
  destruct (dwindle_panes (LayoutNode.pane_ids n) area active) as [Hd1 Hd2].
  pose proof (compute_mode_viewport n area active scroll) as [E Hl]. rewrite E.
  split; [by apply Hd2|]. split; [done|].
  pose proof (selected_of_lookup _ active Hin) as Hsel.
  pose proof (lookup_lt_Some _ _ _ Hsel) as Hlt.
  pose proof (scrolling_columns_range (rw area)) as Hv.
  pose proof (viewport_spec (length (LayoutNode.pane_ids n)) (scrolling_columns (rw area))
    (selected_of (LayoutNode.pane_ids n) active) scroll ltac:(lia) Hlt) as (H1 & H2 & H3 & H4).
  set (s := viewport _ _ _ scroll) in *. set (ids := LayoutNode.pane_ids n) in *.
  assert (Hcol : (panes (columns (take (scrolling_columns (rw area)) (drop s ids)) area)).*1
                 = take (scrolling_columns (rw area)) (drop s ids)).
  { apply columns_panes. lia. }
  split; [done|]. split.
  { rewrite Hcol. apply list_elem_of_lookup. exists (selected_of ids active - s)%nat.
    rewrite lookup_take_lt by lia. rewrite lookup_drop, <- Hsel. f_equal. lia. }
  split; [by rewrite <- (length_fmap fst), Hcol|]. split.
  { pose proof (compute_mode_viewport n area active s) as [-> _]. simpl. exact H3. }
  intros Hsh Hb Hnd. apply H4; [|lia].
  apply list_elem_of_lookup in Hsh as [i Hi].
  pose proof (lookup_lt_Some _ _ _ Hi) as Hi'. rewrite length_take in Hi'.
  rewrite lookup_take_lt, lookup_drop in Hi by lia.
  pose proof (NoDup_lookup _ _ _ _ Hnd Hi Hsel). lia.
Qed.

Lemma compute_mode_focus_witness :
  4 ∈ LayoutNode.pane_ids sample_tree /\
  4 ∈ (panes (compute_mode sample_tree (mkRect 0 0 20 10) Scrolling 4 0).1).*1.
Proof.
  assert (H : 4 ∈ LayoutNode.pane_ids sample_tree) by (apply (bool_decide_unpack _); by vm_compute).
  split; [done|]. pose proof (compute_mode_focus sample_tree (mkRect 0 0 20 10) 4 0 H) as Hf.
  cbn zeta in Hf. destruct (compute_mode sample_tree (mkRect 0 0 20 10) Scrolling 4 0). apply Hf.
Defined.

(** ** Directional focus *)

(** What a scan keeps: no candidate so far when nothing is kept, and otherwise a
    candidate with the least distance among those seen, the first of them on a
    tie. *)
Definition kept (a : Rect) (active : PaneId) (dir : Direction)
    (seen : list (PaneId * Rect)) (best : option (PaneId * N)) : Prop :=
  match best with
  | None => forall id r, (id, r) ∈ seen -> id ≠ active -> (candidate a r dir).1 = false
  | Some (id, d) =>
      exists l1 r l2, seen = l1 ++ (id, r) :: l2 /\ id ≠ active /\
        candidate a r dir = (true, d) /\
        (forall id' r', (id', r') ∈ l1 -> id' ≠ active -> (candidate a r' dir).1 = true ->
           d < (candidate a r' dir).2) /\
        (forall id' r', (id', r') ∈ l2 -> id' ≠ active -> (candidate a r' dir).1 = true ->
           d <= (candidate a r' dir).2)
  end.

Lemma scan_kept a active dir seen best id r :
  kept a active dir seen best -> kept a active dir (seen ++ [(id, r)]) (scan a active dir best (id, r)).
Proof.
  intros H. unfold scan. destruct (N.eqb_spec id active) as [->|Hne].
  - destruct best as [[b d]|]; simpl in *.
    + destruct H as (l1 & rb & l2 & -> & Hb & Hc & Ha & Hs).
      exists l1, rb, (l2 ++ [(active, r)]). rewrite <- app_assoc. repeat split; try done.
      intros id' r' [?|?%list_elem_of_singleton]%elem_of_app; [eauto|]. by simplify_eq.
    + intros id' r' [?|?%list_elem_of_singleton]%elem_of_app ?; [eauto|]. by simplify_eq.
  - destruct (candidate a r dir) as [[] dist] eqn:Ec.
    + destruct best as [[b d]|]; simpl in *.
      * destruct H as (l1 & rb & l2 & -> & Hb & Hc & Ha & Hs). destruct (N.ltb_spec dist d); simpl.
        -- exists (l1 ++ (b, rb) :: l2), r, []. repeat split; try done; [|set_solver].
           intros id' r' [H'|[H'|H']%elem_of_cons]%elem_of_app Hn Ht.
           ++ specialize (Ha _ _ H' Hn Ht). lia.
           ++ simplify_eq. by rewrite Hc.
           ++ specialize (Hs _ _ H' Hn Ht). lia.
        -- exists l1, rb, (l2 ++ [(id, r)]). rewrite <- app_assoc. repeat split; try done.
           intros id' r' [?|?%list_elem_of_singleton]%elem_of_app; [eauto|]. simplify_eq.
           by rewrite Ec.
      * exists seen, r, []. repeat split; try done; [|set_solver].
        intros id' r' H' Hn Ht. by rewrite (H _ _ H' Hn) in Ht.
    + destruct best as [[b d]|]; simpl in *.
      * destruct H as (l1 & rb & l2 & -> & Hb & Hc & Ha & Hs).
        exists l1, rb, (l2 ++ [(id, r)]). rewrite <- app_assoc. repeat split; try done.
        intros id' r' [?|?%list_elem_of_singleton]%elem_of_app; [eauto|]. simplify_eq.
        by rewrite Ec.
      * intros id' r' [?|?%list_elem_of_singleton]%elem_of_app ?; [eauto|]. simplify_eq. by rewrite Ec.
Qed.

Lemma foldl_scan_kept a active dir l :
  kept a active dir l (foldl (scan a active dir) None l).
Proof.
  induction l as [|[id r] l IH] using rev_ind; simpl; [set_solver|].
  rewrite foldl_app. by apply scan_kept.
Qed.

(** Directional focus moves to a nearest Pane on the asked side: the result
    is never the active Pane, lies wholly beyond its edge and overlaps it on the
    other axis, no other such Pane is nearer and an equally near one comes later
    in the list; there is no result only when the active Pane is not drawn or no
    Pane lies on that side. *)
Theorem neighbor_spec ps active dir :
  match list_find (fun p : PaneId * Rect => p.1 = active) ps with
  | None => neighbor ps active dir = None
  | Some (_, (_, a)) =>
      match neighbor ps active dir with
      | None => kept a active dir ps None
      | Some id => exists d, kept a active dir ps (Some (id, d))
      end
  end.
Proof.
  unfold neighbor. destruct (list_find _ ps) as [[i [p a]]|]; [|done].
  pose proof (foldl_scan_kept a active dir ps) as H.
  destruct (foldl _ None ps) as [[id d]|]; simpl; eauto.
Qed.
