(* ===== verification/Overview.v ===== *)
(** * The overview grid tiles its area ([crates/uniterm-core/src/layout.rs])

    Theorems about [Arrange.overview_tiles]: the loop for the column count
    finds the least square that holds every tile, and the tiles, together with
    the slots the last row leaves empty, cover the area exactly. *)

From S2P Require Import Prelude Float32 Layout Arrange.

(** [cols] is the least positive number whose square is at least [n]. *)
Lemma cols_loop_spec fuel c n :
  (1 <= c)%nat -> (n <= c + fuel)%nat -> (forall k, 1 <= k < c -> k * k < n)%nat ->
  let r := cols_loop fuel c n in
  (1 <= r /\ n <= r * r /\ (forall k, 1 <= k < r -> k * k < n) /\ r <= c + fuel)%nat.
Proof.
  revert c. induction fuel as [|fuel IH]; intros c Hc Hf Hk; simpl.
  - repeat split; [done|nia|done|lia].
  - destruct (Nat.ltb_spec (c * c) n) as [Hlt|Hge].
    + destruct (IH (S c)) as (H1 & H2 & H3 & H4); [lia|lia| |].
      { intros k Hk'. destruct (decide (k = c)) as [->|]; [lia|]. apply Hk. lia. }
      repeat split; [done..|lia].
    + repeat split; [done|lia|done|lia].
Qed.

Lemma overview_cols_spec n :
  let c := overview_cols n in
  (1 <= c /\ n <= c * c /\ (forall k, 1 <= k < c -> k * k < n) /\ c <= S n)%nat.
Proof. apply (cols_loop_spec n 1 n); lia. Qed.

Lemma overview_cols_le n : (1 <= n -> overview_cols n <= n)%nat.
Proof.
  intros Hn. destruct (overview_cols_spec n) as (H1 & H2 & H3 & H4).
  destruct (decide (overview_cols n <= n)%nat); [done|].
  specialize (H3 n ltac:(lia)). nia.
Qed.

Lemma div_ceil_spec n d :
  (1 <= d)%nat -> (1 <= n)%nat ->
  (1 <= div_ceil n d /\ n <= div_ceil n d * d /\ (div_ceil n d - 1) * d < n)%nat.
Proof.
  intros Hd Hn. unfold div_ceil.
  pose proof (Nat.div_mod_eq (n + d - 1) d). pose proof (Nat.mod_upper_bound (n + d - 1) d ltac:(lia)).
  set (q := ((n + d - 1) / d)%nat) in *. assert (1 <= q)%nat by nia. nia.
Qed.

(** ** One axis

    [k] tracks share [len] cells: the first [len mod k] of them get one more. *)

Definition track (len : N) (k c : nat) : N :=
  len / N.of_nat k + (if (c <? N.to_nat (len mod N.of_nat k))%nat then 1 else 0).

(** The cells before track [c]. *)
Definition offset (len : N) (k c : nat) : N :=
  N.of_nat c * (len / N.of_nat k) + N.min (N.of_nat c) (len mod N.of_nat k).

Lemma offset_0 len k : offset len k 0 = 0.
Proof. unfold offset. change (N.of_nat 0) with 0. by rewrite N.mul_0_l, N.min_0_l. Qed.

Lemma offset_S len k c : offset len k (S c) = offset len k c + track len k c.
Proof.
  unfold offset, track. destruct (Nat.ltb_spec c (N.to_nat (len mod N.of_nat k))); lia.
Qed.

Lemma offset_end len k : (1 <= k)%nat -> offset len k k = len.
Proof.
  intros Hk. unfold offset. pose proof (N.div_mod len (N.of_nat k) ltac:(lia)).
  pose proof (N.mod_lt len (N.of_nat k) ltac:(lia)). lia.
Qed.

Lemma offset_mono len k c c' : (c <= c')%nat -> offset len k c <= offset len k c'.
Proof. induction 1; [lia|]. rewrite offset_S. lia. Qed.

Lemma offset_le len k c : (1 <= k)%nat -> (c <= k)%nat -> offset len k c <= len.
Proof. intros Hk Hc. rewrite <- (offset_end len k Hk) at 2. by apply offset_mono. Qed.

Section Grid.
Context (area : Rect) (n : nat).
Hypothesis Hx : rx area + rw area < U16.
Hypothesis Hy : ry area + rh area < U16.
Context (cols rows : nat).
Hypothesis Hcols : (1 <= cols < N.to_nat U16)%nat.
Hypothesis Hrows : (1 <= rows < N.to_nat U16)%nat.

Abbreviation X c := (rx area + offset (rw area) cols c).
Abbreviation Y r := (ry area + offset (rh area) rows r).

Lemma col_w_track c : (c < cols)%nat -> col_w area cols c = track (rw area) cols c.
Proof.
  intros Hc. unfold col_w, bw, xw, track. rewrite N.mod_small by lia.
  apply wadd_small. pose proof (offset_le (rw area) cols (S c) ltac:(lia) ltac:(lia)) as H.
  rewrite offset_S in H. unfold track in H. lia.
Qed.

Lemma row_h_track r : (r < rows)%nat -> row_h area rows r = track (rh area) rows r.
Proof.
  intros Hc. unfold row_h, bh, xh, track. rewrite N.mod_small by lia.
  apply wadd_small. pose proof (offset_le (rh area) rows (S r) ltac:(lia) ltac:(lia)) as H.
  rewrite offset_S in H. unfold track in H. lia.
Qed.

(** The first [k] tiles of row [r]. *)
Definition row_tiles (r k : nat) : list Rect :=
  map (fun c => mkRect (X c) (Y r) (track (rw area) cols c) (track (rh area) rows r)) (seq 0 k).

Lemma row_foldl r tiles i m :
  (r < rows)%nat -> (m <= cols)%nat ->
  foldl (row_step area n cols rows r (Y r)) (tiles, i, rx area) (seq 0 m)
  = (tiles ++ row_tiles r (Nat.min m (n - i)), (i + Nat.min m (n - i))%nat,
     X (Nat.min m (n - i))).
Proof.
  intros Hr. induction m as [|m IH]; intros Hm.
  - simpl. rewrite offset_0, app_nil_r. f_equal; [f_equal; lia|lia].
  - rewrite seq_S, foldl_app, IH, Nat.add_0_l by lia. cbn [foldl]. unfold row_step.
    destruct (Nat.leb_spec n (i + Nat.min m (n - i))) as [Hle|Hlt].
    + by replace (Nat.min (S m) (n - i)) with (Nat.min m (n - i)) by lia.
    + replace (Nat.min (S m) (n - i)) with (S m) by lia.
      replace (Nat.min m (n - i)) with m by lia.
      rewrite (col_w_track m), (row_h_track r) by lia.
      pose proof (offset_le (rw area) cols (S m) ltac:(lia) ltac:(lia)) as Hb.
      rewrite offset_S in *. rewrite wadd_small by lia.
      unfold row_tiles. rewrite seq_S, map_app, app_assoc, Nat.add_0_l. cbn [map].
      f_equal; [f_equal; lia|lia].
Qed.

Lemma grid_foldl m :
  (m <= rows)%nat ->
  foldl (grid_step area n cols rows) ([], 0%nat, ry area) (seq 0 m)
  = (concat (map (fun r => row_tiles r (Nat.min cols (n - r * cols))) (seq 0 m)),
     Nat.min n (m * cols), Y m).
Proof.
  induction m as [|m IH]; intros Hm.
  - simpl. rewrite offset_0. f_equal; [f_equal; lia|lia].
  - rewrite seq_S, foldl_app, IH, Nat.add_0_l by lia. cbn [foldl]. unfold grid_step.
    rewrite row_foldl by lia. rewrite (row_h_track m) by lia.
    pose proof (offset_le (rh area) rows (S m) ltac:(lia) ltac:(lia)) as Hb.
    rewrite offset_S in *. rewrite wadd_small by lia.
    rewrite map_app, concat_app. cbn [map concat]. rewrite app_nil_r.
    replace (Nat.min cols (n - Nat.min n (m * cols))) with (Nat.min cols (n - m * cols)) by lia.
    f_equal; [f_equal; lia|lia].
Qed.

(** A row's first [k] tiles cover the cells before column offset [k]. *)
Lemma row_tiles_cover r k x y :
  (r < rows)%nat -> (k <= cols)%nat ->
  covers (row_tiles r k) x y
  = cover (mkRect (rx area) (Y r) (offset (rw area) cols k) (track (rh area) rows r)) x y.
Proof.
  intros Hr. pose proof (offset_le (rh area) rows (S r) ltac:(lia) ltac:(lia)) as Hb.
  rewrite offset_S in Hb. induction k as [|k IH]; intros Hk.
  - rewrite offset_0. unfold covers, cover; simpl. rewrite contains_fits by (simpl; lia). simpl. bool_lia.
  - unfold row_tiles. rewrite seq_S, map_app, covers_app, Nat.add_0_l. fold (row_tiles r k). rewrite IH by lia.
    pose proof (offset_le (rw area) cols (S k) ltac:(lia) ltac:(lia)) as Hc.
    rewrite offset_S in *. unfold covers, cover; simpl.
    rewrite !contains_fits by (simpl; lia). simpl. bool_lia.
Qed.
End Grid.

Section Whole.
Context (area : Rect) (n : nat).
Hypothesis Hn : (1 <= n < N.to_nat U16)%nat.
Hypothesis Hf : fits area.

Definition last_row : nat := (div_ceil n (overview_cols n) - 1)%nat.
Definition last_len : nat := (n - last_row * overview_cols n)%nat.

(** The slots of the last row no tile is left for. *)
Definition gap : Rect :=
  let cols := overview_cols n in
  let rows := div_ceil n cols in
  mkRect (rx area + offset (rw area) cols last_len)
         (ry area + offset (rh area) rows last_row)
         (rw area - offset (rw area) cols last_len)
         (track (rh area) rows last_row).

Lemma overview_sizes :
  (1 <= overview_cols n < N.to_nat U16)%nat /\
  (1 <= div_ceil n (overview_cols n) < N.to_nat U16)%nat /\
  (1 <= last_len <= overview_cols n)%nat /\
  (n = last_row * overview_cols n + last_len)%nat.
Proof.
  destruct (overview_cols_spec n) as (H1 & H2 & H3 & H4).
  pose proof (overview_cols_le n ltac:(lia)).
  destruct (div_ceil_spec n (overview_cols n)) as (H5 & H6 & H7); [lia..|].
  unfold last_len, last_row in *. set (c := overview_cols n) in *.
  set (r := div_ceil n c) in *. repeat split; nia.
Qed.

Lemma full_rows_cover m x y :
  (m <= last_row)%nat ->
  covers (concat (map (fun r => row_tiles area (overview_cols n) (div_ceil n (overview_cols n)) r
            (Nat.min (overview_cols n) (n - r * overview_cols n))) (seq 0 m))) x y
  = cover (mkRect (rx area) (ry area) (rw area)
             (offset (rh area) (div_ceil n (overview_cols n)) m)) x y.
Proof.
  destruct overview_sizes as (Hc & Hr & Hl & Hnl). destruct Hf as (Hw & Hh & Hx & Hy).
  unfold last_row in *. set (c := overview_cols n) in *. set (r := div_ceil n c) in *.
  induction m as [|m IH]; intros Hm.
  - rewrite offset_0. unfold covers, cover; simpl. rewrite contains_fits by (simpl; lia).
    simpl. bool_lia.
  - rewrite seq_S, map_app, concat_app, covers_app, IH, Nat.add_0_l by lia.
    cbn [map concat]. rewrite app_nil_r.
    assert (m * c + c <= n)%nat by nia. rewrite Nat.min_l by lia.
    rewrite row_tiles_cover by lia. rewrite (offset_end (rw area)) by lia.
    pose proof (offset_le (rh area) r (S m) ltac:(lia) ltac:(lia)) as Hb.
    rewrite offset_S in *. unfold cover. rewrite !contains_fits by (simpl; lia). simpl. bool_lia.
Qed.
End Whole.

(** The overview of a Workspace's Tabs gives each Tab one tile, and the
    tiles together with the unused slots of the last row ([gap]) cover every
    cell of the area exactly once. So no two tiles overlap and none leaves the
    area, and the area is filled exactly when the last row is full. *)
Theorem overview_tiles_spec area n :
  (1 <= n < N.to_nat U16)%nat -> fits area ->
  length (overview_tiles area n) = n /\
  (forall x y, covers (overview_tiles area n) x y + cover (gap area n) x y = cover area x y)%nat /\
  (last_len n = overview_cols n -> rw (gap area n) = 0).
Proof.
  intros Hn Hf. pose proof Hf as (Hw & Hh & Hx & Hy).
  destruct (overview_sizes n Hn) as (Hc & Hr & Hl & Hnl).
  assert (E : overview_tiles area n = concat (map (fun r =>
    row_tiles area (overview_cols n) (div_ceil n (overview_cols n)) r
      (Nat.min (overview_cols n) (n - r * overview_cols n))) (seq 0 (S (last_row n))))).
  { unfold overview_tiles. rewrite (proj2 (Nat.eqb_neq n 0)) by lia.
    rewrite (proj2 (N.eqb_neq (rw area) 0)), (proj2 (N.eqb_neq (rh area) 0)) by lia. cbn [orb].
    fold (overview_cols n).
    replace (S (last_row n)) with (div_ceil n (overview_cols n)) by (unfold last_row; lia).
    by rewrite grid_foldl by lia. }
  rewrite E, seq_S, map_app, concat_app, Nat.add_0_l. cbn [map concat]. rewrite app_nil_r.
  fold (last_len n). rewrite Nat.min_r by lia.
  split; [|split].
  - rewrite length_app. unfold row_tiles at 2. rewrite length_map, length_seq.
    rewrite Hnl at 3. f_equal. assert (Hk : (last_row n <= last_row n)%nat) by lia. revert Hk.
    generalize (last_row n) at 1 3 4. intros m. induction m as [|m IH]; intros Hk; [done|].
    rewrite seq_S, map_app, concat_app, length_app, IH, Nat.add_0_l by lia. cbn [map concat].
    rewrite app_nil_r. unfold row_tiles. rewrite length_map, length_seq. nia.
  - intros x y. rewrite covers_app, full_rows_cover by done.
    rewrite row_tiles_cover by (unfold last_row; lia). unfold gap, last_row in *.
    set (c := overview_cols n) in *. set (r := div_ceil n c) in *.
    pose proof (offset_le (rw area) c (last_len n) ltac:(lia) ltac:(lia)).
    pose proof (offset_end (rh area) r ltac:(lia)) as He.
    replace r with (S (r - 1)) in He at 2 by lia. rewrite offset_S in He.
    unfold cover. rewrite !contains_fits by (simpl; lia). simpl. bool_lia.
  - intros Hlast. unfold gap; simpl. rewrite Hlast, offset_end by lia. lia.
Qed.

Lemma overview_tiles_spec_witness :
  fits (mkRect 0 1 101 29) /\
  length (overview_tiles (mkRect 0 1 101 29) 5) = 5%nat /\
  covers (overview_tiles (mkRect 0 1 101 29) 5) 100 29 = 0%nat.
Proof.
  assert (H : fits (mkRect 0 1 101 29)) by (by vm_compute).
  split; [done|]. split; [|by vm_compute].
  apply (overview_tiles_spec (mkRect 0 1 101 29) 5); [|done].
  split; [lia|]. apply Nat.ltb_lt. by vm_compute.
Defined.
