(* ===== verification/Chrome.v ===== *)
(** * Geometry of the chrome

    [uniterm-server/src/chrome.rs]: the scrollbar of Scrolling tabs, the cards
    of the sidebars, equal segments and the tab bar.  Painting and the mouse
    share these layouts.  Coordinates are [u16]; counts are [usize]. *)

From S2P Require Import Prelude Float32 Layout.
#[local] Open Scope u_scope.

Definition usize_max : N := u64_max.

(** ** The scrollbar *)

Record ScrollbarLayout : Set := { sb_area : Rect; sb_track : Rect; sb_thumb : Rect; sb_max_scroll : N }.

Definition scrollbar_new (area : Rect) (total visible scroll : N) : ScrollbarLayout :=
  let track := area in
  let max_scroll := ssub total visible in
  let thumb_width :=
    if max_scroll =? 0 then rw track
    else N.min (N.max ((rw track * visible / total) mod U16) 1) (rw track) in
  let travel := rw track -16 thumb_width in
  let offset :=
    if max_scroll =? 0 then 0 else (travel * N.min scroll max_scroll / max_scroll) mod U16 in
  {| sb_area := area; sb_track := track;
     sb_thumb := mkRect (rx track +16 offset) (ry area) thumb_width 1; sb_max_scroll := max_scroll |}.

Definition scroll_at (b : ScrollbarLayout) (x grab : N) : N :=
  let travel := ssub (rw (sb_track b)) (rw (sb_thumb b)) in
  if travel =? 0 then 0
  else
    let offset := N.min (ssub (ssub x grab) (rx (sb_track b))) travel in
    ((offset * sb_max_scroll b + travel / 2) / travel) mod U64.

(** ** Cards *)

Definition CARD_ROWS : N := 2.
Definition CARD_GAP : N := 1.
Definition PROJECT_CARD_ROWS : N := 3.

Record CardSlot : Set := { card_item : N; card_rect : Rect }.

(** How many cards fit. *)
Definition card_capacity (height rows gap : N) : N :=
  if height <? rows then 0 else sadd u16_max height gap / sadd u16_max rows gap.

Definition card_slots_with_geometry (start_row end_row total scroll rows gap : N) : list CardSlot :=
  let stride := sadd u16_max rows gap in
  let capacity := card_capacity (ssub end_row start_row) rows gap in
  let first := N.min scroll (ssub total capacity) in
  map (fun slot => let slot := N.of_nat slot in
        {| card_item := first + slot;
           card_rect := mkRect 0 (sadd u16_max start_row ((N.min slot u16_max * stride) mod U16)) 0 rows |})
    (seq 0 (N.to_nat (N.min capacity (ssub total first)))).

Definition card_slots (start_row end_row total scroll : N) : list CardSlot :=
  card_slots_with_geometry start_row end_row total scroll CARD_ROWS CARD_GAP.

Definition project_card_slots (start_row end_row total scroll : N) : list CardSlot :=
  card_slots_with_geometry start_row end_row total scroll PROJECT_CARD_ROWS 0.

Definition card_at (slots : list CardSlot) (row : N) : option N :=
  card_item <$> List.find (fun s => (ry (card_rect s) <=? row) && (row <? bottom (card_rect s))) slots.

(** ** Equal segments *)

(** The closure of [equal_segments] with its running [x]. *)
Definition segment (area : Rect) (base remainder : N) (acc : N * list Rect) (index : N) : N * list Rect :=
  let width := base +16 (if index <? remainder then 1 else 0) in
  let rect := mkRect acc.1 (ry area) width (rh area) in
  (right rect, acc.2 ++ [rect]).

Definition equal_segments (area : Rect) (count : N) : list Rect :=
  if u16_max <? count then []
  else if (rw area =? 0) || (rh area =? 0) || (count =? 0) then []
  else (foldl (segment area (rw area / count) (rw area mod count)) (rx area, [])
          (map N.of_nat (seq 0 (N.to_nat count)))).2.

Definition smul16 (a b : N) : N := N.min (a * b) u16_max.

Definition equal_segments_with_gap (area : Rect) (count gap : N) : list Rect :=
  if u16_max <? count then []
  else
    let gap_cells := smul16 gap (ssub count 1) in
    let gap := if sadd u16_max count gap_cells <=? rw area then gap else 0 in
    let segment_area := mkRect (rx area) (ry area) (ssub (rw area) (smul16 gap (ssub count 1))) (rh area) in
    imap (fun index r => mkRect (sadd u16_max (rx r) (smul16 (N.min (N.of_nat index) u16_max) gap)) (ry r) (rw r) (rh r))
      (equal_segments segment_area count).

(** ** The tab bar *)

Definition NEW_TAB_WIDTH : N := 3.
Definition TAB_SCROLL_WIDTH : N := 3.
Definition MIN_TAB_WIDTH : N := 8.

Record TabSlot : Set := { tab_item : N; tab_rect : Rect }.

Record TabBarLayout : Set := {
  tb_scroll : N; tb_tabs : list TabSlot; tb_left : option Rect; tb_right : option Rect;
  tb_new : option Rect; tb_before : bool; tb_after : bool }.

Definition default_tab_bar : TabBarLayout :=
  {| tb_scroll := 0; tb_tabs := []; tb_left := None; tb_right := None; tb_new := None;
     tb_before := false; tb_after := false |}.

(** The loop of [layout_tabs]: [item] is the next index, [x] the next column. *)
Fixpoint layout_tabs_loop (area : Rect) (widths : list N) (item x : N) : list TabSlot :=
  match widths with
  | [] => []
  | desired :: widths =>
      let remaining := ssub (right area) x in
      if remaining =? 0 then []
      else
        let width := N.max (N.min desired remaining) 1 in
        {| tab_item := item; tab_rect := mkRect x (ry area) width 1 |}
        :: layout_tabs_loop area widths (item + 1) (sadd u16_max x width)
  end.

Definition layout_tabs (area : Rect) (widths : list N) (scroll : N) : list TabSlot :=
  layout_tabs_loop area (drop (N.to_nat scroll) widths) scroll (rx area).

(** The widths of tabs that all fit. *)
Definition tab_widths (w count : N) : list N :=
  map (fun index => (w / count + (if N.of_nat index <? w mod count then 1 else 0)) mod U16) (seq 0 (N.to_nat count)).

(** The first tab shown: the requested one, moved to keep the active one in view. *)
Definition tab_scroll (count active requested visible : N) (follow_active : bool) : N :=
  let max_scroll := ssub count visible in
  let scroll := N.min requested max_scroll in
  if follow_active && (active <? count) then
    if active <? scroll then active
    else if sadd usize_max scroll visible <=? active
    then N.min (ssub (sadd usize_max active 1) visible) max_scroll
    else scroll
  else scroll.

Definition div_ceil8 (w : N) : N := (w + 7) / MIN_TAB_WIDTH.

(** The slots of an overflowing bar. *)
Definition viewport_tabs (viewport : Rect) (y count scroll : N) : list TabSlot :=
  map (fun offset => let offset := N.of_nat offset in
        let x := rx viewport +16 ((offset mod U16 * MIN_TAB_WIDTH) mod U16) in
        {| tab_item := scroll + offset; tab_rect := mkRect x y (N.min MIN_TAB_WIDTH (right viewport -16 x)) 1 |})
    (seq 0 (N.to_nat (N.min (div_ceil8 (rw viewport)) (count - scroll)))).

Definition tab_bar_layout (area : Rect) (count active requested_scroll : N) (follow_active : bool) : TabBarLayout :=
  if (rw area =? 0) || (rh area =? 0) then default_tab_bar
  else
    let new_width := N.min NEW_TAB_WIDTH (rw area) in
    let new_tab := mkRect (ssub (right area) new_width) (ry area) new_width 1 in
    let full_viewport := mkRect (rx area) (ry area) (ssub (rw area) new_width) 1 in
    if (count =? 0) || (count <=? rw full_viewport / MIN_TAB_WIDTH) then
      {| tb_scroll := 0; tb_tabs := layout_tabs full_viewport (tab_widths (rw full_viewport) count) 0;
         tb_left := None; tb_right := None; tb_new := Some new_tab; tb_before := false; tb_after := false |}
    else
      let left_width := N.min TAB_SCROLL_WIDTH (rw full_viewport) in
      let left := mkRect (rx full_viewport) (ry area) left_width 1 in
      let right_width := N.min TAB_SCROLL_WIDTH (ssub (rw full_viewport) left_width) in
      let right_ := mkRect (ssub (rx new_tab) right_width) (ry area) right_width 1 in
      let viewport := mkRect (right left) (ry area) (ssub (rx right_) (right left)) 1 in
      let visible := N.max (rw viewport / MIN_TAB_WIDTH) 1 in
      let scroll := tab_scroll count active requested_scroll visible follow_active in
      let tabs := viewport_tabs viewport (ry area) count scroll in
      let hidden_after :=
        match last tabs with
        | None => true
        | Some slot => (tab_item slot + 1 <? count) || (rw (tab_rect slot) <? MIN_TAB_WIDTH)
        end in
      {| tb_scroll := scroll; tb_tabs := tabs; tb_left := Some left; tb_right := Some right_;
         tb_new := Some new_tab; tb_before := 0 <? scroll; tb_after := hidden_after |}.

(** The repository's examples. *)
Example tab_overflow :
  let l := tab_bar_layout (mkRect 20 0 35 1) 5 4 0 true in
  tb_new l = Some (mkRect 52 0 3 1) /\ map tab_item (tb_tabs l) = [2; 3; 4]
  /\ tb_before l = true /\ tb_after l = false.
Proof. vm_compute. repeat split. Qed.

Example scrollbar_example :
  scroll_at (scrollbar_new (mkRect 24 23 60 1) 4 2 usize_max) 65535 10 = 2
  /\ scroll_at (scrollbar_new (mkRect 24 23 60 1) usize_max 1 usize_max) 65535 0 = usize_max - 1.
Proof. vm_compute. repeat split. Qed.
