(* ===== verification/ChromeSpec.v ===== *)
(** * What the chrome's geometry promises

    The layouts of Chrome.v tile their areas, keep their controls apart and
    show what they are asked to. *)

From S2P Require Import Prelude Float32 Layout Overview Chrome.
#[local] Open Scope u_scope.

(** ** Strips: adjacent rectangles of one height *)

Inductive strip (y h : N) : N -> N -> list Rect -> Prop :=
| strip_nil x : strip y h x x []
| strip_cons x w b rs : strip y h (x + w) b rs -> strip y h x b (mkRect x y w h :: rs).
#[export] Hint Constructors strip : uniterm.

Lemma strip_le y h a b rs : strip y h a b rs -> a <= b.
Proof. induction 1; lia. Qed.

Lemma strip_app y h a b c rs rs' : strip y h a b rs -> strip y h b c rs' -> strip y h a c (rs ++ rs').
Proof. induction 1; simpl; eauto with uniterm. Qed.

Lemma strip_one y h a b w : a + w = b -> strip y h a b [mkRect a y w h].
Proof. intros <-. repeat constructor. Qed.

Lemma strip_blank y h x b rs : strip y h x b rs -> strip y h x b (mkRect x y 0 h :: rs).
Proof. intros Hs. constructor. by rewrite N.add_0_r. Qed.

(** A strip covers exactly its span. *)
Lemma strip_covers y h a b rs cx cy : strip y h a b rs -> b < U16 -> y + h < U16 ->
  covers rs cx cy = cover (mkRect a y (b - a) h) cx cy.
Proof.
  intros Hs Hb Hy. induction Hs as [x|x w b rs Hs IH].
  - unfold covers, cover; simpl. rewrite contains_fits by (simpl; lia). simpl. bool_lia.
  - pose proof (strip_le _ _ _ _ _ Hs). unfold covers in *. simpl. rewrite IH by done.
    unfold cover. rewrite !contains_fits by (simpl; lia). simpl. bool_lia.
Qed.

(** Rectangles between the successive values of [X]. *)
Lemma strip_seq y h (X : nat -> N) (f : nat -> Rect) n : forall i,
  (forall j, (i <= j < i + n)%nat -> X j <= X (S j) /\ f j = mkRect (X j) y (X (S j) - X j) h) ->
  strip y h (X i) (X (i + n)%nat) (map f (seq i n)).
Proof.
  induction n as [|n IH]; intros i Hf; simpl; [rewrite Nat.add_0_r; constructor|].
  destruct (Hf i) as [Hx ->]; [lia|]. constructor. replace (X i + (X (S i) - X i)) with (X (S i)) by lia.
  rewrite <- Nat.add_succ_comm. apply IH. intros j Hj. apply Hf. lia.
Qed.

(** ** Equal segments *)

Section Segments.
Context (area : Rect) (count : nat).
Hypothesis Hfits : fits area.
Hypothesis Hcount : (0 < count)%nat /\ N.of_nat count < U16.

Definition segment_rect (i : nat) : Rect :=
  mkRect (rx area + offset (rw area) count i) (ry area) (track (rw area) count i) (rh area).

Lemma segment_fold m acc : (m <= count)%nat ->
  foldl (segment area (rw area / N.of_nat count) (rw area mod N.of_nat count)) (rx area, acc) (map N.of_nat (seq 0 m))
  = (rx area + offset (rw area) count m, acc ++ map segment_rect (seq 0 m)).
Proof.
  destruct Hfits as (_&_&Hx&_). induction m as [|m IH]; intros Hm.
  - simpl. by rewrite offset_0, app_nil_r, N.add_0_r.
  - rewrite seq_S, !map_app, foldl_app, IH by lia. cbn [map foldl]. unfold segment. simpl.
    pose proof (offset_le (rw area) count (S m) ltac:(lia) ltac:(lia)) as Hb.
    rewrite offset_S in *.
    assert (rw area / N.of_nat count +16 (if N.of_nat m <? rw area mod N.of_nat count then 1 else 0)
      = track (rw area) count m) as ->.
    { unfold track in *.
      replace (N.of_nat m <? rw area mod N.of_nat count) with (m <? N.to_nat (rw area mod N.of_nat count))%nat
        by (destruct (Nat.ltb_spec m (N.to_nat (rw area mod N.of_nat count))),
              (N.ltb_spec (N.of_nat m) (rw area mod N.of_nat count)); lia).
      apply wadd_small. lia. }
    unfold right. simpl. rewrite wadd_small, <- app_assoc by lia. f_equal. lia.
Qed.

Lemma equal_segments_eq : equal_segments area (N.of_nat count) = map segment_rect (seq 0 count).
Proof.
  destruct Hfits as (Hw&Hh&_). unfold equal_segments.
  replace (u16_max <? N.of_nat count) with false by (symmetry; apply N.ltb_ge; unfold u16_max, U16 in *; lia).
  replace ((rw area =? 0) || (rh area =? 0) || (N.of_nat count =? 0)) with false by bool_lia.
  rewrite Nat2N.id, segment_fold by done. done.
Qed.

Lemma segments_strip : strip (ry area) (rh area) (rx area) (rx area + rw area) (map segment_rect (seq 0 count)).
Proof.
  pose proof (strip_seq (ry area) (rh area) (fun i => rx area + offset (rw area) count i) segment_rect count 0) as H.
  simpl in H. rewrite offset_0, offset_end, N.add_0_r in H by lia. apply H.
  intros j Hj. rewrite offset_S. split; [lia|]. unfold segment_rect. f_equal. lia.
Qed.
End Segments.

Lemma equal_segments_none area count : rw area = 0 \/ rh area = 0 \/ count = 0 \/ U16 <= count -> equal_segments area count = [].
Proof.
  intros Hz. unfold equal_segments. destruct (N.ltb_spec u16_max count); [done|].
  replace ((rw area =? 0) || (rh area =? 0) || (count =? 0)) with true; [done|].
  unfold U16, u16_max in *. bool_lia.
Qed.

(** Controls with a gap: control [i] starts [i] gaps further right; the last
    ends where the area does, and the gap is given up only when some control
    would be empty. *)
Lemma segments_with_gap area count gap : fits area -> (0 < count)%nat -> N.of_nat count < U16 -> rw area < u16_max ->
  let g := if N.of_nat count + gap * N.of_nat (count - 1) <=? rw area then gap else 0 in
  let inner := mkRect (rx area) (ry area) (rw area - g * N.of_nat (count - 1)) (rh area) in
  equal_segments_with_gap area (N.of_nat count) gap
  = map (fun i => mkRect (rx area + offset (rw inner) count i + N.of_nat i * g) (ry area) (track (rw inner) count i) (rh area))
      (seq 0 count).
Proof.
  intros Hf Hc Hc' Hwm g inner. pose proof Hf as (Hw&Hh&Hx&Hy). unfold equal_segments_with_gap.
  replace (u16_max <? N.of_nat count) with false by (symmetry; apply N.ltb_ge; unfold u16_max, U16 in *; lia).
  assert (Hgap : (if sadd u16_max (N.of_nat count) (smul16 gap (ssub (N.of_nat count) 1)) <=? rw area then gap else 0) = g).
  { unfold g, sadd, smul16, ssub. replace (N.of_nat (count - 1)) with (N.of_nat count - 1) by lia.
    unfold u16_max, U16 in *. bool_lia. }
  rewrite Hgap.
  assert (Hinner : ssub (rw area) (smul16 g (ssub (N.of_nat count) 1)) = rw inner /\ g * N.of_nat (count - 1) < rw area).
  { unfold smul16, ssub. replace (N.of_nat (count - 1)) with (N.of_nat count - 1) by lia. unfold inner, g in *. simpl.
    replace (N.of_nat (count - 1)) with (N.of_nat count - 1) by lia. unfold u16_max, U16 in *. bool_lia. }
  destruct Hinner as [-> Hlt]. clear Hgap. clearbody g.
  change (mkRect (rx area) (ry area) (rw inner) (rh area)) with inner.
  assert (Hin : fits inner) by (unfold fits, inner; cbn [rx ry rw rh];
    set (t := g * N.of_nat (count - 1)) in *; clearbody t; lia).
  rewrite (equal_segments_eq inner count Hin (conj Hc Hc')).
  apply list_eq. intros i. rewrite list_lookup_imap, !list_lookup_fmap.
  destruct (decide (i < count)%nat) as [Hi|Hi]; [|by rewrite !lookup_seq_ge by lia].
  rewrite !lookup_seq_lt by done. simpl. unfold segment_rect. simpl. f_equal. f_equal.
  pose proof (offset_le (rw inner) count i ltac:(lia) ltac:(lia)).
  assert (N.of_nat i * g <= N.of_nat (count - 1) * g) by (apply N.mul_le_mono_r; lia).
  unfold smul16, sadd, inner in *. simpl in *. unfold u16_max, U16 in *.
  rewrite (N.min_l (N.of_nat i)) by lia. rewrite (N.mul_comm (N.of_nat (count - 1))) in *.
  generalize dependent (g * N.of_nat (count - 1)). generalize (N.of_nat i * g). intros. lia.
Qed.

(** ** The tab bar *)

Lemma tab_widths_eq w count : w < U16 -> N.of_nat count < U16 -> (0 < count)%nat ->
  tab_widths w (N.of_nat count) = map (track w count) (seq 0 count).
Proof.
  intros Hw Hc Hc0. unfold tab_widths. rewrite Nat2N.id. apply map_ext_in. intros i Hi%in_seq. unfold track.
  pose proof (offset_le w count (S i) ltac:(lia) ltac:(lia)) as Hb. rewrite offset_S in Hb. unfold track in Hb.
  replace (N.of_nat i <? w mod N.of_nat count) with (i <? N.to_nat (w mod N.of_nat count))%nat
    by (destruct (Nat.ltb_spec i (N.to_nat (w mod N.of_nat count))), (N.ltb_spec (N.of_nat i) (w mod N.of_nat count)); lia).
  apply N.mod_small. lia.
Qed.

(** Tabs that all fit share the bar. *)
Definition shared_slot (area : Rect) (count i : nat) : TabSlot :=
  {| tab_item := N.of_nat i;
     tab_rect := mkRect (rx area + offset (rw area) count i) (ry area) (track (rw area) count i) 1 |}.

Lemma layout_shared area count : rx area + rw area < U16 -> (forall i, (i < count)%nat -> 1 <= track (rw area) count i) ->
  forall n i, (i + n = count)%nat ->
  layout_tabs_loop area (map (track (rw area) count) (seq i n)) (N.of_nat i) (rx area + offset (rw area) count i)
  = map (shared_slot area count) (seq i n).
Proof.
  intros Hx Hpos. induction n as [|n IH]; intros i Hi; simpl; [done|].
  pose proof (offset_le (rw area) count (S i) ltac:(lia) ltac:(lia)) as Hb. rewrite offset_S in Hb.
  pose proof (Hpos i ltac:(lia)). unfold ssub, right. rewrite wadd_small by lia.
  replace (_ =? 0) with false by bool_lia. rewrite N.min_l by lia. rewrite N.max_l by lia.
  f_equal. rewrite sadd_small by (unfold u16_max, U16 in *; lia).
  replace (N.of_nat i + 1) with (N.of_nat (S i)) by lia.
  rewrite <- N.add_assoc, <- offset_S. apply IH. lia.
Qed.

Lemma shared_strip area count : (0 < count)%nat ->
  strip (ry area) 1 (rx area) (rx area + rw area) (map tab_rect (map (shared_slot area count) (seq 0 count))).
Proof.
  intros Hc. rewrite map_map.
  pose proof (strip_seq (ry area) 1 (fun i => rx area + offset (rw area) count i)
    (fun i => tab_rect (shared_slot area count i)) count 0) as H.
  simpl in H. rewrite offset_0, offset_end, N.add_0_r in H by lia. apply H.
  intros j Hj. rewrite offset_S. split; [lia|]. f_equal. lia.
Qed.

(** Tabs of eight columns fill the viewport from its left. *)
Definition viewport_slot (v : Rect) (scroll : N) (i : nat) : TabSlot :=
  {| tab_item := scroll + N.of_nat i;
     tab_rect := mkRect (rx v + N.of_nat i * 8) (ry v) (N.min 8 (rw v - N.of_nat i * 8)) 1 |}.

Definition viewport_count (v : Rect) (count scroll : N) : nat := N.to_nat (N.min (div_ceil8 (rw v)) (count - scroll)).

Lemma viewport_count_le v count scroll i : (i < viewport_count v count scroll)%nat ->
  N.of_nat i * 8 < rw v /\ scroll + N.of_nat i < count.
Proof.
  unfold viewport_count, div_ceil8, MIN_TAB_WIDTH. intros Hi.
  pose proof (N.div_mod (rw v + 7) 8 ltac:(lia)). pose proof (N.mod_lt (rw v + 7) 8 ltac:(lia)). revert Hi H H0. generalize ((rw v + 7) / 8), ((rw v + 7) mod 8). intros q r Hi Hq Hr. split; lia.
Qed.

Lemma viewport_tabs_eq v count scroll : rx v + rw v < U16 ->
  viewport_tabs v (ry v) count scroll = map (viewport_slot v scroll) (seq 0 (viewport_count v count scroll)).
Proof.
  intros Hx. unfold viewport_tabs. apply map_ext_in. intros i Hi%in_seq. fold (viewport_count v count scroll) in Hi.
  destruct (viewport_count_le v count scroll i ltac:(lia)) as [H1 H2]. unfold viewport_slot, right, MIN_TAB_WIDTH.
  unfold U16 in *. rewrite (N.mod_small (N.of_nat i)), N.mod_small by lia.
  rewrite !wadd_small by (unfold U16; lia). rewrite wsub_small by (unfold U16; lia).
  f_equal. f_equal. lia.
Qed.

Lemma viewport_strip v count scroll : let n := viewport_count v count scroll in
  strip (ry v) 1 (rx v) (rx v + N.min (rw v) (N.of_nat n * 8)) (map tab_rect (map (viewport_slot v scroll) (seq 0 n))).
Proof.
  intros n. rewrite map_map.
  pose proof (strip_seq (ry v) 1 (fun i => rx v + N.min (rw v) (N.of_nat i * 8))
    (fun i => tab_rect (viewport_slot v scroll i)) n 0) as H.
  simpl in H. rewrite N.min_0_r, N.add_0_r in H. apply H.
  intros j Hj. destruct (viewport_count_le v count scroll j ltac:(fold n; lia)) as [H1 H2].
  split; [lia|]. f_equal; lia.
Qed.

Lemma tab_scroll_max count active requested visible follow :
  tab_scroll count active requested visible follow <= count - visible.
Proof. unfold tab_scroll, ssub. destruct follow; simpl; [|lia]. bool_lia. Qed.

Lemma tab_scroll_follows count active requested visible :
  active < count -> count <= usize_max -> 1 <= visible <= U16 ->
  let s := tab_scroll count active requested visible true in s <= active < s + visible.
Proof.
  intros Ha Hc Hv. unfold tab_scroll, ssub, sadd. replace (active <? count) with true by bool_lia. simpl.
  unfold usize_max, u64_max, U16 in *. bool_lia.
Qed.

Lemma last_seq {A} (f : nat -> A) n : last (map f (seq 0 (S n))) = Some (f n).
Proof. rewrite seq_S, map_app. apply last_snoc. Qed.

(** The end of the list is in view, or the viewport is full. *)
Lemma viewport_slack v count scroll : scroll < count ->
  let n := viewport_count v count scroll in
  N.of_nat n * 8 < rw v -> exists k, n = S k /\ scroll + N.of_nat k + 1 = count.
Proof.
  intros Hs n Hn. unfold viewport_count, div_ceil8, MIN_TAB_WIDTH in n.
  pose proof (N.div_mod (rw v + 7) 8 ltac:(lia)) as Hq. pose proof (N.mod_lt (rw v + 7) 8 ltac:(lia)) as Hr.
  revert n Hn Hq Hr. generalize ((rw v + 7) / 8), ((rw v + 7) mod 8). intros q r n Hn Hq Hr.
  exists (N.to_nat (count - scroll) - 1)%nat. subst n. split; lia.
Qed.

(** What the bar shows: consecutive tabs from the scroll position on. *)
Definition shows (l : TabBarLayout) (count : N) : Prop := forall i s, tb_tabs l !! i = Some s ->
  tab_item s = tb_scroll l + N.of_nat i /\ tab_item s < count /\ 0 < rw (tab_rect s).

(** The controls and tabs of a bar from left to right, with the blank before
    the trailing controls. *)
Definition bar_strip (area : Rect) (l : TabBarLayout) (slack : N) : Prop := exists e,
  strip (ry area) 1 (rx area) (rx area + rw area)
    (option_list (tb_left l) ++ map tab_rect (tb_tabs l) ++ [mkRect e (ry area) slack 1]
     ++ option_list (tb_right l) ++ option_list (tb_new l)).

Definition end_in_view (l : TabBarLayout) (count : N) : Prop :=
  count = 0 \/ exists s, last (tb_tabs l) = Some s /\ tab_item s + 1 = count /\ 8 <= rw (tab_rect s).

Record bar_ok (area : Rect) (count : N) (l : TabBarLayout) : Prop := {
  bo_strip : exists slack, bar_strip area l slack /\ (0 < slack -> tb_after l = false);
  bo_shows : shows l count;
  bo_before : tb_before l = true <-> 0 < tb_scroll l;
  bo_after : tb_after l = false <-> end_in_view l count }.

Lemma track_wide w count i : (0 < count)%nat -> N.of_nat count <= w / 8 -> 8 <= track w count i.
Proof.
  intros Hc Hle. unfold track. assert (8 <= w / N.of_nat count); [|lia].
  apply N.div_le_lower_bound; [lia|]. pose proof (N.Div0.mul_div_le w 8). nia.
Qed.

(** The bar whose tabs all fit. *)
Lemma shared_bar area count new_width active : rx area + rw area < U16 -> new_width <= rw area ->
  let full := mkRect (rx area) (ry area) (rw area - new_width) 1 in
  (count = 0%nat \/ N.of_nat count <= rw full / 8) ->
  let l := {| tb_scroll := 0; tb_tabs := layout_tabs full (tab_widths (rw full) (N.of_nat count)) 0; tb_left := None;
              tb_right := None; tb_new := Some (mkRect (rx area + (rw area - new_width)) (ry area) new_width 1);
              tb_before := false; tb_after := false |} in
  bar_ok area (N.of_nat count) l
  /\ (active < N.of_nat count -> exists s, s ∈ tb_tabs l /\ tab_item s = active /\ 8 <= rw (tab_rect s)).
Proof.
  intros Hx Hn full Hc l.
  destruct (decide (count = 0%nat)) as [->|Hc0].
  { split; [|lia]. split; simpl; [|by intros ??|split; [done|lia]|split; [by left|done]].
    exists (rw area - new_width). split; [|done]. exists (rx area). simpl. constructor. apply strip_one. lia. }
  destruct Hc as [|Hc]; [done|].
  assert (Hlt : N.of_nat count < U16).
  { pose proof (N.Div0.mul_div_le (rw full) 8). unfold full in *. simpl in *. lia. }
  assert (Ht : tb_tabs l = map (shared_slot full count) (seq 0 count)).
  { unfold l. simpl. unfold layout_tabs. simpl. rewrite tab_widths_eq by (simpl; lia).
    rewrite <- (layout_shared full count) by (simpl; intros; try pose proof (track_wide (rw full) count i); simpl in *; lia).
    f_equal. rewrite offset_0. simpl. lia. }
  split; [split|].
  - exists 0. split; [|done]. exists (rx area + (rw area - new_width)). rewrite Ht. simpl.
    eapply strip_app; [apply (shared_strip full); lia|]. simpl.
    apply strip_blank, strip_one. lia.
  - intros i s. rewrite Ht, list_lookup_fmap. intros (j&(Hj&Hi)%lookup_seq&->)%fmap_Some. simpl in *.
    pose proof (track_wide (rw full) count j ltac:(lia) Hc). subst j. simpl in *. split_and!; lia.
  - simpl. split; [done|lia].
  - simpl. split; [|done]. intros _. right. rewrite Ht. destruct count as [|k]; [done|].
    exists (shared_slot full (S k) k). rewrite last_seq. split_and!; [done|simpl; lia|].
    by apply track_wide; [lia|].
  - intros Ha. exists (shared_slot full count (N.to_nat active)). rewrite Ht. split_and!.
    + apply list_elem_of_In, in_map, in_seq. lia.
    + simpl. lia.
    + apply track_wide; [lia|done].
Qed.

(** The bar that scrolls, with controls of widths [lw], [rw'] and [nw]. *)
Definition scrolling_bar (area : Rect) (lw rw' nw count scroll : N) : TabBarLayout :=
  let v := mkRect (rx area + lw) (ry area) (rw area - nw - rw' - lw) 1 in
  let n := viewport_count v count scroll in
  {| tb_scroll := scroll; tb_tabs := map (viewport_slot v scroll) (seq 0 n);
     tb_left := Some (mkRect (rx area) (ry area) lw 1);
     tb_right := Some (mkRect (rx area + (rw area - nw - rw')) (ry area) rw' 1);
     tb_new := Some (mkRect (rx area + (rw area - nw)) (ry area) nw 1);
     tb_before := 0 <? scroll;
     tb_after := match last (map (viewport_slot v scroll) (seq 0 n)) with
       | None => true
       | Some s => (tab_item s + 1 <? count) || (rw (tab_rect s) <? 8)
       end |}.

Lemma scrolling_bar_ok area lw rw' nw count scroll :
  nw + rw' + lw <= rw area -> scroll < count -> bar_ok area count (scrolling_bar area lw rw' nw count scroll).
Proof.
  intros Hw Hs. set (v := mkRect (rx area + lw) (ry area) (rw area - nw - rw' - lw) 1).
  set (n := viewport_count v count scroll). split.
  - exists (rw v - N.min (rw v) (N.of_nat n * 8)). split.
    + exists (rx v + N.min (rw v) (N.of_nat n * 8)). simpl. constructor.
      eapply strip_app; [apply (viewport_strip v)|]. simpl. constructor. fold n.
      replace (_ + _) with (rx area + (rw area - nw - rw')) by (simpl; lia). constructor.
      replace (_ + _) with (rx area + (rw area - nw)) by lia. apply strip_one. lia.
    + intros Hslack. destruct (viewport_slack v count scroll Hs) as (k&Hk&Hlast); fold n; [lia|].
      fold n in Hk. simpl. fold v n. rewrite Hk, last_seq. simpl. rewrite Hk in Hslack. simpl in *. bool_lia.
  - intros i s. simpl. rewrite list_lookup_fmap. intros (j&(Hj&Hi)%lookup_seq&->)%fmap_Some. fold v n in Hi.
    destruct (viewport_count_le v count scroll i Hi). subst j. simpl in *. split_and!; lia.
  - simpl. apply N.ltb_lt.
  - unfold end_in_view. simpl. fold v n. destruct n as [|k] eqn:Hn.
    { simpl. split; [done|]. intros [->|(s&[=]&_)]. lia. }
    rewrite last_seq, orb_false_iff, N.ltb_ge, N.ltb_ge.
    destruct (viewport_count_le v count scroll k) as [_ Hb]; [fold n; lia|]. split.
    + intros [H1 H2]. right. exists (viewport_slot v scroll k). simpl in *. split_and!; [done|lia|done].
    + intros [->|(s&[= <-]&H1&H2)]; [lia|]. simpl in *. split; [lia|done].
Qed.

Lemma tab_bar_cases area count active requested follow : fits area -> count <= usize_max ->
  let l := tab_bar_layout area count active requested follow in
  let nw := N.min 3 (rw area) in let lw := N.min 3 (rw area - nw) in let rw' := N.min 3 (rw area - nw - lw) in
  (exists c, count = N.of_nat c /\ (c = 0%nat \/ count <= (rw area - nw) / 8)
    /\ l = {| tb_scroll := 0;
              tb_tabs := layout_tabs (mkRect (rx area) (ry area) (rw area - nw) 1) (tab_widths (rw area - nw) count) 0;
              tb_left := None; tb_right := None; tb_new := Some (mkRect (rx area + (rw area - nw)) (ry area) nw 1);
              tb_before := false; tb_after := false |})
  \/ (0 < count /\ l = scrolling_bar area lw rw' nw count
        (tab_scroll count active requested (N.max ((rw area - nw - rw' - lw) / 8) 1) follow)).
Proof.
  intros (Hw&Hh&Hx&Hy) Hc l nw lw rw'. unfold l, tab_bar_layout.
  replace ((rw area =? 0) || (rh area =? 0)) with false by bool_lia. cbv zeta. cbn [rx ry rw rh].
  unfold ssub, right, NEW_TAB_WIDTH, TAB_SCROLL_WIDTH. cbn [rx ry rw rh]. fold nw lw. fold rw'.
  unfold MIN_TAB_WIDTH. rewrite !wadd_small by lia.
  replace (rx area + rw area - nw) with (rx area + (rw area - nw)) by lia.
  destruct (_ || _) eqn:E.
  - left. exists (N.to_nat count). split; [lia|]. split; [|done]. apply orb_true_iff in E as [E|E].
    + apply N.eqb_eq in E. left. lia.
    + right. by apply N.leb_le in E.
  - right. apply orb_false_iff in E as [E%N.eqb_neq _]. split; [lia|].
    replace (rx area + (rw area - nw) - rw' - (rx area + lw)) with (rw area - nw - rw' - lw) by lia.
    set (v := mkRect _ _ (rw area - nw - rw' - lw) 1).
    set (scroll := tab_scroll _ _ _ _ _).
    pose proof (viewport_tabs_eq v count scroll ltac:(simpl; lia)) as Hv. change (ry v) with (ry area) in Hv.
    rewrite Hv. unfold scrolling_bar. fold v.
    replace (rx area + (rw area - nw) - rw') with (rx area + (rw area - nw - rw')) by lia. done.
Qed.

(** C30: the tab bar. In any area the controls, the tabs and a blank before the
    trailing controls tile the bar's row from end to end without overlap, and
    there is a blank only when no tab after the last shown is hidden (tabs before
    the first may be: [Chrome.tab_overflow] has both). The tabs shown are
    consecutive and none is empty; the marks of hidden tabs say exactly
    whether tabs before the first are hidden and whether the last tab is not
    shown in full. When the bar follows the active tab and the area has seventeen
    columns, three for each control and eight for a tab, the active tab is shown
    with eight columns at least. *)
Theorem tab_bar_spec area count active requested follow : fits area -> count <= usize_max ->
  let l := tab_bar_layout area count active requested follow in
  (exists slack, bar_strip area l slack /\ (0 < slack -> tb_after l = false))
  /\ shows l count
  /\ (tb_before l = true <-> 0 < tb_scroll l)
  /\ (tb_after l = false <-> end_in_view l count)
  /\ (follow = true -> active < count -> 17 <= rw area ->
      exists s, s ∈ tb_tabs l /\ tab_item s = active /\ 8 <= rw (tab_rect s)).
Proof.
  intros Hf Hc l. pose proof (tab_bar_cases area count active requested follow Hf Hc) as Hcases.
  fold l in Hcases. cbv zeta in Hcases. pose proof Hf as (Hw&Hh&Hx&Hy).
  destruct Hcases as [(c&Hcount&Hfit&->)|(Hpos&->)].
  - subst count. destruct (shared_bar area c (N.min 3 (rw area)) active Hx ltac:(lia) Hfit) as [[H1 H2 H3 H4] Ha].
    split_and!; try done. intros _ Hact _. by apply Ha.
  - set (nw := N.min 3 (rw area)) in *. set (lw := N.min 3 (rw area - nw)) in *.
    set (rw' := N.min 3 (rw area - nw - lw)) in *.
    set (visible := N.max ((rw area - nw - rw' - lw) / 8) 1).
    pose proof (tab_scroll_max count active requested visible follow) as Hmax.
    destruct (scrolling_bar_ok area lw rw' nw count (tab_scroll count active requested visible follow)) as [H1 H2 H3 H4];
      [lia|unfold visible in *; lia|].
    split_and!; try done. intros -> Hact Hwide.
    pose proof (tab_scroll_follows count active requested visible Hact Hc) as Hs. cbv zeta in Hs.
    set (scroll := tab_scroll _ _ _ _ _) in *. set (v := mkRect (rx area + lw) (ry area) (rw area - nw - rw' - lw) 1).
    assert (Hvw : rw v = rw area - 9) by (simpl; lia).
    assert (Hvis : visible * 8 <= rw v).
    { unfold visible. change (rw area - nw - rw' - lw) with (rw v). pose proof (N.Div0.mul_div_le (rw v) 8).
      assert (1 <= rw v / 8) by (apply N.div_le_lower_bound; lia). lia. }
    destruct Hs as [Hs1 Hs2]; [unfold U16 in *; lia|].
    exists (viewport_slot v scroll (N.to_nat (active - scroll))). split_and!.
    + simpl. apply list_elem_of_In, in_map, in_seq. fold v. unfold viewport_count, div_ceil8, MIN_TAB_WIDTH.
      assert (visible <= (rw v + 7) / 8) by (apply N.div_le_lower_bound; lia). lia.
    + simpl. lia.
    + simpl. change (rw area - nw - rw' - lw) with (rw v). lia.
Qed.

Lemma tab_bar_spec_witness :
  let l := tab_bar_layout (mkRect 20 0 35 1) 5 4 0 true in
  exists s, s ∈ tb_tabs l /\ tab_item s = 4 /\ 8 <= rw (tab_rect s).
Proof.
  destruct (tab_bar_spec (mkRect 20 0 35 1) 5 4 0 true) as (_&_&_&_&H); [by repeat split|by vm_compute|].
  apply H; [done|done|by vm_compute].
Defined.

(** ** Cards *)

Lemma find_seq {A} (f : nat -> A) (P : A -> bool) (c : bool) (k : nat) n : forall i,
  (forall j, (i <= j < i + n)%nat -> P (f j) = (j =? k)%nat && c) ->
  List.find P (map f (seq i n)) = if c && (i <=? k)%nat && (k <? i + n)%nat then Some (f k) else None.
Proof.
  induction n as [|n IH]; intros i Hj; cbn [seq map List.find].
  - destruct (Nat.leb_spec i k), (Nat.ltb_spec k (i + 0)); rewrite ?andb_false_r; (done || lia).
  - rewrite (Hj i) by lia. destruct (Nat.eqb_spec i k) as [->|Hn].
    + destruct c; simpl; [|rewrite IH; [done|intros; apply Hj; lia]].
      by destruct (Nat.leb_spec k k), (Nat.ltb_spec k (k + S n)); try lia.
    + cbn [andb]. rewrite IH by (intros; apply Hj; lia).
      destruct c; cbn [andb]; [|done].
      destruct (Nat.leb_spec i k), (Nat.leb_spec (S i) k), (Nat.ltb_spec k (i + S n)), (Nat.ltb_spec k (S i + n)); (done || lia).
Qed.

Section Cards.
Context (start_row end_row total scroll rows gap : N).
Hypothesis Hrows : 0 < rows.
Hypothesis Hend : start_row <= end_row /\ end_row - start_row + gap <= u16_max /\ end_row <= u16_max /\ rows + gap <= u16_max.

Definition card_cap : N := card_capacity (end_row - start_row) rows gap.
Definition card_first : N := N.min scroll (total - card_cap).

(** As many cards as fit, with a gap between any two. *)
Lemma card_cap_spec :
  (0 < card_cap -> card_cap * rows + (card_cap - 1) * gap <= end_row - start_row)
  /\ end_row - start_row < (card_cap + 1) * rows + card_cap * gap.
Proof.
  unfold card_cap, card_capacity. destruct (N.ltb_spec (end_row - start_row) rows) as [Hh|Hh]; [lia|].
  rewrite !sadd_small by lia.
  pose proof (N.div_mod (end_row - start_row + gap) (rows + gap) ltac:(lia)).
  pose proof (N.mod_lt (end_row - start_row + gap) (rows + gap) ltac:(lia)).
  revert H H0. generalize ((end_row - start_row + gap) / (rows + gap)), ((end_row - start_row + gap) mod (rows + gap)).
  intros q r Hq Hm. split; [|lia]. intros Hpos. replace q with (q - 1 + 1) in Hq |- * by lia.
  rewrite N.add_sub. lia.
Qed.

Lemma card_slots_eq :
  card_slots_with_geometry start_row end_row total scroll rows gap
  = map (fun i => {| card_item := card_first + N.of_nat i;
                     card_rect := mkRect 0 (start_row + N.of_nat i * (rows + gap)) 0 rows |})
      (seq 0 (N.to_nat (N.min card_cap (total - card_first)))).
Proof.
  unfold card_slots_with_geometry, ssub. fold card_cap. fold card_first. apply map_ext_in. intros i Hi%in_seq.
  destruct card_cap_spec as [Hc _]. f_equal. f_equal. rewrite (sadd_small u16_max rows) by lia.
  assert (N.of_nat i * (rows + gap) <= (card_cap - 1) * (rows + gap)) by (apply N.mul_le_mono_r; lia).
  assert ((card_cap - 1) * (rows + gap) + rows <= end_row - start_row) by nia.
  assert (N.of_nat i <= N.of_nat i * (rows + gap)) by nia.
  rewrite N.min_l, N.mod_small by (unfold u16_max, U16 in *; lia). apply sadd_small. lia.
Qed.
End Cards.

(** Cards and clicks agree. The cards shown are consecutive items, as many
    as fit with a gap between any two, and every item can be scrolled to; a
    click finds the card whose rows it is on by division, and nothing on a gap
    row, above the first or below the last card. *)
Theorem cards_exact start_row end_row total scroll rows gap : 0 < rows ->
  start_row <= end_row /\ end_row - start_row + gap <= u16_max /\ end_row <= u16_max /\ rows + gap <= u16_max ->
  let slots := card_slots_with_geometry start_row end_row total scroll rows gap in
  let cap := card_capacity (end_row - start_row) rows gap in
  let first := N.min scroll (total - cap) in
  ((0 < cap -> cap * rows + (cap - 1) * gap <= end_row - start_row)
   /\ end_row - start_row < (cap + 1) * rows + cap * gap)
  /\ length slots = N.to_nat (N.min cap (total - first))
  /\ (forall i s, slots !! i = Some s -> card_item s = first + N.of_nat i /\ card_item s < total
        /\ start_row <= ry (card_rect s) /\ ry (card_rect s) + rows <= end_row)
  /\ (forall item, 0 < cap -> item < total -> scroll = item -> exists s, s ∈ slots /\ card_item s = item)
  /\ (forall row, row <= u16_max -> card_at slots row =
        let k := (row - start_row) / (rows + gap) in
        if (start_row <=? row) && ((row - start_row) mod (rows + gap) <? rows) && (k <? N.of_nat (length slots))
        then Some (first + k) else None).
Proof.
  intros Hr He slots cap first. pose proof (card_cap_spec start_row end_row rows gap Hr He) as Hcap.
  pose proof (card_slots_eq start_row end_row total scroll rows gap Hr He) as Hs. fold slots in Hs.
  unfold card_first, card_cap in *. fold cap in Hcap, Hs. fold first in Hs.
  assert (Hlen : length slots = N.to_nat (N.min cap (total - first))) by (by rewrite Hs, length_map, length_seq).
  assert (Hin : forall i, (i < length slots)%nat -> N.of_nat i * (rows + gap) + rows <= end_row - start_row).
  { intros i Hi. rewrite Hlen in Hi. assert (N.of_nat i * (rows + gap) <= (cap - 1) * (rows + gap)) by (apply N.mul_le_mono_r; lia).
    nia. }
  split_and!; [apply Hcap|apply Hcap|done| | |].
  - intros i s Hi. assert (i < length slots)%nat as Hl by (by eapply lookup_lt_Some).
    pose proof (Hin i Hl). rewrite Hs, list_lookup_fmap in Hi. apply fmap_Some in Hi as (j&(Hj&Hlt)%lookup_seq&->).
    simpl in Hj, Hlt. subst j. simpl. lia.
  - intros item Hc Hi ->. rewrite Hs. eexists. split.
    + apply list_elem_of_In, (in_map _ _ (N.to_nat (item - first))), in_seq. lia.
    + simpl. lia.
  - intros row Hrow. cbv zeta. unfold card_at. rewrite Hlen. rewrite Hs at 1.
    set (k := (row - start_row) / (rows + gap)).
    pose proof (N.div_mod (row - start_row) (rows + gap) ltac:(lia)) as Hd. fold k in Hd.
    pose proof (N.mod_lt (row - start_row) (rows + gap) ltac:(lia)) as Hm.
    set (r := (row - start_row) mod (rows + gap)) in *.
    rewrite (find_seq _ _ ((start_row <=? row) && (r <? rows)) (N.to_nat k)).
    + simpl. rewrite andb_true_r.
      replace (N.to_nat k <? N.to_nat (N.min cap (total - first)))%nat
        with (k <? N.of_nat (N.to_nat (N.min cap (total - first))))
        by (destruct (Nat.ltb_spec (N.to_nat k) (N.to_nat (N.min cap (total - first)))),
              (N.ltb_spec k (N.of_nat (N.to_nat (N.min cap (total - first))))); lia).
      destruct (_ && _); simpl; [|done]. by rewrite N2Nat.id.
    + intros i Hi. simpl in Hi. specialize (Hin i ltac:(rewrite Hlen; lia)). unfold bottom. simpl.
      rewrite wadd_small by (unfold U16, u16_max in *; lia).
      destruct (Nat.eqb_spec i (N.to_nat k)) as [->|Hn]; simpl.
      * rewrite N2Nat.id in *. bool_lia.
      * assert (N.of_nat i <> k) by lia. apply andb_false_iff. rewrite N.leb_gt, N.ltb_ge.
        destruct (N.lt_ge_cases row start_row); [left; lia|].
        destruct (N.lt_ge_cases (N.of_nat i) k) as [Hl|Hg].
        { pose proof (N.mul_le_mono_l (N.of_nat i + 1) k (rows + gap) ltac:(lia)). right. lia. }
        pose proof (N.mul_le_mono_l (k + 1) (N.of_nat i) (rows + gap) ltac:(lia)). left. lia.
Qed.

Lemma cards_exact_witness :
  card_at (card_slots_with_geometry 3 12 8 2 CARD_ROWS CARD_GAP) 5 = None
  /\ card_at (card_slots_with_geometry 3 12 8 2 CARD_ROWS CARD_GAP) 7 = Some 3.
Proof.
  destruct (cards_exact 3 12 8 2 CARD_ROWS CARD_GAP) as (_&_&_&_&H); [done|vm_compute; repeat split; discriminate|].
  split; rewrite H; done.
Defined.

(** ** The scrollbar *)

Section Scrollbar.
Context (area : Rect) (total visible scroll : N).
Hypothesis Hfits : fits area.
Hypothesis Htotal : total < U64.

Definition bar : ScrollbarLayout := scrollbar_new area total visible scroll.
Definition travel : N := rw area - rw (sb_thumb bar).
Definition wanted : N := N.min scroll (total - visible).

Lemma thumb_width_spec : 1 <= rw (sb_thumb bar) <= rw area /\ (total <= visible -> rw (sb_thumb bar) = rw area).
Proof.
  destruct Hfits as (Hw&_). unfold bar, scrollbar_new, ssub. simpl.
  destruct (N.eqb_spec (total - visible) 0); lia.
Qed.

Lemma thumb_at : rx (sb_thumb bar) = rx area + (if total - visible =? 0 then 0 else travel * wanted / (total - visible)).
Proof.
  destruct Hfits as (Hw&_&Hx&_). pose proof thumb_width_spec as [Ht _].
  unfold travel, wanted, bar, scrollbar_new, ssub in *. simpl in *.
  set (tw := if _ =? 0 then rw area else _) in *. clearbody tw. rewrite wsub_small by lia.
  destruct (N.eqb_spec (total - visible) 0) as [E|E]; [apply wadd_small; lia|].
  assert (Hle : (rw area - tw) * N.min scroll (total - visible) / (total - visible) <= rw area - tw).
  { apply N.Div0.div_le_upper_bound. nia. }
  rewrite N.mod_small by lia. apply wadd_small. lia.
Qed.

Lemma scroll_at_eq x grab : scroll_at bar x grab =
  if travel =? 0 then 0 else (N.min (x - grab - rx area) travel * (total - visible) + travel / 2) / travel.
Proof.
  unfold scroll_at, ssub. change (rw (sb_track bar) - rw (sb_thumb bar)) with travel.
  change (rx (sb_track bar)) with (rx area). change (sb_max_scroll bar) with (total - visible).
  destruct (N.eqb_spec travel 0) as [E|E]; [done|]. apply N.mod_small.
  apply N.Div0.div_lt_upper_bound. pose proof (N.Div0.mul_div_le travel 2). unfold U64 in *.
  assert (N.min (x - grab - rx area) travel * (total - visible) <= travel * (total - visible)) by (apply N.mul_le_mono_r; lia).
  assert (travel * (total - visible) + travel <= travel * 18446744073709551616) by nia. lia.
Qed.
End Scrollbar.

Lemma div_round t m s : 0 < t -> 0 < m -> s <= m -> m <= t ->
  let q := t * s / m in let v := (q * m + t / 2) / t in v <= s <= v + 1 /\ (2 * (m - 1) <= t -> v = s).
Proof.
  intros Ht Hm Hs Hmt. pose proof (N.div_mod (t * s) m ltac:(lia)) as Hq. pose proof (N.mod_lt (t * s) m ltac:(lia)) as He.
  pose proof (N.div_mod t 2 ltac:(lia)) as H2. pose proof (N.mod_lt t 2 ltac:(lia)) as H2'.
  cbv zeta. set (q := t * s / m) in *. set (e := (t * s) mod m) in *. set (h := t / 2) in *.
  pose proof (N.div_mod (q * m + h) t ltac:(lia)) as Hv. pose proof (N.mod_lt (q * m + h) t ltac:(lia)) as Hr.
  set (v := (q * m + h) / t) in *. set (r := (q * m + h) mod t) in *.
  assert (Hvs : v * t + r + e = s * t + h) by lia. pose proof (N.Div0.mul_div_le t 2 : 2 * h <= t) as Hh.
  pose proof (N.mul_succ_div_gt t 2 ltac:(lia) : t < 2 * N.succ h) as Hh'.
  clear Hv Hq H2 H2'. clearbody q e h v r.
  assert (v <= s).
  { destruct (N.lt_ge_cases s v) as [Hl|]; [|done]. pose proof (N.mul_le_mono_r (s + 1) v t ltac:(lia)). lia. }
  assert (s <= v + 1).
  { destruct (N.lt_ge_cases (v + 1) s) as [Hl|]; [|done]. pose proof (N.mul_le_mono_r (v + 2) s t ltac:(lia)). lia. }
  split_and!; [done|done|]. intros Hex. destruct (N.eq_dec v s); [done|]. assert (s = v + 1) by lia. subst s. lia.
Qed.

(** The scrollbar and its drag agree. The thumb is not empty and stays on
    its track, at the left end for the first column and at the right end for
    the last; a drag never asks for more than the last column, is monotone, and
    reaches both ends. Where the track has a cell of travel per column,
    dragging the thumb from where it stands asks for the column it shows, or
    one less; for exactly that column when the travel is twice as long. *)
Theorem scrollbar_drag area total visible scroll : fits area -> total < U64 ->
  let b := scrollbar_new area total visible scroll in
  let t := rw area - rw (sb_thumb b) in let m := total - visible in let s := N.min scroll m in
  1 <= rw (sb_thumb b)
  /\ rx area <= rx (sb_thumb b) /\ rx (sb_thumb b) + rw (sb_thumb b) <= rx area + rw area
  /\ (s = 0 -> rx (sb_thumb b) = rx area)
  /\ (s = m -> rx (sb_thumb b) + rw (sb_thumb b) = rx area + rw area)
  /\ (forall x grab, scroll_at b x grab <= m)
  /\ (forall x x' grab, x <= x' -> scroll_at b x grab <= scroll_at b x' grab)
  /\ (forall x grab, x <= rx area + grab -> scroll_at b x grab = 0)
  /\ (forall x grab, 0 < t -> rx area + t + grab <= x -> scroll_at b x grab = m)
  /\ (forall grab, 0 < m -> m <= t ->
        let v := scroll_at b (rx (sb_thumb b) + grab) grab in v <= s <= v + 1 /\ (2 * (m - 1) <= t -> v = s)).
Proof.
  intros Hf Ht b t m s. pose proof Hf as (Hw&_).
  assert (Hth : 1 <= rw (sb_thumb b) <= rw area) by exact (proj1 (thumb_width_spec area total visible scroll Hf Ht)).
  assert (Hall : total <= visible -> rw (sb_thumb b) = rw area) by exact (proj2 (thumb_width_spec area total visible scroll Hf Ht)).
  assert (Hx : rx (sb_thumb b) = rx area + (if m =? 0 then 0 else t * s / m)) by exact (thumb_at area total visible scroll Hf Ht).
  assert (Hsc : forall x grab, scroll_at b x grab =
    if t =? 0 then 0 else (N.min (x - grab - rx area) t * m + t / 2) / t) by exact (scroll_at_eq area total visible scroll Ht).
  assert (Hoff : m <> 0 -> t * s / m <= t) by (intros; apply N.Div0.div_le_upper_bound; nia).
  assert (Hm : m = 0 -> t = 0) by (intros; unfold t, m in *; rewrite Hall; lia).
  assert (Hend : t <> 0 -> (t * m + t / 2) / t = m).
  { intros E. rewrite (N.mul_comm t m), N.div_add_l by done. rewrite (N.div_small (t / 2)); [lia|]. apply N.div_lt; lia. }
  split_and!; try lia; try (destruct (N.eqb_spec m 0); unfold t in *; lia).
  - intros Hs. rewrite Hx, Hs. destruct (N.eqb_spec m 0); [lia|]. rewrite N.mul_0_r, N.Div0.div_0_l. lia.
  - intros Hs. rewrite Hx. destruct (N.eqb_spec m 0) as [E|E]; [specialize (Hm E); unfold t in *; lia|].
    rewrite Hs, N.div_mul by done. unfold t in *. lia.
  - intros x grab. rewrite Hsc. destruct (N.eqb_spec t 0) as [E|E]; [lia|]. rewrite <- (Hend E) at 2.
    apply N.Div0.div_le_mono. nia.
  - intros x x' grab Hxx. rewrite !Hsc. destruct (N.eqb_spec t 0) as [E|E]; [lia|].
    apply N.Div0.div_le_mono. apply N.add_le_mono_r, N.mul_le_mono_r. lia.
  - intros x grab Hle. rewrite Hsc. destruct (N.eqb_spec t 0) as [E|E]; [done|].
    replace (N.min _ _) with 0 by lia. apply N.div_small. rewrite N.mul_0_l.
    apply N.div_lt; lia.
  - intros x grab Hpos Hle. rewrite Hsc. destruct (N.eqb_spec t 0) as [E|E]; [lia|].
    replace (N.min _ _) with t by lia. by apply Hend.
  - intros grab Hpos Hle. cbv zeta. rewrite Hsc, Hx. destruct (N.eqb_spec m 0); [lia|]. destruct (N.eqb_spec t 0); [lia|].
    assert (N.min (rx area + t * s / m + grab - grab - rx area) t = t * s / m) as ->.
    { specialize (Hoff ltac:(done)). generalize dependent (t * s / m). intros. lia. }
    apply div_round; lia.
Qed.

Lemma scrollbar_drag_witness :
  let b := scrollbar_new (mkRect 24 23 60 1) 12 2 9 in
  scroll_at b (rx (sb_thumb b) + 4) 4 = 9 /\ rx (sb_thumb b) = 69.
Proof.
  destruct (scrollbar_drag (mkRect 24 23 60 1) 12 2 9) as (_&_&_&_&_&_&_&_&_&H); [by repeat split|done|].
  split; [|reflexivity]. apply H; [done|vm_compute; discriminate|vm_compute; discriminate].
Defined.

(** With a cell of travel per column only, grabbing the thumb may move it. *)
Example thumb_moves_when_grabbed :
  let b := scrollbar_new (mkRect 0 0 11 1) 11 1 9 in
  rw (sb_area b) - rw (sb_thumb b) = sb_max_scroll b /\ scroll_at b (rx (sb_thumb b)) 0 = 9
  /\ let b := scrollbar_new (mkRect 0 0 12 1) 11 1 9 in scroll_at b (rx (sb_thumb b)) 0 = 8.
Proof. vm_compute. repeat split. Qed.
