(* ===== verification/RunGraph.v ===== *)
(** * The run ownership graph

    [uniterm-core/src/run_graph.rs]: the projection of durable run events with
    its scalar indexes. [RunGraph] is the state, [apply] the event handler with
    [activate], [finish] and [prune_to] as the code composes them. A [BTreeMap]
    is a [gmap] iterated in key order; [expect]s on looked-up entries are the
    updates they guard. *)

From S2P Require Import Prelude.

Definition RUN_GRAPH_HISTORY_CAP : N := 4096.

Abbreviation RunId := N (only parsing).
Abbreviation RoleId := N (only parsing).
Abbreviation PaneId := N (only parsing).
Abbreviation ProjectId := N (only parsing).

Inductive RunKind : Set := Workflow | Relay.

Definition RunKind_label (k : RunKind) : str :=
  match k with Workflow => lit "workflow" | Relay => lit "relay" end.

Inductive RunStatus : Set :=
| Created | Active | Completed | Failed | Canceled.

#[global] Instance RunStatus_eq_dec : EqDecision RunStatus.
Proof. solve_decision. Defined.

Definition RunStatus_label (s : RunStatus) : str :=
  match s with
  | Created => lit "created" | Active => lit "active" | Completed => lit "completed"
  | Failed => lit "failed" | Canceled => lit "canceled"
  end.

Definition terminal (s : RunStatus) : bool :=
  match s with Completed | Failed | Canceled => true | _ => false end.

Record RunActivation : Set := {
  act_id : N; act_pane : PaneId; act_provider : str; active : bool }.

Record RunRecord : Set := {
  run_id : RunId; run_parent : option RunId; run_project : ProjectId;
  run_kind : RunKind; run_task_id : N; run_title : str;
  run_status : RunStatus; run_outcome : option str; run_roles : list RoleId }.

Record RoleRecord : Set := {
  role_id : RoleId; role_run : RunId; role_name : str; role_pane : PaneId;
  role_provider : str; role_activation : option RunActivation }.

Inductive RunGraphEvent : Set :=
| EvCreated (run : RunId) (parent : option RunId) (project : ProjectId)
    (kind : RunKind) (task_id : N) (title : str)
| EvRoleDeclared (run : RunId) (role : RoleId) (name : str) (pane : PaneId) (provider : str)
| EvActivated (run : RunId) (role : RoleId) (activation : N)
| EvHandoff (run : RunId) (from to : RoleId) (activation : N)
| EvCompleted (run : RunId) (outcome : str)
| EvFailed (run : RunId) (outcome : str)
| EvCanceled (run : RunId) (outcome : str).

Record RunGraph : Set := {
  runs : gmap RunId RunRecord;
  roles : gmap RoleId RoleRecord;
  children_map : gmap RunId (list RunId);
  run_panes : gmap RunId (list PaneId);
  pane_active : gmap PaneId (RunId * RoleId);
  project_runs : gmap ProjectId (list RunId);
  task_runs : gmap N RunId;
  next_run : N; next_role : N; next_activation : N }.

Definition new : RunGraph := {|
  runs := ∅; roles := ∅; children_map := ∅; run_panes := ∅; pane_active := ∅;
  project_runs := ∅; task_runs := ∅;
  next_run := 1; next_role := 1; next_activation := 1 |}.

(** ** Accessors *)

Definition next_run_id (g : RunGraph) : RunId := N.max (next_run g) 1.
Definition next_role_id (g : RunGraph) : RoleId := N.max (next_role g) 1.
Definition next_activation_id (g : RunGraph) : N := N.max (next_activation g) 1.

Definition runs_iter (g : RunGraph) : list RunRecord := values (runs g).
Definition run (g : RunGraph) (id : RunId) : option RunRecord := runs g !! id.
Definition role (g : RunGraph) (id : RoleId) : option RoleRecord := roles g !! id.
Definition run_for_task (g : RunGraph) (task_id : N) : option RunId := task_runs g !! task_id.

Definition role_at (g : RunGraph) (r : RunId) (index : nat) : option RoleId :=
  rec ← runs g !! r; run_roles rec !! index.

Definition parent (g : RunGraph) (r : RunId) : option RunId :=
  rec ← runs g !! r; run_parent rec.

Definition children (g : RunGraph) (r : RunId) : list RunId := posting (children_map g) r.
Definition panes (g : RunGraph) (r : RunId) : list PaneId := posting (run_panes g) r.

Definition active_for_pane (g : RunGraph) (p : PaneId) : option (RunId * RoleId) :=
  pane_active g !! p.

(** The closure of [active_role]: the latest activation of the role is live. *)
Definition role_live (ro : RoleRecord) : bool :=
  match role_activation ro with Some a => active a | None => false end.

Definition is_active (rs : gmap RoleId RoleRecord) (r : RoleId) : bool :=
  match rs !! r with Some ro => role_live ro | None => false end.

Definition active_role (g : RunGraph) (r : RunId) : option RoleId :=
  rec ← runs g !! r;
  snd <$> list_find (fun ro => is_active (roles g) ro = true) (run_roles rec).

Definition activation_for_role (g : RunGraph) (r : RoleId) : option RunActivation :=
  rec ← roles g !! r; role_activation rec.

Definition runs_for_project (g : RunGraph) (p : ProjectId) : list RunId :=
  posting (project_runs g) p.

(** ** Events *)

Definition RunGraphError : Set := str.
Abbreviation outcome := (RunGraph * result unit RunGraphError)%type (only parsing).

(** A role appended to its run, a status written on a run. *)
Definition push_role (r : RoleId) (rec : RunRecord) : RunRecord :=
  {| run_id := run_id rec; run_parent := run_parent rec; run_project := run_project rec;
     run_kind := run_kind rec; run_task_id := run_task_id rec; run_title := run_title rec;
     run_status := run_status rec; run_outcome := run_outcome rec;
     run_roles := run_roles rec ++ [r] |}.

Definition set_status (s : RunStatus) (o : option str) (rec : RunRecord) : RunRecord :=
  {| run_id := run_id rec; run_parent := run_parent rec; run_project := run_project rec;
     run_kind := run_kind rec; run_task_id := run_task_id rec; run_title := run_title rec;
     run_status := s; run_outcome := o; run_roles := run_roles rec |}.

Definition set_activation (a : option RunActivation) (ro : RoleRecord) : RoleRecord :=
  {| role_id := role_id ro; role_run := role_run ro; role_name := role_name ro;
     role_pane := role_pane ro; role_provider := role_provider ro; role_activation := a |}.

Definition quiet (a : RunActivation) : RunActivation :=
  {| act_id := act_id a; act_pane := act_pane a; act_provider := act_provider a;
     active := false |}.

(** [previous_activation.active = false; self.pane_active.remove(...)] for the
    role found by [active_role]. *)
Definition deactivate (g : RunGraph) (previous : RoleId) : RunGraph :=
  match roles g !! previous with
  | Some ro =>
      match role_activation ro with
      | Some a =>
          {| runs := runs g;
             roles := <[previous := set_activation (Some (quiet a)) ro]> (roles g);
             children_map := children_map g; run_panes := run_panes g;
             pane_active := delete (act_pane a) (pane_active g);
             project_runs := project_runs g; task_runs := task_runs g;
             next_run := next_run g; next_role := next_role g;
             next_activation := next_activation g |}
      | None => g
      end
  | None => g
  end.

(** The end of [activate]: the target's new activation, the pane index, the
    run's status and the allocator. *)
Definition install (g : RunGraph) (r : RunId) (ro : RoleId) (activation : N) : RunGraph :=
  match roles g !! ro with
  | Some target =>
      {| runs := alter (fun rec => set_status Active (run_outcome rec) rec) r (runs g);
         roles := <[ro := set_activation (Some {|
             act_id := activation; act_pane := role_pane target;
             act_provider := role_provider target; active := true |}) target]> (roles g);
         children_map := children_map g; run_panes := run_panes g;
         pane_active := <[role_pane target := (r, ro)]> (pane_active g);
         project_runs := project_runs g; task_runs := task_runs g;
         next_run := next_run g; next_role := next_role g;
         next_activation := N.max (next_activation g) (sadd u64_max activation 1) |}
  | None => g
  end.

(** The active role of a run, if any, is deactivated. *)
Definition quieted (g : RunGraph) (r : RunId) : RunGraph :=
  match active_role g r with Some previous => deactivate g previous | None => g end.

Definition is_other (owner : option (RunId * RoleId)) (r : RunId) : bool :=
  match owner with Some (o, _) => negb (o =? r) | None => false end.

Definition activate (g : RunGraph) (r : RunId) (ro : RoleId) (activation : N)
    (expected_from : option RoleId) : outcome :=
  if activation =? 0 then (g, Err (lit "activation id must be nonzero"))
  else if negb (activation =? next_activation_id g) then
    (g, Err (lit "activation id is not monotonic"))
  else match runs g !! r with
  | None => (g, Err (lit "activation run does not exist"))
  | Some node =>
  if terminal (run_status node) then (g, Err (lit "terminal run cannot activate a role"))
  else match roles g !! ro with
  | None => (g, Err (lit "activation role does not belong to run"))
  | Some target =>
  if negb (role_run target =? r) then (g, Err (lit "activation role does not belong to run"))
  else if bool_decide (expected_from = Some ro) then
    (g, Err (lit "handoff source and target are identical"))
  else if is_other (pane_active g !! role_pane target) r then
    (g, Err (lit "activation Pane is active in another run"))
  else
    let act := active_role g r in
    if match expected_from with
       | Some from => bool_decide (act <> Some from)
       | None => false
       end then (g, Err (lit "handoff source is not the active role"))
    else (install (quieted g r) r ro activation, Ok tt)
  end end.

(** ** Pruning *)

Definition prune_candidate (g : RunGraph) : option (RunId * RunRecord) :=
  find_entry (fun e =>
    terminal (run_status e.2) && bool_decide (children g e.1 = [])) (runs g).

Definition remove_run (g : RunGraph) (id : RunId) (rec : RunRecord) : RunGraph :=
  {| runs := delete id (runs g);
     roles := foldl (fun m ro => delete ro m) (roles g) (run_roles rec);
     children_map :=
       let cs := delete id (children_map g) in
       match run_parent rec with Some p => entry_drop cs p id | None => cs end;
     run_panes := delete id (run_panes g);
     pane_active := pane_active g;
     project_runs := entry_drop (project_runs g) (run_project rec) id;
     task_runs := delete (run_task_id rec) (task_runs g);
     next_run := next_run g; next_role := next_role g;
     next_activation := next_activation g |}.

(** The loop of [prune_to], one removal per round; [prune_to] starts it with as
    many rounds as there are runs. *)
Fixpoint prune_loop (fuel : nat) (cap : N) (g : RunGraph) : RunGraph :=
  if cap <? N.of_nat (size (runs g)) then
    match prune_candidate g with
    | None => g
    | Some (id, rec) =>
        match fuel with
        | O => g
        | S fuel' => prune_loop fuel' cap (remove_run g id rec)
        end
    end
  else g.

Definition prune_to (g : RunGraph) (cap : N) : RunGraph :=
  prune_loop (size (runs g)) cap g.

Definition write_outcome (g : RunGraph) (r : RunId) (s : RunStatus) (o : str) : RunGraph :=
  {| runs := alter (set_status s (Some o)) r (runs g); roles := roles g;
     children_map := children_map g; run_panes := run_panes g;
     pane_active := pane_active g; project_runs := project_runs g;
     task_runs := task_runs g; next_run := next_run g; next_role := next_role g;
     next_activation := next_activation g |}.

Definition finish (g : RunGraph) (r : RunId) (s : RunStatus) (o : str) : outcome :=
  match runs g !! r with
  | None => (g, Err (lit "terminal event run does not exist"))
  | Some node =>
  if terminal (run_status node) then (g, Err (lit "run already has a terminal outcome"))
  else (prune_to (write_outcome (quieted g r) r s o) RUN_GRAPH_HISTORY_CAP, Ok tt)
  end.

(** ** The handler *)

Definition create (g : RunGraph) (r : RunId) (par : option RunId) (project : ProjectId)
    (kind : RunKind) (task_id : N) (title : str) : RunGraph :=
  {| runs := <[r := {| run_id := r; run_parent := par; run_project := project;
         run_kind := kind; run_task_id := task_id; run_title := title;
         run_status := Created; run_outcome := None; run_roles := [] |}]> (runs g);
     roles := roles g;
     children_map := match par with
       | Some p => entry_push (children_map g) p r
       | None => children_map g
       end;
     run_panes := run_panes g; pane_active := pane_active g;
     project_runs := entry_push (project_runs g) project r;
     task_runs := <[task_id := r]> (task_runs g);
     next_run := N.max (next_run g) (sadd u64_max r 1);
     next_role := next_role g; next_activation := next_activation g |}.

Definition declare (g : RunGraph) (r : RunId) (ro : RoleId) (name : str)
    (pane : PaneId) (provider : str) : RunGraph :=
  {| runs := alter (push_role ro) r (runs g);
     roles := <[ro := {| role_id := ro; role_run := r; role_name := name;
         role_pane := pane; role_provider := provider; role_activation := None |}]> (roles g);
     children_map := children_map g;
     run_panes :=
       if bool_decide (pane ∈ panes g r) then <[r := panes g r]> (run_panes g)
       else entry_push (run_panes g) r pane;
     pane_active := pane_active g; project_runs := project_runs g;
     task_runs := task_runs g; next_run := next_run g;
     next_role := N.max (next_role g) (sadd u64_max ro 1);
     next_activation := next_activation g |}.

Definition apply (g : RunGraph) (e : RunGraphEvent) : outcome :=
  match e with
  | EvCreated r par project kind task_id title =>
      if negb (r =? next_run_id g) || bool_decide (is_Some (runs g !! r)) then
        (g, Err (lit "invalid or duplicate Run " ++ dec r))
      else if match par with Some p => bool_decide (runs g !! p = None) | None => false end then
        (g, Err (lit "run parent does not exist"))
      else if bool_decide (is_Some (task_runs g !! task_id)) then
        (g, Err (lit "Task " ++ dec task_id ++ lit " already owns a run"))
      else (create g r par project kind task_id title, Ok tt)
  | EvRoleDeclared r ro name pane provider =>
      match runs g !! r with
      | None => (g, Err (lit "role run does not exist"))
      | Some node =>
          if terminal (run_status node) || negb (ro =? next_role_id g)
             || bool_decide (is_Some (roles g !! ro)) then
            (g, Err (lit "invalid or duplicate run role"))
          else (declare g r ro name pane provider, Ok tt)
      end
  | EvActivated r ro activation => activate g r ro activation None
  | EvHandoff r from to activation => activate g r to activation (Some from)
  | EvCompleted r o => finish g r Completed o
  | EvFailed r o => finish g r Failed o
  | EvCanceled r o => finish g r Canceled o
  end.

(** Rebuilding the projection from the log; a rejected event leaves it as it was. *)
Definition replay (es : list RunGraphEvent) : RunGraph :=
  foldl (fun g e => (apply g e).1) new es.

(** ** The invariant

    [static]: identities, ownership and the relationship indexes. [liveness]:
    activations and the pane index. [statuses]: what a run's status says of its
    roles. *)

Definition child_of (g : RunGraph) (p r : RunId) : Prop :=
  exists rec, runs g !! r = Some rec /\ run_parent rec = Some p.

Definition in_project (g : RunGraph) (p : ProjectId) (r : RunId) : Prop :=
  exists rec, runs g !! r = Some rec /\ run_project rec = p.

Definition owned (g : RunGraph) (r : RunId) (ro : RoleId) : Prop :=
  exists rr, roles g !! ro = Some rr /\ role_run rr = r.

Definition live (g : RunGraph) (p : PaneId) (r : RunId) (ro : RoleId) : Prop :=
  exists rr, roles g !! ro = Some rr /\ role_run rr = r /\ role_pane rr = p
    /\ role_live rr = true.

(** An allocator value [n] is past every identity given out, unless it has
    reached the end of [u64]. *)
Definition allocated (n id : N) : Prop := 1 <= id <= n /\ (id = n -> n = u64_max).

Record static (g : RunGraph) : Prop := {
  st_next : (1 <= next_run g <= u64_max) /\ (1 <= next_role g <= u64_max)
    /\ (1 <= next_activation g <= u64_max);
  st_run r rec : runs g !! r = Some rec -> run_id rec = r /\ allocated (next_run g) r;
  st_parent p r : child_of g p r -> p < r /\ is_Some (runs g !! p);
  st_children : indexes (child_of g) (children_map g);
  st_projects : indexes (in_project g) (project_runs g);
  st_tasks t r : task_runs g !! t = Some r <->
    exists rec, runs g !! r = Some rec /\ run_task_id rec = t;
  st_role ro rr : roles g !! ro = Some rr ->
    role_id rr = ro /\ allocated (next_role g) ro /\ is_Some (runs g !! role_run rr);
  st_roles_of r rec : runs g !! r = Some rec -> index_of (owned g r) (run_roles rec);
  st_panes r : NoDup (panes g r) /\ run_panes g !! r <> Some [] /\
    forall p, p ∈ panes g r <->
      exists ro rr, roles g !! ro = Some rr /\ role_run rr = r /\ role_pane rr = p }.

Record liveness (g : RunGraph) : Prop := {
  lv_act ro rr a : roles g !! ro = Some rr -> role_activation rr = Some a ->
    act_pane a = role_pane rr /\ act_provider a = role_provider rr
    /\ allocated (next_activation g) (act_id a);
  lv_panes p r ro : pane_active g !! p = Some (r, ro) <-> live g p r ro;
  lv_one p p' r ro ro' : live g p r ro -> live g p' r ro' -> ro = ro' }.

Definition status_ok (g : RunGraph) (r : RunId) (rec : RunRecord) : Prop :=
  match run_status rec with
  | Created => forall ro rr, roles g !! ro = Some rr -> role_run rr = r ->
      role_activation rr = None
  | Active => exists p ro, live g p r ro
  | _ => forall p ro, ~ live g p r ro
  end /\ (is_Some (run_outcome rec) <-> terminal (run_status rec) = true).

Definition statuses (g : RunGraph) : Prop :=
  forall r rec, runs g !! r = Some rec -> status_ok g r rec.

Definition wf (g : RunGraph) : Prop := static g /\ liveness g /\ statuses g.

(** *** Static facts do not depend on activations and statuses *)

Lemma roles_of_erased (m m' : gmap N RoleRecord) ro rr :
  set_activation None <$> m = set_activation None <$> m' -> m !! ro = Some rr ->
  exists rr', m' !! ro = Some rr' /\ set_activation None rr = set_activation None rr'.
Proof.
  intros H Hro. apply (f_equal (.!! ro)) in H. rewrite !lookup_fmap, Hro in H.
  destruct (m' !! ro) as [rr'|]; [|done]. simpl in H. exists rr'. split; congruence.
Qed.

Lemma runs_of_erased (m m' : gmap N RunRecord) r rec :
  set_status Created None <$> m = set_status Created None <$> m' -> m !! r = Some rec ->
  exists rec', m' !! r = Some rec' /\ set_status Created None rec = set_status Created None rec'.
Proof.
  intros H Hr. apply (f_equal (.!! r)) in H. rewrite !lookup_fmap, Hr in H.
  destruct (m' !! r) as [rec'|]; [|done]. simpl in H. exists rec'. split; congruence.
Qed.

(** From an equality of erased records, the equality of the fields kept. *)
Ltac erased :=
  match goal with
  | H : set_activation None ?a = set_activation None ?b |- _ =>
      unfold set_activation in H; injection H as; subst
  | H : set_status Created None ?a = set_status Created None ?b |- _ =>
      unfold set_status in H; injection H as; subst
  end.

Record same_shape (g g' : RunGraph) : Prop := {
  sh_runs : set_status Created None <$> runs g = set_status Created None <$> runs g';
  sh_roles : set_activation None <$> roles g = set_activation None <$> roles g';
  sh_children : children_map g = children_map g';
  sh_panes : run_panes g = run_panes g';
  sh_projects : project_runs g = project_runs g';
  sh_tasks : task_runs g = task_runs g';
  sh_next : next_run g = next_run g' /\ next_role g = next_role g'
    /\ 1 <= next_activation g' <= u64_max }.

Lemma static_shape g g' : same_shape g g' -> static g -> static g'.
Proof.
  intros [Hr Hro Hc Hp Hj Ht (Hn1 & Hn2 & Hn3)] [].
  assert (forall p r, child_of g p r <-> child_of g' p r) as Hchild.
  { intros p r. split; intros (rec & Hrec & Hq).
    - destruct (runs_of_erased _ _ _ _ Hr Hrec) as (rec' & ? & E).
      exists rec'. split; [done|]. erased. congruence.
    - destruct (runs_of_erased _ _ _ _ (eq_sym Hr) Hrec) as (rec' & ? & E).
      exists rec'. split; [done|]. erased. congruence. }
  assert (forall p r, in_project g p r <-> in_project g' p r) as Hproj.
  { intros p r. split; intros (rec & Hrec & Hq).
    - destruct (runs_of_erased _ _ _ _ Hr Hrec) as (rec' & ? & E).
      exists rec'. split; [done|]. erased. congruence.
    - destruct (runs_of_erased _ _ _ _ (eq_sym Hr) Hrec) as (rec' & ? & E).
      exists rec'. split; [done|]. erased. congruence. }
  assert (forall r, is_Some (runs g !! r) -> is_Some (runs g' !! r)) as Hdom.
  { intros r [rec Hrec]. destruct (runs_of_erased _ _ _ _ Hr Hrec) as (rec' & ? & _). eauto. }
  assert (forall r ro, owned g r ro <-> owned g' r ro) as Hown.
  { intros r ro. split; intros (rr & Hrr & Hq).
    - destruct (roles_of_erased _ _ _ _ Hro Hrr) as (rr' & ? & E).
      exists rr'. split; [done|]. erased. congruence.
    - destruct (roles_of_erased _ _ _ _ (eq_sym Hro) Hrr) as (rr' & ? & E).
      exists rr'. split; [done|]. erased. congruence. }
  constructor.
  - rewrite <- Hn1, <- Hn2. tauto.
  - intros r rec' Hrec'. destruct (runs_of_erased _ _ _ _ (eq_sym Hr) Hrec') as (rec & Hrec & E).
    destruct (st_run0 _ _ Hrec). rewrite <- Hn1. erased. split; [congruence|done].
  - intros p r Hch. apply Hchild, st_parent0 in Hch as [??]. auto.
  - rewrite <- Hc. by eapply indexes_proper.
  - rewrite <- Hj. by eapply indexes_proper.
  - intros t r. rewrite <- Ht, st_tasks0. split; intros (rec & Hrec & Hq).
    + destruct (runs_of_erased _ _ _ _ Hr Hrec) as (rec' & ? & E).
      exists rec'. split; [done|]. erased. congruence.
    + destruct (runs_of_erased _ _ _ _ (eq_sym Hr) Hrec) as (rec' & ? & E).
      exists rec'. split; [done|]. erased. congruence.
  - intros ro rr' Hrr'. destruct (roles_of_erased _ _ _ _ (eq_sym Hro) Hrr') as (rr & Hrr & E).
    destruct (st_role0 _ _ Hrr) as (? & ? & ?). rewrite <- Hn2. erased.
    split_and!; [congruence|done|]. apply Hdom. congruence.
  - intros r rec' Hrec'. destruct (runs_of_erased _ _ _ _ (eq_sym Hr) Hrec') as (rec & Hrec & E).
    apply st_roles_of0 in Hrec. erased.
    assert (run_roles rec' = run_roles rec) as -> by congruence.
    eapply index_of_proper; [|reflexivity|exact Hrec]. intros ro. symmetry. apply Hown.
  - intros r. unfold panes. rewrite <- Hp. destruct (st_panes0 r) as (? & ? & Hpanes).
    split_and!; [done..|]. intros p. rewrite Hpanes. split; intros (ro & rr & Hrr & Hq1 & Hq2).
    + destruct (roles_of_erased _ _ _ _ Hro Hrr) as (rr' & ? & E).
      exists ro, rr'. erased. split_and!; congruence.
    + destruct (roles_of_erased _ _ _ _ (eq_sym Hro) Hrr) as (rr' & ? & E).
      exists ro, rr'. erased. split_and!; congruence.
Qed.

(** *** Lookups of the live role *)

Lemma live_fun g p p' r r' ro : live g p r ro -> live g p' r' ro -> p = p' /\ r = r'.
Proof. intros (rr & ? & ? & ? & _) (rr' & ? & ? & ? & _). simplify_eq. auto. Qed.

Lemma is_active_live g ro :
  is_active (roles g) ro = true <-> exists p r, live g p r ro.
Proof.
  unfold is_active, live. split.
  - destruct (roles g !! ro) as [rr|] eqn:E; [|done]. intros H. by exists (role_pane rr), (role_run rr), rr.
  - intros (p & r & rr & -> & _ & _ & H). done.
Qed.

Lemma active_role_live g r ro :
  static g -> active_role g r = Some ro -> exists p, live g p r ro.
Proof.
  intros Hs. unfold active_role. destruct (runs g !! r) as [rec|] eqn:Hr; [|done]. simpl.
  destruct (list_find _ _) as [[i x]|] eqn:E; [|done]. intros [= ->].
  apply list_find_Some in E as (Hi & Ha & _). apply is_active_live in Ha as (p & r' & Hl).
  apply list_elem_of_lookup_2 in Hi. apply (st_roles_of _ Hs _ _ Hr) in Hi.
  destruct Hi as (rr & Hrr & Hrun). exists p.
  destruct Hl as (rr' & ? & ? & ? & ?). exists rr'. by simplify_eq.
Qed.

Lemma live_active_role g p r ro :
  static g -> liveness g -> live g p r ro -> active_role g r = Some ro.
Proof.
  intros Hs Hv Hl. pose proof Hl as (rr & Hrr & Hrun & _).
  destruct (st_role _ Hs _ _ Hrr) as (_ & _ & rec & Hrec). rewrite Hrun in Hrec.
  unfold active_role. rewrite Hrec. simpl.
  assert (ro ∈ run_roles rec) as Hin.
  { apply (st_roles_of _ Hs _ _ Hrec). by exists rr. }
  assert (is_active (roles g) ro = true) as Ha by (apply is_active_live; eauto).
  destruct (list_find _ _) as [[i x]|] eqn:E.
  - simpl. f_equal.
    assert (active_role g r = Some x) as Hx by (unfold active_role; rewrite Hrec; simpl; by rewrite E).
    apply active_role_live in Hx as [p' Hx]; [|done]. by eapply lv_one.
  - apply list_find_None in E. rewrite Forall_forall in E. by apply E in Hin.
Qed.

Lemma active_role_none g r :
  static g -> liveness g -> active_role g r = None -> forall p ro, ~ live g p r ro.
Proof. intros Hs Hv H p ro Hl. apply live_active_role in Hl; [congruence|done..]. Qed.

(** *** Deactivation *)

Lemma deactivate_spec g p r ro :
  static g -> liveness g -> live g p r ro ->
  let g' := deactivate g ro in
  static g' /\ liveness g' /\ runs g' = runs g /\ next_activation g' = next_activation g
  /\ set_activation None <$> roles g = set_activation None <$> roles g'
  /\ (forall p' r' ro', live g' p' r' ro' <-> live g p' r' ro' /\ ro' <> ro)
  /\ (forall ro', ro' <> ro -> roles g' !! ro' = roles g !! ro').
Proof.
  intros Hs Hv Hl. pose proof Hl as (rr & Hrr & Hrun & Hpane & Hlive).
  unfold role_live in Hlive. destruct (role_activation rr) as [a|] eqn:Ha; [|done].
  unfold deactivate. rewrite Hrr, Ha. cbn zeta.
  set (g' := {| runs := runs g; roles := _; children_map := _; run_panes := _;
    pane_active := _; project_runs := _; task_runs := _; next_run := _; next_role := _;
    next_activation := _ |}).
  assert (set_activation None <$> roles g = set_activation None <$> roles g') as Hshape.
  { apply map_eq. intros k. simpl. rewrite !lookup_fmap. destruct (decide (k = ro)) as [->|].
    - by rewrite lookup_insert_eq, Hrr.
    - by rewrite lookup_insert_ne. }
  assert (forall ro', ro' <> ro -> roles g' !! ro' = roles g !! ro') as Hne.
  { intros ro' ?. simpl. by rewrite lookup_insert_ne. }
  assert (roles g' !! ro = Some (set_activation (Some (quiet a)) rr)) as Heq.
  { simpl. by rewrite lookup_insert_eq. }
  assert (forall p' r' ro', live g' p' r' ro' <-> live g p' r' ro' /\ ro' <> ro) as Hiff.
  { intros p' r' ro'. unfold live. destruct (decide (ro' = ro)) as [->|Hd].
    - rewrite Heq. split; [|tauto]. intros (? & [= <-] & _ & _ & Hf). done.
    - rewrite (Hne _ Hd). tauto. }
  destruct (lv_act _ Hv _ _ _ Hrr Ha) as (Hap & Haprov & Haid).
  split_and!; try done.
  - apply static_shape with g; [|done]. constructor; simpl; try done.
    destruct (st_next _ Hs) as (_ & _ & ?). done.
  - constructor.
    + intros k rk ak Hk Hak. destruct (decide (k = ro)) as [->|Hd].
      * rewrite Heq in Hk. simplify_eq. simpl in Hak. simplify_eq. simpl. auto.
      * rewrite (Hne _ Hd) in Hk. by apply (lv_act _ Hv k).
    + intros p' r' ro'. rewrite Hiff, <- (lv_panes _ Hv). simpl. rewrite Hap, Hpane.
      destruct (decide (p' = p)) as [->|Hd].
      * rewrite lookup_delete_eq. split; [done|]. intros [Hp Hd'].
        apply (lv_panes _ Hv) in Hl. rewrite Hl in Hp. congruence.
      * rewrite lookup_delete_ne by done. split; [|tauto]. intros Hp. split; [done|].
        intros ->. apply (lv_panes _ Hv) in Hp. destruct (live_fun _ _ _ _ _ _ Hl Hp). congruence.
    + intros p1 p2 r' ro1 ro2 [H1 _]%Hiff [H2 _]%Hiff. by eapply lv_one.
Qed.

(** *** A new activation *)

Lemma allocated_mono n n' id :
  allocated n id -> n <= n' <= u64_max -> allocated n' id.
Proof. unfold allocated. intros [? Hn] ?. split; [lia|]. intros ->. assert (n = n') by lia. subst. tauto. Qed.

Lemma allocated_next n :
  1 <= n <= u64_max -> allocated (N.max n (sadd u64_max n 1)) n
    /\ n <= N.max n (sadd u64_max n 1) <= u64_max.
Proof. unfold allocated, sadd, u64_max. lia. Qed.

Lemma install_spec g r ro target :
  static g -> liveness g -> is_Some (runs g !! r) -> roles g !! ro = Some target ->
  role_run target = r -> (forall p ro', ~ live g p r ro') ->
  (forall r' ro', ~ live g (role_pane target) r' ro') ->
  let g' := install g r ro (next_activation g) in
  static g' /\ liveness g'
  /\ runs g' = alter (fun rec => set_status Active (run_outcome rec) rec) r (runs g)
  /\ (forall p' r' ro', live g' p' r' ro' <->
        live g p' r' ro' \/ (p', r', ro') = (role_pane target, r, ro))
  /\ (forall ro' rr, role_run rr <> r -> roles g' !! ro' = Some rr <-> roles g !! ro' = Some rr).
Proof.
  intros Hs Hv [rec Hrec] Htar Hrun Hnone Hfree. unfold install. rewrite Htar. cbn zeta.
  set (act := {| act_id := next_activation g; act_pane := role_pane target;
    act_provider := role_provider target; active := true |}).
  set (g' := {| runs := _; roles := _; children_map := _; run_panes := _;
    pane_active := _; project_runs := _; task_runs := _; next_run := _; next_role := _;
    next_activation := _ |}).
  assert (forall ro', ro' <> ro -> roles g' !! ro' = roles g !! ro') as Hne.
  { intros ro' ?. simpl. by rewrite lookup_insert_ne. }
  assert (roles g' !! ro = Some (set_activation (Some act) target)) as Heq.
  { simpl. by rewrite lookup_insert_eq. }
  assert (forall p' r' ro', live g' p' r' ro' <->
        live g p' r' ro' \/ (p', r', ro') = (role_pane target, r, ro)) as Hiff.
  { intros p' r' ro'. destruct (decide (ro' = ro)) as [->|Hd].
    - split.
      + intros (rr & Hrr & ? & ? & _). rewrite Heq in Hrr. simplify_eq. simpl. auto.
      + intros [Hl|[= -> ->]].
        * exfalso. pose proof Hl as (rr & ? & ? & _). simplify_eq. by eapply Hnone.
        * exists (set_activation (Some act) target). by rewrite Heq.
    - unfold live. rewrite (Hne _ Hd). split; [tauto|]. intros [?|?]; [done|congruence]. }
  destruct (st_next _ Hs) as (? & ? & Hnext). destruct (allocated_next _ Hnext) as [Hal Hle].
  split_and!; try done.
  - apply static_shape with g; [|done]. constructor; simpl; try done.
    + apply map_eq. intros k. rewrite !lookup_fmap. destruct (decide (k = r)) as [->|].
      * rewrite lookup_alter_eq, Hrec. done.
      * by rewrite lookup_alter_ne.
    + apply map_eq. intros k. rewrite !lookup_fmap. destruct (decide (k = ro)) as [->|].
      * by rewrite lookup_insert_eq, Htar.
      * by rewrite lookup_insert_ne.
    + split_and!; try done; unfold sadd in *; lia.
  - constructor.
    + intros k rk ak Hk Hak. simpl. destruct (decide (k = ro)) as [->|Hd].
      * rewrite Heq in Hk. simplify_eq. simpl in Hak. simplify_eq. done.
      * rewrite (Hne _ Hd) in Hk. destruct (lv_act _ Hv k _ _ Hk Hak) as (? & ? & ?).
        split_and!; [done..|]. by eapply allocated_mono.
    + intros p' r' ro'. rewrite Hiff, <- (lv_panes _ Hv). simpl.
      destruct (decide (p' = role_pane target)) as [->|Hd].
      * rewrite lookup_insert_eq. split.
        -- intros [= <- <-]. by right.
        -- intros [Hp|[= -> ->]]; [|done]. apply (lv_panes _ Hv) in Hp. by apply Hfree in Hp.
      * rewrite lookup_insert_ne by done. split; [tauto|]. intros [?|?]; [done|congruence].
    + intros p1 p2 r' ro1 ro2 [H1|H1]%Hiff [H2|H2]%Hiff; simplify_eq.
      * by eapply lv_one.
      * by apply Hnone in H1.
      * by apply Hnone in H2.
      * done.
  - intros ro' rr Hd. destruct (decide (ro' = ro)) as [->|Hd']; [|by rewrite Hne].
    rewrite Heq, Htar. split; intros [= <-]; done.
Qed.

Lemma quieted_spec g r :
  static g -> liveness g ->
  let g' := quieted g r in
  static g' /\ liveness g' /\ runs g' = runs g /\ next_activation g' = next_activation g
  /\ set_activation None <$> roles g = set_activation None <$> roles g'
  /\ (forall p' r' ro', live g' p' r' ro' <-> live g p' r' ro' /\ r' <> r)
  /\ (forall ro' rr, role_run rr <> r -> roles g' !! ro' = Some rr <-> roles g !! ro' = Some rr).
Proof.
  intros Hs Hv. unfold quieted. destruct (active_role g r) as [prev|] eqn:Ha; cbn zeta.
  - destruct (active_role_live _ _ _ Hs Ha) as [p Hl].
    destruct (deactivate_spec _ _ _ _ Hs Hv Hl) as (? & ? & ? & ? & Hsh & Hiff & Hne).
    split_and!; try done.
    + intros p' r' ro'. rewrite Hiff. split.
      * intros [Hx Hy]. split; [done|]. intros ->. apply Hy. exact (lv_one _ Hv _ _ _ _ _ Hx Hl).
      * intros [Hx Hy]. split; [done|]. intros ->. by destruct (live_fun _ _ _ _ _ _ Hl Hx).
    + intros ro' rr Hd. destruct (decide (ro' = prev)) as [->|Hd']; [|by rewrite Hne].
      destruct Hl as (rr0 & Hrr0 & Hrun & _). split; intros Hr.
      * destruct (roles_of_erased _ _ _ _ Hsh Hrr0) as (rr' & ? & E). erased. congruence.
      * congruence.
  - pose proof (active_role_none _ _ Hs Hv Ha) as Hn. split_and!; try done.
    intros p' r' ro'. split; [|tauto]. intros Hl. split; [done|]. intros ->. by apply Hn in Hl.
Qed.

Lemma status_ok_ext g g' r rec :
  (forall ro rr, role_run rr = r -> roles g' !! ro = Some rr -> roles g !! ro = Some rr) ->
  (forall p ro, live g p r ro <-> live g' p r ro) ->
  status_ok g r rec -> status_ok g' r rec.
Proof.
  intros Hro Hl [H Ho]. split; [|done].
  destruct (run_status rec); [|destruct H as (p & ro & H); exists p, ro; by apply Hl|
    intros p ro; rewrite <- Hl; apply H ..].
  intros ro rr Hr Hrun. eauto.
Qed.

Lemma liveness_ext g g' :
  roles g = roles g' -> pane_active g = pane_active g' ->
  next_activation g = next_activation g' -> liveness g -> liveness g'.
Proof.
  intros H1 H2 H3 [? Hp Ho].
  assert (forall p r ro, live g p r ro <-> live g' p r ro) as Hl by (unfold live; by rewrite H1).
  constructor.
  - rewrite <- H1, <- H3. done.
  - intros p r ro. rewrite <- H2, <- Hl. apply Hp.
  - intros p p' r ro ro' Ha%Hl Hb%Hl. by eapply Ho.
Qed.

(** *** Preservation: activation *)

Definition nonterminal (g : RunGraph) (r : RunId) : Prop :=
  exists rec, runs g !! r = Some rec /\ terminal (run_status rec) = false.

(** When [activate] accepts. *)
Definition activation_legal (g : RunGraph) (r : RunId) (ro : RoleId) (activation : N)
    (from : option RoleId) : Prop :=
  activation = next_activation_id g /\ nonterminal g r
  /\ (exists rr, roles g !! ro = Some rr /\ role_run rr = r
       /\ forall o x, pane_active g !! role_pane rr = Some (o, x) -> o = r)
  /\ (forall f, from = Some f -> f <> ro /\ active_role g r = Some f).

Lemma activate_cases g r ro activation from :
  (activation_legal g r ro activation from /\
     activate g r ro activation from = (install (quieted g r) r ro activation, Ok tt))
  \/ (~ activation_legal g r ro activation from /\
     exists e, activate g r ro activation from = (g, Err e)).
Proof.
  unfold activate, activation_legal, nonterminal.
  destruct (N.eqb_spec activation 0) as [->|Hz].
  { right. split; [|by eexists]. intros (H & _). unfold next_activation_id in H. lia. }
  destruct (N.eqb_spec activation (next_activation_id g)) as [->|Hn]; simpl.
  2: { right. split; [tauto|by eexists]. }
  destruct (runs g !! r) as [node|] eqn:Hr.
  2: { right. split; [|by eexists]. by intros (_ & (? & ? & _) & _). }
  destruct (terminal (run_status node)) eqn:Ht.
  { right. split; [|by eexists]. intros (_ & (? & ? & ?) & _). congruence. }
  destruct (roles g !! ro) as [target|] eqn:Hro.
  2: { right. split; [|by eexists]. by intros (_ & _ & (? & ? & _) & _). }
  destruct (N.eqb_spec (role_run target) r) as [<-|Hrun]; simpl.
  2: { right. split; [|by eexists]. intros (_ & _ & (? & ? & ? & _) & _). congruence. }
  case_bool_decide as Hf.
  { right. split; [|by eexists]. intros (_ & _ & _ & H). by apply H in Hf as []. }
  destruct (is_other _ _) eqn:Ho.
  { right. split; [|by eexists]. intros (_ & _ & (? & ? & _ & H) & _). simplify_eq.
    destruct (pane_active g !! _) as [[o x']|]; [|done]. simpl in Ho.
    rewrite (H o x' eq_refl), N.eqb_refl in Ho. done. }
  assert (forall o x, pane_active g !! role_pane target = Some (o, x) -> o = role_run target) as Hown.
  { intros o x E. rewrite E in Ho. simpl in Ho. by apply negb_false_iff, N.eqb_eq in Ho. }
  destruct from as [f|].
  - case_bool_decide as Ha.
    + right. split; [|by eexists]. intros (_ & _ & _ & H). by destruct (H f eq_refl).
    + left. split; [|done]. split_and!; [done|eauto|eauto|].
      intros ? [= <-]. split; [congruence|]. done.
  - left. split; [|done]. split_and!; [done|eauto|eauto|done].
Qed.

Lemma activate_wf g r ro activation from :
  wf g -> activation_legal g r ro activation from ->
  wf (install (quieted g r) r ro activation).
Proof.
  intros (Hs & Hv & Hst) (-> & (node & Hnode & Hnt) & (rr & Hrr & Hrun & Hpane) & _).
  destruct (quieted_spec g r Hs Hv) as (Hs1 & Hv1 & Hr1 & Hn1 & Hsh & Hlive1 & Hro1).
  set (g1 := quieted g r) in *.
  destruct (roles_of_erased _ _ _ _ Hsh Hrr) as (target & Htar & E). erased.
  assert (next_activation_id g = next_activation g1) as ->.
  { unfold next_activation_id. rewrite Hn1. destruct (st_next _ Hs). lia. }
  destruct (install_spec g1 (role_run rr) ro target) as (Hs2 & Hv2 & Hr2 & Hlive2 & Hne2); try done.
  - rewrite Hr1. eauto.
  - intros p ro' [_ ?]%Hlive1. done.
  - intros r' ro' [Hl Hd]%Hlive1. apply Hd. apply (lv_panes _ Hv) in Hl.
    eapply Hpane. replace (role_pane rr) with (role_pane target) by done. exact Hl.
  - set (g2 := install g1 (role_run rr) ro _) in *. split_and!; [done..|].
    intros r' rec' Hr'. rewrite Hr2, Hr1 in Hr'.
    destruct (decide (r' = role_run rr)) as [->|Hd].
    + rewrite lookup_alter_eq, Hnode in Hr'. simpl in Hr'. injection Hr' as <-. split.
      * simpl. exists (role_pane target), ro. apply Hlive2. by right.
      * simpl. destruct (Hst _ _ Hnode) as [_ Ho]. rewrite Ho, Hnt. done.
    + rewrite lookup_alter_ne in Hr' by done. apply Hst in Hr'.
      revert Hr'. apply status_ok_ext.
      * intros ro' rr' <- Hro'. apply Hro1, Hne2; done.
      * intros p ro'. rewrite Hlive2, Hlive1. split; [auto|].
        intros [[? _]|?]; [done|]. congruence.
Qed.

(** *** Preservation: creation and declaration *)

Definition creation_legal (g : RunGraph) (r : RunId) (par : option RunId) (t : N) : Prop :=
  r = next_run_id g /\ runs g !! r = None
  /\ (forall p, par = Some p -> is_Some (runs g !! p)) /\ task_runs g !! t = None.

Lemma fresh_run g r rec :
  static g -> runs g !! next_run_id g = None -> runs g !! r = Some rec -> r < next_run_id g.
Proof.
  intros Hs Hn Hr. destruct (st_run _ Hs _ _ Hr) as [_ [Hle _]].
  assert (r <> next_run_id g) by congruence. unfold next_run_id in *. lia.
Qed.

(** Relations of the run map after a run is added. *)
Lemma run_insert_rel (m : gmap N RunRecord) (r x : N) (new_rec : RunRecord)
    (P : RunRecord -> Prop) :
  m !! r = None ->
  ((exists rec, <[r := new_rec]> m !! x = Some rec /\ P rec)
     <-> (exists rec, m !! x = Some rec /\ P rec) \/ (x = r /\ P new_rec)).
Proof.
  intros Hn. destruct (decide (x = r)) as [->|Hd].
  - rewrite lookup_insert_eq. split.
    + intros (rec & [= <-] & ?). auto.
    + intros [(rec & ? & _)|[_ ?]]; [congruence|eauto].
  - rewrite lookup_insert_ne by done. split; [auto|]. by intros [?|[? _]].
Qed.

Lemma create_wf g r par project kind t title :
  wf g -> creation_legal g r par t -> wf (create g r par project kind t title).
Proof.
  intros (Hs & Hv & Hst) (-> & Hn & Hpar & Ht).
  destruct (st_next _ Hs) as (Hn1 & Hn2 & Hn3). destruct (allocated_next _ Hn1) as [Hal Hle].
  assert (next_run_id g = next_run g) as Hid by (unfold next_run_id; lia).
  pose proof (fun x rec => fresh_run g x rec Hs Hn) as Hfresh.
  set (r := next_run_id g) in *. set (g' := create g r par project kind t title).
  assert (forall p x, child_of g' p x <-> child_of g p x \/ (Some p = par /\ x = r)) as Hchild.
  { intros p x. unfold child_of. simpl. rewrite run_insert_rel by done. simpl.
    split; (intros [?|[? ?]]; [auto|right; split; congruence]). }
  split_and!.
  - constructor; simpl.
    + rewrite Hid. split_and!; lia.
    + intros x rec. destruct (decide (x = r)) as [->|Hd].
      * rewrite lookup_insert_eq. intros [= <-]. simpl. rewrite Hid. auto.
      * rewrite lookup_insert_ne by done. intros Hx. destruct (st_run _ Hs _ _ Hx).
        split; [done|]. rewrite Hid. eapply allocated_mono; [done|lia].
    + intros p x [Hc|[Hp ->]]%Hchild.
      * destruct (st_parent _ Hs _ _ Hc) as [? [rec Hrec]]. split; [done|].
        rewrite lookup_insert_is_Some. destruct (decide (r = p)); eauto.
      * destruct (Hpar p (eq_sym Hp)) as [rec Hrec]. split; [by eapply Hfresh|].
        rewrite lookup_insert_is_Some. destruct (decide (r = p)); eauto.
    + eapply indexes_proper; [intros p x; symmetry; apply Hchild|].
      destruct par as [p|].
      * eapply indexes_proper; [|apply (indexes_push (child_of g) _ p r); [apply (st_children _ Hs)|]].
        -- intros p' x. simpl. split; (intros [?|[? ?]]; [auto|right; split; congruence]).
        -- intros x (rec & Hx & _). by eapply Hfresh.
      * eapply indexes_proper; [|apply (st_children _ Hs)]. intros p' x.
        split; [auto|]. by intros [?|[? _]].
    + eapply indexes_proper; [|apply (indexes_push (in_project g) _ project r); [apply (st_projects _ Hs)|]].
      * intros p x. unfold in_project at 2. simpl. rewrite run_insert_rel by done. simpl.
        split; (intros [?|[? ?]]; [auto|right; split; congruence]).
      * intros x (rec & Hx & _). by eapply Hfresh.
    + intros t' x. rewrite (run_insert_rel _ _ _ _ (fun rec => run_task_id rec = t')) by done.
      simpl. destruct (decide (t' = t)) as [->|Hd].
      * rewrite lookup_insert_eq. split.
        -- intros [= <-]. auto.
        -- intros [Hx|[-> _]]; [|done]. apply (st_tasks _ Hs) in Hx. congruence.
      * rewrite lookup_insert_ne by done. rewrite (st_tasks _ Hs). split; [auto|].
        intros [?|[_ ?]]; [done|congruence].
    + intros ro rr Hro. destruct (st_role _ Hs _ _ Hro) as (? & ? & ?).
      split_and!; [done..|]. rewrite lookup_insert_is_Some.
      destruct (decide (r = role_run rr)); auto.
    + intros x rec. destruct (decide (x = r)) as [->|Hd].
      * rewrite lookup_insert_eq. intros [= <-]. simpl. apply index_of_nil.
        intros ro (rr & Hro & Hrun). destruct (st_role _ Hs _ _ Hro) as (_ & _ & rec & Hrec).
        congruence.
      * rewrite lookup_insert_ne by done. apply (st_roles_of _ Hs).
    + apply (st_panes _ Hs).
  - by apply liveness_ext with g.
  - intros x rec. simpl. destruct (decide (x = r)) as [->|Hd].
    + rewrite lookup_insert_eq. intros [= <-]. split; simpl; [|split; [by intros []|done]].
      intros ro rr Hro Hrun. destruct (st_role _ Hs _ _ Hro) as (_ & _ & rec & Hrec). congruence.
    + rewrite lookup_insert_ne by done. intros Hx. apply Hst in Hx. revert Hx.
      by apply status_ok_ext.
Qed.

Definition declaration_legal (g : RunGraph) (r : RunId) (ro : RoleId) : Prop :=
  nonterminal g r /\ ro = next_role_id g /\ roles g !! ro = None.

Lemma declare_panes g r ro name pane provider :
  static g -> roles g !! ro = None ->
  let g' := declare g r ro name pane provider in
  forall x, NoDup (panes g' x) /\ run_panes g' !! x <> Some [] /\
    forall p, p ∈ panes g' x <->
      exists y rr, roles g' !! y = Some rr /\ role_run rr = x /\ role_pane rr = p.
Proof.
  intros Hs Hn g' x. destruct (st_panes _ Hs x) as (Hnd & Hne & Hp).
  assert (forall p, (exists y rr, roles g' !! y = Some rr /\ role_run rr = x /\ role_pane rr = p)
    <-> (p ∈ panes g x \/ (x = r /\ p = pane))) as Hrel.
  { intros p. rewrite Hp. simpl. split.
    - intros (y & rr & Hy & H1 & H2). destruct (decide (y = ro)) as [->|Hd].
      + rewrite lookup_insert_eq in Hy. injection Hy as <-. simpl in *. auto.
      + rewrite lookup_insert_ne in Hy by done. left. eauto.
    - intros [(y & rr & Hy & H1 & H2)|[-> ->]].
      + exists y, rr. rewrite lookup_insert_ne; [done|congruence].
      + exists ro. eexists. rewrite lookup_insert_eq. split; [done|]. done. }
  assert (panes g' x = if decide (x = r) then
      if bool_decide (pane ∈ panes g r) then panes g r else panes g r ++ [pane]
    else panes g x) as ->.
  { unfold panes. simpl. destruct (bool_decide _); unfold entry_push; rewrite posting_insert;
      (destruct (decide (x = r)) as [->|]; done). }
  split_and!.
  - destruct (decide (x = r)) as [->|]; [|done]. case_bool_decide; [done|].
    apply NoDup_app. split_and!; [done| |apply NoDup_singleton].
    intros y Hy ->%list_elem_of_singleton. done.
  - simpl. destruct (decide (x = r)) as [->|].
    + case_bool_decide as Hb; unfold entry_push; rewrite lookup_insert_eq.
      * intros [= E]. rewrite E in Hb. by apply elem_of_nil in Hb.
      * unfold panes. by destruct (posting _ _).
    + case_bool_decide; unfold entry_push; by rewrite lookup_insert_ne.
  - intros p. rewrite Hrel. destruct (decide (x = r)) as [->|Hd].
    + case_bool_decide as Hb; [|rewrite elem_of_app, list_elem_of_singleton];
        [split; [auto|]; by intros [?|[_ ->]]|naive_solver].
    + naive_solver.
Qed.

Lemma declare_wf g r ro name pane provider :
  wf g -> declaration_legal g r ro -> wf (declare g r ro name pane provider).
Proof.
  intros (Hs & Hv & Hst) ((node & Hnode & Hnt) & -> & Hn).
  destruct (st_next _ Hs) as (Hn1 & Hn2 & Hn3). destruct (allocated_next _ Hn2) as [Hal Hle].
  assert (next_role_id g = next_role g) as Hid by (unfold next_role_id; lia).
  set (ro := next_role_id g) in *. set (g' := declare g r ro name pane provider).
  assert (forall x rr, roles g !! x = Some rr -> x < ro) as Hfresh.
  { intros x rr Hx. destruct (st_role _ Hs _ _ Hx) as (_ & [? _] & _).
    assert (x <> ro) by congruence. lia. }
  assert (forall x, x <> ro -> roles g' !! x = roles g !! x) as Hne.
  { intros x ?. simpl. by rewrite lookup_insert_ne. }
  assert (forall p x, child_of g p x <-> child_of g' p x) as Hchild.
  { intros p x. unfold child_of. simpl. destruct (decide (x = r)) as [->|Hd].
    - rewrite lookup_alter_eq, Hnode. simpl. split; (intros (? & [= <-] & ?); by eexists).
    - by rewrite lookup_alter_ne. }
  assert (forall x, is_Some (runs g' !! x) <-> is_Some (runs g !! x)) as Hdom.
  { intros x. simpl. apply lookup_alter_is_Some. }
  assert (forall x y, owned g' x y <-> owned g x y \/ (x = r /\ y = ro)) as Hown.
  { intros x y. unfold owned. destruct (decide (y = ro)) as [->|Hd].
    - simpl. rewrite lookup_insert_eq, Hn. split.
      + intros (? & [= <-] & <-). auto.
      + intros [(? & ? & _)|[-> _]]; [done|]. by eexists.
    - rewrite Hne by done. split; [auto|]. by intros [?|[_ ?]]. }
  assert (forall p x y, live g' p x y <-> live g p x y) as Hlive.
  { intros p x y. unfold live. destruct (decide (y = ro)) as [->|Hd]; [|by rewrite Hne].
    simpl. rewrite lookup_insert_eq, Hn. split; [|by intros (? & ? & _)].
    intros (? & [= <-] & _ & _ & Hf). done. }
  split_and!.
  - constructor; simpl.
    + rewrite Hid. split_and!; lia.
    + intros x rec. destruct (decide (x = r)) as [->|Hd].
      * rewrite lookup_alter_eq, Hnode. intros [= <-]. simpl. by apply (st_run _ Hs).
      * rewrite lookup_alter_ne by done. apply (st_run _ Hs).
    + intros p x Hc%Hchild. apply (st_parent _ Hs) in Hc as [? ?]. split; [done|]. by apply Hdom.
    + eapply indexes_proper; [apply Hchild|]. apply (st_children _ Hs).
    + eapply indexes_proper; [|apply (st_projects _ Hs)]. intros p x. unfold in_project. simpl.
      destruct (decide (x = r)) as [->|Hd]; [|by rewrite lookup_alter_ne].
      rewrite lookup_alter_eq, Hnode. simpl. split; (intros (? & [= <-] & ?); by eexists).
    + intros t x. rewrite (st_tasks _ Hs). destruct (decide (x = r)) as [->|Hd].
      * rewrite lookup_alter_eq, Hnode. simpl. split; (intros (? & [= <-] & ?); by eexists).
      * by rewrite lookup_alter_ne.
    + intros x rr. destruct (decide (x = ro)) as [->|Hd].
      * rewrite lookup_insert_eq. intros [= <-]. simpl. rewrite Hid.
        split; [done|]. split; [exact Hal|]. apply lookup_alter_is_Some. eauto.
      * rewrite lookup_insert_ne by done. intros Hx. destruct (st_role _ Hs _ _ Hx) as (? & ? & ?).
        rewrite Hid. split; [done|]. split; [|by apply lookup_alter_is_Some]. eapply allocated_mono; [done|lia].
    + intros x rec Hx. destruct (decide (x = r)) as [->|Hd].
      * rewrite lookup_alter_eq, Hnode in Hx. injection Hx as <-. simpl.
        eapply index_of_iff; [|apply (index_of_push (owned g r))].
        -- intros y. simpl. rewrite Hown. tauto.
        -- by apply (st_roles_of _ Hs).
        -- intros y (rr & Hy & _). by eapply Hfresh.
      * rewrite lookup_alter_ne in Hx by done.
        eapply index_of_iff; [|by apply (st_roles_of _ Hs)]. intros y. rewrite Hown. tauto.
    + by apply declare_panes.
  - constructor; simpl.
    + intros x rr a. destruct (decide (x = ro)) as [->|Hd].
      * rewrite lookup_insert_eq. by intros [= <-].
      * rewrite lookup_insert_ne by done. apply (lv_act _ Hv).
    + intros p x y. rewrite Hlive. apply (lv_panes _ Hv).
    + intros p p' x y y' Ha%Hlive Hb%Hlive. by eapply (lv_one _ Hv).
  - intros x rec. simpl. intros Hx.
    assert (exists rec0, runs g !! x = Some rec0 /\ run_status rec = run_status rec0
      /\ run_outcome rec = run_outcome rec0) as (rec0 & Hx0 & E & Eo).
    { destruct (decide (x = r)) as [->|Hd].
      - rewrite lookup_alter_eq, Hnode in Hx. injection Hx as <-. eauto.
      - rewrite lookup_alter_ne in Hx by done. eauto. }
    apply Hst in Hx0 as [Hok Ho]. split; [|by rewrite E, Eo]. rewrite E.
    destruct (run_status rec0).
    + intros y rr. destruct (decide (y = ro)) as [->|Hd]; [|rewrite Hne by done; apply Hok].
      simpl. rewrite lookup_insert_eq. by intros [= <-].
    + destruct Hok as (p & y & Hl). exists p, y. by apply Hlive.
    + intros p y Hl%Hlive. by eapply Hok.
    + intros p y Hl%Hlive. by eapply Hok.
    + intros p y Hl%Hlive. by eapply Hok.
Qed.

(** *** Preservation: terminal events and pruning *)

Lemma finish_wf g r s o :
  wf g -> nonterminal g r -> terminal s = true ->
  wf (write_outcome (quieted g r) r s o).
Proof.
  intros (Hs & Hv & Hst) (node & Hnode & Hnt) Ht.
  destruct (quieted_spec g r Hs Hv) as (Hs1 & Hv1 & Hr1 & Hn1 & _ & Hlive1 & Hro1).
  set (g1 := quieted g r) in *. split_and!.
  - apply static_shape with g1; [|done]. constructor; simpl; try done.
    + apply map_eq. intros k. rewrite !lookup_fmap. destruct (decide (k = r)) as [->|].
      * rewrite lookup_alter_eq. by destruct (runs g1 !! r).
      * by rewrite lookup_alter_ne.
    + destruct (st_next _ Hs1) as (_ & _ & ?). done.
  - by apply liveness_ext with g1.
  - intros x rec. simpl. rewrite Hr1. destruct (decide (x = r)) as [->|Hd].
    + rewrite lookup_alter_eq, Hnode. intros [= <-]. split; simpl.
      * assert (forall p ro, ~ live (write_outcome g1 r s o) p r ro) as Hno.
        { intros p ro Hl. assert (live g1 p r ro) as [_ Hl']%Hlive1 by exact Hl. done. }
        destruct s; try discriminate; exact Hno.
      * rewrite Ht. split; [done|]. by eexists.
    + rewrite lookup_alter_ne by done. intros Hx. apply Hst in Hx. revert Hx.
      apply status_ok_ext.
      * intros ro rr <- Hro. by apply Hro1 in Hro.
      * intros p ro. change (live g p x ro <-> live g1 p x ro). rewrite Hlive1. tauto.
Qed.

Lemma foldl_delete_lookup (m : gmap N RoleRecord) l k :
  foldl (fun m ro => delete ro m) m l !! k = if decide (k ∈ l) then None else m !! k.
Proof.
  revert m. induction l as [|x l IH]; intros m; simpl.
  - destruct (decide (k ∈ [])) as [H|]; [by apply elem_of_nil in H|done].
  - rewrite IH. destruct (decide (k = x)) as [->|Hd].
    + rewrite lookup_delete_eq. destruct (decide (x ∈ l)); destruct (decide (x ∈ x :: l)) as [|Hn];
        try done; exfalso; apply Hn; left.
    + rewrite lookup_delete_ne by done.
      destruct (decide (k ∈ l)); destruct (decide (k ∈ x :: l)) as [Hin|Hin]; try done.
      * exfalso. apply Hin. by right.
      * by apply elem_of_cons in Hin as [|].
Qed.

(** Relations of the run map after a run is removed. *)
Lemma run_delete_rel (m : gmap N RunRecord) (r x : N) (P : RunRecord -> Prop) :
  (exists rec, delete r m !! x = Some rec /\ P rec)
    <-> (exists rec, m !! x = Some rec /\ P rec) /\ x <> r.
Proof.
  destruct (decide (x = r)) as [->|Hd].
  - rewrite lookup_delete_eq. split; [by intros (? & ? & _)|tauto].
  - rewrite lookup_delete_ne by done. tauto.
Qed.

Lemma remove_roles g id rec k rr :
  static g -> runs g !! id = Some rec ->
  roles (remove_run g id rec) !! k = Some rr <->
    roles g !! k = Some rr /\ role_run rr <> id.
Proof.
  intros Hs Hid. simpl. rewrite foldl_delete_lookup.
  destruct (st_roles_of _ Hs _ _ Hid) as [_ Hin].
  destruct (decide (k ∈ run_roles rec)) as [Hk|Hk].
  - apply Hin in Hk as (rr' & Hk & Hrun). split; [done|]. intros [??]. congruence.
  - split; [|tauto]. intros Hk'. split; [done|]. intros Hrun. apply Hk, Hin. by exists rr.
Qed.

Lemma remove_static g id rec :
  static g -> runs g !! id = Some rec -> children g id = [] ->
  static (remove_run g id rec).
Proof.
  intros Hs Hid Hch. set (g' := remove_run g id rec).
  pose proof (fun k rr => remove_roles g id rec k rr Hs Hid) as Hroles. fold g' in Hroles.
  assert (forall x, ~ child_of g id x) as Hnochild.
  { intros x Hx. apply (st_children _ Hs id) in Hx. unfold children in Hch. rewrite Hch in Hx.
    by apply elem_of_nil in Hx. }
  assert (forall p x, child_of g' p x <-> child_of g p x /\ x <> id) as Hchild.
  { intros p x. apply (run_delete_rel _ _ _ (fun rec => run_parent rec = Some p)). }
  assert (forall x, x <> id -> is_Some (runs g !! x) -> is_Some (runs g' !! x)) as Hdom.
  { intros x Hd Hx. simpl. by rewrite lookup_delete_ne. }
  constructor.
  - apply (st_next _ Hs).
  - intros x rx Hx. simpl in Hx. apply lookup_delete_Some in Hx as [_ Hx]. by apply (st_run _ Hs).
  - intros p x [Hc Hd]%Hchild. pose proof (st_parent _ Hs _ _ Hc) as [? Hp].
    split; [done|]. apply Hdom; [|done]. intros ->. by apply Hnochild in Hc.
  - assert (delete id (children_map g) = children_map g) as E.
    { apply delete_id. unfold children, posting in Hch. destruct (st_children _ Hs id) as [_ Hne].
      destruct (children_map g !! id) as [l|]; [|done]. simpl in Hch. by subst. }
    simpl. rewrite E. destruct (run_parent rec) as [p|] eqn:Hp.
    + eapply indexes_proper; [intros ??; symmetry; apply Hchild|].
      apply indexes_drop; [apply (st_children _ Hs)|]. intros j (rec' & ? & ?). congruence.
    + eapply indexes_proper; [intros ??; symmetry; apply Hchild|].
      eapply indexes_proper; [|apply (st_children _ Hs)]. intros j x. split; [|tauto].
      intros Hc. split; [done|]. intros ->. destruct Hc as (? & ? & ?). congruence.
  - simpl. eapply indexes_proper;
      [|apply indexes_drop; [apply (st_projects _ Hs)|]].
    + intros p x. symmetry. apply (run_delete_rel _ _ _ (fun rec => run_project rec = p)).
    + intros j (rec' & ? & ?). congruence.
  - intros t x. simpl. rewrite (run_delete_rel _ _ _ (fun rec => run_task_id rec = t)).
    rewrite <- (st_tasks _ Hs). assert (task_runs g !! run_task_id rec = Some id) as Ht.
    { apply (st_tasks _ Hs). eauto. }
    destruct (decide (t = run_task_id rec)) as [->|Hd].
    + rewrite lookup_delete_eq, Ht. split; [done|]. intros [[= ->] ?]. done.
    + rewrite lookup_delete_ne by done. split; [|tauto]. intros Hx. split; [done|].
      intros ->. apply (st_tasks _ Hs) in Hx as (rec' & ? & ?). congruence.
  - intros k rr [Hk Hrun]%Hroles. destruct (st_role _ Hs _ _ Hk) as (? & ? & ?).
    split; [done|]. split; [done|]. by apply Hdom.
  - intros x rx Hx. simpl in Hx. apply lookup_delete_Some in Hx as [Hd Hx].
    eapply index_of_iff; [|by apply (st_roles_of _ Hs)]. intros k. unfold owned.
    split; intros (rr & Hk & Hrun); exists rr; [|by apply Hroles in Hk as [? _]].
    split; [|done]. apply Hroles. split; [done|congruence].
  - intros x. simpl. unfold panes. simpl. rewrite posting_delete.
    destruct (decide (x = id)) as [->|Hd].
    + rewrite lookup_delete_eq. split; [constructor|]. split; [done|]. intros p.
      split; [by intros ?%elem_of_nil|]. intros (k & rr & [_ ?]%Hroles & ? & _). done.
    + rewrite lookup_delete_ne by done. destruct (st_panes _ Hs x) as (? & ? & Hp).
      split; [done|]. split; [done|]. intros p. rewrite Hp.
      split; intros (k & rr & Hk & Hrun & Hpane); exists k, rr.
      * split; [|done]. apply Hroles. split; [done|congruence].
      * by apply Hroles in Hk as [? _].
Qed.

Lemma remove_run_wf g id rec :
  wf g -> runs g !! id = Some rec -> terminal (run_status rec) = true ->
  children g id = [] -> wf (remove_run g id rec).
Proof.
  intros (Hs & Hv & Hst) Hid Ht Hch.
  pose proof (fun k rr => remove_roles g id rec k rr Hs Hid) as Hroles.
  set (g' := remove_run g id rec) in *.
  assert (forall p ro, ~ live g p id ro) as Hno.
  { destruct (Hst _ _ Hid) as [H _]. by destruct (run_status rec). }
  assert (forall p x ro, live g' p x ro <-> live g p x ro) as Hlive.
  { intros p x ro. unfold live. split; intros (rr & Hro & Hrun & Hp); exists rr.
    - by apply Hroles in Hro as [? _].
    - split; [|done]. apply Hroles. split; [done|]. intros E.
      apply (Hno p ro). exists rr. destruct Hp. subst. done. }
  split; [by apply remove_static|]. split.
  - constructor.
    + intros k rr a [Hk _]%Hroles. by apply (lv_act _ Hv k).
    + intros p x ro. rewrite Hlive. apply (lv_panes _ Hv).
    + intros p p' x ro ro'. rewrite !Hlive. apply (lv_one _ Hv).
  - intros x rx Hx. simpl in Hx. apply lookup_delete_Some in Hx as [Hd Hx]. apply Hst in Hx. revert Hx.
    apply status_ok_ext.
    + by intros ro rr _ [? _]%Hroles.
    + intros p ro. symmetry. apply Hlive.
Qed.

Lemma prune_candidate_some g id rec :
  prune_candidate g = Some (id, rec) ->
  runs g !! id = Some rec /\ terminal (run_status rec) = true /\ children g id = [].
Proof.
  intros [Hr Hf]%find_entry_some. simpl in Hf. apply andb_true_iff in Hf as [Ht Hc].
  by apply bool_decide_eq_true in Hc.
Qed.

(** What holds of the graph and of every graph with one more run removed holds
    of the pruned graph. *)
Lemma prune_loop_ind (P : RunGraph -> Prop) cap fuel g :
  P g ->
  (forall g id rec, P g -> cap < N.of_nat (size (runs g)) ->
     runs g !! id = Some rec -> terminal (run_status rec) = true -> children g id = [] ->
     P (remove_run g id rec)) ->
  P (prune_loop fuel cap g).
Proof.
  intros Hg Hstep. revert g Hg. induction fuel as [|fuel IH]; intros g Hg; simpl.
  - destruct (_ <? _); [|done]. by destruct (prune_candidate g) as [[??]|].
  - destruct (N.ltb_spec cap (N.of_nat (size (runs g)))) as [Hlt|]; [|done].
    destruct (prune_candidate g) as [[id rec]|] eqn:E; [|done].
    apply prune_candidate_some in E as (? & ? & ?). by apply IH, Hstep.
Qed.

Lemma prune_to_wf g cap : wf g -> wf (prune_to g cap).
Proof. intros Hg. apply (prune_loop_ind wf); [done|]. intros. by apply remove_run_wf. Qed.

(** *** Every event *)

(** The events the graph accepts. *)
Definition legal (g : RunGraph) (e : RunGraphEvent) : Prop :=
  match e with
  | EvCreated r par _ _ t _ => creation_legal g r par t
  | EvRoleDeclared r ro _ _ _ => declaration_legal g r ro
  | EvActivated r ro a => activation_legal g r ro a None
  | EvHandoff r from to a => activation_legal g r to a (Some from)
  | EvCompleted r _ | EvFailed r _ | EvCanceled r _ => nonterminal g r
  end.

(** What an accepted event does. *)
Definition effect (g : RunGraph) (e : RunGraphEvent) : RunGraph :=
  match e with
  | EvCreated r par project kind t title => create g r par project kind t title
  | EvRoleDeclared r ro name pane provider => declare g r ro name pane provider
  | EvActivated r ro a | EvHandoff r _ ro a => install (quieted g r) r ro a
  | EvCompleted r o =>
      prune_to (write_outcome (quieted g r) r Completed o) RUN_GRAPH_HISTORY_CAP
  | EvFailed r o => prune_to (write_outcome (quieted g r) r Failed o) RUN_GRAPH_HISTORY_CAP
  | EvCanceled r o =>
      prune_to (write_outcome (quieted g r) r Canceled o) RUN_GRAPH_HISTORY_CAP
  end.

Lemma finish_cases g r s o :
  (nonterminal g r /\
     finish g r s o = (prune_to (write_outcome (quieted g r) r s o) RUN_GRAPH_HISTORY_CAP, Ok tt))
  \/ (~ nonterminal g r /\ exists m, finish g r s o = (g, Err m)).
Proof.
  unfold finish, nonterminal. destruct (runs g !! r) as [node|] eqn:Hr.
  - destruct (terminal (run_status node)) eqn:Ht.
    + right. split; [|by eexists]. intros (? & ? & ?). congruence.
    + left. eauto.
  - right. split; [|by eexists]. by intros (? & ? & ?).
Qed.

Lemma apply_cases g e :
  (legal g e /\ apply g e = (effect g e, Ok tt))
  \/ (~ legal g e /\ exists m, apply g e = (g, Err m)).
Proof.
  destruct e as [r par project kind t title|r ro name pane provider|r ro a|r from to a|r o|r o|r o];
    simpl; try apply activate_cases; try apply finish_cases.
  - unfold creation_legal. destruct (N.eqb_spec r (next_run_id g)) as [->|Hn]; simpl.
    2: { right. split; [tauto|by eexists]. }
    case_bool_decide as Hin.
    { right. split; [|by eexists]. intros (_ & E & _). rewrite E in Hin. by destruct Hin. }
    apply eq_None_not_Some in Hin.
    destruct (match par with Some p => bool_decide (runs g !! p = None) | None => false end) eqn:Hp.
    { right. split; [|by eexists]. intros (_ & _ & E & _). destruct par as [p|]; [|done].
      apply bool_decide_eq_true in Hp. destruct (E p eq_refl). congruence. }
    case_bool_decide as Ht.
    { right. split; [|by eexists]. intros (_ & _ & _ & E). rewrite E in Ht. by destruct Ht. }
    apply eq_None_not_Some in Ht. left. split_and!; try done. intros p ->.
    apply bool_decide_eq_false in Hp. by apply not_eq_None_Some.
  - unfold declaration_legal, nonterminal. destruct (runs g !! r) as [node|] eqn:Hr.
    2: { right. split; [|by eexists]. by intros ((? & ? & _) & _). }
    destruct (terminal (run_status node)) eqn:Ht; simpl.
    { right. split; [|by eexists]. intros ((? & ? & ?) & _). congruence. }
    destruct (N.eqb_spec ro (next_role_id g)) as [->|Hn]; simpl.
    2: { right. split; [tauto|by eexists]. }
    case_bool_decide as Hin.
    { right. split; [|by eexists]. intros (_ & _ & E). rewrite E in Hin. by destruct Hin. }
    apply eq_None_not_Some in Hin. left. split_and!; eauto.
Qed.

Lemma effect_wf g e : wf g -> legal g e -> wf (effect g e).
Proof.
  intros Hg. destruct e; simpl; intros Hl.
  - by apply create_wf.
  - by apply declare_wf.
  - by eapply activate_wf.
  - by eapply activate_wf.
  - by apply prune_to_wf, finish_wf.
  - by apply prune_to_wf, finish_wf.
  - by apply prune_to_wf, finish_wf.
Qed.

Lemma apply_wf g e : wf g -> wf (apply g e).1.
Proof.
  intros Hg. destruct (apply_cases g e) as [[Hl ->]|[_ [m ->]]]; [|done].
  by apply effect_wf.
Qed.

Lemma no_run r rec : runs new !! r <> Some rec.
Proof. exact (lookup_empty_Some r rec). Qed.

Lemma no_role ro rr : roles new !! ro <> Some rr.
Proof. exact (lookup_empty_Some ro rr). Qed.

Lemma new_wf : wf new.
Proof.
  assert (forall p, index_of (child_of new p) []) as Hc.
  { intros p. apply index_of_nil. by intros r (rec & ?%no_run & _). }
  assert (forall p, index_of (in_project new p) []) as Hp.
  { intros p. apply index_of_nil. by intros r (rec & ?%no_run & _). }
  split_and!.
  - constructor; try (by intros ? ? ?%no_run); try (by intros ? ? ?%no_role); try done.
    + by intros p r (rec & ?%no_run & _).
    + intros t r. split; [intros H; exfalso; exact (lookup_empty_Some t r H)|].
      by intros (rec & ?%no_run & _).
    + intros r. split; [constructor|]. split; [done|]. intros p.
      split; [intros H; by apply elem_of_nil in H|]. by intros (? & ? & ?%no_role & _).
  - constructor.
    + by intros ? ? ? ?%no_role.
    + intros p r ro. split; [intros H; exfalso; exact (lookup_empty_Some p (r, ro) H)|].
      by intros (? & ?%no_role & _).
    + by intros p p' r ro ro' (? & ?%no_role & _).
  - by intros r rec ?%no_run.
Qed.

Lemma replay_app es es' :
  replay (es ++ es') = foldl (fun g e => (apply g e).1) (replay es) es'.
Proof. unfold replay. by rewrite foldl_app. Qed.

Lemma replay_snoc es e : replay (es ++ [e]) = (apply (replay es) e).1.
Proof. by rewrite replay_app. Qed.

Lemma reachable_wf es : wf (replay es).
Proof.
  induction es as [|e es IH] using rev_ind; [apply new_wf|].
  rewrite replay_snoc. by apply apply_wf.
Qed.

#[export] Hint Resolve reachable_wf apply_wf : uniterm.

(** ** Properties *)

(** C7: whatever events reach it, in any order and however malformed, the graph
    stays well formed: identities below the allocators, parents older than
    their children, exact indexes, at most one live role per run, statuses that
    agree with the roles' activations. *)
Theorem run_graph_invariant es e :
  wf (replay es) /\ wf (replay (es ++ [e]))
  /\ (legal (replay es) e -> apply (replay es) e = (effect (replay es) e, Ok tt))
  /\ (~ legal (replay es) e -> exists m, apply (replay es) e = (replay es, Err m)).
Proof.
  split_and!; auto with uniterm;
    destruct (apply_cases (replay es) e) as [[? ?]|[? ?]]; tauto.
Qed.

(** The scans that the scalar indexes answer without walking the graph. *)
Definition scan_children (g : RunGraph) (p : RunId) : list RunId :=
  (filter (fun e => run_parent e.2 = Some p) (entries (runs g))).*1.
Definition scan_project (g : RunGraph) (p : ProjectId) : list RunId :=
  (filter (fun e => run_project e.2 = p) (entries (runs g))).*1.
Definition scan_roles (g : RunGraph) (r : RunId) : list RoleId :=
  (filter (fun e => role_run e.2 = r) (entries (roles g))).*1.

(** C29: on every reachable graph the direct lookups answer what a scan of all
    runs and roles would: children and Project runs in creation order, the run
    of a Task, a run's ordered roles, and the live role of a Pane or a run,
    which are two views of one relation. *)
Theorem indexes_equal_scans es :
  let g := replay es in
  (forall p, children g p = scan_children g p)
  /\ (forall p, runs_for_project g p = scan_project g p)
  /\ (forall t r, run_for_task g t = Some r <->
        exists rec, run g r = Some rec /\ run_task_id rec = t)
  /\ (forall r rec, run g r = Some rec -> run_roles rec = scan_roles g r)
  /\ (forall p r ro, active_for_pane g p = Some (r, ro) <->
        active_role g r = Some ro /\ role_pane <$> role g ro = Some p)
  /\ (forall r p, p ∈ panes g r <->
        exists ro, ro ∈ scan_roles g r /\ role_pane <$> role g ro = Some p).
Proof.
  destruct (reachable_wf es) as (Hs & Hv & _). cbn zeta. set (g := replay es) in *.
  assert (forall r, index_of (owned g r) (scan_roles g r)) as Hroles.
  { intros r. exact (index_of_entries (roles g) (fun rr => role_run rr = r)). }
  split_and!.
  - intros p. eapply index_of_unique; [apply (st_children _ Hs)|].
    exact (index_of_entries (runs g) (fun rec => run_parent rec = Some p)).
  - intros p. eapply index_of_unique; [apply (st_projects _ Hs)|].
    exact (index_of_entries (runs g) (fun rec => run_project rec = p)).
  - apply (st_tasks _ Hs).
  - intros r rec Hr. eapply index_of_unique; [by apply (st_roles_of _ Hs)|apply Hroles].
  - intros p r ro. unfold active_for_pane, role. rewrite (lv_panes _ Hv). split.
    + intros Hl. split; [by eapply live_active_role|].
      destruct Hl as (rr & -> & _ & <- & _). done.
    + intros [Ha Hp]. apply active_role_live in Ha as [p' Hl]; [|done].
      assert (p' = p) as <-; [|done]. destruct Hl as (rr & Hrr & _ & <- & _).
      rewrite Hrr in Hp. simpl in Hp. congruence.
  - intros r p. destruct (st_panes _ Hs r) as (_ & _ & Hp). rewrite Hp. unfold role.
    split.
    + intros (ro & rr & Hro & Hrun & <-). exists ro. rewrite Hro. split; [|done].
      apply Hroles. by exists rr.
    + intros (ro & (rr & Hro & Hrun)%Hroles & Hpane). rewrite Hro in Hpane.
      simpl in Hpane. exists ro, rr. split; [done|]. split; congruence.
Qed.

(** *** Terminal runs *)

(** Run [r] keeps its record and its roles' records, or is gone. *)
Definition kept (r : RunId) (rec : RunRecord) (g g' : RunGraph) : Prop :=
  runs g' !! r = Some rec
  /\ forall ro rr, role_run rr = r -> roles g' !! ro = Some rr <-> roles g !! ro = Some rr.

Definition frozen (r : RunId) (rec : RunRecord) (g g' : RunGraph) : Prop :=
  kept r rec g g' \/ runs g' !! r = None.

Lemma prune_frozen r rec g g0 cap :
  wf g -> kept r rec g0 g -> frozen r rec g0 (prune_to g cap).
Proof.
  intros Hg Hk.
  assert (wf (prune_to g cap) /\ frozen r rec g0 (prune_to g cap)) as [_ ?]; [|done].
  apply (prune_loop_ind (fun g => wf g /\ frozen r rec g0 g)); [by split; [|left]|].
  clear g Hg Hk. intros g id rec' [Hg Hf] _ Hid Ht Hch. split; [by apply remove_run_wf|].
  destruct Hf as [[Hr Hro]|Hr]; [|right; simpl; by rewrite lookup_delete_None; right].
  simpl. destruct (decide (r = id)) as [->|Hd]; [right; simpl; by rewrite lookup_delete_eq|].
  left. split; [simpl; by rewrite lookup_delete_ne|]. intros ro rr Hrun.
  rewrite <- Hro by done. rewrite remove_roles by (apply Hg || done).
  split; [tauto|]. intros ?. split; [done|congruence].
Qed.

Lemma effect_kept g e r rec :
  wf g -> legal g e -> runs g !! r = Some rec -> terminal (run_status rec) = true ->
  frozen r rec g (effect g e).
Proof.
  intros Hg Hl Hr Ht. pose proof Hg as (Hs & Hv & _).
  assert (forall x, nonterminal g x -> x <> r) as Hother.
  { intros x (? & ? & ?) ->. congruence. }
  assert (forall x, nonterminal g x -> forall ro rr, role_run rr = r ->
    roles (quieted g x) !! ro = Some rr <-> roles g !! ro = Some rr) as Hq.
  { intros x Hx ro rr Hrun. destruct (quieted_spec g x Hs Hv) as (_ & _ & _ & _ & _ & _ & H).
    apply H. pose proof (Hother _ Hx). congruence. }
  assert (forall x, runs (quieted g x) = runs g) as Hqr.
  { intros x. by destruct (quieted_spec g x Hs Hv) as (_ & _ & ? & _). }
  assert (forall x ro a from, activation_legal g x ro a from ->
    kept r rec g (install (quieted g x) x ro a)) as Hact.
  { intros x ro a from (_ & Hx & (rr & Hro & Hrun & _) & _). pose proof (Hother _ Hx).
    unfold install. destruct (roles (quieted g x) !! ro) as [target|] eqn:Htar.
    - split; simpl; [by rewrite Hqr, lookup_alter_ne|]. intros ro' rr' Hrun'.
      rewrite <- (Hq x) by done. destruct (decide (ro' = ro)) as [->|]; [|by rewrite lookup_insert_ne].
      destruct (quieted_spec g x Hs Hv) as (_ & _ & _ & _ & Hsh & _).
      destruct (roles_of_erased _ _ _ _ Hsh Hro) as (target' & ? & E). erased.
      rewrite lookup_insert_eq, Htar. split; intros [= <-]; simpl in *; congruence.
    - split; [by rewrite Hqr|]. intros. by apply Hq. }
  assert (forall x s o, nonterminal g x ->
    frozen r rec g (prune_to (write_outcome (quieted g x) x s o) RUN_GRAPH_HISTORY_CAP)
    \/ terminal s = false) as Hfin.
  { intros x s o Hx. destruct (terminal s) eqn:Hts; [left|by right].
    apply prune_frozen; [by apply finish_wf|]. pose proof (Hother _ Hx).
    split; simpl; [by rewrite Hqr, lookup_alter_ne|]. by apply Hq. }
  destruct e; simpl in *.
  - left. destruct Hl as (-> & Hn & _). split; simpl; [|done].
    rewrite lookup_insert_ne by congruence. done.
  - left. destruct Hl as (Hx & -> & Hn). pose proof (Hother _ Hx). split; simpl.
    + by rewrite lookup_alter_ne.
    + intros ro rr Hrun. destruct (decide (ro = next_role_id g)) as [->|];
        [|by rewrite lookup_insert_ne].
      rewrite lookup_insert_eq, Hn. split; intros [= <-]. simpl in Hrun. congruence.
  - left. by eapply Hact.
  - left. by eapply Hact.
  - by destruct (Hfin _ Completed outcome Hl).
  - by destruct (Hfin _ Failed outcome Hl).
  - by destruct (Hfin _ Canceled outcome Hl).
Qed.

Lemma next_run_mono g e : next_run g <= next_run (apply g e).1.
Proof.
  destruct (apply_cases g e) as [[_ ->]|[_ [m ->]]]; [|done]. simpl.
  assert (forall x, next_run (quieted g x) = next_run g) as Hq.
  { intros x. unfold quieted, deactivate. destruct (active_role g x); [|done].
    destruct (roles g !! _) as [rr|]; [|done]. by destruct (role_activation rr). }
  assert (forall g' cap, next_run (prune_to g' cap) = next_run g') as Hp.
  { intros g' cap. by apply (prune_loop_ind (fun x => next_run x = next_run g')). }
  destruct e; simpl; rewrite ?Hp; simpl; rewrite ?Hq; try lia;
    unfold install; destruct (roles _ !! _); simpl; by rewrite ?Hq.
Qed.

(** A terminal run is immutable: whatever events follow, it either keeps
    its exact record and its roles' exact records or has been pruned, and the
    identity of a pruned run is never given out again. *)
Theorem terminal_run_immutable es es' r rec :
  run (replay es) r = Some rec -> terminal (run_status rec) = true -> r < u64_max ->
  frozen r rec (replay es) (replay (es ++ es')).
Proof.
  intros Hr Ht Hmax.
  assert (frozen r rec (replay es) (replay (es ++ es'))
    /\ r < next_run (replay (es ++ es'))) as [? _]; [|done].
  induction es' as [|e es' [IH Hlt]] using rev_ind.
  - rewrite app_nil_r. split; [by left|]. destruct (reachable_wf es) as (Hs & _).
    destruct (st_run _ Hs _ _ Hr) as [_ [? ?]]. lia.
  - rewrite app_assoc, replay_snoc. pose proof (reachable_wf (es ++ es')) as Hg.
    set (g := replay (es ++ es')) in *. pose proof (next_run_mono g e).
    split; [|lia]. destruct (apply_cases g e) as [[Hl ->]|[_ [m ->]]]; [|done]. simpl.
    destruct IH as [[Hr' Hro]|Hn].
    + destruct (effect_kept g e r rec Hg Hl Hr' Ht) as [[H1 H2]|?]; [left|by right].
      split; [done|]. intros ro rr Hrun. by rewrite H2, Hro.
    + right. assert (forall x, nonterminal g x -> x <> r) as Hother.
      { intros x (? & ? & _) ->. congruence. }
      assert (forall g' cap, runs g' !! r = None -> runs (prune_to g' cap) !! r = None) as Hp.
      { intros g' cap Hg'. apply (prune_loop_ind (fun g => runs g !! r = None)); [done|].
        intros g0 id rec0 H0 _ _ _ _. simpl. rewrite lookup_delete_None. auto. }
      destruct Hg as (Hs & Hv & _).
      assert (forall x, runs (quieted g x) = runs g) as Hqr.
      { intros x. by destruct (quieted_spec g x Hs Hv) as (_ & _ & ? & _). }
      assert (forall x ro a, runs (install (quieted g x) x ro a) !! r = None) as Hi.
      { intros x ro a. unfold install. destruct (roles _ !! _); simpl; rewrite ?Hqr; [|done].
        by rewrite lookup_alter_None. }
      destruct e; simpl in *; try apply Hi; try (apply Hp; simpl; by rewrite Hqr, lookup_alter_None).
      * destruct Hl as (-> & _). rewrite lookup_insert_ne; [done|]. unfold next_run_id. lia.
      * by rewrite lookup_alter_None.
Qed.

Definition demo_create (r : RunId) (par : option RunId) : RunGraphEvent :=
  EvCreated r par 7 Workflow (100 + r) (lit "goal").

Definition demo : list RunGraphEvent :=
  [demo_create 1 None; EvRoleDeclared 1 1 (lit "driver") 4 (lit "codex");
   EvActivated 1 1 1; EvCompleted 1 (lit "done")].

Lemma terminal_run_immutable_witness :
  exists rec, frozen 1 rec (replay demo) (replay (demo ++ [demo_create 2 (Some 1)])).
Proof.
  eexists. eapply (terminal_run_immutable demo [demo_create 2 (Some 1)] 1); vm_compute; reflexivity.
Defined.

(** *** Bounded history *)

Lemma remove_run_size g id rec :
  runs g !! id = Some rec -> size (runs g) = S (size (runs (remove_run g id rec))).
Proof.
  intros Hid. simpl. rewrite map_size_delete_Some by eauto.
  assert (size (runs g) <> 0%nat); [|lia]. by apply (map_size_ne_0_lookup_2 _ id); eexists.
Qed.

Lemma prune_loop_done fuel cap g :
  (size (runs g) <= fuel)%nat ->
  N.of_nat (size (runs (prune_loop fuel cap g))) <= cap
  \/ prune_candidate (prune_loop fuel cap g) = None.
Proof.
  revert g. induction fuel as [|fuel IH]; intros g Hf; simpl;
    destruct (N.ltb_spec cap (N.of_nat (size (runs g)))); try (left; lia);
    destruct (prune_candidate g) as [[id rec]|] eqn:E; try (by right).
  apply prune_candidate_some in E as (Hid & _). apply IH.
  rewrite (remove_run_size _ _ _ Hid) in Hf. lia.
Qed.

(** Pruning terminates with at most [cap] runs, or with no terminal run
    left that has no retained child; it stops as soon as it is at the cap, and
    it removes only terminal runs, without touching those it keeps. *)
Theorem prune_to_spec es cap :
  let g := replay es in
  let g' := prune_to g cap in
  (N.of_nat (size (runs g')) <= cap
     \/ forall r rec, run g' r = Some rec -> terminal (run_status rec) = true ->
          children g' r <> [])
  /\ N.min cap (N.of_nat (size (runs g))) <= N.of_nat (size (runs g'))
  /\ (forall r rec, run g' r = Some rec -> run g r = Some rec)
  /\ (forall r rec, run g r = Some rec -> terminal (run_status rec) = false ->
        run g' r = Some rec)
  /\ wf g'.
Proof.
  cbn zeta. pose proof (reachable_wf es) as Hg. set (g := replay es) in *. split_and!.
  - destruct (prune_loop_done (size (runs g)) cap g) as [?|Hn]; [done|by left|right].
    intros r rec Hr Ht Hc. unfold prune_candidate in Hn. rewrite find_entry_none in Hn.
    apply Hn in Hr. simpl in Hr. rewrite Ht in Hr. by apply bool_decide_eq_false in Hr.
  - apply (prune_loop_ind (fun g' => N.min cap (N.of_nat (size (runs g)))
      <= N.of_nat (size (runs g')))); [lia|].
    intros x id rec Hx Hlt Hid _ _. rewrite (remove_run_size _ _ _ Hid) in Hlt. lia.
  - apply (prune_loop_ind (fun g' => forall r rec, run g' r = Some rec -> run g r = Some rec));
      [done|].
    intros x id rec Hx _ _ _ _ r rec' Hr. unfold run in Hr. simpl in Hr.
    apply lookup_delete_Some in Hr as [_ Hr]. by apply Hx.
  - apply (prune_loop_ind (fun g' => forall r rec, run g r = Some rec ->
      terminal (run_status rec) = false -> run g' r = Some rec)); [done|].
    intros x id rec Hx _ Hid Ht _ r rec' Hr Hnt. pose proof (Hx _ _ Hr Hnt) as Hr'.
    unfold run in *. simpl. rewrite lookup_delete_ne; [done|congruence].
  - by apply prune_to_wf.
Qed.
