(* ===== verification/Artifact.v ===== *)
(** * The artifact ledger

    [uniterm-core/src/artifact.rs]: observed artifacts with their ownership and
    path indexes. [ArtifactLedger] is the state, [apply] the event handler;
    [make_room] and [remove_from_projection] keep it bounded. A [HashMap] is a
    [gmap]; its order never shows. *)

From S2P Require Import Prelude.

Definition ARTIFACT_LEDGER_CAP : N := 4096.
Definition ARTIFACT_PATH_MAX_BYTES : N := 4096.

Inductive ArtifactKind : Set :=
| File | Plan | Patch | Report | TestEvidence | Findings.

Definition ArtifactKind_label (k : ArtifactKind) : str :=
  match k with
  | File => lit "file" | Plan => lit "plan" | Patch => lit "patch" | Report => lit "report"
  | TestEvidence => lit "test-evidence" | Findings => lit "findings"
  end.

Inductive ArtifactStatus : Set := Available | Missing | Superseded.

#[global] Instance ArtifactStatus_eq_dec : EqDecision ArtifactStatus.
Proof. solve_decision. Defined.

Definition ArtifactStatus_label (s : ArtifactStatus) : str :=
  match s with
  | Available => lit "available" | Missing => lit "missing" | Superseded => lit "superseded"
  end.

Record ArtifactRecord : Set := {
  a_id : N; a_project : N; a_run : N; a_role : N; a_kind : ArtifactKind; a_path : str;
  a_digest : str; a_size : N; a_status : ArtifactStatus; a_supersedes : option N }.

Inductive ArtifactEvent : Set :=
| Observed (artifact project producer_run producer_role : N) (kind : ArtifactKind)
    (path digest : str) (size : N)
| Refreshed (artifact : N) (digest : str) (size : N)
| MissingEv (artifact : N).

Record ArtifactLedger : Set := {
  records : gmap N ArtifactRecord;
  by_project : gmap N (list N);
  by_run : gmap N (list N);
  by_role : gmap N (list N);
  current_path : gmap (N * str) N;
  next_artifact : N }.

Definition new : ArtifactLedger := {|
  records := ∅; by_project := ∅; by_run := ∅; by_role := ∅; current_path := ∅;
  next_artifact := 1 |}.

Definition next_artifact_id (l : ArtifactLedger) : N := next_artifact l.
Definition artifact (l : ArtifactLedger) (id : N) : option ArtifactRecord := records l !! id.
Definition artifacts (l : ArtifactLedger) : list ArtifactRecord := values (records l).
Definition for_project (l : ArtifactLedger) (p : N) : list N := posting (by_project l) p.
Definition for_run (l : ArtifactLedger) (r : N) : list N := posting (by_run l) r.
Definition for_role (l : ArtifactLedger) (r : N) : list N := posting (by_role l) r.
Definition current_at (l : ArtifactLedger) (p : N) (path : str) : option N :=
  current_path l !! (p, path).

(** ** Validation *)

Definition slash : char := 47.

(** [path.split('/')] *)
Fixpoint split_slash (s : str) : list str :=
  match s with
  | [] => [[]]
  | c :: s' =>
      if c =? slash then [] :: split_slash s'
      else match split_slash s' with
           | x :: xs => (c :: x) :: xs
           | [] => [[c]]
           end
  end.

Definition bad_component (c : str) : bool :=
  bool_decide (c = []) || bool_decide (c = lit ".") || bool_decide (c = lit "..").

Definition starts_with_slash (s : str) : bool :=
  match s with c :: _ => c =? slash | [] => false end.

Definition is_hex (b : N) : bool := ((48 <=? b) && (b <=? 57)) || ((97 <=? b) && (b <=? 102)).

Definition validate_digest (d : str) : result unit str :=
  if negb (len8 d =? 64) || negb (forallb is_hex (utf8 d)) then
    Err (lit "Artifact digest must be lowercase SHA-256 hex")
  else Ok tt.

Definition validate_observation (id project run role : N) (path digest : str) (size : N)
    : result unit str :=
  if (id =? 0) || (id =? u64_max) || (project =? 0) || (run =? 0) || (role =? 0) then
    Err (lit "Artifact ownership identities must be nonzero")
  else if bool_decide (path = []) || (ARTIFACT_PATH_MAX_BYTES <? len8 path) then
    Err (lit "Artifact path must contain between 1 and " ++ dec ARTIFACT_PATH_MAX_BYTES
         ++ lit " bytes")
  else if starts_with_slash path || existsb bad_component (split_slash path)
          || existsb is_control path then
    Err (lit "Artifact path must be a normalized Project-relative path")
  else match validate_digest digest with
  | Err e => Err e
  | Ok _ => if size =? 0 then Err (lit "available Artifact size must be nonzero") else Ok tt
  end.

(** ** Room *)

(** [if let Some(ids) = index.get_mut(&k) { ids.retain(|x| x != id) }] *)
Definition remove_id (m : gmap N (list N)) (k id : N) : gmap N (list N) :=
  alter (filter (fun x => x <> id)) k m.

Definition remove_from_projection (l : ArtifactLedger) (id : N) : ArtifactLedger :=
  match records l !! id with
  | None => l
  | Some r =>
      let key := (a_project r, a_path r) in
      {| records := delete id (records l);
         by_project := remove_id (by_project l) (a_project r) id;
         by_run := remove_id (by_run l) (a_run r) id;
         by_role := remove_id (by_role l) (a_role r) id;
         current_path :=
           if bool_decide (current_path l !! key = Some id) then delete key (current_path l)
           else current_path l;
         next_artifact := next_artifact l |}
  end.

Definition not_available (e : N * ArtifactRecord) : bool :=
  bool_decide (a_status e.2 <> Available).

Definition make_room (l : ArtifactLedger) (replacement : option N) : result ArtifactLedger str :=
  if N.of_nat (size (records l)) <? ARTIFACT_LEDGER_CAP then Ok l
  else
    match (match find_entry not_available (records l) with
           | Some (id, _) => Some id
           | None => replacement
           end) with
    | None => Err (lit "Artifact ledger reached its " ++ dec ARTIFACT_LEDGER_CAP
                   ++ lit " available-record cap")
    | Some id => Ok (remove_from_projection l id)
    end.

(** ** Events *)

Definition set_facts (digest : str) (size : N) (s : ArtifactStatus) (r : ArtifactRecord)
    : ArtifactRecord :=
  {| a_id := a_id r; a_project := a_project r; a_run := a_run r; a_role := a_role r;
     a_kind := a_kind r; a_path := a_path r; a_digest := digest; a_size := size;
     a_status := s; a_supersedes := a_supersedes r |}.

Definition set_status (s : ArtifactStatus) (r : ArtifactRecord) : ArtifactRecord :=
  set_facts (a_digest r) (a_size r) s r.

Definition with_records (l : ArtifactLedger) (rs : gmap N ArtifactRecord) : ArtifactLedger :=
  {| records := rs; by_project := by_project l; by_run := by_run l; by_role := by_role l;
     current_path := current_path l; next_artifact := next_artifact l |}.

Definition observe (l : ArtifactLedger) (r : ArtifactRecord) : ArtifactLedger :=
  let id := a_id r in
  let rs := match a_supersedes r with
    | Some previous => alter (set_status Superseded) previous (records l)
    | None => records l
    end in
  {| records := <[id := r]> rs;
     by_project := entry_push (by_project l) (a_project r) id;
     by_run := entry_push (by_run l) (a_run r) id;
     by_role := entry_push (by_role l) (a_role r) id;
     current_path := <[(a_project r, a_path r) := id]> (current_path l);
     next_artifact := sadd u64_max id 1 |}.

Definition apply (l : ArtifactLedger) (ev : ArtifactEvent) : ArtifactLedger * result unit str :=
  match ev with
  | Observed id project run role kind path digest size =>
      match validate_observation id project run role path digest size with
      | Err e => (l, Err e)
      | Ok _ =>
      if bool_decide (is_Some (records l !! id)) then
        (l, Err (lit "duplicate Artifact " ++ dec id))
      else if id <? next_artifact l then
        (l, Err (lit "Artifact " ++ dec id ++ lit " is older than the next identity "
                 ++ dec (next_artifact l)))
      else
        let supersedes := current_path l !! (project, path) in
        match make_room l supersedes with
        | Err e => (l, Err e)
        | Ok l1 =>
            (observe l1 {| a_id := id; a_project := project; a_run := run; a_role := role;
               a_kind := kind; a_path := path; a_digest := digest; a_size := size;
               a_status := Available; a_supersedes := supersedes |}, Ok tt)
        end
      end
  | Refreshed id digest size =>
      match validate_digest digest with
      | Err e => (l, Err e)
      | Ok _ =>
      if size =? 0 then (l, Err (lit "available Artifact size must be nonzero"))
      else match records l !! id with
      | None => (l, Err (lit "unknown Artifact " ++ dec id))
      | Some r =>
          if bool_decide (a_status r = Superseded) then
            (l, Err (lit "cannot refresh a superseded Artifact"))
          else (with_records l (<[id := set_facts digest size Available r]> (records l)), Ok tt)
      end
      end
  | MissingEv id =>
      match records l !! id with
      | None => (l, Err (lit "unknown Artifact " ++ dec id))
      | Some r =>
          if bool_decide (a_status r = Superseded) then
            (l, Err (lit "cannot mark a superseded Artifact missing"))
          else (with_records l (<[id := set_status Missing r]> (records l)), Ok tt)
      end
  end.

Definition replay (evs : list ArtifactEvent) : ArtifactLedger :=
  foldl (fun l ev => (apply l ev).1) new evs.

(** ** The ownership indexes *)

Section Indexed.
Context (key : ArtifactRecord -> N).

(** [m] lists, for each key, the ids of its records in increasing order. *)
Definition indexed (m : gmap N (list N)) (rs : gmap N ArtifactRecord) : Prop :=
  forall k, index_of (fun id => exists r, rs !! id = Some r /\ key r = k) (posting m k).

Lemma posting_remove_id m k id j :
  posting (remove_id m k id) j =
    if decide (j = k) then filter (fun x => x <> id) (posting m k) else posting m j.
Proof.
  unfold remove_id, posting. destruct (decide (j = k)) as [->|Hd].
  - rewrite lookup_alter_eq. by destruct (m !! k).
  - by rewrite lookup_alter_ne.
Qed.

Lemma indexed_push m rs r :
  indexed m rs -> rs !! a_id r = None -> (forall id r', rs !! id = Some r' -> id < a_id r) ->
  indexed (entry_push m (key r) (a_id r)) (<[a_id r := r]> rs).
Proof.
  intros H Hn Hlt k. unfold entry_push. rewrite posting_insert.
  assert (forall x, (exists r', <[a_id r:=r]> rs !! x = Some r' /\ key r' = k) <->
    (exists r', rs !! x = Some r' /\ key r' = k) \/ (x = a_id r /\ key r = k)) as Hiff.
  { intros x. destruct (decide (x = a_id r)) as [->|].
    - rewrite lookup_insert_eq, Hn. naive_solver.
    - rewrite lookup_insert_ne by done. naive_solver. }
  destruct (decide (k = key r)) as [->|Hk].
  - eapply index_of_iff; [|apply index_of_push; [apply H|]].
    + intros x. simpl. rewrite Hiff. naive_solver.
    + intros x (r' & Hr' & _). by eapply Hlt.
  - eapply index_of_iff; [|apply H]. intros x. rewrite Hiff. naive_solver.
Qed.

Lemma indexed_remove m rs id r :
  indexed m rs -> rs !! id = Some r -> indexed (remove_id m (key r) id) (delete id rs).
Proof.
  intros H Hr k. rewrite posting_remove_id.
  assert (forall x, (exists r', delete id rs !! x = Some r' /\ key r' = k) <->
    (exists r', rs !! x = Some r' /\ key r' = k) /\ x <> id) as Hiff.
  { intros x. destruct (decide (x = id)) as [->|].
    - rewrite lookup_delete_eq. naive_solver.
    - rewrite lookup_delete_ne by done. naive_solver. }
  destruct (decide (k = key r)) as [->|Hk].
  - eapply index_of_iff; [|apply index_of_drop, H]. intros x. simpl. by rewrite Hiff.
  - eapply index_of_iff; [|apply H]. intros x. rewrite Hiff. split; [|tauto].
    intros Hx. split; [done|]. intros ->. destruct Hx as (? & ? & ?). congruence.
Qed.

(** Records whose key does not change keep their index. *)
Lemma indexed_ext m rs rs' :
  (forall id, key <$> rs' !! id = key <$> rs !! id) -> indexed m rs -> indexed m rs'.
Proof.
  intros Heq H k. eapply index_of_iff; [|apply H]. intros id. specialize (Heq id).
  split; intros (r & Hr & Hk); rewrite Hr in Heq; simpl in Heq.
  - destruct (rs' !! id) as [r'|]; [|done]. simpl in Heq. exists r'. split; congruence.
  - destruct (rs !! id) as [r'|]; [|done]. simpl in Heq. exists r'. split; congruence.
Qed.
End Indexed.

(** ** The invariant *)

Definition valid_record (r : ArtifactRecord) : Prop :=
  validate_observation (a_id r) (a_project r) (a_run r) (a_role r) (a_path r) (a_digest r)
    (a_size r) = Ok tt.

(** The record of a path that no later observation replaced. *)
Definition is_current (l : ArtifactLedger) (p : N) (path : str) (id : N) : Prop :=
  exists r, records l !! id = Some r /\ a_project r = p /\ a_path r = path
    /\ a_status r <> Superseded.

Record wf (l : ArtifactLedger) : Prop := {
  w_next : 1 <= next_artifact l <= u64_max;
  w_id id r : records l !! id = Some r -> a_id r = id /\ 1 <= id < next_artifact l;
  w_cap : N.of_nat (size (records l)) <= ARTIFACT_LEDGER_CAP;
  w_project : indexed a_project (by_project l) (records l);
  w_run : indexed a_run (by_run l) (records l);
  w_role : indexed a_role (by_role l) (records l);
  w_current p path id : current_path l !! (p, path) = Some id <-> is_current l p path id;
  w_valid id r : records l !! id = Some r -> valid_record r;
  w_supersedes id r q : records l !! id = Some r -> a_supersedes r = Some q ->
    q < id /\ forall r', records l !! q = Some r' ->
      a_status r' = Superseded /\ a_project r' = a_project r /\ a_path r' = a_path r }.

Lemma remove_wf l id r :
  wf l -> records l !! id = Some r -> wf (remove_from_projection l id).
Proof.
  intros [] Hr. unfold remove_from_projection. rewrite Hr.
  constructor; simpl; try done.
  - intros i ri [_ Hi]%lookup_delete_Some. by apply w_id0.
  - pose proof (map_size_delete id (records l)) as Hs. rewrite Hr in Hs. simpl in Hs.
    rewrite Hs. pose proof (Nat.le_pred_l (size (records l))). lia.
  - by apply indexed_remove.
  - by apply indexed_remove.
  - by apply indexed_remove.
  - intros p path i. unfold is_current. simpl.
    assert ((if bool_decide (current_path l !! (a_project r, a_path r) = Some id)
        then delete (a_project r, a_path r) (current_path l) else current_path l) !! (p, path)
      = Some i <-> current_path l !! (p, path) = Some i /\ i <> id) as ->.
    { case_bool_decide as Hc.
      - destruct (decide ((p, path) = (a_project r, a_path r))) as [E|Hd].
        + rewrite E, lookup_delete_eq, Hc. split; [done|]. intros [[= ->] ?]. done.
        + rewrite lookup_delete_ne by congruence. split; [|tauto]. intros Hi. split; [done|].
          intros ->. apply w_current0 in Hi as (ri & ? & ? & ? & _). simplify_eq.
      - split; [|tauto]. intros Hi. split; [done|]. intros ->.
        pose proof Hi as (ri & Hri & Hp & Hq & _)%w_current0. by simplify_eq. }
    rewrite w_current0. unfold is_current. split.
    + intros [(ri & Hi & Hrest) Hd]. exists ri. by rewrite lookup_delete_ne.
    + intros (ri & [Hd Hi]%lookup_delete_Some & Hrest). split; [by exists ri|done].
  - intros i ri [_ Hi]%lookup_delete_Some. by eapply w_valid0.
  - intros i ri q [_ Hi]%lookup_delete_Some Hq.
    destruct (w_supersedes0 _ _ _ Hi Hq) as [? H]. split; [done|].
    intros r' [_ Hr']%lookup_delete_Some. by apply H.
Qed.

Lemma find_not_available l id r :
  find_entry not_available (records l) = Some (id, r) ->
  records l !! id = Some r /\ a_status r <> Available.
Proof.
  intros [Hr Hf]%find_entry_some. split; [done|]. by apply bool_decide_eq_true in Hf.
Qed.

(** Room is made by removing at most one record: the oldest one that is not
    available, or else the one to be replaced. *)
Lemma make_room_spec l p path l1 :
  wf l -> make_room l (current_path l !! (p, path)) = Ok l1 ->
  wf l1 /\ N.of_nat (size (records l1)) < ARTIFACT_LEDGER_CAP /\ next_artifact l1 = next_artifact l
  /\ (forall id r, records l1 !! id = Some r -> records l !! id = Some r)
  /\ (l1 = l \/ exists id r, l1 = remove_from_projection l id /\ records l !! id = Some r).
Proof.
  intros Hl. unfold make_room.
  destruct (N.ltb_spec (N.of_nat (size (records l))) ARTIFACT_LEDGER_CAP) as [Hlt|Hge].
  { intros [= <-]. split_and!; auto. }
  destruct (match find_entry not_available (records l) with Some _ => _ | None => _ end)
    as [id|] eqn:Hid; [|done].
  intros [= <-]. assert (exists r, records l !! id = Some r) as [r Hr].
  { destruct (find_entry _ _) as [[i x]|] eqn:E.
    - injection Hid as ->. apply find_not_available in E as [? _]. eauto.
    - apply (w_current _ Hl) in Hid as (r & ? & _). eauto. }
  split; [by eapply remove_wf|]. unfold remove_from_projection. rewrite Hr. simpl.
  split.
  - pose proof (w_cap _ Hl). pose proof (map_size_delete id (records l)) as Hs.
    rewrite Hr in Hs. simpl in Hs. rewrite Hs.
    assert (size (records l) <> 0%nat) by (apply (map_size_ne_0_lookup_2 _ id); by eexists). lia.
  - split; [done|]. split; [by intros i x [_ ?]%lookup_delete_Some|].
    right. exists id, r. rewrite Hr. done.
Qed.

Lemma lookup_alter_status (rs : gmap N ArtifactRecord) previous id r :
  alter (set_status Superseded) previous rs !! id = Some r ->
  exists r0, rs !! id = Some r0 /\
    r = (if decide (id = previous) then set_status Superseded r0 else r0).
Proof.
  rewrite lookup_alter_Some. destruct (decide (id = previous)) as [->|].
  - intros [(_ & r0 & ? & ->)|[? _]]; [eauto|done].
  - intros [(-> & _)|[_ ?]]; [done|eauto].
Qed.

Lemma observe_wf l r p path :
  wf l -> p = a_project r -> path = a_path r ->
  N.of_nat (size (records l)) < ARTIFACT_LEDGER_CAP ->
  valid_record r -> a_status r = Available -> next_artifact l <= a_id r < u64_max ->
  (forall id, current_path l !! (p, path) = Some id -> a_supersedes r = Some id) ->
  (forall q, a_supersedes r = Some q -> q < a_id r /\
     forall r', records l !! q = Some r' -> a_project r' = p /\ a_path r' = path) ->
  wf (observe l r).
Proof.
  intros [] -> -> Hsize Hval Hav Hnext Hcur Hsup. unfold observe.
  set (rs := match a_supersedes r with Some _ => _ | None => _ end).
  assert (forall id x, rs !! id = Some x -> exists x0, records l !! id = Some x0 /\
    x = (if decide (a_supersedes r = Some id) then set_status Superseded x0 else x0)) as Hback.
  { intros id x Hx. unfold rs in Hx. destruct (a_supersedes r) as [q|]; [|eauto].
    apply lookup_alter_status in Hx as (x0 & ? & ->). exists x0. split; [done|].
    destruct (decide (id = q)) as [->|]; [by rewrite decide_True|].
    rewrite decide_False; [done|congruence]. }
  assert (forall id x0, records l !! id = Some x0 ->
    rs !! id = Some (if decide (a_supersedes r = Some id) then set_status Superseded x0 else x0))
    as Hfwd.
  { intros id x0 Hx. unfold rs. destruct (a_supersedes r) as [q|]; [|done].
    destruct (decide (id = q)) as [->|].
    - rewrite lookup_alter_eq, Hx, decide_True by done. done.
    - rewrite lookup_alter_ne, Hx, decide_False by congruence. done. }
  assert (rs !! a_id r = None) as Hnone.
  { destruct (rs !! a_id r) eqn:E; [|done]. apply Hback in E as (x0 & E & _).
    apply w_id0 in E as [_ ?]. lia. }
  assert (forall id x, rs !! id = Some x -> id < a_id r) as Hlt.
  { intros id x Hx. apply Hback in Hx as (x0 & Hx & _). apply w_id0 in Hx as [_ ?]. lia. }
  assert (forall (f : ArtifactRecord -> N), (forall s x, f (set_status s x) = f x) ->
    forall id, f <$> rs !! id = f <$> records l !! id) as Hext.
  { intros f Hf id. destruct (records l !! id) as [x0|] eqn:E.
    - rewrite (Hfwd _ _ E). simpl. f_equal. by destruct (decide _).
    - destruct (rs !! id) eqn:E'; [|done]. apply Hback in E' as (? & ? & _). congruence. }
  assert (size rs = size (records l)) as Hsz.
  { unfold rs. destruct (a_supersedes r); [|done]. rewrite <- !size_dom. by rewrite dom_alter. }
  constructor; simpl.
  - unfold sadd. lia.
  - intros id x [[<- <-]|[_ Hx]]%lookup_insert_Some; [split; [done|unfold sadd; lia]|].
    apply Hback in Hx as (x0 & Hx & ->). pose proof (w_id0 _ _ Hx) as [? ?].
    unfold sadd. split; [by destruct (decide _)|lia].
  - rewrite map_size_insert_None by done. rewrite Hsz. lia.
  - apply indexed_push; [|done|done]. by eapply indexed_ext; [apply Hext|].
  - apply indexed_push; [|done|done]. by eapply indexed_ext; [apply Hext|].
  - apply indexed_push; [|done|done]. by eapply indexed_ext; [apply Hext|].
  - intros p path id. unfold is_current. simpl.
    destruct (decide (id = a_id r)) as [->|Hd].
    + rewrite lookup_insert_eq. split.
      * intros [[[= <- <-] _]|[_ Hc]]%lookup_insert_Some.
        -- exists r. rewrite Hav. done.
        -- apply w_current0 in Hc as (x & Hx & _). apply w_id0 in Hx as [_ ?]. lia.
      * intros (x & [= <-] & <- & <- & _). by rewrite lookup_insert_eq.
    + rewrite (lookup_insert_ne rs) by done. split.
      * intros [[_ E]|[Hp Hc]]%lookup_insert_Some; [congruence|].
        pose proof Hc as (x & Hx & Hxp & Hxq & Hxs)%w_current0. exists x.
        rewrite (Hfwd _ _ Hx). rewrite decide_False; [done|].
        intros Hs. destruct (Hsup _ Hs) as [_ Hsame]. destruct (Hsame _ Hx). congruence.
      * intros (x & Hx & Hxp & Hxq & Hxs). apply Hback in Hx as (x0 & Hx & ->).
        destruct (decide (a_supersedes r = Some id)) as [Hs|Hs]; [done|].
        assert (current_path l !! (p, path) = Some id) as Hc.
        { apply w_current0. by exists x0. }
        rewrite lookup_insert_ne; [done|]. intros [= <- <-]. by apply Hcur in Hc.
  - intros id x [[<- <-]|[_ Hx]]%lookup_insert_Some; [done|].
    apply Hback in Hx as (x0 & Hx & ->). apply w_valid0 in Hx. by destruct (decide _).
  - intros id x q [[<- <-]|[_ Hx]]%lookup_insert_Some Hq.
    + destruct (Hsup _ Hq) as [? Hsame]. split; [done|]. intros x.
      rewrite lookup_insert_ne by lia. intros Hx. apply Hback in Hx as (x0 & Hx & ->).
      rewrite decide_True by done. by apply Hsame in Hx.
    + apply Hback in Hx as (x0 & Hx & ->).
      assert (a_supersedes x0 = Some q) as Hq0 by (by destruct (decide _)).
      destruct (w_supersedes0 _ _ _ Hx Hq0) as [Hlq Hsame]. split; [done|]. intros x'.
      pose proof (w_id0 _ _ Hx) as [_ ?]. rewrite lookup_insert_ne by lia. intros Hx'.
      apply Hback in Hx' as (x0' & Hx' & ->). destruct (Hsame _ Hx') as (? & ? & ?).
      destruct (decide (a_supersedes r = Some q)), (decide (a_supersedes r = Some id)); done.
Qed.

(** An identity of the source is a [u64]. *)
Definition typed (ev : ArtifactEvent) : Prop :=
  match ev with Observed id _ _ _ _ _ _ _ => id <= u64_max | _ => True end.

Lemma validate_bounds id p r ro path digest size :
  validate_observation id p r ro path digest size = Ok tt -> id <= u64_max ->
  1 <= id < u64_max.
Proof.
  unfold validate_observation. intros H Hty.
  destruct (N.eqb_spec id 0); [done|]. destruct (N.eqb_spec id u64_max); [done|]. lia.
Qed.

Lemma facts_wf l id r d sz s :
  wf l -> records l !! id = Some r -> s <> Superseded -> a_status r <> Superseded ->
  validate_digest d = Ok tt -> sz <> 0 ->
  wf (with_records l (<[id := set_facts d sz s r]> (records l))).
Proof.
  intros [] Hr Hs Hrs Hd Hsz.
  assert (forall (f : ArtifactRecord -> N), f (set_facts d sz s r) = f r -> forall i,
    f <$> <[id := set_facts d sz s r]> (records l) !! i = f <$> records l !! i) as Hext.
  { intros f Hf i. destruct (decide (i = id)) as [->|].
    - by rewrite lookup_insert_eq, Hr; simpl; rewrite Hf.
    - by rewrite lookup_insert_ne. }
  constructor; simpl; try done.
  - intros i x [[<- <-]|[_ Hx]]%lookup_insert_Some; [exact (w_id0 _ _ Hr)|by apply w_id0].
  - by rewrite map_size_insert_Some by by eexists.
  - by eapply indexed_ext; [apply Hext|].
  - by eapply indexed_ext; [apply Hext|].
  - by eapply indexed_ext; [apply Hext|].
  - intros p path i. rewrite w_current0. unfold is_current. simpl.
    destruct (decide (i = id)) as [->|]; [|by rewrite lookup_insert_ne].
    rewrite lookup_insert_eq, Hr. split.
    + intros (x & [= <-] & ? & ? & _). by eexists.
    + intros (x & [= <-] & ? & ? & _). by exists r.
  - intros i x [[<- <-]|[_ Hx]]%lookup_insert_Some; [|by eapply w_valid0].
    pose proof (w_valid0 _ _ Hr) as Hv. unfold valid_record, validate_observation in *. simpl.
    destruct (_ || _ || _ || _ || _); [done|]. destruct (_ || _); [done|].
    destruct (_ || _ || _); [done|]. rewrite Hd. by destruct (N.eqb_spec sz 0).
  - intros i x q [[<- <-]|[_ Hx]]%lookup_insert_Some Hq.
    + destruct (w_supersedes0 _ _ _ Hr Hq) as [? Hsame]. split; [done|].
      intros x. rewrite lookup_insert_ne by lia. apply Hsame.
    + destruct (w_supersedes0 _ _ _ Hx Hq) as [? Hsame]. split; [done|].
      intros x' [[<- <-]|[_ Hx']]%lookup_insert_Some; [|by apply Hsame].
      by destruct (Hsame _ Hr).
Qed.

(** The state after an accepted event. *)
Lemma ledger_cases l ev :
  wf l -> typed ev ->
  wf (apply l ev).1 /\ (is_ok (apply l ev).2 = false -> (apply l ev).1 = l).
Proof.
  intros Hl Hty. destruct ev as [id p run ro k path d sz|id d sz|id]; cbn [apply].
  - destruct (validate_observation _ _ _ _ _ _ _) as [[]|e] eqn:Hv; [|done].
    case_bool_decide as Hdup; [done|]. apply eq_None_not_Some in Hdup.
    destruct (N.ltb_spec id (next_artifact l)) as [|Hnext]; [done|].
    destruct (make_room l _) as [l1|e] eqn:Hroom; [|done]. simpl. split; [|done].
    destruct (make_room_spec l p path l1 Hl Hroom) as (Hl1 & Hsz & Hn & Hsub & Hcase).
    pose proof (validate_bounds _ _ _ _ _ _ _ Hv Hty).
    apply observe_wf with p path; try done; cbn [a_id a_supersedes].
    + rewrite Hn. lia.
    + intros i Hi. destruct Hcase as [->|(j & x & -> & Hx)]; [done|].
      unfold remove_from_projection in Hi. rewrite Hx in Hi. simpl in Hi.
      case_bool_decide; [|done]. by apply lookup_delete_Some in Hi as [_ ?].
    + intros q Hq. apply (w_current _ Hl) in Hq as (x & Hx & Hxp & Hxq & _).
      split; [apply (w_id _ Hl) in Hx as [_ ?]; lia|]. intros r' Hr'. apply Hsub in Hr'.
      simplify_eq. done.
  - destruct (validate_digest d) as [[]|e] eqn:Hd; [|done].
    destruct (N.eqb_spec sz 0); [done|]. destruct (records l !! id) as [r|] eqn:Hr; [|done].
    case_bool_decide; [done|]. simpl. split; [|done]. by apply facts_wf.
  - destruct (records l !! id) as [r|] eqn:Hr; [|done].
    case_bool_decide as Hs; [done|]. simpl. split; [|done]. pose proof (w_valid _ Hl _ _ Hr) as Hv.
    unfold valid_record, validate_observation in Hv.
    destruct (_ || _ || _ || _ || _); [done|]. destruct (_ || _); [done|].
    destruct (_ || _ || _); [done|]. destruct (validate_digest (a_digest r)) as [[]|] eqn:Hd; [|done].
    destruct (N.eqb_spec (a_size r) 0); [done|]. by apply facts_wf.
Qed.

Lemma new_ledger_wf : wf new.
Proof.
  assert (forall id r, records new !! id <> Some r) as Hn by exact lookup_empty_Some.
  assert (forall f : ArtifactRecord -> N, indexed f ∅ (records new)) as Hi.
  { intros f k. apply index_of_nil. by intros x (r & ?%Hn & _). }
  constructor; try apply Hi; try (by intros ? ? ?%Hn); try done.
  - intros p path id. split; [intros H; exfalso; exact (lookup_empty_Some (p, path) id H)|].
    by intros (r & ?%Hn & _).
Qed.

Lemma replay_wf evs : Forall typed evs -> wf (replay evs).
Proof.
  induction evs as [|ev evs IH] using rev_ind; intros H; [apply new_ledger_wf|].
  unfold replay. rewrite foldl_snoc. apply Forall_app in H as [H Hev].
  apply ledger_cases; [by apply IH|]. by apply Forall_singleton.
Qed.

#[export] Hint Resolve replay_wf : uniterm.

(** ** Properties *)

(** A path that stays inside its Project. *)
Definition safe_path (path : str) : Prop :=
  len8 path <= ARTIFACT_PATH_MAX_BYTES /\ Forall (fun c => is_control c = false) path
  /\ forall c, c ∈ split_slash path -> c <> [] /\ c <> lit "." /\ c <> lit "..".

Lemma valid_safe r : valid_record r -> safe_path (a_path r).
Proof.
  unfold valid_record, validate_observation, safe_path.
  destruct (_ || _ || _ || _ || _); [done|].
  destruct (bool_decide (a_path r = []) || _) eqn:H1; [done|].
  destruct (starts_with_slash _ || _ || _) eqn:H2; [done|]. intros _.
  apply orb_false_iff in H1 as [_ H1]. apply N.ltb_ge in H1.
  apply orb_false_iff in H2 as [H2 H3]. apply orb_false_iff in H2 as [_ H2].
  split_and!; [done| |].
  - apply Forall_forall. intros c Hc. apply not_true_is_false. intros Ht.
    apply not_true_iff_false in H3. apply H3, existsb_exists. exists c.
    split; [by apply list_elem_of_In|done].
  - intros c Hc. assert (bad_component c = false) as Hb.
    { apply not_true_is_false. intros Ht. apply not_true_iff_false in H2. apply H2, existsb_exists.
      exists c. split; [by apply list_elem_of_In|done]. }
    unfold bad_component in Hb. rewrite !orb_false_iff, !bool_decide_eq_false in Hb. tauto.
Qed.

(** C26: replaying any observations, refreshes and disappearances keeps the
    ledger bounded and its indexes exact: each ownership list holds exactly its
    records in identity order, a path's current identity is the one record there
    that is not superseded, superseded records stay behind their successor, and
    every recorded path stays inside its Project. *)
Theorem ledger_invariant evs :
  Forall typed evs ->
  let l := replay evs in
  N.of_nat (size (records l)) <= ARTIFACT_LEDGER_CAP
  /\ (forall p, index_of (fun id => exists r, artifact l id = Some r /\ a_project r = p) (for_project l p))
  /\ (forall p, index_of (fun id => exists r, artifact l id = Some r /\ a_run r = p) (for_run l p))
  /\ (forall p, index_of (fun id => exists r, artifact l id = Some r /\ a_role r = p) (for_role l p))
  /\ (forall p path id, current_at l p path = Some id <-> is_current l p path id)
  /\ (forall id r, artifact l id = Some r -> a_id r = id /\ id < next_artifact_id l
        /\ safe_path (a_path r)
        /\ forall q r', a_supersedes r = Some q -> artifact l q = Some r' ->
             q < id /\ a_status r' = Superseded /\ a_path r' = a_path r).
Proof.
  intros Hev. destruct (replay_wf evs Hev). cbv zeta. set (l := replay evs) in *.
  split_and!; try done. intros id r Hr. destruct (w_id0 _ _ Hr) as [? [_ ?]].
  split_and!; [done|done|by eapply valid_safe, w_valid0|].
  intros q r' Hq Hr'. destruct (w_supersedes0 _ _ _ Hr Hq) as [? Hsame]. by destruct (Hsame _ Hr') as (? & ? & ?).
Qed.

Definition demo_observed (id : N) : ArtifactEvent :=
  Observed id 1 2 3 Report (lit "out/report.md")
    (lit "0123456789abcdef0123456789abcdef0123456789abcdef0123456789abcdef") 10.

Lemma ledger_invariant_witness :
  N.of_nat (size (records (replay [demo_observed 1; demo_observed 4]))) <= ARTIFACT_LEDGER_CAP.
Proof.
  refine (proj1 (ledger_invariant [demo_observed 1; demo_observed 4] _)).
  repeat constructor; vm_compute; discriminate.
Defined.

(** A rejected event changes nothing. An accepted observation becomes the
    available, current record of its path with the next identity behind it; the
    record it replaces is superseded or was removed for room, and no record but
    at most one is lost. *)
Theorem observation_spec evs id p run ro kind path digest sz :
  Forall typed evs -> id <= u64_max ->
  let l := replay evs in
  let '(l', res) := apply l (Observed id p run ro kind path digest sz) in
  (is_ok res = false -> l' = l)
  /\ (is_ok res = true ->
      validate_observation id p run ro path digest sz = Ok tt /\ next_artifact l <= id
      /\ next_artifact l' = id + 1
      /\ current_at l' p path = Some id
      /\ artifact l' id = Some {| a_id := id; a_project := p; a_run := run; a_role := ro;
           a_kind := kind; a_path := path; a_digest := digest; a_size := sz;
           a_status := Available; a_supersedes := current_at l p path |}
      /\ exists gone, forall i, i <> id -> gone <> Some i ->
           artifact l' i = (if decide (current_at l p path = Some i)
                            then set_status Superseded <$> artifact l i else artifact l i)).
Proof.
  intros Hev Hty. cbv zeta. pose proof (replay_wf evs Hev) as Hl. set (l := replay evs) in *.
  destruct (ledger_cases l (Observed id p run ro kind path digest sz) Hl Hty) as [Hwf Herr].
  destruct (apply l _) as [l' res] eqn:E. simpl in Hwf, Herr. split; [done|]. intros Hok.
  cbn [apply] in E. destruct (validate_observation _ _ _ _ _ _ _) as [[]|e] eqn:Hv;
    [|by injection E as <- <-].
  case_bool_decide; [by injection E as <- <-|].
  destruct (N.ltb_spec id (next_artifact l)); [by injection E as <- <-|].
  destruct (make_room l _) as [l1|e] eqn:Hroom; [|by injection E as <- <-].
  injection E as <- <-. pose proof (validate_bounds _ _ _ _ _ _ _ Hv Hty).
  destruct (make_room_spec l p path l1 Hl Hroom) as (_ & _ & _ & _ & Hcase).
  unfold current_at, artifact. simpl. rewrite !lookup_insert_eq.
  split_and!; try done; [unfold sadd; lia|].
  assert (forall i, i <> id ->
    (<[id := {| a_id := id; a_project := p; a_run := run; a_role := ro; a_kind := kind;
        a_path := path; a_digest := digest; a_size := sz; a_status := Available;
        a_supersedes := current_path l !! (p, path) |}]>
      match current_path l !! (p, path) with
      | Some previous => alter (set_status Superseded) previous (records l1)
      | None => records l1 end) !! i =
    (if decide (current_path l !! (p, path) = Some i) then set_status Superseded <$> records l1 !! i
     else records l1 !! i)) as Hothers.
  { intros i Hi. rewrite lookup_insert_ne by done.
    destruct (current_path l !! (p, path)) as [q|]; [|done]. destruct (decide (Some q = Some i)) as [[= ->]|Hq].
    - by rewrite lookup_alter_eq.
    - rewrite lookup_alter_ne; [done|congruence]. }
  destruct Hcase as [->|(j & x & -> & Hx)].
  - exists None. intros i Hi _. by apply Hothers.
  - exists (Some j). intros i Hi Hj. rewrite Hothers by done. unfold remove_from_projection.
    rewrite Hx. simpl. rewrite lookup_delete_ne by congruence. done.
Qed.

Lemma observation_spec_witness :
  current_at (apply (replay [demo_observed 1]) (demo_observed 4)).1 1 (lit "out/report.md") = Some 4.
Proof.
  pose proof (observation_spec [demo_observed 1] 4 1 2 3 Report (lit "out/report.md")
    (lit "0123456789abcdef0123456789abcdef0123456789abcdef0123456789abcdef") 10) as H.
  assert (Forall typed [demo_observed 1]) as H1 by (repeat constructor; vm_compute; discriminate).
  assert (4 <= u64_max) as H2 by (vm_compute; discriminate).
  specialize (H H1 H2). cbv zeta in H. fold (demo_observed 4) in H.
  destruct (apply (replay [demo_observed 1]) (demo_observed 4)) as [l' res] eqn:E.
  apply H. apply (f_equal (fun x => is_ok x.2)) in E. cbv beta in E. change (is_ok (l', res).2) with (is_ok res) in E. rewrite <- E.
  vm_compute. reflexivity.
Defined.
