(* ===== verification/Orchestrate.v ===== *)
(** * The orchestration engine

    [uniterm-core/src/orchestrate.rs]: provider selections, the pure state
    machine [step] behind workflows and relays, the bundled templates and the
    prompts they inject. [&mut self] methods return the new state with their
    value; an index out of range, which panics, is [None].

    This is the engine alone. The tokens it mints count its turns; the server
    that drives it puts a token of its own into the state and into every prompt
    before either is used (Turns.v), so no theorem here depends on their values. *)

From S2P Require Import Prelude Artifact.

(** ** Provider selections *)

Record ProviderRequirement : Set := { capabilities : list str }.

Definition any : ProviderRequirement := {| capabilities := [] |}.
Definition all (cs : list str) : ProviderRequirement := {| capabilities := cs |}.

Record Role : Set := {
  role_name : str; verifier : bool; provider_requirement : ProviderRequirement }.

Definition Role_new (name : str) (v : bool) : Role :=
  {| role_name := name; verifier := v; provider_requirement := any |}.

Definition requiring (name : str) (v : bool) (cs : list str) : Role :=
  {| role_name := name; verifier := v; provider_requirement := all cs |}.

Record RoleProviderSelection : Set := { sel_role : str; sel_provider : str }.

Inductive RoleProviderSelectionError : Set :=
| EmptyRole
| EmptyProvider (role : str)
| RoleTooLong
| ProviderTooLong (role : str)
| UnknownRole (role : str)
| DuplicateRole (role : str).

(** [Display for RoleProviderSelectionError] *)
Definition selection_error_text (e : RoleProviderSelectionError) : str :=
  match e with
  | EmptyRole => lit "provider selection has an empty role name"
  | EmptyProvider r => lit "provider selection for role '" ++ r ++ lit "' is empty"
  | RoleTooLong => lit "provider-selection role exceeds 256 bytes"
  | ProviderTooLong r => lit "provider selection for role '" ++ r ++ lit "' exceeds 256 bytes"
  | UnknownRole r => lit "unknown orchestration role '" ++ r ++ lit "'"
  | DuplicateRole r => lit "provider selected more than once for role '" ++ r ++ lit "'"
  end.

(** [roles.iter().position(|role| role.name == name)] *)
Definition role_position (roles : list Role) (name : str) : option nat :=
  fst <$> list_find (fun r => role_name r = name) roles.

(** One round of the loop of [align_role_provider_selections]. *)
Definition align_one (roles : list Role) (aligned : list (option str))
    (s : RoleProviderSelection) : result (list (option str)) RoleProviderSelectionError :=
  if bool_decide (sel_role s = []) then Err EmptyRole
  else if 256 <? len8 (sel_role s) then Err RoleTooLong
  else if bool_decide (sel_provider s = []) then Err (EmptyProvider (sel_role s))
  else if 256 <? len8 (sel_provider s) then Err (ProviderTooLong (sel_role s))
  else match role_position roles (sel_role s) with
  | None => Err (UnknownRole (sel_role s))
  | Some index =>
      if bool_decide (is_Some (mjoin (aligned !! index))) then Err (DuplicateRole (sel_role s))
      else Ok (<[index := Some (sel_provider s)]> aligned)
  end.

Fixpoint align_loop (roles : list Role) (aligned : list (option str))
    (ss : list RoleProviderSelection) : result (list (option str)) RoleProviderSelectionError :=
  match ss with
  | [] => Ok aligned
  | s :: ss' =>
      match align_one roles aligned s with
      | Err e => Err e
      | Ok aligned' => align_loop roles aligned' ss'
      end
  end.

Definition align_role_provider_selections (roles : list Role)
    (ss : list RoleProviderSelection) : result (list (option str)) RoleProviderSelectionError :=
  align_loop roles (replicate (length roles) None) ss.

(** ** The engine *)

Inductive Verdict : Set := Approved | Fix (findings : str) | Replan (why : str).

Inductive SubmitStatus : Set := Done | NeedsInput | Failed.

Record Submit : Set := {
  sub_token : N; sub_role : nat; sub_status : SubmitStatus; sub_verdict : option Verdict }.

Inductive Event : Set :=
| EStart
| ESubmit (s : Submit)
| EIdle (role : nat)
| EStall
| EGuardrail (reason : str)
| EResume
| EStop.

Inductive Action : Set :=
| Inject (role : nat) (token : N)
| AwaitSubmit
| Complete
| Escalate (reason : str)
| AbortRun (reason : str)
| Hold.

Inductive Phase : Set := Idle | Awaiting | Paused | PDone | Aborted.

#[global] Instance Phase_eq_dec : EqDecision Phase.
Proof. solve_decision. Defined.
#[global] Instance Verdict_eq_dec : EqDecision Verdict.
Proof. solve_decision. Defined.
#[global] Instance Action_eq_dec : EqDecision Action.
Proof. solve_decision. Defined.

Record State : Set := {
  roles : list Role;
  cur : nat;
  iteration : N;
  max_iterations : N;
  token : N;
  token_seq : N;
  last_fix : option str;
  fix_target : nat;
  replan_target : nat;
  phase : Phase }.

Definition State_new (rs : list Role) (max : N) : State :=
  let verifier_idx := default 0%nat (fst <$> list_find (fun r => verifier r = true) rs) in
  {| roles := rs; cur := 0; iteration := 0; max_iterations := max; token := 0; token_seq := 0;
     last_fix := None; fix_target := (verifier_idx - 1)%nat; replan_target := 0; phase := Idle |}.

Definition with_phase (s : State) (p : Phase) : State :=
  {| roles := roles s; cur := cur s; iteration := iteration s;
     max_iterations := max_iterations s; token := token s; token_seq := token_seq s;
     last_fix := last_fix s; fix_target := fix_target s; replan_target := replan_target s;
     phase := p |}.

Definition with_cur (s : State) (c : nat) : State :=
  {| roles := roles s; cur := c; iteration := iteration s;
     max_iterations := max_iterations s; token := token s; token_seq := token_seq s;
     last_fix := last_fix s; fix_target := fix_target s; replan_target := replan_target s;
     phase := phase s |}.

Definition with_loop (s : State) (it : N) (lf : option str) : State :=
  {| roles := roles s; cur := cur s; iteration := it;
     max_iterations := max_iterations s; token := token s; token_seq := token_seq s;
     last_fix := lf; fix_target := fix_target s; replan_target := replan_target s;
     phase := phase s |}.

(** The token minted here is the engine's; the server replaces it (Turns.v). *)
Definition open_turn (s : State) : State * Action :=
  let seq := wadd U64 (token_seq s) 1 in
  let s' := {| roles := roles s; cur := cur s; iteration := iteration s;
     max_iterations := max_iterations s; token := seq; token_seq := seq;
     last_fix := last_fix s; fix_target := fix_target s; replan_target := replan_target s;
     phase := Awaiting |} in
  (s', Inject (cur s') (token s')).

Definition advance_after_done (s : State) : State * Action :=
  if (length (roles s) <=? cur s + 1)%nat then (with_phase s PDone, Complete)
  else open_turn (with_cur s (cur s + 1)).

Definition pause (s : State) (reason : str) : State * Action :=
  (with_phase s Paused, Escalate reason).

Definition abort (s : State) (reason : str) : State * Action :=
  (with_phase s Aborted, AbortRun reason).

Definition route_fix (s : State) (findings : str) : State * Action :=
  if bool_decide (last_fix s = Some findings) then
    pause s (lit "verdict stalled (two identical fix verdicts)")
  else
    let s1 := with_loop s (wadd U32 (iteration s) 1) (Some findings) in
    if max_iterations s1 <? iteration s1 then pause s1 (lit "max iterations exceeded")
    else open_turn (with_cur s1 (fix_target s1)).

Definition route_replan (s : State) : State * Action :=
  let s1 := with_loop s (wadd U32 (iteration s) 1) (last_fix s) in
  if max_iterations s1 <? iteration s1 then pause s1 (lit "max iterations exceeded")
  else
    let s2 := with_loop s1 (iteration s1) None in
    open_turn (with_cur s2 (replan_target s2)).

(** [state.roles[state.cur].verifier] *)
Definition cur_verifier (s : State) : option bool := verifier <$> roles s !! cur s.

Definition submit (s : State) (sub : Submit) : option (State * Action) :=
  if negb (bool_decide (phase s = Awaiting)) then Some (s, Hold)
  else if negb (sub_token sub =? token s) || negb (sub_role sub =? cur s)%nat then Some (s, Hold)
  else
    is_verifier ← cur_verifier s;
    if bool_decide (is_Some (sub_verdict sub)) && negb is_verifier then Some (s, Hold)
    else Some
      match sub_status sub with
      | Failed => pause s (lit "role reported failure")
      | NeedsInput => (s, AwaitSubmit)
      | Done =>
          if is_verifier : bool then
            match sub_verdict sub with
            | Some Approved => (with_phase s PDone, Complete)
            | Some (Fix f) => route_fix s f
            | Some (Replan _) => route_replan s
            | None => (s, AwaitSubmit)
            end
          else advance_after_done s
      end.

Definition step (s : State) (e : Event) : option (State * Action) :=
  match phase s with
  | PDone | Aborted => Some (s, Hold)
  | Paused =>
      Some match e with
      | EResume => open_turn s
      | EStop => abort s (lit "stopped by human")
      | _ => (s, Hold)
      end
  | _ =>
      match e with
      | EStart =>
          if negb (bool_decide (phase s = Idle)) then Some (s, Hold)
          else Some (open_turn (with_cur s 0))
      | EStop => Some (abort s (lit "stopped by human"))
      | EStall => Some (pause s (lit "turn stalled"))
      | EGuardrail reason => Some (pause s reason)
      | EResume => Some (s, Hold)
      | EIdle role =>
          if negb (bool_decide (phase s = Awaiting)) || negb (role =? cur s)%nat then Some (s, Hold)
          else
            is_verifier ← cur_verifier s;
            if is_verifier : bool then Some (s, Hold) else Some (advance_after_done s)
      | ESubmit sub => submit s sub
      end
  end.

Definition decide_relay_next : State -> Event -> option (State * Action) := step.
Definition decide_workflow_next : State -> Event -> option (State * Action) := step.

(** A whole run: the actions answered to a list of events, and the last state. *)
Fixpoint run (s : State) (es : list Event) : option (State * list Action) :=
  match es with
  | [] => Some (s, [])
  | e :: es' =>
      '(s1, a) ← step s e;
      '(s2, acts) ← run s1 es';
      Some (s2, a :: acts)
  end.

(** ** Templates and prompts *)

Record ArtifactRequirement : Set := { req_kind : ArtifactKind; req_path : str }.

Record RoleSpec : Set := {
  spec_name : str; spec_verifier : bool; provider_capabilities : list str;
  expected_artifacts : list ArtifactRequirement; prompt : str }.

Record WorkflowTemplate : Set := {
  template_name : str; summary : str; template_roles : list RoleSpec }.

Definition engine_roles (t : WorkflowTemplate) : list Role :=
  map (fun r => requiring (spec_name r) (spec_verifier r) (provider_capabilities r))
    (template_roles t).

Definition PLANNER_PROMPT : str :=
  lit "You are the PLANNER in a multi-agent workflow. Goal: {goal}. Produce a concrete " ++
  lit "implementation plan for the goal: the files to touch, the steps in order, the " ++
  lit "risks, and how to verify the result. Write the plan to WORKFLOW_PLAN.md in the " ++
  lit "working directory so the builder (running in the next pane) can follow it. Do " ++
  lit "NOT implement anything. When the plan is written, run exactly this command to " ++
  lit "hand off: {submit}".

Definition BUILDER_PROMPT : str :=
  lit "You are the BUILDER in a multi-agent workflow. Goal: {goal}. If WORKFLOW_PLAN.md " ++
  lit "exists in the working directory, follow it; otherwise plan briefly and proceed. " ++
  lit "Implement the goal completely: write the code, make it build, and run the tests " ++
  lit "you can. A verifier (running in the next pane) will review your work afterwards " ++
  lit "- if it sends findings back, you will receive them here; address them and hand " ++
  lit "off again. When your implementation is ready for review, run exactly this " ++
  lit "command: {submit}".

Definition SOLO_PROMPT : str :=
  lit "You are working solo in a workflow pane. Goal: {goal}. Implement the goal " ++
  lit "completely: plan briefly, write the code, make it build, run the tests you can, " ++
  lit "and verify your own result. When everything is done, run exactly this command: " ++
  lit "{submit}".

Definition VERIFIER_PROMPT : str :=
  lit "You are the VERIFIER in a multi-agent workflow. Goal: {goal}. The builder (in " ++
  lit "the previous pane) claims the goal is implemented. Review the working tree " ++
  lit "critically: does it build, do the tests pass, does it actually satisfy the goal, " ++
  lit "are there bugs or shortcuts? Only you may pass verdict. When your review is " ++
  lit "complete, run exactly this command with your verdict: {submit}".

Definition interactive : list str := [lit "interactive_cli"].

Definition planner_spec : RoleSpec := {|
  spec_name := lit "planner"; spec_verifier := false; provider_capabilities := interactive;
  expected_artifacts := [{| req_kind := Artifact.Plan; req_path := lit "WORKFLOW_PLAN.md" |}];
  prompt := PLANNER_PROMPT |}.

Definition builder_spec : RoleSpec := {|
  spec_name := lit "builder"; spec_verifier := false; provider_capabilities := interactive;
  expected_artifacts := []; prompt := BUILDER_PROMPT |}.

Definition solo_spec : RoleSpec := {|
  spec_name := lit "builder"; spec_verifier := false; provider_capabilities := interactive;
  expected_artifacts := []; prompt := SOLO_PROMPT |}.

Definition verifier_spec : RoleSpec := {|
  spec_name := lit "verifier"; spec_verifier := true; provider_capabilities := interactive;
  expected_artifacts := []; prompt := VERIFIER_PROMPT |}.

Definition WORKFLOW_TEMPLATES : list WorkflowTemplate :=
  [{| template_name := lit "solo"; summary := lit "one agent does the whole task";
      template_roles := [solo_spec] |};
   {| template_name := lit "pair"; summary := lit "builder implements, verifier reviews";
      template_roles := [builder_spec; verifier_spec] |};
   {| template_name := lit "triad";
      summary := lit "planner designs, builder implements, verifier reviews";
      template_roles := [planner_spec; builder_spec; verifier_spec] |}].

Definition workflow_template (name : str) : option WorkflowTemplate :=
  snd <$> list_find (fun t => template_name t = name) WORKFLOW_TEMPLATES.

(** [str::replace] with a nonempty pattern: leftmost matches that do not
    overlap. [skip] counts the characters of the last match still to drop. *)
Fixpoint is_prefix (p s : str) : bool :=
  match p, s with
  | [], _ => true
  | a :: p', b :: s' => (a =? b) && is_prefix p' s'
  | _, [] => false
  end.

Fixpoint replace_from (p to : str) (skip : nat) (s : str) : str :=
  match s with
  | [] => []
  | c :: s' =>
      match skip with
      | S k => replace_from p to k s'
      | O =>
          if is_prefix p s then to ++ replace_from p to (length p - 1) s'
          else c :: replace_from p to 0 s'
      end
  end.

Definition replace (p to s : str) : str := replace_from p to 0 s.

Definition submit_command (v : bool) (token : N) : str :=
  if v then
    lit "uniterm workflow submit " ++ dec token ++
    lit " --verdict approved|fix --summary " ++ [34] ++ lit "<one-line findings>" ++ [34] ++
    lit " (approved = ship it; fix = send it back with your findings)"
  else lit "uniterm workflow submit " ++ dec token.

Definition render_role_prompt (spec : RoleSpec) (goal : str) (token : N) : str :=
  let submit := submit_command (spec_verifier spec) token in
  replace (lit "{submit}") submit
    (replace (lit "{token}") (dec token)
      (replace (lit "{role}") (spec_name spec)
        (replace (lit "{goal}") goal (prompt spec)))).


(** ** The machine never panics *)

Record wf (s : State) : Prop := {
  wf_cur : (cur s < length (roles s))%nat;
  wf_fix : (fix_target s < length (roles s))%nat;
  wf_replan : (replan_target s < length (roles s))%nat }.

(** The part of the state that no event changes. *)
Definition same_shape (s s' : State) : Prop :=
  roles s' = roles s /\ max_iterations s' = max_iterations s
  /\ fix_target s' = fix_target s /\ replan_target s' = replan_target s.

Lemma cur_verifier_some s : wf s -> exists v, cur_verifier s = Some v.
Proof.
  intros [Hc _ _]. unfold cur_verifier.
  destruct (lookup_lt_is_Some_2 _ _ Hc) as [r ->]. by eexists.
Qed.

(** ** The machine as a step relation

    [trans s e a s']: the transitions of the completion contract. Every event
    that matches none of them is held and changes nothing. *)

Definition next_token (s : State) : N := wadd U64 (token_seq s) 1.
Definition next_iteration (s : State) : N := wadd U32 (iteration s) 1.

(** The state in which role [c]'s turn is open. *)
Definition opened (s : State) (c : nat) (it : N) (lf : option str) : State :=
  {| roles := roles s; cur := c; iteration := it; max_iterations := max_iterations s;
     token := next_token s; token_seq := next_token s; last_fix := lf;
     fix_target := fix_target s; replan_target := replan_target s; phase := Awaiting |}.

(** A submit that quotes the live token for the current role, and carries a
    verdict only when that role is the verifier. *)
Definition live_submit (s : State) (e : Event) (sub : Submit) : Prop :=
  e = ESubmit sub /\ phase s = Awaiting /\ sub_token sub = token s /\ sub_role sub = cur s
  /\ (is_Some (sub_verdict sub) -> cur_verifier s = Some true).

(** A worker role is done: by its submit, or by the idle safety net. *)
Definition done_signal (s : State) (e : Event) : Prop :=
  cur_verifier s = Some false /\ phase s = Awaiting /\
  (e = EIdle (cur s) \/ exists sub, live_submit s e sub /\ sub_status sub = Done).

Definition verdict_signal (s : State) (e : Event) (v : Verdict) : Prop :=
  cur_verifier s = Some true /\
  exists sub, live_submit s e sub /\ sub_status sub = Done /\ sub_verdict sub = Some v.

Inductive trans (s : State) : Event -> Action -> State -> Prop :=
| T_start :
    phase s = Idle ->
    trans s EStart (Inject 0 (next_token s)) (opened s 0 (iteration s) (last_fix s))
| T_resume :
    phase s = Paused ->
    trans s EResume (Inject (cur s) (next_token s)) (opened s (cur s) (iteration s) (last_fix s))
| T_next e :
    done_signal s e -> (cur s + 1 < length (roles s))%nat ->
    trans s e (Inject (cur s + 1) (next_token s)) (opened s (cur s + 1) (iteration s) (last_fix s))
| T_finish e :
    done_signal s e -> (length (roles s) <= cur s + 1)%nat ->
    trans s e Complete (with_phase s PDone)
| T_approve e :
    verdict_signal s e Approved -> trans s e Complete (with_phase s PDone)
| T_fix e f :
    verdict_signal s e (Fix f) -> last_fix s <> Some f -> next_iteration s <= max_iterations s ->
    trans s e (Inject (fix_target s) (next_token s))
      (opened s (fix_target s) (next_iteration s) (Some f))
| T_fix_stalled e f :
    verdict_signal s e (Fix f) -> last_fix s = Some f ->
    trans s e (Escalate (lit "verdict stalled (two identical fix verdicts)")) (with_phase s Paused)
| T_fix_exhausted e f :
    verdict_signal s e (Fix f) -> last_fix s <> Some f -> max_iterations s < next_iteration s ->
    trans s e (Escalate (lit "max iterations exceeded"))
      (with_phase (with_loop s (next_iteration s) (Some f)) Paused)
| T_replan e w :
    verdict_signal s e (Replan w) -> next_iteration s <= max_iterations s ->
    trans s e (Inject (replan_target s) (next_token s))
      (opened s (replan_target s) (next_iteration s) None)
| T_replan_exhausted e w :
    verdict_signal s e (Replan w) -> max_iterations s < next_iteration s ->
    trans s e (Escalate (lit "max iterations exceeded"))
      (with_phase (with_loop s (next_iteration s) (last_fix s)) Paused)
| T_failed e sub :
    live_submit s e sub -> sub_status sub = Failed ->
    trans s e (Escalate (lit "role reported failure")) (with_phase s Paused)
| T_needs_input e sub :
    live_submit s e sub -> sub_status sub = NeedsInput -> trans s e AwaitSubmit s
| T_no_verdict e sub :
    live_submit s e sub -> cur_verifier s = Some true -> sub_status sub = Done ->
    sub_verdict sub = None -> trans s e AwaitSubmit s
| T_stall :
    phase s = Idle \/ phase s = Awaiting ->
    trans s EStall (Escalate (lit "turn stalled")) (with_phase s Paused)
| T_guardrail m :
    phase s = Idle \/ phase s = Awaiting ->
    trans s (EGuardrail m) (Escalate m) (with_phase s Paused)
| T_stop :
    phase s = Idle \/ phase s = Awaiting \/ phase s = Paused ->
    trans s EStop (AbortRun (lit "stopped by human")) (with_phase s Aborted).

Lemma advance_trans s e :
  done_signal s e -> trans s e (advance_after_done s).2 (advance_after_done s).1.
Proof.
  intros H. unfold advance_after_done. destruct (Nat.leb_spec (length (roles s)) (cur s + 1)).
  - by apply T_finish.
  - by apply T_next.
Qed.

Lemma route_fix_trans s e f :
  verdict_signal s e (Fix f) -> trans s e (route_fix s f).2 (route_fix s f).1.
Proof.
  intros H. unfold route_fix. case_bool_decide as Hf; [by eapply T_fix_stalled|].
  cbn zeta. destruct (N.ltb_spec (max_iterations s) (next_iteration s)) as [Hlt|Hge].
  - unfold next_iteration in Hlt. apply N.ltb_lt in Hlt as E. simpl. rewrite E.
    by apply T_fix_exhausted.
  - unfold next_iteration in Hge. apply N.ltb_ge in Hge as E. simpl. rewrite E.
    exact (T_fix s e f H Hf Hge).
Qed.

Lemma route_replan_trans s e w :
  verdict_signal s e (Replan w) -> trans s e (route_replan s).2 (route_replan s).1.
Proof.
  intros H. unfold route_replan. cbn zeta.
  destruct (N.ltb_spec (max_iterations s) (next_iteration s)) as [Hlt|Hge].
  - unfold next_iteration in Hlt. apply N.ltb_lt in Hlt as E. simpl. rewrite E.
    by eapply T_replan_exhausted.
  - unfold next_iteration in Hge. apply N.ltb_ge in Hge as E. simpl. rewrite E.
    exact (T_replan s e w H Hge).
Qed.

(** An answer of the code: held and unchanged, or a transition. *)
Definition answered (s : State) (e : Event) (r : State * Action) : Prop :=
  r = (s, Hold) \/ trans s e r.2 r.1.

Lemma submit_answered s sub :
  wf s -> exists r, submit s sub = Some r /\ answered s (ESubmit sub) r.
Proof.
  intros Hs. destruct (cur_verifier_some s Hs) as [v Hv]. unfold submit. rewrite Hv. simpl.
  case_bool_decide as Hph; simpl; [|eexists; split; [done|by left]].
  destruct (N.eqb_spec (sub_token sub) (token s)) as [Ht|]; simpl;
    [|eexists; split; [done|by left]].
  destruct (Nat.eqb_spec (sub_role sub) (cur s)) as [Hr|]; simpl;
    [|eexists; split; [done|by left]].
  destruct (bool_decide (is_Some (sub_verdict sub)) && negb v) eqn:Hvd;
    [eexists; split; [done|by left]|].
  assert (live_submit s (ESubmit sub) sub) as Hlive.
  { split_and!; try done. intros Hsome. rewrite (bool_decide_eq_true_2 _ Hsome) in Hvd.
    destruct v; [done|discriminate]. }
  eexists. split; [done|]. right. destruct (sub_status sub) eqn:Hst.
  - destruct v.
    + destruct (sub_verdict sub) as [[|f|w]|] eqn:Hver; simpl.
      * apply T_approve. split; eauto.
      * apply route_fix_trans. split; eauto.
      * apply route_replan_trans with w. split; eauto.
      * by eapply T_no_verdict.
    + apply advance_trans. split; [done|]. split; [done|]. right. eauto.
  - by eapply T_needs_input.
  - by eapply T_failed.
Qed.

Lemma step_answered s e : wf s -> exists r, step s e = Some r /\ answered s e r.
Proof.
  intros Hs. destruct (cur_verifier_some s Hs) as [v Hv].
  destruct e as [|x|r| |m| |]; unfold step; rewrite ?Hv; destruct (phase s) eqn:Hph; simpl;
    try (by eexists; split; [done|left]).
  all: try (by eexists; split; [done|right; constructor; auto]).
  - by apply submit_answered.
  - by apply submit_answered.
  - destruct (Nat.eqb_spec r (cur s)) as [->|]; simpl; [|by eexists; split; [done|left]].
    destruct v; [by eexists; split; [done|left]|].
    eexists. split; [done|]. right. apply advance_trans. split_and!; auto.
Qed.

(** The code takes every transition of the relation. *)
Lemma live_submit_step s e sub v :
  live_submit s e sub -> cur_verifier s = Some v ->
  step s e = Some
    match sub_status sub with
    | Failed => pause s (lit "role reported failure")
    | NeedsInput => (s, AwaitSubmit)
    | Done =>
        if v : bool then
          match sub_verdict sub with
          | Some Approved => (with_phase s PDone, Complete)
          | Some (Fix f) => route_fix s f
          | Some (Replan _) => route_replan s
          | None => (s, AwaitSubmit)
          end
        else advance_after_done s
    end.
Proof.
  intros (-> & Hph & Ht & Hr & Hver) Hv. unfold step, submit. rewrite Hph. simpl.
  rewrite Ht, Hr, N.eqb_refl, Nat.eqb_refl, Hv. simpl.
  assert (bool_decide (is_Some (sub_verdict sub)) && negb v = false) as ->; [|done].
  case_bool_decide as Hs; [|done]. apply Hver in Hs. rewrite Hv in Hs. by injection Hs as ->.
Qed.

Lemma done_signal_step s e : done_signal s e -> step s e = Some (advance_after_done s).
Proof.
  intros (Hv & Hph & [->|(sub & Hl & Hst)]).
  - unfold step. rewrite Hph, Hv, bool_decide_eq_true_2, Nat.eqb_refl by done. done.
  - by rewrite (live_submit_step _ _ _ _ Hl Hv), Hst.
Qed.

Lemma verdict_signal_step s e v :
  verdict_signal s e v ->
  step s e = Some match v with
    | Approved => (with_phase s PDone, Complete)
    | Fix f => route_fix s f
    | Replan _ => route_replan s
    end.
Proof.
  intros (Hv & sub & Hl & Hst & Hver).
  rewrite (live_submit_step _ _ _ _ Hl Hv), Hst, Hver. by destruct v.
Qed.

Lemma trans_step s e a s' : wf s -> trans s e a s' -> step s e = Some (s', a).
Proof.
  intros Hs H. destruct (cur_verifier_some s Hs) as [v Hv].
  destruct H as [Hp|Hp|e Hd Hlt|e Hd Hle|e Hd|e f Hd Hf Hi|e f Hd Hf|e f Hd Hf Hi|e w Hd Hi|
    e w Hd Hi|e sub Hl Hst|e sub Hl Hst|e sub Hl Hv' Hst Hver|Hp|m Hp|Hp].
  - unfold step. by rewrite Hp.
  - unfold step. by rewrite Hp.
  - rewrite (done_signal_step _ _ Hd). unfold advance_after_done.
    by destruct (Nat.leb_spec (length (roles s)) (cur s + 1)); [lia|].
  - rewrite (done_signal_step _ _ Hd). unfold advance_after_done.
    by destruct (Nat.leb_spec (length (roles s)) (cur s + 1)); [|lia].
  - by rewrite (verdict_signal_step _ _ _ Hd).
  - rewrite (verdict_signal_step _ _ _ Hd). unfold route_fix.
    rewrite bool_decide_eq_false_2 by done. cbn zeta. apply N.ltb_ge in Hi.
    unfold next_iteration in Hi. simpl. by rewrite Hi.
  - rewrite (verdict_signal_step _ _ _ Hd). unfold route_fix.
    by rewrite bool_decide_eq_true_2.
  - rewrite (verdict_signal_step _ _ _ Hd). unfold route_fix.
    rewrite bool_decide_eq_false_2 by done. cbn zeta. apply N.ltb_lt in Hi.
    unfold next_iteration in Hi. simpl. by rewrite Hi.
  - rewrite (verdict_signal_step _ _ _ Hd). unfold route_replan. cbn zeta. apply N.ltb_ge in Hi.
    unfold next_iteration in Hi. simpl. by rewrite Hi.
  - rewrite (verdict_signal_step _ _ _ Hd). unfold route_replan. cbn zeta. apply N.ltb_lt in Hi.
    unfold next_iteration in Hi. simpl. by rewrite Hi.
  - by rewrite (live_submit_step _ _ _ _ Hl Hv), Hst.
  - by rewrite (live_submit_step _ _ _ _ Hl Hv), Hst.
  - by rewrite (live_submit_step _ _ _ _ Hl Hv'), Hst, Hver.
  - unfold step. by destruct Hp as [->| ->].
  - unfold step. by destruct Hp as [->| ->].
  - unfold step. by destruct Hp as [->|[->| ->]].
Qed.

Lemma trans_not_hold s e s' : ~ trans s e Hold s'.
Proof. intros H. inversion H. Qed.

Lemma trans_wf s e a s' : wf s -> trans s e a s' -> wf s' /\ same_shape s s'.
Proof.
  intros Hs H. pose proof Hs as [Hc Hf Hr].
  destruct H; (split; [|done]); constructor; simpl; try done; lia.
Qed.

Lemma answered_wf s e r : wf s -> answered s e r -> wf r.1 /\ same_shape s r.1.
Proof. intros Hs [->|H]; [done|]. by eapply trans_wf. Qed.

(** A run as a sequence of answers. *)
Inductive trace : State -> list Event -> State -> list Action -> Prop :=
| trace_nil s : trace s [] s []
| trace_snoc s es s1 acts e s2 a :
    trace s es s1 acts -> step s1 e = Some (s2, a) -> answered s1 e (s2, a) ->
    trace s (es ++ [e]) s2 (acts ++ [a]).

Lemma run_snoc s es e :
  run s (es ++ [e]) =
    '(s1, acts) ← run s es; '(s2, a) ← step s1 e; Some (s2, acts ++ [a]).
Proof.
  revert s. induction es as [|x es IH]; intros s; simpl.
  - by destruct (step s e) as [[??]|].
  - destruct (step s x) as [[s1 a1]|]; [|done]. simpl. rewrite IH.
    destruct (run s1 es) as [[s2 acts]|]; [|done]. simpl.
    by destruct (step s2 e) as [[??]|].
Qed.

Lemma run_trace s es :
  wf s -> exists s' acts, run s es = Some (s', acts) /\ trace s es s' acts /\ wf s'
    /\ same_shape s s'.
Proof.
  intros Hs. induction es as [|e es (s1 & acts & Hr & Ht & Hs1 & Hsh)] using rev_ind.
  - exists s, []. split; [done|]. split; [constructor|]. done.
  - destruct (step_answered s1 e Hs1) as ([s2 a] & He & Ha).
    destruct (answered_wf _ _ _ Hs1 Ha) as [Hs2 Hsh2].
    exists s2, (acts ++ [a]). rewrite run_snoc, Hr. simpl. rewrite He. simpl.
    split; [done|]. split; [by econstructor|]. split; [done|].
    destruct Hsh as (? & ? & ? & ?), Hsh2 as (? & ? & ? & ?). split_and!; simpl in *; congruence.
Qed.

Lemma State_new_wf rs max : rs <> [] -> wf (State_new rs max).
Proof.
  intros Hne. assert (0 < length rs)%nat by (destruct rs; [done|simpl; lia]).
  constructor; simpl; [lia| |lia].
  destruct (list_find _ rs) as [[i r]|] eqn:E; simpl; [|lia].
  apply list_find_Some in E as (Hi & _). apply lookup_lt_Some in Hi. lia.
Qed.

#[export] Hint Resolve State_new_wf : uniterm.

(** The delivered prompts of a list of answers. *)
Definition injects (acts : list Action) : list (nat * N) :=
  omap (fun a => match a with Inject r t => Some (r, t) | _ => None end) acts.

Lemma injects_snoc acts a :
  injects (acts ++ [a]) =
    injects acts ++ match a with Inject r t => [(r, t)] | _ => [] end.
Proof. unfold injects. rewrite omap_app. simpl. by destruct a. Qed.

(** ** Properties of the engine *)

(** C5: the engine implements the completion contract: it never panics, keeps
    its state well formed and its configuration fixed, takes exactly the
    transitions of [trans], and holds every other event without any change. *)
Theorem step_refines_contract s e :
  wf s ->
  (exists s' a, step s e = Some (s', a) /\ wf s' /\ same_shape s s')
  /\ forall s' a, step s e = Some (s', a) <->
       trans s e a s' \/ (a = Hold /\ s' = s /\ forall a2 s2, ~ trans s e a2 s2).
Proof.
  intros Hs. destruct (step_answered s e Hs) as ([s1 a1] & Hstep & Hans). split.
  - exists s1, a1. split; [done|]. exact (answered_wf _ _ _ Hs Hans).
  - intros s' a. rewrite Hstep. split.
    + intros [= -> ->]. destruct Hans as [[= -> ->]|?]; [right|by left]. split_and!; try done.
      intros a2 s2 H. pose proof (trans_step _ _ _ _ Hs H) as H2. rewrite Hstep in H2.
      injection H2 as <- <-. by apply trans_not_hold in H.
    + intros [H|(-> & -> & Hno)].
      * rewrite <- Hstep. by apply trans_step.
      * destruct Hans as [[= -> ->]|H]; [done|]. by apply Hno in H.
Qed.

Definition pair_state : State :=
  State_new [requiring (lit "builder") false interactive; requiring (lit "verifier") true interactive] 2.

Lemma step_refines_contract_witness :
  wf pair_state /\
  exists s' a, step pair_state EStart = Some (s', a) /\ wf s' /\ same_shape pair_state s'.
Proof.
  assert (wf pair_state) as H by (apply State_new_wf; discriminate).
  split; [exact H|]. exact (proj1 (step_refines_contract pair_state EStart H)).
Defined.

(** A run completes only by the contract: the live verifier submits
    [Approved], or the last role, not a verifier, is done. When the last role is
    a verifier nothing but its approval completes the run. *)
Theorem completion_contract s e s' :
  wf s ->
  (step s e = Some (s', Complete) <->
     s' = with_phase s PDone /\
     (verdict_signal s e Approved
      \/ (done_signal s e /\ length (roles s) = (cur s + 1)%nat)))
  /\ (verifier <$> last (roles s) = Some true -> step s e = Some (s', Complete) ->
        exists sub, e = ESubmit sub /\ sub_token sub = token s /\ sub_role sub = cur s
          /\ sub_status sub = Done /\ sub_verdict sub = Some Approved
          /\ cur_verifier s = Some true).
Proof.
  intros Hs. destruct (step_answered s e Hs) as ([s1 a1] & Hstep & Hans).
  assert (step s e = Some (s', Complete) -> s' = with_phase s PDone /\
     (verdict_signal s e Approved
      \/ (done_signal s e /\ length (roles s) = (cur s + 1)%nat))) as Hfw.
  { rewrite Hstep. intros [= -> ->]. destruct Hans as [?|H]; [done|]. simpl in H.
    inversion H; subst; (split; [done|]); [right|by left].
    split; [done|]. destruct Hs. lia. }
  split; [split; [done|]|].
  - intros [-> [H|[H Hlen]]]; apply trans_step; try done; [by apply T_approve|].
    apply T_finish; [done|lia].
  - intros Hlast Hc. destruct (Hfw Hc) as [_ [(Hv & sub & Hl & Hst & Hver)|[(Hv & _) Hlen]]].
    + destruct Hl as (-> & _ & Ht & Hr & _). by exists sub.
    + exfalso. unfold cur_verifier in Hv. rewrite last_lookup, Hlen in Hlast.
      replace (Nat.pred (cur s + 1)) with (cur s) in Hlast by lia. congruence.
Qed.

Lemma completion_contract_witness :
  exists s', step (opened pair_state 1 0 None) (ESubmit {| sub_token := 1; sub_role := 1;
      sub_status := Done; sub_verdict := Some Approved |}) = Some (s', Complete)
    /\ s' = with_phase (opened pair_state 1 0 None) PDone.
Proof.
  eexists. split; [vm_compute; reflexivity|].
  refine (proj1 (proj1 (proj1 (completion_contract (opened pair_state 1 0 None)
    (ESubmit {| sub_token := 1; sub_role := 1; sub_status := Done;
       sub_verdict := Some Approved |}) _ _)) _)); [|vm_compute; reflexivity].
  constructor; vm_compute; lia.
Defined.

(** *** Bounded work *)

(** The prompts the engine may still deliver without being resumed. *)
Definition budget (s : State) : N :=
  let n := N.of_nat (length (roles s)) in
  let loops := (max_iterations s - iteration s) * n in
  match phase s with
  | Idle => loops + n
  | Awaiting | Paused => loops + (n - 1 - N.of_nat (cur s))
  | PDone | Aborted => 0
  end.

Definition prompts (a : Action) : N := match a with Inject _ _ => 1 | _ => 0 end.
Definition resumes (e : Event) : N := match e with EResume => 1 | _ => 0 end.

Lemma budget_loop m it n ft c :
  it + 1 <= m -> ft < n ->
  (m - (it + 1)) * n + (n - 1 - ft) + 1 <= (m - it) * n + (n - 1 - c) + 0.
Proof.
  intros H Hft. replace (m - it) with (m - (it + 1) + 1) by lia.
  generalize (m - (it + 1)). intros k. rewrite N.mul_add_distr_r.
  generalize (k * n). intros. lia.
Qed.

Lemma budget_end m it n c :
  m < it + 1 -> (m - (it + 1)) * n + c + 0 <= (m - it) * n + c + 0.
Proof. intros H. replace (m - (it + 1)) with 0 by lia. replace (m - it) with 0 by lia. lia. Qed.

(** The loop product is one unknown of the linear goals below. *)
Ltac by_budget :=
  repeat match goal with
  | |- context [?a * ?b] => let k := fresh "k" in set (k := a * b) in *; clearbody k
  end; lia.

Lemma budget_step s e r :
  wf s -> answered s e r -> iteration s + 1 < U32 ->
  budget r.1 + prompts r.2 <= budget s + resumes e /\ iteration r.1 <= iteration s + 1.
Proof.
  intros [Hc Hf Hrp] [->|H] Hit; simpl; [destruct e; simpl; lia|].
  assert (next_iteration s = iteration s + 1) as Hn by (unfold next_iteration; by apply wadd_small).
  destruct r as [s' a]; simpl in H.
  assert (forall sub, live_submit s e sub -> phase s = Awaiting) as Hlive by (by intros ? (? & ? & _)).
  assert (forall v, verdict_signal s e v -> phase s = Awaiting) as Hver.
  { intros v (_ & sub & ? & _). eauto. }
  unfold budget. destruct H; simpl; rewrite ?Hn in *.
  - rewrite H. simpl. by_budget.
  - rewrite H. simpl. by_budget.
  - destruct H as (_ & -> & _). simpl. by_budget.
  - destruct H as (_ & -> & _). simpl. by_budget.
  - rewrite (Hver _ H). simpl. by_budget.
  - rewrite (Hver _ H). simpl.
    split; [|lia]. etransitivity; [apply budget_loop with (c := N.of_nat (cur s)); lia|by_budget].
  - rewrite (Hver _ H). simpl. by_budget.
  - rewrite (Hver _ H). simpl. split; [|lia]. etransitivity; [apply budget_end; lia|by_budget].
  - rewrite (Hver _ H). simpl.
    split; [|lia]. etransitivity; [apply budget_loop with (c := N.of_nat (cur s)); lia|by_budget].
  - rewrite (Hver _ H). simpl. split; [|lia]. etransitivity; [apply budget_end; lia|by_budget].
  - rewrite (Hlive _ H). simpl. by_budget.
  - rewrite (Hlive _ H). simpl. by_budget.
  - rewrite (Hlive _ H). simpl. by_budget.
  - destruct H as [->| ->]; simpl; by_budget.
  - destruct H as [->| ->]; simpl; by_budget.
  - destruct H as [->|[->| ->]]; simpl; by_budget.
Qed.

Definition count_resumes (es : list Event) : N := foldr (fun e n => resumes e + n) 0 es.

Lemma count_resumes_snoc es e : count_resumes (es ++ [e]) = count_resumes es + resumes e.
Proof.
  unfold count_resumes. rewrite foldr_app. simpl.
  induction es as [|x es IH]; simpl; [lia|]. rewrite IH. lia.
Qed.

(** C36: without a human resuming it a run delivers at most
    [(max_iterations + 1) * roles] prompts, however its roles submit, idle and
    send work back; each resume allows one more. The iteration count never
    overflows its 32 bits. *)
Theorem prompts_bounded rs max es s acts :
  rs <> [] -> N.of_nat (length es) < U32 -> run (State_new rs max) es = Some (s, acts) ->
  N.of_nat (length (injects acts))
    <= (max + 1) * N.of_nat (length rs) + count_resumes es
  /\ iteration s <= N.of_nat (length es).
Proof.
  intros Hne Hlen Hrun.
  destruct (run_trace (State_new rs max) es) as (s' & acts' & Hr & Ht & _ & _);
    [auto with uniterm|]. rewrite Hrun in Hr. injection Hr as <- <-. clear Hrun.
  assert (N.of_nat (length (injects acts)) + budget s
    <= (max + 1) * N.of_nat (length rs) + count_resumes es
    /\ iteration s <= N.of_nat (length es) /\ wf s) as (? & ? & _); [|split; [lia|done]].
  remember (State_new rs max) as s0 eqn:E0.
  induction Ht as [s|s es s1 acts e s2 a Ht IH Hstep Hans].
  - subst. simpl. split; [|split; [lia|by apply State_new_wf]]. unfold budget. simpl. lia.
  - rewrite length_app in *. simpl in *. destruct IH as (IHb & IHi & Hs1); [lia|done|].
    destruct (budget_step s1 e (s2, a) Hs1 Hans) as [Hb Hi]; [lia|]. simpl in *.
    rewrite injects_snoc, length_app, count_resumes_snoc.
    assert (N.of_nat (length (match a with Inject r t => [(r, t)] | _ => [] end)) = prompts a)
      as Hp by (by destruct a).
    split; [lia|]. split; [lia|]. exact (proj1 (answered_wf _ _ _ Hs1 Hans)).
Qed.

Definition submit_fix (t : N) (f : string) : Event :=
  ESubmit {| sub_token := t; sub_role := 1; sub_status := Done; sub_verdict := Some (Fix (lit f)) |}.

Lemma prompts_bounded_witness :
  exists s acts, run pair_state [EStart; EIdle 0; submit_fix 2 "a"; EIdle 0; submit_fix 4 "b";
      EIdle 0; submit_fix 6 "c"] = Some (s, acts)
    /\ phase s = Paused /\ length (injects acts) = 6%nat
    /\ N.of_nat (length (injects acts)) <= (2 + 1) * 2 + 0.
Proof.
  eexists. eexists. split; [vm_compute; reflexivity|]. split; [reflexivity|].
  split; [reflexivity|].
  refine (proj1 (prompts_bounded (roles pair_state) 2 [EStart; EIdle 0; submit_fix 2 "a"; EIdle 0;
    submit_fix 4 "b"; EIdle 0; submit_fix 6 "c"] _ _ _ _ _));
    [discriminate|vm_compute; reflexivity|vm_compute; reflexivity].
Defined.

(** A finished or aborted run ignores every event; a paused run ignores
    everything but a human's resume, which reopens the same role's turn with a
    fresh token and the loop state it had, and a human's stop. *)
Theorem paused_and_terminal s es :
  (phase s = PDone \/ phase s = Aborted ->
     run s es = Some (s, replicate (length es) Hold))
  /\ (phase s = Paused ->
       (Forall (fun e => e <> EResume /\ e <> EStop) es ->
          run s es = Some (s, replicate (length es) Hold))
       /\ run s [EResume] = Some (opened s (cur s) (iteration s) (last_fix s),
            [Inject (cur s) (next_token s)])
       /\ run s [EStop] = Some (with_phase s Aborted, [AbortRun (lit "stopped by human")])).
Proof.
  split; [|intros Hp; split_and!].
  - intros Hp. induction es as [|e es IH]; [done|]. simpl.
    assert (step s e = Some (s, Hold)) as -> by (unfold step; by destruct Hp as [->| ->]).
    simpl. by rewrite IH.
  - induction 1 as [|e es [H1 H2] _ IH]; [done|]. simpl.
    assert (step s e = Some (s, Hold)) as -> by (unfold step; rewrite Hp; by destruct e).
    simpl. by rewrite IH.
  - simpl. unfold step. by rewrite Hp.
  - simpl. unfold step. by rewrite Hp.
Qed.

Lemma paused_and_terminal_witness :
  run (with_phase pair_state Aborted) [EStart; EResume]
    = Some (with_phase pair_state Aborted, [Hold; Hold]).
Proof.
  exact (proj1 (paused_and_terminal (with_phase pair_state Aborted) [EStart; EResume])
    (or_intror eq_refl)).
Defined.

(** ** Properties of provider selections *)

Definition selection_ok (rs : list Role) (s : RoleProviderSelection) : Prop :=
  sel_role s <> [] /\ len8 (sel_role s) <= 256 /\ sel_provider s <> []
  /\ len8 (sel_provider s) <= 256 /\ is_Some (role_position rs (sel_role s)).

(** The provider selected for the role at a position. *)
Definition chosen (rs : list Role) (ss : list RoleProviderSelection) (i : nat) : option str :=
  sel_provider <$> head (filter (fun s => role_position rs (sel_role s) = Some i) ss).

Lemma role_position_name rs a i :
  role_position rs a = Some i -> exists r, rs !! i = Some r /\ role_name r = a.
Proof.
  unfold role_position. destruct (list_find _ rs) as [[j r]|] eqn:E; [|done]. intros [= ->].
  apply list_find_Some in E as (? & ? & _). eauto.
Qed.

Lemma chosen_snoc rs ss s i :
  role_position rs (sel_role s) = Some i -> sel_role s ∉ map sel_role ss ->
  chosen rs ss i = None /\
  forall j, chosen rs (ss ++ [s]) j = if decide (j = i) then Some (sel_provider s) else chosen rs ss j.
Proof.
  intros Hpos Hnew.
  assert (filter (fun s => role_position rs (sel_role s) = Some i) ss = []) as Hnil.
  { destruct (filter _ ss) as [|x l] eqn:F; [done|]. exfalso.
    assert (x ∈ x :: l) as Hx by left. rewrite <- F in Hx.
    apply list_elem_of_filter in Hx as [Hx Hin]. apply Hnew.
    destruct (role_position_name _ _ _ Hx) as (r & Hr & Hn).
    destruct (role_position_name _ _ _ Hpos) as (r' & Hr' & Hn').
    rewrite Hr in Hr'. injection Hr' as <-. rewrite <- Hn', Hn.
    by apply list_elem_of_fmap_2. }
  split; [unfold chosen; by rewrite Hnil|]. intros j. unfold chosen. rewrite filter_app.
  destruct (decide (j = i)) as [->|Hd].
  - rewrite Hnil. simpl. rewrite filter_cons_True by done. done.
  - rewrite filter_cons_False by congruence. rewrite filter_nil, app_nil_r. done.
Qed.

Definition rep (rs : list Role) (al : list (option str)) (ss : list RoleProviderSelection) : Prop :=
  length al = length rs /\ forall i, (i < length rs)%nat -> al !! i = Some (chosen rs ss i).

Lemma align_one_spec rs al ss s :
  rep rs al ss -> Forall (selection_ok rs) ss ->
  (selection_ok rs s /\ sel_role s ∉ map sel_role ss /\
     exists al', align_one rs al s = Ok al' /\ rep rs al' (ss ++ [s]))
  \/ (~ (selection_ok rs s /\ sel_role s ∉ map sel_role ss) /\ is_ok (align_one rs al s) = false).
Proof.
  intros [Hlen Hrep] Hall. unfold align_one, selection_ok.
  case_bool_decide; [right; split; [tauto|done]|].
  destruct (N.ltb_spec 256 (len8 (sel_role s))); [right; split; [lia|done]|].
  case_bool_decide; [right; split; [tauto|done]|].
  destruct (N.ltb_spec 256 (len8 (sel_provider s))); [right; split; [lia|done]|].
  destruct (role_position rs (sel_role s)) as [i|] eqn:Hpos.
  2: { right. split; [|done]. intros [(_ & _ & _ & _ & [? ?]) _]. done. }
  destruct (role_position_name _ _ _ Hpos) as (r & Hr & Hn).
  pose proof (lookup_lt_Some _ _ _ Hr) as Hi. rewrite (Hrep i Hi). simpl.
  destruct (decide (sel_role s ∈ map sel_role ss)) as [Hin|Hnin].
  - right. split; [tauto|]. rewrite bool_decide_eq_true_2; [done|]. unfold chosen.
    apply list_elem_of_fmap in Hin as (x & Hx & Hin).
    destruct (filter _ ss) as [|y l] eqn:F; [|done]. exfalso.
    apply (filter_nil_not_elem_of _ _ x F); [|done]. by rewrite <- Hx.
  - left. destruct (chosen_snoc rs ss s i Hpos Hnin) as [Hnone Hsnoc].
    rewrite Hnone, bool_decide_eq_false_2 by (by intros [? ?]).
    split_and!; [done..|by eexists|done|]. eexists. split; [done|]. split; [by rewrite length_insert|].
    intros j Hj. rewrite Hsnoc, list_lookup_insert.
    destruct (decide (j = i)) as [->|Hd].
    + rewrite decide_True; [done|]. split; [done|lia].
    + rewrite decide_False by (intros [? _]; congruence). by apply Hrep.
Qed.

Lemma align_loop_spec rs al ss1 ss2 :
  rep rs al ss1 -> Forall (selection_ok rs) ss1 -> NoDup (map sel_role ss1) ->
  (Forall (selection_ok rs) (ss1 ++ ss2) /\ NoDup (map sel_role (ss1 ++ ss2)) /\
     exists al', align_loop rs al ss2 = Ok al' /\ rep rs al' (ss1 ++ ss2))
  \/ (~ (Forall (selection_ok rs) (ss1 ++ ss2) /\ NoDup (map sel_role (ss1 ++ ss2)))
      /\ is_ok (align_loop rs al ss2) = false).
Proof.
  revert al ss1. induction ss2 as [|s ss2 IH]; intros al ss1 Hrep Hall Hnd.
  - left. rewrite app_nil_r. eauto.
  - replace (ss1 ++ s :: ss2) with ((ss1 ++ [s]) ++ ss2) by (by rewrite <- app_assoc). simpl.
    destruct (align_one_spec rs al ss1 s Hrep Hall) as [(Hok & Hnew & al' & -> & Hrep')|[Hbad Herr]].
    + apply IH; [done|apply Forall_app; auto|].
      rewrite map_app. apply NoDup_app. split_and!; [done| |apply NoDup_singleton].
      intros x Hx ->%list_elem_of_singleton. done.
    + right. destruct (align_one rs al s) as [?|e]; [done|]. split; [|done].
      intros [HF HN]. apply Hbad. rewrite !map_app in HN.
      apply Forall_app in HF as [HF _]. apply Forall_app in HF as [_ HF].
      split; [by inversion HF|]. apply NoDup_app in HN as [HN _].
      apply NoDup_app in HN as (_ & HN & _). intros Hin. apply (HN _ Hin). left.
Qed.

(** Provider selections are accepted exactly when every one names a known
    role and a provider within 256 bytes and no role is named twice; the result
    then lists, for each role in order, the provider chosen for it, if any. *)
Theorem align_selections_spec rs ss :
  (Forall (selection_ok rs) ss /\ NoDup (map sel_role ss) /\
     exists al, align_role_provider_selections rs ss = Ok al /\ length al = length rs /\
       forall i, (i < length rs)%nat -> al !! i = Some (chosen rs ss i))
  \/ (~ (Forall (selection_ok rs) ss /\ NoDup (map sel_role ss)) /\
      exists e, align_role_provider_selections rs ss = Err e).
Proof.
  destruct (align_loop_spec rs (replicate (length rs) None) [] ss) as [(? & ? & al & ? & ?)|[? He]].
  - split; [by rewrite length_replicate|]. intros i Hi. by rewrite lookup_replicate_2.
  - constructor.
  - constructor.
  - left. unfold align_role_provider_selections. eauto.
  - right. split; [done|]. unfold align_role_provider_selections.
    destruct (align_loop _ _ _); [done|eauto].
Qed.

(** ** Properties of the prompts *)

Lemma is_prefix_app_long p s c b :
  c ∉ tail p -> s <> [] -> is_prefix p (s ++ c :: b) = is_prefix p s.
Proof.
  intros Hc. assert (forall q s, c ∉ q -> is_prefix q (s ++ c :: b) = is_prefix q s) as Hq.
  { induction q as [|x q IH]; intros s' Hq; [by destruct s'|]. destruct s' as [|y s']; simpl.
    - apply andb_false_iff. left. apply N.eqb_neq. intros ->. apply Hq. left.
    - rewrite IH; [done|]. intros H. apply Hq. by right. }
  destruct p as [|x p]; [by destruct s|]. destruct s as [|y s]; [done|]. intros _. simpl.
  by rewrite Hq.
Qed.

Lemma is_prefix_length p s : is_prefix p s = true -> (length p <= length s)%nat.
Proof.
  revert s. induction p as [|x p IH]; intros [|y s]; simpl; intros H; try done; try lia.
  apply andb_true_iff in H as [_ H]. apply IH in H. lia.
Qed.

(** A pattern that starts with a character it does not repeat cannot match
    across the start of another such character. *)
Lemma replace_from_app c p to a b k :
  c ∉ p -> (k <= length a)%nat ->
  replace_from (c :: p) to k (a ++ c :: b) =
    replace_from (c :: p) to k a ++ replace_from (c :: p) to 0 (c :: b).
Proof.
  intros Hc. revert k. induction a as [|x a IH]; intros k Hk.
  - simpl in Hk. by destruct k; [|lia].
  - destruct k as [|k]; [|simpl; apply IH; simpl in Hk; lia].
    change ((x :: a) ++ c :: b) with (x :: a ++ c :: b). cbn [replace_from].
    change (x :: a ++ c :: b) with ((x :: a) ++ c :: b).
    rewrite (is_prefix_app_long (c :: p) (x :: a)) by done.
    destruct (is_prefix (c :: p) (x :: a)) eqn:E.
    + apply is_prefix_length in E. simpl in E. rewrite IH by (simpl; lia). by rewrite app_assoc.
    + rewrite IH by lia. done.
Qed.

Lemma replace_app c p to a b :
  c ∉ p -> replace (c :: p) to (a ++ c :: b) = replace (c :: p) to a ++ replace (c :: p) to (c :: b).
Proof. intros Hc. apply replace_from_app; [done|lia]. Qed.

Lemma replace_absent c p to a : c ∉ a -> replace (c :: p) to a = a.
Proof.
  unfold replace. induction a as [|x a IH]; intros Ha; [done|].
  cbn [replace_from is_prefix]. destruct (N.eqb_spec c x) as [->|Hx].
  - exfalso. apply Ha. left.
  - simpl. rewrite IH; [done|]. intros H. apply Ha. by right.
Qed.

Lemma replace_hit c p to b :
  replace (c :: p) to ((c :: p) ++ b) = to ++ replace (c :: p) to b.
Proof.
  unfold replace. change ((c :: p) ++ b) with (c :: p ++ b). cbn [replace_from].
  assert (forall q, is_prefix q (q ++ b) = true) as Hq.
  { induction q as [|x q IH]; [done|]. simpl. by rewrite N.eqb_refl. }
  change (c :: p ++ b) with ((c :: p) ++ b). rewrite Hq. f_equal. simpl. rewrite Nat.sub_0_r.
  assert (forall q, replace_from (c :: p) to (length q) (q ++ b) = replace_from (c :: p) to 0 b) as ->.
  { induction q as [|x q IH]; [done|]. simpl. apply IH. }
  done.
Qed.

Definition brace : char := 123.

(** The text before the first placeholder. *)
Fixpoint until_brace (s : str) : str :=
  match s with
  | c :: s' => if c =? brace then [] else c :: until_brace s'
  | [] => []
  end.

(** The two literal parts of a bundled prompt: before the goal, and between the
    goal and the completion command. *)
Definition before_goal (spec : RoleSpec) : str := until_brace (prompt spec).
Definition after_goal (spec : RoleSpec) : str :=
  until_brace (drop (length (before_goal spec) + 6) (prompt spec)).

Definition bundled : list RoleSpec := concat (map template_roles WORKFLOW_TEMPLATES).

Lemma bundled_prompts :
  forallb (fun spec => bool_decide (prompt spec =
    before_goal spec ++ lit "{goal}" ++ after_goal spec ++ lit "{submit}")) bundled = true.
Proof. vm_compute. reflexivity. Qed.

Lemma until_brace_absent s : brace ∉ until_brace s.
Proof.
  induction s as [|c s IH]; simpl; [by intros ?%elem_of_nil|].
  destruct (N.eqb_spec c brace) as [|Hc]; [by intros ?%elem_of_nil|].
  intros [?|?]%elem_of_cons; [congruence|done].
Qed.

Lemma brace_absent s : forallb (fun c => negb (c =? brace)) s = true -> brace ∉ s.
Proof.
  rewrite forallb_forall. intros H Hin. apply list_elem_of_In, H in Hin.
  by rewrite N.eqb_refl in Hin.
Qed.

Lemma render_tail spec goal token text :
  prompt spec = text ++ lit "{submit}" ->
  render_role_prompt spec goal token =
    replace (lit "{submit}") (submit_command (spec_verifier spec) token)
      (replace (lit "{token}") (dec token)
        (replace (lit "{role}") (spec_name spec) (replace (lit "{goal}") goal text)))
    ++ submit_command (spec_verifier spec) token.
Proof.
  intros Hp. unfold render_role_prompt. rewrite Hp.
  change (lit "{submit}") with (brace :: lit "submit}") at 1 2 3.
  change (lit "{goal}") with (brace :: lit "goal}").
  change (lit "{role}") with (brace :: lit "role}").
  change (lit "{token}") with (brace :: lit "token}").
  assert (forall q to, is_prefix (brace :: q) (brace :: lit "submit}") = false ->
    replace (brace :: q) to (brace :: lit "submit}") = brace :: lit "submit}") as Hkeep.
  { intros q to Hf. unfold replace. cbn [replace_from]. rewrite Hf. f_equal. }
  rewrite replace_app by (by apply brace_absent). rewrite Hkeep by done.
  rewrite replace_app by (by apply brace_absent). rewrite Hkeep by done.
  rewrite replace_app by (by apply brace_absent). rewrite Hkeep by done.
  rewrite replace_app by (by apply brace_absent). f_equal.
  rewrite <- (app_nil_r (brace :: lit "submit}")) at 2. rewrite replace_hit.
  by rewrite app_nil_r.
Qed.

(** Every prompt of a bundled template ends with the exact completion
    command of its role and live token, whatever the goal says; and a goal
    without a brace appears between the template's own words, unchanged. *)
Theorem prompt_carries_contract t spec goal token :
  t ∈ WORKFLOW_TEMPLATES -> spec ∈ template_roles t ->
  (exists text, render_role_prompt spec goal token =
     text ++ submit_command (spec_verifier spec) token)
  /\ (brace ∉ goal -> render_role_prompt spec goal token =
        before_goal spec ++ goal ++ after_goal spec ++ submit_command (spec_verifier spec) token).
Proof.
  intros Ht Hspec. assert (prompt spec =
    before_goal spec ++ lit "{goal}" ++ after_goal spec ++ lit "{submit}") as Hp.
  { pose proof bundled_prompts as H. rewrite forallb_forall in H.
    apply (bool_decide_eq_true_1 _), H. unfold bundled. apply in_concat. exists (template_roles t).
    split; [apply in_map|]; by apply list_elem_of_In. }
  rewrite !app_assoc in Hp.
  rewrite (render_tail spec goal token _ Hp). split; [by eexists|]. intros Hgoal.
  pose proof (until_brace_absent (prompt spec)) as Hb.
  pose proof (until_brace_absent (drop (length (before_goal spec) + 6) (prompt spec))) as Ha.
  fold (before_goal spec) in Hb. fold (after_goal spec) in Ha.
  assert (replace (lit "{goal}") goal ((before_goal spec ++ lit "{goal}") ++ after_goal spec)
    = before_goal spec ++ goal ++ after_goal spec) as ->.
  { change (lit "{goal}") with (brace :: lit "goal}"). rewrite <- app_assoc.
    change ((brace :: lit "goal}") ++ after_goal spec) with (brace :: lit "goal}" ++ after_goal spec).
    rewrite replace_app by (by apply brace_absent).
    rewrite replace_absent by done. f_equal.
    change (brace :: lit "goal}" ++ after_goal spec) with ((brace :: lit "goal}") ++ after_goal spec).
    rewrite (replace_hit brace (lit "goal}")).
    f_equal. by apply replace_absent. }
  assert (brace ∉ before_goal spec ++ goal ++ after_goal spec) as Habs.
  { rewrite !elem_of_app. tauto. }
  rewrite (replace_absent brace (lit "role}")) by done.
  rewrite (replace_absent brace (lit "token}")) by done.
  rewrite (replace_absent brace (lit "submit}")) by done. by rewrite <- !app_assoc.
Qed.

Lemma prompt_carries_contract_witness :
  exists text, render_role_prompt verifier_spec (lit "fix {submit}") 9 =
    text ++ submit_command true 9.
Proof.
  refine (proj1 (prompt_carries_contract
    {| template_name := lit "pair"; summary := lit "builder implements, verifier reviews";
       template_roles := [builder_spec; verifier_spec] |} verifier_spec _ 9 _ _)).
  - right. left.
  - right. left.
Defined.
