(* ===== verification/Inbox.v ===== *)
(** * The Project inbox

    [uniterm-core/src/inbox.rs]: the bounded board of Project conversations.
    [Board] is the state; [record] appends an event and projects it, [apply]
    validates an operation and records its events; [expire], [forget_pane] and
    [retain_projects] are the other operations. A [BTreeMap] is a [gmap], a
    [BTreeSet] a [gset], iterated in increasing order where the order shows; a
    [VecDeque] is a list with its front first. The sequence and revision
    counters grow by one per recorded event and are left unbounded. *)

From S2P Require Import Prelude.

Definition BODY_LIMIT : N := 8192.
Definition PROJECT_LIMIT : N := 1000.
Definition BYTE_LIMIT : N := 8 * 1024 * 1024.
Definition TTL_MS : N := 24 * 60 * 60 * 1000.

Inductive Author : Set :=
| Human
| Agent (pane invocation : N).

#[global] Instance Author_eq_dec : EqDecision Author.
Proof. solve_decision. Defined.

#[global] Instance Author_countable : Countable Author.
Proof.
  refine (inj_countable' (fun a => match a with Human => None | Agent p i => Some (p, i) end)
    (fun o => match o with None => Human | Some (p, i) => Agent p i end) _).
  by intros [].
Defined.

Inductive Kind : Set :=
| Plan | Proposal | Critique | Feedback | Question | Answer | Finding | Request
| Handoff | Decision | Blocked.

#[global] Instance Kind_eq_dec : EqDecision Kind.
Proof. solve_decision. Defined.

Record Message : Set := {
  m_id : N; m_project : N; m_author : Author; m_kind : Kind; m_body : str;
  m_reply_to : option N; m_thread : N; m_to : option Author; m_task : option N;
  m_key : str; m_created_ms : N; m_expires_ms : N; m_ttl_ms : N }.

Record Claim : Set := { c_owner : Author; c_revision : N; c_expires_ms : N }.

Record Entry : Set := {
  message : Message; revision : N; changed : N; acknowledged : gset Author;
  claim : option Claim }.

Inductive Event : Set :=
| EPost (m : Message)
| EAck (id : N) (author : Author)
| EClaim (id : N) (claim : option Claim)
| ERemove (id : N)
| EPause (project : N) (paused : bool)
| ERevoke (author : Author)
| EGrant (author : Author).

Inductive Operation : Set :=
| Discover
| Credential
| OList (after : N) (thread : option N) (limit : N)
| Watch (after timeout_ms : N)
| Post (kind : Kind) (body : str) (reply_to : option N) (to : option Author)
    (task : option N) (key : str) (ttl_ms : N)
| Ack (id : N)
| OClaim (id revision lease_ms : N)
| Release (id revision : N)
| Pause (paused : bool)
| Clear (confirmed : bool)
| Revoke (author : Author).

Record Page : Set := {
  p_entries : list Entry; cursor : N; p_floor : N; more : bool; p_paused : bool }.

Record Board : Set := {
  journal : list (N * Event);
  b_entries : gmap N Entry;
  projects : gmap N (gset N);
  paused : gset N;
  revoked : gset Author;
  sequence : N;
  floor : N;
  bytes : N;
  b_changed : gmap N N;
  rates : gmap Author (list N) }.

(** [Board::default()] *)
Definition empty_board : Board := {|
  journal := []; b_entries := ∅; projects := ∅; paused := ∅; revoked := ∅;
  sequence := 0; floor := 0; bytes := 0; b_changed := ∅; rates := ∅ |}.

(** ** Projecting an event *)

Definition event_project (b : Board) (ev : Event) : option N :=
  match ev with
  | EPost m => Some (m_project m)
  | EAck id _ | EClaim id _ | ERemove id => m_project ∘ message <$> b_entries b !! id
  | EPause p _ => Some p
  | ERevoke _ | EGrant _ => None
  end.

(** The sequence number, the Project's change mark and the journal, written
    before the event is projected. *)
Definition append (b : Board) (ev : Event) : Board :=
  let seq := sequence b + 1 in
  {| journal := journal b ++ [(seq, ev)];
     b_entries := b_entries b; projects := projects b; paused := paused b;
     revoked := revoked b; sequence := seq; floor := floor b; bytes := bytes b;
     b_changed := match event_project b ev with
       | Some p => <[p := seq]> (b_changed b)
       | None => b_changed b
       end;
     rates := rates b |}.

Definition project_set (b : Board) (p : N) : gset N := default ∅ (projects b !! p).

Definition project_post (b : Board) (m : Message) : Board :=
  {| journal := journal b;
     b_entries := <[m_id m := {| message := m; revision := 0; changed := sequence b;
       acknowledged := ∅; claim := None |}]> (b_entries b);
     projects := <[m_project m := {[m_id m]} ∪ project_set b (m_project m)]> (projects b);
     paused := paused b; revoked := revoked b; sequence := sequence b; floor := floor b;
     bytes := bytes b + len8 (m_body m) * 2; b_changed := b_changed b;
     rates := <[m_author m := default [] (rates b !! m_author m) ++ [m_created_ms m]]> (rates b) |}.

Definition with_entry (b : Board) (id : N) (f : Entry -> Entry) : Board :=
  {| journal := journal b; b_entries := alter f id (b_entries b); projects := projects b;
     paused := paused b; revoked := revoked b; sequence := sequence b; floor := floor b;
     bytes := bytes b; b_changed := b_changed b; rates := rates b |}.

Definition ack_entry (a : Author) (seq : N) (e : Entry) : Entry :=
  {| message := message e; revision := revision e; changed := seq;
     acknowledged := {[a]} ∪ acknowledged e; claim := claim e |}.

Definition claim_entry (c : option Claim) (seq : N) (e : Entry) : Entry :=
  {| message := message e; revision := revision e + 1; changed := seq;
     acknowledged := acknowledged e; claim := c |}.

Definition is_post_of (id : N) (ev : Event) : bool :=
  match ev with EPost m => m_id m =? id | _ => false end.

Definition project_remove (b : Board) (id : N) : Board :=
  match b_entries b !! id with
  | None => b
  | Some e =>
      let p := m_project (message e) in
      {| journal := filter (fun je => is_post_of id je.2 = false) (journal b);
         b_entries := delete id (b_entries b);
         projects := match projects b !! p with
           | Some ids =>
               let ids' := ids ∖ {[id]} in
               if bool_decide (ids' = ∅) then delete p (projects b) else <[p := ids']> (projects b)
           | None => projects b
           end;
         paused := paused b; revoked := revoked b; sequence := sequence b;
         floor := sequence b; bytes := bytes b - len8 (m_body (message e)) * 2;
         b_changed := b_changed b; rates := rates b |}
  end.

Definition with_paused (b : Board) (ps : gset N) : Board :=
  {| journal := journal b; b_entries := b_entries b; projects := projects b;
     paused := ps; revoked := revoked b; sequence := sequence b; floor := floor b;
     bytes := bytes b; b_changed := b_changed b; rates := rates b |}.

Definition with_revoked (b : Board) (rs : gset Author) : Board :=
  {| journal := journal b; b_entries := b_entries b; projects := projects b;
     paused := paused b; revoked := rs; sequence := sequence b; floor := floor b;
     bytes := bytes b; b_changed := b_changed b; rates := rates b |}.

Definition project_event (b : Board) (ev : Event) : Board :=
  match ev with
  | EPost m => project_post b m
  | EAck id a => with_entry b id (ack_entry a (sequence b))
  | EClaim id c => with_entry b id (claim_entry c (sequence b))
  | ERemove id => project_remove b id
  | EPause p on => with_paused b (if on then {[p]} ∪ paused b else paused b ∖ {[p]})
  | EGrant _ => b
  | ERevoke a => with_revoked b ({[a]} ∪ revoked b)
  end.

Definition JOURNAL_LIMIT : nat := 4096.

(** [while self.journal.len() > 4096 { pop_front; floor = floor.max(seq) }] *)
Fixpoint trim_journal (j : list (N * Event)) (fl : N) : list (N * Event) * N :=
  match j with
  | [] => ([], fl)
  | je :: j' =>
      if (JOURNAL_LIMIT <? length j)%nat then trim_journal j' (N.max fl je.1) else (j, fl)
  end.

Definition with_journal (b : Board) (j : list (N * Event)) (fl : N) : Board :=
  {| journal := j; b_entries := b_entries b; projects := projects b;
     paused := paused b; revoked := revoked b; sequence := sequence b; floor := fl;
     bytes := bytes b; b_changed := b_changed b; rates := rates b |}.

Definition record (b : Board) (ev : Event) : Board :=
  let b1 := project_event (append b ev) ev in
  let '(j, fl) := trim_journal (journal b1) (floor b1) in
  with_journal b1 j fl.

Definition record_all (b : Board) (evs : list Event) : Board := foldl record b evs.

(** ** Reads *)

Definition entry (b : Board) (id : N) : option Entry := b_entries b !! id.
Definition changed_mark (b : Board) (p : N) : N := default 0 (b_changed b !! p).

(** A [BTreeSet<u64>] in iteration order. *)
Definition set_iter (s : gset N) : list N := sort_by N.leb (elements s).

Definition project_ids (b : Board) (p : N) : list N := set_iter (project_set b p).

(** [projects.get(&p).into_iter().flatten().filter_map(|id| entries.get(id))] *)
Definition project_entries (b : Board) (p : N) : list Entry :=
  omap (fun id => b_entries b !! id) (project_ids b p).

Definition authorize (b : Board) (a : Author) : result unit str :=
  if bool_decide (a ∈ revoked b) then Err (lit "revoked") else Ok tt.

Definition validate_cursor (b : Board) (after : N) : result unit str :=
  if (sequence b <? after) || (negb (after =? 0) && (after <? floor b)) then
    Err (lit "cursor_expired")
  else Ok tt.

Definition in_thread (thread : option N) (e : Entry) : bool :=
  match thread with Some t => m_thread (message e) =? t | None => true end.

Definition list_page (b : Board) (p after : N) (thread : option N) (limit : N) : result Page str :=
  match validate_cursor b after with
  | Err e => Err e
  | Ok _ =>
      let es := filter (fun e => (after <? changed e) && in_thread thread e = true)
        (project_entries b p) in
      let es := sort_by (fun x y => changed x <=? changed y) es in
      let limit := N.to_nat (nclamp limit 1 20) in
      let more := (limit <? length es)%nat in
      let es := take limit es in
      let cursor := if more then match last es with Some e => changed e | None => after end
        else sequence b in
      Ok {| p_entries := es; cursor := cursor; p_floor := floor b; more := more;
            p_paused := bool_decide (p ∈ paused b) |}
  end.

Definition min_opt (l : list N) : option N :=
  match l with [] => None | x :: l' => Some (foldl N.min x l') end.

Definition deadline (b : Board) : option N :=
  min_opt (concat (map (fun e => m_expires_ms (message e) ::
    match claim e with Some c => [c_expires_ms c] | None => [] end) (values (b_entries b)))).

(** The ids of the entries that satisfy a test, in iteration order. *)
Definition ids_where (b : Board) (f : Entry -> bool) : list N :=
  map (fun e => m_id (message e)) (filter (fun e => f e = true) (values (b_entries b))).

Definition expired (now : N) (e : Entry) : bool := m_expires_ms (message e) <=? now.

Definition claim_expired (now : N) (e : Entry) : bool :=
  match claim e with Some c => c_expires_ms c <=? now | None => false end.

Definition expire (b : Board) (now : N) : Board :=
  let b := record_all b (map ERemove (ids_where b (expired now))) in
  record_all b (map (fun id => EClaim id None) (ids_where b (claim_expired now))).

Definition of_pane (pane : N) (a : Author) : bool :=
  match a with Agent p _ => p =? pane | Human => false end.

Definition claimed_by (f : Author -> bool) (e : Entry) : bool :=
  match claim e with Some c => f (c_owner c) | None => false end.

Definition forget_pane (b : Board) (pane : N) : Board :=
  let b := record_all b (map (fun id => EClaim id None) (ids_where b (claimed_by (of_pane pane)))) in
  with_revoked b (filter (fun a => of_pane pane a = false) (revoked b)).

Definition forget_project (b : Board) (p : N) : Board :=
  let b := record_all b (map ERemove (project_ids b p)) in
  {| journal := journal b; b_entries := b_entries b; projects := projects b;
     paused := paused b ∖ {[p]}; revoked := revoked b; sequence := sequence b;
     floor := floor b; bytes := bytes b; b_changed := delete p (b_changed b);
     rates := rates b |}.

Definition retain_projects (b : Board) (live : gset N) : Board :=
  let gone := filter (fun p => p ∉ live) (map fst (entries (b_changed b))) in
  foldl forget_project b gone.

(** ** Operations *)

(** [times.front()] older than a minute is popped. *)
Fixpoint pop_old (now : N) (times : list N) : list N :=
  match times with
  | t :: ts => if 60000 <=? ssub now t then pop_old now ts else times
  | [] => []
  end.

Definition prune_rates (b : Board) (now : N) : Board :=
  {| journal := journal b; b_entries := b_entries b; projects := projects b;
     paused := paused b; revoked := revoked b; sequence := sequence b; floor := floor b;
     bytes := bytes b; b_changed := b_changed b;
     rates := omap (fun times =>
       match pop_old now times with [] => None | ts => Some ts end) (rates b) |}.

Abbreviation reply := (result (option N) str) (only parsing).

Definition bad_char (c : char) : bool := is_control c && negb (c =? 10) && negb (c =? 9).

Definition invalid_post (body key : str) (ttl_ms : N) : bool :=
  bool_decide (trim body = []) || (BODY_LIMIT <? len8 body) || existsb bad_char body
  || bool_decide (key = []) || (128 <? len8 key)
  || negb ((1000 <=? ttl_ms) && (ttl_ms <=? TTL_MS)).

Definition same_key (a : Author) (key : str) (e : Entry) : Prop :=
  m_author (message e) = a /\ m_key (message e) = key.

#[global] Instance same_key_dec a key e : base.Decision (same_key a key e).
Proof. unfold same_key. apply _. Defined.

Definition rate_of (b : Board) (a : Author) : list N := default [] (rates b !! a).

(** [self.entries.get(&id).filter(|e| e.message.project == project)] *)
Definition project_entry (b : Board) (p id : N) : option Entry :=
  e ← b_entries b !! id; if m_project (message e) =? p then Some e else None.

Definition in_thread_of (t : N) (e : Entry) : Prop := m_thread (message e) = t.

#[global] Instance in_thread_of_dec t e : base.Decision (in_thread_of t e).
Proof. unfold in_thread_of. apply _. Defined.

(** The thread and expiry of a new post. *)
Definition place (b : Board) (p id now ttl_ms : N) (reply_to : option N) : result (N * N) str :=
  match reply_to with
  | Some parent =>
      match project_entry b p parent with
      | None => Err (lit "not_found")
      | Some pe =>
          let t := m_thread (message pe) in
          if 100 <=? N.of_nat (length (filter (in_thread_of t) (project_entries b p))) then
            Err (lit "thread_budget")
          else Ok (t, N.min (sadd u64_max now ttl_ms) (m_expires_ms (message pe)))
      end
  | None => Ok (id, sadd u64_max now ttl_ms)
  end.

Definition apply_post (b : Board) (p : N) (a : Author) (now : N) (kind : Kind) (body : str)
    (reply_to : option N) (to : option Author) (task : option N) (key : str) (ttl_ms : N)
    : Board * reply :=
  if invalid_post body key ttl_ms then (b, Err (lit "invalid_post"))
  else match list_find (same_key a key) (project_entries b p) with
  | Some (_, e) =>
      let m := message e in
      (b, if bool_decide (m_kind m = kind /\ m_body m = body /\ m_reply_to m = reply_to
              /\ m_to m = to /\ m_task m = task /\ m_ttl_ms m = ttl_ms)
          then Ok (Some (m_id m)) else Err (lit "idempotency_conflict"))
  | None =>
      if (PROJECT_LIMIT <=? N.of_nat (size (project_set b p)))
         || (BYTE_LIMIT <? bytes b + len8 body * 2)
         || (4000 <=? N.of_nat (size (b_entries b))) then (b, Err (lit "capacity"))
      else if bool_decide (is_Some (rates b !! a)) && (30 <=? N.of_nat (length (rate_of b a))) then
        (b, Err (lit "rate_limited"))
      else if bool_decide (rates b !! a = None) && (1024 <=? N.of_nat (size (rates b))) then
        (b, Err (lit "capacity"))
      else
        let id := sequence b + 1 in
        match place b p id now ttl_ms reply_to with
        | Err e => (b, Err e)
        | Ok (thread, expires_ms) =>
            (record b (EPost {| m_id := id; m_project := p; m_author := a; m_kind := kind;
               m_body := body; m_reply_to := reply_to; m_thread := thread; m_to := to;
               m_task := task; m_key := key; m_created_ms := now; m_expires_ms := expires_ms;
               m_ttl_ms := ttl_ms |}), Ok (Some id))
        end
  end.

(** A sum over the values of a map. *)
Definition map_sum {A} (f : A -> N) (m : gmap N A) : N :=
  foldr (fun e n => f e.2 + n) 0 (map_to_list m).

Definition acks (e : Entry) : N := N.of_nat (size (acknowledged e)).

Definition apply_ack (b : Board) (p : N) (a : Author) (id : N) : Board * reply :=
  match project_entry b p id with
  | None => (b, Err (lit "not_found"))
  | Some e =>
      if bool_decide (a ∈ acknowledged e) then (b, Ok (Some id))
      else if (64 <=? acks e) || (4096 <=? map_sum acks (b_entries b)) then
        (b, Err (lit "capacity"))
      else (record b (EAck id a), Ok (Some id))
  end.

(** Another live claim on the same Task. *)
Definition task_claimed (id task : N) (e : Entry) : bool :=
  negb (m_id (message e) =? id) && bool_decide (m_task (message e) = Some task)
  && bool_decide (is_Some (claim e)).

Definition owned_by_other (a : Author) (e : Entry) : bool :=
  match claim e with Some c => bool_decide (c_owner c <> a) | None => false end.

Definition apply_claim (b : Board) (p : N) (a : Author) (now id rev lease_ms : N) : Board * reply :=
  match project_entry b p id with
  | None => (b, Err (lit "not_found"))
  | Some e =>
      if negb (m_thread (message e) =? id) then (b, Err (lit "claim_thread_root"))
      else if negb (revision e =? rev) then (b, Err (lit "revision_conflict"))
      else if owned_by_other a e then (b, Err (lit "already_claimed"))
      else if match m_task (message e) with
              | Some task => existsb (task_claimed id task) (values (b_entries b))
              | None => false
              end then (b, Err (lit "task_already_claimed"))
      else if negb ((1000 <=? lease_ms) && (lease_ms <=? 3600000)) then
        (b, Err (lit "invalid_lease"))
      else (record b (EClaim id (Some {| c_owner := a; c_revision := rev + 1;
              c_expires_ms := N.min (sadd u64_max now lease_ms) (m_expires_ms (message e)) |})),
            Ok (Some id))
  end.

Definition apply_release (b : Board) (p : N) (a : Author) (id rev : N) : Board * reply :=
  match project_entry b p id with
  | None => (b, Err (lit "not_found"))
  | Some e =>
      if negb (revision e =? rev) then (b, Err (lit "revision_conflict"))
      else if negb (bool_decide (a = Human))
              && negb (claimed_by (fun o => bool_decide (o = a)) e) then (b, Err (lit "not_owner"))
      else if bool_decide (is_Some (claim e)) then (record b (EClaim id None), Ok (Some id))
      else (b, Ok (Some id))
  end.

Definition apply_revoke (b : Board) (a : Author) : Board * reply :=
  if bool_decide (a = Human) then (b, Err (lit "invalid_recipient"))
  else if bool_decide (a ∈ revoked b) then (b, Ok None)
  else if 1024 <=? N.of_nat (size (revoked b)) then (b, Err (lit "capacity"))
  else
    let b := record b (ERevoke a) in
    (record_all b (map (fun id => EClaim id None)
       (ids_where b (claimed_by (fun o => bool_decide (o = a))))), Ok None).

(** The match on the operation, after the common checks. *)
Definition dispatch (b : Board) (p : N) (a : Author) (op : Operation) (now : N) : Board * reply :=
  let human := bool_decide (a = Human) in
  match op with
  | Credential =>
      if human then (b, Err (lit "forbidden")) else (record b (EGrant a), Ok None)
  | Post kind body reply_to to task key ttl_ms =>
      apply_post b p a now kind body reply_to to task key ttl_ms
  | Ack id => apply_ack b p a id
  | OClaim id rev lease_ms => apply_claim b p a now id rev lease_ms
  | Release id rev => apply_release b p a id rev
  | Pause on =>
      if human then
        (if negb (Bool.eqb (bool_decide (p ∈ paused b)) on) then record b (EPause p on) else b, Ok None)
      else (b, Err (lit "forbidden"))
  | Clear true =>
      if human then (record_all b (map ERemove (project_ids b p)), Ok None)
      else (b, Err (lit "forbidden"))
  | Revoke x => if human then apply_revoke b x else (b, Err (lit "forbidden"))
  | Clear false | Discover | OList _ _ _ | Watch _ _ => (b, Err (lit "forbidden"))
  end.

(** Expiry and rate pruning happen before anything is checked. *)
Definition settle (b : Board) (now : N) : Board := prune_rates (expire b now) now.

Definition apply (b : Board) (p : N) (a : Author) (op : Operation) (now : N) : Board * reply :=
  let b := settle b now in
  match authorize b a with
  | Err e => (b, Err e)
  | Ok _ =>
      if bool_decide (p ∈ paused b) && negb (bool_decide (a = Human)) then (b, Err (lit "paused"))
      else dispatch b p a op now
  end.

(** ** What an event changes *)

Definition msgs (b : Board) : gmap N Message := message <$> b_entries b.

Lemma msgs_some b id m :
  msgs b !! id = Some m <-> exists e, b_entries b !! id = Some e /\ message e = m.
Proof. unfold msgs. rewrite lookup_fmap, fmap_Some. naive_solver. Qed.

Definition journal_step (b : Board) (ev : Event) : list (N * Event) :=
  let j := journal b ++ [(sequence b + 1, ev)] in
  match ev with
  | ERemove id =>
      match b_entries b !! id with
      | Some _ => filter (fun je => is_post_of id je.2 = false) j
      | None => j
      end
  | _ => j
  end.

Definition entries_step (b : Board) (ev : Event) : gmap N Entry :=
  let seq := sequence b + 1 in
  match ev with
  | EPost m => <[m_id m := {| message := m; revision := 0; changed := seq;
       acknowledged := ∅; claim := None |}]> (b_entries b)
  | EAck id a => alter (ack_entry a seq) id (b_entries b)
  | EClaim id c => alter (claim_entry c seq) id (b_entries b)
  | ERemove id => delete id (b_entries b)
  | _ => b_entries b
  end.

Lemma record_journal b ev :
  exists fl, trim_journal (journal_step b ev) fl = (journal (record b ev), floor (record b ev))
    /\ (fl = floor b \/ fl = sequence b + 1).
Proof.
  unfold record, journal_step. destruct ev as [m|id a|id c|id|p on|a|a]; simpl;
    try (destruct (trim_journal _ _) as [j fl] eqn:E; exists (floor b); rewrite E; auto).
  unfold project_remove. simpl. destruct (b_entries b !! id); simpl;
    destruct (trim_journal _ _) as [j fl] eqn:E; eexists; rewrite E; auto.
Qed.

(** Projections of [record] reduce to those of [project_event]. *)
Lemma record_eq b ev :
  record b ev = with_journal (project_event (append b ev) ev)
    (journal (record b ev)) (floor (record b ev)).
Proof. unfold record. by destruct (trim_journal _ _). Qed.

Lemma record_entries b ev : b_entries (record b ev) = entries_step b ev.
Proof.
  rewrite record_eq. destruct ev as [m|id a|id c|id|p on|a|a]; simpl; try done.
  unfold project_remove. simpl. destruct (b_entries b !! id) eqn:E; simpl; [done|].
  symmetry. by apply delete_id.
Qed.

Lemma record_sequence b ev : sequence (record b ev) = sequence b + 1.
Proof.
  rewrite record_eq. destruct ev as [m|id a|id c|id|p on|a|a]; simpl; try done.
  unfold project_remove. simpl. by destruct (b_entries b !! id).
Qed.

Definition msgs_step (b : Board) (ev : Event) : gmap N Message :=
  match ev with
  | EPost m => <[m_id m := m]> (msgs b)
  | ERemove id => delete id (msgs b)
  | _ => msgs b
  end.

Lemma fmap_alter_same {A B} (f : A -> B) (g : A -> A) (m : gmap N A) i :
  (forall x, f (g x) = f x) -> f <$> alter g i m = f <$> m.
Proof.
  intros H. apply map_eq. intros k. rewrite !lookup_fmap.
  destruct (decide (k = i)) as [->|].
  - rewrite lookup_alter_eq. destruct (m !! i); simpl; by rewrite ?H.
  - by rewrite lookup_alter_ne.
Qed.

Lemma record_msgs b ev : msgs (record b ev) = msgs_step b ev.
Proof.
  unfold msgs, msgs_step. rewrite record_entries.
  destruct ev as [m|id a|id c|id|p on|a|a]; simpl; try done.
  - by rewrite fmap_insert.
  - by apply fmap_alter_same.
  - by apply fmap_alter_same.
  - by rewrite fmap_delete.
Qed.

Definition rates_step (b : Board) (ev : Event) : gmap Author (list N) :=
  match ev with
  | EPost m => <[m_author m := rate_of b (m_author m) ++ [m_created_ms m]]> (rates b)
  | _ => rates b
  end.

Definition bytes_step (b : Board) (ev : Event) : N :=
  match ev with
  | EPost m => bytes b + len8 (m_body m) * 2
  | ERemove id =>
      match msgs b !! id with Some m => bytes b - len8 (m_body m) * 2 | None => bytes b end
  | _ => bytes b
  end.

Definition projects_step (b : Board) (ev : Event) : gmap N (gset N) :=
  match ev with
  | EPost m => <[m_project m := {[m_id m]} ∪ project_set b (m_project m)]> (projects b)
  | ERemove id =>
      match msgs b !! id with
      | Some m =>
          match projects b !! m_project m with
          | Some ids =>
              if bool_decide (ids ∖ {[id]} = ∅) then delete (m_project m) (projects b)
              else <[m_project m := ids ∖ {[id]}]> (projects b)
          | None => projects b
          end
      | None => projects b
      end
  | _ => projects b
  end.

Lemma record_others b ev :
  rates (record b ev) = rates_step b ev /\ bytes (record b ev) = bytes_step b ev
  /\ projects (record b ev) = projects_step b ev
  /\ b_changed (record b ev) =
       match event_project b ev with
       | Some p => <[p := sequence b + 1]> (b_changed b) | None => b_changed b end
  /\ revoked (record b ev) = match ev with ERevoke a => {[a]} ∪ revoked b | _ => revoked b end
  /\ paused (record b ev) = match ev with
       | EPause p on => if on then {[p]} ∪ paused b else paused b ∖ {[p]} | _ => paused b end.
Proof.
  rewrite record_eq. unfold bytes_step, projects_step, msgs.
  destruct ev as [m|id a|id c|id|p on|a|a]; simpl; try done.
  unfold project_remove. simpl. rewrite lookup_fmap.
  destruct (b_entries b !! id) as [e|] eqn:E; simpl; rewrite ?E; done.
Qed.

(** ** Sums over maps *)

Lemma map_sum_insert {A} (f : A -> N) (m : gmap N A) k x :
  m !! k = None -> map_sum f (<[k := x]> m) = f x + map_sum f m.
Proof.
  intros Hk. unfold map_sum.
  assert (forall l l' : list (N * A), l ≡ₚ l' ->
    foldr (fun e n => f e.2 + n) 0 l = foldr (fun e n => f e.2 + n) 0 l') as Hp.
  { induction 1; simpl; lia. }
  by rewrite (Hp _ _ (map_to_list_insert m k x Hk)).
Qed.

Lemma map_sum_delete {A} (f : A -> N) (m : gmap N A) k x :
  m !! k = Some x -> map_sum f m = f x + map_sum f (delete k m).
Proof.
  intros Hk. rewrite <- (insert_delete_id m k x Hk) at 1.
  apply map_sum_insert, lookup_delete_eq.
Qed.

Lemma map_sum_alter {A} (f : A -> N) (g : A -> A) (m : gmap N A) k x :
  m !! k = Some x -> map_sum f (alter g k m) + f x = map_sum f m + f (g x).
Proof.
  intros Hk. rewrite (map_sum_delete f m k x Hk).
  rewrite (map_sum_delete f (alter g k m) k (g x)) by (by rewrite lookup_alter_eq, Hk).
  assert (delete k (alter g k m) = delete k m) as ->; [|lia].
  apply map_eq. intros j. destruct (decide (j = k)) as [->|].
  - by rewrite !lookup_delete_eq.
  - by rewrite !lookup_delete_ne, lookup_alter_ne.
Qed.

Lemma map_sum_fmap {A B} (g : A -> B) (f : B -> N) (m : gmap N A) :
  map_sum f (g <$> m) = map_sum (f ∘ g) m.
Proof.
  unfold map_sum. rewrite map_to_list_fmap. induction (map_to_list m) as [|e l IH]; simpl; [done|].
  f_equal. exact IH.
Qed.

(** ** The invariant of one event *)

Record index_ok (b : Board) : Prop := {
  ix_id id m : msgs b !! id = Some m -> m_id m = id /\ 1 <= id <= sequence b;
  ix_project p id : id ∈ project_set b p <->
    exists m, msgs b !! id = Some m /\ m_project m = p;
  ix_nonempty p : projects b !! p <> Some ∅;
  ix_bytes : bytes b = map_sum (fun m => len8 (m_body m) * 2) (msgs b) }.

Record changes_ok (b : Board) : Prop := {
  ch_range id e : b_entries b !! id = Some e -> 1 <= changed e <= sequence b;
  ch_inj id id' e e' : b_entries b !! id = Some e -> b_entries b !! id' = Some e' ->
    changed e = changed e' -> id = id';
  ch_mark id e : b_entries b !! id = Some e ->
    changed e <= changed_mark b (m_project (message e));
  ch_floor : floor b <= sequence b }.

Record journal_ok (b : Board) : Prop := {
  jo_length : (length (journal b) <= JOURNAL_LIMIT)%nat;
  jo_sorted : StronglySorted (fun x y => x.1 < y.1) (journal b);
  jo_seq : Forall (fun je => je.1 <= sequence b) (journal b);
  jo_live s m : (s, EPost m) ∈ journal b -> msgs b !! m_id m = Some m }.

Record claims_ok (b : Board) : Prop := {
  cl_claim id e c : b_entries b !! id = Some e -> claim e = Some c ->
    m_thread (message e) = id /\ c_revision c = revision e
    /\ c_expires_ms c <= m_expires_ms (message e);
  cl_task id id' e e' t : b_entries b !! id = Some e -> b_entries b !! id' = Some e' ->
    is_Some (claim e) -> is_Some (claim e') ->
    m_task (message e) = Some t -> m_task (message e') = Some t -> id = id' }.

Record budgets_ok (b : Board) : Prop := {
  bu_bytes : bytes b <= BYTE_LIMIT;
  bu_size : N.of_nat (size (b_entries b)) <= 4000;
  bu_project p : N.of_nat (size (project_set b p)) <= PROJECT_LIMIT;
  bu_body id m : msgs b !! id = Some m -> len8 (m_body m) <= BODY_LIMIT;
  bu_rate a : N.of_nat (length (rate_of b a)) <= 30;
  bu_rates : N.of_nat (size (rates b)) <= 1024;
  bu_ack id e : b_entries b !! id = Some e -> acks e <= 64;
  bu_acks : map_sum acks (b_entries b) <= 4096;
  bu_revoked : N.of_nat (size (revoked b)) <= 1024 }.

(** The events the operations record. *)
Definition event_ok (b : Board) (ev : Event) : Prop :=
  match ev with
  | EPost m =>
      m_id m = sequence b + 1 /\ len8 (m_body m) <= BODY_LIMIT
      /\ bytes b + len8 (m_body m) * 2 <= BYTE_LIMIT
      /\ N.of_nat (size (b_entries b)) < 4000
      /\ N.of_nat (size (project_set b (m_project m))) < PROJECT_LIMIT
      /\ N.of_nat (length (rate_of b (m_author m))) < 30
      /\ (is_Some (rates b !! m_author m) \/ N.of_nat (size (rates b)) < 1024)
  | EAck id a =>
      (exists e, b_entries b !! id = Some e /\ acks e < 64) /\ map_sum acks (b_entries b) < 4096
  | EClaim id (Some c) =>
      exists e, b_entries b !! id = Some e /\ m_thread (message e) = id
        /\ c_revision c = revision e + 1 /\ c_expires_ms c <= m_expires_ms (message e)
        /\ forall t id' e', m_task (message e) = Some t -> b_entries b !! id' = Some e' ->
             id' <> id -> m_task (message e') = Some t -> claim e' = None
  | ERevoke a => N.of_nat (size (revoked b)) < 1024
  | EClaim _ None | ERemove _ | EPause _ _ | EGrant _ => True
  end.

Lemma msgs_step_inv b ev id m :
  msgs_step b ev !! id = Some m ->
  (ev = EPost m /\ m_id m = id) \/ msgs b !! id = Some m.
Proof.
  destruct ev as [m'|i a|i c|i|p on|a|a]; simpl; auto.
  - intros [[<- <-]|[_ H]]%lookup_insert_Some; auto.
  - intros [_ H]%lookup_delete_Some. auto.
Qed.

Lemma index_step b ev : index_ok b -> event_ok b ev -> index_ok (record b ev).
Proof.
  intros [Hid Hpr Hne Hby] Hok.
  destruct (record_others b ev) as (_ & Hbytes & Hprojects & _).
  assert (forall p, project_set (record b ev) p = default ∅ (projects_step b ev !! p)) as Hset.
  { intros p. unfold project_set. by rewrite Hprojects. }
  constructor.
  - intros id m Hm. rewrite record_msgs in Hm. rewrite record_sequence.
    apply msgs_step_inv in Hm as [[-> <-]|Hm].
    + destruct Hok as [-> _]. split; [done|lia].
    + apply Hid in Hm as [? ?]. split; [done|lia].
  - intros p id. rewrite Hset, record_msgs.
    destruct ev as [m|i a|i c|i|q on|a|a]; simpl; try apply Hpr.
    + destruct Hok as [Hnew _].
      assert (msgs b !! m_id m = None) as Hn.
      { destruct (msgs b !! m_id m) eqn:E; [|done]. apply Hid in E as [_ ?]. lia. }
      destruct (decide (id = m_id m)) as [->|Hd].
      * rewrite lookup_insert_eq. destruct (decide (p = m_project m)) as [->|Hp].
        -- rewrite lookup_insert_eq. simpl. split; [by eexists|]. intros _. set_solver.
        -- rewrite lookup_insert_ne by done. fold (project_set b p). rewrite Hpr.
           rewrite Hn. split; [by intros (? & ? & _)|]. intros (? & [= <-] & ?). done.
      * rewrite (lookup_insert_ne _ (m_id m) id) by done. rewrite <- Hpr.
        destruct (decide (p = m_project m)) as [->|Hp].
        -- rewrite lookup_insert_eq. simpl. set_solver.
        -- by rewrite lookup_insert_ne.
    + assert (default ∅ (projects_step b (ERemove i) !! p) = project_set b p ∖
        match msgs b !! i with Some m => if decide (m_project m = p) then {[i]} else ∅ | None => ∅ end)
        as Heq.
      { simpl. destruct (msgs b !! i) as [m|]; [|set_solver]. unfold project_set.
        destruct (decide (m_project m = p)) as [<-|Hp].
        - destruct (projects b !! m_project m) as [ids|] eqn:E; [|rewrite E; set_solver].
          case_bool_decide as Hb; [rewrite lookup_delete_eq|rewrite lookup_insert_eq]; simpl; [|done].
          by rewrite Hb.
        - assert (default ∅ (projects b !! p) ∖ ∅ = default ∅ (projects b !! p)) as -> by set_solver.
          destruct (projects b !! m_project m) as [ids|]; [|done].
          case_bool_decide; [by rewrite lookup_delete_ne|by rewrite lookup_insert_ne]. }
      simpl in Heq. rewrite Heq, elem_of_difference, Hpr.
      destruct (decide (id = i)) as [->|Hd].
      * rewrite lookup_delete_eq. split; [|by intros (? & ? & _)].
        intros [(m & -> & <-) Hnot]. rewrite decide_True in Hnot by done. set_solver.
      * rewrite lookup_delete_ne by done. split; [by intros [? _]|]. intros H. split; [done|].
        destruct (msgs b !! i); [destruct (decide _)|]; set_solver.
  - intros p. rewrite Hprojects. destruct ev as [m|i a|i c|i|q on|a|a]; simpl; try apply Hne.
    + destruct (decide (p = m_project m)) as [->|Hp].
      * rewrite lookup_insert_eq. intros [= E]. set_solver.
      * by rewrite lookup_insert_ne.
    + destruct (msgs b !! i) as [m|]; [|apply Hne].
      destruct (projects b !! m_project m) as [ids|]; [|apply Hne].
      case_bool_decide as Hb; destruct (decide (p = m_project m)) as [->|Hp].
      * by rewrite lookup_delete_eq.
      * by rewrite lookup_delete_ne.
      * rewrite lookup_insert_eq. congruence.
      * by rewrite lookup_insert_ne.
  - rewrite Hbytes, record_msgs. destruct ev as [m|i a|i c|i|q on|a|a]; simpl; try done.
    + destruct Hok as [Hnew _]. rewrite map_sum_insert.
      * rewrite Hby. lia.
      * destruct (msgs b !! m_id m) eqn:E; [|done]. apply Hid in E as [_ ?]. lia.
    + destruct (msgs b !! i) as [m|] eqn:E.
      * rewrite Hby, (map_sum_delete _ _ _ _ E). lia.
      * rewrite Hby, delete_id by done. done.
Qed.

(** An entry after an event was there before, or is the event's target and now
    carries the new sequence number. *)
Lemma entries_step_inv b ev id e :
  entries_step b ev !! id = Some e ->
  (changed e = sequence b + 1 /\ event_project b ev = Some (m_project (message e))
     /\ (ev = EPost (message e) /\ id = m_id (message e) /\ claim e = None /\ acks e = 0
         \/ exists e0, b_entries b !! id = Some e0 /\ message e = message e0 /\
            ((exists a, ev = EAck id a /\ e = ack_entry a (sequence b + 1) e0)
             \/ exists c, ev = EClaim id c /\ e = claim_entry c (sequence b + 1) e0)))
  \/ b_entries b !! id = Some e.
Proof.
  destruct ev as [m|i a|i c|i|p on|a|a]; simpl; auto.
  - intros [[<- <-]|[_ H]]%lookup_insert_Some; [left|by right].
    split_and!; [done..|]. left. split_and!; try done.
  - rewrite lookup_alter_Some. intros [(<- & e0 & H0 & ->)|[_ ?]]; [left|by right].
    rewrite H0. split_and!; [done..|]. right. exists e0. split_and!; [done..|]. left. eauto.
  - rewrite lookup_alter_Some. intros [(<- & e0 & H0 & ->)|[_ ?]]; [left|by right].
    rewrite H0. split_and!; [done..|]. right. exists e0. split_and!; [done..|]. right. eauto.
  - intros [_ H]%lookup_delete_Some. auto.
Qed.

Lemma record_mark b ev p :
  changed_mark (record b ev) p =
    if decide (event_project b ev = Some p) then sequence b + 1 else changed_mark b p.
Proof.
  unfold changed_mark. destruct (record_others b ev) as (_ & _ & _ & -> & _).
  destruct (event_project b ev) as [q|]; [|by destruct (decide _)].
  destruct (decide (Some q = Some p)) as [[= ->]|Hn].
  - by rewrite lookup_insert_eq.
  - rewrite lookup_insert_ne; [done|congruence].
Qed.

Lemma trim_journal_spec j fl j' fl' :
  trim_journal j fl = (j', fl') ->
  (length j' <= JOURNAL_LIMIT)%nat /\ (exists pre, j = pre ++ j')
  /\ (fl' = fl \/ exists je, je ∈ j /\ fl' = je.1) /\ fl <= fl'.
Proof.
  revert fl. induction j as [|je j IH]; intros fl; cbn [trim_journal].
  - intros [= <- <-]. split_and!; [simpl; lia|by exists []|by left|lia].
  - destruct (Nat.ltb_spec JOURNAL_LIMIT (length (je :: j))) as [Hlt|Hle].
    + intros H. destruct (IH _ H) as (? & [pre ->] & Hfl & ?). split_and!; [done| | |lia].
      * by exists (je :: pre).
      * destruct Hfl as [->|(x & Hx & ->)].
        -- destruct (N.max_spec fl je.1) as [[_ ->]|[_ ->]]; [right|by left].
           exists je. split; [left|done].
        -- right. exists x. split; [by right|done].
    + intros [= <- <-]. split_and!; [done|by exists []|by left|lia].
Qed.

Lemma journal_step_sub b ev x :
  x ∈ journal_step b ev ->
  x ∈ journal b \/ x = (sequence b + 1, ev).
Proof.
  unfold journal_step.
  assert (x ∈ journal b ++ [(sequence b + 1, ev)] ->
    x ∈ journal b \/ x = (sequence b + 1, ev)) as H.
  { rewrite elem_of_app, list_elem_of_singleton. done. }
  destruct ev as [m|i a|i c|i|p on|a|a]; auto.
  destruct (b_entries b !! i); auto. intros [_ Hx]%list_elem_of_filter. auto.
Qed.

Lemma record_floor b ev :
  Forall (fun je => je.1 <= sequence b) (journal b) -> floor b <= sequence b ->
  floor (record b ev) <= sequence b + 1.
Proof.
  intros Hj Hf. destruct (record_journal b ev) as (fl & H & Hfl).
  apply trim_journal_spec in H as (_ & _ & Hf' & _).
  destruct Hf' as [->|(je & Hin & ->)]; [destruct Hfl as [->| ->]; lia|].
  apply journal_step_sub in Hin as [Hin| ->]; [|simpl; lia].
  rewrite Forall_forall in Hj. apply Hj in Hin. lia.
Qed.

Lemma changes_step b ev :
  journal_ok b -> changes_ok b -> changes_ok (record b ev).
Proof.
  intros Hj [Hr Hinj Hm Hf]. constructor.
  - intros id e H. rewrite record_entries in H. rewrite record_sequence.
    apply entries_step_inv in H as [(-> & _)|H]; [lia|]. apply Hr in H. lia.
  - intros id id' e e' H H' Heq. rewrite record_entries in H, H'.
    apply entries_step_inv in H as [(E & _ & Ht)|H], H' as [(E' & _ & Ht')|H'].
    + destruct Ht as [(-> & -> & _)|(? & _ & _ & [(? & -> & _)|(? & -> & _)])],
        Ht' as [([= ?] & -> & _)|(? & _ & _ & [(? & [= ?] & _)|(? & [= ?] & _)])]; congruence.
    + apply Hr in H'. lia.
    + apply Hr in H. lia.
    + by eapply Hinj.
  - intros id e H. rewrite record_entries in H. rewrite record_mark.
    apply entries_step_inv in H as [(E & Hp & _)|H].
    + rewrite decide_True by done. lia.
    + pose proof (Hr _ _ H). apply Hm in H. destruct (decide _); lia.
  - rewrite record_sequence. apply record_floor; [apply Hj|done].
Qed.

Lemma StronglySorted_suffix {A} (R : A -> A -> Prop) pre l :
  StronglySorted R (pre ++ l) -> StronglySorted R l.
Proof. induction pre as [|x pre IH]; [done|]. inversion 1; auto. Qed.

Lemma journal_ok_step b ev : index_ok b -> journal_ok b -> event_ok b ev -> journal_ok (record b ev).
Proof.
  intros Hix [Hl Hs Hq Hlive] Hok. destruct (record_journal b ev) as (fl & H & _).
  apply trim_journal_spec in H as (Hlen & [pre Hpre] & _ & _).
  assert (StronglySorted (fun x y => x.1 < y.1) (journal b ++ [(sequence b + 1, ev)])) as Hs'.
  { apply StronglySorted_app_last; [done|]. eapply Forall_impl; [exact Hq|]. simpl. lia. }
  assert (forall x, x ∈ journal (record b ev) -> x ∈ journal_step b ev) as Hin.
  { intros x Hx. rewrite Hpre. apply elem_of_app. by right. }
  constructor; [done| | |].
  - apply (StronglySorted_suffix _ pre). rewrite <- Hpre. unfold journal_step.
    destruct ev as [m|i a|i c|i|p on|a|a]; try done.
    destruct (b_entries b !! i); [|done]. by apply StronglySorted_filter.
  - rewrite record_sequence. apply Forall_forall. intros x Hx.
    apply Hin, journal_step_sub in Hx as [Hx| ->]; [|done].
    rewrite Forall_forall in Hq. apply Hq in Hx. lia.
  - intros s m Hx. apply Hin in Hx. rewrite record_msgs.
    pose proof (journal_step_sub _ _ _ Hx) as [Hb|[= -> <-]].
    + apply Hlive in Hb. destruct ev as [m'|i a|i c|i|p on|a|a]; try done; simpl.
      * rewrite lookup_insert_ne; [done|]. destruct Hok as [-> _].
        apply (ix_id _ Hix) in Hb as [_ ?]. lia.
      * unfold journal_step in Hx. destruct (b_entries b !! i) as [e|] eqn:E.
        -- apply list_elem_of_filter in Hx as [Hx _]. simpl in Hx. apply N.eqb_neq in Hx.
           rewrite lookup_delete_ne; done.
        -- rewrite lookup_delete_ne; [done|]. intros ->. apply msgs_some in Hb as (? & ? & _).
           congruence.
    + simpl. by rewrite lookup_insert_eq.
Qed.

Lemma claims_step b ev : claims_ok b -> event_ok b ev -> claims_ok (record b ev).
Proof.
  intros [Hc Ht] Hok.
  assert (forall id e, entries_step b ev !! id = Some e -> is_Some (claim e) ->
    (exists e0, b_entries b !! id = Some e0 /\ message e = message e0 /\ revision e = revision e0
       /\ claim e = claim e0)
    \/ exists e0 c, b_entries b !! id = Some e0 /\ ev = EClaim id (Some c)
         /\ e = claim_entry (Some c) (sequence b + 1) e0) as Hcase.
  { intros id e H Hsome.
    apply entries_step_inv in H as [(_ & _ & [(_ & _ & Hn & _)|(e0 & H0 & _ & [(a & -> & ->)|(c & -> & ->)])])|H].
    - rewrite Hn in Hsome. by destruct Hsome.
    - left. by exists e0.
    - right. simpl in Hsome. destruct Hsome as [c' ->]. eauto.
    - left. by exists e. }
  constructor.
  - intros id e c H Hcl. rewrite record_entries in H.
    apply Hcase in H as [(e0 & H0 & Em & Er & Ec)|(e0 & c' & H0 & -> & ->)]; [| |by eexists].
    + rewrite Em, Er. apply (Hc _ _ _ H0). congruence.
    + simpl in Hcl. injection Hcl as ->. simpl in Hok.
      destruct Hok as (e1 & He1 & ? & ? & ? & _). simpl. assert (e0 = e1) as -> by congruence.
      done.
  - intros id id' e e' t H H' Hs Hs' Htask Htask'. rewrite record_entries in H, H'.
    pose proof (Hcase _ _ H Hs) as C. pose proof (Hcase _ _ H' Hs') as C'.
    destruct C as [(e0 & H0 & Em & Er & Ec)|(e0 & c & H0 & -> & ->)],
      C' as [(e0' & H0' & Em' & Er' & Ec')|(e0' & c' & H0' & Eev & ->)].
    + apply (Ht _ _ e0 e0' t); congruence.
    + rewrite Eev in Hok. destruct Hok as (e1 & He1 & _ & _ & _ & Huniq). simpl in *.
      destruct (decide (id = id')) as [|Hd]; [done|]. exfalso.
      assert (claim e0 = None) as Hn by (apply (Huniq t id e0); congruence).
      destruct Hs as [? ?]. congruence.
    + destruct Hok as (e1 & He1 & _ & _ & _ & Huniq). simpl in *.
      destruct (decide (id' = id)) as [|Hd]; [done|]. exfalso.
      assert (claim e0' = None) as Hn by (apply (Huniq t id' e0'); congruence).
      destruct Hs' as [? ?]. congruence.
    + by injection Eev.
Qed.

Lemma size_insert_le `{Countable A} (a : A) (s : gset A) : (size ({[a]} ∪ s) <= S (size s))%nat.
Proof.
  rewrite size_union_alt, size_singleton.
  assert (size (s ∖ {[a]}) <= size s)%nat by (apply subseteq_size; set_solver). lia.
Qed.

Lemma size_alter (f : Entry -> Entry) i (m : gmap N Entry) : size (alter f i m) = size m.
Proof.
  rewrite <- (size_dom (alter f i m)), <- (size_dom m). by rewrite dom_alter.
Qed.

Lemma project_set_step b ev p :
  index_ok b ->
  project_set (record b ev) p ⊆
    match ev with
    | EPost m => if decide (p = m_project m) then {[m_id m]} ∪ project_set b p else project_set b p
    | _ => project_set b p
    end.
Proof.
  intros Hix. destruct (record_others b ev) as (_ & _ & Hp & _). unfold project_set at 1.
  rewrite Hp. destruct ev as [m|i a|i c|i|q on|a|a]; simpl; try done.
  - destruct (decide (p = m_project m)) as [->|]; [by rewrite lookup_insert_eq|].
    by rewrite lookup_insert_ne.
  - destruct (msgs b !! i) as [m|]; [|done]. unfold project_set.
    destruct (projects b !! m_project m) as [ids|] eqn:E; [|done].
    case_bool_decide; destruct (decide (p = m_project m)) as [->|].
    + rewrite lookup_delete_eq. simpl. set_solver.
    + by rewrite lookup_delete_ne.
    + rewrite lookup_insert_eq, E. simpl. set_solver.
    + by rewrite lookup_insert_ne.
Qed.

Lemma acks_step b ev :
  event_ok b ev -> map_sum acks (b_entries b) <= 4096 ->
  (forall id e, b_entries b !! id = Some e -> 1 <= id <= sequence b) ->
  map_sum acks (entries_step b ev) <= 4096.
Proof.
  intros Hok Hle Hid. destruct ev as [m|i a|i c|i|q on|a|a]; simpl; try done.
  - destruct Hok as [Hnew _]. rewrite map_sum_insert; [by unfold acks at 1; simpl|].
    destruct (b_entries b !! m_id m) eqn:E; [|done]. apply Hid in E. lia.
  - destruct Hok as [(e & He & _) Hlt].
    pose proof (map_sum_alter acks (ack_entry a (sequence b + 1)) _ i e He) as Hs.
    assert (acks (ack_entry a (sequence b + 1) e) <= acks e + 1) as Ha.
    { unfold acks. simpl. pose proof (size_insert_le a (acknowledged e)). lia. }
    lia.
  - destruct (b_entries b !! i) as [e|] eqn:He.
    + pose proof (map_sum_alter acks (claim_entry c (sequence b + 1)) _ i e He) as Hs.
      assert (acks (claim_entry c (sequence b + 1) e) = acks e) as Ha by done. lia.
    + assert (alter (claim_entry c (sequence b + 1)) i (b_entries b) = b_entries b) as ->; [|done].
      apply map_eq. intros k. destruct (decide (k = i)) as [->|].
      * by rewrite lookup_alter_eq, He.
      * by rewrite lookup_alter_ne.
  - destruct (b_entries b !! i) as [e|] eqn:He.
    + rewrite (map_sum_delete _ _ _ _ He) in Hle. lia.
    + by rewrite delete_id.
Qed.

Lemma budgets_step b ev :
  index_ok b -> budgets_ok b -> event_ok b ev -> budgets_ok (record b ev).
Proof.
  intros Hix [] Hok.
  destruct (record_others b ev) as (Hra & Hby & _ & _ & Hrev & _).
  assert (forall id e, b_entries b !! id = Some e -> 1 <= id <= sequence b) as Hid.
  { intros id e He. apply (ix_id _ Hix id (message e)), msgs_some. eauto. }
  constructor.
  - rewrite Hby. destruct ev as [m|i a|i c|i|q on|a|a]; simpl; try done.
    + apply Hok.
    + destruct (msgs b !! i); lia.
  - rewrite record_entries. destruct ev as [m|i a|i c|i|q on|a|a]; simpl; try done.
    + destruct Hok as (Hnew & _ & _ & Hlt & _). rewrite map_size_insert_None; [lia|].
      destruct (b_entries b !! m_id m) eqn:E; [|done]. apply Hid in E. lia.
    + by rewrite size_alter.
    + by rewrite size_alter.
    + rewrite map_size_delete. pose proof (Nat.le_pred_l (size (b_entries b))). destruct (b_entries b !! i); simpl; lia.
  - intros p. pose proof (subseteq_size _ _ (project_set_step b ev p Hix)) as Hsub.
    pose proof (bu_project0 p).
    destruct ev as [m|i a|i c|i|q on|a|a]; try lia.
    revert Hsub. case_decide as Hp; intros Hsub; [|lia]. subst p.
    destruct Hok as (_ & _ & _ & _ & Hlt & _).
    pose proof (size_insert_le (m_id m) (project_set b (m_project m))). lia.
  - intros id m Hm. rewrite record_msgs in Hm.
    apply msgs_step_inv in Hm as [[-> _]|Hm]; [apply Hok|by eapply bu_body0].
  - intros a. unfold rate_of. rewrite Hra. pose proof (bu_rate0 a) as Hr.
    destruct ev as [m|i x|i c|i|q on|x|x]; try done. simpl.
    destruct (decide (a = m_author m)) as [->|].
    + rewrite lookup_insert_eq. simpl. rewrite length_app. simpl.
      destruct Hok as (_ & _ & _ & _ & _ & Hlt & _). lia.
    + by rewrite lookup_insert_ne.
  - rewrite Hra. destruct ev as [m|i x|i c|i|q on|x|x]; try done. simpl.
    destruct Hok as (_ & _ & _ & _ & _ & _ & Hs).
    rewrite map_size_insert. destruct (rates b !! m_author m); unfold id; [lia|].
    destruct Hs as [[? ?]|?]; [done|lia].
  - intros id e H. rewrite record_entries in H.
    apply entries_step_inv in H as [(_ & _ & [(_ & _ & _ & ->)|(e0 & H0 & _ & [(a & -> & ->)|(c & -> & ->)])])|H].
    + lia.
    + destruct Hok as [(e1 & He1 & Hlt) _]. assert (e0 = e1) as -> by congruence.
      unfold acks in *. simpl. pose proof (size_insert_le a (acknowledged e1)). lia.
    + change (acks e0 <= 64). by apply (bu_ack0 id).
    + by eapply bu_ack0.
  - rewrite record_entries. by apply acks_step.
  - rewrite Hrev. destruct ev as [m|i x|i c|i|q on|x|x]; try done. simpl in Hok.
    pose proof (size_insert_le x (revoked b)). lia.
Qed.

(** Every part of the invariant, for one event and for a list of them. *)
Record inv (b : Board) : Prop := {
  inv_index : index_ok b; inv_changes : changes_ok b; inv_journal : journal_ok b;
  inv_claims : claims_ok b; inv_budgets : budgets_ok b }.

Lemma inv_step b ev : inv b -> event_ok b ev -> inv (record b ev).
Proof.
  intros [] Hok. constructor.
  - by apply index_step.
  - by apply changes_step.
  - by apply journal_ok_step.
  - by apply claims_step.
  - by apply budgets_step.
Qed.

(** Events that are acceptable on every board. *)
Definition always_ok (ev : Event) : Prop :=
  match ev with EClaim _ None | ERemove _ | EPause _ _ | EGrant _ => True | _ => False end.

Lemma inv_record_all b evs : inv b -> Forall always_ok evs -> inv (record_all b evs).
Proof.
  intros Hb Hall. revert b Hb. induction Hall as [|ev evs Hev _ IH]; intros b Hb; [done|].
  apply IH, inv_step; [done|]. destruct ev as [m|i a|i [c|]|i|q on|a|a]; done.
Qed.

Lemma Forall_always_map {A} (f : A -> Event) l :
  (forall x, always_ok (f x)) -> Forall always_ok (map f l).
Proof. intros H. induction l; constructor; auto. Qed.

Lemma expire_inv b now : inv b -> inv (expire b now).
Proof. intros Hb. unfold expire. repeat apply inv_record_all; auto; by apply Forall_always_map. Qed.

#[export] Hint Resolve inv_record_all expire_inv : uniterm.

(** ** The invariant of the operations *)

Lemma pop_old_length now l : (length (pop_old now l) <= length l)%nat.
Proof. induction l as [|t l IH]; simpl; [done|]. destruct (_ <=? _); simpl; lia. Qed.

Lemma omap_size {A B} (f : A -> option B) (m : gmap Author A) : (size (omap f m) <= size m)%nat.
Proof.
  rewrite <- !size_dom. apply subseteq_size. intros k. rewrite !elem_of_dom, lookup_omap.
  intros [y Hy]. destruct (m !! k); [by eexists|done].
Qed.

Lemma prune_rates_inv b now : inv b -> inv (prune_rates b now).
Proof.
  intros [[] [] [] [] []]. constructor; constructor; try done.
  - intros a. unfold rate_of. simpl. rewrite lookup_omap. specialize (bu_rate0 a).
    unfold rate_of in bu_rate0. destruct (rates b !! a) as [l|]; simpl; [|lia].
    pose proof (pop_old_length now l). destruct (pop_old now l) eqn:E; simpl in *; lia.
  - simpl. eapply N.le_trans; [|exact bu_rates0].
    pose proof (omap_size (fun times => match pop_old now times with [] => None | ts => Some ts end)
      (rates b)). lia.
Qed.

Lemma settle_inv b now : inv b -> inv (settle b now).
Proof. intros. by apply prune_rates_inv, expire_inv. Qed.

Lemma project_entry_some b p id e :
  project_entry b p id = Some e <-> b_entries b !! id = Some e /\ m_project (message e) = p.
Proof.
  unfold project_entry. destruct (b_entries b !! id) as [e'|]; simpl; [|naive_solver].
  destruct (N.eqb_spec (m_project (message e')) p); naive_solver.
Qed.

(** What a successful post records. *)
Lemma post_event_ok b p a now kind body reply_to to task key ttl id thread ex :
  invalid_post body key ttl = false ->
  (PROJECT_LIMIT <=? N.of_nat (size (project_set b p)))
    || (BYTE_LIMIT <? bytes b + len8 body * 2)
    || (4000 <=? N.of_nat (size (b_entries b))) = false ->
  bool_decide (is_Some (rates b !! a)) && (30 <=? N.of_nat (length (rate_of b a))) = false ->
  bool_decide (rates b !! a = None) && (1024 <=? N.of_nat (size (rates b))) = false ->
  id = sequence b + 1 ->
  event_ok b (EPost {| m_id := id; m_project := p; m_author := a; m_kind := kind;
    m_body := body; m_reply_to := reply_to; m_thread := thread; m_to := to; m_task := task;
    m_key := key; m_created_ms := now; m_expires_ms := ex; m_ttl_ms := ttl |}).
Proof.
  intros Hv Hcap Hrate Hauth ->. simpl.
  unfold invalid_post in Hv. rewrite !orb_false_iff in Hv.
  destruct Hv as [[[[[_ Hlen] _] _] _] _].
  rewrite !orb_false_iff in Hcap. destruct Hcap as [[H1 H2] H3].
  apply N.ltb_ge in Hlen. apply N.leb_gt in H1, H3. apply N.ltb_ge in H2.
  split_and!; try done.
  - unfold rate_of in *. destruct (rates b !! a) as [l|]; simpl in *; [|lia].
    rewrite ?bool_decide_eq_true_2 in Hrate by done. by apply N.leb_gt in Hrate.
  - destruct (rates b !! a) as [l|]; [left; done|right].
    rewrite ?bool_decide_eq_true_2 in Hauth by done. by apply N.leb_gt in Hauth.
Qed.

Lemma task_unclaimed b id t :
  index_ok b -> existsb (task_claimed id t) (values (b_entries b)) = false ->
  forall id' e', b_entries b !! id' = Some e' -> id' <> id -> m_task (message e') = Some t ->
  claim e' = None.
Proof.
  intros Hix Hf id' e' He' Hne Ht. destruct (claim e') as [c|] eqn:Hc; [|done]. exfalso.
  assert (task_claimed id t e' = true) as Htrue.
  { unfold task_claimed. destruct (ix_id _ Hix id' (message e')) as [-> _].
    { apply msgs_some. eauto. }
    rewrite (proj2 (N.eqb_neq _ _) Hne), Ht, Hc. simpl. by rewrite bool_decide_eq_true_2. }
  apply not_true_iff_false in Hf. apply Hf, existsb_exists. exists e'. split; [|done].
  apply list_elem_of_In, values_elem. eauto.
Qed.

Lemma forget_pane_inv b pane : inv b -> inv (forget_pane b pane).
Proof.
  intros Hb. unfold forget_pane.
  assert (inv (record_all b (map (fun id => EClaim id None)
    (ids_where b (claimed_by (of_pane pane)))))) as Hb'.
  { apply inv_record_all; [done|]. by apply Forall_always_map. }
  destruct Hb' as [[] [] [] [] []]. constructor; constructor; try done. simpl.
  eapply N.le_trans; [|exact bu_revoked0].
  assert (size (filter (fun a => of_pane pane a = false)
    (revoked (record_all b (map (fun id => EClaim id None) (ids_where b (claimed_by (of_pane pane)))))))
    <= size (revoked (record_all b (map (fun id => EClaim id None)
         (ids_where b (claimed_by (of_pane pane)))))))%nat; [|lia].
  apply subseteq_size. set_solver.
Qed.

(** *** Removing and releasing several posts *)

Lemma record_all_cons b ev evs : record_all b (ev :: evs) = record_all (record b ev) evs.
Proof. done. Qed.

Lemma msgs_remove_all b ids id m :
  msgs (record_all b (map ERemove ids)) !! id = Some m <-> msgs b !! id = Some m /\ id ∉ ids.
Proof.
  revert b. induction ids as [|i ids IH]; intros b; simpl.
  - split; [|tauto]. intros H. split; [exact H|]. apply not_elem_of_nil.
  - rewrite IH, record_msgs. simpl. rewrite lookup_delete_Some, not_elem_of_cons.
    split; [intros [[? ?] ?]|intros [? [? ?]]]; split_and!; congruence.
Qed.

Lemma msgs_release_all b ids : msgs (record_all b (map (fun id => EClaim id None) ids)) = msgs b.
Proof.
  revert b. induction ids as [|i ids IH]; intros b; [done|]. simpl. rewrite IH. apply record_msgs.
Qed.

(** After a list of removals and releases, an entry that still has a claim had
    the same one before and was not released. *)
Lemma claim_remove_all b ids id e c :
  b_entries (record_all b (map ERemove ids)) !! id = Some e -> claim e = Some c ->
  b_entries b !! id = Some e.
Proof.
  revert b. induction ids as [|i ids IH]; intros b; simpl; [done|]. intros He Hc.
  apply IH in He; [|done]. rewrite record_entries in He. simpl in He.
  by apply lookup_delete_Some in He as [_ He].
Qed.

Lemma claim_release_all b ids id e c :
  b_entries (record_all b (map (fun id => EClaim id None) ids)) !! id = Some e -> claim e = Some c ->
  b_entries b !! id = Some e /\ id ∉ ids.
Proof.
  revert b. induction ids as [|i ids IH]; intros b; simpl.
  - intros He _. split; [exact He|]. apply not_elem_of_nil.
  - intros He Hc. apply IH in He as [He Hn]; [|done]. rewrite record_entries in He. simpl in He.
    apply lookup_alter_Some in He as [(-> & e0 & _ & ->)|[Hi He]]; [done|].
    split; [done|]. by apply not_elem_of_cons.
Qed.

Lemma revoked_record_all b evs :
  Forall always_ok evs -> revoked (record_all b evs) = revoked b.
Proof.
  intros H. revert b. induction H as [|ev evs Hev _ IH]; intros b; [done|].
  rewrite record_all_cons, IH. destruct (record_others b ev) as (_ & _ & _ & _ & -> & _).
  by destruct ev.
Qed.

Lemma set_iter_elem s x : x ∈ set_iter s <-> x ∈ s.
Proof. unfold set_iter. rewrite sort_by_elem. apply elem_of_elements. Qed.

Lemma project_ids_elem b p id :
  index_ok b -> id ∈ project_ids b p <-> exists m, msgs b !! id = Some m /\ m_project m = p.
Proof. intros Hix. unfold project_ids. rewrite set_iter_elem. by apply ix_project. Qed.

Lemma ids_where_elem b f id :
  index_ok b ->
  id ∈ ids_where b f <-> exists e, b_entries b !! id = Some e /\ f e = true.
Proof.
  intros Hix. unfold ids_where. rewrite list_elem_of_fmap. split.
  - intros (e & -> & [Hf Hin]%list_elem_of_filter). apply values_elem in Hin as [k Hk].
    destruct (ix_id _ Hix k (message e)) as [-> _]; [apply msgs_some|]; eauto.
  - intros (e & He & Hf). exists e. split.
    + symmetry. apply (ix_id _ Hix id (message e)), msgs_some. eauto.
    + apply list_elem_of_filter. split; [done|]. apply values_elem. eauto.
Qed.

Lemma forget_project_inv b p : inv b -> inv (forget_project b p).
Proof.
  intros Hb. unfold forget_project.
  assert (inv (record_all b (map ERemove (project_ids b p)))) as Hb'.
  { apply inv_record_all; [done|]. by apply Forall_always_map. }
  set (b1 := record_all b (map ERemove (project_ids b p))) in *.
  assert (forall id e, b_entries b1 !! id = Some e -> m_project (message e) <> p) as Hgone.
  { intros id e He Hp. assert (msgs b1 !! id = Some (message e)) as Hm by (apply msgs_some; eauto).
    apply msgs_remove_all in Hm as [Hm Hn]. apply Hn, project_ids_elem; [apply Hb|]. eauto. }
  destruct Hb' as [[] [] [] [] []]. constructor; constructor; try done.
  intros id e He. unfold changed_mark. simpl. rewrite lookup_delete_ne.
  - by apply (ch_mark0 id).
  - intros E. by apply (Hgone id e He).
Qed.

Lemma retain_projects_inv b live : inv b -> inv (retain_projects b live).
Proof.
  unfold retain_projects. generalize (filter (fun p => p ∉ live) (map fst (entries (b_changed b)))).
  intros l. revert b. induction l as [|p l IH]; intros b Hb; [done|]. simpl.
  by apply IH, forget_project_inv.
Qed.

(** *** Threads, owners and keys *)

(** Every reply's parent is still there, in the same Project and thread, and
    outlives it; a claim's owner is not revoked; a key is used once. *)
Record closed (b : Board) : Prop := {
  co_root id m : msgs b !! id = Some m -> m_reply_to m = None -> m_thread m = id;
  co_reply id m p : msgs b !! id = Some m -> m_reply_to m = Some p ->
    exists pm, msgs b !! p = Some pm /\ m_project pm = m_project m
      /\ m_thread pm = m_thread m /\ m_expires_ms m <= m_expires_ms pm;
  co_owner id e c : b_entries b !! id = Some e -> claim e = Some c -> c_owner c ∉ revoked b;
  co_key id id' m m' : msgs b !! id = Some m -> msgs b !! id' = Some m' ->
    m_project m = m_project m' -> m_author m = m_author m' -> m_key m = m_key m' -> id = id' }.

Lemma closed_remove b ids :
  closed b ->
  (forall id m p, msgs b !! id = Some m -> m_reply_to m = Some p -> p ∈ ids -> id ∈ ids) ->
  closed (record_all b (map ERemove ids)).
Proof.
  intros [] Hdown. constructor.
  - intros id m [Hm _]%msgs_remove_all. by apply co_root0.
  - intros id m p [Hm Hn]%msgs_remove_all Hp. destruct (co_reply0 _ _ _ Hm Hp) as (pm & ? & ?).
    exists pm. split; [|done]. apply msgs_remove_all. split; [done|]. intros Hin. apply Hn.
    by eapply Hdown.
  - intros id e c He Hc. rewrite revoked_record_all by by apply Forall_always_map.
    apply (co_owner0 id e); [|done]. by eapply claim_remove_all.
  - intros id id' m m' [Hm _]%msgs_remove_all [Hm' _]%msgs_remove_all. by apply co_key0.
Qed.

Lemma closed_release b ids :
  closed b -> closed (record_all b (map (fun id => EClaim id None) ids)).
Proof.
  intros []. constructor; rewrite ?msgs_release_all; try done.
  intros id e c He Hc. rewrite revoked_record_all by by apply Forall_always_map.
  apply (co_owner0 id e); [|done]. by eapply claim_release_all.
Qed.

Lemma expire_closed b now : inv b -> closed b -> closed (expire b now).
Proof.
  intros Hb Hc. unfold expire. apply closed_release, closed_remove; [done|].
  intros id m p Hm Hp. rewrite !ids_where_elem by apply Hb.
  intros (pe & Hpe & Hex). destruct (co_reply _ Hc _ _ _ Hm Hp) as (pm & Hpm & _ & _ & Hle).
  apply msgs_some in Hm as (e & He & <-). exists e. split; [done|].
  apply msgs_some in Hpm as (pe' & Hpe' & <-). unfold expired in *.
  assert (pe = pe') as -> by congruence. apply N.leb_le in Hex. apply N.leb_le. lia.
Qed.

Lemma closed_ext b b' :
  b_entries b' = b_entries b -> revoked b' ⊆ revoked b -> closed b -> closed b'.
Proof.
  intros He Hr []. assert (msgs b' = msgs b) as Hm by (unfold msgs; by rewrite He).
  constructor; rewrite ?Hm, ?He; try done.
  intros id e c Hx Hc Hin. by apply (co_owner0 id e c Hx Hc), Hr.
Qed.

Lemma settle_closed b now : inv b -> closed b -> closed (settle b now).
Proof. intros Hb Hc. apply closed_ext with (expire b now); [done..|]. by apply expire_closed. Qed.

Lemma forget_pane_closed b pane : closed b -> closed (forget_pane b pane).
Proof.
  intros Hc. unfold forget_pane.
  apply closed_ext with (record_all b (map (fun id => EClaim id None)
    (ids_where b (claimed_by (of_pane pane))))); [done|simpl; set_solver|]. by apply closed_release.
Qed.

Lemma closed_remove_project b p :
  inv b -> closed b -> closed (record_all b (map ERemove (project_ids b p))).
Proof.
  intros Hb Hc. apply closed_remove; [done|]. intros id m q Hm Hq.
  rewrite !project_ids_elem by apply Hb. intros (qm & Hqm & Hqp).
  destruct (co_reply _ Hc _ _ _ Hm Hq) as (qm' & Hqm' & Hsame & _).
  exists m. split; [done|]. congruence.
Qed.

Lemma retain_projects_closed b live : inv b -> closed b -> closed (retain_projects b live).
Proof.
  unfold retain_projects. generalize (filter (fun p => p ∉ live) (map fst (entries (b_changed b)))).
  intros l. revert b. induction l as [|p l IH]; intros b Hb Hc; [done|]. simpl.
  apply IH; [by apply forget_project_inv|].
  apply closed_ext with (record_all b (map ERemove (project_ids b p))); [done..|].
  by apply closed_remove_project.
Qed.

(** What the operations' own events promise of threads, owners and keys. *)
Definition event_closed (b : Board) (ev : Event) : Prop :=
  match ev with
  | EPost m =>
      match m_reply_to m with
      | None => m_thread m = m_id m
      | Some p => exists pm, msgs b !! p = Some pm /\ m_project pm = m_project m
          /\ m_thread pm = m_thread m /\ m_expires_ms m <= m_expires_ms pm
      end
      /\ forall id' m', msgs b !! id' = Some m' -> m_project m' = m_project m ->
           m_author m' = m_author m -> m_key m' <> m_key m
  | EClaim _ (Some c) => c_owner c ∉ revoked b
  | ERevoke _ | ERemove _ => False
  | _ => True
  end.

Lemma project_entries_elem b p e :
  index_ok b -> e ∈ project_entries b p <->
    exists id, b_entries b !! id = Some e /\ m_project (message e) = p.
Proof.
  intros Hix. unfold project_entries. rewrite list_elem_of_omap. split.
  - intros (id & Hid & He). exists id. split; [done|].
    apply project_ids_elem in Hid as (m & Hm & Hp); [|done].
    apply msgs_some in Hm as (e' & He' & <-). congruence.
  - intros (id & He & Hp). exists id. split; [|done]. apply project_ids_elem; [done|].
    exists (message e). split; [|done]. apply msgs_some. eauto.
Qed.

Lemma post_event_closed b p a now kind body reply_to to task key ttl thread ex :
  index_ok b ->
  list_find (same_key a key) (project_entries b p) = None ->
  place b p (sequence b + 1) now ttl reply_to = Ok (thread, ex) ->
  event_closed b (EPost {| m_id := sequence b + 1; m_project := p; m_author := a; m_kind := kind;
    m_body := body; m_reply_to := reply_to; m_thread := thread; m_to := to; m_task := task;
    m_key := key; m_created_ms := now; m_expires_ms := ex; m_ttl_ms := ttl |}).
Proof.
  intros Hix Hf Hpl. simpl. split.
  - unfold place in Hpl. destruct reply_to as [q|]; [|by injection Hpl].
    destruct (project_entry b p q) as [pe|] eqn:E; [|done].
    destruct (_ <=? _); [done|]. injection Hpl as <- <-.
    apply project_entry_some in E as [He Hp]. exists (message pe).
    split; [apply msgs_some; eauto|]. split; [done|]. split; [done|]. lia.
  - intros id' m' Hm Hp Ha Hk. apply list_find_None in Hf. rewrite Forall_forall in Hf.
    apply msgs_some in Hm as (e & He & <-). apply (Hf e); [|done].
    apply project_entries_elem; eauto.
Qed.

Lemma closed_record b ev :
  inv b -> closed b -> event_ok b ev -> event_closed b ev -> closed (record b ev).
Proof.
  intros Hb [] Hok Hcl. destruct (record_others b ev) as (_ & _ & _ & _ & Hrev & _).
  assert (forall id m, msgs b !! id = Some m -> id <= sequence b) as Hold.
  { intros id m Hm. apply (ix_id _ (inv_index _ Hb)) in Hm as [_ ?]. lia. }
  destruct ev as [m|i x|i c|i|q on|x|x]; try done.
  - destruct Hok as [Hid _]. destruct Hcl as [Hrep Hkey]. constructor; rewrite ?record_msgs; simpl.
    + intros id m' [[<- <-]|[_ Hm]]%lookup_insert_Some Hn; [by rewrite Hn in Hrep|by apply co_root0].
    + intros id m' p [[<- <-]|[_ Hm]]%lookup_insert_Some Hp.
      * rewrite Hp in Hrep. destruct Hrep as (pm & Hpm & Hrest). exists pm.
        rewrite lookup_insert_ne; [done|]. apply Hold in Hpm. lia.
      * destruct (co_reply0 _ _ _ Hm Hp) as (pm & Hpm & Hrest). exists pm.
        rewrite lookup_insert_ne; [done|]. apply Hold in Hpm. lia.
    + intros id e c He Hc. rewrite Hrev. rewrite record_entries in He. simpl in He.
      apply lookup_insert_Some in He as [[<- <-]|[_ He]]; [done|]. by eapply co_owner0.
    + intros id id' m1 m2 [[<- <-]|[Hn H1]]%lookup_insert_Some [[<- <-]|[Hn' H2]]%lookup_insert_Some
        Hp Ha Hk; [done| | |by eapply co_key0].
      * by destruct (Hkey _ _ H2 (eq_sym Hp) (eq_sym Ha)).
      * by destruct (Hkey _ _ H1 Hp Ha).
  - constructor; rewrite ?record_msgs; simpl; try done. intros id e c He Hc. rewrite Hrev.
    rewrite record_entries in He. simpl in He.
    apply lookup_alter_Some in He as [(-> & e0 & He0 & ->)|[_ He]]; [|by eapply co_owner0].
    eapply co_owner0; [exact He0|exact Hc].
  - constructor; rewrite ?record_msgs; simpl; try done. intros id e c' He Hc. rewrite Hrev.
    rewrite record_entries in He. simpl in He.
    apply lookup_alter_Some in He as [(-> & e0 & He0 & ->)|[_ He]]; [|by eapply co_owner0].
    simpl in Hc. subst c. done.
  - apply closed_ext with b; [by rewrite record_entries|by rewrite Hrev|done].
  - apply closed_ext with b; [by rewrite record_entries|by rewrite Hrev|done].
Qed.

(** What an answered operation did to the settled board: nothing on an error,
    otherwise it recorded acceptable events. *)
Inductive did (b : Board) (p : N) (a : Author) (now : N) : Board -> Prop :=
| did_nothing : did b p a now b
| did_record ev : event_ok b ev -> event_closed b ev -> did b p a now (record b ev)
| did_clear : a = Human -> did b p a now (record_all b (map ERemove (project_ids b p)))
| did_revoke x : a = Human -> event_ok b (ERevoke x) ->
    did b p a now (let b := record b (ERevoke x) in
      record_all b (map (fun id => EClaim id None)
        (ids_where b (claimed_by (fun o => bool_decide (o = x)))))).

Lemma dispatch_did b p a op now :
  inv b -> a ∉ revoked b -> did b p a now (dispatch b p a op now).1
    /\ (is_ok (dispatch b p a op now).2 = false -> (dispatch b p a op now).1 = b).
Proof.
  intros Hb Ha. destruct op as [| |af th li|af tm|kind body rt to task key ttl|id|id rev lease|id rev|on|[]|x];
    simpl; try (by split; [apply did_nothing|]).
  - case_bool_decide; simpl; (split; [|done]); [apply did_nothing|by apply did_record].
  - unfold apply_post. destruct (invalid_post body key ttl) eqn:Hv; [by split; [apply did_nothing|]|].
    destruct (list_find _ _) as [[i e]|] eqn:Hf; [by split; [apply did_nothing|]|].
    destruct (_ || _ || _) eqn:Hcap; [by split; [apply did_nothing|]|].
    destruct (bool_decide (is_Some _) && _) eqn:Hrate; [by split; [apply did_nothing|]|].
    destruct (bool_decide (_ = None) && _) eqn:Hauth; [by split; [apply did_nothing|]|].
    destruct (place _ _ _ _ _ _) as [[th ex]|e] eqn:Hpl; [|by split; [apply did_nothing|]].
    simpl. split; [|done]. apply did_record; [by apply post_event_ok|].
    by eapply post_event_closed; [apply Hb|..].
  - unfold apply_ack. destruct (project_entry b p id) as [e|] eqn:He; [|by split; [apply did_nothing|]].
    apply project_entry_some in He as [He _].
    case_bool_decide; [by split; [apply did_nothing|]|].
    destruct (_ || _) eqn:Hcap; [by split; [apply did_nothing|]|]. simpl. split; [|done].
    apply did_record; [|done]. apply orb_false_iff in Hcap as [H1 H2]. apply N.leb_gt in H1, H2.
    simpl. eauto.
  - unfold apply_claim. destruct (project_entry b p id) as [e|] eqn:He; [|by split; [apply did_nothing|]].
    apply project_entry_some in He as [He _].
    destruct (N.eqb_spec (m_thread (message e)) id) as [Hth|]; simpl; [|by split; [apply did_nothing|]].
    destruct (N.eqb_spec (revision e) rev) as [<-|]; simpl; [|by split; [apply did_nothing|]].
    destruct (owned_by_other a e); [by split; [apply did_nothing|]|].
    destruct (match m_task (message e) with Some _ => _ | None => _ end) eqn:Htask;
      [by split; [apply did_nothing|]|].
    destruct (negb _); [by split; [apply did_nothing|]|]. simpl. split; [|done].
    apply did_record; [|done]. simpl. exists e. split_and!; [done..|lia|]. intros t id' e' Ht. rewrite Ht in Htask.
    by apply task_unclaimed; [apply Hb|].
  - unfold apply_release. destruct (project_entry b p id) as [e|] eqn:He; [|by split; [apply did_nothing|]].
    destruct (negb (revision e =? rev)); [by split; [apply did_nothing|]|].
    destruct (negb _ && negb _); [by split; [apply did_nothing|]|].
    case_bool_decide; simpl; (split; [|done]); [by apply did_record|apply did_nothing].
  - case_bool_decide; simpl; [|by split; [apply did_nothing|]]. split; [|done].
    destruct (negb _); [by apply did_record|apply did_nothing].
  - case_bool_decide; simpl; [|by split; [apply did_nothing|]]. split; [|done]. by apply did_clear.
  - case_bool_decide; simpl; [|by split; [apply did_nothing|]]. unfold apply_revoke.
    case_bool_decide; [by split; [apply did_nothing|]|].
    case_bool_decide; [by split; [apply did_nothing|]|].
    destruct (N.leb_spec 1024 (N.of_nat (size (revoked b)))); [by split; [apply did_nothing|]|].
    simpl. split; [|done]. by apply did_revoke.
Qed.

Lemma apply_did b p a op now :
  inv b -> did (settle b now) p a now (apply b p a op now).1
    /\ (is_ok (apply b p a op now).2 = false -> (apply b p a op now).1 = settle b now).
Proof.
  intros Hb. unfold apply, authorize. case_bool_decide; [by split; [apply did_nothing|]|].
  destruct (_ && _); [by split; [apply did_nothing|]|]. apply dispatch_did; [by apply settle_inv|done].
Qed.

Lemma did_inv b p a now b' : inv b -> did b p a now b' -> inv b'.
Proof.
  intros Hb [|ev Hev|_|x _ Hev]; [done|by apply inv_step| |].
  - apply inv_record_all; [done|]. by apply Forall_always_map.
  - cbv zeta. apply inv_record_all; [by apply inv_step|]. by apply Forall_always_map.
Qed.

Lemma did_closed b p a now b' : inv b -> closed b -> did b p a now b' -> closed b'.
Proof.
  intros Hb Hc [|ev Hev Hcl|_|x _ Hev]; [done|by apply closed_record|by apply closed_remove_project|].
  cbv zeta. set (b1 := record b (ERevoke x)).
  destruct (record_others b (ERevoke x)) as (_ & _ & _ & _ & Hrev & _).
  assert (inv b1) as Hb1 by by apply inv_step.
  assert (b_entries b1 = b_entries b) as He1 by apply record_entries.
  destruct Hc. constructor; rewrite ?msgs_release_all; unfold msgs; rewrite ?He1; try done.
  intros id e c He Hcl. rewrite revoked_record_all by by apply Forall_always_map.
  destruct (claim_release_all _ _ _ _ _ He Hcl) as [He' Hn]. clear He. rename He' into He. unfold b1. rewrite Hrev.
  rewrite ids_where_elem in Hn by apply Hb1. rewrite not_elem_of_union, elem_of_singleton.
  split.
  - intros Hx. apply Hn. exists e. split; [done|]. unfold claimed_by. rewrite Hcl.
    by apply bool_decide_eq_true.
  - rewrite He1 in He. by eapply co_owner0.
Qed.

(** ** Properties *)

(** The runtime's calls on the board. *)
Inductive Call : Set :=
| CApply (p : N) (a : Author) (op : Operation) (now : N)
| CExpire (now : N)
| CForgetPane (pane : N)
| CRetain (live : gset N).

Definition call (b : Board) (c : Call) : Board :=
  match c with
  | CApply p a op now => (apply b p a op now).1
  | CExpire now => expire b now
  | CForgetPane pane => forget_pane b pane
  | CRetain live => retain_projects b live
  end.

Definition calls (cs : list Call) : Board := foldl call empty_board cs.

Lemma empty_inv : inv empty_board /\ closed empty_board.
Proof.
  assert (forall id e, b_entries empty_board !! id <> Some e) as He.
  { intros id e. exact (lookup_empty_Some id e). }
  assert (forall id m, msgs empty_board !! id <> Some m) as Hm.
  { intros id m (e & Hx & _)%msgs_some. by apply He in Hx. }
  split; [constructor; constructor|constructor]; try done;
    try (intros; match goal with
      | H : msgs empty_board !! _ = Some _ |- _ => by apply Hm in H
      | H : b_entries empty_board !! _ = Some _ |- _ => by apply He in H
      end).
  - intros p id. split; [intros H; by apply elem_of_empty in H|by intros (? & ?%Hm & _)].
  - simpl. unfold JOURNAL_LIMIT. lia.
  - constructor.
  - intros s m H. exfalso. exact (not_elem_of_nil _ H).
Qed.

Lemma calls_inv cs : inv (calls cs) /\ closed (calls cs).
Proof.
  induction cs as [|c cs [Hi Hc]] using rev_ind; [apply empty_inv|].
  unfold calls. rewrite foldl_snoc. fold (calls cs). destruct c as [p a op now|now|pane|live]; cbn [call].
  - destruct (apply_did (calls cs) p a op now Hi) as [Hd _].
    pose proof (settle_inv _ now Hi) as Hi'. pose proof (settle_closed _ now Hi Hc) as Hc'.
    split; [exact (did_inv _ _ _ _ _ Hi' Hd)|exact (did_closed _ _ _ _ _ Hi' Hc' Hd)].
  - split; [by apply expire_inv|by apply expire_closed].
  - split; [by apply forget_pane_inv|by apply forget_pane_closed].
  - split; [by apply retain_projects_inv|by apply retain_projects_closed].
Qed.

(** C9: whatever the runtime calls, with whatever clock, the board keeps its
    budgets and its structure: the Project index and the byte count are exact,
    no removed body survives in the journal, claims sit on thread roots, are
    held by unrevoked authors and at most one per Task, every reply's parent is
    live and outlives it, and idempotency keys are unique. *)
Theorem board_invariant cs :
  let b := calls cs in
  (bytes b = map_sum (fun m => len8 (m_body m) * 2) (msgs b) /\ bytes b <= BYTE_LIMIT
   /\ N.of_nat (size (b_entries b)) <= 4000
   /\ (length (journal b) <= JOURNAL_LIMIT)%nat
   /\ (forall p, N.of_nat (size (project_set b p)) <= PROJECT_LIMIT)
   /\ (forall a, N.of_nat (length (rate_of b a)) <= 30))
  /\ (forall p id, id ∈ project_set b p <-> exists m, msgs b !! id = Some m /\ m_project m = p)
  /\ (forall s m, (s, EPost m) ∈ journal b -> msgs b !! m_id m = Some m)
  /\ (forall id e c, b_entries b !! id = Some e -> claim e = Some c ->
        m_thread (message e) = id /\ c_owner c ∉ revoked b
        /\ c_expires_ms c <= m_expires_ms (message e)
        /\ forall id' e' t, b_entries b !! id' = Some e' -> is_Some (claim e') ->
             m_task (message e) = Some t -> m_task (message e') = Some t -> id' = id)
  /\ (forall id m p, msgs b !! id = Some m -> m_reply_to m = Some p ->
        exists pm, msgs b !! p = Some pm /\ m_project pm = m_project m
          /\ m_thread pm = m_thread m /\ m_expires_ms m <= m_expires_ms pm)
  /\ (forall id id' m m', msgs b !! id = Some m -> msgs b !! id' = Some m' ->
        m_project m = m_project m' -> m_author m = m_author m' -> m_key m = m_key m' -> id = id').
Proof.
  cbv zeta. destruct (calls_inv cs) as [[Hix Hch Hjo Hcl Hbu] Hc].
  split_and!; try apply Hbu; try apply Hix; try apply Hjo; try apply Hc.
  intros id e c He Hcc. destruct (cl_claim _ Hcl _ _ _ He Hcc) as (? & _ & ?).
  split_and!; [done|by eapply co_owner|done|].
  intros id' e' t He' Hs' Ht Ht'. apply (cl_task _ Hcl id' id e' e t); try done.
Qed.

(** C39: an operation that answers an error leaves the board as expiry left it;
    a revoked author gets nothing done; while a Project is paused agents get
    nothing done in it; and only a human pauses, clears or revokes. *)
Theorem apply_errors_and_authority cs p a op now :
  let b := calls cs in
  let s := settle b now in
  let '(b', r) := apply b p a op now in
  (is_ok r = false -> b' = s)
  /\ (a ∈ revoked s -> b' = s /\ r = Err (lit "revoked"))
  /\ (a ∉ revoked s -> p ∈ paused s -> a <> Human -> b' = s /\ r = Err (lit "paused"))
  /\ (a <> Human ->
        match op with Pause _ | Clear _ | Revoke _ => b' = s /\ is_ok r = false | _ => True end).
Proof.
  cbv zeta. destruct (apply_did (calls cs) p a op now) as [_ Herr]; [apply calls_inv|].
  destruct (apply (calls cs) p a op now) as [b' r] eqn:E. simpl in Herr.
  unfold apply, authorize in E. split_and!; [done| | |].
  - intros Ha. rewrite bool_decide_eq_true_2 in E by done. by injection E as <- <-.
  - intros Ha Hp Hh. rewrite bool_decide_eq_false_2 in E by done.
    rewrite bool_decide_eq_true_2, bool_decide_eq_false_2 in E by done. by injection E as <- <-.
  - intros Hh. case_bool_decide; [destruct op; simplify_eq; done|].
    destruct (_ && _); [destruct op; simplify_eq; done|].
    unfold dispatch in E. rewrite bool_decide_eq_false_2 in E by done.
    destruct op as [| | | | | | | |on|[]|x]; simplify_eq; done.
Qed.

(** Posting is idempotent: while a post of the author with the key is live
    in the Project, the same post answers its id, different content under that
    key is a conflict, and neither changes the board. *)
Theorem post_idempotent cs p a now kind body reply_to to task key ttl id e :
  let b := calls cs in
  let s := settle b now in
  authorize s a = Ok tt -> p ∉ paused s \/ a = Human -> invalid_post body key ttl = false ->
  b_entries s !! id = Some e -> m_project (message e) = p -> m_author (message e) = a ->
  m_key (message e) = key ->
  apply b p a (Post kind body reply_to to task key ttl) now =
    (s, if bool_decide (m_kind (message e) = kind /\ m_body (message e) = body
             /\ m_reply_to (message e) = reply_to /\ m_to (message e) = to
             /\ m_task (message e) = task /\ m_ttl_ms (message e) = ttl)
        then Ok (Some id) else Err (lit "idempotency_conflict")).
Proof.
  cbv zeta. intros Hau Hp Hv He Hpr Ha Hk. destruct (calls_inv cs) as [Hi Hc].
  pose proof (settle_inv _ now Hi) as Hi'. pose proof (settle_closed _ now Hi Hc) as Hc'.
  unfold apply. set (s := settle (calls cs) now) in *. rewrite Hau.
  assert (bool_decide (p ∈ paused s) && negb (bool_decide (a = Human)) = false) as ->.
  { apply andb_false_iff. destruct Hp as [Hp| ->]; [left|right]; [by apply bool_decide_eq_false|].
    by rewrite bool_decide_eq_true_2. }
  simpl. unfold apply_post. rewrite Hv.
  assert (msgs s !! id = Some (message e)) as Hm by (apply msgs_some; eauto).
  destruct (list_find (same_key a key) (project_entries s p)) as [[i e']|] eqn:Hf.
  - apply list_find_Some in Hf as (Hin & [Ha' Hk'] & _).
    apply list_elem_of_lookup_2, project_entries_elem in Hin as (id' & He' & Hp'); [|apply Hi'].
    assert (id' = id) as ->.
    { apply (co_key _ Hc' id' id (message e') (message e)); try congruence. apply msgs_some. eauto. }
    assert (e' = e) as -> by congruence.
    destruct (ix_id _ (inv_index _ Hi') _ _ Hm) as [-> _]. done.
  - apply list_find_None in Hf. rewrite Forall_forall in Hf. destruct (Hf e); [|done].
    apply project_entries_elem; [apply Hi'|]. eauto.
Qed.

Definition post_once : Operation := Post Plan (lit "hello") None None None (lit "k") 5000.

Lemma post_idempotent_witness :
  (apply (calls [CApply 1 Human post_once 10]) 1 Human
     (Post Plan (lit "hello") None None None (lit "k") 5000) 20).2 = Ok (Some 1).
Proof.
  rewrite (post_idempotent [CApply 1 Human post_once 10] 1 Human 20 Plan (lit "hello")
    None None None (lit "k") 5000 1
    {| message := {| m_id := 1; m_project := 1; m_author := Human; m_kind := Plan;
         m_body := lit "hello"; m_reply_to := None; m_thread := 1; m_to := None; m_task := None;
         m_key := lit "k"; m_created_ms := 10; m_expires_ms := 5010; m_ttl_ms := 5000 |};
       revision := 0; changed := 1; acknowledged := ∅; claim := None |});
    [reflexivity|vm_compute; reflexivity|right; reflexivity|vm_compute; reflexivity
    |vm_compute; reflexivity|reflexivity|reflexivity|reflexivity].
Defined.

(** *** Pages *)

Section Keyed.
Context {A : Type} (key : A -> N).

Lemma sort_by_key_strict l :
  NoDup l -> (forall x y, x ∈ l -> y ∈ l -> key x = key y -> x = y) ->
  StronglySorted (fun x y => key x < key y) (sort_by (fun x y => key x <=? key y) l).
Proof.
  intros Hnd Hinj.
  pose proof (sort_by_perm (fun x y => key x <=? key y) l) as Hp.
  assert (StronglySorted (fun x y => (key x <=? key y) = true)
    (sort_by (fun x y => key x <=? key y) l)) as Hs.
  { apply sort_by_sorted; intros; bool_lia. }
  rewrite <- Hp in Hnd.
  assert (forall x y, x ∈ sort_by (fun x y => key x <=? key y) l ->
    y ∈ sort_by (fun x y => key x <=? key y) l -> key x = key y -> x = y) as Hinj'.
  { intros x y. rewrite !sort_by_elem. apply Hinj. }
  clear Hp Hinj. revert Hs Hnd Hinj'. generalize (sort_by (fun x y => key x <=? key y) l) as s.
  induction 1 as [|x s Hs IH Hall]; intros Hnd Hinj; [constructor|].
  apply NoDup_cons in Hnd as [Hx Hnd]. constructor.
  - apply IH; [done|]. intros y z Hy Hz. apply Hinj; by right.
  - rewrite Forall_forall in Hall |- *. intros y Hy. pose proof (Hall y Hy) as Hle.
    apply N.leb_le in Hle. assert (key x <> key y); [|lia]. intros E. apply Hx.
    assert (x = y) as ->; [|done]. apply Hinj; [left|by right|done].
Qed.

(** The first [n] elements of a list in key order are those up to the last one
    taken. *)
Lemma take_sorted n s y :
  StronglySorted (fun x y => key x < key y) s -> last (take n s) = Some y ->
  forall x, x ∈ take n s <-> x ∈ s /\ key x <= key y.
Proof.
  intros Hs Hlast x. revert n Hlast. induction Hs as [|z s Hs IH Hall]; intros n Hlast.
  - by rewrite take_nil in Hlast.
  - destruct n as [|n]; [done|]. cbn [take] in *. rewrite Forall_forall in Hall.
    destruct (take n s) as [|w t] eqn:Et.
    + simpl in Hlast. injection Hlast as ->. rewrite list_elem_of_singleton, elem_of_cons.
      split; [intros ->; split; [by left|lia]|]. intros [[->|Hin] Hle]; [done|].
      apply Hall in Hin. lia.
    + rewrite last_cons_cons, <- Et in Hlast. rewrite <- Et.
      rewrite !elem_of_cons, (IH n Hlast). split.
      * intros [->|[? ?]]; [|by split; [right|]]. split; [by left|].
        apply last_Some_elem_of, elem_of_take in Hlast. destruct Hlast as (i & Hi & _).
        apply list_elem_of_lookup_2, Hall in Hi. lia.
      * intros [[->|?] ?]; [by left|by right].
Qed.
End Keyed.

Lemma NoDup_omap {A B} (f : A -> option B) l :
  NoDup l -> (forall x y z, f x = Some z -> f y = Some z -> x = y) -> NoDup (omap f l).
Proof.
  intros Hnd Hinj. induction Hnd as [|x l Hx Hnd IH]; simpl; [constructor|].
  destruct (f x) as [z|] eqn:E; [|done]. constructor; [|done].
  rewrite list_elem_of_omap. intros (y & Hy & Ez). assert (x = y) as -> by by eapply Hinj. done.
Qed.

Lemma project_entries_NoDup b p : index_ok b -> NoDup (project_entries b p).
Proof.
  intros Hix. unfold project_entries, project_ids, set_iter. apply NoDup_omap.
  - rewrite sort_by_perm. apply NoDup_elements.
  - intros x y e Hx Hy. destruct (ix_id _ Hix x (message e)) as [<- _]; [apply msgs_some; eauto|].
    destruct (ix_id _ Hix y (message e)) as [<- _]; [apply msgs_some; eauto|done].
Qed.

(** The matching entries of a Project, in change order. *)
Definition matches (b : Board) (p after : N) (thread : option N) : list Entry :=
  sort_by (fun x y => changed x <=? changed y)
    (filter (fun e => (after <? changed e) && in_thread thread e = true) (project_entries b p)).

Lemma matches_elem b p after thread e :
  index_ok b -> e ∈ matches b p after thread <->
    (exists id, b_entries b !! id = Some e /\ m_project (message e) = p)
    /\ after < changed e /\ in_thread thread e = true.
Proof.
  intros Hix. unfold matches. rewrite sort_by_elem, list_elem_of_filter.
  rewrite project_entries_elem by done. rewrite andb_true_iff, N.ltb_lt. tauto.
Qed.

Lemma matches_sorted b p after thread :
  index_ok b -> changes_ok b ->
  StronglySorted (fun x y => changed x < changed y) (matches b p after thread).
Proof.
  intros Hix Hch. apply sort_by_key_strict.
  - by apply NoDup_filter, project_entries_NoDup.
  - intros x y [_ Hx]%list_elem_of_filter [_ Hy]%list_elem_of_filter E.
    apply project_entries_elem in Hx as (i & Hi & _); [|done].
    apply project_entries_elem in Hy as (j & Hj & _); [|done].
    assert (i = j) as -> by by eapply ch_inj. congruence.
Qed.

Lemma StronglySorted_take {A} (R : A -> A -> Prop) n s :
  StronglySorted R s -> StronglySorted R (take n s).
Proof.
  intros H. revert n. induction H as [|x s Hs IH Hall]; intros [|n]; simpl; try constructor; auto.
  by apply Forall_take.
Qed.

(** A page of a Project lists, in change order and at most twenty of them,
    exactly the matching entries that changed after the request's cursor and up
    to the cursor it returns; that cursor moves forward, and is the board's
    sequence when nothing more matches. Reading page after page so misses no
    entry and repeats none. A cursor the board cannot honour is refused. *)
Theorem list_page_exact cs p after thread limit :
  let b := calls cs in
  match list_page b p after thread limit with
  | Err e => sequence b < after \/ (0 < after /\ after < floor b)
  | Ok pg =>
      after <= sequence b /\ (after = 0 \/ floor b <= after)
      /\ (length (p_entries pg) <= 20)%nat
      /\ StronglySorted (fun x y => changed x < changed y) (p_entries pg)
      /\ (forall e, e ∈ p_entries pg <->
            (exists id, b_entries b !! id = Some e /\ m_project (message e) = p)
            /\ after < changed e <= cursor pg /\ in_thread thread e = true)
      /\ cursor pg <= sequence b
      /\ (if more pg then after < cursor pg else cursor pg = sequence b)
  end.
Proof.
  cbv zeta. destruct (calls_inv cs) as [[Hix Hch _ _ _] _].
  set (b := calls cs) in *. unfold list_page, validate_cursor.
  destruct (_ || _) eqn:Hcur.
  { apply orb_true_iff in Hcur as [H|H]; [left; by apply N.ltb_lt|right].
    apply andb_true_iff in H as [H1 H2]. apply N.ltb_lt in H2.
    apply negb_true_iff, N.eqb_neq in H1. lia. }
  apply orb_false_iff in Hcur as [Hc1 Hc2]. apply N.ltb_ge in Hc1.
  fold (matches b p after thread).
  pose proof (matches_sorted b p after thread Hix Hch) as Hs.
  pose proof (fun e => matches_elem b p after thread e Hix) as Hm.
  assert (forall e, e ∈ matches b p after thread -> after < changed e <= sequence b) as Hrange.
  { intros e He. apply Hm in He as ((id & He & _) & ? & _). split; [done|].
    by apply (ch_range _ Hch id). }
  set (n := N.to_nat (nclamp limit 1 20)).
  assert (1 <= n <= 20)%nat as Hn by (pose proof (nclamp_range limit 1 20); lia).
  cbn [p_entries cursor more]. split; [done|]. split.
  { destruct (N.eqb_spec after 0); [by left|right]. by apply N.ltb_ge. }
  split; [rewrite length_take; lia|]. split; [by apply StronglySorted_take|].
  destruct (Nat.ltb_spec n (length (matches b p after thread))) as [Hmore|Hall].
  - destruct (last (take n (matches b p after thread))) as [y|] eqn:Hlast.
    2: { apply last_None, (f_equal length) in Hlast. rewrite length_take in Hlast. simpl in Hlast. lia. }
    assert (y ∈ matches b p after thread) as Hy.
    { apply last_Some_elem_of, elem_of_take in Hlast as (i & Hi & _).
      by eapply list_elem_of_lookup_2. }
    apply Hrange in Hy. split; [|lia]. intros e.
    rewrite (take_sorted changed n _ y Hs Hlast e), Hm. tauto.
  - split; [|lia]. intros e. rewrite take_ge by done. split.
    + intros He. pose proof (Hrange e He). apply Hm in He. split; [tauto|]. split; [lia|tauto].
    + intros (H1 & H2 & H3). apply Hm. split; [done|]. split; [lia|done].
Qed.
