(* ===== verification/Guardrail.v ===== *)
(** * Guardrail policy

    [uniterm-core/src/guardrail.rs]: the pure decisions on launches, elapsed
    time and Uniterm's own commands. [u16] facts keep their width: the sum of
    reserved and requested Panes saturates. *)

From S2P Require Import Prelude RunGraph.

Definition GUARDRAIL_MAX_ACTIVE_RUNS : N := 64.
Definition GUARDRAIL_MAX_ROLE_PANES : N := 256.
Definition GUARDRAIL_MAX_ITERATIONS : N := 100.
Definition GUARDRAIL_MAX_ELAPSED_SECONDS : N := 7 * 24 * 60 * 60.
Definition GUARDRAIL_MAX_PROJECT_SELECTORS : N := 64.

Record GuardLimits : Set := {
  max_active_runs : N; max_role_panes : N; max_iterations : N; max_elapsed_seconds : N }.

Definition default_limits : GuardLimits := {|
  max_active_runs := 8; max_role_panes := 16; max_iterations := 3;
  max_elapsed_seconds := 2 * 60 * 60 |}.

(** [(lo..=hi).contains(&x)] *)
Definition in_range (x lo hi : N) : bool := (lo <=? x) && (x <=? hi).

Definition validate (l : GuardLimits) : result GuardLimits str :=
  if negb (in_range (max_active_runs l) 1 GUARDRAIL_MAX_ACTIVE_RUNS) then
    Err (lit "max active runs is outside its bounded range")
  else if negb (in_range (max_role_panes l) 1 GUARDRAIL_MAX_ROLE_PANES) then
    Err (lit "max role Panes is outside its bounded range")
  else if negb (in_range (max_iterations l) 1 GUARDRAIL_MAX_ITERATIONS) then
    Err (lit "max iterations is outside its bounded range")
  else if negb (in_range (max_elapsed_seconds l) 1 GUARDRAIL_MAX_ELAPSED_SECONDS) then
    Err (lit "max elapsed seconds is outside its bounded range")
  else Ok l.

Record GuardPolicy : Set := {
  limits : GuardLimits; projects_restricted : bool; allowed_projects : list N }.

Record LaunchFacts : Set := {
  project : N; kind : RunKind; requested_roles : N; active_runs : N; reserved_role_panes : N }.

Inductive GuardedCommand : Set :=
| PaneCreate | CheckpointCreate | CheckpointRollback | BulkWaitingAction
| AgentsStopAll | ProjectRemove | WorkspaceStop.

Inductive GuardAction : Set :=
| OrchestrationLaunch (kind : RunKind) (requested_roles : N)
| ElapsedLimit (elapsed_seconds limit_seconds : N)
| SemanticCommand (command : GuardedCommand) (confirmed : bool).

Inductive GuardDecision : Set := Allow | Ask (reason : str) | Deny (reason : str).

Record GuardrailRecord : Set := {
  g_project : option N; g_run : option N; g_action : GuardAction; g_decision : GuardDecision }.

Definition evaluate_launch (policy : GuardPolicy) (facts : LaunchFacts) : GuardDecision :=
  match validate (limits policy) with
  | Err reason => Deny reason
  | Ok _ =>
  if (project facts =? 0) || (requested_roles facts =? 0) then
    Deny (lit "launch requires an owned Project and at least one role")
  else if projects_restricted policy && negb (bool_decide (project facts ∈ allowed_projects policy)) then
    Deny (lit "Project " ++ dec (project facts) ++ lit " is not allowed by Workspace policy")
  else if max_active_runs (limits policy) <=? active_runs facts then
    Deny (lit "active run cap " ++ dec (max_active_runs (limits policy)) ++ lit " reached")
  else if max_role_panes (limits policy)
          <? sadd u16_max (reserved_role_panes facts) (requested_roles facts) then
    Deny (lit "role Pane cap " ++ dec (max_role_panes (limits policy)) ++ lit " would be exceeded")
  else Allow
  end.

Definition evaluate_elapsed (elapsed_seconds limit_seconds : N) : GuardDecision :=
  if elapsed_seconds <? limit_seconds then Allow
  else Ask (lit "run elapsed-time cap of " ++ dec limit_seconds ++ lit " seconds reached").

Definition label (c : GuardedCommand) : str :=
  match c with
  | PaneCreate => lit "Pane creation"
  | CheckpointCreate => lit "checkpoint creation"
  | CheckpointRollback => lit "checkpoint rollback"
  | BulkWaitingAction => lit "bulk waiting action"
  | AgentsStopAll => lit "bulk agent stop"
  | ProjectRemove => lit "Project removal"
  | WorkspaceStop => lit "Workspace stop"
  end.

Definition evaluate_semantic (c : GuardedCommand) (confirmed : bool) : GuardDecision :=
  let confirmation_required := match c with
    | CheckpointRollback | BulkWaitingAction | AgentsStopAll | ProjectRemove | WorkspaceStop => true
    | _ => false
    end in
  if confirmation_required && negb confirmed then
    Ask (label c ++ lit " requires explicit confirmation")
  else Allow.

(** ** Properties *)

Definition limits_ok (l : GuardLimits) : Prop :=
  1 <= max_active_runs l <= GUARDRAIL_MAX_ACTIVE_RUNS
  /\ 1 <= max_role_panes l <= GUARDRAIL_MAX_ROLE_PANES
  /\ 1 <= max_iterations l <= GUARDRAIL_MAX_ITERATIONS
  /\ 1 <= max_elapsed_seconds l <= GUARDRAIL_MAX_ELAPSED_SECONDS.

Lemma in_range_spec x lo hi : in_range x lo hi = true <-> lo <= x <= hi.
Proof. unfold in_range. rewrite andb_true_iff, !N.leb_le. tauto. Qed.

Lemma validate_spec l : (limits_ok l /\ validate l = Ok l) \/ (~ limits_ok l /\ exists e, validate l = Err e).
Proof.
  unfold validate, limits_ok.
  repeat match goal with
  | |- context [in_range ?x ?a ?b] =>
      let E := fresh "E" in destruct (in_range x a b) eqn:E; simpl;
      [apply in_range_spec in E|right; split; [intros H; apply not_true_iff_false in E;
         apply E, in_range_spec; tauto|by eexists]]
  end.
  by left.
Qed.

(** A launch is allowed exactly when the limits are valid, it names a
    Project the policy permits and at least one role, and afterwards neither the
    active runs nor the reserved role Panes exceed their caps, 16-bit overflow
    included; it is otherwise denied, never put to a question. *)
Theorem evaluate_launch_spec policy facts :
  (evaluate_launch policy facts = Allow <->
     limits_ok (limits policy) /\ project facts <> 0 /\ requested_roles facts <> 0
     /\ (projects_restricted policy = true -> project facts ∈ allowed_projects policy)
     /\ active_runs facts + 1 <= max_active_runs (limits policy)
     /\ reserved_role_panes facts + requested_roles facts <= max_role_panes (limits policy))
  /\ (evaluate_launch policy facts <> Allow -> exists reason, evaluate_launch policy facts = Deny reason).
Proof.
  unfold evaluate_launch.
  destruct (validate_spec (limits policy)) as [[Hl ->]|[Hl [e ->]]].
  2: { split; [|eauto]. split; [done|tauto]. }
  destruct (N.eqb_spec (project facts) 0); simpl; [split; [split; [done|tauto]|eauto]|].
  destruct (N.eqb_spec (requested_roles facts) 0); simpl; [split; [split; [done|tauto]|eauto]|].
  destruct (projects_restricted policy && _) eqn:Hp.
  { apply andb_true_iff in Hp as [-> Hp]. apply negb_true_iff, bool_decide_eq_false in Hp.
    split; [|eauto]. split; [done|]. intros (_ & _ & _ & H & _). by destruct Hp; apply H. }
  assert (projects_restricted policy = true -> project facts ∈ allowed_projects policy) as Hallowed.
  { intros E. rewrite E in Hp. by apply negb_false_iff, bool_decide_eq_true in Hp. }
  destruct (N.leb_spec (max_active_runs (limits policy)) (active_runs facts)).
  { split; [|eauto]. split; [done|]. intros (_ & _ & _ & _ & ? & _). lia. }
  destruct Hl as (Hl1 & Hl2 & Hl3). unfold GUARDRAIL_MAX_ROLE_PANES in Hl2.
  unfold sadd, u16_max.
  destruct (N.ltb_spec (max_role_panes (limits policy))
    (N.min (reserved_role_panes facts + requested_roles facts) 65535)).
  { split; [|eauto]. split; [done|]. intros (_ & _ & _ & _ & _ & ?). lia. }
  split; [|done]. split; [|done]. intros _. split_and!; try done; lia.
Qed.

(** An unconfirmed destructive command asks, everything else Uniterm does
    itself is allowed; the elapsed boundary asks exactly from the limit on. *)
Lemma semantic_and_elapsed_spec c confirmed elapsed limit :
  (evaluate_semantic c confirmed = Allow <->
     confirmed = true \/ c = PaneCreate \/ c = CheckpointCreate)
  /\ (evaluate_semantic c confirmed = Allow \/ exists m, evaluate_semantic c confirmed = Ask m)
  /\ (evaluate_elapsed elapsed limit = Allow <-> elapsed < limit)
  /\ (limit <= elapsed -> exists m, evaluate_elapsed elapsed limit = Ask m).
Proof.
  unfold evaluate_elapsed. destruct (N.ltb_spec elapsed limit).
  - split_and!; [| | |lia]; [destruct c, confirmed; naive_solver|destruct c, confirmed; eauto|done].
  - split_and!; [destruct c, confirmed; naive_solver|destruct c, confirmed; eauto| |eauto].
    split; [done|lia].
Qed.
