(* ===== verification/Cell.v ===== *)
(** * Cells of the screen grid

    [uniterm-core/src/grid.rs]: colours, packed attributes and the compact
    cell.  The tables of the [unicode-width] and [unicode-segmentation] crates
    are the operations of a class, so nothing below depends on their content. *)

From S2P Require Import Prelude.

(** ** Colours *)

Inductive Color : Set :=
| Default
| Idx (i : N)
| Rgb (r g b : N).

#[global] Instance Color_eq_dec : EqDecision Color.
Proof. solve_decision. Defined.

Definition rgb_params (c : Color) : str :=
  match c with
  | Default => []
  | Idx n => lit "5;" ++ dec n
  | Rgb r g b => lit "2;" ++ dec r ++ lit ";" ++ dec g ++ lit ";" ++ dec b
  end.

Definition sgr_fg (c : Color) : str :=
  match c with Default => lit "39" | _ => lit "38;" ++ rgb_params c end.

Definition sgr_bg (c : Color) : str :=
  match c with Default => lit "49" | _ => lit "48;" ++ rgb_params c end.

(** ** Attributes: the sixteen bits of [Attrs] *)

Definition NONE : N := 0.
Definition BOLD : N := N.shiftl 1 0.
Definition UNDERLINE : N := N.shiftl 1 1.
Definition REVERSE : N := N.shiftl 1 2.
Definition DIM : N := N.shiftl 1 3.
Definition ITALIC : N := N.shiftl 1 4.
Definition BLINK : N := N.shiftl 1 5.
Definition INVISIBLE : N := N.shiftl 1 6.
Definition STRIKE : N := N.shiftl 1 7.

Definition UNDERLINE_STYLE_MASK : N :=
  N.lor (N.lor (N.shiftl 1 1) (N.shiftl 1 8)) (N.shiftl 1 9).

Inductive UnderlineStyle : Set := UNone | Single | Double | Curly | Dotted | Dashed.

(** [style as u16] *)
Definition style_code (s : UnderlineStyle) : N :=
  match s with
  | UNone => 0 | Single => 1 | Double => 2 | Curly => 3 | Dotted => 4 | Dashed => 5
  end.

Definition underline_style (a : N) : UnderlineStyle :=
  let encoded := N.lor (N.lor (N.land (N.shiftr a 1) 1) (N.land (N.shiftr a 7) 2))
                       (N.land (N.shiftr a 7) 4) in
  match encoded with
  | 1 => Single | 2 => Double | 3 => Curly | 4 => Dotted | 5 => Dashed | _ => UNone
  end.

(** [!x] on sixteen bits. *)
Definition not16 (x : N) : N := N.lxor x u16_max.

Definition set_underline_style (a : N) (style : UnderlineStyle) : N :=
  let encoded := style_code style in
  let a := N.land a (not16 UNDERLINE_STYLE_MASK) in
  let a := N.lor a (N.shiftl (N.land encoded 1) 1) in
  let a := N.lor a (N.shiftl (N.land encoded 2) 7) in
  N.lor a (N.shiftl (N.land encoded 4) 7).

(** ** Cells *)

Record Cell : Set := {
  ch : char; fg : Color; bg : Color; attrs : N; width : N; c_underline : N;
  cluster : N; c_hyperlink : N }.

#[global] Instance Cell_eq_dec : EqDecision Cell.
Proof. solve_decision. Defined.

Definition is_continuation (c : Cell) : bool := width c =? 0.

Definition display_width (c : Cell) : N :=
  if is_continuation c then 0 else N.max (width c) 1.

Definition SPACE : char := 32.
Definition REPLACEMENT : char := 65533.

Definition default_cell : Cell := {|
  ch := SPACE; fg := Default; bg := Default; attrs := NONE; width := 1;
  c_underline := 0; cluster := 0; c_hyperlink := 0 |}.

(** The persisted form: text and underline colour are resolved. *)
Record StoredCell : Set := {
  s_text : str; s_fg : Color; s_bg : Color; s_attrs : N; s_underline : Color;
  s_width : N; s_continuation : bool }.

#[global] Instance StoredCell_eq_dec : EqDecision StoredCell.
Proof. solve_decision. Defined.

Record StoredLine : Set := { s_cells : list StoredCell; s_wrapped : bool }.

Definition stored_cell_is_default_blank (c : StoredCell) : bool :=
  str_eqb (s_text c) [SPACE] && bool_decide (s_fg c = Default) && bool_decide (s_bg c = Default)
  && (s_attrs c =? NONE) && bool_decide (s_underline c = Default) && negb (s_continuation c).

(** ** Unicode tables *)

Class Unicode := {
  char_width : char -> option N;       (* [UnicodeWidthChar::width] *)
  text_width : str -> N;               (* [UnicodeWidthStr::width] *)
  grapheme_count : str -> N            (* [graphemes(true).count()] *) }.

(** Small tables for examples: combining marks from U+0300, wide characters from
    U+1100. *)
Definition sample_width (c : char) : option N :=
  if c <? 32 then None else if (768 <=? c) && (c <? 880) then Some 0 else if 4352 <=? c then Some 2 else Some 1.

Definition sample_unicode : Unicode := {|
  char_width := sample_width;
  text_width := fun s => foldr (fun c n => default 0 (sample_width c) + n) 0 s;
  grapheme_count := fun s =>
    match s with
    | [] => 0
    | _ => N.max 1 (N.of_nat (length (filter (fun c => sample_width c <> Some 0) s)))
    end |}.

(** ** Facts *)

Lemma land_pow2 a k : N.land a (2 ^ k) = if N.testbit a k then 2 ^ k else 0.
Proof.
  apply N.bits_inj. intros i. rewrite N.land_spec, N.pow2_bits_eqb.
  destruct (N.eqb_spec k i) as [<-|Hne].
  - rewrite andb_true_r. destruct (N.testbit a k); [by rewrite N.pow2_bits_true|by rewrite N.bits_0].
  - rewrite andb_false_r. destruct (N.testbit a k); [by rewrite N.pow2_bits_false|by rewrite N.bits_0].
Qed.

(** The style is what three bits of the attributes say. *)
Lemma underline_style_bits a :
  underline_style a =
  match N.testbit a 1, N.testbit a 8, N.testbit a 9 with
  | true, false, false => Single | false, true, false => Double | true, true, false => Curly
  | false, false, true => Dotted | true, false, true => Dashed | _, _, _ => UNone
  end.
Proof.
  unfold underline_style.
  change (N.land (N.shiftr a 1) 1) with (N.land (N.shiftr a 1) (2 ^ 0)).
  change (N.land (N.shiftr a 7) 2) with (N.land (N.shiftr a 7) (2 ^ 1)).
  change (N.land (N.shiftr a 7) 4) with (N.land (N.shiftr a 7) (2 ^ 2)).
  rewrite !land_pow2, !N.shiftr_spec'.
  change (0 + 1) with 1. change (1 + 7) with 8. change (2 + 7) with 9.
  by destruct (N.testbit a 1), (N.testbit a 8), (N.testbit a 9).
Qed.

(** Setting an underline style is read back, and no other attribute changes. *)
Lemma set_underline_style_spec a s :
  underline_style (set_underline_style a s) = s
  /\ N.land (set_underline_style a s) (not16 UNDERLINE_STYLE_MASK)
     = N.land a (not16 UNDERLINE_STYLE_MASK).
Proof.
  split.
  - rewrite underline_style_bits. unfold set_underline_style.
    rewrite !N.lor_spec, !N.land_spec.
    destruct s; cbn -[N.testbit]; rewrite ?andb_false_r; done.
  - apply N.bits_inj. intros i. unfold set_underline_style.
    rewrite !N.land_spec, !N.lor_spec, !N.land_spec, !andb_orb_distrib_l, <- andb_assoc, andb_diag.
    assert (forall k, k = 1 \/ k = 8 \/ k = 9 -> forall b,
      N.testbit (if b : bool then 2 ^ k else 0) i && N.testbit (not16 UNDERLINE_STYLE_MASK) i = false) as H.
    { intros k Hk [|]; [|by rewrite N.bits_0].
      rewrite N.pow2_bits_eqb. destruct (N.eqb_spec k i) as [<-|]; [|done].
      by destruct Hk as [->|[->| ->]]. }
    assert (forall x, x = 0 \/ x = 2 \/ x = 256 \/ x = 512 ->
      N.testbit x i && N.testbit (not16 UNDERLINE_STYLE_MASK) i = false) as Hx.
    { intros x [->|[->|[->| ->]]]; [apply (H 1 ltac:(auto) false)|apply (H 1 ltac:(auto) true)
        |apply (H 8 ltac:(auto) true)|apply (H 9 ltac:(auto) true)]. }
    rewrite (Hx (N.shiftl (N.land (style_code s) 1) 1)), (Hx (N.shiftl (N.land (style_code s) 2) 7)),
      (Hx (N.shiftl (N.land (style_code s) 4) 7)) by (destruct s; vm_compute; tauto). by rewrite !orb_false_r.
Qed.

Lemma is_continuation_default : is_continuation default_cell = false.
Proof. done. Qed.
