(* ===== verification/AgentDetail.v ===== *)
(** * Agent details

    [uniterm-core/src/agent_detail.rs]: what an agent last told, scoped to one
    invocation and one native session.  The record is a projection of the
    observed events; the theorem states it as a function of those since the
    session was last replaced. *)

From S2P Require Import Prelude Agent.

Definition DETAIL_TEXT_LIMIT : nat := 512.
Definition DETAIL_ID_LIMIT : nat := 1024.

Inductive LoopState : Set := Scheduled | Stopped.

#[global] Instance LoopState_eq_dec : EqDecision LoopState.
Proof. solve_decision. Defined.

Definition label (s : LoopState) : str :=
  match s with Scheduled => lit "scheduled" | Stopped => lit "stopped" end.

Inductive AgentDetail : Set :=
| Notification (kind message : str)
| PermissionAsked (tool preview : str)
| Loop (state : LoopState) (delay_seconds : option N).

Record AgentNotification : Set := { n_kind : str; n_message : str; n_at_ms : N }.
Record AgentPermission : Set := { p_tool : str; p_preview : str; p_at_ms : N }.
Record AgentLoop : Set := { l_state : LoopState; l_delay_seconds : option N; l_at_ms : N }.

Record AgentDetails : Set := {
  invocation : option Z;
  session_id : option str;
  transcript_path : option str;
  last_notification : option AgentNotification;
  pending_permission : option AgentPermission;
  loop_state : option AgentLoop }.

Definition new (invocation : option Z) : AgentDetails := {|
  invocation := invocation; session_id := None; transcript_path := None;
  last_notification := None; pending_permission := None; loop_state := None |}.

Definition bounded_text (value : str) (limit : nat) : str :=
  take limit (filter (fun c => is_control c = false)
    (map (fun c => if (c =? 10) || (c =? 9) then 32 else c) value)).

Definition replaces (old new : option str) : bool :=
  match old, new with Some a, Some b => negb (str_eqb a b) | _, _ => false end.

Definition observe_session (d : AgentDetails) (session transcript : option str) : AgentDetails * bool :=
  let session := (fun v => bounded_text v DETAIL_ID_LIMIT) <$> session in
  let transcript := (fun v => bounded_text v DETAIL_ID_LIMIT) <$> transcript in
  if replaces (session_id d) session then
    ({| invocation := invocation d; session_id := session; transcript_path := transcript;
        last_notification := None; pending_permission := None; loop_state := None |}, true)
  else
    ({| invocation := invocation d;
        session_id := match session with Some _ => session | None => session_id d end;
        transcript_path := match transcript with Some _ => transcript | None => transcript_path d end;
        last_notification := last_notification d; pending_permission := pending_permission d;
        loop_state := loop_state d |}, false).

Definition apply (d : AgentDetails) (detail : AgentDetail) (at_ms : N) : AgentDetails :=
  match detail with
  | Notification kind message =>
      {| invocation := invocation d; session_id := session_id d; transcript_path := transcript_path d;
         last_notification := Some {| n_kind := bounded_text kind DETAIL_TEXT_LIMIT;
           n_message := bounded_text message DETAIL_TEXT_LIMIT; n_at_ms := at_ms |};
         pending_permission := pending_permission d; loop_state := loop_state d |}
  | PermissionAsked tool preview =>
      {| invocation := invocation d; session_id := session_id d; transcript_path := transcript_path d;
         last_notification := last_notification d;
         pending_permission := Some {| p_tool := bounded_text tool DETAIL_TEXT_LIMIT;
           p_preview := bounded_text preview DETAIL_TEXT_LIMIT; p_at_ms := at_ms |};
         loop_state := loop_state d |}
  | Loop state delay =>
      {| invocation := invocation d; session_id := session_id d; transcript_path := transcript_path d;
         last_notification := last_notification d; pending_permission := pending_permission d;
         loop_state := Some {| l_state := state; l_delay_seconds := delay; l_at_ms := at_ms |} |}
  end.

Definition observe_status (d : AgentDetails) (status : AgentStatus) : AgentDetails :=
  if decide (status <> Permission) then
    {| invocation := invocation d; session_id := session_id d; transcript_path := transcript_path d;
       last_notification := last_notification d; pending_permission := None;
       loop_state := loop_state d |}
  else d.

(** ** The record as a function of what was observed *)

Inductive observed : Set :=
| OSession (session transcript : option str)
| ODetail (detail : AgentDetail) (at_ms : N)
| OStatus (status : AgentStatus).

Definition observe (d : AgentDetails) (o : observed) : AgentDetails :=
  match o with
  | OSession s t => (observe_session d s t).1
  | ODetail x t => apply d x t
  | OStatus s => observe_status d s
  end.

Definition replay (inv : option Z) (os : list observed) : AgentDetails := foldl observe (new inv) os.

(** The session last named, and the events since another was named before it. *)
Definition named (o : observed) : option str :=
  match o with OSession (Some s) _ => Some (bounded_text s DETAIL_ID_LIMIT) | _ => None end.

Definition last_some {A B} (f : A -> option B) (l : list A) : option B :=
  foldl (fun acc x => match f x with Some b => Some b | None => acc end) None l.

(** The suffix of the observations that belongs to the session in force: from
    the observation that replaced the previous one, or everything. *)
Definition in_session (os : list observed) : list observed :=
  (foldl (fun st o =>
     let '(cur, since) := st in
     match named o with
     | Some s => if replaces cur (Some s) then (Some s, [o]) else (Some s, since ++ [o])
     | None => (cur, since ++ [o])
     end) (None, []) os).2.

Definition noted (o : observed) : option AgentNotification :=
  match o with
  | ODetail (Notification k m) t => Some {| n_kind := bounded_text k DETAIL_TEXT_LIMIT;
      n_message := bounded_text m DETAIL_TEXT_LIMIT; n_at_ms := t |}
  | _ => None
  end.

(** The permission payload: the last one asked for with no other status since. *)
Definition asked (o : observed) : option (option AgentPermission) :=
  match o with
  | ODetail (PermissionAsked k m) t => Some (Some {| p_tool := bounded_text k DETAIL_TEXT_LIMIT;
      p_preview := bounded_text m DETAIL_TEXT_LIMIT; p_at_ms := t |})
  | OStatus s => if decide (s <> Permission) then Some None else None
  | _ => None
  end.

Definition looped (o : observed) : option AgentLoop :=
  match o with
  | ODetail (Loop s d) t => Some {| l_state := s; l_delay_seconds := d; l_at_ms := t |}
  | _ => None
  end.

Definition transcribed (o : observed) : option str :=
  match o with OSession _ (Some t) => Some (bounded_text t DETAIL_ID_LIMIT) | _ => None end.

Lemma last_some_snoc {A B} (f : A -> option B) l x :
  last_some f (l ++ [x]) = match f x with Some b => Some b | None => last_some f l end.
Proof. unfold last_some. by rewrite foldl_app. Qed.

Lemma in_session_snoc os o :
  let cur := last_some named os in
  in_session (os ++ [o]) =
  match named o with
  | Some s => if replaces cur (Some s) then [o] else in_session os ++ [o]
  | None => in_session os ++ [o]
  end.
Proof.
  cbn zeta. unfold in_session. rewrite foldl_app. cbn [foldl].
  assert ((foldl (fun st o => let '(cur, since) := st in
     match named o with
     | Some s => if replaces cur (Some s) then (Some s, [o]) else (Some s, since ++ [o])
     | None => (cur, since ++ [o])
     end) (None, []) os).1 = last_some named os) as E.
  { induction os as [|x os IH] using rev_ind; [done|]. rewrite foldl_app, last_some_snoc. cbn [foldl].
    destruct (foldl _ (None, []) os) as [cur since]. cbn in IH. subst cur.
    destruct (named x); [|done]. by destruct (replaces _ _). }
  destruct (foldl _ (None, []) os) as [cur since]. cbn in E. subst cur. cbn [snd].
  destruct (named o); [|done]. by destruct (replaces _ _).
Qed.

Lemma bounded_clean v n :
  (length (bounded_text v n) <= n)%nat /\ Forall (fun c => is_control c = false) (bounded_text v n).
Proof.
  unfold bounded_text. split; [rewrite length_take; lia|].
  apply Forall_take, Forall_forall. intros c Hc. by apply list_elem_of_filter in Hc as [? _].
Qed.

(** Details follow one session. After any observations the record names
    the session last reported, and holds the last notification, loop transition,
    transcript and still-pending permission among the observations since that
    session replaced another; texts are bounded and free of control
    characters. *)
Theorem details_project_session inv os :
  let d := replay inv os in
  let since := in_session os in
  invocation d = inv
  /\ session_id d = last_some named os
  /\ transcript_path d = last_some transcribed since
  /\ last_notification d = last_some noted since
  /\ pending_permission d = default None (last_some asked since)
  /\ loop_state d = last_some looped since
  /\ (forall n, last_notification d = Some n ->
        (length (n_kind n) <= DETAIL_TEXT_LIMIT /\ length (n_message n) <= DETAIL_TEXT_LIMIT)%nat
        /\ Forall (fun c => is_control c = false) (n_kind n ++ n_message n)).
Proof.
  cbn zeta.
  assert (invocation (replay inv os) = inv
  /\ session_id (replay inv os) = last_some named os
  /\ transcript_path (replay inv os) = last_some transcribed (in_session os)
  /\ last_notification (replay inv os) = last_some noted (in_session os)
  /\ pending_permission (replay inv os) = default None (last_some asked (in_session os))
  /\ loop_state (replay inv os) = last_some looped (in_session os)) as H.
  { induction os as [|o os IH] using rev_ind; [done|].
    unfold replay in *. rewrite foldl_app. cbn [foldl]. rewrite in_session_snoc, last_some_snoc.
    set (d := foldl observe (new inv) os) in *. destruct IH as (E1 & E2 & E3 & E4 & E5 & E6).
    destruct o as [s t|x t|s]; cbn [observe named].
    - unfold observe_session. rewrite E2. destruct s as [s|]; cbn [fmap option_fmap option_map].
      + destruct (replaces _ _); cbn [fst]; rewrite ?last_some_snoc; destruct t as [t|]; cbn; by rewrite ?E1, ?E3, ?E4, ?E5, ?E6.
      + assert (replaces (last_some named os) None = false) as -> by by destruct (last_some named os).
        rewrite !last_some_snoc. destruct t as [t|]; cbn; by rewrite ?E1, ?E3, ?E4, ?E5, ?E6.
    - rewrite !last_some_snoc. destruct x; cbn; by rewrite ?E1, ?E2, ?E3, ?E4, ?E5, ?E6.
    - rewrite !last_some_snoc. unfold observe_status. cbn. destruct (decide (s <> Permission)); cbn; by rewrite ?E1, ?E2, ?E3, ?E4, ?E5, ?E6. }
  destruct H as (E1 & E2 & E3 & E4 & E5 & E6). split_and!; try done.
  intros n Hn. rewrite E4 in Hn. clear -Hn. induction (in_session os) as [|o l IH] using rev_ind; [done|].
  rewrite last_some_snoc in Hn. destruct o as [? ?|[k m| |] t|?]; cbn in Hn; try by apply IH.
  injection Hn as <-. cbn. destruct (bounded_clean k DETAIL_TEXT_LIMIT), (bounded_clean m DETAIL_TEXT_LIMIT).
  split; [done|]. by apply Forall_app.
Qed.
