(* ===== verification/Waiting.v ===== *)
(** * The human-attention queue

    [uniterm-core/src/waiting.rs]: [WaitingQueue] reconciles observed agent
    states and explicit requests into at most one item per Pane, and replays
    its durable changes. *)

From S2P Require Import Prelude Agent.

Inductive WaitingKind : Set := Permission | Question | Workflow | Relay.

#[global] Instance WaitingKind_eq_dec : EqDecision WaitingKind.
Proof. solve_decision. Defined.

Definition from_agent_status (s : AgentStatus) : option WaitingKind :=
  match s with
  | Agent.Permission => Some Permission
  | Agent.Question => Some Question
  | _ => None
  end.

Definition label (k : WaitingKind) : str :=
  match k with
  | Permission => lit "permission" | Question => lit "question"
  | Workflow => lit "workflow" | Relay => lit "relay"
  end.

Record WaitingItem : Set := {
  w_id : N; w_pane : N; w_invocation : option Z; w_kind : WaitingKind; w_summary : str }.

Inductive WaitingResolution : Set :=
| Answered | Dismissed | Stopped | AgentAdvanced | PaneClosed | Resumed.

Inductive WaitingChange : Set :=
| NoChange
| Created (item : WaitingItem)
| Updated (id : N) (summary : str)
| Replaced (resolved : N) (created : WaitingItem)
| Resolved (id : N) (resolution : WaitingResolution).

Record WaitingQueue : Set := { items : list WaitingItem; next_id : N }.

Definition new : WaitingQueue := {| items := []; next_id := 1 |}.

Definition bounded_summary (s : str) : str := take 2048 s.

Definition set_summary (s : str) (i : WaitingItem) : WaitingItem :=
  {| w_id := w_id i; w_pane := w_pane i; w_invocation := w_invocation i;
     w_kind := w_kind i; w_summary := s |}.

Definition with_items (q : WaitingQueue) (l : list WaitingItem) : WaitingQueue :=
  {| items := l; next_id := next_id q |}.

(** [self.items.iter().position(..)], with the item found. *)
Definition at_pane (pane : N) (q : WaitingQueue) : option (nat * WaitingItem) :=
  list_find (fun i => w_pane i = pane) (items q).

Definition create (q : WaitingQueue) (pane : N) (invocation : option Z) (kind : WaitingKind)
    (summary : str) : WaitingQueue * WaitingItem :=
  ({| items := items q; next_id := sadd u64_max (next_id q) 1 |},
   {| w_id := next_id q; w_pane := pane; w_invocation := invocation; w_kind := kind;
      w_summary := bounded_summary summary |}).

Definition observe_agent (q : WaitingQueue) (pane : N) (invocation : option Z)
    (status : AgentStatus) (summary : str) : WaitingQueue * WaitingChange :=
  match at_pane pane q, from_agent_status status with
  | Some (index, item), Some kind =>
      if bool_decide (w_invocation item = invocation) && bool_decide (w_kind item = kind) then
        let summary := bounded_summary summary in
        if bool_decide (w_summary item = summary) then (q, NoChange)
        else (with_items q (alter (set_summary summary) index (items q)),
              Updated (w_id item) summary)
      else
        let '(q1, created) := create (with_items q (delete index (items q))) pane invocation kind summary in
        (with_items q1 (items q1 ++ [created]), Replaced (w_id item) created)
  | None, Some kind =>
      let '(q1, created) := create q pane invocation kind summary in
      (with_items q1 (items q1 ++ [created]), Created created)
  | Some (index, item), None =>
      (with_items q (delete index (items q)), Resolved (w_id item) AgentAdvanced)
  | None, None => (q, NoChange)
  end.

Definition request (q : WaitingQueue) (pane : N) (invocation : option Z) (kind : WaitingKind)
    (summary : str) : WaitingQueue * WaitingChange :=
  let existing := at_pane pane q in
  let '(q1, item) := create q pane invocation kind summary in
  match existing with
  | Some (index, old) =>
      (with_items q1 (delete index (items q1) ++ [item]), Replaced (w_id old) item)
  | None => (with_items q1 (items q1 ++ [item]), Created item)
  end.

Definition insert (q : WaitingQueue) (item : WaitingItem) : WaitingQueue :=
  {| items := filter (fun c => w_id c <> w_id item /\ w_pane c <> w_pane item) (items q) ++ [item];
     next_id := N.max (next_id q) (sadd u64_max (w_id item) 1) |}.

Definition update_summary (q : WaitingQueue) (id : N) (summary : str) : WaitingQueue * bool :=
  match list_find (fun i => w_id i = id) (items q) with
  | Some (index, _) =>
      (with_items q (alter (set_summary (bounded_summary summary)) index (items q)), true)
  | None => (q, false)
  end.

Definition remove_found (q : WaitingQueue) (found : option (nat * WaitingItem))
    : WaitingQueue * option WaitingItem :=
  match found with
  | Some (index, item) => (with_items q (delete index (items q)), Some item)
  | None => (q, None)
  end.

Definition resolve (q : WaitingQueue) (id : N) : WaitingQueue * option WaitingItem :=
  remove_found q (list_find (fun i => w_id i = id) (items q)).

Definition resolve_pane (q : WaitingQueue) (pane : N) : WaitingQueue * option WaitingItem :=
  remove_found q (at_pane pane q).

Definition resolve_pane_kind (q : WaitingQueue) (pane : N) (kind : WaitingKind)
    : WaitingQueue * option WaitingItem :=
  remove_found q (list_find (fun i => w_pane i = pane /\ w_kind i = kind) (items q)).

Definition get (q : WaitingQueue) (id : N) : option WaitingItem :=
  snd <$> list_find (fun i => w_id i = id) (items q).

(** ** One item per Pane *)

Record wf (q : WaitingQueue) : Prop := {
  wf_panes : NoDup (map w_pane (items q));
  wf_ids : NoDup (map w_id (items q));
  wf_next : Forall (fun i => w_id i < next_id q) (items q);
  wf_summary : Forall (fun i => (length (w_summary i) <= 2048)%nat) (items q) }.

Lemma wf_delete q i x : wf q -> items q !! i = Some x ->
  wf (with_items q (delete i (items q)))
  /\ Forall (fun y => w_id y <> w_id x /\ w_pane y <> w_pane x) (delete i (items q)).
Proof.
  intros [Hp Hi Hn Hs] Hx. pose proof (delete_Permutation _ _ _ Hx) as Hperm.
  rewrite Hperm in Hp, Hi, Hn, Hs. simpl in Hp, Hi.
  apply NoDup_cons in Hp as [Hp1 Hp], Hi as [Hi1 Hi].
  apply Forall_cons in Hn as [_ Hn], Hs as [_ Hs].
  split; [by constructor|]. apply Forall_forall. intros y Hy.
  split; intros E; [apply Hi1|apply Hp1]; rewrite <- E; by apply list_elem_of_fmap_2.
Qed.

Lemma wf_push q item :
  wf q -> Forall (fun y => w_pane y <> w_pane item) (items q) -> w_id item = next_id q ->
  next_id q < u64_max -> (length (w_summary item) <= 2048)%nat ->
  wf {| items := items q ++ [item]; next_id := sadd u64_max (next_id q) 1 |}.
Proof.
  intros [Hp Hi Hn Hs] Hfresh Hid Hmax Hlen. rewrite Forall_forall in Hn, Hfresh.
  constructor; simpl; rewrite ?map_app.
  - apply NoDup_app. split; [done|]. split; [|apply NoDup_singleton].
    intros p Hin ->%list_elem_of_singleton. apply list_elem_of_fmap in Hin as (y & E & Hy).
    by apply (Hfresh y Hy).
  - apply NoDup_app. split; [done|]. split; [|apply NoDup_singleton].
    intros p Hin ->%list_elem_of_singleton. apply list_elem_of_fmap in Hin as (y & E & Hy).
    apply Hn in Hy. simpl in E. lia.
  - apply Forall_app. split; [|apply Forall_singleton; unfold sadd; lia].
    apply Forall_forall. intros y Hy. apply Hn in Hy. unfold sadd. lia.
  - apply Forall_app. split; [done|by apply Forall_singleton].
Qed.

Lemma wf_alter_summary q i s :
  wf q -> (length s <= 2048)%nat -> wf (with_items q (alter (set_summary s) i (items q))).
Proof.
  intros [Hp Hi Hn Hs] Hlen.
  assert (forall {B} (f : WaitingItem -> B), (forall x, f (set_summary s x) = f x) ->
    map f (alter (set_summary s) i (items q)) = map f (items q)) as Hmap.
  { intros B f Hf. clear -Hf. revert i. induction (items q) as [|x l IH]; intros [|i]; [done|done| |].
    - simpl. by rewrite Hf.
    - simpl. f_equal. apply IH. }
  constructor; simpl; rewrite ?Hmap by done; try done.
  - by apply Forall_alter.
  - apply Forall_alter; [done|]. by intros.
Qed.

Lemma at_pane_some q pane i x :
  at_pane pane q = Some (i, x) -> items q !! i = Some x /\ w_pane x = pane.
Proof. intros (? & ? & _)%list_find_Some. done. Qed.

Lemma at_pane_none q pane :
  at_pane pane q = None -> Forall (fun y => w_pane y <> pane) (items q).
Proof. intros H%list_find_None. exact H. Qed.

Lemma bounded_length s : (length (bounded_summary s) <= 2048)%nat.
Proof. unfold bounded_summary. rewrite length_take. lia. Qed.

#[local] Hint Resolve bounded_length : core.

Lemma observe_agent_wf q pane inv st s :
  wf q -> next_id q < u64_max -> wf (observe_agent q pane inv st s).1.
Proof.
  intros Hq Hmax. unfold observe_agent.
  destruct (at_pane pane q) as [[i x]|] eqn:Ha, (from_agent_status st) as [k|]; [| | |done].
  - apply at_pane_some in Ha as [Hx Hp]. destruct (wf_delete q i x Hq Hx) as [Hd Hf].
    destruct (_ && _).
    + case_bool_decide; [done|]. by apply wf_alter_summary.
    + simpl. apply (wf_push (with_items q (delete i (items q)))); simpl; auto.
      eapply Forall_impl; [exact Hf|]. intros y [_ ?]. congruence.
  - apply at_pane_some in Ha as [Hx _]. by eapply wf_delete.
  - simpl. apply wf_push; simpl; auto. by apply at_pane_none.
Qed.

Lemma request_wf q pane inv k s : wf q -> next_id q < u64_max -> wf (request q pane inv k s).1.
Proof.
  intros Hq Hmax. unfold request. simpl. destruct (at_pane pane q) as [[i x]|] eqn:Ha; simpl.
  - apply at_pane_some in Ha as [Hx Hp]. destruct (wf_delete q i x Hq Hx) as [Hd Hf].
    apply (wf_push (with_items q (delete i (items q)))); simpl; auto.
    eapply Forall_impl; [exact Hf|]. intros y [_ ?]. congruence.
  - apply wf_push; simpl; auto. by apply at_pane_none.
Qed.

Lemma filter_sublist_NoDup {B} (f : WaitingItem -> B) (P : WaitingItem -> Prop)
    `{forall x, Decision (P x)} l : NoDup (map f l) -> NoDup (map f (filter P l)).
Proof.
  induction l as [|x l IH]; [done|]. simpl. intros [Hx Hl]%NoDup_cons.
  rewrite filter_cons. destruct (decide (P x)); [|auto]. simpl. constructor; [|auto].
  intros Hin. apply Hx. apply list_elem_of_fmap in Hin as (y & -> & Hy).
  apply list_elem_of_filter in Hy as [_ Hy]. by apply list_elem_of_fmap_2.
Qed.

Lemma waiting_insert_wf q item :
  wf q -> w_id item < u64_max -> (length (w_summary item) <= 2048)%nat -> wf (insert q item).
Proof.
  intros [Hp Hi Hn Hs] Hid Hlen. unfold insert.
  set (l := filter _ (items q)).
  assert (Forall (fun y => w_id y <> w_id item /\ w_pane y <> w_pane item) l) as Hl.
  { apply Forall_forall. intros y [Hy _]%list_elem_of_filter. done. }
  rewrite Forall_forall in Hl. constructor; simpl; rewrite ?map_app.
  - apply NoDup_app. split; [by apply filter_sublist_NoDup|]. split; [|apply NoDup_singleton].
    intros p Hin ->%list_elem_of_singleton. apply list_elem_of_fmap in Hin as (y & E & Hy).
    by destruct (Hl y Hy).
  - apply NoDup_app. split; [by apply filter_sublist_NoDup|]. split; [|apply NoDup_singleton].
    intros p Hin ->%list_elem_of_singleton. apply list_elem_of_fmap in Hin as (y & E & Hy).
    by destruct (Hl y Hy).
  - apply Forall_app. split; [|apply Forall_singleton; unfold sadd; lia].
    apply Forall_forall. intros y [_ Hy]%list_elem_of_filter.
    rewrite Forall_forall in Hn. apply Hn in Hy. lia.
  - apply Forall_app. split; [|by apply Forall_singleton].
    apply Forall_forall. intros y [_ Hy]%list_elem_of_filter. rewrite Forall_forall in Hs. auto.
Qed.

Lemma update_summary_wf q id s : wf q -> wf (update_summary q id s).1.
Proof.
  intros Hq. unfold update_summary. destruct (list_find _ _) as [[i x]|]; [|done].
  by apply wf_alter_summary.
Qed.

Lemma remove_found_wf q P `{forall x, Decision (P x)} :
  wf q -> wf (remove_found q (list_find P (items q))).1.
Proof.
  intros Hq. destruct (list_find P (items q)) as [[i x]|] eqn:E; [|done].
  apply list_find_Some in E as (Hx & _). by apply (wf_delete q i x).
Qed.

(** ** Properties *)

(** The calls on the queue. *)
Inductive Call : Set :=
| CObserve (pane : N) (inv : option Z) (st : AgentStatus) (summary : str)
| CRequest (pane : N) (inv : option Z) (kind : WaitingKind) (summary : str)
| CInsert (item : WaitingItem)
| CUpdate (id : N) (summary : str)
| CResolve (id : N)
| CResolvePane (pane : N)
| CResolvePaneKind (pane : N) (kind : WaitingKind).

Definition call (q : WaitingQueue) (c : Call) : WaitingQueue :=
  match c with
  | CObserve p i st s => (observe_agent q p i st s).1
  | CRequest p i k s => (request q p i k s).1
  | CInsert item => insert q item
  | CUpdate id s => (update_summary q id s).1
  | CResolve id => (resolve q id).1
  | CResolvePane p => (resolve_pane q p).1
  | CResolvePaneKind p k => (resolve_pane_kind q p k).1
  end.

Definition calls (cs : list Call) : WaitingQueue := foldl call new cs.

(** A logged item comes from a queue: its identity is below [bound] and its
    summary within the cut. *)
Definition typed (bound : N) (c : Call) : Prop :=
  match c with
  | CInsert item => w_id item < bound /\ (length (w_summary item) <= 2048)%nat
  | _ => True
  end.

Lemma waiting_calls_wf bound cs :
  Forall (typed bound) cs -> 1 <= bound -> bound + N.of_nat (length cs) < u64_max ->
  wf (calls cs) /\ next_id (calls cs) <= bound + N.of_nat (length cs).
Proof.
  intros H Hb. induction cs as [|c cs IH] using rev_ind; intros Hlen.
  - split; [by repeat constructor|]. change (next_id (calls [])) with 1. lia.
  - apply Forall_app in H as [H Hc]. apply Forall_cons in Hc as [Hc _].
    rewrite length_app in Hlen |- *. simpl in *. destruct IH as [Hq Hn]; [done|lia|].
    unfold calls. rewrite foldl_snoc. fold (calls cs). set (q := calls cs) in *.
    assert (next_id q < u64_max) as Hmax by lia.
    assert (forall i, next_id q <= bound + N.of_nat (length cs) ->
      next_id (with_items q i) <= bound + N.of_nat (length cs + 1)) as Hw by (simpl; lia).
    assert (sadd u64_max (next_id q) 1 <= bound + N.of_nat (length cs + 1)) as Hsadd by (unfold sadd; lia).
    destruct c as [p i st s|p i k s|item|id s|id|p|p k]; cbn [call].
    + split; [by apply observe_agent_wf|]. unfold observe_agent.
      destruct (at_pane p q) as [[j x]|], (from_agent_status st) as [k|]; simpl; try lia.
      destruct (_ && _); [case_bool_decide|]; simpl; lia.
    + split; [by apply request_wf|]. unfold request. simpl.
      destruct (at_pane p q) as [[j x]|]; simpl; lia.
    + destruct Hc as [Hi Hl]. split; [apply waiting_insert_wf; [done|lia|done]|]. simpl. unfold sadd in *. lia.
    + split; [by apply update_summary_wf|]. unfold update_summary.
      destruct (list_find _ _) as [[j x]|]; simpl; lia.
    + split; [by apply remove_found_wf|]. unfold resolve, remove_found.
      destruct (list_find _ _) as [[j x]|]; simpl; lia.
    + split; [by apply remove_found_wf|]. unfold resolve_pane, remove_found.
      destruct (at_pane _ _) as [[j x]|]; simpl; lia.
    + split; [by apply remove_found_wf|]. unfold resolve_pane_kind, remove_found.
      destruct (list_find _ _) as [[j x]|]; simpl; lia.
Qed.

Lemma find_id q i x :
  wf q -> items q !! i = Some x -> list_find (fun y => w_id y = w_id x) (items q) = Some (i, x).
Proof.
  intros Hq Hx. apply list_find_Some. split_and!; [done..|]. intros j y Hy Hlt E.
  assert (j = i); [|lia].
  apply (NoDup_lookup (map w_id (items q)) j i (w_id x)); [apply Hq| |];
    rewrite list_lookup_fmap; [rewrite Hy|rewrite Hx]; simpl; congruence.
Qed.

(** The durable events of a change, applied to the projection before it. *)
Definition replay_change (q : WaitingQueue) (c : WaitingChange) : WaitingQueue :=
  match c with
  | NoChange => q
  | Created item => insert q item
  | Updated id s => (update_summary q id s).1
  | Replaced id item => insert (resolve q id).1 item
  | Resolved id _ => (resolve q id).1
  end.

Lemma bounded_idem s : bounded_summary (bounded_summary s) = bounded_summary s.
Proof. unfold bounded_summary. by rewrite take_take, Nat.min_id. Qed.

Lemma insert_fresh q item :
  Forall (fun y => w_id y <> w_id item /\ w_pane y <> w_pane item) (items q) ->
  w_id item = next_id q ->
  insert q item = {| items := items q ++ [item]; next_id := sadd u64_max (next_id q) 1 |} \/ u64_max <= next_id q.
Proof.
  intros Hf Hid. destruct (N.le_gt_cases u64_max (next_id q)) as [|Hlt]; [by right|left].
  unfold insert. rewrite filter_all by done. f_equal. unfold sadd. lia.
Qed.

Lemma fresh_items q item :
  wf q -> w_id item = next_id q -> Forall (fun y => w_pane y <> w_pane item) (items q) ->
  Forall (fun y => w_id y <> w_id item /\ w_pane y <> w_pane item) (items q).
Proof.
  intros Hq Hid Hp. pose proof (wf_next _ Hq) as Hn. rewrite Forall_forall in Hp, Hn |- *.
  intros y Hy. split; [|by apply Hp]. apply Hn in Hy. lia.
Qed.

Lemma replay_created q item :
  wf q -> next_id q < u64_max -> w_id item = next_id q ->
  Forall (fun y => w_pane y <> w_pane item) (items q) ->
  insert q item = {| items := items q ++ [item]; next_id := sadd u64_max (next_id q) 1 |}.
Proof.
  intros Hq Hmax Hid Hp. destruct (insert_fresh q item); [by apply fresh_items|done|done|lia].
Qed.

Lemma replay_replaced q i x item :
  wf q -> next_id q < u64_max -> items q !! i = Some x -> w_pane x = w_pane item ->
  w_id item = next_id q ->
  insert (resolve q (w_id x)).1 item =
    {| items := delete i (items q) ++ [item]; next_id := sadd u64_max (next_id q) 1 |}.
Proof.
  intros Hq Hmax Hx Hp Hid. unfold resolve. rewrite (find_id q i x Hq Hx). simpl.
  destruct (wf_delete q i x Hq Hx) as [Hd Hf].
  rewrite (replay_created (with_items q (delete i (items q))) item Hd Hmax Hid); [done|].
  eapply Forall_impl; [exact Hf|]. intros y [_ ?]. congruence.
Qed.

(** C32: the queue holds at most one item per Pane and no identity twice,
    whatever is observed, requested, replayed and resolved; and the change it
    reports is complete: replaying it on the projection from before gives
    exactly the queue, next identity included. *)
Theorem waiting_changes_replay bound cs pane inv st k s :
  Forall (typed bound) cs -> 1 <= bound -> bound + N.of_nat (length cs) < u64_max ->
  let q := calls cs in
  NoDup (map w_pane (items q)) /\ NoDup (map w_id (items q))
  /\ Forall (fun i => w_id i < next_id q /\ (length (w_summary i) <= 2048)%nat) (items q)
  /\ replay_change q (observe_agent q pane inv st s).2 = (observe_agent q pane inv st s).1
  /\ replay_change q (request q pane inv k s).2 = (request q pane inv k s).1.
Proof.
  intros Hty Hb Hlen. destruct (waiting_calls_wf bound cs Hty Hb Hlen) as [Hq Hn]. cbv zeta.
  set (q := calls cs) in *. assert (next_id q < u64_max) as Hmax by lia.
  split_and!; [apply Hq|apply Hq|apply Forall_and; split; apply Hq| |].
  - unfold observe_agent.
    destruct (at_pane pane q) as [[i x]|] eqn:Ha, (from_agent_status st) as [kd|]; [| | |done].
    + apply at_pane_some in Ha as [Hx Hp]. destruct (_ && _).
      * case_bool_decide; [done|]. simpl. unfold update_summary.
        rewrite (find_id q i x Hq Hx). simpl. by rewrite bounded_idem.
      * simpl. by rewrite (replay_replaced q i x).
    + apply at_pane_some in Ha as [Hx _]. simpl. unfold resolve. by rewrite (find_id q i x Hq Hx).
    + simpl. apply at_pane_none in Ha. by rewrite replay_created.
  - unfold request. destruct (at_pane pane q) as [[i x]|] eqn:Ha; simpl.
    + apply at_pane_some in Ha as [Hx Hp]. by rewrite (replay_replaced q i x).
    + apply at_pane_none in Ha. by rewrite replay_created.
Qed.

Definition demo_calls : list Call :=
  [CObserve 3 (Some 77%Z) Agent.Question (lit "continue?"); CRequest 4 None Workflow (lit "review")].

Lemma waiting_changes_replay_witness :
  let q := calls demo_calls in
  replay_change q (observe_agent q 3 (Some 78%Z) Agent.Permission (lit "rm")).2
    = (observe_agent q 3 (Some 78%Z) Agent.Permission (lit "rm")).1.
Proof.
  refine (proj1 (proj2 (proj2 (proj2 (waiting_changes_replay 1 demo_calls 3 (Some 78%Z)
    Agent.Permission Relay (lit "rm") _ _ _))))).
  - repeat constructor.
  - vm_compute. discriminate.
  - vm_compute. reflexivity.
Defined.

(** Observing an agent touches its own Pane's item only: it leaves exactly
    one, for a blocked agent, with the observed kind and invocation and the cut
    summary, under the same identity as long as invocation and kind are the
    same and a new one otherwise; it leaves none for any other status. *)
Theorem observe_agent_spec bound cs pane inv st s :
  Forall (typed bound) cs -> 1 <= bound -> bound + N.of_nat (length cs) < u64_max ->
  let q := calls cs in
  let q' := (observe_agent q pane inv st s).1 in
  filter (fun i => w_pane i <> pane) (items q') = filter (fun i => w_pane i <> pane) (items q)
  /\ filter (fun i => w_pane i = pane) (items q') =
       match from_agent_status st with
       | None => []
       | Some kind => [{| w_id := match at_pane pane q with
            | Some (_, x) =>
                if bool_decide (w_invocation x = inv /\ w_kind x = kind) then w_id x else next_id q
            | None => next_id q
            end; w_pane := pane; w_invocation := inv; w_kind := kind;
            w_summary := bounded_summary s |}]
       end.
Proof.
  intros Hty Hb Hlen. destruct (waiting_calls_wf bound cs Hty Hb Hlen) as [Hq _]. cbv zeta.
  set (q := calls cs) in *.
  assert (forall i x, items q !! i = Some x -> w_pane x = pane ->
    exists l1 l2, items q = l1 ++ x :: l2 /\ length l1 = i
      /\ Forall (fun y => w_pane y <> pane) l1 /\ Forall (fun y => w_pane y <> pane) l2) as Hsplit.
  { intros i x Hx Hp. exists (take i (items q)), (drop (S i) (items q)).
    split; [by rewrite take_drop_middle|].
    split; [rewrite length_take; apply lookup_lt_Some in Hx; lia|].
    destruct (wf_delete q i x Hq Hx) as [_ Hf]. rewrite delete_take_drop in Hf.
    apply Forall_app in Hf as [H1 H2].
    split; (eapply Forall_impl; [eassumption|]; intros y [_ ?]; congruence). }
  assert (forall l, Forall (fun y => w_pane y <> pane) l -> filter (fun i => w_pane i = pane) l = []) as Hnil.
  { induction 1 as [|y l Hy _ IH]; [done|]. by rewrite filter_cons_False. }
  unfold observe_agent. destruct (at_pane pane q) as [[i x]|] eqn:Ha.
  - apply at_pane_some in Ha as [Hx Hp]. destruct (Hsplit i x Hx Hp) as (l1 & l2 & Hl & <- & H1 & H2).
    rewrite Hl. assert (delete (length l1) (l1 ++ x :: l2) = l1 ++ l2) as Hdel.
    { apply delete_middle. }
    destruct (from_agent_status st) as [k|].
    + destruct (bool_decide (w_invocation x = inv) && bool_decide (w_kind x = k)) eqn:Hsame.
      * apply andb_true_iff in Hsame as [E1%bool_decide_eq_true E2%bool_decide_eq_true].
        rewrite (bool_decide_eq_true_2 (w_invocation x = inv /\ w_kind x = k)) by done.
        assert (forall s', filter (fun i => w_pane i <> pane) (l1 ++ set_summary s' x :: l2) =
            filter (fun i => w_pane i <> pane) (l1 ++ x :: l2)
          /\ filter (fun i => w_pane i = pane) (l1 ++ set_summary s' x :: l2) = [set_summary s' x]) as Hf.
        { intros s'. rewrite !filter_app. rewrite !filter_cons_False by (simpl; tauto).
          split; [done|]. rewrite filter_cons_True by done. by rewrite !Hnil. }
        case_bool_decide as Hs; simpl.
        -- rewrite Hl. destruct (Hf (w_summary x)) as [_ H].
           assert (set_summary (w_summary x) x = x) as E by by destruct x.
           rewrite E in H. split; [done|]. rewrite H, <- Hs. destruct x; simpl in *; subst; done.
        -- rewrite ?Hl, alter_app_r_alt, Nat.sub_diag by lia. destruct (Hf (bounded_summary s)) as [Hf1 Hf2].
           split; [exact Hf1|]. etransitivity; [exact Hf2|]. destruct x; simpl in *; subst; done.
      * assert (bool_decide (w_invocation x = inv /\ w_kind x = k) = false) as ->.
        { apply bool_decide_eq_false. intros [E1 E2]. by rewrite !bool_decide_eq_true_2 in Hsame. }
        simpl. rewrite ?Hl, Hdel, !filter_app.
        rewrite (filter_cons_False _ x) by tauto. rewrite (filter_cons_False _ _ []) by (simpl; tauto).
        rewrite filter_cons_True by done. rewrite !Hnil by done. by rewrite filter_nil, app_nil_r.
    + simpl. rewrite ?Hl, Hdel, !filter_app, filter_cons_False by tauto. by rewrite !Hnil.
  - apply at_pane_none in Ha. destruct (from_agent_status st) as [k|]; simpl.
    + rewrite !filter_app, filter_cons_False by (simpl; tauto). rewrite filter_cons_True by done.
      by rewrite Hnil, filter_nil, app_nil_r.
    + by rewrite Hnil.
Qed.

Lemma observe_agent_spec_witness :
  filter (fun i => w_pane i = 3) (items (observe_agent (calls demo_calls) 3 None Idle []).1) = [].
Proof.
  refine (proj2 (observe_agent_spec 1 demo_calls 3 None Idle [] _ _ _)).
  - repeat constructor.
  - vm_compute. discriminate.
  - vm_compute. reflexivity.
Defined.
