(* ===== verification/Tasks.v ===== *)
(** * Durable tasks

    [uniterm-core/src/tasks.rs]: [TaskList], an ordered collection with
    monotonic identities. [next_id] wraps at 64 bits as the release build does. *)

From S2P Require Import Prelude Cell Orchestrate.

Inductive TaskStatus : Set := Todo | Doing | Blocked | Done.

#[global] Instance TaskStatus_eq_dec : EqDecision TaskStatus.
Proof. solve_decision. Defined.

Definition order (s : TaskStatus) : N :=
  match s with Doing => 0 | Blocked => 1 | Todo => 2 | Done => 3 end.

Definition label (s : TaskStatus) : str :=
  match s with
  | Todo => lit "todo" | Doing => lit "doing" | Blocked => lit "blocked" | Done => lit "done"
  end.

Definition display (s : TaskStatus) : str :=
  match s with
  | Todo => lit "planned" | Doing => lit "running" | Blocked => lit "blocked"
  | Done => lit "finished"
  end.

Definition color (s : TaskStatus) : Color :=
  match s with Todo => Idx 75 | Doing => Idx 214 | Blocked => Idx 203 | Done => Idx 78 end.

Definition next (s : TaskStatus) : TaskStatus :=
  match s with Todo => Doing | Doing => Blocked | Blocked => Done | Done => Todo end.

Record TaskContext : Set := {
  t_project : option N; t_pane : option N; t_invocation : option N; t_source_task : option N;
  t_provider : option str; t_prompt : option str; t_model : option str; t_profile : option str;
  t_workflow : option str; t_relay : bool; t_role_providers : list RoleProviderSelection }.

Definition default_context : TaskContext := {|
  t_project := None; t_pane := None; t_invocation := None; t_source_task := None;
  t_provider := None; t_prompt := None; t_model := None; t_profile := None;
  t_workflow := None; t_relay := false; t_role_providers := [] |}.

Record Task : Set := {
  t_id : N; t_title : str; t_status : TaskStatus; t_notes : str; t_context : TaskContext;
  t_updated : N }.

Record TaskList : Set := { tasks : list Task; next_id : N }.

Definition new : TaskList := {| tasks := []; next_id := 1 |}.

Definition with_tasks (l : TaskList) (ts : list Task) : TaskList :=
  {| tasks := ts; next_id := next_id l |}.

Definition fresh_task (id : N) (title : str) (s : TaskStatus) : Task :=
  {| t_id := id; t_title := title; t_status := s; t_notes := []; t_context := default_context;
     t_updated := id |}.

Definition owns (pane previous : N) (t : Task) : bool :=
  bool_decide (t_pane (t_context t) = Some pane)
  && bool_decide (t_invocation (t_context t) = Some previous).

Definition rebind_task (current : N) (t : Task) : Task :=
  let c := t_context t in
  {| t_id := t_id t; t_title := t_title t; t_status := t_status t; t_notes := t_notes t;
     t_context := {| t_project := t_project c; t_pane := t_pane c; t_invocation := Some current;
       t_source_task := t_source_task c; t_provider := t_provider c; t_prompt := t_prompt c;
       t_model := t_model c; t_profile := t_profile c; t_workflow := t_workflow c;
       t_relay := t_relay c; t_role_providers := t_role_providers c |};
     t_updated := current |}.

Definition rebind_invocation (l : TaskList) (pane previous current : N) : TaskList * N :=
  (with_tasks l (map (fun t => if owns pane previous t then rebind_task current t else t) (tasks l)),
   N.of_nat (length (filter (fun t => owns pane previous t = true) (tasks l)))).

Definition add (l : TaskList) (title : str) (s : TaskStatus) : TaskList * N :=
  let id := next_id l in
  ({| tasks := tasks l ++ [fresh_task id title s]; next_id := wadd U64 id 1 |}, id).

(** [self.tasks.iter_mut().find(|t| t.id == id)], updated by [f]. *)
Definition update (l : TaskList) (id : N) (f : Task -> Task) : TaskList * bool :=
  match list_find (fun t => t_id t = id) (tasks l) with
  | Some (i, _) => (with_tasks l (alter f i (tasks l)), true)
  | None => (l, false)
  end.

Definition set_fields (title : str) (s : TaskStatus) (notes : str) (c : TaskContext) (u : N)
    (t : Task) : Task :=
  {| t_id := t_id t; t_title := title; t_status := s; t_notes := notes; t_context := c;
     t_updated := u |}.

Definition put_status (s : TaskStatus) (t : Task) : Task :=
  set_fields (t_title t) s (t_notes t) (t_context t) (t_updated t) t.
Definition put_title (title : str) (t : Task) : Task :=
  set_fields title (t_status t) (t_notes t) (t_context t) (t_updated t) t.
Definition put_details (notes : str) (c : TaskContext) (t : Task) : Task :=
  set_fields (t_title t) (t_status t) notes c (t_updated t) t.
Definition put_updated (u : N) (t : Task) : Task :=
  set_fields (t_title t) (t_status t) (t_notes t) (t_context t) u t.

Definition insert (l : TaskList) (id : N) (title : str) (s : TaskStatus) : TaskList :=
  let l1 := {| tasks := tasks l; next_id := N.max (next_id l) (wadd U64 id 1) |} in
  match update l1 id (fun t => put_status s (put_title title t)) with
  | (l2, true) => l2
  | (_, false) => with_tasks l1 (tasks l1 ++ [fresh_task id title s])
  end.

Definition set_status (l : TaskList) (id : N) (s : TaskStatus) : TaskList * bool :=
  update l id (put_status s).
Definition set_title (l : TaskList) (id : N) (title : str) : TaskList * bool :=
  update l id (put_title title).
Definition set_details (l : TaskList) (id : N) (notes : str) (c : TaskContext) : TaskList * bool :=
  update l id (put_details notes c).
Definition touch (l : TaskList) (id sequence : N) : TaskList :=
  (update l id (put_updated sequence)).1.

Definition remove (l : TaskList) (id : N) : TaskList * bool :=
  let ts := filter (fun t => t_id t <> id) (tasks l) in
  (with_tasks l ts, negb (length ts =? length (tasks l))%nat).

Definition get (l : TaskList) (id : N) : option Task :=
  snd <$> list_find (fun t => t_id t = id) (tasks l).

Definition len (l : TaskList) : nat := length (tasks l).
Definition is_empty (l : TaskList) : bool := (len l =? 0)%nat.

Definition task_le (a b : Task) : bool :=
  (order (t_status a) <? order (t_status b))
  || ((order (t_status a) =? order (t_status b)) && (t_id a <=? t_id b)).

Definition ordered (l : TaskList) : list Task := sort_by task_le (tasks l).

(** ** The list as a finite map *)

Definition wf (l : TaskList) : Prop :=
  NoDup (map t_id (tasks l)) /\ Forall (fun t => t_id t < next_id l) (tasks l).

(** What the list promises: a map from identities to tasks. *)
Definition contents (l : TaskList) : gmap N Task :=
  list_to_map (map (fun t => (t_id t, t)) (tasks l)).

Lemma ids_pairs ts : (map (fun t : Task => (t_id t, t)) ts).*1 = map t_id ts.
Proof. induction ts as [|t ts IH]; [done|]. simpl. f_equal. exact IH. Qed.

Lemma contents_some l id t :
  NoDup (map t_id (tasks l)) -> contents l !! id = Some t <-> t ∈ tasks l /\ t_id t = id.
Proof.
  intros Hnd. unfold contents. rewrite <- elem_of_list_to_map by by rewrite ids_pairs.
  rewrite list_elem_of_fmap. split.
  - intros (t' & [= -> ->] & ?). done.
  - intros [? <-]. eauto.
Qed.

Lemma get_contents l id : NoDup (map t_id (tasks l)) -> get l id = contents l !! id.
Proof.
  intros Hnd. unfold get. destruct (list_find _ _) as [[i t]|] eqn:E; simpl.
  - apply list_find_Some in E as (Hi & Ht & _). symmetry. apply contents_some; [done|].
    split; [by eapply list_elem_of_lookup_2|done].
  - destruct (contents l !! id) as [t|] eqn:C; [|done]. exfalso.
    apply contents_some in C as [Hin Hid]; [|done]. apply list_find_None in E.
    rewrite Forall_forall in E. by apply (E t).
Qed.

(** Two lists with the same tasks, identities unique, have the same contents. *)
Lemma contents_eq l (m : gmap N Task) :
  NoDup (map t_id (tasks l)) ->
  (forall id t, m !! id = Some t <-> t ∈ tasks l /\ t_id t = id) -> contents l = m.
Proof.
  intros Hnd H. apply map_eq. intros id. apply option_eq. intros t.
  rewrite contents_some by done. by rewrite H.
Qed.

Lemma update_map l id f :
  NoDup (map t_id (tasks l)) ->
  (update l id f).1 = with_tasks l (map (fun t => if decide (t_id t = id) then f t else t) (tasks l))
  /\ (update l id f).2 = bool_decide (is_Some (contents l !! id)).
Proof.
  intros Hnd. rewrite <- (get_contents l id Hnd). unfold update, get.
  destruct (list_find _ _) as [[i t]|] eqn:E; simpl.
  - split; [|done]. f_equal.
    apply list_find_Some in E as (Hi & Ht & _).
    apply list_eq. intros j. rewrite list_lookup_fmap.
    destruct (decide (j = i)) as [->|Hj].
    + rewrite list_lookup_alter, decide_True, Hi by done. simpl. by rewrite decide_True.
    + rewrite list_lookup_alter, decide_False by congruence.
      destruct (tasks l !! j) as [t'|] eqn:Hl; [|done]. simpl. rewrite decide_False; [done|].
      intros E'. apply Hj. apply (NoDup_lookup (map t_id (tasks l)) j i id); [done| |];
        rewrite list_lookup_fmap; [rewrite Hl|rewrite Hi]; simpl; congruence.
  - split; [|done].
    apply list_find_None in E. destruct l as [ts n]. simpl in *. unfold with_tasks. simpl. f_equal.
    clear -E. induction E as [|t ts Ht _ IH]; [done|]. simpl. rewrite decide_False by done. by rewrite <- IH.
Qed.

Lemma ids_update (ts : list Task) id f :
  (forall t, t_id (f t) = t_id t) ->
  map t_id (map (fun t => if decide (t_id t = id) then f t else t) ts) = map t_id ts.
Proof.
  intros Hf. rewrite map_map. apply map_ext. intros t. by destruct (decide _); rewrite ?Hf.
Qed.

Lemma update_spec l id f :
  wf l -> (forall t, t_id (f t) = t_id t) ->
  wf (update l id f).1 /\ contents (update l id f).1 = alter f id (contents l)
  /\ (update l id f).2 = bool_decide (is_Some (contents l !! id))
  /\ next_id (update l id f).1 = next_id l.
Proof.
  intros [Hnd Hlt] Hf. destruct (update_map l id f Hnd) as [-> ->].
  split; [|split; [|done]].
  - split; simpl; [by rewrite ids_update|]. apply Forall_forall. intros t' Ht'.
    apply list_elem_of_fmap in Ht' as (t & -> & Ht). rewrite Forall_forall in Hlt.
    apply Hlt in Ht. by destruct (decide _); rewrite ?Hf.
  - apply contents_eq; [simpl; by rewrite ids_update|]. intros i t'.
    rewrite lookup_alter_Some. simpl. rewrite list_elem_of_fmap. split.
    + intros [(-> & t & Hc & ->)|[Hd Hc]]; apply contents_some in Hc as [Hin Hid]; try done.
      * split; [|by rewrite Hf]. exists t. by rewrite decide_True.
      * split; [|done]. exists t'. rewrite decide_False; [done|congruence].
    + intros [(t & -> & Hin) Hid]. destruct (decide (t_id t = id)) as [E|E].
      * left. rewrite Hf in Hid. split; [congruence|]. exists t. split; [|done].
        apply contents_some; [done|]. split; [done|congruence].
      * right. split; [congruence|]. by apply contents_some.
Qed.

Lemma push_spec l id title s n :
  wf l -> contents l !! id = None -> id < n -> next_id l <= n ->
  let l' := {| tasks := tasks l ++ [fresh_task id title s]; next_id := n |} in
  wf l' /\ contents l' = <[id := fresh_task id title s]> (contents l).
Proof.
  intros [Hnd Hlt] Hnone Hid Hn. cbv zeta.
  assert (id ∉ map t_id (tasks l)) as Hfresh.
  { intros (t & -> & Ht)%list_elem_of_fmap.
    assert (contents l !! t_id t = Some t) as E by by apply contents_some. congruence. }
  assert (NoDup (map t_id (tasks l ++ [fresh_task id title s]))) as Hnd'.
  { rewrite map_app. apply NoDup_app. split; [done|]. split; [|apply NoDup_singleton].
    intros x Hx ->%list_elem_of_singleton. done. }
  split; [split; [exact Hnd'|]|].
  - apply Forall_app. split; [|by apply Forall_singleton].
    eapply Forall_impl; [exact Hlt|]. simpl. lia.
  - apply contents_eq; [done|]. intros i t. rewrite lookup_insert_Some, contents_some by done.
    simpl. rewrite elem_of_app, list_elem_of_singleton. split.
    + intros [[<- <-]|[? [? ?]]]; [by split; [right|]|by split; [left|]].
    + intros [[Hin| ->] <-]; [|by left]. right. split; [|done].
      intros ->. apply Hfresh. by apply list_elem_of_fmap_2.
Qed.

Lemma insert_cases l id title s :
  wf l -> id + 1 < U64 ->
  wf (insert l id title s) /\ next_id (insert l id title s) = N.max (next_id l) (id + 1)
  /\ contents (insert l id title s) =
       match contents l !! id with
       | Some _ => alter (fun t => put_status s (put_title title t)) id (contents l)
       | None => <[id := fresh_task id title s]> (contents l)
       end.
Proof.
  intros [Hnd Hlt] Hid. unfold insert. rewrite wadd_small by done.
  set (l1 := {| tasks := tasks l; next_id := N.max (next_id l) (id + 1) |}).
  assert (wf l1) as Hl1.
  { split; [done|]. eapply Forall_impl; [exact Hlt|]. simpl. lia. }
  assert (contents l1 = contents l) as Hc by done.
  destruct (update_spec l1 id (fun t => put_status s (put_title title t)) Hl1) as (Hu1 & Hu2 & Hu3 & Hu4);
    [done|].
  destruct (update l1 id _) as [l2 b] eqn:E. simpl in Hu1, Hu2, Hu3, Hu4. rewrite Hc in Hu2, Hu3.
  destruct (contents l !! id) as [t|] eqn:Ht; rewrite Hu3; simpl.
  - split; [exact Hu1|]. split; [exact Hu4|exact Hu2].
  - destruct (push_spec l1 id title s (next_id l1) Hl1) as [H1 H2]; [done|simpl; lia|done|].
    split; [exact H1|]. split; [done|]. exact H2.
Qed.

Lemma remove_spec l id :
  wf l -> wf (remove l id).1 /\ contents (remove l id).1 = delete id (contents l)
    /\ (remove l id).2 = bool_decide (is_Some (contents l !! id)).
Proof.
  intros [Hnd Hlt]. unfold remove.
  set (ts := filter (fun t => t_id t <> id) (tasks l)).
  assert (NoDup (map t_id ts)) as Hnd'.
  { unfold ts. clear Hlt. induction (tasks l) as [|t rest IH]; [done|]. simpl in Hnd.
    apply NoDup_cons in Hnd as [Ht Hnd]. rewrite filter_cons. destruct (decide _); [|auto].
    simpl. constructor; [|auto]. intros Hin. apply Ht.
    apply list_elem_of_fmap in Hin as (y & -> & [_ Hy]%list_elem_of_filter).
    by apply list_elem_of_fmap_2. }
  split; [|split]; simpl.
  - split; [done|]. simpl. apply Forall_forall. intros t [_ Ht]%list_elem_of_filter.
    rewrite Forall_forall in Hlt. auto.
  - apply contents_eq; [done|]. intros i t. rewrite lookup_delete_Some, contents_some by done.
    simpl. unfold ts. rewrite list_elem_of_filter. split.
    + intros (? & ? & <-). done.
    + intros [[? ?] <-]. done.
  - apply eq_true_iff_eq. rewrite bool_decide_eq_true, negb_true_iff, Nat.eqb_neq. unfold ts.
    destruct (contents l !! id) as [t|] eqn:Ht.
    + split; [done|]. intros _. apply contents_some in Ht as [Hin Hid]; [|done].
      pose proof (length_filter_lt (fun t => t_id t <> id) (tasks l) t Hin (fun H => H Hid)) as Hlen. lia.
    + split; [|by intros [? ?]]. intros Hne. destruct Hne. rewrite filter_all; [done|].
      apply Forall_forall. intros t Hin Hid.
      assert (contents l !! id = Some t) as E by by apply contents_some. congruence.
Qed.

Lemma rebind_spec l pane previous current :
  wf l ->
  wf (rebind_invocation l pane previous current).1
  /\ contents (rebind_invocation l pane previous current).1
     = (fun t => if owns pane previous t then rebind_task current t else t) <$> contents l
  /\ next_id (rebind_invocation l pane previous current).1 = next_id l.
Proof.
  intros [Hnd Hlt]. unfold rebind_invocation. simpl.
  set (f := fun t => if owns pane previous t then rebind_task current t else t).
  assert (forall t, t_id (f t) = t_id t) as Hf by (intros t; unfold f; by destruct (owns _ _ _)).
  assert (map t_id (map f (tasks l)) = map t_id (tasks l)) as Hids.
  { rewrite map_map. by apply map_ext. }
  split; [|split; [|done]].
  - split; simpl; [by rewrite Hids|]. apply Forall_forall. intros t' Ht'.
    apply list_elem_of_fmap in Ht' as (t & -> & Ht). rewrite Forall_forall in Hlt.
    rewrite Hf. auto.
  - apply contents_eq; [simpl; by rewrite Hids|]. intros i t'. rewrite lookup_fmap, fmap_Some.
    simpl. rewrite list_elem_of_fmap. split.
    + intros (t & Hc & ->). apply contents_some in Hc as [Hin Hid]; [|done].
      split; [by exists t|]. by rewrite Hf.
    + intros [(t & -> & Hin) Hid]. exists t. split; [|done]. apply contents_some; [done|].
      split; [done|]. by rewrite Hf in Hid.
Qed.

(** ** Properties *)

Inductive Call : Set :=
| CAdd (title : str) (s : TaskStatus)
| CInsert (id : N) (title : str) (s : TaskStatus)
| CSetStatus (id : N) (s : TaskStatus)
| CSetTitle (id : N) (title : str)
| CSetDetails (id : N) (notes : str) (c : TaskContext)
| CTouch (id sequence : N)
| CRemove (id : N)
| CRebind (pane previous current : N).

Definition call (l : TaskList) (c : Call) : TaskList :=
  match c with
  | CAdd title s => (add l title s).1
  | CInsert id title s => insert l id title s
  | CSetStatus id s => (set_status l id s).1
  | CSetTitle id title => (set_title l id title).1
  | CSetDetails id notes c => (set_details l id notes c).1
  | CTouch id u => touch l id u
  | CRemove id => (remove l id).1
  | CRebind pane previous current => (rebind_invocation l pane previous current).1
  end.

Definition calls (cs : list Call) : TaskList := foldl call new cs.

(** The same call on the map of tasks; [n] is the next identity. *)
Definition map_call (n : N) (m : gmap N Task) (c : Call) : gmap N Task :=
  match c with
  | CAdd title s => <[n := fresh_task n title s]> m
  | CInsert id title s =>
      match m !! id with
      | Some _ => alter (fun t => put_status s (put_title title t)) id m
      | None => <[id := fresh_task id title s]> m
      end
  | CSetStatus id s => alter (put_status s) id m
  | CSetTitle id title => alter (put_title title) id m
  | CSetDetails id notes c => alter (put_details notes c) id m
  | CTouch id u => alter (put_updated u) id m
  | CRemove id => delete id m
  | CRebind pane previous current =>
      (fun t => if owns pane previous t then rebind_task current t else t) <$> m
  end.

Definition typed (bound : N) (c : Call) : Prop :=
  match c with CInsert id _ _ => id < bound | _ => True end.

Lemma call_spec l c bound :
  wf l -> typed bound c -> next_id l <= bound -> bound + 1 < U64 ->
  wf (call l c) /\ next_id (call l c) <= bound + 1 /\ next_id l <= next_id (call l c)
  /\ contents (call l c) = map_call (next_id l) (contents l) c.
Proof.
  intros Hl Hty Hn Hb. pose proof Hl as [Hnd Hlt].
  destruct c as [title s|id title s|id s|id title|id notes c|id u|id|p q r]; cbn [call map_call].
  - assert (contents l !! next_id l = None) as Hnone.
    { destruct (contents l !! next_id l) as [t|] eqn:E; [|done].
      apply contents_some in E as [Hin Hid]; [|done]. rewrite Forall_forall in Hlt.
      apply Hlt in Hin. lia. }
    unfold add. simpl. rewrite wadd_small by lia.
    destruct (push_spec l (next_id l) title s (next_id l + 1) Hl Hnone) as [H1 H2]; [lia|lia|].
    split_and!; [exact H1|lia|lia|exact H2].
  - simpl in Hty. destruct (insert_cases l id title s Hl) as (H1 & H2 & H3); [lia|].
    rewrite H2. split_and!; [exact H1|lia|lia|exact H3].
  - destruct (update_spec l id (put_status s) Hl) as (H1 & H2 & _ & H4); [done|].
    unfold set_status. rewrite H4. split_and!; [exact H1|lia|lia|exact H2].
  - destruct (update_spec l id (put_title title) Hl) as (H1 & H2 & _ & H4); [done|].
    unfold set_title. rewrite H4. split_and!; [exact H1|lia|lia|exact H2].
  - destruct (update_spec l id (put_details notes c) Hl) as (H1 & H2 & _ & H4); [done|].
    unfold set_details. rewrite H4. split_and!; [exact H1|lia|lia|exact H2].
  - destruct (update_spec l id (put_updated u) Hl) as (H1 & H2 & _ & H4); [done|].
    unfold touch. rewrite H4. split_and!; [exact H1|lia|lia|exact H2].
  - destruct (remove_spec l id Hl) as (H1 & H2 & _).
    split_and!; [exact H1|simpl; lia|simpl; lia|exact H2].
  - destruct (rebind_spec l p q r Hl) as (H1 & H2 & H3). rewrite H3.
    split_and!; [exact H1|lia|lia|exact H2].
Qed.

Lemma calls_wf bound cs :
  Forall (typed bound) cs -> 1 <= bound -> bound + N.of_nat (length cs) < U64 ->
  wf (calls cs) /\ next_id (calls cs) <= bound + N.of_nat (length cs).
Proof.
  intros H Hb. induction cs as [|c cs IH] using rev_ind; intros Hlen.
  - split; [by repeat constructor|]. change (next_id (calls [])) with 1. lia.
  - apply Forall_app in H as [H Hc]. apply Forall_cons in Hc as [Hc _].
    rewrite length_app in Hlen |- *. simpl in *. destruct IH as [Hl Hn]; [done|lia|].
    unfold calls. rewrite foldl_snoc. fold (calls cs).
    destruct (call_spec (calls cs) c (bound + N.of_nat (length cs)) Hl) as (H1 & H2 & _ & _); [|done|lia|].
    + destruct c; simpl in *; lia || done.
    + split; [exact H1|lia].
Qed.

Lemma task_le_total x y : task_le x y = false -> task_le y x = true.
Proof. unfold task_le. bool_lia. Qed.

Lemma task_le_trans x y z : task_le x y = true -> task_le y z = true -> task_le x z = true.
Proof. unfold task_le. bool_lia. Qed.

(** C34: the task list is a finite map: identities stay unique and below the
    next one, reading an identity reads the map, every call does to the list
    what it says to do to the map, and [ordered] lists each task once, sorted
    by status and identity. *)
Theorem task_list_refines_map bound cs c :
  Forall (typed bound) (cs ++ [c]) -> 1 <= bound -> bound + N.of_nat (length cs) + 1 < U64 ->
  let l := calls cs in
  NoDup (map t_id (tasks l)) /\ Forall (fun t => t_id t < next_id l) (tasks l)
  /\ (forall id, get l id = contents l !! id)
  /\ contents (calls (cs ++ [c])) = map_call (next_id l) (contents l) c
  /\ ordered l ≡ₚ tasks l /\ StronglySorted (fun a b => task_le a b = true) (ordered l).
Proof.
  intros Hty Hb Hlen. apply Forall_app in Hty as [Hty Hc]. apply Forall_cons in Hc as [Hc _].
  destruct (calls_wf bound cs Hty Hb) as [Hl Hn]; [lia|]. cbv zeta.
  destruct (call_spec (calls cs) c (bound + N.of_nat (length cs)) Hl) as (_ & _ & _ & Hcall);
    [destruct c; simpl in *; lia || done|done|lia|].
  assert (calls (cs ++ [c]) = call (calls cs) c) as -> by (unfold calls; by rewrite foldl_snoc).
  destruct Hl as [Hnd Hlt].
  split_and!; try done.
  - intros id. by apply get_contents.
  - apply sort_by_perm.
  - apply sort_by_sorted; [apply task_le_total|apply task_le_trans].
Qed.

Lemma task_list_refines_map_witness :
  contents (calls [CAdd (lit "a") Todo; CInsert 7 (lit "b") Doing; CRemove 1])
    = delete 1 (contents (calls [CAdd (lit "a") Todo; CInsert 7 (lit "b") Doing])).
Proof.
  refine (proj1 (proj2 (proj2 (proj2 (task_list_refines_map 8
    [CAdd (lit "a") Todo; CInsert 7 (lit "b") Doing] (CRemove 1) _ _ _))))).
  - repeat constructor.
  - vm_compute. discriminate.
  - vm_compute. reflexivity.
Defined.
