(* ===== verification/Instruction.v ===== *)
(** * The instruction queue

    [uniterm-core/src/instruction.rs]: human direction waiting for one agent
    invocation, kept in the order of the events that created it. *)

From S2P Require Import Prelude.

Definition MAX_INSTRUCTION_CHARS : nat := N.to_nat 16384.
Definition MAX_WORKSPACE_INSTRUCTIONS : N := 1024.
Definition MAX_INVOCATION_INSTRUCTIONS : N := 64.

Inductive InstructionAuthor : Set := Cli | Client | ControlApi.

Definition label (a : InstructionAuthor) : str :=
  match a with
  | Cli => lit "cli" | Client => lit "client" | ControlApi => lit "control_api"
  end.

Inductive InstructionPolicy : Set := NextReady.
Inductive InstructionState : Set := Queued.

Record InstructionItem : Set := {
  i_id : N; i_pane : N; i_invocation : Z; i_author : InstructionAuthor;
  i_created_sequence : N; i_policy : InstructionPolicy; i_state : InstructionState;
  i_text : str }.

Inductive InstructionCancellation : Set := Canceled | Replaced | InvocationEnded | PaneClosed.
Inductive InstructionBoundary : Set := CooperativeReady | SendNow.

Record InstructionQueue : Set := {
  items : list InstructionItem; next_id : N; next_delivery_id : N }.

Definition new : InstructionQueue := {| items := []; next_id := 1; next_delivery_id := 1 |}.

Definition with_items (q : InstructionQueue) (l : list InstructionItem) : InstructionQueue :=
  {| items := l; next_id := next_id q; next_delivery_id := next_delivery_id q |}.

Definition with_next (q : InstructionQueue) (n : N) : InstructionQueue :=
  {| items := items q; next_id := n; next_delivery_id := next_delivery_id q |}.

Definition bounded_text (s : str) : str := take MAX_INSTRUCTION_CHARS s.

Definition allocate (q : InstructionQueue) (pane : N) (invocation : Z)
    (author : InstructionAuthor) (created_sequence : N) (text : str)
    : InstructionQueue * InstructionItem :=
  (with_next q (sadd u64_max (next_id q) 1),
   {| i_id := next_id q; i_pane := pane; i_invocation := invocation; i_author := author;
      i_created_sequence := created_sequence; i_policy := NextReady; i_state := Queued;
      i_text := bounded_text text |}).

Definition item_le (a b : InstructionItem) : bool :=
  (i_created_sequence a <? i_created_sequence b)
  || ((i_created_sequence a =? i_created_sequence b) && (i_id a <=? i_id b)).

Definition insert (q : InstructionQueue) (item : InstructionItem) : InstructionQueue :=
  let q1 := with_next q (N.max (next_id q) (sadd u64_max (i_id item) 1)) in
  with_items q1 (sort_by item_le (filter (fun c => i_id c <> i_id item) (items q) ++ [item])).

Definition replace (q : InstructionQueue) (replaced : N) (item : InstructionItem)
    : InstructionQueue * bool :=
  match list_find (fun c => i_id c = replaced) (items q) with
  | None => (q, false)
  | Some (index, _) =>
      (with_items (with_next q (N.max (next_id q) (sadd u64_max (i_id item) 1)))
         (<[index := item]> (items q)), true)
  end.

Definition remove (q : InstructionQueue) (id : N) : InstructionQueue * option InstructionItem :=
  match list_find (fun c => i_id c = id) (items q) with
  | None => (q, None)
  | Some (index, item) => (with_items q (delete index (items q)), Some item)
  end.

(** [retain] with the removed items collected in order. *)
Definition split_off (q : InstructionQueue) (gone : InstructionItem -> bool)
    : InstructionQueue * list InstructionItem :=
  (with_items q (filter (fun i => gone i = false) (items q)),
   filter (fun i => gone i = true) (items q)).

Definition remove_pane (q : InstructionQueue) (pane : N) : InstructionQueue * list InstructionItem :=
  split_off q (fun i => i_pane i =? pane).

Definition remove_other_invocations (q : InstructionQueue) (pane : N) (invocation : option Z)
    : InstructionQueue * list InstructionItem :=
  split_off q (fun i => (i_pane i =? pane) && negb (bool_decide (Some (i_invocation i) = invocation))).

Definition for_invocation (pane : N) (invocation : Z) (i : InstructionItem) : Prop :=
  i_pane i = pane /\ i_invocation i = invocation.

#[global] Instance for_invocation_dec p v i : Decision (for_invocation p v i).
Proof. unfold for_invocation. apply _. Defined.

Definition next_for (q : InstructionQueue) (pane : N) (invocation : Z) : option InstructionItem :=
  snd <$> list_find (for_invocation pane invocation) (items q).

Definition get (q : InstructionQueue) (id : N) : option InstructionItem :=
  snd <$> list_find (fun c => i_id c = id) (items q).

Definition can_enqueue (q : InstructionQueue) (pane : N) (invocation : Z) : bool :=
  (N.of_nat (length (items q)) <? MAX_WORKSPACE_INSTRUCTIONS)
  && (N.of_nat (length (filter (for_invocation pane invocation) (items q)))
      <? MAX_INVOCATION_INSTRUCTIONS).

Definition mint_delivery_id (q : InstructionQueue) : InstructionQueue * N :=
  ({| items := items q; next_id := next_id q;
      next_delivery_id := sadd u64_max (next_delivery_id q) 1 |}, next_delivery_id q).

Definition observe_delivery_id (q : InstructionQueue) (id : N) : InstructionQueue :=
  {| items := items q; next_id := next_id q;
     next_delivery_id := N.max (next_delivery_id q) (sadd u64_max id 1) |}.

(** ** Queue order *)

(** The states the runtime reaches: an inserted item carries the sequence of its
    own event, and a replacement that of the item it replaces. *)
Inductive reach : InstructionQueue -> Prop :=
| R_new : reach new
| R_allocate q p v a s t : reach q -> reach (allocate q p v a s t).1
| R_insert q item :
    reach q ->
    (forall i, i ∈ items q -> i_id i <> i_id item ->
       i_created_sequence i <> i_created_sequence item) ->
    reach (insert q item)
| R_replace q old item :
    reach q ->
    (forall i, i ∈ items q -> i_id i <> i_id item) ->
    (forall i, get q old = Some i -> i_created_sequence item = i_created_sequence i) ->
    reach (replace q old item).1
| R_remove q id : reach q -> reach (remove q id).1
| R_remove_pane q p : reach q -> reach (remove_pane q p).1
| R_remove_other q p v : reach q -> reach (remove_other_invocations q p v).1
| R_mint q : reach q -> reach (mint_delivery_id q).1
| R_observe q id : reach q -> reach (observe_delivery_id q id).

Definition in_order (l : list InstructionItem) : Prop :=
  StronglySorted (fun a b => i_created_sequence a < i_created_sequence b) l.

Definition wf (q : InstructionQueue) : Prop := NoDup (map i_id (items q)) /\ in_order (items q).

Lemma NoDup_map_filter {B} (f : InstructionItem -> B) (P : InstructionItem -> Prop)
    `{forall x, Decision (P x)} l : NoDup (map f l) -> NoDup (map f (filter P l)).
Proof.
  induction l as [|x l IH]; [done|]. simpl. intros [Hx Hl]%NoDup_cons.
  rewrite filter_cons. destruct (decide (P x)); [|auto]. simpl. constructor; [|auto].
  intros Hin. apply Hx. apply list_elem_of_fmap in Hin as (y & -> & Hy).
  apply list_elem_of_filter in Hy as [_ Hy]. by apply list_elem_of_fmap_2.
Qed.

Lemma item_le_total x y : item_le x y = false -> item_le y x = true.
Proof. unfold item_le. bool_lia. Qed.

Lemma item_le_trans x y z : item_le x y = true -> item_le y z = true -> item_le x z = true.
Proof. unfold item_le. bool_lia. Qed.

(** Sorting items with distinct sequences orders them strictly. *)
Lemma sort_in_order l :
  NoDup (map i_created_sequence l) -> in_order (sort_by item_le l).
Proof.
  intros Hnd. pose proof (sort_by_sorted item_le item_le_total item_le_trans l) as Hs.
  rewrite <- (sort_by_perm item_le l) in Hnd. unfold in_order.
  revert Hnd. induction Hs as [|x s Hs IH Hall]; intros Hnd; [constructor|].
  simpl in Hnd. apply NoDup_cons in Hnd as [Hx Hnd]. constructor; [auto|].
  rewrite Forall_forall in Hall |- *. intros y Hy. pose proof (Hall y Hy) as Hle.
  assert (i_created_sequence x <> i_created_sequence y).
  { intros E. apply Hx. rewrite E. by apply list_elem_of_fmap_2. }
  unfold item_le in Hle. revert Hle. bool_lia.
Qed.

Lemma in_order_NoDup l : in_order l -> NoDup (map i_created_sequence l).
Proof.
  induction 1 as [|x l Hs IH Hall]; simpl; constructor; [|done].
  intros (y & E & Hy)%list_elem_of_fmap. rewrite Forall_forall in Hall. apply Hall in Hy. lia.
Qed.

Lemma insert_wf q item :
  wf q -> (forall i, i ∈ items q -> i_id i <> i_id item ->
    i_created_sequence i <> i_created_sequence item) -> wf (insert q item).
Proof.
  intros [Hnd Ho] Hseq. unfold insert. set (l := filter _ (items q)).
  assert (forall y, y ∈ l -> i_id y <> i_id item /\ y ∈ items q) as Hl.
  { intros y. unfold l. by rewrite list_elem_of_filter. }
  split; simpl.
  - rewrite (sort_by_perm item_le), map_app. apply NoDup_app.
    split; [by apply NoDup_map_filter|]. split; [|apply NoDup_singleton].
    intros p (y & -> & Hy)%list_elem_of_fmap E%list_elem_of_singleton. by apply Hl in Hy as [? _].
  - apply sort_in_order. rewrite map_app. apply NoDup_app.
    split; [by apply NoDup_map_filter, in_order_NoDup|]. split; [|apply NoDup_singleton].
    intros p (y & -> & Hy)%list_elem_of_fmap E%list_elem_of_singleton.
    apply Hl in Hy as [? Hy]. by apply (Hseq y Hy).
Qed.

(** Putting an element in the place of another that has the same key. *)
Lemma in_order_replace l1 x y l2 :
  i_created_sequence y = i_created_sequence x ->
  in_order (l1 ++ x :: l2) -> in_order (l1 ++ y :: l2).
Proof.
  intros E. induction l1 as [|z l1 IH]; simpl; intros Hs; inversion Hs as [|? ? Hs' Hall]; subst.
  - constructor; [done|]. eapply Forall_impl; [exact Hall|]. simpl. lia.
  - constructor; [by apply IH|]. apply Forall_app in Hall as [H1 H2].
    apply Forall_cons in H2 as [H2 H3]. apply Forall_app. split; [done|].
    constructor; [by rewrite E|done].
Qed.

Lemma reach_wf q : reach q -> wf q.
Proof.
  induction 1 as [|q p v a s t _ IH|q item _ IH Hseq|q old item _ IH Hid Hseq|q id _ IH|q p _ IH
    |q p v _ IH|q _ IH|q id _ IH]; try exact IH.
  - repeat constructor.
  - by apply insert_wf.
  - unfold replace, get in *. destruct (list_find _ _) as [[i x]|] eqn:E; [|exact IH]. simpl in Hseq.
    specialize (Hseq x eq_refl). apply list_find_Some in E as (Hx & _).
    destruct IH as [Hnd Ho]. pose proof (lookup_lt_Some _ _ _ Hx) as Hlt.
    split; simpl; rewrite (insert_take_drop _ _ _ Hlt); rewrite <- (take_drop_middle _ _ _ Hx) in Hnd, Ho.
    + rewrite map_app in Hnd |- *. simpl in Hnd |- *. rewrite <- Permutation_middle in Hnd |- *.
      apply NoDup_cons in Hnd as [_ Hnd]. constructor; [|done].
      rewrite elem_of_app. intros [(y & Hy1 & Hy)%list_elem_of_fmap|(y & Hy1 & Hy)%list_elem_of_fmap].
      * apply (Hid y); [|done]. apply elem_of_take in Hy as (j & Hj & _).
        by eapply list_elem_of_lookup_2.
      * apply (Hid y); [|done]. apply list_elem_of_lookup in Hy as (j & Hj).
        rewrite lookup_drop in Hj. by eapply list_elem_of_lookup_2.
    + by eapply in_order_replace.
  - unfold remove. destruct (list_find _ _) as [[i x]|] eqn:E; [|exact IH].
    apply list_find_Some in E as (Hx & _). destruct IH as [Hnd Ho].
    rewrite <- (take_drop_middle _ _ _ Hx) in Hnd, Ho. split; simpl; rewrite delete_take_drop.
    + rewrite map_app in Hnd |- *. simpl in Hnd. rewrite <- Permutation_middle in Hnd.
      by apply NoDup_cons in Hnd as [_ ?].
    + clear -Ho. induction (take i (items q)) as [|z l IH]; simpl in *;
        inversion Ho as [|? ? Hs Hall]; subst; [done|].
      constructor; [by apply IH|]. apply Forall_app in Hall as [H1 H2].
      apply Forall_cons in H2 as [_ H2]. by apply Forall_app.
  - destruct IH as [Hnd Ho]. split; [by apply NoDup_map_filter|by apply StronglySorted_filter].
  - destruct IH as [Hnd Ho]. split; [by apply NoDup_map_filter|by apply StronglySorted_filter].
Qed.

(** The queue is in the order of the events that created its items, without
    a repeated identity; so the next instruction for an invocation is its
    oldest one, there is one exactly when the invocation has any, and a
    replacement takes the turn of the item it replaces. *)
Theorem next_instruction_oldest q pane inv :
  reach q ->
  NoDup (map i_id (items q)) /\ in_order (items q)
  /\ match next_for q pane inv with
     | Some i => i ∈ items q /\ for_invocation pane inv i
         /\ forall j, j ∈ items q -> for_invocation pane inv j -> j <> i ->
              i_created_sequence i < i_created_sequence j
     | None => forall j, j ∈ items q -> ~ for_invocation pane inv j
     end.
Proof.
  intros Hq. destruct (reach_wf q Hq) as [Hnd Ho]. split; [done|]. split; [done|].
  unfold next_for. destruct (list_find _ _) as [[i x]|] eqn:E; simpl.
  - apply list_find_Some in E as (Hx & Hf & Hmin).
    split; [by eapply list_elem_of_lookup_2|]. split; [done|]. intros y Hy Hfy Hne.
    apply list_elem_of_lookup in Hy as (j & Hj).
    assert (i < j)%nat as Hlt.
    { destruct (lt_eq_lt_dec i j) as [[?|<-]|Hji]; [done| |]; [congruence|].
      by destruct (Hmin j y Hj Hji). }
    exact (StronglySorted_at _ _ _ _ _ _ Ho Hx Hj Hlt).
  - apply list_find_None in E. by apply Forall_forall.
Qed.

Definition demo_item (id seq : N) : InstructionItem := {|
  i_id := id; i_pane := 4; i_invocation := 77; i_author := Cli; i_created_sequence := seq;
  i_policy := NextReady; i_state := Queued; i_text := lit "go" |}.

Lemma next_instruction_oldest_witness :
  in_order (items (insert (insert new (demo_item 1 9)) (demo_item 2 5))).
Proof.
  refine (proj1 (proj2 (next_instruction_oldest _ 4 77 _))).
  apply R_insert; [apply R_insert; [apply R_new|]|].
  - intros i Hi. by apply elem_of_nil in Hi.
  - intros i Hi _. vm_compute in Hi. apply list_elem_of_singleton in Hi as ->. vm_compute. discriminate.
Defined.
