(* ===== verification/Events.v ===== *)
(** * Durable events

    The data of [uniterm-server/src/eventlog.rs], [history.rs] and
    [uniterm-proto/src/checkpoint.rs]: what a Workspace writes to its event log,
    the structural projections and snapshots that recovery rebuilds, and the
    checkpoint that stands for a compacted prefix. [LogEvent] has the source's
    constructors; equality on it is [PartialEq], derived (the ratios of layouts
    are never a NaN nor a zero, [Layout.reachable_banded]). *)

From Stdlib Require Import Floats.SpecFloat.
From S2P Require Import Prelude Layout Arrange Cell Agent AgentDetail Waiting Tasks Instruction Artifact RunGraph Guardrail Orchestrate.

(** ** Contexts and requests *)

Record TimelineContext : Set := {
  tc_project : option N; tc_project_name : str; tc_root : str; tc_branch : str; tc_tab : str;
  tc_pane : option N }.

Inductive OrchestrationKind : Set := OWorkflow | ORelay.
Inductive SubmissionStatus : Set := SDone | SNeedsInput | SFailed.

(** ** Structure *)

(** [StructuralAgentLaunch] and the snapshot's [AgentLaunchSnap]. *)
Record AgentLaunch : Set := {
  l_provider : str; l_session_id : option str; l_resume_command : list str }.

Record StructuralPane : Set := {
  sp_id : N; sp_cwd : option str; sp_metadata : list (str * str); sp_launch_args : list str;
  sp_agent_launch : option AgentLaunch }.

Record StructuralWindow : Set := {
  sw_stack_expanded : bool; sw_stack_parent : option N; sw_layout_mode : PaneLayout;
  sw_project : N; sw_layout : LayoutNode; sw_active : N; sw_zoomed : option N;
  sw_name : option str; sw_panes : list StructuralPane }.

(** [StructuralProject] and the snapshot's [ProjectSnap]. *)
Record StructuralProject : Set := {
  sj_id : N; sj_name : str; sj_root : str; sj_active_pane : option N;
  sj_metadata : list (str * str) }.

Record StructuralProjection : Set := {
  sr_active_window : N; sr_next_pane_id : N; sr_active_project : N; sr_next_project_id : N;
  sr_projects : list StructuralProject; sr_windows : list StructuralWindow }.

(** ** Snapshots *)

Record PaneSnap : Set := {
  ps_id : N; ps_cwd : option str; ps_content : list StoredLine; ps_metadata : list (str * str);
  ps_launch_args : list str; ps_agent_launch : option AgentLaunch }.

Record WinSnap : Set := {
  ws_stack_expanded : bool; ws_stack_parent : option N; ws_layout_mode : PaneLayout;
  ws_project : N; ws_layout : LayoutNode; ws_active : N; ws_zoomed : option N;
  ws_name : option str; ws_panes : list PaneSnap }.

Definition SNAPSHOT_VERSION : N := 14.

Record Snapshot : Set := {
  sn_version : N; sn_event_sequence : N; sn_run_graph_sequence : N; sn_run_graph : RunGraph;
  sn_artifact_sequence : N; sn_artifacts : ArtifactLedger;
  sn_active_window : N; sn_next_pane_id : N; sn_active_project : N; sn_next_project_id : N;
  sn_projects : list StructuralProject; sn_windows : list WinSnap }.

Definition new_with_sequence (active_window next_pane_id active_project next_project_id : N)
    (projects : list StructuralProject) (windows : list WinSnap) (event_sequence : N) : Snapshot := {|
  sn_version := SNAPSHOT_VERSION; sn_event_sequence := event_sequence;
  sn_run_graph_sequence := 0; sn_run_graph := RunGraph.new;
  sn_artifact_sequence := 0; sn_artifacts := Artifact.new;
  sn_active_window := active_window; sn_next_pane_id := next_pane_id;
  sn_active_project := active_project; sn_next_project_id := next_project_id;
  sn_projects := projects; sn_windows := windows |}.

Definition strip_pane (p : PaneSnap) : StructuralPane := {|
  sp_id := ps_id p; sp_cwd := ps_cwd p; sp_metadata := ps_metadata p;
  sp_launch_args := ps_launch_args p; sp_agent_launch := ps_agent_launch p |}.

Definition strip_window (w : WinSnap) : StructuralWindow := {|
  sw_stack_expanded := ws_stack_expanded w; sw_stack_parent := ws_stack_parent w;
  sw_layout_mode := ws_layout_mode w; sw_project := ws_project w; sw_layout := ws_layout w;
  sw_active := ws_active w; sw_zoomed := ws_zoomed w; sw_name := ws_name w;
  sw_panes := map strip_pane (ws_panes w) |}.

Definition from_snapshot (s : Snapshot) : StructuralProjection := {|
  sr_active_window := sn_active_window s; sr_next_pane_id := sn_next_pane_id s;
  sr_active_project := sn_active_project s; sr_next_project_id := sn_next_project_id s;
  sr_projects := sn_projects s; sr_windows := map strip_window (sn_windows s) |}.

(** The terminal content of the previous snapshot's Panes; of two Panes with one
    identity the later wins. *)
Definition contents (previous : Snapshot) : gmap N (list StoredLine) :=
  foldl (fun m p => <[ps_id p := ps_content p]> m) ∅ (concat (map ws_panes (sn_windows previous))).

(** [content.remove(&pane.id).unwrap_or_default()] *)
Definition fill_pane (content : gmap N (list StoredLine)) (p : StructuralPane)
    : gmap N (list StoredLine) * PaneSnap :=
  (base.delete (sp_id p) content,
   {| ps_id := sp_id p; ps_cwd := sp_cwd p; ps_content := default [] (content !! sp_id p);
      ps_metadata := sp_metadata p; ps_launch_args := sp_launch_args p;
      ps_agent_launch := sp_agent_launch p |}).

(** [map] with a state, in order. *)
Fixpoint map_with {S A B} (f : S -> A -> S * B) (s : S) (l : list A) : S * list B :=
  match l with
  | [] => (s, [])
  | x :: l => let '(s1, y) := f s x in let '(s2, ys) := map_with f s1 l in (s2, y :: ys)
  end.

Definition fill_window (content : gmap N (list StoredLine)) (w : StructuralWindow)
    : gmap N (list StoredLine) * WinSnap :=
  let '(content, panes) := map_with fill_pane content (sw_panes w) in
  (content,
   {| ws_stack_expanded := sw_stack_expanded w; ws_stack_parent := sw_stack_parent w;
      ws_layout_mode := sw_layout_mode w; ws_project := sw_project w; ws_layout := sw_layout w;
      ws_active := sw_active w; ws_zoomed := sw_zoomed w; ws_name := sw_name w; ws_panes := panes |}).

Definition into_snapshot (s : StructuralProjection) (previous : option Snapshot) (event_sequence : N)
    : Snapshot :=
  let content := match previous with Some p => contents p | None => ∅ end in
  let fresh := new_with_sequence (sr_active_window s) (sr_next_pane_id s) (sr_active_project s)
    (sr_next_project_id s) (sr_projects s) (map_with fill_window content (sr_windows s)).2 event_sequence in
  {| sn_version := sn_version fresh; sn_event_sequence := sn_event_sequence fresh;
     sn_run_graph_sequence := match previous with Some p => sn_run_graph_sequence p | None => 0 end;
     sn_run_graph := match previous with Some p => sn_run_graph p | None => RunGraph.new end;
     sn_artifact_sequence := sn_artifact_sequence fresh; sn_artifacts := sn_artifacts fresh;
     sn_active_window := sn_active_window fresh; sn_next_pane_id := sn_next_pane_id fresh;
     sn_active_project := sn_active_project fresh; sn_next_project_id := sn_next_project_id fresh;
     sn_projects := sn_projects fresh; sn_windows := sn_windows fresh |}.

(** ** Restartable orchestrations *)

Record DurableRoleProvider : Set := { rp_provider : str; rp_command : str }.

Record DurableGuardrail : Set := {
  dg_started_at_ms : N; dg_limits : GuardLimits; dg_elapsed_triggered : bool }.

Record DurableOrchestration : Set := {
  do_kind : OrchestrationKind; do_task_id : N; do_template : option str; do_goal : str;
  do_role_providers : list DurableRoleProvider; do_agent_id : str; do_agent_cmd : str;
  do_role_panes : list N; do_started : list bool; do_state : Orchestrate.State;
  do_checkpoints : list (N * str); do_guardrail : DurableGuardrail }.

(** ** The checkpoint of a compacted prefix *)

Record Archive : Set := { ar_file : str; ar_sha256 : str }.

Record RecoveryCheckpoint : Set := {
  rc_version : N; rc_through : N; rc_archive : Archive; rc_structure : option StructuralProjection;
  rc_tasks : TaskList; rc_waiting : WaitingQueue; rc_instructions : InstructionQueue;
  rc_run_graph : RunGraph; rc_artifacts : ArtifactLedger; rc_runs : list DurableOrchestration;
  rc_invocations : gmap N N }.

(** ** Events *)

Module Log.

Inductive LogEvent : Set :=
| RecoveryCheckpoint (state : RecoveryCheckpoint)
| TimelineNote (context : TimelineContext) (text : str)
| TimelinePrompt (context : TimelineContext) (text : str)
| TimelineResumed (predecessor pane : N)
| TimelineBoundary (reason : str)
| WorkspaceProjected (state : StructuralProjection)
| TabConfigured (pane : N) (stack_expanded : bool) (layout_mode : PaneLayout) (stack_parent : option N)
| WorkspaceRenamed (old new : str)
| ProjectCreated (project : N) (name root : str)
| ProjectDirectoryChanged (project : N) (root : str)
| ProjectRenamed (project : N) (name : str)
| ProjectReordered (projects : list N)
| ProjectRemoved (project : N)
| ProjectSelected (project : N)
| ProjectMetadataSet (project : N) (key value : str)
| WorktreeCreateRequested (project : N) (name repository branch path : str) (base : option str)
| WorktreeCreateResult (project : N) (repository branch path head : str) (accepted : bool)
    (error : option str)
| WorktreeRemoveRequested (project : N) (repository branch path : str) (forced : bool)
| WorktreeRemoved (project : N) (repository branch path : str) (forced : bool)
| WorktreeCleanupRequested (project : N) (repository branch path : str)
| WorktreeCleaned (project : N) (repository branch path : str)
| PaneMetadataSet (pane : N) (key value : str)
| PaneSpawned (pane : N)
| PaneClosed (pane : N)
| WindowNew
| WindowRenamed (window : N) (name : str)
| TabMoved (project from to : N)
| AgentResumed (pane : N) (provider : str) (session_id : option str) (resume_command : list str)
    (previous_invocation : option N) (invocation : option Z) (predecessor : option N)
    (structure : option StructuralProjection)
| AgentBound (pane : N) (agent : str) (invocation : option Z)
| AgentStatus (pane : N) (status : Agent.AgentStatus)
| AgentUnbound (pane : N)
| TaskLaunched (relay : bool)
| TaskCreated (id : N) (title : str) (status : TaskStatus)
| TaskStatusChanged (id : N) (status : TaskStatus)
| TaskRetitled (id : N) (title : str)
| TaskDetailsUpdated (id : N) (notes : str) (context : TaskContext)
| TaskDeleted (id : N)
| AutoApprovalChanged (enabled : bool)
| PermissionApprovalAttempt (pane invocation : N) (automatic : bool)
| PermissionApprovalDelivery (pane invocation : N) (accepted : bool)
| WaitingCreated (item : WaitingItem)
| WaitingResolved (id : N) (resolution : WaitingResolution)
| WaitingUpdated (id : N) (summary : str)
| InstructionQueued (item : InstructionItem)
| InstructionReplaced (replaced : N) (item : InstructionItem)
| InstructionCanceled (id : N) (reason : InstructionCancellation)
| InstructionDelivery (id delivery_id : N) (boundary : InstructionBoundary) (accepted : bool)
| RunGraph (change : RunGraphEvent)
| ArtifactLedger (change : ArtifactEvent)
| GuardrailDecision (record : GuardrailRecord)
| OrchestrationSubmitted (kind : OrchestrationKind) (task_id token : N) (status : SubmissionStatus)
    (verdict : option str) (summary : str) (artifacts : list str)
| OrchestrationActivated (kind : OrchestrationKind) (task_id : N) (role : nat) (pane token : N)
| OrchestrationDelivery (kind : OrchestrationKind) (task_id token : N) (accepted : bool)
| OrchestrationArtifactsValidated (kind : OrchestrationKind) (task_id token : N) (artifacts : list str)
| RelayCheckpointCreated (task_id token : N) (checkpoint error : option str)
| RelayCheckpointRolledBack (task_id : N) (checkpoint : str)
| OrchestrationProjected (run : DurableOrchestration)
| OrchestrationFinished (kind : OrchestrationKind) (task_id : N) (outcome : str)
| PaneLaunchProfile (pane : N) (args : list str)
| AgentSessionObserved (pane : N) (provider : str) (session_id : option str)
    (resume_command : list str) (transcript_path : option str)
| AgentDelegated (pane invocation parent_invocation : N) (context : TimelineContext)
| AgentSessionLinked (pane : N) (provider session_id parent_session_id : str)
| PaneLaunchProfileCleared (pane : N)
| AgentDetail (pane : N) (invocation : option Z) (detail : AgentDetail.AgentDetail).
End Log.

Abbreviation LogEvent := Log.LogEvent (only parsing).

Record EventEnvelope : Set := {
  ev_version : N; ev_sequence : N; ev_timestamp_ms : N; ev_workspace : str; ev_event : LogEvent }.

(** ** Decidable equality, for [PartialEq] *)

#[export] Instance TimelineContext_eq_dec : EqDecision TimelineContext.
Proof. solve_decision. Defined.
#[export] Instance OrchestrationKind_eq_dec : EqDecision OrchestrationKind.
Proof. solve_decision. Defined.
#[export] Instance SubmissionStatus_eq_dec : EqDecision SubmissionStatus.
Proof. solve_decision. Defined.
#[export] Instance spec_float_eq_dec : EqDecision spec_float.
Proof. solve_decision. Defined.
#[export] Instance LayoutNode_eq_dec : EqDecision LayoutNode.
Proof. solve_decision. Defined.
#[export] Instance AgentLaunch_eq_dec : EqDecision AgentLaunch.
Proof. solve_decision. Defined.
#[export] Instance StructuralPane_eq_dec : EqDecision StructuralPane.
Proof. solve_decision. Defined.
#[export] Instance StructuralWindow_eq_dec : EqDecision StructuralWindow.
Proof. solve_decision. Defined.
#[export] Instance StructuralProject_eq_dec : EqDecision StructuralProject.
Proof. solve_decision. Defined.
#[export] Instance StructuralProjection_eq_dec : EqDecision StructuralProjection.
Proof. solve_decision. Defined.
#[export] Instance ProviderRequirement_eq_dec : EqDecision ProviderRequirement.
Proof. solve_decision. Defined.
#[export] Instance Role_eq_dec : EqDecision Role.
Proof. solve_decision. Defined.
#[export] Instance RoleProviderSelection_eq_dec : EqDecision RoleProviderSelection.
Proof. solve_decision. Defined.
#[export] Instance State_eq_dec : EqDecision Orchestrate.State.
Proof. solve_decision. Defined.
#[export] Instance GuardLimits_eq_dec : EqDecision GuardLimits.
Proof. solve_decision. Defined.
#[export] Instance DurableRoleProvider_eq_dec : EqDecision DurableRoleProvider.
Proof. solve_decision. Defined.
#[export] Instance DurableGuardrail_eq_dec : EqDecision DurableGuardrail.
Proof. solve_decision. Defined.
#[export] Instance DurableOrchestration_eq_dec : EqDecision DurableOrchestration.
Proof. solve_decision. Defined.
#[export] Instance Archive_eq_dec : EqDecision Archive.
Proof. solve_decision. Defined.
#[export] Instance TaskContext_eq_dec : EqDecision TaskContext.
Proof. solve_decision. Defined.
#[export] Instance Task_eq_dec : EqDecision Task.
Proof. solve_decision. Defined.
#[export] Instance TaskList_eq_dec : EqDecision TaskList.
Proof. solve_decision. Defined.
#[export] Instance WaitingItem_eq_dec : EqDecision WaitingItem.
Proof. solve_decision. Defined.
#[export] Instance WaitingResolution_eq_dec : EqDecision WaitingResolution.
Proof. solve_decision. Defined.
#[export] Instance WaitingQueue_eq_dec : EqDecision WaitingQueue.
Proof. solve_decision. Defined.
#[export] Instance InstructionAuthor_eq_dec : EqDecision InstructionAuthor.
Proof. solve_decision. Defined.
#[export] Instance InstructionPolicy_eq_dec : EqDecision InstructionPolicy.
Proof. solve_decision. Defined.
#[export] Instance InstructionState_eq_dec : EqDecision InstructionState.
Proof. solve_decision. Defined.
#[export] Instance InstructionItem_eq_dec : EqDecision InstructionItem.
Proof. solve_decision. Defined.
#[export] Instance InstructionCancellation_eq_dec : EqDecision InstructionCancellation.
Proof. solve_decision. Defined.
#[export] Instance InstructionBoundary_eq_dec : EqDecision InstructionBoundary.
Proof. solve_decision. Defined.
#[export] Instance InstructionQueue_eq_dec : EqDecision InstructionQueue.
Proof. solve_decision. Defined.
#[export] Instance RunKind_eq_dec : EqDecision RunKind.
Proof. solve_decision. Defined.
#[export] Instance RunActivation_eq_dec : EqDecision RunActivation.
Proof. solve_decision. Defined.
#[export] Instance RunRecord_eq_dec : EqDecision RunRecord.
Proof. solve_decision. Defined.
#[export] Instance RoleRecord_eq_dec : EqDecision RoleRecord.
Proof. solve_decision. Defined.
#[export] Instance RunGraphEvent_eq_dec : EqDecision RunGraphEvent.
Proof. solve_decision. Defined.
#[export] Instance RunGraph_eq_dec : EqDecision RunGraph.RunGraph.
Proof. solve_decision. Defined.
#[export] Instance ArtifactKind_eq_dec : EqDecision ArtifactKind.
Proof. solve_decision. Defined.
#[export] Instance ArtifactRecord_eq_dec : EqDecision ArtifactRecord.
Proof. solve_decision. Defined.
#[export] Instance ArtifactEvent_eq_dec : EqDecision ArtifactEvent.
Proof. solve_decision. Defined.
#[export] Instance ArtifactLedger_eq_dec : EqDecision Artifact.ArtifactLedger.
Proof. solve_decision. Defined.
#[export] Instance RecoveryCheckpoint_eq_dec : EqDecision RecoveryCheckpoint.
Proof. solve_decision. Defined.
#[export] Instance GuardedCommand_eq_dec : EqDecision GuardedCommand.
Proof. solve_decision. Defined.
#[export] Instance GuardAction_eq_dec : EqDecision GuardAction.
Proof. solve_decision. Defined.
#[export] Instance GuardDecision_eq_dec : EqDecision GuardDecision.
Proof. solve_decision. Defined.
#[export] Instance GuardrailRecord_eq_dec : EqDecision GuardrailRecord.
Proof. solve_decision. Defined.
#[export] Instance AgentDetail_eq_dec : EqDecision AgentDetail.AgentDetail.
Proof. solve_decision. Defined.
#[export] Instance LogEvent_eq_dec : EqDecision LogEvent.
Proof. solve_decision. Defined.
#[export] Instance EventEnvelope_eq_dec : EqDecision EventEnvelope.
Proof. solve_decision. Defined.
