(* ===== verification/EventLog.v ===== *)
(** * The event log

    [uniterm-server/src/eventlog.rs]: the writer ([EventLog]), decoding a line,
    the consistent prefix that startup repair keeps, streaming the records to a
    projection, and streaming envelopes to a subscriber. A file is its bytes;
    the JSON serializer is a parameter. An error discards the state of the pass
    that met it, as its callers do. *)

From S2P Require Import Prelude Utf8 Lines Privacy Events.

(** [serde_json] on the types of the log. *)
Class LogJson : Type := {
  to_json : EventEnvelope -> option str;
  envelope_from_json : str -> option EventEnvelope;
  version_from_json : str -> option N;
  event_from_json : str -> option LogEvent }.

Inductive io_error : Set :=
| Unsupported (what : str)
| InvalidData (what : str)
| InvalidInput (what : str)
| UnexpectedEof (what : str)
| NotFound
| OtherError (what : str).

Definition EVENT_VERSION : N := 10.
Definition CHECKPOINT_VERSION : N := 1.

Definition future_schema_error (version : N) : io_error :=
  Unsupported (lit "unsupported event version " ++ dec version).

Definition is_future_schema_error (e : io_error) : bool :=
  match e with Unsupported _ => true | _ => false end.

(** ** Checkpoints *)

Definition is_ascii_alphanumeric (b : N) : bool :=
  ((48 <=? b) && (b <=? 57)) || ((65 <=? b) && (b <=? 90)) || ((97 <=? b) && (b <=? 122)).

Definition is_ascii_hexdigit (b : N) : bool :=
  ((48 <=? b) && (b <=? 57)) || ((65 <=? b) && (b <=? 70)) || ((97 <=? b) && (b <=? 102)).

Definition ends_with (p s : str) : bool := starts_with (rev p) (rev s).

(** [RecoveryCheckpoint::validate] *)
Definition validate (c : RecoveryCheckpoint) (sequence : option N) : result unit io_error :=
  if CHECKPOINT_VERSION <? rc_version c then
    Err (Unsupported (lit "unsupported recovery checkpoint version"))
  else if negb (rc_version c =? CHECKPOINT_VERSION) || (rc_through c =? 0)
    || negb (bool_decide (sequence = Some (rc_through c)))
    || negb (starts_with (lit "events-") (ar_file (rc_archive c)))
    || negb (ends_with (lit ".log") (ar_file (rc_archive c)))
    || negb (forallb (fun b => is_ascii_alphanumeric b || (b =? 45) || (b =? 46)) (utf8 (ar_file (rc_archive c))))
    || negb (len8 (ar_sha256 (rc_archive c)) =? 64)
    || negb (forallb is_ascii_hexdigit (utf8 (ar_sha256 (rc_archive c)))) then
    Err (InvalidData (lit "invalid recovery checkpoint or archive link"))
  else Ok tt.

(** ** Decoding *)

Record DecodedRecord : Set := {
  r_sequence : option N; r_workspace : option str; r_event : LogEvent }.

Inductive RecordDecodeError : Set := FutureVersion (version : N) | Malformed.

Definition known_version (v : N) : bool := (1 <=? v) && (v <=? EVENT_VERSION).

Section Log.
Context {A : Aead} {SJ : SealedJson} {LJ : LogJson}.

Definition decode_record_strict (line : str) : result DecodedRecord RecordDecodeError :=
  match decode_line line with
  | None => Err Malformed
  | Some line =>
      match envelope_from_json line with
      | Some e =>
          if known_version (ev_version e) then
            Ok {| r_sequence := Some (ev_sequence e); r_workspace := Some (ev_workspace e); r_event := ev_event e |}
          else Err (FutureVersion (ev_version e))
      | None =>
          match version_from_json line with
          | Some version => Err (FutureVersion (N.min version u32_max))
          | None =>
              match event_from_json line with
              | Some e => Ok {| r_sequence := None; r_workspace := None; r_event := e |}
              | None => Err Malformed
              end
          end
      end
  end.

Definition decode_record (line : str) : option DecodedRecord :=
  match decode_record_strict line with Ok r => Some r | Err _ => None end.

(** ** Writing *)

Record EventLog : Set := { el_name : str; el_last : option LogEvent; el_next_sequence : N }.

(** The numbering loop of [next_sequence]; it ends at a line that is not text. *)
Fixpoint next_loop (ls : list (list N)) (synthetic highest : N) : N :=
  match ls with
  | [] => highest
  | l :: ls =>
      match from_utf8 l with
      | None => highest
      | Some line =>
          match decode_record line with
          | None => next_loop ls synthetic highest
          | Some r =>
              let synthetic := sadd u64_max synthetic 1 in
              next_loop ls synthetic (N.max highest (default synthetic (r_sequence r)))
          end
      end
  end.

Definition next_sequence (file : option (list N)) : N :=
  match file with
  | None => 1
  | Some bs => N.max (sadd u64_max (next_loop (lines bs) 0 0) 1) 1
  end.

(** [EventLog::open] *)
Definition open_log (name : str) (file : option (list N)) : EventLog :=
  {| el_name := name; el_last := None; el_next_sequence := next_sequence file |}.

Definition repeatable (e : LogEvent) : bool :=
  match e with Log.TimelineNote _ _ | Log.TimelinePrompt _ _ => true | _ => false end.

(** The envelope [EventLog::record] writes at time [now]. *)
Definition envelope (l : EventLog) (now : N) (e : LogEvent) : EventEnvelope := {|
  ev_version := EVENT_VERSION; ev_sequence := el_next_sequence l; ev_timestamp_ms := now;
  ev_workspace := el_name l; ev_event := e |}.

Definition record_event (l : EventLog) (now : N) (e : LogEvent) : EventLog * option (str * str) :=
  if bool_decide (el_last l = Some e) && negb (repeatable e) then (l, None)
  else match to_json (envelope l now e) with
  | None => (l, None)
  | Some line =>
      ({| el_name := el_name l; el_last := Some e; el_next_sequence := sadd u64_max (el_next_sequence l) 1 |},
       Some (el_name l, line ++ [10]))
  end.

Definition current_sequence (l : EventLog) : N := el_next_sequence l - 1.

Definition rename_projection (l : EventLog) (new : str) : EventLog :=
  {| el_name := new; el_last := el_last l; el_next_sequence := el_next_sequence l |}.

(** [append_line]: the file after one prepared record. *)
Definition append_line (protected : bool) (nonce : list N) (file : option (list N)) (line : str)
    : option (list N) :=
  (fun s => default [] file ++ utf8 s) <$> encode_line protected nonce line.

(** ** Ownership *)

(** The checks of one record shared by both scans: a checkpoint heads the
    stream, every record has its owner's name, and only a rename changes it. *)
Definition check_record (owner : option str) (r : DecodedRecord) : result (option str) io_error :=
  match
    match r_event r with
    | Log.RecoveryCheckpoint state =>
        match validate state (r_sequence r) with
        | Err e => Some e
        | Ok _ => match owner with
            | Some _ => Some (InvalidData (lit "recovery checkpoint must be the first stream record"))
            | None => None
            end
        end
    | _ => None
    end
  with
  | Some e => Err e
  | None =>
      let current := match r_workspace r with
        | Some actual => Some (default actual owner)
        | None => owner
        end in
      if match r_workspace r with Some actual => negb (bool_decide (current = Some actual)) | None => false end then
        Err (InvalidData (lit "event Workspace changed without an authoritative rename from "
               ++ default [] current ++ lit " to " ++ default [] (r_workspace r)))
      else match r_event r with
      | Log.WorkspaceRenamed old new =>
          if bool_decide (r_workspace r = Some old) && bool_decide (current = Some old) && negb (bool_decide (old = new))
          then Ok (Some new)
          else Err (InvalidData (lit "invalid Workspace rename ownership event"))
      | _ => Ok current
      end
  end.

Definition foreign (actual expected : str) : io_error :=
  InvalidData (lit "event belongs to Workspace " ++ actual ++ lit ", expected " ++ expected).

(** ** Repair *)

Fixpoint prefix_loop (cs : list (list N)) (offset : nat) (previous synthetic : N) (owner : option str)
    : result (nat * option str) io_error :=
  match cs with
  | [] => Ok (offset, owner)
  | c :: cs =>
      if negb (terminated c) then Ok (offset, owner)
      else match from_utf8 (body c) with
      | None => Ok (offset, owner)
      | Some line =>
          match decode_record_strict line with
          | Err Malformed => Ok (offset, owner)
          | Err (FutureVersion v) => Err (future_schema_error v)
          | Ok r =>
              let synthetic := sadd u64_max synthetic 1 in
              let sequence := default synthetic (r_sequence r) in
              if negb (previous =? 0) && negb (sequence =? sadd u64_max previous 1) then Ok (offset, owner)
              else match check_record owner r with
              | Err e => Err e
              | Ok owner => prefix_loop cs (offset + length c) sequence synthetic owner
              end
          end
      end
  end.

Definition consistent_prefix_len (bs : list N) (expected : str) : result nat io_error :=
  match prefix_loop (chunks bs) 0 0 0 None with
  | Err e => Err e
  | Ok (offset, Some actual) => if bool_decide (actual = expected) then Ok offset else Err (foreign actual expected)
  | Ok (offset, None) => Ok offset
  end.

Record RepairReport : Set := { backup : list N; discarded_bytes : nat }.

(** [repair_consistent_prefix_path]: the file it leaves and its report. *)
Definition repair (file : option (list N)) (expected : str)
    : result (option (list N) * option RepairReport) io_error :=
  match file with
  | None => Ok (None, None)
  | Some bs =>
      match consistent_prefix_len bs expected with
      | Err e => Err e
      | Ok keep =>
          if (keep =? length bs)%nat then Ok (file, None)
          else Ok (Some (take keep bs), Some {| backup := bs; discarded_bytes := length bs - keep |})
      end
  end.

(** ** Streaming to a projection *)

Section ForEach.
Context {S : Type} (apply : DecodedRecord -> S -> S).

Fixpoint for_each_loop (ls : list (list N)) (owner : option str) (s : S) : result (S * option str) io_error :=
  match ls with
  | [] => Ok (s, owner)
  | l :: ls =>
      match from_utf8 l with
      | None => Err (InvalidData (lit "stream did not contain valid UTF-8"))
      | Some line =>
          match decode_record_strict line with
          | Err Malformed =>
              match ls with
              | [] => Ok (s, owner)
              | _ => Err (InvalidData (lit "malformed event-log record before end of stream"))
              end
          | Err (FutureVersion v) => Err (future_schema_error v)
          | Ok r =>
              match check_record owner r with
              | Err e => Err e
              | Ok owner => for_each_loop ls owner (apply r s)
              end
          end
      end
  end.

Definition for_each_record (bs : list N) (workspace : option str) (s : S) : result S io_error :=
  match for_each_loop (lines bs) None s with
  | Err e => Err e
  | Ok (s, owner) =>
      match workspace, owner with
      | Some expected, Some actual =>
          if bool_decide (actual = expected) then Ok s else Err (foreign actual expected)
      | _, _ => Ok s
      end
  end.
End ForEach.

Definition validate_owner (bs : list N) (workspace : str) : result unit io_error :=
  for_each_record (fun _ s => s) bs (Some workspace) tt.

(** ** Streaming to a subscriber *)

Section Visit.
Context {S : Type} (visit : EventEnvelope -> S -> result S io_error).

(** The envelope of a line; a legacy line gets the next number. *)
Definition visit_decode (name line : str) (synthetic : N) : result EventEnvelope io_error :=
  match decode_line line with
  | None => Err (OtherError (lit "invalid encrypted record"))
  | Some line =>
      match envelope_from_json line with
      | Some e => if known_version (ev_version e) then Ok e else Err (future_schema_error (ev_version e))
      | None =>
          match event_from_json line with
          | Some e => Ok {| ev_version := EVENT_VERSION; ev_sequence := synthetic; ev_timestamp_ms := 0;
                            ev_workspace := name; ev_event := e |}
          | None => Err (InvalidData (lit "invalid event"))
          end
      end
  end.

Definition visit_owner (owner : option str) (e : EventEnvelope) : result str io_error :=
  let current := default (ev_workspace e) owner in
  if negb (bool_decide (current = ev_workspace e)) then
    Err (InvalidData (lit "foreign Workspace event in subscription stream"))
  else match ev_event e with
  | Log.WorkspaceRenamed old new =>
      if negb (bool_decide (old = current)) || bool_decide (old = new) then
        Err (InvalidData (lit "invalid Workspace rename in subscription stream"))
      else Ok new
  | _ => Ok current
  end.

Fixpoint visit_loop (name : str) (sequence : N) (through : option N) (ls : list (list N))
    (previous synthetic : N) (owner : option str) (s : S) : result (S * N * option str) io_error :=
  match ls with
  | [] => Ok (s, previous, owner)
  | l :: ls =>
      match from_utf8 l with
      | None => Err (InvalidData (lit "stream did not contain valid UTF-8"))
      | Some line =>
          let synthetic := sadd u64_max synthetic 1 in
          match visit_decode name line synthetic with
          | Err e => Err e
          | Ok e =>
              match visit_owner owner e with
              | Err e => Err e
              | Ok owner =>
                  if negb (previous =? 0) && negb (ev_sequence e =? sadd u64_max previous 1) then
                    Err (InvalidData (lit "event sequence gap in subscription stream"))
                  else if match through with Some cursor => cursor <? ev_sequence e | None => false end then
                    Ok (s, ev_sequence e, Some owner)
                  else if sequence <? ev_sequence e then
                    match visit e s with
                    | Err e => Err e
                    | Ok s => visit_loop name sequence through ls (ev_sequence e) synthetic (Some owner) s
                    end
                  else visit_loop name sequence through ls (ev_sequence e) synthetic (Some owner) s
              end
          end
      end
  end.

(** [visit_range] on what the history reader yields: the cursor before the
    first line, and the lines. *)
Definition visit_lines (name : str) (sequence : N) (through : option N) (origin : N) (bs : list N) (s : S)
    : result S io_error :=
  match visit_loop name sequence through (lines bs) origin origin None s with
  | Err e => Err e
  | Ok (s, previous, owner) =>
      if bool_decide (through = None) && match owner with Some o => negb (bool_decide (o = name)) | None => false end then
        Err (InvalidData (lit "event stream belongs to another Workspace"))
      else if match through with Some cursor => previous <? cursor | None => false end then
        Err (UnexpectedEof (lit "event stream ended before the requested catch-up cursor"))
      else Ok s
  end.
End Visit.
End Log.
