(* ===== verification/EventLogSpec.v ===== *)
(** * What the event log guarantees

    Startup repair keeps a prefix of whole records that every later pass reads
    without an error, whatever the damage; a stream the log wrote, cut at any
    byte, keeps exactly the records written whole, and numbering goes on from
    there; a subscriber gets each record once. *)

From S2P Require Import Prelude Utf8 Lines Privacy Events EventLog.

(** What the log relies on in its serializer: what it writes it reads back, as
    one line of text that is not a sealed one, and white space after a value is
    not read. *)
Class LogJsonLaws {SJ : SealedJson} {LJ : LogJson} : Prop := {
  json_written e line : to_json e = Some line ->
    envelope_from_json line = Some e /\ Forall scalar line /\ Forall (fun c => 13 < c) line
    /\ starts_with SEALED line = false;
  envelope_space l c : c = 10 \/ c = 13 -> envelope_from_json (l ++ [c]) = envelope_from_json l;
  version_space l c : c = 10 \/ c = 13 -> version_from_json (l ++ [c]) = version_from_json l;
  event_space l c : c = 10 \/ c = 13 -> event_from_json (l ++ [c]) = event_from_json l;
  sealed_space l c : c = 10 \/ c = 13 -> json_sealed (l ++ [c]) = json_sealed l }.

Section Spec.
Context {A : Aead} {SJ : SealedJson} {LJ : LogJson} {LL : LogJsonLaws}.

(** ** White space after a record *)

Lemma strip_none_app p l c : strip p l = None -> c ∉ p -> strip p (l ++ [c]) = None.
Proof.
  revert l. induction p as [|a p IH]; intros l; [done|]. destruct l as [|b l]; cbn.
  - intros _ Hc. apply not_elem_of_cons in Hc as [Hc _]. by rewrite (proj2 (N.eqb_neq a c)) by congruence.
  - destruct (a =? b); [|done]. intros H Hc. apply not_elem_of_cons in Hc as [_ Hc]. by apply IH.
Qed.

Lemma starts_with_space l c : c = 10 \/ c = 13 -> starts_with SEALED (l ++ [c]) = starts_with SEALED l.
Proof.
  intros Hc. unfold starts_with. destruct (strip SEALED l) as [r|] eqn:E.
  - apply strip_some in E as ->. rewrite <- app_assoc, strip_whole. by rewrite !bool_decide_eq_true_2.
  - rewrite strip_none_app; [done|done|]. intros Hin. destruct Hc as [-> | ->]; revert Hin; apply (bool_decide_unpack _); by vm_compute.
Qed.

Lemma decode_space l c : c = 10 \/ c = 13 -> decode_record_strict (l ++ [c]) = decode_record_strict l.
Proof.
  intros Hc. unfold decode_record_strict, decode_line. rewrite starts_with_space, sealed_space by done.
  destruct (starts_with SEALED l); cbn [negb]; [done|].
  by rewrite envelope_space, version_space, event_space.
Qed.

Lemma utf8_char_last c b : last (utf8_char c) = Some b -> b < 128 -> utf8_char c = [b] /\ c = b.
Proof.
  unfold utf8_char. destruct (c <? 128); [by intros [= ->]|].
  assert (forall x, 128 + N.land x 63 < 128 -> False) by lia.
  destruct (c <? 2048); [|destruct (c <? 65536)]; cbn; intros [= <-] Hb; exfalso; eauto.
Qed.

(** Decoding a text that ends in an ASCII character. *)
Lemma from_utf8_snoc bs b s : b < 128 -> from_utf8 (bs ++ [b]) = Some s ->
  exists s', s = s' ++ [b] /\ from_utf8 bs = Some s'.
Proof.
  intros Hb Hs. apply utf8_from_utf8 in Hs as [Hu Hf].
  destruct s as [|c s' _] using rev_ind; [by destruct bs|]. apply Forall_app in Hf as [Hf _].
  rewrite utf8_app in Hu. unfold utf8 in Hu at 2. cbn [map concat] in Hu. rewrite app_nil_r in Hu.
  pose proof (f_equal last Hu) as Hl. rewrite last_snoc, last_app in Hl.
  destruct (last (utf8_char c)) as [b'|] eqn:E.
  - injection Hl as ->. apply utf8_char_last in E as [E ->]; [|done]. rewrite E in Hu.
    apply app_inj_tail in Hu as [<- _]. exists s'. split; [done|by apply from_utf8_utf8].
  - apply last_None in E. by destruct (utf8_char_nonempty c).
Qed.

(** A record reads the same with and without its carriage return. *)
Lemma chomp_decode c line r : record c -> from_utf8 (body c) = Some line -> decode_record_strict line = Ok r ->
  exists line', from_utf8 (chomp c) = Some line' /\ decode_record_strict line' = Ok r.
Proof.
  intros Hc Hl Hr. destruct (chomp_body c Hc) as [E|E]; rewrite E in Hl; [by exists line|].
  apply from_utf8_snoc in Hl as (line' & -> & Hl); [|lia]. exists line'. split; [done|].
  rewrite decode_space in Hr by auto. done.
Qed.

(** ** The records a scan accepts *)

(** From the previous number, the count of records and the owner: the chunks,
    the records read from them, and the owner after them. *)
Inductive accepted : N -> N -> option str -> list (list N) -> list DecodedRecord -> option str -> Prop :=
| accepted_nil previous synthetic owner : accepted previous synthetic owner [] [] owner
| accepted_cons previous synthetic owner c cs line r rs sequence owner1 owner2 :
    record c -> from_utf8 (body c) = Some line -> decode_record_strict line = Ok r ->
    sequence = default (sadd u64_max synthetic 1) (r_sequence r) ->
    (previous = 0 \/ sequence = sadd u64_max previous 1) ->
    check_record owner r = Ok owner1 ->
    accepted sequence (sadd u64_max synthetic 1) owner1 cs rs owner2 ->
    accepted previous synthetic owner (c :: cs) (r :: rs) owner2.

(** Numbers are contiguous: a check that fails nowhere after the first. *)
Definition contiguous (previous : N) (sequence : N) : bool :=
  negb (negb (previous =? 0) && negb (sequence =? sadd u64_max previous 1)).

Lemma contiguous_spec p s : contiguous p s = true <-> p = 0 \/ s = sadd u64_max p 1.
Proof. unfold contiguous. destruct (N.eqb_spec p 0), (N.eqb_spec s (sadd u64_max p 1)); simpl; split; try done; auto; by intros [?|?]. Qed.

Lemma prefix_loop_accepted cs off previous synthetic owner k o :
  chunks (concat cs) = cs -> prefix_loop cs off previous synthetic owner = Ok (k, o) ->
  exists kept rest rs, cs = kept ++ rest /\ k = (off + length (concat kept))%nat
    /\ accepted previous synthetic owner kept rs o.
Proof.
  revert off previous synthetic owner. induction cs as [|c cs IH]; intros off previous synthetic owner Hcs.
  { intros [= <- <-]. exists [], [], []. split; [done|]. split; [cbn; lia|constructor]. }
  assert (Hstop : Ok (off, owner) = Ok (k, o) :> result _ io_error -> exists kept rest rs, c :: cs = kept ++ rest
    /\ k = (off + length (concat kept))%nat /\ accepted previous synthetic owner kept rs o).
  { intros [= <- <-]. exists [], (c :: cs), []. split; [done|]. split; [cbn; lia|constructor]. }
  cbn [prefix_loop]. destruct (terminated c) eqn:Ht; [|intros; by apply Hstop]. cbn [negb].
  pose proof (chunk_record _ _ _ Hcs Ht) as Hr. pose proof (chunks_tail _ _ _ Hcs) as Htail.
  destruct (from_utf8 (body c)) as [line|] eqn:Hl; [|intros; by apply Hstop].
  destruct (decode_record_strict line) as [r|[v|]] eqn:Hd; [|done|intros; by apply Hstop].
  destruct (negb (previous =? 0) && _) eqn:Hg; [intros; by apply Hstop|].
  destruct (check_record owner r) as [owner1|e] eqn:Hck; [|done]. intros H.
  destruct (IH _ _ _ _ Htail H) as (kept & rest & rs & -> & -> & Hacc).
  exists (c :: kept), rest, (r :: rs). split; [done|]. split; [cbn; rewrite length_app; lia|].
  econstructor; [done|exact Hl|exact Hd|reflexivity| |exact Hck|exact Hacc].
  apply contiguous_spec. unfold contiguous. by rewrite Hg.
Qed.

Lemma accepted_records previous synthetic owner kept rs o :
  accepted previous synthetic owner kept rs o -> Forall record kept.
Proof. induction 1; constructor; done. Qed.

(** A scan reads accepted chunks and stops at the end, or at a chunk without
    its terminator. *)
Lemma accepted_prefix previous synthetic owner kept rs o rest off :
  accepted previous synthetic owner kept rs o ->
  match rest with [] => True | c :: _ => terminated c = false end ->
  prefix_loop (kept ++ rest) off previous synthetic owner = Ok ((off + length (concat kept))%nat, o).
Proof.
  intros Hacc Hrest. revert off. induction Hacc as [? ? ?|previous synthetic owner c cs line r rs sequence o1 o2 Hc Hl Hd Hs Hg Hck Hacc IH]; intros off.
  { cbn [app concat length]. rewrite Nat.add_0_r. destruct rest as [|c rest]; [done|]. cbn. by rewrite Hrest. }
  cbn [app prefix_loop]. rewrite record_terminated by done. cbn [negb]. rewrite Hl, Hd. cbv zeta.
  rewrite <- Hs. apply contiguous_spec, negb_true_iff in Hg. rewrite Hg, Hck. rewrite IH by done.
  cbn [concat]. rewrite length_app. do 2 f_equal. lia.
Qed.

Lemma accepted_for_each {S} (apply : DecodedRecord -> S -> S) previous synthetic owner kept rs o s :
  accepted previous synthetic owner kept rs o ->
  for_each_loop apply (map chomp kept) owner s = Ok (foldl (fun s r => apply r s) s rs, o).
Proof.
  intros Hacc. revert s. induction Hacc as [? ? ?|previous synthetic owner c cs line r rs sequence o1 o2 Hc Hl Hd Hs Hg Hck Hacc IH]; intros s; [done|].
  destruct (chomp_decode _ _ _ Hc Hl Hd) as (line' & Hl' & Hd'). cbn [map for_each_loop foldl].
  rewrite Hl', Hd', Hck. apply IH.
Qed.

(** The numbers of the records of a stream. *)
Fixpoint numbers (synthetic : N) (rs : list DecodedRecord) : list N :=
  match rs with
  | [] => []
  | r :: rs => let synthetic := sadd u64_max synthetic 1 in default synthetic (r_sequence r) :: numbers synthetic rs
  end.

Fixpoint successive (previous : N) (l : list N) : Prop :=
  match l with
  | [] => True
  | n :: l => (previous = 0 \/ n = sadd u64_max previous 1) /\ successive n l
  end.

Lemma accepted_successive previous synthetic owner kept rs o :
  accepted previous synthetic owner kept rs o -> successive previous (numbers synthetic rs).
Proof. induction 1 as [|? ? ? ? ? ? ? ? ? ? ? ? ? ? -> Hg ? ? IH]; [done|]. cbn [numbers]. by split. Qed.

(** C11: whatever the damage, the prefix that repair keeps is stable, and no pass
    over it meets an error: it holds whole records, numbered without a gap, that
    every projection reads one by one; repairing again keeps all of it. *)
Theorem repaired_stream_replays bs w k :
  consistent_prefix_len bs w = Ok k ->
  (k <= length bs)%nat /\ consistent_prefix_len (take k bs) w = Ok k
  /\ exists rs, successive 0 (numbers 0 rs)
    /\ forall S (apply : DecodedRecord -> S -> S) s,
         for_each_record apply (take k bs) (Some w) s = Ok (foldl (fun s r => apply r s) s rs).
Proof.
  unfold consistent_prefix_len at 1. destruct (prefix_loop (chunks bs) 0 0 0 None) as [[k' o]|e] eqn:E; [|done].
  intros Hk. assert (k' = k /\ (o = None \/ o = Some w)) as [-> Ho].
  { destruct o as [actual|]; [|injection Hk as ->; auto]. case_bool_decide as Ha; [|done].
    injection Hk as ->. subst. auto. }
  assert (Hcs : chunks (concat (chunks bs)) = chunks bs) by by rewrite concat_chunks.
  destruct (prefix_loop_accepted _ _ _ _ _ _ _ Hcs E) as (kept & rest & rs & Hc & -> & Hacc). cbn [plus].
  assert (Hbs : bs = concat kept ++ concat rest) by (rewrite <- concat_app, <- Hc; symmetry; apply concat_chunks).
  assert (Htake : take (length (concat kept)) bs = concat kept) by (rewrite Hbs; apply take_app_length).
  pose proof (chunks_concat _ (accepted_records _ _ _ _ _ _ Hacc)) as Hkc.
  split; [rewrite Hbs, length_app; lia|]. rewrite Htake. split.
  - unfold consistent_prefix_len. rewrite Hkc, <- (app_nil_r kept), (accepted_prefix _ _ _ _ _ _ [] _ Hacc I), app_nil_r.
    destruct Ho as [-> | ->]; [done|]. by rewrite bool_decide_eq_true_2.
  - exists rs. split; [by eapply accepted_successive|]. intros S apply s. unfold for_each_record, lines.
    rewrite Hkc, (accepted_for_each _ _ _ _ _ _ _ _ Hacc). destruct Ho as [-> | ->]; [done|]. by rewrite bool_decide_eq_true_2.
Qed.

(** ** A Workspace's stream through its lives *)

Context {SL : SealedLaws}.

(** What the stream holds of an envelope. *)
Definition decoded_of (e : EventEnvelope) : DecodedRecord := {|
  r_sequence := Some (ev_sequence e); r_workspace := Some (ev_workspace e); r_event := ev_event e |}.

Definition ordinary (e : LogEvent) : bool :=
  match e with Log.RecoveryCheckpoint _ | Log.WorkspaceRenamed _ _ => false | _ => true end.

(** Appends, renames as [rename_session] of server.rs orders them, and crashes:
    the file is cut at any byte, repaired, and the log opened again. *)
Inductive life (protected : bool) (nonces : N -> list N) : EventLog -> list N -> list EventEnvelope -> Prop :=
| life_new name : life protected nonces (open_log name None) [] []
| life_append l f es now e l1 line f1 :
    life protected nonces l f es -> el_next_sequence l < u64_max -> ordinary e = true -> record_event l now e = (l1, Some (el_name l, line)) ->
    append_line protected (nonces (el_next_sequence l)) (Some f) line = Some f1 ->
    life protected nonces l1 f1 (es ++ [envelope l now e])
| life_repeat l f es now e :
    life protected nonces l f es -> record_event l now e = (l, None) -> life protected nonces l f es
| life_rename l f es now new l1 line f1 :
    life protected nonces l f es -> el_next_sequence l < u64_max -> new <> el_name l ->
    record_event l now (Log.WorkspaceRenamed (el_name l) new) = (l1, Some (el_name l, line)) ->
    append_line protected (nonces (el_next_sequence l)) (Some f) line = Some f1 ->
    life protected nonces (rename_projection l1 new) f1
      (es ++ [envelope l now (Log.WorkspaceRenamed (el_name l) new)])
| life_crash l f es n w f1 report :
    life protected nonces l f es -> repair (Some (take n f)) w = Ok (Some f1, report) ->
    life protected nonces (open_log w (Some f1)) f1 (take (length (chunks f1)) es).

(** Who owns the stream after an envelope. *)
Definition next_owner (e : EventEnvelope) : str :=
  match ev_event e with Log.WorkspaceRenamed _ new => new | _ => ev_workspace e end.

Definition owner_after (owner : option str) (es : list EventEnvelope) : option str :=
  match last es with Some e => Some (next_owner e) | None => owner end.

Fixpoint owned (owner : option str) (es : list EventEnvelope) : Prop :=
  match es with
  | [] => True
  | e :: es => check_record owner (decoded_of e) = Ok (Some (next_owner e)) /\ owned (Some (next_owner e)) es
  end.

(** A chunk that holds an envelope. *)
Definition holds (c : list N) (e : EventEnvelope) : Prop :=
  record c /\ chomp c = body c /\ known_version (ev_version e) = true
  /\ exists line json, from_utf8 (body c) = Some line /\ decode_line line = Some json
       /\ envelope_from_json json = Some e.

Definition numbered (i : N) (es : list EventEnvelope) : Prop :=
  forall j e, es !! j = Some e -> ev_sequence e = i + N.of_nat j + 1.

Record durable (l : EventLog) (f : list N) (es : list EventEnvelope) : Prop := {
  d_chunks : exists cs, f = concat cs /\ Forall2 holds cs es;
  d_numbered : numbered 0 es;
  d_bound : N.of_nat (length es) < u64_max;
  d_next : el_next_sequence l = N.of_nat (length es) + 1;
  d_owned : owned None es;
  d_name : owner_after None es = None \/ owner_after None es = Some (el_name l) }.

Lemma holds_decode c e : holds c e ->
  record c /\ exists line, from_utf8 (body c) = Some line /\ decode_record_strict line = Ok (decoded_of e).
Proof.
  intros (Hc & _ & Hv & line & json & Hl & Hd & He). split; [done|]. exists line. split; [done|].
  unfold decode_record_strict. by rewrite Hd, He, Hv.
Qed.

Lemma owner_after_cons owner e es : owner_after (Some (next_owner e)) es = owner_after owner (e :: es).
Proof. unfold owner_after. rewrite last_cons. by destruct (last es). Qed.

Lemma owned_app owner es e : owned owner (es ++ [e]) <->
  owned owner es /\ check_record (owner_after owner es) (decoded_of e) = Ok (Some (next_owner e)).
Proof.
  revert owner. induction es as [|x es IH]; intros owner; cbn [app owned].
  - unfold owner_after. cbn. intuition.
  - rewrite IH, (owner_after_cons owner). intuition.
Qed.

Lemma owned_take owner es k : owned owner es -> owned owner (take k es).
Proof. revert owner k. induction es as [|x es IH]; intros owner [|k]; cbn; [done..|]. intros [H1 H2]. auto. Qed.

Lemma numbered_cons i e es : numbered i (e :: es) -> ev_sequence e = i + 1 /\ numbered (i + 1) es.
Proof.
  intros H. split; [rewrite (H 0%nat e eq_refl); lia|]. intros j x Hx. rewrite (H (S j) x Hx). lia.
Qed.

Lemma numbered_take i es k : numbered i es -> numbered i (take k es).
Proof. intros H j e [Hj _]%lookup_take_Some. by apply H. Qed.

Lemma trail_accepted i synthetic owner cs es :
  Forall2 holds cs es -> numbered i es -> i + N.of_nat (length es) < u64_max -> owned owner es ->
  accepted i synthetic owner cs (map decoded_of es) (owner_after owner es).
Proof.
  intros Hcs. revert i synthetic owner. induction Hcs as [|c e cs es (Hc & line & Hl & Hd)%holds_decode Hcs IH]; intros i synthetic owner Hn Hm Ho.
  { constructor. }
  apply numbered_cons in Hn as [Hs Hn]. destruct Ho as [Hck Ho]. cbn [length] in Hm. cbn [map].
  econstructor; [done|exact Hl|exact Hd|reflexivity| |exact Hck|].
  - right. cbn [decoded_of r_sequence from_option]; unfold id. rewrite sadd_small; [done|]. lia.
  - cbn [decoded_of r_sequence from_option]; unfold id. rewrite <- (owner_after_cons owner), Hs. apply IH; [done| |done]. lia.
Qed.

Lemma next_loop_trail i synthetic cs es :
  Forall2 holds cs es -> numbered i es ->
  next_loop (map chomp cs) synthetic i = i + N.of_nat (length es).
Proof.
  intros Hcs. revert i synthetic. induction Hcs as [|c e cs es (Hc & line & Hl & Hd)%holds_decode Hcs IH]; intros i synthetic Hn; cbn [map next_loop length].
  { lia. }
  apply numbered_cons in Hn as [Hs Hn]. destruct (chomp_decode _ _ _ Hc Hl Hd) as (line' & Hl' & Hd').
  rewrite Hl'. unfold decode_record. rewrite Hd'. cbn [decoded_of r_sequence from_option]; unfold id. rewrite Hs.
  replace (N.max i (i + 1)) with (i + 1) by lia. rewrite IH by done. lia.
Qed.

Lemma holds_records cs es : Forall2 holds cs es -> Forall record cs.
Proof. induction 1 as [|c e cs es [Hc _] _ IH]; by constructor. Qed.

(** Numbering goes on where a trail ends. *)
Lemma next_sequence_trail cs es : Forall2 holds cs es -> numbered 0 es -> N.of_nat (length es) < u64_max ->
  next_sequence (Some (concat cs)) = N.of_nat (length es) + 1.
Proof.
  intros Hcs Hn Hm. unfold next_sequence, lines. rewrite chunks_concat by by eapply holds_records.
  rewrite (next_loop_trail 0 0 cs es) by done. unfold sadd. lia.
Qed.

(** Every projection reads a trail envelope by envelope. *)
Lemma for_each_trail {S} (apply : DecodedRecord -> S -> S) cs es w s :
  Forall2 holds cs es -> numbered 0 es -> N.of_nat (length es) < u64_max -> owned None es ->
  (owner_after None es = None \/ owner_after None es = Some w) ->
  for_each_record apply (concat cs) (Some w) s = Ok (foldl (fun s e => apply (decoded_of e) s) s es).
Proof.
  intros Hcs Hn Hm Ho Hw. unfold for_each_record, lines. rewrite chunks_concat by by eapply holds_records.
  rewrite (accepted_for_each apply 0 0 None cs _ _ s (trail_accepted 0 0 None cs es Hcs Hn Hm Ho)).
  rewrite foldl_fmap. destruct Hw as [-> | ->]; [done|]. by rewrite bool_decide_eq_true_2.
Qed.

(** Cutting a trail at any byte: repair keeps the records written whole. *)
Lemma cut_trail cs es n : Forall2 holds cs es -> numbered 0 es -> N.of_nat (length es) < u64_max -> owned None es ->
  exists k, (k <= length es)%nat
    /\ (length (concat (take k cs)) <= n)%nat
    /\ ((k < length es)%nat -> (n < length (concat (take (S k) cs)))%nat)
    /\ take (length (concat (take k cs))) (take n (concat cs)) = concat (take k cs)
    /\ forall w, consistent_prefix_len (take n (concat cs)) w =
         match owner_after None (take k es) with
         | Some o => if bool_decide (o = w) then Ok (length (concat (take k cs))) else Err (foreign o w)
         | None => Ok (length (concat (take k cs)))
         end.
Proof.
  intros Hcs Hn Hm Ho. pose proof (Forall2_length _ _ _ Hcs) as Hlen.
  destruct (take_records cs n (holds_records _ _ Hcs)) as (k & r & E & Hr & Hk & Hlow & Hhigh).
  exists k. rewrite <- Hlen. split; [done|]. split; [done|]. split; [done|]. rewrite E.
  split; [apply take_app_length|]. intros w. unfold consistent_prefix_len.
  assert (Hkc : Forall2 holds (take k cs) (take k es)) by by apply Forall2_take.
  rewrite chunks_records by by eapply holds_records.
  assert (Hmk : 0 + N.of_nat (length (take k es)) < u64_max) by (rewrite length_take; lia).
  rewrite (accepted_prefix 0 0 None _ _ _ (chunks r) 0
    (trail_accepted 0 0 None _ _ Hkc (numbered_take _ _ _ Hn) Hmk (owned_take _ _ _ Ho))).
  - done.
  - destruct r as [|b r]; [done|]. rewrite chunks_line by done. unfold terminated.
    apply bool_decide_eq_false_2. intros Hl. by apply last_Some_elem_of in Hl.
Qed.

Lemma utf8_above s : Forall (fun c => 13 < c) s -> Forall (fun b => 13 < b) (utf8 s).
Proof.
  induction 1 as [|c s Hc _ IH]; [constructor|]. unfold utf8 in *. cbn [map concat]. apply Forall_app. split; [|done].
  unfold utf8_char. destruct (c <? 128); [|destruct (c <? 2048); [|destruct (c <? 65536)]]; repeat constructor; lia.
Qed.

(** A line that is written holds its envelope. *)
Lemma line_holds protected nonce e json line : nonce_ok nonce -> known_version (ev_version e) = true ->
  to_json e = Some json -> encode_line protected nonce (json ++ [10]) = Some line -> holds (utf8 line) e.
Proof.
  intros Hn Hv Hj. apply json_written in Hj as (Hread & Hscalar & Habove & Hs).
  destruct protected; cbn [encode_line].
  - intros Hseal. assert (Hscalar1 : Forall scalar (json ++ [10])).
    { apply Forall_app. split; [done|]. by repeat constructor. }
    destruct (sealed_line_spec _ _ _ Hn Hscalar1 Hseal) as (s & -> & Hsmall & Hstart & Hdec & _).
    destruct (ascii_text _ Hsmall) as [Hu Hfrom]. rewrite utf8_app, Hu. split.
    { exists s. split; [done|]. by apply small_clean. }
    change (utf8 [10]) with [10]. rewrite body_app. split; [by apply chomp_app, small_clean|]. split; [done|].
    exists s, (json ++ [10]). split; [done|]. split; [done|]. by rewrite envelope_space by auto.
  - intros [= <-]. rewrite utf8_app. change (utf8 [10]) with [10].
    pose proof (utf8_above _ Habove) as Ha. rewrite Forall_forall in Ha. split.
    { exists (utf8 json). split; [done|]. intros Hin. specialize (Ha _ Hin). lia. }
    rewrite body_app. split; [|split; [done|]].
    { apply chomp_app. intros Hlast%last_Some_elem_of. specialize (Ha _ Hlast). lia. }
    exists json, json. split; [by apply from_utf8_utf8|]. split; [|done]. unfold decode_line. by rewrite Hs.
Qed.

Lemma zeros_ok : nonce_ok zeros.
Proof. split; [done|]. by repeat constructor. Qed.

(** A line that is not sealed. *)
Lemma plain_holds line json e : line = utf8 (json ++ [10]) -> to_json e = Some json ->
  known_version (ev_version e) = true -> holds line e.
Proof. intros -> Hj Hv. by apply (line_holds false zeros e json); [apply zeros_ok|..]. Qed.

(** What an append adds to the file holds its envelope. *)
Lemma append_holds protected nonce f l now e l1 name line f1 :
  nonce_ok nonce -> record_event l now e = (l1, Some (name, line)) ->
  append_line protected nonce (Some f) line = Some f1 ->
  (exists c, f1 = f ++ c /\ holds c (envelope l now e))
  /\ el_name l1 = el_name l /\ el_next_sequence l1 = sadd u64_max (el_next_sequence l) 1.
Proof.
  intros Hn. unfold record_event. destruct (_ && _); [done|]. destruct (to_json _) as [json|] eqn:Hj; [|done].
  intros [= <- <- <-] H. split; [|done]. unfold append_line in H. apply fmap_Some in H as (s & Hs & ->).
  exists (utf8 s). split; [done|]. by apply (line_holds protected nonce _ json).
Qed.

(** One more envelope, whose owner the stream has. *)
Lemma durable_push l f es now e l2 c :
  durable l f es -> holds c (envelope l now e) -> el_next_sequence l < u64_max ->
  el_next_sequence l2 = sadd u64_max (el_next_sequence l) 1 ->
  check_record (owner_after None es) (decoded_of (envelope l now e)) = Ok (Some (next_owner (envelope l now e))) ->
  el_name l2 = next_owner (envelope l now e) ->
  durable l2 (f ++ c) (es ++ [envelope l now e]).
Proof.
  intros [(cs & -> & Hcs) Hnum Hbound Hnext Howned Hname] Hc Hmax Hnext2 Hck Hname2. constructor.
  - exists (cs ++ [c]). rewrite concat_app. cbn [concat]. rewrite app_nil_r. split; [done|].
    apply Forall2_app; [done|]. by apply Forall2_cons.
  - intros j x Hx. destruct (decide (j = length es)) as [->|Hj].
    + rewrite lookup_app_r, Nat.sub_diag in Hx by done. injection Hx as <-. simpl. rewrite Hnext. lia.
    + apply Hnum. rewrite lookup_app_l in Hx; [done|].
      apply lookup_lt_Some in Hx. rewrite length_app in Hx. simpl in Hx. lia.
  - rewrite length_app. simpl. lia.
  - rewrite Hnext2, Hnext, length_app, sadd_small by lia. simpl. lia.
  - by apply owned_app.
  - right. unfold owner_after. rewrite last_snoc. by rewrite Hname2.
Qed.

Lemma check_own owner l now e : (owner = None \/ owner = Some (el_name l)) ->
  ordinary e = true \/ (exists new, e = Log.WorkspaceRenamed (el_name l) new /\ new <> el_name l) ->
  check_record owner (decoded_of (envelope l now e)) = Ok (Some (next_owner (envelope l now e))).
Proof.
  intros Ho He. unfold check_record, next_owner. cbn [decoded_of r_event r_workspace r_sequence envelope ev_event ev_workspace].
  assert (Hd : default (el_name l) owner = el_name l) by by destruct Ho as [-> | ->].
  destruct He as [He|(new & -> & Hnew)].
  - destruct e; try discriminate He; rewrite Hd; by rewrite bool_decide_eq_true_2.
  - rewrite Hd, !bool_decide_eq_true_2 by done. cbn [negb andb]. by rewrite bool_decide_eq_false_2 by congruence.
Qed.

Lemma life_cut l f es n w f1 report :
  durable l f es -> repair (Some (take n f)) w = Ok (Some f1, report) ->
  durable (open_log w (Some f1)) f1 (take (length (chunks f1)) es).
Proof.
  intros [(cs & -> & Hcs) Hnum Hbound Hnext Howned Hname] Hrep.
  destruct (cut_trail cs es n Hcs Hnum Hbound Howned) as (k & Hk & Hlow & _ & Htake & Hlen).
  pose proof (Forall2_length _ _ _ Hcs) as Hlcs. pose proof (Forall2_take holds cs es k Hcs) as Hkc.
  unfold repair in Hrep. rewrite Hlen in Hrep.
  assert (f1 = concat (take k cs) /\ (owner_after None (take k es) = None \/ owner_after None (take k es) = Some w)) as [-> Hw].
  { assert (Hf : forall file rep, (if (length (concat (take k cs)) =? length (take n (concat cs)))%nat
        then Ok (Some (take n (concat cs)), None)
        else Ok (Some (take (length (concat (take k cs))) (take n (concat cs))), rep)) = Ok (Some f1, file)
          :> result (option (list N) * option RepairReport) io_error ->
      f1 = concat (take k cs)).
    { intros file rep. destruct (Nat.eqb_spec (length (concat (take k cs))) (length (take n (concat cs)))) as [E|E].
      - intros [= <- _]. rewrite E, take_ge in Htake; done.
      - rewrite Htake. by intros [= <- _]. }
    destruct (owner_after None (take k es)) as [o|]; [case_bool_decide; [subst o|done]|];
      (split; [by eapply Hf|by auto]). }
  rewrite (chunks_concat (take k cs)) by by eapply holds_records.
  replace (length (take k cs)) with k by (rewrite length_take; lia).
  assert (Hb : N.of_nat (length (take k es)) < u64_max) by (rewrite length_take; lia).
  constructor; [by exists (take k cs)|by apply numbered_take|done| |by apply owned_take|done].
  cbn [open_log el_next_sequence]. by apply next_sequence_trail; [..|apply numbered_take|].
Qed.

(** The invariant of every life. *)
Lemma life_durable protected nonces l f es :
  (forall k, nonce_ok (nonces k)) -> life protected nonces l f es -> durable l f es.
Proof.
  intros Hn Hl. induction Hl as [name|l f es now e l1 line f1 Hl IH Hm He Hr Ha|l f es now e Hl IH Hr
    |l f es now new l1 line f1 Hl IH Hm Hnew Hr Ha|l f es n w f1 report Hl IH Hrep].
  - constructor; try done; [by exists []|]. by left.
  - destruct (append_holds _ _ _ _ _ _ _ _ _ _ (Hn _) Hr Ha) as ((c & -> & Hc) & Hname & Hnext).
    apply (durable_push l f es now e); [done..| |].
    + apply check_own; [apply IH|by left].
    + rewrite Hname. by destruct e.
  - done.
  - destruct (append_holds _ _ _ _ _ _ _ _ _ _ (Hn _) Hr Ha) as ((c & -> & Hc) & Hname & Hnext).
    apply (durable_push l f es now (Log.WorkspaceRenamed (el_name l) new)); [done..| |done].
    apply check_own; [apply IH|right; by exists new].
  - by eapply life_cut.
Qed.

(** Which records a projection reads. *)
Definition read_all (f : list N) (w : str) : result (list DecodedRecord) io_error :=
  for_each_record (fun r rs => rs ++ [r]) f (Some w) [].

Lemma collect rs es : foldl (fun rs e => rs ++ [decoded_of e]) rs es = rs ++ map decoded_of es.
Proof.
  revert rs. induction es as [|e es IH]; intros rs; cbn; [by rewrite app_nil_r|]. by rewrite IH, <- app_assoc.
Qed.

(** C3: a log that was written, renamed, cut at arbitrary bytes by crashes and
    repaired holds exactly what it recorded and did not lose: its records are
    numbered from one without a gap, every projection reads them, the next
    record gets the next number, also after reopening. And a cut at byte [n]
    keeps the [k] records written whole before it, no fewer: repair returns
    their length, unless the last of them gave the stream to another name. *)
Theorem crash_recovery protected nonces l f es :
  (forall k, nonce_ok (nonces k)) -> life protected nonces l f es ->
  read_all f (el_name l) = Ok (map decoded_of es)
  /\ (forall i e, es !! i = Some e -> ev_sequence e = N.of_nat i + 1)
  /\ el_next_sequence l = N.of_nat (length es) + 1
  /\ el_next_sequence (open_log (el_name l) (Some f)) = N.of_nat (length es) + 1
  /\ forall n, exists k keep, (keep <= n)%nat /\ (k <= length es)%nat
       /\ (forall w, consistent_prefix_len (take n f) w =
            match owner_after None (take k es) with
            | Some o => if bool_decide (o = w) then Ok keep else Err (foreign o w)
            | None => Ok keep
            end)
       /\ (forall w, owner_after None (take k es) = Some w -> read_all (take keep f) w = Ok (map decoded_of (take k es)))
       /\ ((k < length es)%nat -> exists c, drop keep f = c ++ drop (keep + length c) f
             /\ (n < keep + length c)%nat /\ match es !! k with Some e => holds c e | None => False end).
Proof.
  intros Hn Hl. destruct (life_durable _ _ _ _ _ Hn Hl) as [(cs & -> & Hcs) Hnum Hbound Hnext Howned Hname].
  split; [|split; [|split; [done|split]]].
  - unfold read_all. by rewrite (for_each_trail _ cs es), collect.
  - intros i e He. rewrite (Hnum i e He). lia.
  - by apply next_sequence_trail.
  - intros n. destruct (cut_trail cs es n Hcs Hnum Hbound Howned) as (k & Hk & Hlow & Hhigh & Htake & Hlen).
    pose proof (Forall2_length _ _ _ Hcs) as Hlcs.
    exists k, (length (concat (take k cs))). split; [done|]. split; [done|]. split; [done|].
    assert (Hsplit : forall j, concat cs = concat (take j cs) ++ concat (drop j cs)).
    { intros j. by rewrite <- concat_app, take_drop. }
    split.
    + intros w Hw. rewrite (Hsplit k), take_app_length. unfold read_all.
      rewrite (for_each_trail _ (take k cs) (take k es)), collect; [done|by apply Forall2_take|by apply numbered_take
        | |by apply owned_take|by right]. rewrite length_take. lia.
    + intros Hlt. specialize (Hhigh Hlt). destruct (lookup_lt_is_Some_2 es k Hlt) as [e He].
      destruct (Forall2_lookup_r _ _ _ _ _ Hcs He) as (c & Hc & Hholds). exists c. rewrite He.
      rewrite (take_S_r _ _ _ Hc), concat_app in Hhigh. cbn [concat] in Hhigh. rewrite app_nil_r, length_app in Hhigh.
      split; [|by split]. rewrite (Hsplit k), drop_app_length, drop_app_add'; [|done].
      by rewrite (drop_S _ _ _ Hc); cbn [concat]; rewrite drop_app_length.
Qed.

(** ** Subscribers *)

(** The envelopes of [(sequence, through]]. *)
Definition due (sequence : N) (through : option N) (e : EventEnvelope) : Prop :=
  sequence < ev_sequence e /\ match through with Some cursor => ev_sequence e <= cursor | None => True end.

#[local] Instance due_dec sequence through e : Decision (due sequence through e).
Proof. unfold due. destruct through; apply _. Defined.

Lemma visit_decode_holds c e name synthetic : holds c e ->
  exists line, from_utf8 (chomp c) = Some line /\ visit_decode name line synthetic = Ok e.
Proof.
  intros (_ & Hch & Hv & line & json & Hl & Hd & He). exists line. rewrite Hch. split; [done|].
  unfold visit_decode. by rewrite Hd, He, Hv.
Qed.

(** Both scans agree on who owns the stream. *)
Lemma visit_owner_check owner e :
  check_record owner (decoded_of e) = Ok (Some (next_owner e)) -> visit_owner owner e = Ok (next_owner e).
Proof.
  unfold check_record, visit_owner, next_owner. cbn [decoded_of r_event r_workspace r_sequence].
  destruct (match ev_event e with Log.RecoveryCheckpoint _ => _ | _ => _ end); [done|].
  case_bool_decide as H1; cbn [negb]; [|done]. injection H1 as H1. rewrite bool_decide_eq_true_2 by done. cbn [negb].
  destruct (ev_event e); try (intros _; by rewrite H1).
  case_bool_decide as H2; [|done]. case_bool_decide as H3; [|done]. injection H2 as H2. cbn [andb].
  case_bool_decide as H4; cbn [negb]; [done|]. intros _. rewrite (bool_decide_eq_true_2 (old = default _ _)) by congruence.
  done.
Qed.

Lemma none_due i sequence cursor es : numbered i es -> cursor <= i -> filter (due sequence (Some cursor)) es = [].
Proof.
  revert i. induction es as [|e es IH]; intros i Hn Hi; [done|]. apply numbered_cons in Hn as [Hs Hn].
  rewrite filter_cons_False; [by apply (IH (i + 1)); [|lia]|]. unfold due. lia.
Qed.

Lemma visit_loop_trail name sequence through i synthetic owner cs es s :
  Forall2 holds cs es -> numbered i es -> i + N.of_nat (length es) < u64_max -> owned owner es ->
  exists previous owner',
    visit_loop (fun e s => Ok (s ++ [e])) name sequence through (map chomp cs) i synthetic owner s
      = Ok (s ++ filter (due sequence through) es, previous, owner')
    /\ (match through with Some cursor => previous < cursor <-> i + N.of_nat (length es) < cursor | None => owner' = owner_after owner es end).
Proof.
  intros Hcs. revert i synthetic owner s. induction Hcs as [|c e cs es Hc Hcs IH]; intros i synthetic owner s Hn Hm Ho.
  { exists i, owner. cbn [map visit_loop]. rewrite filter_nil, app_nil_r. split; [done|]. destruct through; [|done].
    cbn [length]. by rewrite N.add_0_r. }
  apply numbered_cons in Hn as [Hs Hn]. destruct Ho as [Hck Ho]. cbn [length] in *.
  cbn [map visit_loop]. destruct (visit_decode_holds c e name (sadd u64_max synthetic 1) Hc) as (line & Hl & Hd).
  rewrite Hl. cbv zeta. rewrite Hd, (visit_owner_check _ _ Hck).
  replace (negb (i =? 0) && negb (ev_sequence e =? sadd u64_max i 1)) with false.
  2: { symmetry. apply andb_false_iff. right. apply negb_false_iff, N.eqb_eq. rewrite sadd_small by lia. lia. }
  specialize (fun s => IH (i + 1) (sadd u64_max synthetic 1) (Some (next_owner e)) s Hn ltac:(lia) Ho). rewrite <- Hs in IH.
  destruct (match through with Some cursor => cursor <? ev_sequence e | None => false end) eqn:Hstop.
  - destruct through as [cursor|]; [|done]. apply N.ltb_lt in Hstop. exists (ev_sequence e), (Some (next_owner e)).
    rewrite filter_cons_False by (unfold due; lia). rewrite (none_due (i + 1)), app_nil_r by (done || lia). split; [done|]. lia.
  - destruct (N.ltb_spec sequence (ev_sequence e)) as [Hq|Hq].
    + rewrite filter_cons_True.
      2: { split; [done|]. destruct through; [|done]. by apply N.ltb_ge in Hstop. }
      destruct (IH (s ++ [e])) as (p & o & E & Hp). exists p, o. rewrite E, <- app_assoc. split; [done|].
      destruct through; [rewrite Hp; lia|]. by rewrite Hp, (owner_after_cons owner).
    + rewrite filter_cons_False by (unfold due; lia).
      destruct (IH s) as (p & o & E & Hp). exists p, o. rewrite E. split; [done|].
      destruct through; [rewrite Hp; lia|]. by rewrite Hp, (owner_after_cons owner).
Qed.

(** C28: a subscriber that catches up from [sequence] gets the envelopes after it,
    each once and in order; with a high-water mark, those up to the mark, and an
    error exactly when the stream ends before it. *)
Theorem subscribers_exact protected nonces l f es sequence through :
  (forall k, nonce_ok (nonces k)) -> life protected nonces l f es ->
  visit_lines (fun e s => Ok (s ++ [e])) (el_name l) sequence through 0 f [] =
    match through with
    | Some cursor =>
        if N.of_nat (length es) <? cursor
        then Err (UnexpectedEof (lit "event stream ended before the requested catch-up cursor"))
        else Ok (filter (due sequence through) es)
    | None => Ok (filter (due sequence through) es)
    end.
Proof.
  intros Hn Hl. destruct (life_durable _ _ _ _ _ Hn Hl) as [(cs & -> & Hcs) Hnum Hbound Hnext Howned Hname].
  unfold visit_lines, lines. rewrite chunks_concat by by eapply holds_records.
  destruct (visit_loop_trail (el_name l) sequence through 0 0 None cs es [] Hcs Hnum Hbound Howned) as (p & o & -> & Hp).
  destruct through as [cursor|].
  - rewrite (bool_decide_eq_false_2 (Some cursor = None)) by done. cbn [andb].
    destruct (N.ltb_spec p cursor), (N.ltb_spec (N.of_nat (length es)) cursor); try done; lia.
  - rewrite bool_decide_eq_true_2 by done. cbn [andb]. subst o.
    destruct Hname as [-> | ->]; [done|]. by rewrite bool_decide_eq_true_2.
Qed.
End Spec.

(** ** Concrete streams *)

#[local] Existing Instance sample_aead.
#[local] Existing Instance sample_json.
#[local] Existing Instance sample_laws.

(** A serializer for the envelopes of a table. *)
Definition table_json (t : list (EventEnvelope * str)) : LogJson := {|
  to_json := fun e => head (omap (fun p => if decide (p.1 = e) then Some p.2 else None) t);
  envelope_from_json := fun line => head (omap (fun p => if decide (p.2 = trim line) then Some p.1 else None) t);
  version_from_json := fun _ => None;
  event_from_json := fun _ => None |}.

(** Its lines are text on one line, and name one envelope each. *)
Definition good_entry (t : list (EventEnvelope * str)) (p : EventEnvelope * str) : bool :=
  bool_decide (head (omap (fun q => if decide (q.2 = trim p.2) then Some q.1 else None) t) = Some p.1)
  && forallb (fun c => (13 <? c) && (c <? 128)) p.2 && negb (starts_with SEALED p.2).

Lemma table_laws t : forallb (good_entry t) t = true -> @LogJsonLaws sample_json (table_json t).
Proof.
  intros Ht. split; simpl.
  - intros e line H.
    assert (exists p, p ∈ t /\ p.1 = e /\ p.2 = line) as (p & Hp & <- & <-).
    { clear Ht. induction t as [|p t IH]; [done|]. simpl in H. case_decide as E.
      - injection H as <-. exists p. split; [left|done].
      - destruct (IH H) as (q & Hq & ?). exists q. split; [by right|done]. }
    apply list_elem_of_In in Hp. rewrite forallb_forall in Ht. specialize (Ht p Hp). unfold good_entry in Ht.
    rewrite !andb_true_iff, bool_decide_eq_true, negb_true_iff in Ht. destruct Ht as [[H1 H2] H3].
    split; [done|]. split; [|split; [|done]]; apply Forall_forall; intros c Hc%list_elem_of_In;
      rewrite forallb_forall in H2; specialize (H2 c Hc); apply andb_true_iff in H2 as [Hc1%N.ltb_lt Hc2%N.ltb_lt]; [|done].
    unfold scalar. lia.
  - intros l c Hc. by rewrite trim_space.
  - done.
  - done.
  - intros l c Hc. unfold json_sealed, sample_json. by rewrite trim_space.
Qed.

Definition sample_envelope (sequence : N) (workspace : str) (e : LogEvent) : EventEnvelope := {|
  ev_version := EVENT_VERSION; ev_sequence := sequence; ev_timestamp_ms := 0; ev_workspace := workspace; ev_event := e |}.

Definition first : EventEnvelope := sample_envelope 1 (lit "w") (Log.TaskLaunched false).
Definition second : EventEnvelope := sample_envelope 2 (lit "w") (Log.WorkspaceRenamed (lit "w") (lit "v")).
Definition third : EventEnvelope := sample_envelope 3 (lit "v") Log.WindowNew.

Definition sample_table : list (EventEnvelope * str) :=
  [(first, lit "{1}"); (second, lit "{2}"); (third, lit "{3}")].

#[local] Instance sample_log_json : LogJson := table_json sample_table.
#[local] Instance sample_log_laws : LogJsonLaws := table_laws sample_table eq_refl.

Definition stream : list N := lit "{1}" ++ [10] ++ lit "{2}" ++ [10] ++ lit "{3}" ++ [10].

(** The third record is missing its predecessor: it goes, the first stays. *)
Lemma repaired_stream_replays_witness :
  exists rs, successive 0 (numbers 0 rs)
    /\ forall S (apply : DecodedRecord -> S -> S) s,
         for_each_record apply (lit "{1}" ++ [10]) (Some (lit "w")) s = Ok (foldl (fun s r => apply r s) s rs).
Proof.
  destruct (repaired_stream_replays (lit "{1}" ++ [10] ++ lit "{3}" ++ [10]) (lit "w") 4) as (_ & _ & rs & H).
  - by vm_compute.
  - exists rs. exact H.
Defined.

(** Two records, and a rename between them. *)
Definition log_at (name : str) (last : option LogEvent) (next : N) : EventLog :=
  {| el_name := name; el_last := last; el_next_sequence := next |}.

Definition renamed : EventLog := log_at (lit "v") (Some (ev_event second)) 3.

Lemma stream_life :
  life false (fun _ => zeros) (log_at (lit "v") (Some Log.WindowNew) 4) stream [first; second; third].
Proof.
  assert (H1 : life false (fun _ => zeros) (log_at (lit "w") (Some (ev_event first)) 2) (lit "{1}" ++ [10]) [first]).
  { apply (life_append _ _ (open_log (lit "w") None) [] [] 0 (ev_event first) _ (lit "{1}" ++ [10]));
      [apply life_new|done|done|by vm_compute|done]. }
  assert (H2 : life false (fun _ => zeros) renamed (lit "{1}" ++ [10] ++ lit "{2}" ++ [10]) [first; second]).
  { apply (life_rename _ _ _ _ _ 0 (lit "v") (log_at (lit "w") (Some (ev_event second)) 3) (lit "{2}" ++ [10]) _ H1);
      [done|done|by vm_compute|done]. }
  apply (life_append _ _ renamed _ _ 0 Log.WindowNew _ (lit "{3}" ++ [10]) _ H2); [done|done|by vm_compute|done].
Qed.

(** A crash in the last record, and one after it. *)
Lemma crash_recovery_witness :
  read_all (take 8 stream) (lit "v") = Ok (map decoded_of [first; second])
  /\ exists k keep, (keep <= 7)%nat /\ (k <= 2)%nat
       /\ consistent_prefix_len (take 7 (take 8 stream)) (lit "w") =
            match owner_after None (take k [first; second]) with
            | Some o => if bool_decide (o = lit "w") then Ok keep else Err (foreign o (lit "w"))
            | None => Ok keep
            end.
Proof.
  pose proof (life_crash false (fun _ => zeros) _ stream _ 10 (lit "v") (take 8 stream)
    (Some {| backup := take 10 stream; discarded_bytes := 2 |}) stream_life ltac:(by vm_compute)) as Hc.
  destruct (crash_recovery false (fun _ => zeros) _ _ _ (fun _ => zeros_ok) Hc) as (H1 & _ & _ & _ & H5).
  split; [exact H1|]. destruct (H5 7%nat) as (k & keep & Hk & Hlen & Hp & _). exists k, keep.
  split; [done|]. split; [exact Hlen|]. apply Hp.
Defined.

Lemma subscribers_exact_witness :
  visit_lines (fun e s => Ok (s ++ [e])) (lit "v") 1 (Some 2) 0 stream [] = Ok [second].
Proof.
  pose proof (subscribers_exact false (fun _ => zeros) _ stream _ 1 (Some 2) (fun _ => zeros_ok) stream_life) as H.
  exact H.
Defined.

(** A crash between the append of a rename and the rename of the file: the old
    name, whose file it still is, does not own the stream. *)
Example rename_interrupted :
  consistent_prefix_len (take 8 stream) (lit "w") = Err (foreign (lit "v") (lit "w")).
Proof. by vm_compute. Qed.
