(* ===== verification/History.v ===== *)
(** * History across compactions

    [uniterm-server/src/history.rs] (the checkpoint header, digests, the reader
    that follows archive links, compaction) and [visit_range] of [eventlog.rs].
    A Workspace's durable files are a record of their bytes; the digest is a
    parameter. Files are opened and renamed whole, so a crash leaves one of the
    states that the operations name. *)

From S2P Require Import Prelude Utf8 Lines Privacy Events EventLog.

(** [sha2::Sha256], printed in hexadecimal. *)
Class Sha256 : Type := sha256 : list N -> str.

(** The durable files of one Workspace: the active stream, its archives, and
    the marks of protection. *)
Record Files : Set := {
  active : option (list N); archives : gmap (list N) (list N);
  marker : option (list N); pending_protection : bool }.

Definition is_protected (fs : Files) : bool := bool_decide (is_Some (marker fs)).

Definition with_active (fs : Files) (bs : list N) : Files :=
  {| active := Some bs; archives := archives fs; marker := marker fs; pending_protection := pending_protection fs |}.

Definition with_archive (fs : Files) (file : str) (bs : list N) : Files :=
  {| active := active fs; archives := <[file := bs]> (archives fs); marker := marker fs;
     pending_protection := pending_protection fs |}.

Section History.
Context {A : Aead} {SJ : SealedJson} {LJ : LogJson} {SH : Sha256}.

Definition invalid (message : str) : io_error := InvalidData message.

(** [checkpoint_header_with_owner]: the checkpoint, the owner of the first
    record, and what is left to read. *)
Definition checkpoint_header (bs : list N) : result (option RecoveryCheckpoint * option str * list N) io_error :=
  let line := default [] (head (chunks bs)) in
  match from_utf8 line with
  | None => Err (InvalidData (lit "stream did not contain valid UTF-8"))
  | Some text =>
      match decode_line text with
      | None => Err (OtherError (lit "invalid encrypted record"))
      | Some decoded =>
          let envelope := envelope_from_json decoded in
          let owner := ev_workspace <$> envelope in
          match envelope with
          | Some e =>
              match ev_event e with
              | Log.RecoveryCheckpoint state =>
                  if negb (known_version (ev_version e)) then Err (Unsupported (lit "unsupported event version"))
                  else match validate state (Some (ev_sequence e)) with
                  | Err err => Err err
                  | Ok _ => Ok (Some state, owner, drop (length line) bs)
                  end
              | _ => Ok (None, owner, bs)
              end
          | None => Ok (None, owner, bs)
          end
      end
  end.

(** What [digest] hashes: the decoded lines. *)
Fixpoint plain_lines (cs : list (list N)) : result (list N) io_error :=
  match cs with
  | [] => Ok []
  | c :: cs =>
      match from_utf8 c with
      | None => Err (InvalidData (lit "stream did not contain valid UTF-8"))
      | Some line =>
          if negb (terminated c) then Err (invalid (lit "unterminated event archive record"))
          else match decode_line (trim line) with
          | None => Err (OtherError (lit "invalid encrypted record"))
          | Some plain =>
              match plain_lines cs with
              | Err e => Err e
              | Ok rest => Ok (utf8 (trim plain) ++ [10] ++ rest)
              end
          end
      end
  end.

Definition digest (bs : list N) : result str io_error :=
  match plain_lines (chunks bs) with Err e => Err e | Ok plain => Ok (sha256 plain) end.

(** Following the archive links while they lead past [after]: the segments read
    so far, oldest first. The cursor strictly decreases, so it is fuel enough. *)
Fixpoint follow (fuel : nat) (dir : gmap (list N) (list N)) (after : N) (checkpoint : option RecoveryCheckpoint)
    (segments : list N) : result (N * list N) io_error :=
  match checkpoint with
  | None => Ok (0, segments)
  | Some state =>
      match fuel with
      | O => Ok (rc_through state, segments)
      | S fuel =>
          if negb (after <? rc_through state) then Ok (rc_through state, segments)
          else match dir !! ar_file (rc_archive state) with
          | None => Err NotFound
          | Some bs =>
              match digest bs with
              | Err e => Err e
              | Ok sum =>
                  if negb (str_eqb sum (ar_sha256 (rc_archive state))) then Err (invalid (lit "event archive checksum mismatch"))
                  else match checkpoint_header bs with
                  | Err e => Err e
                  | Ok (previous, _, rest) =>
                      if match previous with Some p => rc_through state <=? rc_through p | None => false end then
                        Err (invalid (lit "cyclic or out-of-order event archive link"))
                      else follow fuel dir after previous (rest ++ segments)
                  end
              end
          end
      end
  end.

(** [Reader::new]: the cursor before the first record, and the bytes in order. *)
Definition open_reader (name : str) (fs : Files) (bs : list N) (after : N) : result (N * list N) io_error :=
  match checkpoint_header bs with
  | Err e => Err e
  | Ok (checkpoint, owner, rest) =>
      match
        match owner with
        | Some o => if bool_decide (o = name) then Ok tt else validate_owner bs name
        | None => Ok tt
        end
      with
      | Err e => Err e
      | Ok _ =>
          follow (N.to_nat (match checkpoint with Some c => rc_through c | None => 0 end)) (archives fs) after
            checkpoint rest
      end
  end.

(** [visit_range] *)
Definition visit_range {S} (visit : EventEnvelope -> S -> result S io_error) (name : str) (fs : Files)
    (sequence : N) (through : option N) (s : S) : result S io_error :=
  if bool_decide (through = Some 0) then Ok s
  else match active fs with
  | None => match through with None => Ok s | Some _ => Err NotFound end
  | Some bs =>
      match open_reader name fs bs sequence with
      | Err e => Err e
      | Ok (origin, bs) => visit_lines visit name sequence through origin bs s
      end
  end.

Definition visit_after {S} (visit : EventEnvelope -> S -> result S io_error) (name : str) (fs : Files)
    (sequence : N) (s : S) : result S io_error :=
  visit_range visit name fs sequence None s.

Definition visit_through {S} (visit : EventEnvelope -> S -> result S io_error) (name : str) (fs : Files)
    (sequence through : N) (s : S) : result S io_error :=
  if through <? sequence then Err (InvalidInput (lit "event catch-up cursor precedes its starting cursor"))
  else visit_range visit name fs sequence (Some through) s.

(** [validate_archive]: the archive that the active stream links to exists. *)
Definition validate_archive (fs : Files) : result unit io_error :=
  match active fs with
  | None => Ok tt
  | Some bs =>
      match checkpoint_header bs with
      | Err e => Err e
      | Ok (Some state, _, _) =>
          match archives fs !! ar_file (rc_archive state) with Some _ => Ok tt | None => Err NotFound end
      | Ok (None, _, _) => Ok tt
      end
  end.
End History.
