(* ===== verification/Replay.v ===== *)
(** * Rebuilding the projections

    [uniterm-server/src/eventlog.rs]: one pass over the stream per projection,
    from an empty one or from a checkpoint, the recovery of structure after a
    snapshot, and [RecoveredProjections] of [server/event_projection.rs], which
    loads all of them. The state of a pass also counts what it applied. *)

From S2P Require Import Prelude Layout Arrange Events Tasks Waiting Instruction Artifact RunGraph Privacy EventLog History.

(** ** Tasks *)

Definition task_id (e : LogEvent) : option N :=
  match e with
  | Log.TaskCreated id _ _ | Log.TaskStatusChanged id _ | Log.TaskRetitled id _
  | Log.TaskDetailsUpdated id _ _ => Some id
  | _ => None
  end.

(** The match of [replay_tasks_reader_scoped]: the list, and whether it changed. *)
Definition task_change (r : DecodedRecord) (tasks : TaskList) : TaskList * bool :=
  match r_event r with
  | Log.RecoveryCheckpoint state => (rc_tasks state, false)
  | Log.AgentResumed pane _ _ _ (Some previous) _ _ _ =>
      match r_sequence r with
      | Some sequence =>
          let '(tasks, n) := Tasks.rebind_invocation tasks pane previous sequence in (tasks, negb (n =? 0))
      | None => (tasks, false)
      end
  | Log.TaskCreated id title status => (Tasks.insert tasks id title status, true)
  | Log.TaskStatusChanged id status => Tasks.set_status tasks id status
  | Log.TaskRetitled id title => Tasks.set_title tasks id title
  | Log.TaskDetailsUpdated id notes context => Tasks.set_details tasks id notes context
  | Log.TaskDeleted id => Tasks.remove tasks id
  | _ => (tasks, false)
  end.

Definition count (b : bool) : N := if b then 1 else 0.

Definition tasks_step (r : DecodedRecord) (s : TaskList * N) : TaskList * N :=
  let '(tasks, changed) := task_change r s.1 in
  (match task_id (r_event r) with
   | Some id => Tasks.touch tasks id (default id (r_sequence r))
   | None => tasks
   end, s.2 + count changed).

(** ** The attention queue *)

Definition is_some {X} (o : option X) : bool := match o with Some _ => true | None => false end.

Definition waiting_step (r : DecodedRecord) (s : WaitingQueue * N) : WaitingQueue * N :=
  match r_event r with
  | Log.RecoveryCheckpoint state => (rc_waiting state, s.2)
  | Log.WaitingCreated item => (Waiting.insert s.1 item, s.2 + 1)
  | Log.WaitingResolved id _ =>
      let '(q, item) := Waiting.resolve s.1 id in (q, s.2 + count (is_some item))
  | Log.WaitingUpdated id summary =>
      let '(q, b) := Waiting.update_summary s.1 id summary in (q, s.2 + count b)
  | _ => s
  end.

(** ** Queued instructions *)

Definition instructions_step (r : DecodedRecord) (s : InstructionQueue * N) : InstructionQueue * N :=
  match r_event r with
  | Log.RecoveryCheckpoint state => (rc_instructions state, s.2)
  | Log.InstructionQueued item => (Instruction.insert s.1 item, s.2 + 1)
  | Log.InstructionReplaced replaced item =>
      let '(q, b) := Instruction.replace s.1 replaced item in
      (if b then q else Instruction.insert q item, s.2 + 1)
  | Log.InstructionCanceled id _ =>
      let '(q, item) := Instruction.remove s.1 id in (q, s.2 + count (is_some item))
  | Log.InstructionDelivery id delivery_id _ accepted =>
      let q := Instruction.observe_delivery_id s.1 delivery_id in
      if accepted then let '(q, item) := Instruction.remove q id in (q, s.2 + count (is_some item))
      else (q, s.2)
  | _ => s
  end.

(** ** Numbered passes *)

(** [synthetic_sequence] and the number of the record. *)
Definition number (synthetic : N) (r : DecodedRecord) : N * N :=
  let synthetic := sadd u64_max synthetic 1 in (synthetic, default synthetic (r_sequence r)).

(** The state of a pass with a cursor: the projection, what it applied, the
    count of records, and the error that ends it. *)
Record Pass (X : Type) : Type := { p_state : X; p_applied : N; p_synthetic : N; p_error : option str }.
Arguments p_state {X}. Arguments p_applied {X}. Arguments p_synthetic {X}. Arguments p_error {X}.

Definition start_pass {X} (x : X) : Pass X :=
  {| p_state := x; p_applied := 0; p_synthetic := 0; p_error := None |}.

Section Pass.
Context {X Ev : Type} (checkpointed : RecoveryCheckpoint -> X) (change : LogEvent -> option Ev)
  (apply : X -> Ev -> X * result unit str) (after : N).

(** [replay_run_graph_reader] and [replay_artifacts_reader], which differ in the
    projection and its events. *)
Definition pass_step (r : DecodedRecord) (s : Pass X) : Pass X :=
  let '(synthetic, sequence) := number (p_synthetic s) r in
  if (sequence <=? after) || is_some (p_error s) then
    {| p_state := p_state s; p_applied := p_applied s; p_synthetic := synthetic; p_error := p_error s |}
  else
    let state := match r_event r with Log.RecoveryCheckpoint c => checkpointed c | _ => p_state s end in
    match change (r_event r) with
    | Some ev =>
        match apply state ev with
        | (state, Ok _) => {| p_state := state; p_applied := p_applied s + 1; p_synthetic := synthetic; p_error := None |}
        | (state, Err e) => {| p_state := state; p_applied := p_applied s; p_synthetic := synthetic; p_error := Some e |}
        end
    | None => {| p_state := state; p_applied := p_applied s; p_synthetic := synthetic; p_error := None |}
    end.
End Pass.

Definition graph_change (e : LogEvent) : option RunGraphEvent :=
  match e with Log.RunGraph change => Some change | _ => None end.

Definition ledger_change (e : LogEvent) : option ArtifactEvent :=
  match e with Log.ArtifactLedger change => Some change | _ => None end.

Definition run_graph_step : N -> DecodedRecord -> Pass RunGraph.RunGraph -> Pass RunGraph.RunGraph :=
  pass_step rc_run_graph graph_change RunGraph.apply.

Definition artifacts_step : N -> DecodedRecord -> Pass Artifact.ArtifactLedger -> Pass Artifact.ArtifactLedger :=
  pass_step rc_artifacts ledger_change Artifact.apply.

Definition end_pass {X} (what : str) (r : result (Pass X) io_error) : result (X * N) io_error :=
  match r with
  | Err e => Err e
  | Ok p =>
      match p_error p with
      | Some error => Err (InvalidData (lit "invalid " ++ what ++ lit " event: " ++ error))
      | None => Ok (p_state p, p_applied p)
      end
  end.

(** ** Orchestrations *)

(** A [BTreeMap] collected from the runs. *)
Definition by_task (runs : list DurableOrchestration) : gmap N DurableOrchestration :=
  foldl (fun m run => <[do_task_id run := run]> m) ∅ runs.

Definition orchestrations_step (r : DecodedRecord) (active : gmap N DurableOrchestration)
    : gmap N DurableOrchestration :=
  match r_event r with
  | Log.RecoveryCheckpoint state => by_task (rc_runs state)
  | Log.OrchestrationProjected run => <[do_task_id run := run]> active
  | Log.OrchestrationFinished _ task_id _ => base.delete task_id active
  | _ => active
  end.

(** ** Invocations *)

Definition invocation_change (sequence : N) (e : LogEvent) (m : gmap N N) : gmap N N :=
  match e with
  | Log.AgentBound pane _ _ | Log.AgentResumed pane _ _ _ _ _ _ _ => <[pane := sequence]> m
  | Log.AgentUnbound pane | Log.PaneClosed pane => base.delete pane m
  | _ => m
  end.

(** The map and the count of records. *)
Definition invocations_step (through : N) (r : DecodedRecord) (s : gmap N N * N) : gmap N N * N :=
  let '(synthetic, sequence) := number s.2 r in
  (if sequence <=? through then invocation_change sequence (r_event r) s.1 else s.1, synthetic).

(** ** Structure *)

(** [iter_mut().find(p)] followed by an update; [None] if nothing was found. *)
Fixpoint update_first {X} (p : X -> bool) (f : X -> X) (l : list X) : option (list X) :=
  match l with
  | [] => None
  | x :: l => if p x then Some (f x :: l) else cons x <$> update_first p f l
  end.

Definition set_root (root : str) (p : StructuralProject) : StructuralProject := {|
  sj_id := sj_id p; sj_name := sj_name p; sj_root := root; sj_active_pane := sj_active_pane p;
  sj_metadata := sj_metadata p |}.

Definition set_tab (mode : PaneLayout) (parent : option N) (expanded : bool) (w : StructuralWindow)
    : StructuralWindow := {|
  sw_stack_expanded := expanded; sw_stack_parent := parent; sw_layout_mode := mode;
  sw_project := sw_project w; sw_layout := sw_layout w; sw_active := sw_active w;
  sw_zoomed := sw_zoomed w; sw_name := sw_name w; sw_panes := sw_panes w |}.

Definition set_panes (panes : list StructuralPane) (w : StructuralWindow) : StructuralWindow := {|
  sw_stack_expanded := sw_stack_expanded w; sw_stack_parent := sw_stack_parent w;
  sw_layout_mode := sw_layout_mode w; sw_project := sw_project w; sw_layout := sw_layout w;
  sw_active := sw_active w; sw_zoomed := sw_zoomed w; sw_name := sw_name w; sw_panes := panes |}.

Definition set_agent (launch : option AgentLaunch) (args : list str) (p : StructuralPane) : StructuralPane := {|
  sp_id := sp_id p; sp_cwd := sp_cwd p; sp_metadata := sp_metadata p; sp_launch_args := args;
  sp_agent_launch := launch |}.

Definition with_projects (s : StructuralProjection) (l : list StructuralProject) : StructuralProjection := {|
  sr_active_window := sr_active_window s; sr_next_pane_id := sr_next_pane_id s;
  sr_active_project := sr_active_project s; sr_next_project_id := sr_next_project_id s;
  sr_projects := l; sr_windows := sr_windows s |}.

Definition with_windows (s : StructuralProjection) (l : list StructuralWindow) : StructuralProjection := {|
  sr_active_window := sr_active_window s; sr_next_pane_id := sr_next_pane_id s;
  sr_active_project := sr_active_project s; sr_next_project_id := sr_next_project_id s;
  sr_projects := sr_projects s; sr_windows := l |}.

(** The first Pane with an identity, over all windows. *)
Fixpoint update_pane (id : N) (f : StructuralPane -> StructuralPane) (ws : list StructuralWindow)
    : option (list StructuralWindow) :=
  match ws with
  | [] => None
  | w :: ws =>
      match update_first (fun p => sp_id p =? id) f (sw_panes w) with
      | Some panes => Some (set_panes panes w :: ws)
      | None => cons w <$> update_pane id f ws
      end
  end.

(** What an observed session does to a launch profile. *)
Definition observe_session (provider : str) (session_id : option str) (resume_command : list str)
    (launch : option AgentLaunch) : AgentLaunch :=
  let profile := default {| l_provider := provider; l_session_id := None; l_resume_command := [] |} launch in
  if str_eqb (l_provider profile) provider then
    let resume :=
      match l_session_id profile, session_id with
      | Some old, Some new => if str_eqb old new then l_resume_command profile else []
      | _, _ => l_resume_command profile
      end in
    {| l_provider := l_provider profile;
       l_session_id := match session_id with Some _ => session_id | None => l_session_id profile end;
       l_resume_command := match resume_command with [] => resume | _ => resume_command end |}
  else profile.

Definition agent_update (e : LogEvent) (p : StructuralPane) : StructuralPane :=
  match e with
  | Log.AgentBound _ agent _ =>
      set_agent (Some {| l_provider := agent; l_session_id := None; l_resume_command := [] |}) (sp_launch_args p) p
  | Log.AgentResumed _ provider session_id resume_command _ _ _ _ =>
      set_agent (Some {| l_provider := provider; l_session_id := session_id; l_resume_command := resume_command |})
        (sp_launch_args p) p
  | Log.AgentSessionObserved _ provider session_id resume_command _ =>
      set_agent (Some (observe_session provider session_id resume_command (sp_agent_launch p))) (sp_launch_args p) p
  | Log.AgentUnbound _ => set_agent None [] p
  | Log.PaneLaunchProfileCleared _ => set_agent (sp_agent_launch p) [] p
  | _ => p
  end.

Definition agent_pane (e : LogEvent) : option N :=
  match e with
  | Log.AgentBound pane _ _ | Log.AgentResumed pane _ _ _ _ _ _ _ | Log.AgentSessionObserved pane _ _ _ _
  | Log.AgentUnbound pane | Log.PaneLaunchProfileCleared pane => Some pane
  | _ => None
  end.

(** The update an event makes to a known structure, [None] if it finds no place. *)
Definition structure_update (e : LogEvent) (s : StructuralProjection) : option StructuralProjection :=
  match e with
  | Log.ProjectDirectoryChanged project root =>
      with_projects s <$> update_first (fun p => sj_id p =? project) (set_root root) (sr_projects s)
  | Log.TabConfigured pane stack_expanded layout_mode stack_parent =>
      with_windows s <$> update_first (fun w => LayoutNode.contains_pane (sw_layout w) pane)
        (set_tab layout_mode stack_parent stack_expanded) (sr_windows s)
  | _ =>
      match agent_pane e with
      | Some pane => with_windows s <$> update_pane pane (agent_update e) (sr_windows s)
      | None => None
      end
  end.

Definition updates_structure (e : LogEvent) : bool :=
  match e with
  | Log.ProjectDirectoryChanged _ _ | Log.TabConfigured _ _ _ _ => true
  | _ => is_some (agent_pane e)
  end.

(** The structure an event carries itself. *)
Definition carried (e : LogEvent) : option StructuralProjection :=
  match e with
  | Log.WorkspaceProjected state => Some state
  | Log.AgentResumed _ _ _ _ _ _ _ (Some state) => Some state
  | _ => None
  end.

(** [latest], or the structure of the snapshot. *)
Definition start_latest (checkpoint : option Snapshot) (latest : option (N * StructuralProjection))
    : option (N * StructuralProjection) :=
  match latest with
  | Some _ => latest
  | None => (fun s => (sn_event_sequence s, from_snapshot s)) <$> checkpoint
  end.

(** An update that finds its place moves the cursor. *)
Definition update_latest (sequence : N) (e : LogEvent) (latest : option (N * StructuralProjection))
    : option (N * StructuralProjection) :=
  match latest with
  | Some (cursor, s) =>
      match structure_update e s with
      | Some s => Some (sequence, s)
      | None => Some (cursor, s)
      end
  | None => None
  end.

(** [latest] after an event that counts. *)
Definition structure_change (checkpoint : option Snapshot) (sequence : N) (e : LogEvent)
    (latest : option (N * StructuralProjection)) : option (N * StructuralProjection) :=
  match e with
  | Log.RecoveryCheckpoint state => (fun s => (sequence, s)) <$> rc_structure state
  | _ =>
      let latest := match carried e with Some s => Some (sequence, s) | None => latest end in
      if updates_structure e then update_latest sequence e (start_latest checkpoint latest) else latest
  end.

(** [latest], the previous number and the count of records. *)
Record Structure : Set := {
  latest : option (N * StructuralProjection); s_previous : N; s_synthetic : N }.

Definition checkpoint_sequence (checkpoint : option Snapshot) : N :=
  match checkpoint with Some s => sn_event_sequence s | None => 0 end.

Definition structure_step (checkpoint : option Snapshot) (r : DecodedRecord) (s : Structure) : Structure :=
  let '(synthetic, sequence) := number (s_synthetic s) r in
  if negb (s_previous s =? 0) && negb (sequence =? sadd u64_max (s_previous s) 1) then
    {| latest := latest s; s_previous := u64_max; s_synthetic := synthetic |}
  else
    {| latest := if sequence <=? checkpoint_sequence checkpoint then latest s
                 else structure_change checkpoint sequence (r_event r) (latest s);
       s_previous := sequence; s_synthetic := synthetic |}.

(** ** The passes *)

Section Replay.
Context {A : Aead} {SJ : SealedJson} {LJ : LogJson} {SH : Sha256}.

Definition replay_tasks (file : option (list N)) (name : str) (tasks : TaskList) : result (TaskList * N) io_error :=
  match file with Some bs => for_each_record tasks_step bs (Some name) (tasks, 0) | None => Ok (tasks, 0) end.

Definition replay_waiting (file : option (list N)) (name : str) (q : WaitingQueue) : result (WaitingQueue * N) io_error :=
  match file with Some bs => for_each_record waiting_step bs (Some name) (q, 0) | None => Ok (q, 0) end.

Definition replay_instructions (file : option (list N)) (name : str) (q : InstructionQueue)
    : result (InstructionQueue * N) io_error :=
  match file with Some bs => for_each_record instructions_step bs (Some name) (q, 0) | None => Ok (q, 0) end.

Definition replay_run_graph (file : option (list N)) (name : str) (after : N) (g : RunGraph.RunGraph)
    : result (RunGraph.RunGraph * N) io_error :=
  match file with
  | Some bs => end_pass (lit "run graph") (for_each_record (run_graph_step after) bs (Some name) (start_pass g))
  | None => Ok (g, 0)
  end.

Definition replay_artifacts (file : option (list N)) (name : str) (after : N) (l : Artifact.ArtifactLedger)
    : result (Artifact.ArtifactLedger * N) io_error :=
  match file with
  | Some bs => end_pass (lit "artifact ledger") (for_each_record (artifacts_step after) bs (Some name) (start_pass l))
  | None => Ok (l, 0)
  end.

Definition replay_orchestrations (file : option (list N)) (name : str) : result (list DurableOrchestration) io_error :=
  match file with
  | Some bs =>
      match for_each_record orchestrations_step bs (Some name) ∅ with
      | Ok active => Ok (values active)
      | Err e => Err e
      end
  | None => Ok []
  end.

Definition replay_invocations (fs : Files) (name : str) (through : N) : result (gmap N N) io_error :=
  match active fs with
  | None => Ok ∅
  | Some bs =>
      match checkpoint_header bs with
      | Err e => Err e
      | Ok (checkpoint, _, rest) =>
          if match checkpoint with Some c => through <? rc_through c | None => false end then
            visit_through (fun e m => Ok (invocation_change (ev_sequence e) (ev_event e) m)) name fs 0 through ∅
          else
            let start := match checkpoint with Some c => (rc_invocations c, rc_through c) | None => (∅, 0) end in
            match for_each_record (invocations_step through) rest (Some name) start with
            | Ok (m, _) => Ok m
            | Err e => Err e
            end
      end
  end.

Definition recover_snapshot (file : option (list N)) (name : str) (checkpoint : option Snapshot)
    : result (option Snapshot) io_error :=
  match file with
  | None => Ok checkpoint
  | Some bs =>
      match for_each_record (structure_step checkpoint) bs (Some name)
              {| latest := None; s_previous := 0; s_synthetic := 0 |} with
      | Err e => Err e
      | Ok s =>
          if s_previous s =? u64_max then
            Err (InvalidData (lit "event sequence is duplicate, out of order, or contains a gap"))
          else Ok (match latest s with
            | Some (sequence, state) => Some (into_snapshot state checkpoint sequence)
            | None => checkpoint
            end)
      end
  end.

(** [RecoveredProjections::load], from the snapshot that was found. *)
Record Recovered : Set := {
  v_invocations : gmap N N; v_snapshot : option Snapshot; v_tasks : TaskList; v_waiting : WaitingQueue;
  v_instructions : InstructionQueue; v_run_graph : RunGraph.RunGraph; v_artifacts : Artifact.ArtifactLedger;
  v_runs : list DurableOrchestration }.

#[local] Notation "'let?' x := a 'in' b" := (match a with Ok x => b | Err e => Err e end)
  (at level 200, x pattern, b at level 200).

Definition load (fs : Files) (name : str) (checkpoint : option Snapshot) : result Recovered io_error :=
  let? snapshot := match checkpoint with
    | Some _ => recover_snapshot (active fs) name checkpoint
    | None => Ok None
    end in
  let? invocations := match snapshot with
    | Some s => replay_invocations fs name (sn_event_sequence s)
    | None => Ok ∅
    end in
  let? tasks := replay_tasks (active fs) name Tasks.new in
  let? waiting := replay_waiting (active fs) name Waiting.new in
  let? instructions := replay_instructions (active fs) name Instruction.new in
  let? run_graph := match snapshot with
    | Some s => replay_run_graph (active fs) name (sn_run_graph_sequence s) (sn_run_graph s)
    | None => replay_run_graph (active fs) name 0 RunGraph.new
    end in
  let? artifacts := match snapshot with
    | Some s => replay_artifacts (active fs) name (sn_artifact_sequence s) (sn_artifacts s)
    | None => replay_artifacts (active fs) name 0 Artifact.new
    end in
  let? runs := replay_orchestrations (active fs) name in
  Ok {| v_invocations := invocations; v_snapshot := snapshot; v_tasks := tasks.1; v_waiting := waiting.1;
        v_instructions := instructions.1; v_run_graph := run_graph.1; v_artifacts := artifacts.1; v_runs := runs |}.

(** ** Compaction *)

(** The record that heads the compacted stream. *)
Definition checkpoint_envelope (name : str) (state : RecoveryCheckpoint) : EventEnvelope := {|
  ev_version := EVENT_VERSION; ev_sequence := rc_through state; ev_timestamp_ms := 0; ev_workspace := name;
  ev_event := Log.RecoveryCheckpoint state |}.

Definition archive_name (through : N) : str := lit "events-" ++ dec through ++ lit ".log".

(** [compact_at]: [None] if there is nothing to do, else the files once the
    archive is published and the files once the checkpoint replaced the stream;
    a crash leaves the files as they were, or one of these two. *)
Definition compact (name : str) (nonce : list N) (fs : Files) : result (option (Files * Files)) io_error :=
  if negb (verify (pending_protection fs) (marker fs)) then Err (OtherError (lit "Workspace is locked"))
  else
  let? _ := validate_archive fs in
  match active fs with
  | None => Ok None
  | Some bs =>
      let? consistent := consistent_prefix_len bs name in
      if negb (consistent =? length bs)%nat then
        Err (invalid (lit "repair the event stream before compacting it"))
      else
      let? (prior, _, _) := checkpoint_header bs in
      let through := current_sequence (open_log name (Some bs)) in
      if (through =? 0) || match prior with Some p => rc_through p =? through | None => false end then Ok None
      else
      let? tasks := replay_tasks (Some bs) name Tasks.new in
      let? waiting := replay_waiting (Some bs) name Waiting.new in
      let? instructions := replay_instructions (Some bs) name Instruction.new in
      let? run_graph := replay_run_graph (Some bs) name 0 RunGraph.new in
      let? artifacts := replay_artifacts (Some bs) name 0 Artifact.new in
      let? runs := replay_orchestrations (Some bs) name in
      let? invocations := replay_invocations fs name through in
      let? snapshot := recover_snapshot (Some bs) name None in
      let? sum := digest bs in
      let? fs1 :=
        match archives fs !! archive_name through with
        | Some existing =>
            let? sum' := digest existing in
            if str_eqb sum' sum then Ok fs
            else Err (invalid (lit "existing event archive does not match active stream"))
        | None => Ok (with_archive fs (archive_name through) bs)
        end in
      let state := {| rc_version := CHECKPOINT_VERSION; rc_through := through;
        rc_archive := {| ar_file := archive_name through; ar_sha256 := sum |};
        rc_structure := from_snapshot <$> snapshot; rc_tasks := tasks.1; rc_waiting := waiting.1;
        rc_instructions := instructions.1; rc_run_graph := run_graph.1; rc_artifacts := artifacts.1;
        rc_runs := runs; rc_invocations := invocations |} in
      match to_json (checkpoint_envelope name state) with
      | None => Err (OtherError (lit "serialization failed"))
      | Some json =>
          match encode_line (is_protected fs) nonce (json ++ [10]) with
          | None => Err (OtherError (lit "state encryption failed"))
          | Some line => Ok (Some (fs1, with_active fs1 (utf8 line)))
          end
      end
  end.
End Replay.
