(* ===== verification/ReplaySpec.v ===== *)
(** * Recovery after a compaction

    A compacted stream recovers to what the whole stream recovers to, whatever
    was appended later, and readers of history still find every record. *)

From S2P Require Import Prelude Utf8 Decimal Lines Events Tasks Waiting Instruction Artifact RunGraph Privacy EventLog EventLogSpec History Replay.

(** A SHA-256 prints as 64 hexadecimal digits. *)
Class Sha256Laws {SH : Sha256} : Prop :=
  sha256_hex bs : len8 (sha256 bs) = 64 /\ forallb is_ascii_hexdigit (utf8 (sha256 bs)) = true.

Section Spec.
Context {A : Aead} {SJ : SealedJson} {LJ : LogJson} {LL : LogJsonLaws} {SL : SealedLaws} {SH : Sha256}
  {SHL : Sha256Laws}.

(** ** Passes over a trail *)

(** A pass over envelopes. *)
Definition pass {S} (step : DecodedRecord -> S -> S) (s : S) (es : list EventEnvelope) : S :=
  foldl (fun s e => step (decoded_of e) s) s es.

Lemma holds_for_each {S} (step : DecodedRecord -> S -> S) cs es ls owner s : Forall2 holds cs es -> owned owner es ->
  for_each_loop step (map chomp cs ++ ls) owner s = for_each_loop step ls (owner_after owner es) (pass step s es).
Proof.
  intros Hcs. revert owner s. induction Hcs as [|c e cs es (Hc & line & Hl & Hd)%holds_decode Hcs IH]; intros owner s; [done|].
  intros [Hck Ho]. destruct (chomp_decode _ _ _ Hc Hl Hd) as (line' & Hl' & Hd'). cbn [map app for_each_loop].
  rewrite Hl', Hd', Hck, IH by done. by rewrite (owner_after_cons owner).
Qed.

(** A stream of envelopes that are numbered from [i + 1] and belong to [name]
    at its end. *)
Record trail (i : N) (f : list N) (es : list EventEnvelope) (name : str) : Prop := {
  t_chunks : exists cs, f = concat cs /\ Forall2 holds cs es;
  t_numbered : numbered i es;
  t_bound : i + N.of_nat (length es) < u64_max;
  t_owned : owned None es;
  t_name : owner_after None es = Some name }.

(** What is appended to a trail. *)
Record extends (i : N) (name : str) (cs : list (list N)) (es : list EventEnvelope) (w : str) : Prop := {
  x_chunks : Forall2 holds cs es;
  x_numbered : numbered i es;
  x_bound : i + N.of_nat (length es) < u64_max;
  x_owned : owned (Some name) es;
  x_name : owner_after (Some name) es = Some w }.

Lemma owner_after_app owner es es' : owner_after owner (es ++ es') = owner_after (owner_after owner es) es'.
Proof. unfold owner_after. rewrite last_app. by destruct (last es'), (last es). Qed.

Lemma owned_app_iff owner es es' : owned owner (es ++ es') <-> owned owner es /\ owned (owner_after owner es) es'.
Proof.
  revert owner. induction es as [|e es IH]; intros owner; cbn [app owned]; [unfold owner_after; cbn; tauto|].
  rewrite IH, (owner_after_cons owner). tauto.
Qed.

Lemma numbered_app i es es' : numbered i es -> numbered (i + N.of_nat (length es)) es' -> numbered i (es ++ es').
Proof.
  intros H H' j e He. destruct (decide (j < length es)%nat) as [Hj|Hj].
  - rewrite lookup_app_l in He by done. by apply H.
  - rewrite lookup_app_r in He by lia. rewrite (H' _ _ He). lia.
Qed.

Lemma trail_extends i f es name cs later w :
  trail i f es name -> extends (i + N.of_nat (length es)) name cs later w -> trail i (f ++ concat cs) (es ++ later) w.
Proof.
  intros [(ds & -> & Hds) Hn Hb Ho Hw] [Hcs Hn' Hb' Ho' Hw']. constructor.
  - exists (ds ++ cs). rewrite concat_app. split; [done|]. by apply Forall2_app.
  - by apply numbered_app.
  - rewrite length_app. lia.
  - apply owned_app_iff. by rewrite Hw.
  - by rewrite owner_after_app, Hw.
Qed.

Lemma for_each_file {S} (step : DecodedRecord -> S -> S) i f es w s : trail i f es w ->
  for_each_record step f (Some w) s = Ok (pass step s es).
Proof.
  intros [(cs & -> & Hcs) _ _ Ho Hw]. unfold for_each_record, lines. rewrite chunks_concat by by eapply holds_records.
  rewrite <- (app_nil_r (map chomp cs)), (holds_for_each step cs es) by done. cbn [for_each_loop]. rewrite Hw.
  by rewrite bool_decide_eq_true_2.
Qed.

(** A pass looks only at what [view] shows. *)
Lemma pass_view {S X} (step : DecodedRecord -> S -> S) (view : S -> X) es s s' :
  (forall e s s', e ∈ es -> view s = view s' -> view (step (decoded_of e) s) = view (step (decoded_of e) s')) ->
  view s = view s' -> view (pass step s es) = view (pass step s' es).
Proof.
  revert s s'. induction es as [|e es IH]; intros s s' Hstep H; [done|]. cbn. apply IH.
  - intros. by apply Hstep; [apply list_elem_of_further|].
  - apply Hstep; [apply list_elem_of_here|done].
Qed.

Lemma pass_app {S} (step : DecodedRecord -> S -> S) s es es' : pass step s (es ++ es') = pass step (pass step s es) es'.
Proof. apply foldl_app. Qed.

Lemma numbered_pos i es e : numbered i es -> e ∈ es -> i < ev_sequence e <= i + N.of_nat (length es).
Proof.
  intros Hn [j Hj]%list_elem_of_lookup. rewrite (Hn j e Hj). apply lookup_lt_Some in Hj. lia.
Qed.

(** ** Headers *)

Lemma decode_line_space l c json : c = 10 \/ c = 13 -> decode_line l = Some json ->
  exists json', decode_line (l ++ [c]) = Some json' /\ envelope_from_json json' = envelope_from_json json.
Proof.
  intros Hc. unfold decode_line. rewrite starts_with_space, sealed_space by done.
  destruct (starts_with SEALED l); cbn [negb]; [intros H; by exists json|].
  intros [= <-]. exists (l ++ [c]). split; [done|]. by apply envelope_space.
Qed.

(** The header of a stream whose first chunk holds an envelope. *)
Lemma header_holds c e rest : holds c e -> is_Some (owner_after None [e]) -> owned None [e] ->
  checkpoint_header (c ++ rest) =
    match ev_event e with
    | Log.RecoveryCheckpoint state => Ok (Some state, Some (ev_workspace e), rest)
    | _ => Ok (None, Some (ev_workspace e), c ++ rest)
    end.
Proof.
  intros (Hc & _ & Hv & line & json & Hl & Hd & He) _ [Hck _]. unfold checkpoint_header.
  destruct Hc as (l & -> & Hnl). rewrite body_app in Hl. rewrite chunks_record_app by done. cbn [head from_option].
  unfold id. assert (Ht : from_utf8 (l ++ [10]) = Some (line ++ [10])).
  { apply utf8_from_utf8 in Hl as [Hu Hf]. rewrite <- Hu. change [10] with (utf8 [10]) at 1. rewrite <- utf8_app.
    apply from_utf8_utf8, Forall_app. split; [done|]. by repeat constructor. }
  rewrite Ht. destruct (decode_line_space line 10 json (or_introl eq_refl) Hd) as (json' & -> & Hj).
  rewrite Hj, He. cbn [fmap option_fmap option_map].
  unfold check_record in Hck. cbn [decoded_of r_event r_sequence r_workspace] in Hck.
  destruct (ev_event e); try done. rewrite Hv. cbn [negb].
  destruct (validate state (Some (ev_sequence e))); [|done]. by rewrite drop_app_length.
Qed.

(** Only the first envelope of a trail may be a checkpoint. *)
Lemma no_checkpoint owner es e : is_Some owner -> owned owner es -> e ∈ es ->
  match ev_event e with Log.RecoveryCheckpoint _ => False | _ => True end.
Proof.
  intros Hs. revert owner Hs. induction es as [|x es IH]; intros owner [o ->] Ho; [by intros ?%not_elem_of_nil|].
  destruct Ho as [Hck Ho]. intros [->|Hin]%elem_of_cons; [|by eapply IH].
  unfold check_record in Hck. cbn [decoded_of r_event r_sequence] in Hck.
  destruct (ev_event x); try done. by destruct (validate state _).
Qed.

Lemma check_relax n e o : check_record (Some n) (decoded_of e) = Ok o -> check_record None (decoded_of e) = Ok o.
Proof.
  unfold check_record. cbn [decoded_of r_event r_sequence r_workspace from_option]. unfold id.
  destruct (ev_event e) eqn:E; try (by destruct (validate state _));
    (destruct (decide (n = ev_workspace e)) as [->|H]; [done|]; by rewrite (bool_decide_eq_false_2 (Some n = Some _)) by congruence).
Qed.

Lemma owned_relax n es : owned (Some n) es -> owned None es.
Proof. destruct es as [|e es]; [done|]. intros [Hck Ho]. split; [by eapply check_relax|done]. Qed.

(** The header of a trail: the checkpoint its first envelope may be. *)
Definition head_checkpoint (es : list EventEnvelope) : option RecoveryCheckpoint :=
  match es with
  | e :: _ => match ev_event e with Log.RecoveryCheckpoint c => Some c | _ => None end
  | [] => None
  end.

Definition body_envelopes (es : list EventEnvelope) : list EventEnvelope :=
  match head_checkpoint es with Some _ => tail es | None => es end.

Lemma trail_header i f es name : trail i f es name ->
  exists owner cs, Forall2 holds cs (body_envelopes es)
    /\ forall rest, checkpoint_header (f ++ rest) = Ok (head_checkpoint es, Some owner, concat cs ++ rest).
Proof.
  intros [(cs & -> & Hcs) _ _ Ho Hw]. destruct Hcs as [|c e cs es Hc Hcs]; [done|].
  exists (ev_workspace e). unfold body_envelopes, head_checkpoint.
  assert (Hh : forall rest, checkpoint_header (concat (c :: cs) ++ rest) =
    match ev_event e with
    | Log.RecoveryCheckpoint state => Ok (Some state, Some (ev_workspace e), concat cs ++ rest)
    | _ => Ok (None, Some (ev_workspace e), concat (c :: cs) ++ rest)
    end).
  { intros rest. cbn [concat]. rewrite <- app_assoc. apply header_holds; [done|done|]. destruct Ho. by split. }
  destruct (ev_event e) eqn:E; cbn [tail]; try (exists (c :: cs); split; [by constructor|]; intros rest; by rewrite Hh).
  exists cs. split; [done|]. intros rest. by rewrite Hh.
Qed.

(** A checkpoint stands for the records through its cursor. *)
Lemma head_cursor i f es name c : trail i f es name -> head_checkpoint es = Some c ->
  rc_through c = i + 1 /\ validate c (Some (i + 1)) = Ok tt /\ (0 < length es)%nat.
Proof.
  intros [_ Hn _ Ho _]. destruct es as [|e es]; [done|]. cbn [head_checkpoint]. destruct Ho as [Hck _].
  pose proof (Hn 0%nat e eq_refl) as Hs. unfold check_record in Hck. cbn [decoded_of r_event r_sequence] in Hck.
  destruct (ev_event e); try done. intros [= ->]. replace (i + N.of_nat 0 + 1) with (i + 1) in Hs by lia. rewrite Hs in Hck.
  destruct (validate c (Some (i + 1))) as [[]|] eqn:Hv; [|done]. split; [|split; [done|simpl; lia]].
  unfold validate in Hv. destruct (_ <? _); [done|]. destruct (negb _ || _ || _ || _ || _ || _ || _ || _) eqn:E; [done|].
  repeat (apply orb_false_iff in E as [E ?]).
  match goal with H : negb (bool_decide (Some _ = Some _)) = false |- _ => apply negb_false_iff, bool_decide_eq_true in H end.
  congruence.
Qed.

(** ** Each pass, as a function of the envelopes *)

Lemma explicit_number synthetic e : (number synthetic (decoded_of e)).2 = ev_sequence e.
Proof. done. Qed.

Lemma tasks_view e s s' : s.1 = s'.1 -> (tasks_step (decoded_of e) s).1 = (tasks_step (decoded_of e) s').1.
Proof. intros H. unfold tasks_step. rewrite H. by destruct (task_change _ _). Qed.

Lemma waiting_view e s s' : s.1 = s'.1 -> (waiting_step (decoded_of e) s).1 = (waiting_step (decoded_of e) s').1.
Proof.
  intros H. unfold waiting_step. cbn [decoded_of r_event]. rewrite H.
  destruct (ev_event e); try done; [by destruct (Waiting.resolve _ _)|by destruct (Waiting.update_summary _ _ _)].
Qed.

Lemma instructions_view e s s' : s.1 = s'.1 ->
  (instructions_step (decoded_of e) s).1 = (instructions_step (decoded_of e) s').1.
Proof.
  intros H. unfold instructions_step. cbn [decoded_of r_event]. rewrite H. destruct (ev_event e); try done.
  - by destruct (Instruction.replace _ _ _).
  - by destruct (Instruction.remove _ _).
  - destruct accepted; [|done]. by destruct (Instruction.remove _ _).
Qed.

Definition pass_view_of {X} (s : Pass X) : X * option str := (p_state s, p_error s).

Lemma pass_step_view {X Ev} checkpointed change (apply : X -> Ev -> X * result unit str) after e s s' :
  pass_view_of s = pass_view_of s' ->
  pass_view_of (pass_step checkpointed change apply after (decoded_of e) s)
    = pass_view_of (pass_step checkpointed change apply after (decoded_of e) s').
Proof.
  unfold pass_view_of. intros [= Hst He]. unfold pass_step. cbn [number decoded_of r_sequence r_event from_option].
  rewrite Hst, He. destruct (_ || _); [done|]. destruct (change (ev_event e)); [|done]. by destruct (apply _ _) as [? []].
Qed.

(** At a checkpoint a pass takes the projection it carries. *)
Lemma pass_step_checkpoint {X Ev} checkpointed change (apply : X -> Ev -> X * result unit str) e c s :
  ev_event e = Log.RecoveryCheckpoint c -> change (ev_event e) = None -> 0 < ev_sequence e -> p_error s = None ->
  pass_view_of (pass_step checkpointed change apply 0 (decoded_of e) s) = (checkpointed c, None).
Proof.
  intros He Hc Hs Herr. unfold pass_step. cbn [number decoded_of r_sequence r_event from_option]. unfold id.
  rewrite Herr. destruct (N.leb_spec (ev_sequence e) 0); [lia|]. cbn [orb is_some]. by rewrite Hc, He.
Qed.

Definition structure_view (s : Structure) : option StructuralProjection * N := (snd <$> latest s, s_previous s).

Lemma update_latest_view sequence e l l' : snd <$> l = snd <$> l' ->
  snd <$> update_latest sequence e l = snd <$> update_latest sequence e l'.
Proof.
  destruct l as [[c s]|], l' as [[c' s']|]; try done. cbn. intros [= ->]. by destruct (structure_update e s').
Qed.

Lemma structure_change_view sequence e l l' : snd <$> l = snd <$> l' ->
  snd <$> structure_change None sequence e l = snd <$> structure_change None sequence e l'.
Proof.
  intros H. assert (Hm : snd <$> match carried e with Some s => Some (sequence, s) | None => l end
    = snd <$> match carried e with Some s => Some (sequence, s) | None => l' end) by by destruct (carried e).
  assert (Hstart : forall m, start_latest None m = m) by by intros [|].
  assert (Hgoal : snd <$> (if updates_structure e then update_latest sequence e (start_latest None (match carried e with Some s => Some (sequence, s) | None => l end)) else (match carried e with Some s => Some (sequence, s) | None => l end))
    = snd <$> (if updates_structure e then update_latest sequence e (start_latest None (match carried e with Some s => Some (sequence, s) | None => l' end)) else (match carried e with Some s => Some (sequence, s) | None => l' end))).
  { destruct (updates_structure e); [|done]. rewrite !Hstart. by apply update_latest_view. }
  by destruct e.
Qed.

Lemma structure_step_view e s s' : structure_view s = structure_view s' ->
  structure_view (structure_step None (decoded_of e) s) = structure_view (structure_step None (decoded_of e) s').
Proof.
  unfold structure_view. intros [= Hl Hp]. unfold structure_step. cbn [number decoded_of r_sequence r_event from_option].
  rewrite Hp. destruct (_ && _); cbn [latest s_previous]; [by rewrite Hl|]. f_equal.
  destruct (_ <=? _); [done|]. by apply structure_change_view.
Qed.

(** The previous number of a pass over a trail is the last one. *)
Lemma structure_previous i es s : numbered i es -> i + N.of_nat (length es) < u64_max ->
  (s_previous s = 0 \/ s_previous s = i) ->
  s_previous (pass (structure_step None) s es) = match es with [] => s_previous s | _ => i + N.of_nat (length es) end.
Proof.
  revert i s. induction es as [|e es IH]; intros i s Hn Hb Hp; [done|]. apply numbered_cons in Hn as [Hs Hn].
  cbn [length] in *. cbn [pass foldl].
  assert (Hprev : s_previous (structure_step None (decoded_of e) s) = i + 1).
  { unfold structure_step. cbn [number decoded_of r_sequence from_option]. unfold id. rewrite Hs.
    replace (negb (s_previous s =? 0) && negb (i + 1 =? sadd u64_max (s_previous s) 1)) with false; [done|].
    symmetry. apply andb_false_iff. rewrite !negb_false_iff, !N.eqb_eq. destruct Hp as [Hp|Hp]; [by left|right].
    rewrite Hp, sadd_small; [done|]. lia. }
  fold (pass (structure_step None) (structure_step None (decoded_of e) s) es).
  rewrite (IH (i + 1)); [|done|lia|by right]. destruct es; cbn [length]; [rewrite Hprev|]; lia.
Qed.

(** ** Invocations *)

(** The map after an envelope, in a pass through a cursor. *)
Definition invocation_env (through : N) (m : gmap N N) (e : EventEnvelope) : gmap N N :=
  match ev_event e with
  | Log.RecoveryCheckpoint c => rc_invocations c
  | event => if ev_sequence e <=? through then invocation_change (ev_sequence e) event m else m
  end.

Lemma invocations_pass through owner es s : is_Some owner \/ head_checkpoint es = None -> owned owner es ->
  (pass (invocations_step through) s es).1 = foldl (invocation_env through) s.1 es.
Proof.
  revert owner s. induction es as [|e es IH]; intros owner s Ho Hown; [done|].
  assert (Hc : match ev_event e with Log.RecoveryCheckpoint _ => False | _ => True end).
  { destruct Ho as [Ho|Ho]; [|by destruct (ev_event e) eqn:E; cbn in Ho; rewrite ?E in Ho].
    eapply (no_checkpoint owner (e :: es) e Ho); [done|left]. }
  destruct Hown as [Hck Hown].
  cbn [pass foldl]. fold (pass (invocations_step through) (invocations_step through (decoded_of e) s) es).
  rewrite (IH (Some (next_owner e))); [|by left|done]. f_equal.
  unfold invocations_step. cbn [number decoded_of r_sequence r_event from_option]. unfold id.
  cbn [fst]. unfold invocation_env. by destruct (ev_event e), (ev_sequence e <=? through).
Qed.

Lemma replay_invocations_trail fs i f es name through : active fs = Some f -> trail i f es name -> i < through ->
  replay_invocations fs name through = Ok (foldl (invocation_env through) ∅ es).
Proof.
  intros Hf Ht Hle. unfold replay_invocations. rewrite Hf.
  destruct (trail_header i f es name Ht) as (owner & cs & Hcs & Hh). specialize (Hh []). rewrite !app_nil_r in Hh. rewrite Hh.
  destruct (head_checkpoint es) as [c|] eqn:Hc.
  - destruct (head_cursor i f es name c Ht Hc) as (Hthrough & _ & Hlen).
    destruct (N.ltb_spec through (rc_through c)); [lia|].
    unfold body_envelopes in Hcs. rewrite Hc in Hcs. destruct es as [|e es]; [done|]. cbn [tail] in Hcs.
    destruct (t_owned _ _ _ _ Ht) as [Hck Hown].
    pose proof (t_name _ _ _ _ Ht) as Hname. rewrite <- (owner_after_cons None) in Hname.
    unfold for_each_record, lines. rewrite chunks_concat by by eapply holds_records.
    rewrite <- (app_nil_r (map chomp cs)), (holds_for_each _ cs es [] None) by (done || by eapply owned_relax).
    cbn [for_each_loop]. pose proof (invocations_pass through (Some (next_owner e)) es (rc_invocations c, rc_through c)
      (or_introl (mk_is_Some _ _ eq_refl)) Hown) as Hp.
    destruct (pass (invocations_step through) (rc_invocations c, rc_through c) es) as [m n] eqn:Epass. cbn [fst] in Hp.
    assert (Hm : foldl (invocation_env through) ∅ (e :: es) = m).
    { cbn [foldl]. replace (invocation_env through ∅ e) with (rc_invocations c); [by rewrite <- Hp|].
      unfold head_checkpoint in Hc. unfold invocation_env. destruct (ev_event e); try done. by injection Hc as ->. }
    rewrite Hm. unfold owner_after in *. destruct (last es) as [x|]; [injection Hname as ->; by rewrite bool_decide_eq_true_2|done].
  - unfold body_envelopes in Hcs. rewrite Hc in Hcs.
    pose proof (t_owned _ _ _ _ Ht) as Hown. pose proof (invocations_pass through None es (∅, 0) (or_intror Hc) Hown) as Hp.
    unfold for_each_record, lines. rewrite chunks_concat by by eapply holds_records.
    rewrite <- (app_nil_r (map chomp cs)), (holds_for_each _ cs es [] None) by done. cbn [for_each_loop].
    destruct (pass (invocations_step through) (∅, 0) es) as [m n]. cbn [fst] in Hp. rewrite (t_name _ _ _ _ Ht).
    rewrite bool_decide_eq_true_2 by done. by rewrite <- Hp.
Qed.

(** Past the last envelope the cursor makes no difference. *)
Lemma invocation_env_through t t' m es :
  Forall (fun e => ev_sequence e <= t /\ ev_sequence e <= t') es ->
  foldl (invocation_env t) m es = foldl (invocation_env t') m es.
Proof.
  intros Hes. revert m. induction Hes as [|e es [H H'] _ IH]; intros m; [done|]. cbn. rewrite IH. f_equal.
  unfold invocation_env. by rewrite (proj2 (N.leb_le _ _) H), (proj2 (N.leb_le _ _) H').
Qed.

(** ** Structure *)

Lemma map_with_map {S X Y Z} (f : S -> X -> S * Y) (g : Y -> Z) (h : X -> Z) s l :
  (forall s x, g (f s x).2 = h x) -> map g (map_with f s l).2 = map h l.
Proof.
  intros Hf. revert s. induction l as [|x l IH]; intros s; [done|]. cbn. destruct (f s x) as [s1 y] eqn:E.
  specialize (IH s1). destruct (map_with f s1 l) as [s2 ys]. cbn in *. rewrite IH, <- (Hf s x), E. done.
Qed.

(** A snapshot made of a structure has that structure. *)
Lemma from_into_snapshot st previous cursor : from_snapshot (into_snapshot st previous cursor) = st.
Proof.
  unfold from_snapshot, into_snapshot. cbn. destruct st as [aw np ap nj projects windows]. cbn. f_equal.
  rewrite (map_with_map fill_window strip_window id), map_id; [done|].
  intros content w. unfold fill_window. destruct (map_with fill_pane content (sw_panes w)) as [content' panes] eqn:E.
  unfold strip_window. cbn. replace panes with (map_with fill_pane content (sw_panes w)).2 by by rewrite E.
  rewrite (map_with_map fill_pane strip_pane id), map_id; [by destruct w|]. intros c p. by destruct p.
Qed.

(** ** Orchestrations *)

Definition keyed (m : gmap N DurableOrchestration) : Prop := forall k run, m !! k = Some run -> do_task_id run = k.

Lemma keyed_insert m run : keyed m -> keyed (<[do_task_id run := run]> m).
Proof. intros Hm k r [[<- <-]|[_ H]]%lookup_insert_Some; [done|by apply Hm]. Qed.

Lemma by_task_keyed m runs : keyed m -> keyed (foldl (fun m run => <[do_task_id run := run]> m) m runs).
Proof. revert m. induction runs as [|r runs IH]; intros m Hm; [done|]. cbn. by apply IH, keyed_insert. Qed.

Lemma orchestrations_keyed es m : keyed m -> keyed (pass orchestrations_step m es).
Proof.
  revert m. induction es as [|e es IH]; intros m Hm; [done|]. cbn. apply IH. unfold orchestrations_step.
  cbn [decoded_of r_event]. destruct (ev_event e); try done.
  - by apply by_task_keyed.
  - by apply keyed_insert.
  - intros k run [_ H]%lookup_delete_Some. by apply Hm.
Qed.

Lemma by_task_lookup runs (m : gmap N DurableOrchestration) k run : NoDup (map do_task_id runs) -> run ∈ runs -> do_task_id run = k ->
  foldl (fun m run => <[do_task_id run := run]> m) m runs !! k = Some run.
Proof.
  revert m. induction runs as [|r runs IH]; intros m Hnd Hin Hk; [by apply not_elem_of_nil in Hin|].
  cbn in Hnd. apply NoDup_cons in Hnd as [Hr Hnd]. cbn. apply elem_of_cons in Hin as [->|Hin]; [|by apply IH].
  assert (forall m : gmap N DurableOrchestration, m !! k = Some r -> foldl (fun m run => <[do_task_id run := run]> m) m runs !! k = Some r) as Hkeep.
  { clear IH Hnd. rewrite Hk in Hr. induction runs as [|r' runs IH]; intros m' Hm; [done|]. cbn in Hr |- *.
    apply not_elem_of_cons in Hr as [Hne Hr]. apply IH; [done|]. by rewrite lookup_insert_ne. }
  apply Hkeep. rewrite <- Hk. apply lookup_insert_eq.
Qed.

Lemma by_task_none runs (m : gmap N DurableOrchestration) k : k ∉ map do_task_id runs ->
  foldl (fun m run => <[do_task_id run := run]> m) m runs !! k = m !! k.
Proof.
  revert m. induction runs as [|r runs IH]; intros m Hk; [done|]. cbn in Hk |- *. apply not_elem_of_cons in Hk as [Hne Hk].
  rewrite IH by done. by rewrite lookup_insert_ne.
Qed.

Lemma keyed_values m : keyed m -> map do_task_id (values m) = (entries m).*1.
Proof.
  intros Hm. unfold values. assert (Forall (fun p => do_task_id p.2 = p.1) (entries m)) as Hf.
  { apply Forall_forall. intros [k r] Hin%entries_elem. by apply Hm. }
  induction Hf as [|p l Hp _ IH]; [done|]. cbn. by rewrite Hp, IH.
Qed.

Lemma keyed_values_nodup m : keyed m -> NoDup (map do_task_id (values m)).
Proof. intros Hm. rewrite keyed_values, (entries_perm m) by done. apply NoDup_fst_map_to_list. Qed.

(** Collecting the values of a map by task gives the map back. *)
Lemma by_task_values m : keyed m -> by_task (values m) = m.
Proof.
  intros Hm. pose proof (keyed_values m Hm) as Hkeys. pose proof (keyed_values_nodup m Hm) as Hnd.
  apply map_eq. intros k. unfold by_task. destruct (m !! k) as [run|] eqn:E.
  - apply by_task_lookup; [done| |by apply Hm]. apply values_elem. by exists k.
  - rewrite by_task_none; [done|]. rewrite Hkeys. intros ([k' r] & -> & Hin%entries_elem)%list_elem_of_fmap. cbn in E. congruence.
Qed.

(** ** The compacted stream *)

Lemma next_loop_from i cs es : Forall2 holds cs es -> numbered i es -> es <> [] ->
  next_loop (map chomp cs) 0 0 = i + N.of_nat (length es).
Proof.
  intros Hcs Hn Hne. destruct Hcs as [|c e cs es Hc Hcs]; [done|]. apply numbered_cons in Hn as [Hs Hn].
  apply holds_decode in Hc as (Hr & line & Hl & Hd). destruct (chomp_decode _ _ _ Hr Hl Hd) as (line' & Hl' & Hd').
  cbn [map next_loop]. rewrite Hl'. unfold decode_record. rewrite Hd'. cbn [decoded_of r_sequence from_option]. unfold id.
  rewrite Hs. replace (N.max 0 (i + 1)) with (i + 1) by lia. rewrite (next_loop_trail _ _ cs es Hcs Hn). cbn [length]. lia.
Qed.

Lemma trail_nonempty i f es name : trail i f es name -> es <> [].
Proof. intros [_ _ _ _ Hw] ->. done. Qed.

Lemma trail_cursor i f es name : trail i f es name ->
  current_sequence (open_log name (Some f)) = i + N.of_nat (length es).
Proof.
  intros Ht. pose proof (trail_nonempty _ _ _ _ Ht) as Hne. destruct Ht as [(cs & -> & Hcs) Hn Hb _ _].
  unfold current_sequence, open_log, next_sequence, lines. cbn [el_next_sequence].
  rewrite chunks_concat by by eapply holds_records. rewrite (next_loop_from i cs es) by done. unfold sadd. lia.
Qed.

Lemma archive_chars n : Forall (fun c => (is_ascii_alphanumeric c || (c =? 45) || (c =? 46)) = true /\ c < 128) (archive_name n).
Proof.
  unfold archive_name. apply Forall_app. split; [by repeat constructor|]. apply Forall_app. split; [|by repeat constructor].
  eapply Forall_impl; [apply dec_digits|]. intros c Hc. unfold Decimal.digit in Hc. split; [|lia].
  unfold is_ascii_alphanumeric. rewrite (proj2 (N.leb_le 48 c)), (proj2 (N.leb_le c 57)) by lia. done.
Qed.

Lemma archive_valid c through sum bs : rc_version c = CHECKPOINT_VERSION -> rc_through c = through -> 0 < through ->
  rc_archive c = {| ar_file := archive_name through; ar_sha256 := sum |} -> sum = sha256 bs ->
  validate c (Some through) = Ok tt.
Proof.
  intros Hv Ht Hpos Ha ->. unfold validate. rewrite Hv, Ht, Ha. cbn [ar_file ar_sha256].
  destruct (sha256_hex bs) as [Hlen Hhex]. rewrite Hlen, Hhex.
  rewrite (bool_decide_eq_true_2 (Some through = Some through)) by done.
  assert (Hchars : forallb (fun b => is_ascii_alphanumeric b || (b =? 45) || (b =? 46)) (utf8 (archive_name through)) = true).
  { rewrite utf8_ascii by (eapply Forall_impl; [apply archive_chars|]; by intros c' [_ ?]).
    apply forallb_forall. intros b Hb. pose proof (archive_chars through) as Hf. rewrite List.Forall_forall in Hf. by apply Hf. }
  rewrite Hchars. unfold archive_name. rewrite begins_app. unfold ends_with.
  assert (Hrev : rev (lit "events-" ++ dec through ++ lit ".log") = rev (lit ".log") ++ rev (lit "events-" ++ dec through)).
  { by rewrite !rev_app_distr, <- app_assoc. }
  rewrite Hrev, begins_app. destruct (N.eqb_spec through 0); [lia|]. done.
Qed.

(** What a compaction leaves: one record that carries every projection. *)
Lemma compact_spec i f es name nonce fs fs1 fs2 :
  active fs = Some f -> trail i f es name -> nonce_ok nonce -> compact name nonce fs = Ok (Some (fs1, fs2)) ->
  let through := i + N.of_nat (length es) in
  exists c2 state sum, active fs2 = Some c2 /\ holds c2 (checkpoint_envelope name state)
    /\ validate state (Some through) = Ok tt /\ rc_through state = through
    /\ rc_archive state = {| ar_file := archive_name through; ar_sha256 := sum |} /\ digest f = Ok sum
    /\ rc_tasks state = (pass tasks_step (Tasks.new, 0) es).1
    /\ rc_waiting state = (pass waiting_step (Waiting.new, 0) es).1
    /\ rc_instructions state = (pass instructions_step (Instruction.new, 0) es).1
    /\ pass_view_of (pass (run_graph_step 0) (start_pass RunGraph.new) es) = (rc_run_graph state, None)
    /\ pass_view_of (pass (artifacts_step 0) (start_pass Artifact.new) es) = (rc_artifacts state, None)
    /\ rc_runs state = values (pass orchestrations_step ∅ es)
    /\ rc_invocations state = foldl (invocation_env through) ∅ es
    /\ rc_structure state = snd <$> latest (pass (structure_step None) {| latest := None; s_previous := 0; s_synthetic := 0 |} es)
    /\ match head_checkpoint es with Some p => rc_through p <> through | None => True end
    /\ archives fs2 = archives fs1 /\ active fs1 = active fs
    /\ match archives fs !! archive_name through with
       | Some existing => archives fs1 = archives fs
       | None => archives fs1 = <[archive_name through := f]> (archives fs)
       end.
Proof.
  intros Hf Ht Hnonce. cbv zeta. pose proof (trail_nonempty _ _ _ _ Ht) as Hne. unfold compact. rewrite Hf.
  destruct (negb (verify _ _)); [done|]. destruct (validate_archive fs); [|done].
  destruct (consistent_prefix_len f name); [|done]. destruct (negb _); [done|].
  destruct (trail_header i f es name Ht) as (owner & cs & _ & Hh). specialize (Hh []). rewrite !app_nil_r in Hh. rewrite Hh.
  rewrite (trail_cursor _ _ _ _ Ht). set (through := i + N.of_nat (length es)).
  assert (Hthrough : 0 < through) by (destruct es; [done|]; subst through; cbn [length]; lia).
  destruct ((through =? 0) || _) eqn:Hprior; [done|]. apply orb_false_iff in Hprior as [_ Hprior].
  unfold replay_tasks, replay_waiting, replay_instructions, replay_run_graph, replay_artifacts, replay_orchestrations, recover_snapshot.
  rewrite !(for_each_file _ i f es name) by done. rewrite (replay_invocations_trail fs i f es name through Hf Ht) by (subst through; destruct es; [done|cbn [length]; lia]).
  unfold end_pass. unfold pass_view_of.
  destruct (p_error (pass (run_graph_step 0) _ es)) eqn:Hg; [done|].
  destruct (p_error (pass (artifacts_step 0) _ es)) eqn:Ha; [done|].
  rewrite (structure_previous i es) by (apply Ht || by left). fold through.
  replace (match es with [] => _ | _ => through end) with through by by destruct es.
  destruct (N.eqb_spec through u64_max) as [E|_]; [pose proof (t_bound _ _ _ _ Ht); subst through; lia|].
  destruct (digest f) as [sum|] eqn:Hd; [|done].
  destruct (match archives fs !! archive_name through with Some _ => _ | None => _ end) as [fs1'|] eqn:Hfs1; [|done].
  set (state := {| rc_version := CHECKPOINT_VERSION |}).
  destruct (to_json (checkpoint_envelope name state)) as [json|] eqn:Hjson; [|done].
  destruct (encode_line _ nonce (json ++ [10])) as [line|] eqn:Hline; [|done]. intros [= <- <-].
  exists (utf8 line), state, sum. split; [done|]. split; [by eapply line_holds|].
  assert (exists plain, sum = sha256 plain) as [plain Hsum].
  { unfold digest in Hd. destruct (plain_lines (chunks f)) as [plain|]; [|done]. injection Hd as <-. by exists plain. }
  split; [by apply (archive_valid state through sum plain)|]. do 8 (split; [done|]).
  split; [done|]. split; [done|]. split; [subst state; cbn [rc_structure]|].
  { destruct (latest _) as [[cursor st]|]; [|done]. cbn [fmap option_fmap option_map snd]. f_equal. apply from_into_snapshot. }
  split; [destruct (head_checkpoint es); [by apply N.eqb_neq|done]|]. split; [done|].
  destruct (archives fs !! archive_name through) as [existing|] eqn:He.
  - destruct (digest existing) as [sum'|]; [|done]. destruct (str_eqb sum' sum); [|done]. injection Hfs1 as <-. done.
  - injection Hfs1 as <-. done.
Qed.

(** ** Recovery *)

Definition value {X Y} (r : result (X * Y) io_error) : result X io_error :=
  match r with Ok (x, _) => Ok x | Err e => Err e end.

(** What recovery rebuilds from the files alone: every projection, the
    invocations bound through a cursor, and the structure. *)
Record Projections : Set := {
  j_tasks : result TaskList io_error; j_waiting : result WaitingQueue io_error;
  j_instructions : result InstructionQueue io_error; j_run_graph : result RunGraph.RunGraph io_error;
  j_artifacts : result Artifact.ArtifactLedger io_error; j_runs : result (list DurableOrchestration) io_error;
  j_invocations : result (gmap N N) io_error;
  j_structure : result (option StructuralProjection) io_error }.

Definition projections (fs : Files) (name : str) (through : N) : Projections := {|
  j_tasks := value (replay_tasks (active fs) name Tasks.new);
  j_waiting := value (replay_waiting (active fs) name Waiting.new);
  j_instructions := value (replay_instructions (active fs) name Instruction.new);
  j_run_graph := value (replay_run_graph (active fs) name 0 RunGraph.new);
  j_artifacts := value (replay_artifacts (active fs) name 0 Artifact.new);
  j_runs := replay_orchestrations (active fs) name;
  j_invocations := replay_invocations fs name through;
  j_structure := match recover_snapshot (active fs) name None with
    | Ok s => Ok (from_snapshot <$> s)
    | Err e => Err e
    end |}.

Lemma end_pass_view {X} what (p p' : Pass X) : pass_view_of p = pass_view_of p' ->
  value (end_pass what (Ok p)) = value (end_pass what (Ok p')).
Proof. unfold pass_view_of, end_pass. intros [= H1 H2]. rewrite H1, H2. by destruct (p_error p'). Qed.

(** Recovery from a trail, by the passes over its envelopes. *)
Lemma projections_trail fs i f es name through : active fs = Some f -> trail i f es name -> i < through ->
  projections fs name through = {|
    j_tasks := Ok (pass tasks_step (Tasks.new, 0) es).1;
    j_waiting := Ok (pass waiting_step (Waiting.new, 0) es).1;
    j_instructions := Ok (pass instructions_step (Instruction.new, 0) es).1;
    j_run_graph := value (end_pass (lit "run graph") (Ok (pass (run_graph_step 0) (start_pass RunGraph.new) es)));
    j_artifacts := value (end_pass (lit "artifact ledger") (Ok (pass (artifacts_step 0) (start_pass Artifact.new) es)));
    j_runs := Ok (values (pass orchestrations_step ∅ es));
    j_invocations := Ok (foldl (invocation_env through) ∅ es);
    j_structure := Ok (snd <$> latest (pass (structure_step None) {| latest := None; s_previous := 0; s_synthetic := 0 |} es)) |}.
Proof.
  intros Hf Ht Hle. unfold projections. rewrite Hf.
  unfold replay_tasks, replay_waiting, replay_instructions, replay_run_graph, replay_artifacts, replay_orchestrations, recover_snapshot.
  rewrite !(for_each_file _ i f es name) by done. rewrite (replay_invocations_trail fs i f es name through Hf Ht Hle).
  rewrite (structure_previous i es) by (apply Ht || by left). pose proof (t_bound _ _ _ _ Ht) as Hb.
  f_equal; try (by destruct (pass _ _ es)).
  destruct es as [|e es]; [by pose proof (trail_nonempty _ _ _ _ Ht)|].
  destruct (N.eqb_spec (i + N.of_nat (length (e :: es))) u64_max); [lia|].
  destruct (latest _) as [[cursor st]|]; [|done]. cbn [fmap option_fmap option_map snd]. by rewrite from_into_snapshot.
Qed.

(** The compacted stream and what follows are a trail too. *)
Lemma compacted_trail name state c2 through cs later w : 0 < through -> through < u64_max ->
  holds c2 (checkpoint_envelope name state) -> validate state (Some through) = Ok tt -> rc_through state = through ->
  extends through name cs later w ->
  trail (through - 1) (c2 ++ concat cs) (checkpoint_envelope name state :: later) w.
Proof.
  intros Hpos Hmax Hc Hv Hthrough Hx.
  assert (Ht : trail (through - 1) (concat [c2]) [checkpoint_envelope name state] name).
  { constructor; [exists [c2]; split; [done|by apply Forall2_cons]| | | |done].
    - intros [|j] e He; [|done]. injection He as <-. cbn [checkpoint_envelope ev_sequence]. lia.
    - cbn [length]. lia.
    - split; [|done]. unfold check_record. cbn [decoded_of r_event r_sequence r_workspace checkpoint_envelope ev_event ev_sequence ev_workspace from_option].
      rewrite Hthrough, Hv. unfold id. rewrite bool_decide_eq_true_2 by done. done. }
  rewrite <- (app_nil_r c2). change (c2 ++ []) with (concat [c2]).
  apply (trail_extends _ _ [_] name cs later w Ht). cbn [length]. by replace (through - 1 + N.of_nat 1) with through by lia.
Qed.

(** C4: compaction loses nothing that recovery needs: whatever is appended
    later, tasks, attention items, instructions, runs, artifacts, orchestrations,
    invocations and structure recovered from the checkpoint and the suffix are
    those recovered from the whole stream, errors included. *)
Theorem compaction_keeps_projections i f es name nonce fs fs1 fs2 cs later w cursor :
  active fs = Some f -> trail i f es name -> nonce_ok nonce -> compact name nonce fs = Ok (Some (fs1, fs2)) ->
  extends (i + N.of_nat (length es)) name cs later w -> i + N.of_nat (length es) <= cursor ->
  exists c2, active fs2 = Some c2
    /\ projections (with_active fs2 (c2 ++ concat cs)) w cursor = projections (with_active fs (f ++ concat cs)) w cursor.
Proof.
  intros Hf Ht Hnonce Hcompact Hx Hle.
  destruct (compact_spec i f es name nonce fs fs1 fs2 Hf Ht Hnonce Hcompact) as
    (c2 & state & sum & Hc2 & Hholds & Hv & Hthrough & _ & _ & Htasks & Hwaiting & Hinstr & Hgraph & Hledger & Hruns & Hinv & Hstruct & _).
  set (through := i + N.of_nat (length es)) in *. exists c2. split; [done|].
  pose proof (trail_nonempty _ _ _ _ Ht) as Hne. assert (Hpos : 0 < through) by (destruct es; [done|]; subst through; cbn [length]; lia).
  assert (Hlt : i < through) by (destruct es; [done|]; subst through; cbn [length]; lia).
  rewrite (projections_trail (with_active fs (f ++ concat cs)) i (f ++ concat cs) (es ++ later) w) by (done || lia || by eapply trail_extends).
  rewrite (projections_trail _ (through - 1) (c2 ++ concat cs) (checkpoint_envelope name state :: later) w);
    [|done|by apply (compacted_trail name state c2 through); [|exact (t_bound _ _ _ _ Ht)|..]|lia].
  assert (Hstep : forall {S} (step : DecodedRecord -> S -> S) s, pass step s (checkpoint_envelope name state :: later)
    = pass step (step (decoded_of (checkpoint_envelope name state)) s) later) by done.
  rewrite !Hstep, !pass_app. f_equal.
  - f_equal. apply (pass_view tasks_step fst); [intros; by apply tasks_view|]. by rewrite <- Htasks.
  - f_equal. apply (pass_view waiting_step fst); [intros; by apply waiting_view|]. by rewrite <- Hwaiting.
  - f_equal. apply (pass_view instructions_step fst); [intros; by apply instructions_view|]. by rewrite <- Hinstr.
  - apply end_pass_view, (pass_view (run_graph_step 0) pass_view_of); [intros; by apply pass_step_view|].
    rewrite Hgraph. apply pass_step_checkpoint; [done|done|cbn; lia|done].
  - apply end_pass_view, (pass_view (artifacts_step 0) pass_view_of); [intros; by apply pass_step_view|].
    rewrite Hledger. apply pass_step_checkpoint; [done|done|cbn; lia|done].
  - do 3 f_equal. unfold orchestrations_step. cbn [decoded_of r_event checkpoint_envelope ev_event]. rewrite Hruns.
    by apply by_task_values, orchestrations_keyed.
  - rewrite foldl_app. cbn [foldl]. do 2 f_equal. unfold invocation_env at 1. cbn [checkpoint_envelope ev_event]. rewrite Hinv.
    apply invocation_env_through, Forall_forall. intros e He.
    pose proof (numbered_pos i es e (t_numbered _ _ _ _ Ht) He). subst through. lia.
  - f_equal. apply (f_equal fst (x := structure_view _) (y := structure_view _)).
    apply (pass_view (structure_step None) structure_view); [intros; by apply structure_step_view|].
    unfold structure_view. rewrite <- Hstruct, (structure_previous i es); [|apply Ht|apply Ht|by left].
    fold through. destruct es as [|e es']; [done|]. unfold structure_step, number.
    cbn [decoded_of r_sequence r_event from_option checkpoint_envelope ev_sequence ev_event s_previous s_synthetic]. unfold id.
    cbn [N.eqb negb andb latest s_previous checkpoint_sequence structure_change].
    rewrite Hthrough. destruct (N.leb_spec through 0); [lia|]. f_equal. by destruct (rc_structure state).
Qed.

(** ** History *)

Definition cursor_of (c : option RecoveryCheckpoint) : N := match c with Some c => rc_through c | None => 0 end.

(** The cursor is fuel enough. *)
Lemma follow_fuel fuel fuel' dir after c segments :
  cursor_of c <= N.of_nat fuel -> cursor_of c <= N.of_nat fuel' ->
  follow fuel dir after c segments = follow fuel' dir after c segments.
Proof.
  revert fuel' c segments. induction fuel as [|fuel IH]; intros fuel' [state|] segments Hf Hf'; cbn [cursor_of] in *;
    try by destruct fuel'.
  - destruct fuel' as [|fuel']; [done|]. cbn [follow]. destruct (N.ltb_spec after (rc_through state)); [lia|done].
  - destruct fuel' as [|fuel']; cbn [follow].
    + destruct (N.ltb_spec after (rc_through state)); [lia|done].
    + destruct (negb _); [done|]. destruct (dir !! _) as [bs|]; [|done]. destruct (digest bs) as [sum|]; [|done].
      destruct (negb _); [done|]. destruct (checkpoint_header bs) as [[[previous o] rest]|]; [|done].
      destruct previous as [p|]; [|apply IH; cbn; lia]. destruct (N.leb_spec (rc_through state) (rc_through p)); [done|].
      apply IH; cbn [cursor_of]; lia.
Qed.

(** More archives change no chain that was complete. *)
Lemma follow_extend fuel dir dir' after c segments x : dir ⊆ dir' ->
  follow fuel dir after c segments = Ok x -> follow fuel dir' after c segments = Ok x.
Proof.
  intros Hdir. revert c segments. induction fuel as [|fuel IH]; intros [state|] segments; cbn [follow]; try done.
  destruct (negb _); [done|]. destruct (dir !! _) as [bs|] eqn:E; [|done]. rewrite (lookup_weaken _ _ _ _ E Hdir).
  destruct (digest bs) as [sum|]; [|done]. destruct (negb _); [done|].
  destruct (checkpoint_header bs) as [[[previous o] rest]|]; [|done].
  destruct (match previous with Some p => _ | None => _ end); [done|]. apply IH.
Qed.

Lemma trail_owned i f es name : trail i f es name -> validate_owner f name = Ok tt.
Proof.
  intros Ht. unfold validate_owner. rewrite (for_each_file _ i f es name tt Ht).
  by destruct (pass _ tt es).
Qed.

(** C12: compaction loses no history: a reader that starts before the checkpoint
    is given the bytes it was given before, from the new archive and those
    behind it, in order; one that starts at or after it, the suffix alone; and
    between the publication of the archive and that of the checkpoint readers
    still see the old stream. *)
Theorem compaction_keeps_history i f es name nonce fs fs1 fs2 cs later w after :
  active fs = Some f -> trail i f es name -> nonce_ok nonce -> compact name nonce fs = Ok (Some (fs1, fs2)) ->
  extends (i + N.of_nat (length es)) name cs later w ->
  (forall existing, archives fs !! archive_name (i + N.of_nat (length es)) = Some existing -> existing = f) ->
  exists c2, active fs2 = Some c2
    /\ (i + N.of_nat (length es) <= after -> open_reader w fs2 (c2 ++ concat cs) after = Ok (i + N.of_nat (length es), concat cs))
    /\ forall x, open_reader w fs (f ++ concat cs) after = Ok x ->
         open_reader w fs1 (f ++ concat cs) after = Ok x
         /\ (after < i + N.of_nat (length es) -> open_reader w fs2 (c2 ++ concat cs) after = Ok x).
Proof.
  intros Hf Ht Hnonce Hcompact Hx Hsame.
  destruct (compact_spec i f es name nonce fs fs1 fs2 Hf Ht Hnonce Hcompact) as
    (c2 & state & sum & Hc2 & Hholds & Hv & Hthrough & Harch & Hdigest & _ & _ & _ & _ & _ & _ & _ & _ & Hprior & Harch2 & _ & Harch1).
  set (through := i + N.of_nat (length es)) in *. exists c2. split; [done|].
  assert (Hpos : 0 < through /\ i < through) by (pose proof (trail_nonempty _ _ _ _ Ht); destruct es; [done|]; subst through; cbn [length]; lia).
  pose proof (compacted_trail name state c2 through cs later w (proj1 Hpos) (t_bound _ _ _ _ Ht) Hholds Hv Hthrough Hx) as Ht2.
  assert (Hdir : archives fs ⊆ archives fs1).
  { destruct (archives fs !! archive_name through) eqn:E; rewrite Harch1; [done|]. by apply insert_subseteq. }
  assert (Hlink : archives fs1 !! archive_name through = Some f).
  { destruct (archives fs !! archive_name through) as [existing|] eqn:E; rewrite Harch1; [|apply lookup_insert_eq].
    rewrite E. f_equal. by apply Hsame. }
  destruct (trail_header i f es name Ht) as (owner & ds & Hds & Hh).
  assert (Hh2 : checkpoint_header (c2 ++ concat cs) = Ok (Some state, Some name, concat cs)).
  { rewrite (header_holds c2 (checkpoint_envelope name state)); [done|done|done|].
    split; [|done]. by destruct (t_owned _ _ _ _ Ht2). }
  assert (Hopen2 : open_reader w fs2 (c2 ++ concat cs) after = follow (N.to_nat through) (archives fs1) after (Some state) (concat cs)).
  { unfold open_reader. rewrite Hh2, (trail_owned _ _ _ _ Ht2), Harch2, Hthrough. by case_bool_decide. }
  split.
  { intros Hle. rewrite Hopen2. destruct (N.to_nat through) eqn:E; [lia|]. cbn [follow]. rewrite Hthrough.
    destruct (N.ltb_spec after through); [lia|done]. }
  intros x Hopen. unfold open_reader in Hopen. rewrite Hh in Hopen.
  destruct (if bool_decide (owner = w) then _ else _) as [[]|] eqn:Hown; [|done]. split.
  - unfold open_reader. rewrite Hh, Hown. by eapply follow_extend.
  - intros Hlt. rewrite Hopen2. destruct (N.to_nat through) as [|fuel] eqn:E; [lia|]. cbn [follow]. rewrite Hthrough, Harch.
    destruct (N.ltb_spec after through) as [_|]; [|lia]. cbn [negb ar_file ar_sha256]. rewrite Hlink, Hdigest.
    unfold str_eqb. rewrite bool_decide_eq_true_2 by done. cbn [negb]. specialize (Hh []). rewrite !app_nil_r in Hh. rewrite Hh.
    assert (Hcur : cursor_of (head_checkpoint es) < through).
    { destruct (head_checkpoint es) as [p|] eqn:Hp; cbn [cursor_of]; [|lia].
      destruct (head_cursor i f es name p Ht Hp) as (Hpc & _). lia. }
    replace (match head_checkpoint es with Some p => through <=? rc_through p | None => false end) with false.
    2: { destruct (head_checkpoint es); [|done]. cbn [cursor_of] in Hcur. symmetry. apply N.leb_gt. done. }
    rewrite (follow_fuel fuel (N.to_nat (cursor_of (head_checkpoint es)))) by lia.
    by apply (follow_extend _ (archives fs)).
Qed.
End Spec.

(** ** A concrete compaction *)

#[local] Existing Instance sample_aead.
#[local] Existing Instance sample_json.
#[local] Existing Instance sample_laws.

#[local] Instance sample_sha : Sha256 := fun _ => replicate 64 48.
#[local] Instance sample_sha_laws : Sha256Laws.
Proof. by intros bs. Qed.

Definition created : EventEnvelope := sample_envelope 1 (lit "w") (Log.TaskCreated 1 (lit "task") Tasks.Todo).
Definition finished : EventEnvelope := sample_envelope 2 (lit "w") (Log.TaskStatusChanged 1 Tasks.Done).

Definition sample_state : RecoveryCheckpoint := {|
  rc_version := 1; rc_through := 1;
  rc_archive := {| ar_file := archive_name 1; ar_sha256 := replicate 64 48 |};
  rc_structure := None; rc_tasks := (pass tasks_step (Tasks.new, 0) [created]).1; rc_waiting := Waiting.new;
  rc_instructions := Instruction.new; rc_run_graph := RunGraph.new; rc_artifacts := Artifact.new;
  rc_runs := []; rc_invocations := ∅ |}.

Definition replay_table : list (EventEnvelope * str) :=
  [(created, lit "{1}"); (checkpoint_envelope (lit "w") sample_state, lit "{2}"); (finished, lit "{3}")].

#[local] Instance replay_json : LogJson := table_json replay_table.
#[local] Instance replay_laws : LogJsonLaws := table_laws replay_table ltac:(by vm_compute).

Definition before : Files :=
  {| active := Some (lit "{1}" ++ [10]); archives := ∅; marker := None; pending_protection := false |}.

Definition published : Files := with_archive before (archive_name 1) (lit "{1}" ++ [10]).
Definition compacted : Files := with_active published (lit "{2}" ++ [10]).

Lemma sample_compact : compact (lit "w") zeros before = Ok (Some (published, compacted)).
Proof. by vm_compute. Qed.

Lemma sample_trail : trail 0 (lit "{1}" ++ [10]) [created] (lit "w").
Proof.
  constructor; [|by intros [|j] e; [intros [= <-]|]|done|by split|done].
  exists [lit "{1}" ++ [10]]. split; [done|]. apply Forall2_cons. split; [|done].
  by apply (plain_holds _ (lit "{1}")); [|vm_compute|].
Qed.

Lemma sample_extends : extends 1 (lit "w") [lit "{3}" ++ [10]] [finished] (lit "w").
Proof.
  constructor; [|by intros [|j] e; [intros [= <-]|]|done|by split|done].
  apply Forall2_cons. split; [|done]. by apply (plain_holds _ (lit "{3}")); [|vm_compute|].
Qed.

(** The task created before the compaction and finished after it. *)
Lemma compaction_keeps_projections_witness :
  projections (with_active compacted (lit "{2}" ++ [10] ++ lit "{3}" ++ [10])) (lit "w") 1
    = projections (with_active before (lit "{1}" ++ [10] ++ lit "{3}" ++ [10])) (lit "w") 1
  /\ match j_tasks (projections (with_active compacted (lit "{2}" ++ [10] ++ lit "{3}" ++ [10])) (lit "w") 1) with
     | Ok l => map t_status (Tasks.tasks l) = [Tasks.Done]
     | Err _ => False
     end.
Proof.
  destruct (compaction_keeps_projections 0 (lit "{1}" ++ [10]) [created] (lit "w") zeros before published compacted
    [lit "{3}" ++ [10]] [finished] (lit "w") 1 eq_refl sample_trail zeros_ok sample_compact sample_extends ltac:(by vm_compute))
    as (c2 & E & H). injection E as <-. split; [exact H|by vm_compute].
Defined.

Lemma compaction_keeps_history_witness :
  open_reader (lit "w") compacted (lit "{2}" ++ [10] ++ lit "{3}" ++ [10]) 0 = Ok (0, lit "{1}" ++ [10] ++ lit "{3}" ++ [10]).
Proof.
  destruct (compaction_keeps_history 0 (lit "{1}" ++ [10]) [created] (lit "w") zeros before published compacted
    [lit "{3}" ++ [10]] [finished] (lit "w") 0 eq_refl sample_trail zeros_ok sample_compact sample_extends) as (c2 & E & _ & H).
  - intros existing He. vm_compute in He. discriminate He.
  - injection E as <-. destruct (H (0, lit "{1}" ++ [10] ++ lit "{3}" ++ [10])) as [_ H2]; [by vm_compute|]. by apply H2.
Defined.
