(* ===== verification/SnapshotSpec.v ===== *)
(** * Recovery from a snapshot

    [recover_snapshot] applies the structural events after a terminal snapshot
    to the structure of the snapshot: the result has the structure of the whole
    stream and the terminal content of the Panes that the snapshot knew. *)

From S2P Require Import Prelude Lines Events Privacy EventLog EventLogSpec History Replay ReplaySpec.

Section Snapshot.
Context {A : Aead} {SJ : SealedJson} {LJ : LogJson} {LL : LogJsonLaws}.

(** ** Terminal content *)

Lemma fill_panes_content content ps : NoDup (map sp_id ps) ->
  map ps_content (map_with fill_pane content ps).2 = map (fun p => default [] (content !! sp_id p)) ps.
Proof.
  revert content. induction ps as [|p ps IH]; intros content Hnd; [done|]. cbn in Hnd. apply NoDup_cons in Hnd as [Hp Hnd].
  cbn [map_with]. unfold fill_pane at 1. cbn. specialize (IH (base.delete (sp_id p) content) Hnd).
  destruct (map_with fill_pane (base.delete (sp_id p) content) ps) as [s2 ys]. cbn in *. f_equal. rewrite IH.
  apply map_ext_in. intros q Hq. rewrite lookup_delete_ne; [done|]. intros E. apply Hp. rewrite E.
  apply list_elem_of_fmap_2. by apply list_elem_of_In.
Qed.

Lemma map_with_app {S X Y} (f : S -> X -> S * Y) s l l' :
  map_with f s (l ++ l') = let '(s1, ys) := map_with f s l in let '(s2, zs) := map_with f s1 l' in (s2, ys ++ zs).
Proof.
  revert s. induction l as [|x l IH]; intros s; cbn; [by destruct (map_with f s l')|].
  destruct (f s x) as [s1 y]. rewrite IH. destruct (map_with f s1 l) as [s2 ys]. by destruct (map_with f s2 l').
Qed.

(** The Panes of all windows are filled in one pass. *)
Lemma fill_windows_panes content ws :
  (map_with fill_window content ws).1 = (map_with fill_pane content (concat (map sw_panes ws))).1
  /\ concat (map ws_panes (map_with fill_window content ws).2) = (map_with fill_pane content (concat (map sw_panes ws))).2.
Proof.
  revert content. induction ws as [|w ws IH]; intros content; [done|]. cbn [map concat map_with]. rewrite map_with_app.
  unfold fill_window at 1 3. destruct (map_with fill_pane content (sw_panes w)) as [c1 ps]. cbn [fst snd].
  specialize (IH c1). destruct (map_with fill_window c1 ws) as [c2 vs], (map_with fill_pane c1 (concat (map sw_panes ws))) as [c3 qs].
  cbn in *. destruct IH as [-> ->]. done.
Qed.

(** Every Pane has its content in the previous snapshot, or none. *)
Lemma into_snapshot_content st previous cursor : NoDup (map sp_id (concat (map sw_panes (sr_windows st)))) ->
  map ps_content (concat (map ws_panes (sn_windows (into_snapshot st (Some previous) cursor))))
    = map (fun p => default [] (contents previous !! sp_id p)) (concat (map sw_panes (sr_windows st))).
Proof.
  intros Hnd. unfold into_snapshot, new_with_sequence. cbn [sn_windows].
  rewrite (proj2 (fill_windows_panes (contents previous) (sr_windows st))). by apply fill_panes_content.
Qed.

(** ** The suffix after a snapshot *)

(** The structure [l] of a pass that starts from the snapshot [s] stands for
    [l'] of a pass from the beginning. *)
Definition stands_for (s : Snapshot) (l l' : option (N * StructuralProjection)) : Prop :=
  snd <$> l' = Some (match l with Some (_, x) => x | None => from_snapshot s end).

Lemma update_stands s sequence e l l' : stands_for s l l' ->
  stands_for s (update_latest sequence e (start_latest (Some s) l)) (update_latest sequence e (start_latest None l')).
Proof.
  unfold stands_for. destruct l' as [[c' x']|]; [|done]. cbn [fmap option_fmap option_map snd]. intros [= ->].
  destruct l as [[c x]|]; cbn; by destruct (structure_update e _).
Qed.

Lemma change_stands s sequence e l l' :
  match e with Log.RecoveryCheckpoint _ => False | _ => True end -> stands_for s l l' ->
  stands_for s (structure_change (Some s) sequence e l) (structure_change None sequence e l').
Proof.
  intros He H. assert (Hc : stands_for s (match carried e with Some x => Some (sequence, x) | None => l end)
    (match carried e with Some x => Some (sequence, x) | None => l' end)) by by destruct (carried e).
  assert (Hgoal : stands_for s
    (if updates_structure e then update_latest sequence e (start_latest (Some s) (match carried e with Some x => Some (sequence, x) | None => l end)) else (match carried e with Some x => Some (sequence, x) | None => l end))
    (if updates_structure e then update_latest sequence e (start_latest None (match carried e with Some x => Some (sequence, x) | None => l' end)) else (match carried e with Some x => Some (sequence, x) | None => l' end))).
  { destruct (updates_structure e); [|done]. by apply update_stands. }
  by destruct e.
Qed.

(** One pass over a trail is a fold of the changes: numbers never break. *)
Definition change (checkpoint : option Snapshot) (l : option (N * StructuralProjection)) (e : EventEnvelope)
    : option (N * StructuralProjection) :=
  if ev_sequence e <=? checkpoint_sequence checkpoint then l
  else structure_change checkpoint (ev_sequence e) (ev_event e) l.

Lemma structure_pass checkpoint i es s : numbered i es -> i + N.of_nat (length es) < u64_max ->
  (s_previous s = 0 \/ s_previous s = i) ->
  latest (pass (structure_step checkpoint) s es) = foldl (change checkpoint) (latest s) es
  /\ s_previous (pass (structure_step checkpoint) s es) = match es with [] => s_previous s | _ => i + N.of_nat (length es) end.
Proof.
  revert i s. induction es as [|e es IH]; intros i s Hn Hb Hp; [done|]. apply numbered_cons in Hn as [Hs Hn].
  cbn [length] in *. cbn [pass foldl].
  assert (Hstep : latest (structure_step checkpoint (decoded_of e) s) = change checkpoint (latest s) e
    /\ s_previous (structure_step checkpoint (decoded_of e) s) = i + 1).
  { unfold structure_step, change. cbn [number decoded_of r_sequence r_event from_option]. unfold id. rewrite Hs.
    replace (negb (s_previous s =? 0) && negb (i + 1 =? sadd u64_max (s_previous s) 1)) with false; [done|].
    symmetry. apply andb_false_iff. rewrite !negb_false_iff, !N.eqb_eq. destruct Hp as [Hp|Hp]; [by left|right].
    rewrite Hp, sadd_small; [done|]. lia. }
  destruct Hstep as [Hl Hprev]. fold (pass (structure_step checkpoint) (structure_step checkpoint (decoded_of e) s) es).
  destruct (IH (i + 1) (structure_step checkpoint (decoded_of e) s) Hn ltac:(lia) (or_intror Hprev)) as [-> ->].
  rewrite Hl. split; [done|]. destruct es; cbn [length]; [rewrite Hprev|]; lia.
Qed.

Lemma changes_stand s es l l' :
  Forall (fun e => sn_event_sequence s < ev_sequence e /\ match ev_event e with Log.RecoveryCheckpoint _ => False | _ => True end) es ->
  stands_for s l l' -> stands_for s (foldl (change (Some s)) l es) (foldl (change None) l' es).
Proof.
  intros Hes. revert l l'. induction Hes as [|e es [Hlt He] _ IH]; intros l l' H; [done|]. cbn. apply IH.
  unfold change. cbn [checkpoint_sequence]. destruct (N.leb_spec (ev_sequence e) (sn_event_sequence s)); [lia|].
  destruct (N.leb_spec (ev_sequence e) 0); [lia|]. by apply change_stands.
Qed.

Lemma changes_skip s es l : Forall (fun e => ev_sequence e <= sn_event_sequence s) es -> foldl (change (Some s)) l es = l.
Proof.
  intros Hes. revert l. induction Hes as [|e es He _ IH]; intros l; [done|]. cbn. rewrite IH. unfold change.
  cbn [checkpoint_sequence]. by rewrite (proj2 (N.leb_le _ _) He).
Qed.

(** The structure after the envelopes. *)
Definition structure_of (es : list EventEnvelope) : option StructuralProjection :=
  snd <$> foldl (change None) None es.

(** C23: a snapshot taken at a number of the stream, whose structure is that of
    the stream there, recovers to the structure of the whole stream: only the
    events after it are applied. The run graph is the snapshot's, and a Pane
    that the snapshot knew keeps its terminal content. *)
Theorem snapshot_recovery i f es seen suffix name s :
  trail i f es name -> es = seen ++ suffix -> seen <> [] ->
  sn_event_sequence s = i + N.of_nat (length seen) -> structure_of seen = Some (from_snapshot s) ->
  exists s', recover_snapshot (Some f) name (Some s) = Ok (Some s')
    /\ structure_of es = Some (from_snapshot s')
    /\ sn_run_graph s' = sn_run_graph s /\ sn_run_graph_sequence s' = sn_run_graph_sequence s
    /\ (s' = s \/ (NoDup (map sp_id (concat (map sw_panes (sr_windows (from_snapshot s'))))) ->
         map ps_content (concat (map ws_panes (sn_windows s')))
           = map (fun p => default [] (contents s !! sp_id p)) (concat (map sw_panes (sr_windows (from_snapshot s')))))).
Proof.
  intros Ht -> Hne Hq Hs. pose proof (t_numbered _ _ _ _ Ht) as Hn. pose proof (t_bound _ _ _ _ Ht) as Hb.
  unfold recover_snapshot. rewrite (for_each_file _ i f _ name _ Ht).
  destruct (structure_pass (Some s) i (seen ++ suffix) {| latest := None; s_previous := 0; s_synthetic := 0 |} Hn Hb (or_introl eq_refl)) as [-> ->].
  replace (match seen ++ suffix with [] => _ | _ => i + N.of_nat (length (seen ++ suffix)) end)
    with (i + N.of_nat (length (seen ++ suffix))) by by destruct seen.
  destruct (N.eqb_spec (i + N.of_nat (length (seen ++ suffix))) u64_max) as [E|_]; [lia|]. cbn [latest].
  assert (Hseen : Forall (fun e => ev_sequence e <= sn_event_sequence s) seen).
  { apply Forall_forall. intros e [j Hj]%list_elem_of_lookup. pose proof (lookup_lt_Some _ _ _ Hj).
    rewrite (Hn j e), Hq by by apply lookup_app_l_Some. lia. }
  assert (Hsuffix : Forall (fun e => sn_event_sequence s < ev_sequence e /\ match ev_event e with Log.RecoveryCheckpoint _ => False | _ => True end) suffix).
  { apply Forall_forall. intros e He. pose proof He as [j Hj]%list_elem_of_lookup. split.
    - rewrite (Hn (length seen + j)%nat e), Hq; [lia|]. rewrite lookup_app_r by lia. by replace (length seen + j - length seen)%nat with j by lia.
    - pose proof (t_owned _ _ _ _ Ht) as Ho. apply owned_app_iff in Ho as [_ Ho]. apply (no_checkpoint (owner_after None seen) suffix e); [|done|done].
      unfold owner_after. destruct (last seen) eqn:E; [by eexists|]. by apply last_None in E. }
  rewrite !foldl_app, (changes_skip s seen) by done.
  assert (Hstand : stands_for s (foldl (change (Some s)) None suffix) (foldl (change None) None (seen ++ suffix))).
  { rewrite foldl_app. apply changes_stand; [done|]. exact Hs. }
  unfold stands_for in Hstand. unfold structure_of. rewrite Hstand.
  destruct (foldl (change (Some s)) None suffix) as [[cursor x]|].
  - exists (into_snapshot x (Some s) cursor). split; [done|]. rewrite from_into_snapshot. split; [done|]. split; [done|].
    split; [done|]. right. intros Hnd. by apply into_snapshot_content.
  - exists s. split; [done|]. split; [done|]. split; [done|]. split; [done|by left].
Qed.
End Snapshot.

(** ** A concrete snapshot *)

#[local] Existing Instance sample_aead.
#[local] Existing Instance sample_json.
#[local] Existing Instance sample_laws.

Definition sample_pane (launch : option AgentLaunch) : StructuralPane := {|
  sp_id := 1; sp_cwd := None; sp_metadata := []; sp_launch_args := []; sp_agent_launch := launch |}.

Definition sample_structure (launch : option AgentLaunch) : StructuralProjection := {|
  sr_active_window := 0; sr_next_pane_id := 2; sr_active_project := 1; sr_next_project_id := 2;
  sr_projects := [{| sj_id := 1; sj_name := lit "project"; sj_root := lit "/tmp"; sj_active_pane := None; sj_metadata := [] |}];
  sr_windows := [{| sw_stack_expanded := false; sw_stack_parent := None; sw_layout_mode := Arrange.PLSplit;
    sw_project := 1; sw_layout := Layout.Leaf 1; sw_active := 1; sw_zoomed := None; sw_name := None;
    sw_panes := [sample_pane launch] |}] |}.

Definition sample_content : list Cell.StoredLine := [{| Cell.s_cells := []; Cell.s_wrapped := true |}].

Definition with_content (s : Snapshot) : Snapshot := {|
  sn_version := sn_version s; sn_event_sequence := sn_event_sequence s;
  sn_run_graph_sequence := sn_run_graph_sequence s; sn_run_graph := sn_run_graph s;
  sn_artifact_sequence := sn_artifact_sequence s; sn_artifacts := sn_artifacts s;
  sn_active_window := sn_active_window s; sn_next_pane_id := sn_next_pane_id s;
  sn_active_project := sn_active_project s; sn_next_project_id := sn_next_project_id s; sn_projects := sn_projects s;
  sn_windows := map (fun w => {| ws_stack_expanded := ws_stack_expanded w; ws_stack_parent := ws_stack_parent w;
    ws_layout_mode := ws_layout_mode w; ws_project := ws_project w; ws_layout := ws_layout w; ws_active := ws_active w;
    ws_zoomed := ws_zoomed w; ws_name := ws_name w;
    ws_panes := map (fun p => {| ps_id := ps_id p; ps_cwd := ps_cwd p; ps_content := sample_content;
      ps_metadata := ps_metadata p; ps_launch_args := ps_launch_args p; ps_agent_launch := ps_agent_launch p |}) (ws_panes w) |})
    (sn_windows s) |}.

Definition sample_snapshot : Snapshot := with_content (into_snapshot (sample_structure None) None 1).

Definition projected : EventEnvelope := sample_envelope 1 (lit "w") (Log.WorkspaceProjected (sample_structure None)).
Definition bound : EventEnvelope := sample_envelope 2 (lit "w") (Log.AgentBound 1 (lit "agent") None).

Definition snapshot_table : list (EventEnvelope * str) := [(projected, lit "{1}"); (bound, lit "{2}")].

#[local] Instance snapshot_json : LogJson := table_json snapshot_table.
#[local] Instance snapshot_laws : LogJsonLaws := table_laws snapshot_table ltac:(by vm_compute).

Lemma snapshot_trail : trail 0 (lit "{1}" ++ [10] ++ lit "{2}" ++ [10]) [projected; bound] (lit "w").
Proof.
  constructor; [|by intros [|[|j]] e; [intros [= <-]|intros [= <-]|]|done|split; [done|by split]|done].
  exists [lit "{1}" ++ [10]; lit "{2}" ++ [10]]. split; [done|].
  apply Forall2_cons; split; [|apply Forall2_cons; split; [|done]];
    [apply (plain_holds _ (lit "{1}"))|apply (plain_holds _ (lit "{2}"))]; try done; by vm_compute.
Qed.

(** The agent bound after the snapshot is recovered, with the saved content. *)
Lemma snapshot_recovery_witness :
  exists s', recover_snapshot (Some (lit "{1}" ++ [10] ++ lit "{2}" ++ [10])) (lit "w") (Some sample_snapshot) = Ok (Some s')
    /\ structure_of [projected; bound] = Some (from_snapshot s').
Proof.
  destruct (snapshot_recovery 0 _ [projected; bound] [projected] [bound] (lit "w") sample_snapshot snapshot_trail eq_refl
    ltac:(done) ltac:(by vm_compute) ltac:(by vm_compute)) as (s' & H1 & H2 & _).
  exists s'. split; [exact H1|exact H2].
Defined.

Example recovered_launch :
  match recover_snapshot (Some (lit "{1}" ++ [10] ++ lit "{2}" ++ [10])) (lit "w") (Some sample_snapshot) with
  | Ok (Some s) => map (fun p => (ps_content p, l_provider <$> ps_agent_launch p)) (concat (map ws_panes (sn_windows s)))
      = [(sample_content, Some (lit "agent"))]
  | _ => False
  end.
Proof. by vm_compute. Qed.
