(* ===== verification/Stacks.v ===== *)
(** * Tabs, their order and their stacks

    [uniterm-server/src/server/tab_stacks.rs] and the Tab operations of
    [server/projects.rs]: which Tab is whose parent, the assignment of a parent,
    the repair before a Pane leaves its Tab, the move of a Tab within its
    Project. A Tab names its parent by one of the parent's Panes. Events handed
    to the log are kept in order; redrawing and [persist] are outside. Every
    index the operations use comes from a search of the same vector, so the
    panicking [windows[i]] is written as an update that does nothing out of
    range. *)

From S2P Require Import Prelude Layout Arrange Events.
#[local] Open Scope u_scope.

(** [Win] of [server.rs]. *)
Record Win : Set := {
  w_stack_expanded : bool; w_stack_parent : option N; w_layout_mode : PaneLayout; w_layout_scroll : N;
  w_project : N; w_layout : LayoutNode; w_active : N; w_zoomed : option N; w_name : option str }.

(** The fields of [Server] these operations use. *)
Record Tabs : Set := {
  t_windows : list Win; t_active_window : nat; t_active_project : N; t_today : bool;
  t_tab_scroll_follow_active : bool; t_stack_scroll : N;
  t_event_writes_enabled : bool; t_log : list LogEvent }.

Definition with_tabs (s : Tabs) (ws : list Win) : Tabs := {|
  t_windows := ws; t_active_window := t_active_window s; t_active_project := t_active_project s;
  t_today := t_today s; t_tab_scroll_follow_active := t_tab_scroll_follow_active s;
  t_stack_scroll := t_stack_scroll s; t_event_writes_enabled := t_event_writes_enabled s; t_log := t_log s |}.

Definition with_focus (s : Tabs) (active : nat) : Tabs := {|
  t_windows := t_windows s; t_active_window := active; t_active_project := t_active_project s;
  t_today := t_today s; t_tab_scroll_follow_active := t_tab_scroll_follow_active s;
  t_stack_scroll := t_stack_scroll s; t_event_writes_enabled := t_event_writes_enabled s; t_log := t_log s |}.

Definition with_scroll (s : Tabs) (follow : bool) (scroll : N) : Tabs := {|
  t_windows := t_windows s; t_active_window := t_active_window s; t_active_project := t_active_project s;
  t_today := t_today s; t_tab_scroll_follow_active := follow; t_stack_scroll := scroll;
  t_event_writes_enabled := t_event_writes_enabled s; t_log := t_log s |}.

Definition append_event (s : Tabs) (e : LogEvent) : Tabs :=
  if t_event_writes_enabled s then {|
    t_windows := t_windows s; t_active_window := t_active_window s; t_active_project := t_active_project s;
    t_today := t_today s; t_tab_scroll_follow_active := t_tab_scroll_follow_active s;
    t_stack_scroll := t_stack_scroll s; t_event_writes_enabled := true; t_log := t_log s ++ [e] |}
  else s.

Definition set_stack_parent (parent : option N) (w : Win) : Win := {|
  w_stack_expanded := w_stack_expanded w; w_stack_parent := parent; w_layout_mode := w_layout_mode w;
  w_layout_scroll := w_layout_scroll w; w_project := w_project w; w_layout := w_layout w;
  w_active := w_active w; w_zoomed := w_zoomed w; w_name := w_name w |}.

Definition set_stack_expanded (expanded : bool) (w : Win) : Win := {|
  w_stack_expanded := expanded; w_stack_parent := w_stack_parent w; w_layout_mode := w_layout_mode w;
  w_layout_scroll := w_layout_scroll w; w_project := w_project w; w_layout := w_layout w;
  w_active := w_active w; w_zoomed := w_zoomed w; w_name := w_name w |}.

Definition set_layout_mode (mode : PaneLayout) (w : Win) : Win := {|
  w_stack_expanded := w_stack_expanded w; w_stack_parent := w_stack_parent w; w_layout_mode := mode;
  w_layout_scroll := 0; w_project := w_project w; w_layout := w_layout w;
  w_active := w_active w; w_zoomed := w_zoomed w; w_name := w_name w |}.

(** [iter().position(p)]. *)
Fixpoint position {X} (p : X -> bool) (l : list X) : option nat :=
  match l with
  | [] => None
  | x :: l => if p x then Some 0%nat else S <$> position p l
  end.

Definition holds (pane : N) (w : Win) : bool := LayoutNode.contains_pane (w_layout w) pane.

(** ** Ancestry *)

Definition tab_parent (ws : list Win) (window : nat) : option nat :=
  tab ← ws !! window;
  pane ← w_stack_parent tab;
  position (fun parent => (w_project parent =? w_project tab) && holds pane parent) ws.

Fixpoint climb (steps : nat) (ws : list Win) (window : nat) : nat :=
  match steps with
  | O => window
  | S steps =>
      match tab_parent ws window with
      | None => window
      | Some parent => if Nat.eqb parent window then window else climb steps ws parent
      end
  end.

Definition stack_root (ws : list Win) (window : nat) : nat := climb (length ws) ws window.

Definition project_window_indices (ws : list Win) (project : N) : list nat :=
  omap (fun '(index, tab) => if w_project tab =? project then Some index else None) (imap pair ws).

Definition root_tabs (s : Tabs) : list nat :=
  filter (fun window => tab_parent (t_windows s) window = None)
    (project_window_indices (t_windows s) (t_active_project s)).

Definition stack_tabs (s : Tabs) : list nat :=
  if t_today s then []
  else match t_windows s with
  | [] => []
  | _ =>
      let root := stack_root (t_windows s) (t_active_window s) in
      let tabs := root :: filter (fun window => window ≠ root /\ stack_root (t_windows s) window = root)
        (project_window_indices (t_windows s) (t_active_project s)) in
      if Nat.eqb (length tabs) 1 then [] else tabs
  end.

(** ** Assignment *)

Definition retain_stack_row (s : Tabs) (window : nat) (expanded : bool) : Tabs :=
  match t_windows s !! window with
  | None => s
  | Some w =>
      if Bool.eqb (w_stack_expanded w) expanded then s
      else
        let s := append_event s (Log.TabConfigured (w_active w) expanded (w_layout_mode w) (w_stack_parent w)) in
        with_tabs s (alter (set_stack_expanded expanded) window (t_windows s))
  end.

(** The [for] loop over the ancestors: [None] is the early [return false]. *)
Fixpoint find_root (steps : nat) (ws : list Win) (child ancestor : nat) : option nat :=
  match steps with
  | O => Some ancestor
  | S steps =>
      if Nat.eqb ancestor child then None
      else match tab_parent ws ancestor with
      | Some next => find_root steps ws child next
      | None => Some ancestor
      end
  end.

Definition link_tab (s : Tabs) (pane : N) (child : nat) (parent : option N) : Tabs :=
  match t_windows s !! child with
  | None => s
  | Some w =>
      let s := append_event s (Log.TabConfigured pane (w_stack_expanded w) (w_layout_mode w) parent) in
      with_tabs s (alter (set_stack_parent parent) child (t_windows s))
  end.

Definition assign_tab_parent (s : Tabs) (pane : N) (parent : option N) : Tabs * bool :=
  let ws := t_windows s in
  match position (holds pane) ws with
  | None => (s, false)
  | Some child =>
      match parent with
      | None => (link_tab s pane child None, true)
      | Some anchor =>
          match
            (tab ← ws !! child;
             position (fun w => holds anchor w && (w_project w =? w_project tab)) ws)
          with
          | None => (s, false)
          | Some ancestor =>
              match find_root (S (length ws)) ws child ancestor with
              | None => (s, false)
              | Some root => (link_tab (retain_stack_row s root true) pane child parent, true)
              end
          end
      end
  end.

(** The end of [set_tab_parent]: assign, then follow the active Tab. *)
Definition assign_followed (s : Tabs) (pane : N) (parent : option N) : Tabs * bool :=
  match assign_tab_parent s pane parent with
  | (s, false) => (s, false)
  | (s, true) => (with_scroll s true 0, true)
  end.

Definition set_tab_parent (s : Tabs) (pane : N) (parent : option N) : Tabs * bool :=
  match position (holds pane) (t_windows s) with
  | Some window =>
      match t_windows s !! window with
      | Some w =>
          if decide (w_stack_parent w = parent) then
            if bool_decide (parent <> None) then (s, true)
            else if negb (w_stack_expanded w) then (s, true)
            else assign_followed (retain_stack_row s window false) pane parent
          else assign_followed s pane parent
      | None => assign_followed s pane parent
      end
  | None => assign_followed s pane parent
  end.

(** ** Panes leaving a Tab *)

(** The last loop of [repair_stack_anchor]. *)
Definition adopt (replacement : option N) (s : Tabs) (child : N) : Tabs :=
  if decide (Some child = replacement) then s else (assign_tab_parent s child replacement).1.

(** Where the children of a leaving Pane go: another Pane of its Tab, or the
    parent of the Tab. *)
Definition replacement_for (pane : N) (source : Win) : option N :=
  match head (filter (fun id => id ≠ pane) (LayoutNode.pane_ids (w_layout source))) with
  | Some id => Some id
  | None => w_stack_parent source
  end.

(** Without either, the first child becomes the root of the stack. *)
Definition promote (s : Tabs) (children : list N) (replacement : option N) : Tabs * option N :=
  match replacement, children with
  | None, successor :: _ =>
      let s := (assign_tab_parent s successor None).1 in
      let s :=
        match position (holds successor) (t_windows s) with
        | Some window => retain_stack_row s window true
        | None => s
        end in
      (s, Some successor)
  | _, _ => (s, replacement)
  end.

Definition repair_stack_anchor (s : Tabs) (pane : N) : Tabs :=
  match position (holds pane) (t_windows s) with
  | None => s
  | Some index =>
      let root := stack_root (t_windows s) index in
      let s := if Nat.eqb root index then s else retain_stack_row s root true in
      match t_windows s !! index with
      | None => s
      | Some source =>
          let children := map w_active (filter (fun tab => w_stack_parent tab = Some pane) (t_windows s)) in
          let '(s, replacement) := promote s children (replacement_for pane source) in
          foldl (adopt replacement) s children
      end
  end.

Inductive Detached : Set := TabKept | TabClosed.

Definition detached_tab (pane : N) (layout : LayoutNode) (w : Win) : Win := {|
  w_stack_expanded := w_stack_expanded w; w_stack_parent := w_stack_parent w;
  w_layout_mode := w_layout_mode w; w_layout_scroll := w_layout_scroll w; w_project := w_project w;
  w_layout := layout;
  w_active := if w_active w =? pane then LayoutNode.first_pane layout else w_active w;
  w_zoomed := if decide (w_zoomed w = Some pane) then None else w_zoomed w; w_name := w_name w |}.

Definition detach_pane (s : Tabs) (source : nat) (pane : N) : Tabs * Detached :=
  let s := repair_stack_anchor s pane in
  match (w ← t_windows s !! source; LayoutNode.without (w_layout w) pane) with
  | Some layout => (with_tabs s (alter (detached_tab pane layout) source (t_windows s)), TabKept)
  | None =>
      let s := with_tabs s (delete source (t_windows s)) in
      let active := t_active_window s in
      (with_focus s
         (if Nat.ltb source active then pred active
          else if Nat.eqb active source then Nat.min source (pred (length (t_windows s)))
          else active), TabClosed)
  end.

(** [set_pane_layout], before the redraw. *)
Definition set_pane_layout (s : Tabs) (pane : N) (mode : PaneLayout) : Tabs * bool :=
  match position (holds pane) (t_windows s) with
  | None => (s, false)
  | Some window =>
      match t_windows s !! window with
      | None => (s, false)
      | Some w =>
          if decide (w_layout_mode w = mode) then (s, true)
          else
            let s := append_event s (Log.TabConfigured pane (w_stack_expanded w) mode (w_stack_parent w)) in
            (with_tabs s (alter (set_layout_mode mode) window (t_windows s)), true)
      end
  end.

(** ** Order *)

Inductive TabMoveDirection : Set := Previous | Next.

Definition tab_move_target (count current : nat) (direction : TabMoveDirection) : option nat :=
  if Nat.ltb count 2 || Nat.leb count current then None
  else Some (match direction with
    | Previous => Nat.modulo (current + count - 1) count
    | Next => Nat.modulo (current + 1) count
    end).

(** [Vec::swap] for indices in range. *)
Definition swap {X} (l : list X) (i j : nat) : list X :=
  match l !! i, l !! j with
  | Some x, Some y => <[j := x]> (<[i := y]> l)
  | _, _ => l
  end.

Definition swap_tabs (s : Tabs) (step : nat * nat) : Tabs :=
  let '(a, b) := step in
  let s := with_tabs s (swap (t_windows s) a b) in
  if Nat.eqb (t_active_window s) a then with_focus s b
  else if Nat.eqb (t_active_window s) b then with_focus s a
  else s.

Definition move_steps (from to : nat) : list (nat * nat) :=
  if Nat.ltb from to then map (fun i => (i, S i)) (seq from (to - from))
  else map (fun i => (S i, i)) (rev (seq to (from - to))).

Definition move_tab_to (s : Tabs) (window to : nat) : Tabs * bool :=
  match t_windows s !! window with
  | None => (s, false)
  | Some tab =>
      let project := w_project tab in
      let tabs := project_window_indices (t_windows s) project in
      match position (Nat.eqb window) tabs with
      | None => (s, false)
      | Some from =>
          if Nat.eqb from to || Nat.leb (length tabs) to then (s, false)
          else
            let s := append_event s (Log.TabMoved project (N.of_nat from mod U32) (N.of_nat to mod U32)) in
            let s := foldl swap_tabs s
              (map (fun '(a, b) => (nth a tabs 0%nat, nth b tabs 0%nat)) (move_steps from to)) in
            (if project =? t_active_project s then with_scroll s true (t_stack_scroll s) else s, true)
      end
  end.

Definition move_tab (s : Tabs) (window : nat) (direction : TabMoveDirection) : Tabs * bool :=
  match t_windows s !! window with
  | None => (s, false)
  | Some tab =>
      let tabs := project_window_indices (t_windows s) (w_project tab) in
      if Nat.ltb (length tabs) 2 then (s, false)
      else match position (Nat.eqb window) tabs with
      | None => (s, false)
      | Some from =>
          match tab_move_target (length tabs) from direction with
          | None => (s, false)
          | Some to => move_tab_to s window to
          end
      end
  end.
