(* ===== verification/StacksSpec.v ===== *)
(** * Tab stacks are a forest

    The parent links of Tabs form a forest: an assignment is accepted exactly
    when it keeps it one, a Pane leaves its Tab without taking a stack apart,
    a move within a Project changes the order alone, and the events handed to
    the log rebuild the stacks ([Stacks.v], [Replay.v]). *)

From S2P Require Import Prelude Layout Arrange Events Replay Stacks.
#[local] Open Scope u_scope.

(** ** Forests given by parent links *)

Section Forest.
Implicit Types par : nat -> option nat.

(** A node, its parent, and so on up to the root. *)
Inductive lineage par : nat -> list nat -> Prop :=
| lineage_top u : par u = None -> lineage par u [u]
| lineage_up u v l : par u = Some v -> lineage par v l -> lineage par u (u :: l).

Definition ancestor par (a u : nat) : Prop := rtc (fun i j => par i = Some j) u a.
Definition forest par : Prop := forall u, exists l, lineage par u l.

Lemma lineage_fun par u l l' : lineage par u l -> lineage par u l' -> l = l'.
Proof. intros H. revert l'. induction H; intros l'; inversion 1; simplify_eq; [done|]. f_equal; eauto. Qed.

Lemma lineage_head par u l : lineage par u l -> exists t, l = u :: t.
Proof. destruct 1; eauto. Qed.

Lemma lineage_self par u l : lineage par u l -> u ∈ l.
Proof. destruct 1; left. Qed.

Lemma lineage_suffix par u l v : lineage par u l -> v ∈ l -> exists l1 l2, l = l1 ++ l2 /\ lineage par v l2.
Proof.
  induction 1 as [u E|u w l E H IH]; intros Hv.
  - apply list_elem_of_singleton in Hv as ->. exists [], [u]. split; [done|by constructor].
  - apply elem_of_cons in Hv as [->|Hv]; [by exists [], (u :: l); split; [|econstructor]|].
    destruct (IH Hv) as (l1&l2&->&?). by exists (u :: l1), l2.
Qed.

Lemma lineage_NoDup par u l : lineage par u l -> NoDup l.
Proof.
  induction 1 as [u E|u w l E H IH]; [apply NoDup_singleton|]. constructor; [|done]. intros Hu.
  destruct (lineage_suffix _ _ _ _ H Hu) as (l1&l2&->&Hl).
  pose proof (lineage_fun _ _ _ _ Hl (lineage_up _ _ _ _ E H)) as Heq.
  apply (f_equal length) in Heq. cbn in Heq. rewrite length_app in Heq. lia.
Qed.

Lemma lineage_ancestor par u l a : lineage par u l -> a ∈ l <-> ancestor par a u.
Proof.
  intros H. split.
  - revert a. induction H as [u E|u w l E H IH]; intros a Ha.
    + apply list_elem_of_singleton in Ha as ->. apply rtc_refl.
    + apply elem_of_cons in Ha as [->|Ha]; [apply rtc_refl|]. eapply rtc_l; [exact E|]. by apply IH.
  - intros Ha. revert l H. induction Ha as [u|u v a E Ha IH]; intros l H; [by apply lineage_self in H|].
    inversion H; simplify_eq. right. by apply IH.
Qed.

(** New parents for the nodes of [K], all of them now under the root [r]. *)
Lemma relink par par' (K : nat -> Prop) {Kd : forall k, Decision (K k)} r :
  (forall u, ~ K u -> par' u = par u) ->
  (forall k, K k -> exists l, lineage par' k l /\ last l = Some r) ->
  forall u l, lineage par u l ->
  exists l', lineage par' u l' /\ last l' = (if decide (Exists K l) then Some r else last l).
Proof.
  intros Hout Hin u l H. induction H as [u E|u v l E H IH].
  - destruct (decide (K u)) as [Hk|Hk].
    + destruct (Hin u Hk) as (l'&?&?). exists l'. split; [done|]. rewrite decide_True; [done|by constructor].
    + exists [u]. split; [constructor; by rewrite Hout|]. rewrite decide_False; [done|].
      intros [?|Hx]%Exists_cons; [done|by inversion Hx].
  - destruct (decide (K u)) as [Hk|Hk].
    + destruct (Hin u Hk) as (l'&?&?). exists l'. split; [done|]. rewrite decide_True; [done|by constructor].
    + destruct IH as (l'&Hl'&Hlast). exists (u :: l').
      split; [econstructor; [by rewrite Hout|done]|].
      destruct (lineage_head _ _ _ Hl') as [t ->]. destruct (lineage_head _ _ _ H) as [t' ->].
      change (last (u :: v :: t)) with (last (v :: t)). change (last (u :: v :: t')) with (last (v :: t')).
      rewrite Hlast. destruct (decide (Exists K (v :: t'))) as [Hx|Hx].
      * rewrite decide_True; [done|by right].
      * rewrite decide_False; [done|]. by intros [?|?]%Exists_cons.
Qed.

(** A lineage that avoids the changed nodes is unchanged. *)
Lemma lineage_kept par par' (K : nat -> Prop) u l :
  (forall u, ~ K u -> par' u = par u) -> lineage par u l -> Forall (fun v => ~ K v) l -> lineage par' u l.
Proof.
  intros Hout H. induction H as [u E|u v l E H IH]; intros Hk; apply Forall_cons in Hk as [Hu Hk].
  - constructor. by rewrite Hout.
  - econstructor; [by rewrite Hout|auto].
Qed.

Lemma lineage_ext par par' u l : (forall u, par' u = par u) -> lineage par u l -> lineage par' u l.
Proof. intros Hp H. eapply (lineage_kept par par' (fun _ => False)); [auto|done|]. apply Forall_forall. auto. Qed.

Lemma lineage_last par u l r : lineage par u l -> last l = Some r -> par r = None.
Proof. induction 1 as [u E|u v l E H IH]; [by intros [= <-]|]. by destruct H. Qed.

(** No node is the parent of one of its ancestors. *)
Lemma no_cycle par u v : forest par -> par u = Some v -> ~ ancestor par u v.
Proof.
  intros Hf E Ha. destruct (Hf v) as [l Hl]. apply (lineage_ancestor _ _ _ _ Hl) in Ha.
  pose proof (lineage_NoDup _ _ _ (lineage_up _ _ _ _ E Hl)) as Hnd. by apply NoDup_cons in Hnd as [? _].
Qed.
End Forest.

(** ** Searching *)

Lemma position_hit {X} (p : X -> bool) l i :
  position p l = Some i -> exists x, l !! i = Some x /\ p x = true.
Proof.
  revert i. induction l as [|x l IH]; intros i; [done|]. cbn. destruct (p x) eqn:E.
  - intros [= <-]. by exists x.
  - destruct (position p l) as [j|] eqn:Ej; [|done]. intros [= <-]. by apply IH.
Qed.

Lemma position_miss {X} (p : X -> bool) l : position p l = None <-> forall i x, l !! i = Some x -> p x = false.
Proof.
  induction l as [|x l IH]; cbn; [by split; [intros ? []|]|]. destruct (p x) eqn:E.
  - split; [done|]. intros H. by rewrite (H 0%nat x) in E.
  - destruct (position p l) as [j|]; cbn.
    + split; [done|]. intros H. assert (Some j = None) by (apply IH; intros i y Hy; apply (H (S i) y Hy)). done.
    + split; [|done]. intros _ [|i] y Hy; [by simplify_eq/=|]. by eapply IH.
Qed.

Lemma position_unique {X} (p : X -> bool) l i x :
  l !! i = Some x -> p x = true -> (forall j y, l !! j = Some y -> p y = true -> j = i) -> position p l = Some i.
Proof.
  intros Hx Hp Hu. destruct (position p l) as [j|] eqn:E.
  - apply position_hit in E as (y&Hy&Hpy). by rewrite (Hu j y).
  - rewrite position_miss in E. specialize (E _ _ Hx). congruence.
Qed.

Lemma position_map {X Y} (f : X -> Y) (p : Y -> bool) l : position p (map f l) = position (fun x => p (f x)) l.
Proof. induction l as [|x l IH]; [done|]. cbn. destruct (p (f x)); [done|]. by rewrite IH. Qed.

Lemma position_ext {X} (p q : X -> bool) l : (forall x, p x = q x) -> position p l = position q l.
Proof. intros H. induction l as [|x l IH]; [done|]. cbn. by rewrite H, IH. Qed.

Lemma position_alter {X} (p : X -> bool) (f : X -> X) l i x :
  l !! i = Some x -> p (f x) = p x -> position p (alter f i l) = position p l.
Proof.
  intros Hx Hp. revert i Hx. induction l as [|y l IH]; intros [|i] Hx; try done.
  - injection Hx as ->. cbn. by rewrite Hp.
  - cbn. by rewrite IH.
Qed.

(** ** Well-formed Tabs *)

Definition owns (ws : list Win) (pane : N) (i : nat) : Prop := exists w, ws !! i = Some w /\ holds pane w = true.

(** A Pane is in one Tab; the active Pane is in its own; a parent link names a
    Pane of the same Project; the links have no cycle. *)
Record wf (ws : list Win) : Prop := {
  wf_disjoint : forall p i j, owns ws p i -> owns ws p j -> i = j;
  wf_active : forall i w, ws !! i = Some w -> holds (w_active w) w = true;
  wf_anchored : forall i w q, ws !! i = Some w -> w_stack_parent w = Some q ->
    exists j v, ws !! j = Some v /\ w_project v = w_project w /\ holds q v = true;
  wf_forest : forest (tab_parent ws) }.

(** What stack operations never touch. *)
Definition skeleton (w : Win) : N * LayoutNode * N * N * option N * option str :=
  (w_project w, w_layout w, w_active w, w_layout_scroll w, w_zoomed w, w_name w).

Definition links (ws : list Win) : list (option N) := map w_stack_parent ws.

Lemma skeleton_lookup ws ws' i w : map skeleton ws = map skeleton ws' -> ws !! i = Some w ->
  exists w', ws' !! i = Some w' /\ skeleton w' = skeleton w.
Proof.
  intros H Hw. apply (f_equal (fun l => l !! i)) in H. rewrite !list_lookup_fmap, Hw in H. cbn in H.
  destruct (ws' !! i) as [w'|]; [|done]. apply (inj Some) in H. by exists w'.
Qed.

Lemma skeleton_holds w w' p : skeleton w' = skeleton w -> holds p w' = holds p w.
Proof. unfold skeleton, holds. by intros [= _ -> _ _ _ _]. Qed.

Lemma skeleton_owns ws ws' p i : map skeleton ws = map skeleton ws' -> owns ws p i -> owns ws' p i.
Proof.
  intros H (w&Hw&Hp). destruct (skeleton_lookup _ _ _ _ H Hw) as (w'&?&Hs). exists w'. split; [done|].
  by rewrite (skeleton_holds _ _ _ Hs).
Qed.

Lemma holds_pane_ids p w : holds p w = true <-> p ∈ LayoutNode.pane_ids (w_layout w).
Proof. unfold holds. rewrite contains_pane_ids. apply bool_decide_eq_true. Qed.

(** The parent of a Tab, from its link alone. *)
Definition parent_by (ws : list Win) (project : N) (link : option N) : option nat :=
  pane ← link; position (fun parent => (w_project parent =? project) && holds pane parent) ws.

Lemma tab_parent_by ws i w : ws !! i = Some w -> tab_parent ws i = parent_by ws (w_project w) (w_stack_parent w).
Proof. unfold tab_parent, parent_by. by intros ->. Qed.

Lemma parent_by_skeleton ws ws' project link :
  map skeleton ws = map skeleton ws' -> parent_by ws' project link = parent_by ws project link.
Proof.
  intros H. unfold parent_by. destruct link as [pane|]; [|done]. cbn.
  pose (p := fun k : N * LayoutNode * N * N * option N * option str =>
    let '(pr, layout, _, _, _, _) := k in (pr =? project) && LayoutNode.contains_pane layout pane).
  change (position (fun w => p (skeleton w)) ws' = position (fun w => p (skeleton w)) ws).
  by rewrite <- !(position_map skeleton p), H.
Qed.

Lemma tab_parent_kept ws ws' i :
  map skeleton ws = map skeleton ws' -> links ws !! i = links ws' !! i -> tab_parent ws' i = tab_parent ws i.
Proof.
  intros H Hl. unfold links in Hl. rewrite !list_lookup_fmap in Hl.
  destruct (ws !! i) as [w|] eqn:E.
  - destruct (skeleton_lookup _ _ _ _ H E) as (w'&E'&Hs). rewrite E' in Hl. cbn in Hl.
    rewrite (tab_parent_by _ _ _ E), (tab_parent_by _ _ _ E'), (parent_by_skeleton ws ws') by done.
    unfold skeleton in Hs. simplify_eq. congruence.
  - unfold tab_parent. rewrite E. destruct (ws' !! i); [done|done].
Qed.

Lemma parent_by_anchor ws project q j v :
  wf ws -> ws !! j = Some v -> w_project v = project -> holds q v = true -> parent_by ws project (Some q) = Some j.
Proof.
  intros Hwf Hv Hp Hq. cbn. eapply position_unique; [exact Hv|by rewrite Hp, N.eqb_refl|].
  intros k y Hy [_ Hh]%andb_prop. eapply (wf_disjoint _ Hwf q); eexists; eauto.
Qed.

Lemma tab_parent_some ws i j : tab_parent ws i = Some j ->
  exists w q v, ws !! i = Some w /\ w_stack_parent w = Some q /\ ws !! j = Some v
    /\ w_project v = w_project w /\ holds q v = true.
Proof.
  unfold tab_parent. destruct (ws !! i) as [w|] eqn:E; [|done]. cbn.
  destruct (w_stack_parent w) as [q|] eqn:Eq; [|done]. cbn. intros (v&Hv&[Hp Hh]%andb_prop)%position_hit.
  exists w, q, v. by rewrite N.eqb_eq in Hp.
Qed.

Lemma tab_parent_none ws i w : wf ws -> ws !! i = Some w -> tab_parent ws i = None -> w_stack_parent w = None.
Proof.
  intros Hwf Hw Hn. destruct (w_stack_parent w) as [q|] eqn:Eq; [|done].
  destruct (wf_anchored _ Hwf _ _ _ Hw Eq) as (j&v&Hv&Hp&Hq).
  by rewrite (tab_parent_by _ _ _ Hw), Eq, (parent_by_anchor _ _ _ _ _ Hwf Hv Hp Hq) in Hn.
Qed.

Lemma tab_parent_range ws i j : tab_parent ws i = Some j -> (i < length ws)%nat /\ (j < length ws)%nat.
Proof.
  intros (w&q&v&Hw&_&Hv&_)%tab_parent_some. split; eapply lookup_lt_Some; eauto.
Qed.

(** ** The loops reach the root *)

Lemma lineage_range ws u l : lineage (tab_parent ws) u l -> l = [u] \/ Forall (fun v => v < length ws)%nat l.
Proof.
  induction 1 as [u E|u v l E H [->|IH]]; [by left|right..].
  - apply tab_parent_range in E as []. by repeat constructor.
  - constructor; [|done]. by apply tab_parent_range in E as [].
Qed.

Lemma lineage_length ws u l : lineage (tab_parent ws) u l -> (length l <= S (length ws))%nat /\ (l = [u] \/ length l <= length ws)%nat.
Proof.
  intros H. destruct (lineage_range _ _ _ H) as [->|Hr]; [cbn; split; [lia|by left]|].
  assert (length l <= length (seq 0 (length ws)))%nat as Hle.
  { apply submseteq_length, NoDup_submseteq; [by eapply lineage_NoDup|].
    intros x Hx. rewrite elem_of_seq. rewrite Forall_forall in Hr. specialize (Hr x Hx). lia. }
  rewrite length_seq in Hle. split; [lia|by right].
Qed.

Lemma climb_lineage ws u l n : lineage (tab_parent ws) u l -> (length l <= S n)%nat -> last l = Some (climb n ws u).
Proof.
  intros H. revert n. induction H as [u E|u v l E H IH]; intros n Hn.
  - destruct n as [|n]; [done|]. cbn. by rewrite E.
  - pose proof (lineage_NoDup _ _ _ (lineage_up _ _ _ _ E H)) as Hnd.
    destruct n as [|n]; [by destruct H; cbn in Hn; lia|]. cbn [climb]. rewrite E.
    destruct (Nat.eqb_spec v u) as [->|_]; [by apply lineage_self in H; apply NoDup_cons in Hnd as []|].
    rewrite <- IH by (cbn in Hn; lia). by destruct H.
Qed.

Lemma stack_root_lineage ws u l : lineage (tab_parent ws) u l -> last l = Some (stack_root ws u).
Proof. intros H. eapply climb_lineage; [done|]. by apply lineage_length in H as []. Qed.

Lemma find_root_lineage ws c u l n : lineage (tab_parent ws) u l -> (length l <= n)%nat ->
  find_root n ws c u = if decide (c ∈ l) then None else last l.
Proof.
  intros H. revert n. induction H as [u E|u v l E H IH]; intros n Hn; (destruct n as [|n]; [by cbn in Hn; lia|]); cbn [find_root].
  - destruct (Nat.eqb_spec u c) as [->|Hne]; [rewrite decide_True; [done|left]|].
    rewrite E, decide_False; [done|]. set_solver.
  - destruct (Nat.eqb_spec u c) as [->|Hne]; [rewrite decide_True; [done|left]|].
    rewrite E, (IH n) by (cbn in Hn; lia). destruct (lineage_head _ _ _ H) as [t ->].
    destruct (decide (c ∈ v :: t)); [rewrite decide_True; [done|by right]|rewrite decide_False; [done|set_solver]].
Qed.

Lemma stack_root_parent ws u v : wf ws -> tab_parent ws u = Some v -> stack_root ws u = stack_root ws v.
Proof.
  intros Hwf E. destruct (wf_forest _ Hwf v) as [l Hl]. pose proof (lineage_up _ _ _ _ E Hl) as Hu.
  apply stack_root_lineage in Hu. pose proof (stack_root_lineage _ _ _ Hl) as Hv.
  destruct (lineage_head _ _ _ Hl) as [t ->]. cbn in *. congruence.
Qed.

Lemma stack_root_top ws u : tab_parent ws u = None -> stack_root ws u = u.
Proof. intros E. pose proof (stack_root_lineage _ _ _ (lineage_top _ _ E)) as H. by simplify_eq/=. Qed.

(** ** One Tab at a time *)

Lemma map_alter_id {X Y} (g : X -> Y) (f : X -> X) i l : (forall x, g (f x) = g x) -> map g (alter f i l) = map g l.
Proof. intros H. revert i. induction l as [|x l IH]; intros [|i]; cbn; try done; f_equal; auto. Qed.

Lemma retain_windows s i b : t_windows (retain_stack_row s i b) = alter (set_stack_expanded b) i (t_windows s).
Proof.
  unfold retain_stack_row. destruct (t_windows s !! i) as [w|] eqn:E.
  - destruct (Bool.eqb (w_stack_expanded w) b) eqn:Eb; [|unfold append_event; by destruct (t_event_writes_enabled s)].
    apply Bool.eqb_prop in Eb. symmetry. apply list_eq. intros j. destruct (decide (i = j)) as [<-|Hne].
    + rewrite list_lookup_alter_eq, E. cbn. subst b. by destruct w.
    + by rewrite list_lookup_alter_ne.
  - symmetry. apply list_eq. intros j. destruct (decide (i = j)) as [<-|Hne].
    + rewrite list_lookup_alter_eq, E. done.
    + by rewrite list_lookup_alter_ne.
Qed.

Lemma link_windows s pane c parent : t_windows (link_tab s pane c parent) = alter (set_stack_parent parent) c (t_windows s).
Proof.
  unfold link_tab. destruct (t_windows s !! c) as [w|] eqn:E.
  - unfold append_event. by destruct (t_event_writes_enabled s).
  - symmetry. apply list_eq. intros j. destruct (decide (c = j)) as [<-|Hne].
    + rewrite list_lookup_alter_eq, E. done.
    + by rewrite list_lookup_alter_ne.
Qed.

Lemma links_parent ws c parent : links (alter (set_stack_parent parent) c ws) = <[c := parent]> (links ws).
Proof. revert c. unfold links. induction ws as [|w ws IH]; intros [|c]; cbn; try done. by rewrite IH. Qed.

Lemma wf_links ws ws' : wf ws -> map skeleton ws = map skeleton ws' -> links ws = links ws' -> wf ws'.
Proof.
  intros Hwf Hs Hl. assert (Hs' := eq_sym Hs). split.
  - intros p i j Hi Hj. apply (wf_disjoint _ Hwf p); by eapply skeleton_owns.
  - intros i w' Hw'. destruct (skeleton_lookup _ _ _ _ Hs' Hw') as (w&Hw&He).
    assert (w_active w' = w_active w) as -> by (unfold skeleton in He; congruence).
    rewrite <- (skeleton_holds _ _ _ He). by eapply wf_active.
  - intros i w' q Hw' Hq. destruct (skeleton_lookup _ _ _ _ Hs' Hw') as (w&Hw&He).
    assert (w_stack_parent w = Some q) as Hq'.
    { apply (f_equal (fun l => l !! i)) in Hl. unfold links in Hl. rewrite !list_lookup_fmap, Hw, Hw' in Hl. cbn in Hl. congruence. }
    destruct (wf_anchored _ Hwf _ _ _ Hw Hq') as (j&v&Hv&Hp&Hh).
    destruct (skeleton_lookup _ _ _ _ Hs Hv) as (v'&Hv'&He'). exists j, v'. split; [done|].
    rewrite (skeleton_holds _ _ _ He'). split; [unfold skeleton in He, He'; congruence|done].
  - intros u. destruct (wf_forest _ Hwf u) as [l Hll]. exists l. eapply lineage_ext; [|done].
    intros i. apply tab_parent_kept; [done|by rewrite Hl].
Qed.

(** What every stack operation keeps besides the windows' own content. *)
Record kept (s s' : Tabs) : Prop := {
  kept_skeleton : map skeleton (t_windows s) = map skeleton (t_windows s');
  kept_focus : t_active_window s' = t_active_window s /\ t_active_project s' = t_active_project s;
  kept_writes : t_event_writes_enabled s' = t_event_writes_enabled s }.

#[export] Instance kept_preorder : PreOrder kept.
Proof.
  split; [by intros s; split|]. intros a b c [H1 [? ?] ?] [H2 [? ?] ?]. split; [by rewrite H1|split; congruence|congruence].
Qed.

Lemma append_event_fields s e :
  t_windows (append_event s e) = t_windows s /\ kept s (append_event s e)
  /\ (t_event_writes_enabled s = true -> t_log (append_event s e) = t_log s ++ [e]).
Proof.
  unfold append_event. destruct (t_event_writes_enabled s) eqn:E; split_and!; try done; by split.
Qed.

Lemma kept_alter s s' (f : Win -> Win) i : kept s s' -> (forall w, skeleton (f w) = skeleton w) ->
  kept s (with_tabs s' (alter f i (t_windows s'))).
Proof. intros [Hs ? ?] Hf. split; cbn; [by rewrite map_alter_id|done..]. Qed.

Lemma retain_kept s i b : kept s (retain_stack_row s i b).
Proof.
  unfold retain_stack_row. destruct (t_windows s !! i) as [w|]; [|done]. destruct (Bool.eqb _ _); [done|].
  apply kept_alter; [apply append_event_fields|done].
Qed.

Lemma link_kept s pane c parent : kept s (link_tab s pane c parent).
Proof.
  unfold link_tab. destruct (t_windows s !! c) as [w|]; [|done]. apply kept_alter; [apply append_event_fields|done].
Qed.

Lemma retain_wf s i b : wf (t_windows s) -> wf (t_windows (retain_stack_row s i b)).
Proof.
  intros H. eapply wf_links; [done|apply retain_kept|]. rewrite retain_windows. symmetry. by apply map_alter_id.
Qed.

(** ** Replaying the recorded events *)

(** A window of the recovered structure that agrees with a live Tab. *)
Definition mirrors (w : Win) (sw : StructuralWindow) : Prop :=
  sw_stack_expanded sw = w_stack_expanded w /\ sw_stack_parent sw = w_stack_parent w
  /\ sw_layout_mode sw = w_layout_mode w /\ sw_project sw = w_project w /\ sw_layout sw = w_layout w
  /\ sw_active sw = w_active w /\ sw_zoomed sw = w_zoomed w /\ sw_name sw = w_name w.

Definition replayed (p : StructuralProjection) (es : list LogEvent) : StructuralProjection :=
  foldl (fun p e => default p (structure_update e p)) p es.

(** The events an operation hands to the log turn any structure that agrees
    with the Tabs before it into one that agrees with them after it. *)
Definition recorded (s s' : Tabs) : Prop :=
  exists es, t_log s' = t_log s ++ es
  /\ forall p, Forall2 mirrors (t_windows s) (sr_windows p) ->
       Forall2 mirrors (t_windows s') (sr_windows (replayed p es)).

#[export] Instance recorded_preorder : PreOrder recorded.
Proof.
  split.
  - intros s. exists []. by rewrite app_nil_r.
  - intros a b c (e1&H1&R1) (e2&H2&R2). exists (e1 ++ e2). split; [by rewrite H2, H1, app_assoc|].
    intros p Hp. unfold replayed in *. rewrite foldl_app. by apply R2, R1.
Qed.

Lemma update_mirrors (f : Win -> Win) (g : StructuralWindow -> StructuralWindow) pane ws sws i w :
  Forall2 mirrors ws sws -> ws !! i = Some w -> holds pane w = true ->
  (forall j v, ws !! j = Some v -> holds pane v = true -> j = i) ->
  (forall sw, mirrors w sw -> mirrors (f w) (g sw)) ->
  exists sws', update_first (fun sw => LayoutNode.contains_pane (sw_layout sw) pane) g sws = Some sws'
    /\ Forall2 mirrors (alter f i ws) sws'.
Proof.
  intros H. revert i. induction H as [|v sv ws sws Hv H IH]; intros i Hw Hp Hu Hg; [done|].
  assert (LayoutNode.contains_pane (sw_layout sv) pane = holds pane v) as Hh by (unfold holds; by destruct Hv as (_&_&_&_&->&_)).
  cbn [update_first]. rewrite Hh. destruct i as [|i].
  - simplify_eq/=. rewrite Hp. eexists; split; [done|]. constructor; auto.
  - destruct (holds pane v) eqn:E; [by specialize (Hu 0%nat v eq_refl E)|].
    destruct (IH i) as (sws'&->&?); [done|done| |done|].
    { intros j x Hx Hhx. specialize (Hu (S j) x Hx Hhx). lia. }
    eexists; split; [done|]. by constructor.
Qed.

Lemma configured_recorded s i w pane expanded mode parent (f : Win -> Win) :
  wf (t_windows s) -> t_event_writes_enabled s = true -> t_windows s !! i = Some w -> holds pane w = true ->
  (forall sw, mirrors w sw -> mirrors (f w) (set_tab mode parent expanded sw)) ->
  recorded s (with_tabs (append_event s (Log.TabConfigured pane expanded mode parent)) (alter f i (t_windows s))).
Proof.
  intros Hwf Hen Hw Hp Hf. exists [Log.TabConfigured pane expanded mode parent]. split.
  - cbn. by apply append_event_fields.
  - intros p Hm. cbn.
    destruct (update_mirrors f (set_tab mode parent expanded) pane _ _ _ _ Hm Hw Hp) as (sws'&E&Hs); [|done|].
    + intros j v Hv Hh. eapply (wf_disjoint _ Hwf pane); eexists; eauto.
    + rewrite E. cbn. done.
Qed.

Lemma retain_recorded s i b : wf (t_windows s) -> t_event_writes_enabled s = true -> recorded s (retain_stack_row s i b).
Proof.
  intros Hwf Hen. unfold retain_stack_row. destruct (t_windows s !! i) as [w|] eqn:E; [|done].
  destruct (Bool.eqb _ _); [done|]. destruct (append_event_fields s (Log.TabConfigured (w_active w) b (w_layout_mode w) (w_stack_parent w))) as (->&_&_).
  eapply configured_recorded; [done..|by eapply wf_active|]. intros sw (?&?&?&?&?&?&?&?). by repeat split.
Qed.

Lemma link_recorded s pane c parent : wf (t_windows s) -> t_event_writes_enabled s = true -> owns (t_windows s) pane c ->
  recorded s (link_tab s pane c parent).
Proof.
  intros Hwf Hen (w&Hw&Hp). unfold link_tab. rewrite Hw.
  destruct (append_event_fields s (Log.TabConfigured pane (w_stack_expanded w) (w_layout_mode w) parent)) as (->&_&_).
  eapply configured_recorded; [done..|]. intros sw (?&?&?&?&?&?&?&?). by repeat split.
Qed.

(** ** Assignment *)

(** The child is free to go under the anchor: its Tab exists, in the same
    Project, and is not the child or below it. *)
Definition assignable (ws : list Win) (pane : N) (parent : option N) : Prop :=
  exists c w, ws !! c = Some w /\ holds pane w = true
  /\ forall q, parent = Some q -> exists a v, ws !! a = Some v /\ w_project v = w_project w /\ holds q v = true
       /\ ~ ancestor (tab_parent ws) c a.

Lemma owner_position ws p i : wf ws -> owns ws p i -> position (holds p) ws = Some i.
Proof.
  intros Hwf (w&Hw&Hp). eapply position_unique; [done..|]. intros j y Hy Hh.
  eapply (wf_disjoint _ Hwf p); eexists; eauto.
Qed.

Lemma anchor_position ws q project : position (fun w => holds q w && (w_project w =? project)) ws = parent_by ws project (Some q).
Proof. cbn. apply position_ext. intros w. apply andb_comm. Qed.

(** A link that is set: the parents change at the child alone. *)
Lemma set_link ws ws' c parent w :
  wf ws -> map skeleton ws = map skeleton ws' -> ws !! c = Some w -> links ws' = <[c := parent]> (links ws) ->
  (forall u, u ≠ c -> tab_parent ws' u = tab_parent ws u) /\ tab_parent ws' c = parent_by ws (w_project w) parent.
Proof.
  intros Hwf Hs Hw Hl. split.
  - intros u Hu. apply tab_parent_kept; [done|]. by rewrite Hl, list_lookup_insert_ne.
  - destruct (skeleton_lookup _ _ _ _ Hs Hw) as (w'&Hw'&He). rewrite (tab_parent_by _ _ _ Hw').
    assert (w_stack_parent w' = parent) as ->.
    { apply (f_equal (fun l => l !! c)) in Hl. rewrite list_lookup_insert_eq in Hl.
      - unfold links in Hl. rewrite list_lookup_fmap, Hw' in Hl. cbn in Hl. congruence.
      - unfold links. rewrite length_fmap. by eapply lookup_lt_Some. }
    rewrite (parent_by_skeleton ws ws') by done. by replace (w_project w') with (w_project w) by (unfold skeleton in He; congruence).
Qed.

Lemma set_link_wf ws ws' c parent w :
  wf ws -> map skeleton ws = map skeleton ws' -> ws !! c = Some w -> links ws' = <[c := parent]> (links ws) ->
  (parent = None \/ exists a, parent_by ws (w_project w) parent = Some a /\ ~ ancestor (tab_parent ws) c a) ->
  wf ws'.
Proof.
  intros Hwf Hs Hw Hl Hpar. destruct (set_link _ _ _ _ _ Hwf Hs Hw Hl) as [Hout Hc]. assert (Hs' := eq_sym Hs). split.
  - intros p i j Hi Hj. apply (wf_disjoint _ Hwf p); by eapply skeleton_owns.
  - intros i w' Hw'. destruct (skeleton_lookup _ _ _ _ Hs' Hw') as (v&Hv&He).
    assert (w_active w' = w_active v) as -> by (unfold skeleton in He; congruence).
    rewrite <- (skeleton_holds _ _ _ He). by eapply wf_active.
  - intros i w' q Hw' Hq. destruct (skeleton_lookup _ _ _ _ Hs' Hw') as (v&Hv&He).
    assert (exists j x, ws !! j = Some x /\ w_project x = w_project v /\ holds q x = true) as (j&x&Hx&Hp&Hh).
    { apply (f_equal (fun l => l !! i)) in Hl. unfold links in Hl. rewrite list_lookup_fmap, Hw' in Hl. cbn in Hl.
      destruct (decide (c = i)) as [<-|Hne].
      - rewrite list_lookup_insert_eq in Hl by (rewrite length_map; by eapply lookup_lt_Some).
        simplify_eq. rewrite Hq in Hpar. destruct Hpar as [|(a&Ha&_)]; [done|]. cbn in Ha.
        apply position_hit in Ha as (x&Hx&[Hp%N.eqb_eq Hh]%andb_prop). eauto 6.
      - rewrite list_lookup_insert_ne, list_lookup_fmap, Hv in Hl by done. cbn in Hl.
        eapply wf_anchored; [done..|]. congruence. }
    destruct (skeleton_lookup _ _ _ _ Hs Hx) as (x'&Hx'&He'). exists j, x'. split; [done|].
    rewrite (skeleton_holds _ _ _ He'). split; [unfold skeleton in He, He'; congruence|done].
  - intros u. destruct (wf_forest _ Hwf u) as [lu Hu].
    assert (exists l r, lineage (tab_parent ws') c l /\ last l = Some r) as (lc&r&Hlc&Hr).
    { destruct Hpar as [->|(a&Ha&Hna)]; [exists [c], c; split; [by constructor|done]|].
      destruct (wf_forest _ Hwf a) as [la Hla]. exists (c :: la), (stack_root ws a). split.
      - econstructor; [by rewrite Hc|]. eapply (lineage_kept _ _ (fun u => u = c)); [done..|].
        apply Forall_forall. intros x Hx ->. apply Hna. by eapply lineage_ancestor.
      - rewrite <- (stack_root_lineage _ _ _ Hla). by destruct Hla. }
    destruct (relink (tab_parent ws) (tab_parent ws') (fun u => u = c) r) with (u := u) (l := lu) as (l'&?&_); eauto.
    intros k ->. eauto.
Qed.

(** An accepted assignment: one link. *)
Lemma assign_accepted s pane c w parent :
  wf (t_windows s) -> t_windows s !! c = Some w -> holds pane w = true ->
  (parent = None \/ exists a, parent_by (t_windows s) (w_project w) parent = Some a /\ ~ ancestor (tab_parent (t_windows s)) c a) ->
  let '(s', ok) := assign_tab_parent s pane parent in
  ok = true /\ kept s s' /\ wf (t_windows s') /\ links (t_windows s') = <[c := parent]> (links (t_windows s))
  /\ (t_event_writes_enabled s = true -> recorded s s').
Proof.
  intros Hwf Hw Hp Hpar. unfold assign_tab_parent.
  assert (owns (t_windows s) pane c) as Ho by (by exists w).
  rewrite (owner_position _ _ _ Hwf Ho), Hw. cbn [mbind option_bind].
  assert (forall s1, kept s s1 -> wf (t_windows s1) -> links (t_windows s1) = links (t_windows s) ->
    (t_event_writes_enabled s = true -> recorded s s1) ->
    let s' := link_tab s1 pane c parent in
    true = true /\ kept s s' /\ wf (t_windows s') /\ links (t_windows s') = <[c := parent]> (links (t_windows s))
    /\ (t_event_writes_enabled s = true -> recorded s s')) as Hlink.
  { intros s1 Hk Hwf1 Hl Hr s'. assert (kept s s') as Hk' by (transitivity s1; [done|apply link_kept]).
    assert (links (t_windows s') = <[c := parent]> (links (t_windows s))) as Hl'.
    { unfold s'. by rewrite link_windows, links_parent, Hl. }
    split_and!; [done|done| |done|].
    - eapply set_link_wf; [exact Hwf|apply Hk'|done..].
    - intros Hen. transitivity s1; [by apply Hr|]. apply link_recorded; [done|by rewrite (kept_writes _ _ Hk)|].
      eapply skeleton_owns; [apply Hk|done]. }
  destruct parent as [q|]; [|by apply Hlink]. destruct Hpar as [|(a&Ha&Hna)]; [done|].
  rewrite anchor_position, Ha. destruct (wf_forest _ Hwf a) as [la Hla].
  rewrite (find_root_lineage _ _ _ _ _ Hla) by (apply lineage_length in Hla as []; lia).
  rewrite decide_False by (by rewrite (lineage_ancestor _ _ _ _ Hla)).
  rewrite (stack_root_lineage _ _ _ Hla). apply Hlink.
  - apply retain_kept.
  - by apply retain_wf.
  - rewrite retain_windows. by apply map_alter_id.
  - intros Hen. by apply retain_recorded.
Qed.

Lemma assignable_parent ws c w pane parent : wf ws -> ws !! c = Some w -> holds pane w = true ->
  assignable ws pane parent <->
  (parent = None \/ exists a, parent_by ws (w_project w) parent = Some a /\ ~ ancestor (tab_parent ws) c a).
Proof.
  intros Hwf Hw Hp. split.
  - intros (c'&w'&Hw'&Hp'&Hq). assert (c' = c) as -> by (eapply (wf_disjoint _ Hwf pane); eexists; eauto).
    simplify_eq. destruct parent as [q|]; [right|by left]. destruct (Hq q eq_refl) as (a&v&Hv&Hpr&Hh&Hna).
    exists a. split; [by eapply parent_by_anchor|done].
  - intros Hpar. exists c, w. split_and!; [done..|]. intros q ->. destruct Hpar as [|(a&Ha&Hna)]; [done|].
    cbn in Ha. apply position_hit in Ha as (v&Hv&[Hpr%N.eqb_eq Hh]%andb_prop). by exists a, v.
Qed.

(** A refused one changes nothing. *)
Lemma assign_refused s pane parent :
  wf (t_windows s) -> ~ assignable (t_windows s) pane parent -> assign_tab_parent s pane parent = (s, false).
Proof.
  intros Hwf Hna. unfold assign_tab_parent.
  destruct (position (holds pane) (t_windows s)) as [c|] eqn:Ec; [|done].
  apply position_hit in Ec as (w&Hw&Hp). rewrite (assignable_parent _ _ _ _ _ Hwf Hw Hp) in Hna.
  destruct parent as [q|]; [|destruct Hna; by left]. rewrite Hw. cbn [mbind option_bind]. rewrite anchor_position.
  destruct (parent_by (t_windows s) (w_project w) (Some q)) as [a|] eqn:Ea; [|done].
  destruct (wf_forest _ Hwf a) as [la Hla].
  rewrite (find_root_lineage _ _ _ _ _ Hla) by (apply lineage_length in Hla as []; lia).
  destruct (decide (c ∈ la)) as [Hin|Hout]; [done|]. destruct Hna. right. exists a. split; [done|].
  by rewrite <- (lineage_ancestor _ _ _ _ Hla).
Qed.

Lemma roots_relink ws ws' (K : nat -> Prop) {Kd : forall k, Decision (K k)} r :
  forest (tab_parent ws) ->
  (forall u, ~ K u -> tab_parent ws' u = tab_parent ws u) ->
  (forall k, K k -> exists l, lineage (tab_parent ws') k l /\ last l = Some r) ->
  forall u, ((exists k, K k /\ ancestor (tab_parent ws) k u) -> stack_root ws' u = r)
    /\ (~ (exists k, K k /\ ancestor (tab_parent ws) k u) -> stack_root ws' u = stack_root ws u).
Proof.
  intros Hf Hout Hin u. destruct (Hf u) as [l Hl].
  destruct (relink _ _ K r Hout Hin u l Hl) as (l'&Hl'&Hlast).
  rewrite (stack_root_lineage _ _ _ Hl') in Hlast. rewrite (stack_root_lineage _ _ _ Hl) in Hlast.
  assert (Exists K l <-> exists k, K k /\ ancestor (tab_parent ws) k u) as Hx.
  { rewrite Exists_exists. split; intros (k&H1&H2); exists k; (split; [|]); try done; by eapply lineage_ancestor. }
  split; intros H.
  - rewrite decide_True in Hlast by (by apply Hx). congruence.
  - rewrite decide_False in Hlast by (by rewrite Hx). congruence.
Qed.

Lemma assignable_dec ws pane parent : wf ws -> assignable ws pane parent \/ ~ assignable ws pane parent.
Proof.
  intros Hwf. destruct (position (holds pane) ws) as [c|] eqn:Ec.
  2: { right. rewrite position_miss in Ec. intros (c&w&Hw&Hp&_). by rewrite (Ec _ _ Hw) in Hp. }
  apply position_hit in Ec as (w&Hw&Hp). rewrite (assignable_parent _ _ _ _ _ Hwf Hw Hp).
  destruct parent as [q|]; [|by left; left].
  destruct (parent_by ws (w_project w) (Some q)) as [a|]; [|by right; intros [|(?&?&_)]].
  destruct (wf_forest _ Hwf a) as [la Hla]. destruct (decide (c ∈ la)) as [Hin|Hout].
  - right. intros [|(?&[= <-]&Hna)]; [done|]. apply Hna. by eapply lineage_ancestor.
  - left. right. exists a. split; [done|]. by rewrite <- (lineage_ancestor _ _ _ _ Hla).
Qed.

(** ** A Workspace of four Tabs

    The second Tab is under the first, the third under the second; the fourth
    belongs to another Project. *)

Definition sample_tab (project : N) (layout : LayoutNode) (active : N) (parent : option N) : Win := {|
  w_stack_expanded := false; w_stack_parent := parent; w_layout_mode := PLSplit; w_layout_scroll := 0;
  w_project := project; w_layout := layout; w_active := active; w_zoomed := None; w_name := None |}.

Definition sample_windows : list Win :=
  [sample_tab 1 (Split Horizontal Float32.f32_half (Leaf 1) (Leaf 2)) 2 None;
   sample_tab 1 (Leaf 3) 3 (Some 2); sample_tab 1 (Leaf 4) 4 (Some 3);
   sample_tab 2 (Leaf 5) 5 None].

Definition sample_tabs : Tabs := {|
  t_windows := sample_windows; t_active_window := 1; t_active_project := 1; t_today := false;
  t_tab_scroll_follow_active := false; t_stack_scroll := 0; t_event_writes_enabled := true; t_log := [] |}.

Definition sample_owner (p : N) : nat := N.to_nat (match p with 1 | 2 => 0 | 3 => 1 | 4 => 2 | _ => 3 end).

Lemma sample_wf : wf sample_windows.
Proof.
  split.
  - assert (forall p i, owns sample_windows p i -> i = sample_owner p) as H.
    { intros p i (w&Hw&Hp). destruct i as [|[|[|[|i]]]]; simplify_eq/=; unfold holds in Hp; cbn [w_layout sample_tab LayoutNode.contains_pane] in Hp;
        repeat (apply orb_prop in Hp as [Hp|Hp]); apply N.eqb_eq in Hp; subst; done. }
    intros p i j Hi Hj. by rewrite (H p i Hi), (H p j Hj).
  - intros i w Hw. destruct i as [|[|[|[|i]]]]; by simplify_eq/=.
  - intros i w q Hw Hq. destruct i as [|[|[|[|i]]]]; simplify_eq/=; [exists 0%nat; by eexists|exists 1%nat; by eexists].
  - intros u. destruct u as [|[|[|[|u]]]]; [exists ([0]%nat)|exists ([1; 0]%nat)|exists ([2; 1; 0]%nat)|exists ([3]%nat)|eexists [_]];
      repeat first [by constructor | econstructor; [reflexivity|]].
Qed.

(** C22: [assign_tab_parent] is accepted exactly when the child and the anchor
    are in Tabs of one Project and the anchor's Tab is not the child or below
    it. A refusal changes nothing and records nothing. An accepted assignment
    sets that one link, keeps the links a forest, moves the child with all the
    Tabs below it, and no other, into the anchor's stack (into a stack of its own
    without an anchor), and the recorded events replay to the same Tabs. *)
Theorem assign_exact s pane parent : wf (t_windows s) ->
  let ws := t_windows s in
  let '(s', ok) := assign_tab_parent s pane parent in
  let ws' := t_windows s' in
  (ok = true <-> assignable ws pane parent)
  /\ (ok = false -> s' = s)
  /\ (ok = true -> exists c, owns ws pane c /\ kept s s' /\ wf ws' /\ links ws' = <[c := parent]> (links ws)
      /\ (forall u, ~ ancestor (tab_parent ws) c u -> stack_root ws' u = stack_root ws u)
      /\ (forall u, ancestor (tab_parent ws) c u -> parent = None -> stack_root ws' u = c)
      /\ (forall u q a, ancestor (tab_parent ws) c u -> parent = Some q -> owns ws q a ->
            stack_root ws' u = stack_root ws a)
      /\ (t_event_writes_enabled s = true -> recorded s s')).
Proof.
  intros Hwf ws. destruct (assignable_dec ws pane parent Hwf) as [Ha|Hna].
  2: { rewrite (assign_refused _ _ _ Hwf Hna). by split_and!. }
  pose proof Ha as (c&w&Hw&Hp&_). pose proof (proj1 (assignable_parent _ _ _ _ _ Hwf Hw Hp) Ha) as Hpar.
  pose proof (assign_accepted s pane c w parent Hwf Hw Hp Hpar) as Hacc.
  destruct (assign_tab_parent s pane parent) as [s' ok]. destruct Hacc as (->&Hk&Hwf'&Hl&Hr). cbv zeta.
  split_and!; [done|done|intros _]. exists c. destruct (set_link _ _ _ _ _ Hwf (kept_skeleton _ _ Hk) Hw Hl) as [Hout Hc].
  assert (exists r l, lineage (tab_parent (t_windows s')) c l /\ last l = Some r
    /\ (parent = None -> r = c) /\ (forall q a, parent = Some q -> owns ws q a -> r = stack_root ws a)) as (r&l&Hl'&Hlast&Hr1&Hr2).
  { destruct Hpar as [->|(a&Ea&Hna)]; [exists c, [c]; split_and!; try done; by constructor|].
    destruct (wf_forest _ Hwf a) as [la Hla]. exists (stack_root ws a), (c :: la). split_and!.
    - econstructor; [by rewrite Hc|]. eapply (lineage_kept _ _ (fun u => u = c)); [done..|].
      apply Forall_forall. intros x Hx ->. apply Hna. by eapply lineage_ancestor.
    - transitivity (last la); [by destruct Hla|by apply stack_root_lineage].
    - by intros ->.
    - intros q b -> Hb. cbn in Ea. apply position_hit in Ea as (v&Hv&[_ Hh]%andb_prop).
      f_equal. apply (wf_disjoint _ Hwf q); [by exists v|done]. }
  pose proof (roots_relink ws (t_windows s') (fun u => u = c) r (wf_forest _ Hwf) Hout) as Hroots.
  assert (forall k, k = c -> exists l, lineage (tab_parent (t_windows s')) k l /\ last l = Some r) as Hin by (intros ? ->; eauto).
  split_and!; [by exists w|done..| | | |done].
  - intros u Hu. apply (Hroots Hin u). intros (?&->&?). done.
  - intros u Hu Hn. rewrite <- (Hr1 Hn). apply (Hroots Hin u). by exists c.
  - intros u q a Hu Hq Ho. rewrite <- (Hr2 q a Hq Ho). apply (Hroots Hin u). by exists c.
Qed.

Lemma assign_exact_witness :
  (assign_tab_parent sample_tabs 1 (Some 4)).2 = false
  /\ assignable sample_windows 4 (Some 1)
  /\ t_log (assign_tab_parent sample_tabs 4 (Some 1)).1
     = [Log.TabConfigured 2 true PLSplit None; Log.TabConfigured 4 false PLSplit (Some 1)].
Proof.
  split_and!; [reflexivity| |reflexivity]. pose proof (assign_exact sample_tabs 4 (Some 1) sample_wf) as H.
  cbv zeta in H. by apply H.
Defined.

(** ** A Pane leaves its Tab *)

Lemma ancestor_root ws a u : wf ws -> ancestor (tab_parent ws) a u -> stack_root ws u = stack_root ws a.
Proof. intros Hwf. induction 1 as [|u v a E _ IH]; [done|]. by rewrite (stack_root_parent _ _ _ Hwf E). Qed.

Lemma root_ancestor ws u : wf ws -> ancestor (tab_parent ws) (stack_root ws u) u.
Proof.
  intros Hwf. destruct (wf_forest _ Hwf u) as [l Hl]. apply (lineage_ancestor _ _ _ _ Hl).
  apply last_Some_elem_of. by apply stack_root_lineage.
Qed.

Lemma stack_root_is_top ws u : wf ws -> tab_parent ws (stack_root ws u) = None.
Proof.
  intros Hwf. destruct (wf_forest _ Hwf u) as [l Hl]. eapply lineage_last; [done|]. by apply stack_root_lineage.
Qed.

Lemma roots_ext ws ws' u : wf ws -> (forall u, tab_parent ws' u = tab_parent ws u) -> stack_root ws' u = stack_root ws u.
Proof.
  intros Hwf He. destruct (wf_forest _ Hwf u) as [l Hl]. apply (inj Some).
  rewrite <- (stack_root_lineage _ _ _ Hl). symmetry. eapply stack_root_lineage, lineage_ext; eauto.
Qed.

(** The children of a Pane, by index and by active Pane. *)
Lemma children_indices ws pane : exists ks,
  Forall2 (fun k c => exists w, ws !! k = Some w /\ w_stack_parent w = Some pane /\ w_active w = c) ks
    (map w_active (filter (fun tab => w_stack_parent tab = Some pane) ws))
  /\ NoDup ks /\ (forall k w, ws !! k = Some w -> w_stack_parent w = Some pane -> k ∈ ks).
Proof.
  induction ws as [|w ws (ks&H&Hnd&Hin)]; [exists []; split_and!; [constructor|constructor|done]|].
  assert (Forall2 (fun k c => exists v, (w :: ws) !! k = Some v /\ w_stack_parent v = Some pane /\ w_active v = c) (map S ks)
    (map w_active (filter (fun tab => w_stack_parent tab = Some pane) ws))) as HS.
  { apply Forall2_fmap_l. eapply Forall2_impl; [exact H|]. done. }
  assert (NoDup (map S ks)) as HndS by (apply NoDup_fmap_2; [apply _|done]).
  rewrite filter_cons. destruct (decide (w_stack_parent w = Some pane)) as [Hp|Hp].
  - exists (0%nat :: map S ks). split_and!.
    + cbn. constructor; [by exists w|done].
    + constructor; [|done]. rewrite list_elem_of_fmap. by intros (?&?&?).
    + intros [|k] v Hv Hpv; [left|right]. apply list_elem_of_fmap. exists k. split; [done|]. by eapply Hin.
  - exists (map S ks). split_and!; [done|done|]. intros [|k] v Hv Hpv; [by simplify_eq/=|].
    apply list_elem_of_fmap. exists k. split; [done|]. by eapply Hin.
Qed.

(** The loop that hands the children to one anchor. *)
Lemma adopt_all q t v ks cs s :
  wf (t_windows s) -> t_windows s !! t = Some v -> holds q v = true ->
  Forall2 (fun k c => exists w, t_windows s !! k = Some w /\ w_project w = w_project v /\ w_active w = c) ks cs ->
  q ∉ cs -> Forall (fun k => ~ ancestor (tab_parent (t_windows s)) k t) ks ->
  let s' := foldl (adopt (Some q)) s cs in
  kept s s' /\ wf (t_windows s') /\ (t_event_writes_enabled s = true -> recorded s s')
  /\ (forall u, u ∉ ks -> links (t_windows s') !! u = links (t_windows s) !! u
        /\ tab_parent (t_windows s') u = tab_parent (t_windows s) u)
  /\ (forall k, k ∈ ks -> links (t_windows s') !! k = Some (Some q) /\ tab_parent (t_windows s') k = Some t).
Proof.
  revert s v cs. induction ks as [|k ks IH]; intros s v cs Hwf Hv Hq HF Hqc Ht.
  { apply Forall2_nil_inv_l in HF as ->. split_and!; try done. intros k Hk. by apply elem_of_nil in Hk. }
  apply Forall2_cons_inv_l in HF as (c&cs'&(w&Hw&Hpr&Hc)&HF&->). apply not_elem_of_cons in Hqc as [Hne Hqc].
  apply Forall_cons in Ht as [Hk Ht]. cbn [foldl].
  assert (parent_by (t_windows s) (w_project w) (Some q) = Some t) as Hpb by (by eapply parent_by_anchor).
  assert (holds c w = true) as Hcw by (subst c; by eapply wf_active).
  pose proof (assign_accepted s c k w (Some q) Hwf Hw Hcw (or_intror (ex_intro _ t (conj Hpb Hk)))) as Hacc.
  assert (adopt (Some q) s c = (assign_tab_parent s c (Some q)).1) as -> by (unfold adopt; rewrite decide_False; congruence).
  destruct (assign_tab_parent s c (Some q)) as [s1 ok]. destruct Hacc as (_&Hk1&Hwf1&Hl1&Hr1). cbn [fst].
  destruct (set_link _ _ _ _ _ Hwf (kept_skeleton _ _ Hk1) Hw Hl1) as [Hout Hin]. rewrite Hpb in Hin.
  assert (exists v', t_windows s1 !! t = Some v' /\ skeleton v' = skeleton v) as (v'&Hv'&Hev)
    by (eapply skeleton_lookup; [apply Hk1|done]).
  destruct (wf_forest _ Hwf t) as [lt Hlt].
  assert (lineage (tab_parent (t_windows s1)) t lt) as Hlt1.
  { eapply (lineage_kept _ _ (fun u => u = k)); [by intros u Hu; apply Hout|done|].
    apply Forall_forall. intros x Hx ->. apply Hk. by eapply lineage_ancestor. }
  destruct (IH s1 v' cs') as (Hk2&Hwf2&Hr2&Hout2&Hin2); [done|done| | |done| |].
  - by rewrite (skeleton_holds _ _ _ Hev).
  - eapply Forall2_impl; [exact HF|]. intros k' c' (w'&Hw'&Hp'&Hc').
    destruct (skeleton_lookup _ _ _ _ (kept_skeleton _ _ Hk1) Hw') as (w1&Hw1&He1). exists w1.
    unfold skeleton in *. split_and!; congruence.
  - eapply Forall_impl; [exact Ht|]. intros k' Hk' Ha. apply Hk'. rewrite <- (lineage_ancestor _ _ _ _ Hlt).
    by rewrite (lineage_ancestor _ _ _ _ Hlt1).
  - split_and!.
    + by transitivity s1.
    + done.
    + intros Hen. transitivity s1; [by apply Hr1|]. apply Hr2. by rewrite (kept_writes _ _ Hk1).
    + intros u [Hu Hus]%not_elem_of_cons. destruct (Hout2 u Hus) as [-> ->].
      rewrite Hl1, list_lookup_insert_ne by done. by rewrite Hout.
    + intros k' Hk'. destruct (decide (k' ∈ ks)) as [|Hn]; [by apply Hin2|].
      apply elem_of_cons in Hk' as [->|]; [|done]. destruct (Hout2 k Hn) as [-> ->]. split; [|done].
      rewrite Hl1. apply list_lookup_insert_eq. unfold links. rewrite length_map. by eapply lookup_lt_Some.
Qed.

Definition children (ws : list Win) (pane : N) : list N :=
  map w_active (filter (fun tab => w_stack_parent tab = Some pane) ws).

Definition only_pane (pane : N) (w : Win) : Prop := Forall (fun id => id = pane) (LayoutNode.pane_ids (w_layout w)).

(** The Tabs of two stacks before are the Tabs of two stacks after; a Tab that
    closes is not counted. *)
Definition stacks_kept (closing : Prop) (i : nat) (ws ws' : list Win) : Prop :=
  forall u v, (closing -> u ≠ i /\ v ≠ i) -> (stack_root ws' u = stack_root ws' v <-> stack_root ws u = stack_root ws v).

(** What holds once the children of a Pane have a new parent. *)
Record rehomed (s s' : Tabs) (pane : N) (i : nat) (w : Win) : Prop := {
  rehomed_kept : kept s s';
  rehomed_wf : wf (t_windows s');
  rehomed_recorded : t_event_writes_enabled s = true -> recorded s s';
  rehomed_links : forall u, links (t_windows s') !! u <> Some (Some pane);
  rehomed_stacks : stacks_kept (only_pane pane w) i (t_windows s) (t_windows s') }.

Lemma stacks_kept_roots closing i ws ws' : (forall u, stack_root ws' u = stack_root ws u) -> stacks_kept closing i ws ws'.
Proof. intros H u v _. by rewrite !H. Qed.

Section Rehome.
Context (s : Tabs) (pane : N) (i : nat) (w : Win).
Let ws := t_windows s.
Context (Hwf : wf ws) (Hw : ws !! i = Some w) (Hp : holds pane w = true).

Lemma child_parent k wk : ws !! k = Some wk -> w_stack_parent wk = Some pane ->
  tab_parent ws k = Some i /\ w_project wk = w_project w.
Proof.
  intros Hk Hpk. destruct (wf_anchored _ Hwf _ _ _ Hk Hpk) as (j&v&Hv&Hpr&Hh).
  assert (j = i) as -> by (apply (wf_disjoint _ Hwf pane); eexists; eauto). simplify_eq.
  rewrite (tab_parent_by _ _ _ Hk), Hpk. split; [|done]. by eapply parent_by_anchor.
Qed.

(** All children under one anchor [q] in the Tab [t]. *)
Lemma rehome_under q t v ks : ws !! t = Some v -> holds q v = true -> w_project v = w_project w ->
  q <> pane -> stack_root ws t = stack_root ws i ->
  (forall k, tab_parent ws k = Some i -> ~ ancestor (tab_parent ws) k t /\ k <> t) ->
  Forall2 (fun k c => exists x, ws !! k = Some x /\ w_stack_parent x = Some pane /\ w_active x = c) ks (children ws pane) ->
  (forall k x, ws !! k = Some x -> w_stack_parent x = Some pane -> k ∈ ks) ->
  rehomed s (foldl (adopt (Some q)) s (children ws pane)) pane i w.
Proof.
  intros Hv Hq Hpr Hqp Hrt Hnot HF Hall.
  assert (forall k, k ∈ ks -> tab_parent ws k = Some i) as Hks.
  { intros k Hk. apply list_elem_of_lookup in Hk as [n Hn]. destruct (Forall2_lookup_l _ _ _ _ _ HF Hn) as (c&_&x&Hx&Hpx&_).
    by destruct (child_parent _ _ Hx Hpx). }
  destruct (adopt_all q t v ks (children ws pane) s) as (Hk&Hwf'&Hr&Hout&Hin); [done..| | | |].
  - eapply Forall2_impl; [exact HF|]. intros k c (x&Hx&Hpx&Hc). exists x. destruct (child_parent _ _ Hx Hpx) as [_ Hprx].
    split_and!; [done|congruence|done].
  - intros Hc. apply list_elem_of_lookup in Hc as [n Hn]. destruct (Forall2_lookup_r _ _ _ _ _ HF Hn) as (k&_&x&Hx&Hpx&Hcx).
    destruct (child_parent _ _ Hx Hpx) as [Hpk _]. apply (Hnot k Hpk).
    apply (wf_disjoint _ Hwf q); [|by exists v]. exists x. split; [done|]. rewrite <- Hcx. by eapply wf_active.
  - apply Forall_forall. intros k Hk'. by apply Hnot, Hks.
  - split; [done..| |].
    + intros u Hu. destruct (decide (u ∈ ks)) as [Hin'|Hn].
      * destruct (Hin u Hin') as [E _]. rewrite E in Hu. congruence.
      * destruct (Hout u Hn) as [E _]. rewrite E in Hu. unfold links in Hu. rewrite list_lookup_fmap in Hu.
        destruct (t_windows s !! u) as [x|] eqn:Ex; [|done]. cbn in Hu. apply Hn. eapply Hall; [exact Ex|congruence].
    + apply stacks_kept_roots. intros u. destruct (wf_forest _ Hwf t) as [lt Hlt].
      assert (forall k, k ∈ ks -> exists l, lineage (tab_parent (t_windows (foldl (adopt (Some q)) s (children ws pane)))) k l
        /\ last l = Some (stack_root ws i)) as Hlin.
      { intros k Hk'. exists (k :: lt). split.
        - econstructor; [by apply Hin|]. eapply (lineage_kept _ _ (fun u => u ∈ ks)); [intros x Hx; by apply Hout|done|].
          apply Forall_forall. intros x Hx Hxk. destruct (Hnot x (Hks x Hxk)) as [Hna _]. apply Hna. by eapply lineage_ancestor.
        - transitivity (last lt); [by destruct Hlt|]. rewrite <- Hrt. by apply stack_root_lineage. }
      destruct (roots_relink ws _ (fun k => k ∈ ks) (stack_root ws i) (wf_forest _ Hwf) (fun u Hu => proj2 (Hout u Hu)) Hlin u) as [H1 H2].
      destruct (wf_forest _ Hwf u) as [lu Hlu]. destruct (decide (Exists (fun k => k ∈ ks) lu)) as [Hx|Hx].
      * apply Exists_exists in Hx as (k&Hkl&Hk'). assert (ancestor (tab_parent ws) k u) as Ha by (by eapply lineage_ancestor).
        transitivity (stack_root ws i); [by apply H1; exists k|]. symmetry. transitivity (stack_root ws k).
        -- by apply (ancestor_root _ _ _ Hwf).
        -- apply stack_root_parent; auto.
      * apply H2. intros (k&Hk'&Ha). apply Hx, Exists_exists. exists k. split; [by eapply lineage_ancestor|done].
Qed.

Lemma top_alone : w_stack_parent w = None -> tab_parent ws i = None.
Proof. intros Hn. unfold tab_parent. rewrite Hw. cbn. by rewrite Hn. Qed.

(** The Tabs below [i] come under one of its children, [k0]; [i] is left alone. *)
Lemma promoted_stacks ws' k0 (ks : list nat) : k0 ∈ ks -> only_pane pane w -> w_stack_parent w = None ->
  (forall k x, ws !! k = Some x -> w_stack_parent x = Some pane -> k ∈ ks) ->
  (forall k, k ∈ ks -> k <> k0 -> tab_parent ws' k = Some k0) ->
  tab_parent ws' k0 = None ->
  (forall k, k ∈ ks -> tab_parent ws k = Some i) ->
  (forall u, u ∉ ks -> tab_parent ws' u = tab_parent ws u) ->
  stacks_kept (only_pane pane w) i ws ws'.
Proof.
  intros Hk0 Halone Hroot Hall Hin H0 Hks Hout u v Huv. destruct (Huv Halone) as [Hu Hv].
  assert (forall k, k ∈ ks -> exists l, lineage (tab_parent ws') k l /\ last l = Some k0) as Hlin.
  { intros k Hk. destruct (decide (k = k0)) as [->|Hne]; [exists [k0]; split; [by constructor|done]|].
    exists [k; k0]. split; [econstructor; [by apply Hin|by constructor]|done]. }
  assert (forall u, u <> i -> (stack_root ws u = i -> stack_root ws' u = k0) /\
    (stack_root ws u <> i -> stack_root ws' u = stack_root ws u /\ stack_root ws u <> k0)) as Hr.
  { clear u v Hu Hv Huv. intros u Hu.
    destruct (roots_relink ws ws' (fun k => k ∈ ks) k0 (wf_forest _ Hwf) Hout Hlin u) as [H1 H2]. split; intros E.
    - apply H1. pose proof (root_ancestor ws u Hwf) as Ha. rewrite E in Ha. unfold ancestor in Ha.
      apply rtc_inv_r in Ha as [->|(k&Ha&Hki)]; [done|]. exists k. split; [|exact Ha].
      destruct (tab_parent_some _ _ _ Hki) as (x&q&y&Hx&Hq&Hy&_&Hh). simplify_eq.
      apply holds_pane_ids in Hh. unfold only_pane in Halone. rewrite Forall_forall in Halone. rewrite (Halone q Hh) in Hq. by eapply Hall.
    - split.
      + apply H2. intros (k&Hk&Ha). apply E. rewrite (ancestor_root _ _ _ Hwf Ha), (stack_root_parent _ _ _ Hwf (Hks k Hk)).
        by apply stack_root_top, top_alone.
      + intros E0. pose proof (stack_root_is_top ws u Hwf) as Ht. rewrite E0, (Hks k0 Hk0) in Ht. done. }
  destruct (Hr u Hu) as [Hu1 Hu2], (Hr v Hv) as [Hv1 Hv2].
  destruct (decide (stack_root ws u = i)) as [Eu|Eu], (decide (stack_root ws v = i)) as [Ev|Ev].
  - rewrite Hu1, Hv1, Eu, Ev by done. done.
  - destruct (Hv2 Ev) as [-> ?]. rewrite Hu1, Eu by done. split; congruence.
  - destruct (Hu2 Eu) as [-> ?]. rewrite Hv1, Ev by done. split; congruence.
  - destruct (Hu2 Eu) as [-> ?], (Hv2 Ev) as [-> ?]. done.
Qed.

Lemma promote_spec k0 x0 c0 cs : ws !! k0 = Some x0 -> w_active x0 = c0 ->
  let '(s2, r) := promote s (c0 :: cs) None in
  r = Some c0 /\ kept s s2 /\ wf (t_windows s2) /\ (t_event_writes_enabled s = true -> recorded s s2)
  /\ links (t_windows s2) = <[k0 := None]> (links ws)
  /\ (forall u, u <> k0 -> tab_parent (t_windows s2) u = tab_parent ws u) /\ tab_parent (t_windows s2) k0 = None.
Proof.
  intros Hx0 Hc0. assert (holds c0 x0 = true) as Hh0 by (subst c0; by eapply wf_active).
  pose proof (assign_accepted s c0 k0 x0 None Hwf Hx0 Hh0 (or_introl eq_refl)) as Hacc. cbn [promote].
  destruct (assign_tab_parent s c0 None) as [s1 ok]. destruct Hacc as (_&Hk1&Hwf1&Hl1&Hr1). cbn [fst].
  destruct (set_link _ _ _ _ _ Hwf (kept_skeleton _ _ Hk1) Hx0 Hl1) as [Hout1 Hin1]. cbn in Hin1.
  assert (owns (t_windows s1) c0 k0) as Ho1 by (eapply skeleton_owns; [apply Hk1|by exists x0]).
  rewrite (owner_position _ _ _ Hwf1 Ho1).
  assert (links (t_windows (retain_stack_row s1 k0 true)) = links (t_windows s1)) as Hl2.
  { rewrite retain_windows. by apply map_alter_id. }
  assert (forall u, tab_parent (t_windows (retain_stack_row s1 k0 true)) u = tab_parent (t_windows s1) u) as Ht2.
  { intros u. apply tab_parent_kept; [apply retain_kept|by rewrite Hl2]. }
  split_and!; [done|transitivity s1; [done|apply retain_kept]|by apply retain_wf| |by rewrite Hl2| |by rewrite Ht2].
  - intros Hen. transitivity s1; [by apply Hr1|]. apply retain_recorded; [done|by rewrite (kept_writes _ _ Hk1)].
  - intros u Hu. rewrite Ht2. by apply Hout1.
Qed.

Lemma rehome_childless : children ws pane = [] -> rehomed s s pane i w.
Proof.
  intros Hnil. destruct (children_indices ws pane) as (ks&HF&_&Hall). fold (children ws pane) in HF.
  rewrite Hnil in HF. apply Forall2_nil_inv_r in HF as ->. split; [done..| |by intros u v _].
  intros u Hu. unfold links in Hu. rewrite list_lookup_fmap in Hu. destruct (t_windows s !! u) as [x|] eqn:Ex; [|done].
  cbn in Hu. assert (u ∈ []) by (eapply Hall; [exact Ex|congruence]). set_solver.
Qed.

(** No other Pane and no parent: the first child is the new root. *)
Lemma rehome_promoted : only_pane pane w -> w_stack_parent w = None ->
  rehomed s (let '(s1, r) := promote s (children ws pane) None in foldl (adopt r) s1 (children ws pane)) pane i w.
Proof.
  intros Halone Hroot. destruct (children_indices ws pane) as (ks&HF&Hnd&Hall). fold (children ws pane) in HF.
  destruct (children ws pane) as [|c0 cs] eqn:Ecs; [by apply rehome_childless|].
  assert (forall k, k ∈ ks -> tab_parent ws k = Some i) as Hks.
  { intros k Hk. apply list_elem_of_lookup in Hk as [n Hn].
    destruct (Forall2_lookup_l _ _ _ _ _ HF Hn) as (c&_&x&Hx&Hpx&_). by destruct (child_parent _ _ Hx Hpx). }
  apply Forall2_cons_inv_r in HF as (k0&ks'&(x0&Hx0&Hp0&Hc0)&HF&->). apply NoDup_cons in Hnd as [Hk0 Hnd].
  destruct (child_parent _ _ Hx0 Hp0) as [Hpar0 Hpr0].
  pose proof (promote_spec k0 x0 c0 cs Hx0 Hc0) as Hps. destruct (promote s (c0 :: cs) None) as [s2 r].
  destruct Hps as (->&Hk2&Hwf2&Hr2&Hl2&Hout2&Hin2). cbn [foldl].
  assert (adopt (Some c0) s2 c0 = s2) as -> by (unfold adopt; by rewrite decide_True).
  destruct (skeleton_lookup _ _ _ _ (kept_skeleton _ _ Hk2) Hx0) as (v&Hv&Hev).
  destruct (adopt_all c0 k0 v ks' cs s2) as (Hk3&Hwf3&Hr3&Hout3&Hin3).
  - done.
  - done.
  - rewrite (skeleton_holds _ _ _ Hev), <- Hc0. by eapply (wf_active _ Hwf).
  - eapply Forall2_impl; [exact HF|]. intros k c (x&Hx&Hpx&Hc). destruct (child_parent _ _ Hx Hpx) as [_ Hprx].
    destruct (skeleton_lookup _ _ _ _ (kept_skeleton _ _ Hk2) Hx) as (x'&Hx'&Hex). exists x'.
    unfold skeleton in *. split_and!; congruence.
  - intros Hc. apply list_elem_of_lookup in Hc as [n Hn]. destruct (Forall2_lookup_r _ _ _ _ _ HF Hn) as (k&Hkn&x&Hx&_&Hcx).
    assert (k = k0) as ->; [|by apply Hk0; eapply list_elem_of_lookup_2].
    apply (wf_disjoint _ Hwf c0); [exists x|exists x0]; (split; [done|]); [rewrite <- Hcx|rewrite <- Hc0]; by eapply (wf_active _ Hwf).
  - apply Forall_forall. intros k Hk Ha. apply (lineage_ancestor _ _ _ _ (lineage_top _ _ Hin2)) in Ha.
    apply list_elem_of_singleton in Ha as ->. done.
  - set (s' := foldl (adopt (Some c0)) s2 cs) in *.
    assert (forall u, u ∉ k0 :: ks' -> links (t_windows s') !! u = links ws !! u /\ tab_parent (t_windows s') u = tab_parent ws u) as Hout.
    { intros u [Hu Hus]%not_elem_of_cons. destruct (Hout3 u Hus) as [-> ->].
      rewrite Hl2, list_lookup_insert_ne by done. split; [done|]. by apply Hout2. }
    split; [by transitivity s2|done| | |].
    + intros Hen. transitivity s2; [by apply Hr2|]. apply Hr3. by rewrite (kept_writes _ _ Hk2).
    + intros u Hu. destruct (decide (u = k0)) as [->|Hne].
      { rewrite (proj1 (Hout3 k0 Hk0)), Hl2, list_lookup_insert_eq in Hu; [done|].
        unfold links. rewrite length_map. by eapply lookup_lt_Some. }
      destruct (decide (u ∈ ks')) as [Hin'|Hn].
      { rewrite (proj1 (Hin3 u Hin')) in Hu. injection Hu as Hu.
        assert (k0 = i) as Hki.
        { apply (wf_disjoint _ Hwf pane); [exists x0|by exists w]. split; [done|]. rewrite <- Hu, <- Hc0. by eapply (wf_active _ Hwf). }
        rewrite Hki, (top_alone Hroot) in Hpar0. done. }
      rewrite (proj1 (Hout u ltac:(set_solver))) in Hu. unfold links in Hu. rewrite list_lookup_fmap in Hu.
      destruct (ws !! u) as [x|] eqn:Ex; [|done]. cbn in Hu.
      assert (u ∈ k0 :: ks') by (eapply Hall; [exact Ex|congruence]). set_solver.
    + apply (promoted_stacks (t_windows s') k0 (k0 :: ks')); [by left|done|done|done| | |done|by intros u Hu; apply Hout].
      * intros k Hk Hne. apply Hin3. set_solver.
      * by rewrite (proj2 (Hout3 k0 Hk0)).
Qed.

Lemma rehome : rehomed s
  (let '(s1, r) := promote s (children ws pane) (replacement_for pane w) in foldl (adopt r) s1 (children ws pane)) pane i w.
Proof.
  destruct (children_indices ws pane) as (ks&HF&_&Hall). fold (children ws pane) in HF.
  unfold replacement_for.
  destruct (head (filter (fun id => id ≠ pane) (LayoutNode.pane_ids (w_layout w)))) as [q|] eqn:Eq; [|destruct (w_stack_parent w) as [q|] eqn:Ep].
  - cbn [promote]. assert (q ≠ pane /\ q ∈ LayoutNode.pane_ids (w_layout w)) as [Hne Hqi]; [|apply holds_pane_ids in Hqi as Hq].
    { apply (proj1 (list_elem_of_filter (fun id => id ≠ pane) _ _)). destruct (filter _ _); simplify_eq/=. left. }
    eapply (rehome_under q i w); try done. intros k Hk.
    pose proof (no_cycle _ _ _ (wf_forest _ Hwf) Hk) as Hna. split; [done|]. intros ->. apply Hna. apply rtc_refl.
  - cbn [promote]. destruct (wf_anchored _ Hwf _ _ _ Hw Ep) as (j&v&Hv&Hpr&Hq).
    assert (tab_parent ws i = Some j) as Hj by (rewrite (tab_parent_by _ _ _ Hw), Ep; by eapply parent_by_anchor).
    pose proof (no_cycle _ _ _ (wf_forest _ Hwf) Hj) as Hna.
    eapply (rehome_under q j v); try done.
    + intros ->. apply Hna. replace j with i; [apply rtc_refl|]. apply (wf_disjoint _ Hwf pane); [by exists w|by exists v].
    + symmetry. by apply stack_root_parent.
    + intros k Hk. split; [intros Ha|intros ->]; apply Hna; [eapply rtc_r; [exact Ha|done]|by apply rtc_once].
  - apply rehome_promoted; [|done]. apply Forall_forall. intros id Hid. destruct (decide (id = pane)) as [|Hne]; [done|].
    assert (id ∈ filter (fun id => id ≠ pane) (LayoutNode.pane_ids (w_layout w))) as Hf by (by apply list_elem_of_filter).
    destruct (filter _ _); [by apply elem_of_nil in Hf|done].
Qed.
End Rehome.

Lemma repair_rehomes s pane i w :
  wf (t_windows s) -> t_windows s !! i = Some w -> holds pane w = true -> rehomed s (repair_stack_anchor s pane) pane i w.
Proof.
  intros Hwf Hw Hp. unfold repair_stack_anchor. rewrite (owner_position _ _ i Hwf) by (by exists w). cbv zeta.
  set (s1 := if Nat.eqb _ i then s else _).
  assert (kept s s1 /\ wf (t_windows s1) /\ links (t_windows s1) = links (t_windows s)
    /\ (t_event_writes_enabled s = true -> recorded s s1)) as (Hk&Hwf1&Hl&Hr).
  { unfold s1. destruct (Nat.eqb _ i); [done|]. split_and!; [apply retain_kept|by apply retain_wf| |by intros; apply retain_recorded].
    rewrite retain_windows. by apply map_alter_id. }
  clearbody s1. destruct (skeleton_lookup _ _ _ _ (kept_skeleton _ _ Hk) Hw) as (w1&Hw1&He). rewrite Hw1.
  assert (holds pane w1 = true) as Hp1 by (by rewrite (skeleton_holds _ _ _ He)).
  destruct (rehome s1 pane i w1 Hwf1 Hw1 Hp1) as [Hk2 Hwf2 Hr2 Hl2 Hs2]. unfold children in *. split.
  - by transitivity s1.
  - done.
  - intros Hen. transitivity s1; [by apply Hr|]. apply Hr2. by rewrite (kept_writes _ _ Hk).
  - done.
  - intros u v Huv. rewrite (Hs2 u v).
    + rewrite !(roots_ext (t_windows s) (t_windows s1)); try done; intros x; (apply tab_parent_kept; [apply Hk|by rewrite Hl]).
    + unfold only_pane in *. assert (w_layout w1 = w_layout w) as -> by (unfold skeleton in He; congruence). done.
Qed.

(** ** Removing the Pane *)

Definition renumber (d : Detached) (source u : nat) : nat :=
  match d with TabKept => u | TabClosed => if Nat.ltb source u then pred u else u end.

(** No parent link names the Pane. *)
Definition unnamed (pane : N) (ws : list Win) : Prop := forall u, links ws !! u <> Some (Some pane).

Lemma unnamed_link ws pane u w q : unnamed pane ws -> ws !! u = Some w -> w_stack_parent w = Some q -> q <> pane.
Proof.
  intros Hu Hw Hq ->. apply (Hu u). unfold links. by rewrite list_lookup_fmap, Hw; cbn; rewrite Hq.
Qed.

Section Shrink.
Context (ws : list Win) (pane : N) (i : nat) (w : Win) (layout : LayoutNode).
Context (Hwf : wf ws) (Hw : ws !! i = Some w) (Hp : holds pane w = true) (Hun : unnamed pane ws).
Context (Hlay : LayoutNode.without (w_layout w) pane = Some layout).
Let ws' := alter (detached_tab pane layout) i ws.

Lemma shrink_holds q : q <> pane -> holds q (detached_tab pane layout w) = holds q w.
Proof.
  intros Hq. apply eq_iff_eq_true. rewrite !holds_pane_ids. cbn.
  pose proof (without_ids (w_layout w) pane) as Hi. rewrite Hlay in Hi. rewrite Hi. rewrite list_elem_of_filter. naive_solver.
Qed.

Lemma shrink_gone : holds pane (detached_tab pane layout w) = false.
Proof.
  apply not_true_is_false. rewrite holds_pane_ids. cbn.
  pose proof (without_ids (w_layout w) pane) as Hi. rewrite Hlay in Hi. rewrite Hi. rewrite list_elem_of_filter. naive_solver.
Qed.

(** A Tab after the removal comes from the Tab at its index. *)
Lemma shrink_lookup u x' : ws' !! u = Some x' -> exists x, ws !! u = Some x /\ w_project x' = w_project x
  /\ w_stack_parent x' = w_stack_parent x /\ (forall q, q <> pane -> holds q x' = holds q x) /\ (u <> i -> x' = x).
Proof.
  intros Hx. unfold ws' in Hx. destruct (decide (u = i)) as [->|Hne].
  - rewrite list_lookup_alter_eq, Hw in Hx. injection Hx as <-. exists w. split_and!; try done.
    intros q Hq. by apply shrink_holds.
  - rewrite list_lookup_alter_ne in Hx by done. by exists x'.
Qed.

Lemma shrink_forward u x : ws !! u = Some x -> exists x', ws' !! u = Some x' /\ w_project x' = w_project x
  /\ (forall q, q <> pane -> holds q x' = holds q x).
Proof.
  intros Hx. destruct (ws' !! u) as [x'|] eqn:E.
  - destruct (shrink_lookup _ _ E) as (y&Hy&?&_&?&_). simplify_eq. by exists x'.
  - apply lookup_ge_None in E. apply lookup_lt_Some in Hx. unfold ws' in E. rewrite length_alter in E. lia.
Qed.

Lemma shrink_unheld p j : owns ws' p j -> p <> pane.
Proof.
  intros (x'&Hx'&Hh) ->. destruct (decide (j = i)) as [->|Hne].
  - unfold ws' in Hx'. rewrite list_lookup_alter_eq, Hw in Hx'. injection Hx' as <-. by rewrite shrink_gone in Hh.
  - destruct (shrink_lookup _ _ Hx') as (x&Hx&_&_&_&He). rewrite (He Hne) in Hh.
    apply Hne, (wf_disjoint _ Hwf pane); [by exists x|by exists w].
Qed.

Lemma shrink_parent u : tab_parent ws' u = tab_parent ws u.
Proof.
  destruct (ws' !! u) as [x'|] eqn:E.
  - destruct (shrink_lookup _ _ E) as (x&Hx&Hpr&Hl&_&_).
    rewrite (tab_parent_by _ _ _ E), (tab_parent_by _ _ _ Hx), Hpr, Hl. unfold parent_by.
    destruct (w_stack_parent x) as [q|] eqn:Eq; [|done]. cbn.
    eapply position_alter; [exact Hw|]. rewrite shrink_holds; [done|]. by eapply unnamed_link.
  - unfold tab_parent. rewrite E. destruct (ws !! u) as [x|] eqn:Ex; [|done].
    destruct (shrink_forward _ _ Ex) as (?&?&_). congruence.
Qed.

Lemma shrink_wf : wf ws'.
Proof.
  split.
  - intros p j k Hj Hk. pose proof (shrink_unheld _ _ Hj) as Hne. apply (wf_disjoint _ Hwf p).
    + destruct Hj as (x'&Hx'&Hh). destruct (shrink_lookup _ _ Hx') as (x&Hx&_&_&He&_). exists x. by rewrite <- He.
    + destruct Hk as (x'&Hx'&Hh). destruct (shrink_lookup _ _ Hx') as (x&Hx&_&_&He&_). exists x. by rewrite <- He.
  - intros j x' Hx'. destruct (decide (j = i)) as [->|Hne].
    + unfold ws' in Hx'. rewrite list_lookup_alter_eq, Hw in Hx'. injection Hx' as <-. cbn [w_active detached_tab].
      destruct (N.eqb_spec (w_active w) pane) as [Ha|Ha].
      * apply holds_pane_ids. cbn. pose proof (first_pane_head layout) as Hh. destruct (LayoutNode.pane_ids layout); [done|].
        injection Hh as ->. left.
      * rewrite shrink_holds by done. by eapply wf_active.
    + destruct (shrink_lookup _ _ Hx') as (x&Hx&_&_&_&He). rewrite (He Hne). by eapply wf_active.
  - intros j x' q Hx' Hq. destruct (shrink_lookup _ _ Hx') as (x&Hx&Hpr&Hl&_&_). rewrite Hl in Hq.
    destruct (wf_anchored _ Hwf _ _ _ Hx Hq) as (k&v&Hv&Hpv&Hh).
    destruct (shrink_forward _ _ Hv) as (v'&Hv'&Hpv'&Hh'). exists k, v'.
    split_and!; [done|congruence|]. rewrite Hh'; [done|]. by apply (unnamed_link ws pane j x q).
  - intros u. destruct (wf_forest _ Hwf u) as [l Hl]. exists l. eapply lineage_ext; [apply shrink_parent|done].
Qed.
End Shrink.

(** ** Removing the Tab *)

Lemma ren_inj i u v : u <> i -> v <> i -> renumber TabClosed i u = renumber TabClosed i v -> u = v.
Proof. unfold renumber. intros Hu Hv. destruct (Nat.ltb_spec i u), (Nat.ltb_spec i v); intros; lia. Qed.

Lemma ren_surj i j : exists u, u <> i /\ renumber TabClosed i u = j.
Proof.
  destruct (decide (j < i)%nat) as [Hj|Hj].
  - exists j. unfold renumber. destruct (Nat.ltb_spec i j); lia.
  - exists (S j). unfold renumber. destruct (Nat.ltb_spec i (S j)); lia.
Qed.

Lemma ren_lookup {X} (l : list X) i u : u <> i -> delete i l !! renumber TabClosed i u = l !! u.
Proof.
  intros Hu. unfold renumber. destruct (Nat.ltb_spec i u).
  - rewrite list_lookup_delete_ge by lia. f_equal. lia.
  - by rewrite list_lookup_delete_lt by lia.
Qed.

Lemma position_delete {X} (p : X -> bool) l i x : l !! i = Some x -> p x = false ->
  position p (delete i l) = renumber TabClosed i <$> position p l.
Proof.
  intros Hx Hp. revert i Hx. induction l as [|y l IH]; intros [|i] Hx; try done.
  - injection Hx as ->. cbn. rewrite Hp. by destruct (position p l).
  - change (delete (S i) (y :: l)) with (y :: delete i l). cbn [position]. destruct (p y); [done|]. rewrite (IH i Hx).
    destruct (position p l) as [j|]; [|done]. unfold renumber. cbn [fmap option_fmap option_map]. f_equal.
    destruct (Nat.ltb_spec i j), (Nat.ltb_spec (S i) (S j)); lia.
Qed.

Section Close.
Context (ws : list Win) (pane : N) (i : nat) (w : Win).
Context (Hwf : wf ws) (Hw : ws !! i = Some w) (Hun : unnamed pane ws) (Halone : only_pane pane w).
Let ws' := delete i ws.
Let ren := renumber TabClosed i.

Lemma close_holds q : q <> pane -> holds q w = false.
Proof.
  intros Hq. apply not_true_is_false. rewrite holds_pane_ids. unfold only_pane in Halone. rewrite Forall_forall in Halone.
  intros Hin. by apply Hq, Halone.
Qed.

Lemma close_owns p j : owns ws' p j <-> exists u, u <> i /\ ren u = j /\ owns ws p u.
Proof.
  unfold owns. destruct (ren_surj i j) as (u&Hu&<-). unfold ws'. rewrite ren_lookup by done. split.
  - intros H. exists u. done.
  - intros (v&Hv&He&H). apply ren_inj in He; [|done..]. by subst.
Qed.

Lemma close_parent u : u <> i -> tab_parent ws' (ren u) = ren <$> tab_parent ws u.
Proof.
  intros Hu. unfold tab_parent, ws', ren. rewrite ren_lookup by done. destruct (ws !! u) as [x|] eqn:Ex; [|done]. cbn [mbind option_bind].
  destruct (w_stack_parent x) as [q|] eqn:Eq; [|done]. cbn [mbind option_bind].
  eapply position_delete; [exact Hw|]. rewrite close_holds, andb_false_r; [done|].
  by apply (unnamed_link ws pane u x q).
Qed.

Lemma close_not_parent u : tab_parent ws u <> Some i.
Proof.
  intros (x&q&v&Hx&Hq&Hv&_&Hh)%tab_parent_some. simplify_eq.
  rewrite close_holds in Hh; [done|]. by apply (unnamed_link ws pane u x q).
Qed.

Lemma close_lineage u l : u <> i -> lineage (tab_parent ws) u l -> lineage (tab_parent ws') (ren u) (map ren l) /\ i ∉ l.
Proof.
  intros Hu H. induction H as [u E|u v l E H IH].
  - split; [constructor; by rewrite close_parent, E|]. by rewrite list_elem_of_singleton.
  - destruct IH as [IH Hi]; [intros ->; by apply close_not_parent in E|]. split.
    + econstructor; [by rewrite close_parent, E|done].
    + rewrite not_elem_of_cons. done.
Qed.

Lemma close_root u : u <> i -> stack_root ws' (ren u) = ren (stack_root ws u) /\ stack_root ws u <> i.
Proof.
  intros Hu. destruct (wf_forest _ Hwf u) as [l Hl]. destruct (close_lineage _ _ Hu Hl) as [Hl' Hi].
  pose proof (stack_root_lineage _ _ _ Hl) as Hr. split.
  - pose proof (stack_root_lineage _ _ _ Hl') as Hr'. change (map ren l) with (ren <$> l) in Hr'. rewrite fmap_last, Hr in Hr'. by injection Hr'.
  - intros He. apply Hi. rewrite <- He. by apply last_Some_elem_of.
Qed.

Lemma close_wf : wf ws'.
Proof.
  split.
  - intros p j k (u&Hu&<-&Hou)%close_owns (v&Hv&<-&Hov)%close_owns. f_equal. by apply (wf_disjoint _ Hwf p).
  - intros j x Hx. destruct (ren_surj i j) as (u&Hu&<-). unfold ws' in Hx. rewrite ren_lookup in Hx by done. by eapply wf_active.
  - intros j x q Hx Hq. destruct (ren_surj i j) as (u&Hu&<-). unfold ws' in Hx. rewrite ren_lookup in Hx by done.
    destruct (wf_anchored _ Hwf _ _ _ Hx Hq) as (k&v&Hv&Hp&Hh). exists (ren k), v. unfold ws', ren. rewrite ren_lookup; [done|].
    intros ->. simplify_eq. rewrite close_holds in Hh; [done|]. by apply (unnamed_link ws pane u x q).
  - intros j. destruct (ren_surj i j) as (u&Hu&<-). destruct (wf_forest _ Hwf u) as [l Hl].
    exists (map ren l). by apply close_lineage.
Qed.
End Close.

(** What is promised when [pane] leaves the Tab [w] at [source]. *)
Definition stays (d : Detached) (source u : nat) : Prop := d = TabClosed -> u <> source.

Record departed (s s' : Tabs) (d : Detached) (pane : N) (source : nat) (w : Win) : Prop := {
  departed_wf : wf (t_windows s');
  departed_closed : d = TabClosed <-> only_pane pane w;
  departed_gone : forall i, ~ owns (t_windows s') pane i;
  departed_tabs : forall u x, t_windows s !! u = Some x -> stays d source u ->
    exists x', t_windows s' !! renumber d source u = Some x' /\ w_project x' = w_project x
      /\ LayoutNode.pane_ids (w_layout x') = filter (fun id => id ≠ pane) (LayoutNode.pane_ids (w_layout x));
  departed_length : length (t_windows s') = (match d with TabKept => length (t_windows s) | TabClosed => pred (length (t_windows s)) end);
  departed_stacks : forall u v, stays d source u -> stays d source v ->
    (stack_root (t_windows s') (renumber d source u) = stack_root (t_windows s') (renumber d source v)
     <-> stack_root (t_windows s) u = stack_root (t_windows s) v);
  departed_active : stays d source (t_active_window s) -> t_active_window s' = renumber d source (t_active_window s);
  departed_range : (t_active_window s < length (t_windows s) -> t_windows s' <> [] -> t_active_window s' < length (t_windows s'))%nat }.

Section Depart.
Context (s s1 : Tabs) (pane : N) (source : nat) (w w1 : Win).
Context (Hw : t_windows s !! source = Some w) (Hw1 : t_windows s1 !! source = Some w1).
Context (He : skeleton w1 = skeleton w) (Hp1 : holds pane w1 = true).
Context (Hr : rehomed s s1 pane source w).

Lemma same_skeleton x x' : skeleton x' = skeleton x -> w_project x' = w_project x /\ w_layout x' = w_layout x.
Proof. unfold skeleton. intros [= -> -> _ _ _ _]. done. Qed.

Lemma depart_length : length (t_windows s1) = length (t_windows s).
Proof. rewrite <- !(length_map skeleton). by rewrite (kept_skeleton _ _ (rehomed_kept _ _ _ _ _ Hr)). Qed.

Lemma depart_active : t_active_window s1 = t_active_window s.
Proof. by destruct (kept_focus _ _ (rehomed_kept _ _ _ _ _ Hr)). Qed.

(** The other Tabs are as they were: they never held the Pane. *)
Lemma depart_other u x : t_windows s !! u = Some x -> u <> source ->
  exists x1, t_windows s1 !! u = Some x1 /\ w_project x1 = w_project x
    /\ LayoutNode.pane_ids (w_layout x1) = filter (fun id => id ≠ pane) (LayoutNode.pane_ids (w_layout x)).
Proof.
  intros Hx Hne. destruct (skeleton_lookup _ _ _ _ (kept_skeleton _ _ (rehomed_kept _ _ _ _ _ Hr)) Hx) as (x1&Hx1&Hex).
  destruct (same_skeleton _ _ Hex) as [<- <-]. exists x1. split_and!; [done|done|]. symmetry. apply filter_all, Forall_forall.
  intros id Hid ->. apply Hne, (wf_disjoint _ (rehomed_wf _ _ _ _ _ Hr) pane); [exists x1|by exists w1].
  split; [done|]. by apply holds_pane_ids.
Qed.

Lemma not_alone layout : LayoutNode.without (w_layout w) pane = Some layout -> ~ only_pane pane w.
Proof.
  intros El Ho. pose proof (without_ids (w_layout w) pane) as Hids. rewrite El in Hids.
  pose proof (first_pane_head layout) as Hh. rewrite Hids in Hh. unfold only_pane in Ho. rewrite Forall_forall in Ho.
  destruct (filter _ _) as [|q l] eqn:Ef; [done|].
  assert (q ∈ filter (fun id => id ≠ pane) (LayoutNode.pane_ids (w_layout w))) as [Hq Hin]%list_elem_of_filter by (rewrite Ef; left).
  by destruct Hq; apply Ho.
Qed.

Lemma depart_kept layout : LayoutNode.without (w_layout w) pane = Some layout ->
  departed s (with_tabs s1 (alter (detached_tab pane layout) source (t_windows s1))) TabKept pane source w.
Proof.
  intros El. pose proof (not_alone layout El) as Hno. destruct (same_skeleton _ _ He) as [Hpr Hlay]. pose proof (without_ids (w_layout w) pane) as Hids. rewrite El in Hids.
  rewrite <- Hlay in El. destruct Hr as [_ Hwf1 _ Hun Hs]. split; cbn [t_windows with_tabs t_active_window renumber].
  - by apply (shrink_wf (t_windows s1) pane source w1 layout).
  - split; [done|]. by intros ?%Hno.
  - intros j Hj. by eapply (shrink_unheld (t_windows s1) pane source w1).
  - intros u x Hx _. destruct (decide (u = source)) as [->|Hne].
    + rewrite list_lookup_alter_eq, Hw1. eexists; split_and!; [done|cbn; congruence|]. cbn. congruence.
    + rewrite list_lookup_alter_ne by done. by apply depart_other.
  - by rewrite length_alter, depart_length.
  - intros u v _ _. transitivity (stack_root (t_windows s1) u = stack_root (t_windows s1) v);
      [|by apply Hs; intros ?%Hno].
    rewrite !(roots_ext (t_windows s1) (alter (detached_tab pane layout) source (t_windows s1))); try done;
      intros x; by apply (shrink_parent (t_windows s1) pane source w1 layout).
  - intros _. apply depart_active.
  - rewrite length_alter, depart_length, depart_active. auto.
Qed.

Lemma depart_closed : only_pane pane w ->
  let ws' := delete source (t_windows s1) in
  departed s (with_focus (with_tabs s1 ws')
    (if Nat.ltb source (t_active_window s1) then pred (t_active_window s1)
     else if Nat.eqb (t_active_window s1) source then Nat.min source (pred (length ws')) else t_active_window s1)) TabClosed pane source w.
Proof.
  intros Ho ws'. destruct (same_skeleton _ _ He) as [Hpr Hlay].
  assert (only_pane pane w1) as Ho1 by (unfold only_pane; by rewrite Hlay).
  assert (source < length (t_windows s))%nat as Hsrc by (by eapply lookup_lt_Some).
  assert (length ws' = pred (length (t_windows s))) as Hld.
  { unfold ws'. rewrite length_delete by (rewrite lookup_lt_is_Some, depart_length; lia). rewrite depart_length. lia. }
  rewrite depart_active. destruct Hr as [_ Hwf1 _ Hun Hs]. split; cbn [t_windows with_tabs with_focus t_active_window].
  - by apply (close_wf (t_windows s1) pane source w1).
  - done.
  - intros j (u&Hu&_&v&Hv&Hh)%close_owns. apply Hu, (wf_disjoint _ Hwf1 pane); [by exists v|by exists w1].
  - intros u x Hx Hne. specialize (Hne eq_refl). unfold ws'. rewrite ren_lookup by done. by apply depart_other.
  - done.
  - intros u v Hu Hv. specialize (Hu eq_refl). specialize (Hv eq_refl). unfold ws'.
    transitivity (stack_root (t_windows s1) u = stack_root (t_windows s1) v); [|by apply Hs].
    destruct (close_root (t_windows s1) pane source w1 Hwf1 Hw1 Hun Ho1 u Hu) as [-> Hru].
    destruct (close_root (t_windows s1) pane source w1 Hwf1 Hw1 Hun Ho1 v Hv) as [-> Hrv].
    split; [by apply ren_inj|by intros ->].
  - intros Hne. specialize (Hne eq_refl). unfold renumber.
    destruct (Nat.ltb_spec source (t_active_window s)); [done|]. by rewrite (proj2 (Nat.eqb_neq _ _) Hne).
  - intros Ha Hnil. assert (length ws' <> 0)%nat as Hpos by (by destruct ws').
    rewrite Hld in *. destruct (Nat.ltb_spec source (t_active_window s)); [lia|].
    destruct (Nat.eqb_spec (t_active_window s) source); lia.
Qed.
End Depart.

(** C13: When a Pane leaves its Tab ([repair_stack_anchor], then [detach_pane]),
    the Tab closes exactly if it had no other Pane; every other Tab keeps its
    Project and its other Panes, in order; no Tab still holds the Pane; the
    links remain a well-formed forest; and two remaining Tabs are in one stack
    afterwards exactly when they were before, also when the stack's root
    closed. The active Tab stays the active one unless it closed, and then a
    remaining Tab is active. *)
Theorem detach_keeps_stacks s pane source w :
  wf (t_windows s) -> t_windows s !! source = Some w -> holds pane w = true ->
  let '(s', d) := detach_pane s source pane in departed s s' d pane source w.
Proof.
  intros Hwf Hw Hp. unfold detach_pane. pose proof (repair_rehomes s pane source w Hwf Hw Hp) as Hr.
  set (s1 := repair_stack_anchor s pane) in *. clearbody s1.
  destruct (skeleton_lookup _ _ _ _ (kept_skeleton _ _ (rehomed_kept _ _ _ _ _ Hr)) Hw) as (w1&Hw1&He).
  assert (holds pane w1 = true) as Hp1 by (by rewrite (skeleton_holds _ _ _ He)).
  rewrite Hw1. cbn [mbind option_bind]. rewrite (proj2 (same_skeleton _ _ He)).
  pose proof (without_ids (w_layout w) pane) as Hids. destruct (LayoutNode.without (w_layout w) pane) as [layout|] eqn:El.
  - by apply (depart_kept s s1 pane source w w1).
  - by apply (depart_closed s s1 pane source w w1).
Qed.

Lemma detach_keeps_stacks_witness :
  let '(s', d) := detach_pane sample_tabs 1 3 in
  d = TabClosed /\ length (t_windows s') = 3%nat
  /\ links (t_windows s') = [None; Some 2; None] /\ t_active_window s' = 1%nat.
Proof.
  pose proof (detach_keeps_stacks sample_tabs 3 1 _ sample_wf eq_refl eq_refl) as H.
  destruct (detach_pane sample_tabs 1 3) as [s' d] eqn:E. vm_compute in E. injection E as <- <-.
  destruct H as [_ _ _ _ Hl _ _ _]. split_and!; [reflexivity|exact Hl|reflexivity|reflexivity].
Defined.

(** The root of a stack closes: its first child takes its place. *)
Example root_closes :
  let s := (detach_pane sample_tabs 0 1).1 in let s' := (detach_pane s 0 2).1 in
  links (t_windows s) = [None; Some 2; Some 3; None] /\ links (t_windows s') = [None; Some 3; None]
  /\ stack_tabs s' = [0; 1]%nat.
Proof. vm_compute. done. Qed.

(** ** The recorded events *)

Lemma assign_kept s pane parent : wf (t_windows s) ->
  let s' := (assign_tab_parent s pane parent).1 in
  kept s s' /\ wf (t_windows s') /\ (t_event_writes_enabled s = true -> recorded s s').
Proof.
  intros Hwf. destruct (assignable_dec (t_windows s) pane parent Hwf) as [Ha|Hna].
  - pose proof Ha as (c&w&Hw&Hp&_).
    pose proof (assign_accepted s pane c w parent Hwf Hw Hp (proj1 (assignable_parent _ _ _ _ _ Hwf Hw Hp) Ha)) as H.
    destruct (assign_tab_parent s pane parent). naive_solver.
  - by rewrite (assign_refused _ _ _ Hwf Hna).
Qed.

Lemma followed_recorded s pane parent : wf (t_windows s) -> t_event_writes_enabled s = true ->
  recorded s (assign_followed s pane parent).1 /\ wf (t_windows (assign_followed s pane parent).1).
Proof.
  intros Hwf Hen. unfold assign_followed. destruct (assign_kept s pane parent Hwf) as (_&Hwf1&Hr).
  destruct (assign_tab_parent s pane parent) as [s1 ok]. cbn [fst] in *. specialize (Hr Hen). by destruct ok.
Qed.

Lemma set_tab_recorded s pane parent : wf (t_windows s) -> t_event_writes_enabled s = true ->
  recorded s (set_tab_parent s pane parent).1 /\ wf (t_windows (set_tab_parent s pane parent).1).
Proof.
  intros Hwf Hen. unfold set_tab_parent.
  destruct (position (holds pane) (t_windows s)) as [i|]; [|by apply followed_recorded].
  destruct (t_windows s !! i) as [w|]; [|by apply followed_recorded].
  destruct (decide (w_stack_parent w = parent)); [|by apply followed_recorded].
  destruct (bool_decide (parent <> None)); [done|]. destruct (negb (w_stack_expanded w)); [done|].
  assert (recorded s (retain_stack_row s i false)) as Hr by (by apply retain_recorded).
  destruct (followed_recorded (retain_stack_row s i false) pane parent);
    [by apply retain_wf|by rewrite (kept_writes _ _ (retain_kept s i false))|].
  split; [by transitivity (retain_stack_row s i false)|done].
Qed.

(** C33: Every operation on the stacks writes what it does: replaying the
    [TabConfigured] events that [assign_tab_parent], [set_tab_parent],
    [repair_stack_anchor] or [set_pane_layout] append, through the reducer that
    rebuilds the structure at startup, turns any structure that agrees with the
    Tabs before the operation into one that agrees with the Tabs after it. *)
Theorem tab_events_replay s : wf (t_windows s) -> t_event_writes_enabled s = true ->
  (forall pane parent, recorded s (assign_tab_parent s pane parent).1)
  /\ (forall pane parent, recorded s (set_tab_parent s pane parent).1)
  /\ (forall pane, recorded s (repair_stack_anchor s pane))
  /\ (forall pane mode, recorded s (set_pane_layout s pane mode).1).
Proof.
  intros Hwf Hen. split_and!.
  - intros pane parent. by apply assign_kept.
  - intros pane parent. by apply set_tab_recorded.
  - intros pane. destruct (position (holds pane) (t_windows s)) as [i|] eqn:E; [|unfold repair_stack_anchor; by rewrite E].
    apply position_hit in E as (w&Hw&Hp). by apply (rehomed_recorded _ _ _ _ _ (repair_rehomes s pane i w Hwf Hw Hp)).
  - intros pane mode. unfold set_pane_layout. destruct (position (holds pane) (t_windows s)) as [i|] eqn:E; [|done].
    apply position_hit in E as (w&Hw&Hp). rewrite Hw. destruct (decide (w_layout_mode w = mode)); [done|]. cbv zeta. cbn [fst].
    destruct (append_event_fields s (Log.TabConfigured pane (w_stack_expanded w) mode (w_stack_parent w))) as (->&_&_).
    eapply configured_recorded; [done..|]. intros sw (?&?&?&?&?&?&?&?). by repeat split.
Qed.

Lemma tab_events_replay_witness : recorded sample_tabs (repair_stack_anchor sample_tabs 3).
Proof. destruct (tab_events_replay sample_tabs sample_wf eq_refl) as (_&_&H&_). apply H. Defined.

(** ** Order *)

Lemma swap_length {X} (l : list X) a b : length (swap l a b) = length l.
Proof. unfold swap. destruct (l !! a), (l !! b); by rewrite ?length_insert. Qed.

(** Swapping neighbours, one after another, moves an element. *)
Definition swaps {X} (l : list X) (steps : list (nat * nat)) : list X := foldl (fun l '(a, b) => swap l a b) l steps.

Lemma swap_next {X} (l1 l2 : list X) x y :
  swap (l1 ++ x :: y :: l2) (length l1) (S (length l1)) = l1 ++ y :: x :: l2.
Proof.
  unfold swap. rewrite list_lookup_middle by done. rewrite lookup_app_r by lia.
  replace (S (length l1) - length l1)%nat with 1%nat by lia. cbn.
  rewrite insert_app_r_alt, Nat.sub_diag by done. cbn. rewrite insert_app_r_alt by lia.
  by replace (S (length l1) - length l1)%nat with 1%nat by lia.
Qed.

Lemma swap_sym {X} (l : list X) a b : swap l a b = swap l b a.
Proof.
  unfold swap. destruct (l !! a) as [x|] eqn:Ea, (l !! b) as [y|] eqn:Eb; try done.
  destruct (decide (a = b)) as [->|Hne]; [congruence|]. by rewrite list_insert_insert_ne.
Qed.

Lemma swaps_up {X} (m : list X) l1 x l2 :
  swaps (l1 ++ x :: m ++ l2) (map (fun i => (i, S i)) (seq (length l1) (length m))) = l1 ++ m ++ x :: l2.
Proof.
  revert l1. induction m as [|y m IH]; intros l1; [done|]. cbn [length seq map swaps foldl app]. rewrite swap_next.
  specialize (IH (l1 ++ [y])). rewrite length_app, Nat.add_1_r, <- !app_assoc in IH. exact IH.
Qed.

Lemma swaps_down {X} (m : list X) l1 x l2 :
  swaps (l1 ++ m ++ x :: l2) (map (fun i => (S i, i)) (rev (seq (length l1) (length m)))) = l1 ++ x :: m ++ l2.
Proof.
  revert x l2. induction m as [|y m IH] using rev_ind; intros x l2; [done|].
  rewrite length_app, Nat.add_1_r, seq_S, rev_unit. cbn [map swaps foldl].
  rewrite swap_sym. replace (l1 ++ (m ++ [y]) ++ x :: l2) with ((l1 ++ m) ++ y :: x :: l2) by (by rewrite <- !app_assoc).
  replace (length l1 + length m)%nat with (length (l1 ++ m)) by (by rewrite length_app). rewrite swap_next.
  rewrite <- !app_assoc. apply IH.
Qed.

(** The Tabs of a Project, in order. *)
Definition row (ws : list Win) (project : N) : list Win := filter (fun w => w_project w = project) ws.

Lemma indices_shift project (h : nat -> nat) ws :
  omap (fun '(index, tab) => if w_project tab =? project then Some index else None) (imap (fun n w => (h n, w)) ws)
  = map h (project_window_indices ws project).
Proof.
  unfold project_window_indices. revert h. induction ws as [|w ws IH]; intros h; [done|].
  rewrite !imap_cons. cbn [omap list_omap].
  pose proof (IH (fun n => h (S n))) as H1. pose proof (IH S) as H2.
  change (imap ((fun n w => (h n, w)) ∘ S) ws) with (imap (fun n w => (h (S n), w)) ws).
  change (imap (pair ∘ S) ws) with (imap (fun n w => (S n, w)) ws).
  unfold omap in *. rewrite H1, H2. destruct (w_project w =? project); cbn; by rewrite map_map.
Qed.

Lemma indices_cons w ws project : project_window_indices (w :: ws) project
  = (if w_project w =? project then [0%nat] else []) ++ map S (project_window_indices ws project).
Proof.
  rewrite <- indices_shift. unfold project_window_indices. rewrite imap_cons. cbn [omap list_omap].
  by destruct (w_project w =? project).
Qed.

Lemma indices_row ws project : Forall2 (fun i w => ws !! i = Some w) (project_window_indices ws project) (row ws project).
Proof.
  unfold row. induction ws as [|w ws IH]; [constructor|]. rewrite indices_cons, filter_cons.
  assert (Forall2 (fun i v => (w :: ws) !! i = Some v) (map S (project_window_indices ws project)) (filter (fun w => w_project w = project) ws)) as HS
    by by apply Forall2_fmap_l.
  destruct (N.eqb_spec (w_project w) project); [rewrite decide_True by done|rewrite decide_False by done; done]. by constructor.
Qed.

Lemma indices_spec ws project i : i ∈ project_window_indices ws project <-> exists w, ws !! i = Some w /\ w_project w = project.
Proof.
  revert i. induction ws as [|w ws IH]; intros i.
  { cbn. split; [by intros ?%elem_of_nil|]. by intros (?&?&_). }
  rewrite indices_cons, elem_of_app, list_elem_of_fmap. destruct i as [|i].
  - split.
    + intros [H|(?&?&_)]; [|done]. destruct (N.eqb_spec (w_project w) project); [by exists w|by apply elem_of_nil in H].
    + intros (v&[= <-]&<-). rewrite N.eqb_refl. left. left.
  - change ((w :: ws) !! S i) with (ws !! i). rewrite <- IH. split.
    + intros [H|(j&[= <-]&Hj)]; [|done]. destruct (w_project w =? project); [|by apply elem_of_nil in H].
      by apply list_elem_of_singleton in H.
    + intros H. right. by exists i.
Qed.

Lemma indices_NoDup ws project : NoDup (project_window_indices ws project).
Proof.
  induction ws as [|w ws IH]; [constructor|]. rewrite indices_cons. apply NoDup_app. split_and!.
  - destruct (w_project w =? project); [apply NoDup_singleton|constructor].
  - intros i Hi Hm. apply list_elem_of_fmap in Hm as (j&->&_). destruct (w_project w =? project).
    + by apply list_elem_of_singleton in Hi.
    + by apply elem_of_nil in Hi.
  - by apply NoDup_fmap_2; [apply _|].
Qed.

Lemma indices_projects ws ws' project : map w_project ws = map w_project ws' ->
  project_window_indices ws project = project_window_indices ws' project.
Proof.
  revert ws'. induction ws as [|w ws IH]; intros [|w' ws'] H; try done. cbn in H. injection H as Hw H.
  by rewrite !indices_cons, Hw, (IH ws').
Qed.

Definition flip_at (i j k : nat) : nat := if Nat.eqb k i then j else if Nat.eqb k j then i else k.

Lemma flip_at_twice i j k : flip_at i j (flip_at i j k) = k.
Proof.
  unfold flip_at. destruct (Nat.eqb_spec k i); [destruct (Nat.eqb_spec j i), (Nat.eqb_spec j j); congruence|].
  destruct (Nat.eqb_spec k j).
  - destruct (Nat.eqb_spec i i); congruence.
  - destruct (Nat.eqb_spec k i), (Nat.eqb_spec k j); congruence.
Qed.

Lemma swap_lookup {X} (l : list X) i j k : (i < length l -> j < length l -> swap l i j !! k = l !! flip_at i j k)%nat.
Proof.
  intros [x Hx]%lookup_lt_is_Some [y Hy]%lookup_lt_is_Some. unfold swap, flip_at. rewrite Hx, Hy.
  assert (i < length l /\ j < length l)%nat as [Hi Hj] by (split; by eapply lookup_lt_Some).
  destruct (Nat.eqb_spec k j) as [->|Hkj].
  - rewrite list_lookup_insert_eq by (by rewrite length_insert). destruct (Nat.eqb_spec j i); congruence.
  - rewrite list_lookup_insert_ne by done. destruct (Nat.eqb_spec k i) as [->|Hki].
    + by rewrite list_lookup_insert_eq.
    + by rewrite list_lookup_insert_ne.
Qed.

Section Move.
Context (project : N) (tabs : list nat) (Hnd : NoDup tabs).

(** What one exchange, and so any number, keeps. *)
Record exchanged (s s' : Tabs) (before after : list (option Win)) : Prop := {
  ex_projects : map w_project (t_windows s') = map w_project (t_windows s);
  ex_others : forall k, k ∉ tabs -> t_windows s' !! k = t_windows s !! k;
  ex_row : before = map (fun k => t_windows s !! k) tabs /\ after = map (fun k => t_windows s' !! k) tabs;
  ex_active : t_windows s' !! t_active_window s' = t_windows s !! t_active_window s;
  ex_rest : t_log s' = t_log s /\ t_active_project s' = t_active_project s }.

Lemma swap_tabs_fields s i j : t_windows (swap_tabs s (i, j)) = swap (t_windows s) i j
  /\ t_active_window (swap_tabs s (i, j)) = flip_at i j (t_active_window s)
  /\ t_log (swap_tabs s (i, j)) = t_log s /\ t_active_project (swap_tabs s (i, j)) = t_active_project s.
Proof.
  unfold swap_tabs, flip_at. cbn [t_active_window with_tabs].
  destruct (Nat.eqb (t_active_window s) i); [done|]. by destruct (Nat.eqb (t_active_window s) j).
Qed.

Lemma exchange_one s a b i j :
  (forall k, k ∈ tabs -> exists w, t_windows s !! k = Some w /\ w_project w = project) ->
  tabs !! a = Some i -> tabs !! b = Some j ->
  exchanged s (swap_tabs s (i, j)) (map (fun k => t_windows s !! k) tabs) (swap (map (fun k => t_windows s !! k) tabs) a b).
Proof.
  intros Hin Ha Hb. destruct (swap_tabs_fields s i j) as (Hws&Hact&Hlog&Hap).
  assert (i ∈ tabs /\ j ∈ tabs) as [Hi Hj] by (split; by eapply list_elem_of_lookup_2).
  destruct (Hin i Hi) as (x&Hx&Hpx), (Hin j Hj) as (y&Hy&Hpy).
  assert (forall k, swap (t_windows s) i j !! k = t_windows s !! flip_at i j k) as Hl
    by (intros k; apply swap_lookup; by eapply lookup_lt_Some).
  split; rewrite ?Hws, ?Hact, ?Hlog, ?Hap; try done.
  - apply list_eq. intros k. rewrite !list_lookup_fmap, Hl. unfold flip_at.
    destruct (Nat.eqb_spec k i) as [->|]; [rewrite Hx, Hy; cbn; congruence|].
    destruct (Nat.eqb_spec k j) as [->|]; [rewrite Hx, Hy; cbn; congruence|done].
  - intros k Hk. rewrite Hl. unfold flip_at.
    destruct (Nat.eqb_spec k i) as [->|]; [done|]. by destruct (Nat.eqb_spec k j) as [->|].
  - split; [done|]. apply list_eq. intros k.
    rewrite swap_lookup by (rewrite length_map; by eapply lookup_lt_Some). rewrite !list_lookup_fmap.
    assert (tabs !! flip_at a b k = flip_at i j <$> (tabs !! k)) as ->.
    { unfold flip_at. destruct (Nat.eqb_spec k a) as [->|Hka]; [by rewrite Ha, Hb; cbn; rewrite Nat.eqb_refl|].
      destruct (Nat.eqb_spec k b) as [->|Hkb].
      - rewrite Ha, Hb. cbn. rewrite Nat.eqb_refl. destruct (Nat.eqb_spec j i) as [->|]; [|done].
        by rewrite (NoDup_lookup _ _ _ _ Hnd Hb Ha) in Hka.
      - destruct (tabs !! k) as [t|] eqn:Et; [|done]. cbn.
        destruct (Nat.eqb_spec t i) as [->|]; [by rewrite (NoDup_lookup _ _ _ _ Hnd Et Ha) in Hka|].
        destruct (Nat.eqb_spec t j) as [->|]; [by rewrite (NoDup_lookup _ _ _ _ Hnd Et Hb) in Hkb|done]. }
    destruct (tabs !! k) as [t|]; [|done]. cbn. by rewrite Hl.
  - by rewrite Hl, flip_at_twice.
Qed.

Lemma exchange_all s steps :
  (forall k, k ∈ tabs -> exists w, t_windows s !! k = Some w /\ w_project w = project) ->
  Forall (fun '(a, b) => a < length tabs /\ b < length tabs)%nat steps ->
  exchanged s (foldl swap_tabs s (map (fun '(a, b) => (nth a tabs 0%nat, nth b tabs 0%nat)) steps))
    (map (fun k => t_windows s !! k) tabs) (swaps (map (fun k => t_windows s !! k) tabs) steps).
Proof.
  revert s. induction steps as [|[a b] steps IH]; intros s Hin Hr; [by split|].
  apply Forall_cons in Hr as [[Ha Hb] Hr]. cbn [map foldl swaps].
  assert (forall a, (a < length tabs)%nat -> tabs !! a = Some (nth a tabs 0%nat)) as Hnth.
  { intros k Hk. rewrite nth_lookup. destruct (tabs !! k) eqn:E; [done|]. apply lookup_ge_None in E. lia. }
  pose proof (exchange_one s a b _ _ Hin (Hnth a Ha) (Hnth b Hb)) as Hone.
  set (s1 := swap_tabs s _) in *. clearbody s1. destruct Hone as [Hp1 Ho1 [_ Hrow1] Hact1 [Hl1 Hap1]].
  destruct (IH s1) as [Hp2 Ho2 [Hb2 Hrow2] Hact2 [Hl2 Hap2]]; [|done|].
  { intros k Hk. destruct (Hin k Hk) as (w&Hw&Hp). apply (f_equal (fun l => l !! k)) in Hp1.
    rewrite !list_lookup_fmap, Hw in Hp1. destruct (t_windows s1 !! k) as [w1|]; [|done]. cbn in Hp1. exists w1. split; congruence. }
  split; try congruence.
  - intros k Hk. rewrite Ho2 by done. by apply Ho1.
  - split; [done|]. change (swaps (swap (map (fun k => t_windows s !! k) tabs) a b) steps
      = map (fun k => t_windows (foldl swap_tabs s1 (map (fun '(a, b) => (nth a tabs 0%nat, nth b tabs 0%nat)) steps)) !! k) tabs).
    rewrite Hrow1. exact Hrow2.
  - split; congruence.
Qed.
End Move.

(** The list with its element at [from] taken out and put back at [to]. *)
Definition moved {X} (from to : nat) (l : list X) : list X :=
  let rest := delete from l in take to rest ++ option_list (l !! from) ++ drop to rest.

Lemma swaps_moved {X} (l : list X) from to : (from < length l -> to < length l ->
  swaps l (move_steps from to) = moved from to l)%nat.
Proof.
  intros Hf Ht. destruct (lookup_lt_is_Some_2 l from Hf) as [x Hx].
  assert (l = take from l ++ x :: drop (S from) l) as El by (by rewrite take_drop_middle).
  unfold moved, move_steps. cbv zeta. rewrite delete_take_drop, Hx. cbn [option_list app].
  assert (length (take from l) = from) as Hl1 by (rewrite length_take; lia).
  set (l1 := take from l) in *. set (l2 := drop (S from) l) in *. clearbody l1 l2. subst l.
  rewrite length_app in Ht. cbn [length] in Ht. destruct (Nat.ltb_spec from to) as [Hlt|Hge].
  - rewrite <- (take_drop (to - from) l2). set (m := take (to - from) l2). set (l3 := drop (to - from) l2).
    assert (length m = to - from)%nat as Hm by (unfold m; rewrite length_take; lia).
    assert (take to (l1 ++ m ++ l3) = l1 ++ m) as -> by (rewrite app_assoc; apply take_app_length'; rewrite length_app; lia).
    assert (drop to (l1 ++ m ++ l3) = l3) as -> by (rewrite app_assoc; apply drop_app_length'; rewrite length_app; lia).
    rewrite <- app_assoc. pose proof (swaps_up m l1 x l3) as H. by rewrite Hl1, Hm in H.
  - rewrite <- (take_drop to l1). set (l0 := take to l1). set (m := drop to l1).
    assert (length l0 = to) as H0 by (unfold l0; rewrite length_take; lia).
    assert (length m = from - to)%nat as Hm by (unfold m; rewrite length_drop; lia).
    rewrite <- !app_assoc. rewrite (take_app_length' l0) by done. rewrite (drop_app_length' l0) by done.
    pose proof (swaps_down m l0 x l2) as H. by rewrite H0, Hm in H.
Qed.

Lemma moved_map {X Y} (f : X -> Y) from to (l : list X) : map f (moved from to l) = moved from to (map f l).
Proof.
  change (f <$> moved from to l = moved from to (f <$> l)). unfold moved. cbv zeta.
  rewrite !fmap_app, fmap_take, fmap_drop, !delete_take_drop, !fmap_app, fmap_take, fmap_drop, list_lookup_fmap.
  by destruct (l !! from).
Qed.

Lemma move_steps_range from to n : (from < n -> to < n ->
  Forall (fun '(a, b) => a < n /\ b < n) (move_steps from to))%nat.
Proof.
  intros Hf Ht. unfold move_steps. destruct (Nat.ltb_spec from to); apply Forall_fmap, Forall_forall; intros i Hi; cbn.
  - apply elem_of_seq in Hi. lia.
  - apply list_elem_of_In, in_rev, list_elem_of_In, elem_of_seq in Hi. lia.
Qed.

Lemma row_lookups ws project : map (fun k => ws !! k) (project_window_indices ws project) = map Some (row ws project).
Proof. pose proof (indices_row ws project) as H. induction H as [|i w js ws' Hi H IH]; [done|]. cbn. by rewrite Hi, IH. Qed.

Lemma move_accepted s w from to :
  let ws := t_windows s in let tabs := project_window_indices ws (w_project w) in
  (from < length tabs -> to < length tabs ->
  let s' := foldl swap_tabs (append_event s (Log.TabMoved (w_project w) (N.of_nat from mod U32)%N (N.of_nat to mod U32)%N))
    (map (fun '(a, b) => (nth a tabs 0, nth b tabs 0)) (move_steps from to)) in
  let ws' := t_windows s' in
  row ws' (w_project w) = moved from to (row ws (w_project w))
  /\ (forall i v, ws !! i = Some v -> w_project v <> w_project w -> ws' !! i = Some v)
  /\ map w_project ws' = map w_project ws
  /\ ws' !! t_active_window s' = ws !! t_active_window s
  /\ (t_event_writes_enabled s = true ->
       t_log s' = t_log s ++ [Log.TabMoved (w_project w) (N.of_nat from mod U32)%N (N.of_nat to mod U32)%N]))%nat.
Proof.
  intros ws tabs Hf Ht. set (e := Log.TabMoved _ _ _). destruct (append_event_fields s e) as (Hw&Hk&Hlog).
  destruct (kept_focus _ _ Hk) as [Hact _].
  destruct (exchange_all (w_project w) tabs (indices_NoDup ws (w_project w)) (append_event s e) (move_steps from to)) as [Hp Ho [_ Hr] Ha [Hl _]].
  { intros k Hk'%indices_spec. by rewrite Hw. }
  { by apply move_steps_range. }
  cbv zeta. set (s' := foldl swap_tabs _ _) in *. clearbody s'. rewrite Hw in Hp, Ho, Hr, Ha. rewrite Hact in Ha.
  split_and!; [| |done|done|by intros Hen; rewrite Hl; apply Hlog].
  - apply (inj (fmap Some)). change (map Some (row (t_windows s') (w_project w)) = map Some (moved from to (row ws (w_project w)))).
    rewrite moved_map, <- !row_lookups. rewrite (indices_projects (t_windows s') ws) by done. fold tabs. fold ws in Hr.
    rewrite <- Hr. apply swaps_moved; by rewrite length_map.
  - intros i v Hv Hne. rewrite Ho; [done|]. intros (x&Hx&Hpx)%indices_spec. fold ws in Hx. congruence.
Qed.

(** C35: [move_tab_to] is accepted exactly for another place within the Tab's own
    Project. It then takes the Tab out of its Project's row and puts it back at
    that place, with the order of the others unchanged; the Tabs of other
    Projects, and the places each Project has in the whole list, stay; the
    active Tab is still the same Tab; and one event with both places is
    recorded. Otherwise nothing changes. *)
Theorem move_tab_exact s window to :
  let ws := t_windows s in
  let '(s', ok) := move_tab_to s window to in
  let ws' := t_windows s' in
  (ok = false -> s' = s)
  /\ (ok = true <-> exists w from, ws !! window = Some w
        /\ project_window_indices ws (w_project w) !! from = Some window
        /\ from <> to /\ (to < length (row ws (w_project w)))%nat)
  /\ (ok = true -> forall w from, ws !! window = Some w -> project_window_indices ws (w_project w) !! from = Some window ->
      row ws (w_project w) !! from = Some w
      /\ row ws' (w_project w) = moved from to (row ws (w_project w))
      /\ (forall i v, ws !! i = Some v -> w_project v <> w_project w -> ws' !! i = Some v)
      /\ map w_project ws' = map w_project ws
      /\ ws' !! t_active_window s' = ws !! t_active_window s
      /\ (t_event_writes_enabled s = true ->
           t_log s' = t_log s ++ [Log.TabMoved (w_project w) (N.of_nat from mod U32) (N.of_nat to mod U32)])).
Proof.
  cbv zeta. unfold move_tab_to. destruct (t_windows s !! window) as [w|] eqn:Hw.
  2: { split_and!; [done|split; [done|by intros (?&?&?&_)]|done]. }
  set (tabs := project_window_indices (t_windows s) (w_project w)).
  pose proof (indices_row (t_windows s) (w_project w)) as Hrow. fold tabs in Hrow.
  pose proof (indices_NoDup (t_windows s) (w_project w)) as Hnd. fold tabs in Hnd.
  assert (length (row (t_windows s) (w_project w)) = length tabs) as Hlen by (symmetry; by eapply Forall2_length).
  destruct (position (Nat.eqb window) tabs) as [from|] eqn:Ef.
  2: { assert (window ∈ tabs) as [k Hk]%list_elem_of_lookup by (apply indices_spec; by exists w).
       rewrite position_miss in Ef. specialize (Ef _ _ Hk). by rewrite Nat.eqb_refl in Ef. }
  apply position_hit in Ef as (i&Hi&<-%Nat.eqb_eq).
  assert (forall from', tabs !! from' = Some window -> from' = from) as Hfrom by (intros; by eapply NoDup_lookup).
  destruct (Nat.eqb from to || Nat.leb (length tabs) to) eqn:Ec; cbv zeta.
  { split_and!; [done| |done]. split; [done|]. intros (w'&from'&[= <-]&Hf'&Hne&Hto). rewrite Hlen in Hto.
    rewrite (Hfrom _ Hf') in Hne. apply orb_prop in Ec as [?%Nat.eqb_eq|?%Nat.leb_le]; lia. }
  apply orb_false_elim in Ec as [Hne%Nat.eqb_neq Hto%Nat.leb_gt].
  assert (from < length tabs)%nat as Hf by (by eapply lookup_lt_Some).
  pose proof (move_accepted s w from to) as Hacc. cbv zeta in Hacc. fold tabs in Hacc. specialize (Hacc Hf Hto).
  set (s2 := foldl swap_tabs _ _) in *. clearbody s2.
  assert (forall b : bool, t_windows (if b then with_scroll s2 true (t_stack_scroll s2) else s2) = t_windows s2
    /\ t_active_window (if b then with_scroll s2 true (t_stack_scroll s2) else s2) = t_active_window s2
    /\ t_log (if b then with_scroll s2 true (t_stack_scroll s2) else s2) = t_log s2) as Hsc by (by intros []).
  destruct (Hsc (w_project w =? t_active_project s2)) as (->&->&->).
  split_and!; [done| |].
  - split; [|done]. intros _. exists w, from. rewrite Hlen. by split_and!.
  - intros _ w' from' [= <-] Hf'. rewrite (Hfrom _ Hf'). split; [|done].
    destruct (Forall2_lookup_l _ _ _ _ _ Hrow Hi) as (v&Hv&Hwv). congruence.
Qed.

Lemma move_tab_exact_witness :
  let '(s', ok) := move_tab sample_tabs 1 Next in
  ok = true /\ map w_active (t_windows s') = [2; 4; 3; 5] /\ t_active_window s' = 2%nat
  /\ map w_project (t_windows s') = map w_project sample_windows.
Proof.
  pose proof (move_tab_exact sample_tabs 1 2) as H. change (move_tab sample_tabs 1 Next) with (move_tab_to sample_tabs 1 2).
  cbv zeta in H. destruct (move_tab_to sample_tabs 1 2) as [s' ok] eqn:E. vm_compute in E. injection E as <- <-.
  destruct H as (_&_&H). destruct (H eq_refl _ 1%nat eq_refl eq_refl) as (_&_&_&Hp&_).
  split_and!; [reflexivity|reflexivity|reflexivity|exact Hp].
Defined.
