(* ===== verification/Frame.v ===== *)
(** * The frame codec of the client/server socket

    [uniterm-proto/src/lib.rs], "Frame codec": [encode_frame] and the
    incremental [FrameDecoder]; [drain_server_messages] of
    [uniterm-client/src/tty.rs] is the loop its readers run.  The payload
    format (bincode) is a parameter. *)

From S2P Require Import Prelude.

Abbreviation byte := N (only parsing).

Definition MAX_SERVER_FRAME : N := 8 * 1024 * 1024.
Definition MAX_CLIENT_FRAME : N := 2 * 1024 * 1024.

Inductive FrameError : Set := Oversized (len : N) | BufferOverflow (len : N) | Corrupt.

(** [u32::to_be_bytes] and [u32::from_be_bytes]; the latter on the first four
    bytes of a slice that has them. *)
Definition to_be_bytes (n : N) : list byte :=
  [n / 16777216 mod 256; n / 65536 mod 256; n / 256 mod 256; n mod 256].

Definition from_be_bytes (bs : list byte) : N :=
  match bs with
  | a :: b :: c :: d :: _ => a * 16777216 + b * 65536 + c * 256 + d
  | _ => 0
  end.

Definition nlen {A} (l : list A) : N := N.of_nat (length l).

Record FrameDecoder : Set := {
  buf : list byte; offset : N; max_frame : N; failed : option FrameError }.

Definition default : FrameDecoder :=
  {| buf := []; offset := 0; max_frame := MAX_SERVER_FRAME; failed := None |}.

Definition new : FrameDecoder := default.

Definition with_max_frame (max : N) : FrameDecoder :=
  {| buf := buf default; offset := offset default; max_frame := N.max max 1;
     failed := failed default |}.

Definition fail (d : FrameDecoder) (e : FrameError) : FrameDecoder :=
  {| buf := buf d; offset := offset d; max_frame := max_frame d; failed := Some e |}.

(** [self.buf.drain(..self.offset); self.offset = 0] *)
Definition compact (d : FrameDecoder) : FrameDecoder :=
  {| buf := drop (N.to_nat (offset d)) (buf d); offset := 0;
     max_frame := max_frame d; failed := failed d |}.

Definition push (d : FrameDecoder) (data : list byte) : FrameDecoder :=
  match failed d with
  | Some _ => d
  | None =>
      let d := if offset d =? 0 then d else compact d in
      let max_buffer := max_frame d + 4 in
      let new_len := nlen (buf d) + nlen data in
      if U64 <=? new_len then fail d (BufferOverflow u64_max)
      else if max_buffer <? new_len then fail d (BufferOverflow new_len)
      else
        let d := {| buf := buf d ++ data; offset := offset d;
                    max_frame := max_frame d; failed := None |} in
        if 4 <=? nlen (buf d) then
          let len := from_be_bytes (buf d) in
          if max_frame d <? len then fail d (Oversized len) else d
        else d
  end.

(** The bytes a decoder still has to decode. *)
Definition pending (d : FrameDecoder) : list byte := drop (N.to_nat (offset d)) (buf d).

Section Codec.
Context {M : Type} (serialize : M -> list byte) (deserialize : list byte -> option M).

Definition encode_frame (msg : M) : list byte :=
  let payload := serialize msg in
  let len := nlen payload mod U32 in
  to_be_bytes len ++ payload.

Definition decode (d : FrameDecoder) : FrameDecoder * result (option M) FrameError :=
  match failed d with
  | Some error =>
      ({| buf := []; offset := 0; max_frame := max_frame d; failed := None |}, Err error)
  | None =>
      let p := pending d in
      if nlen p <? 4 then (d, Ok None)
      else
        let len := from_be_bytes p in
        if max_frame d <? len then (d, Err (Oversized len))
        else
          let total := 4 + len in
          if nlen p <? total then (d, Ok None)
          else
            match deserialize (take (N.to_nat len) (drop 4 p)) with
            | None => (d, Err Corrupt)
            | Some msg =>
                let off := offset d + total in
                (if off =? nlen (buf d)
                 then {| buf := []; offset := 0; max_frame := max_frame d; failed := None |}
                 else {| buf := buf d; offset := off; max_frame := max_frame d; failed := None |},
                 Ok (Some msg))
            end
  end.

(** [while let Some(message) = decoder.decode()? { messages.push(message) }];
    [None] when the fuel runs out. *)
Fixpoint drain_server_messages (fuel : nat) (d : FrameDecoder) (messages : list M)
  : option (FrameDecoder * list M * result unit FrameError) :=
  match fuel with
  | O => None
  | S fuel =>
      match decode d with
      | (d, Ok (Some message)) => drain_server_messages fuel d (messages ++ [message])
      | (d, Ok None) => Some (d, messages, Ok tt)
      | (d, Err e) => Some (d, messages, Err e)
      end
  end.
End Codec.

(** ** The stream a decoder stands for *)

(** A frame as the wire has it: the length of the payload, then the payload. *)
Definition frame (p : list byte) : list byte := to_be_bytes (nlen p) ++ p.

Inductive op : Set := Push (data : list byte) | Decode.

Definition pushed (ops : list op) : list byte :=
  concat (map (fun o => match o with Push data => data | Decode => [] end) ops).

(** Offsets and sizes stay within the buffer and its bound. *)
Definition bounded (d : FrameDecoder) : Prop :=
  offset d <= nlen (buf d) /\ nlen (buf d) <= max_frame d + 4 /\ max_frame d < U32.

Lemma nlen_app {A} (l k : list A) : nlen (l ++ k) = nlen l + nlen k.
Proof. unfold nlen. rewrite length_app. lia. Qed.

Lemma to_from_be p :
  Forall (fun b => b < 256) p -> 4 <= nlen p -> to_be_bytes (from_be_bytes p) = take 4 p.
Proof.
  intros Hb Hl. destruct p as [|a [|b [|c [|d p]]]]; try (unfold nlen in Hl; simpl in Hl; lia).
  repeat (apply Forall_cons in Hb as [? Hb]). clear Hb Hl.
  unfold to_be_bytes, from_be_bytes. cbn [take].
  assert ((a * 16777216 + b * 65536 + c * 256 + d) / 16777216 = a) as -> by
    (symmetry; apply N.div_unique with (b * 65536 + c * 256 + d); lia).
  assert ((a * 16777216 + b * 65536 + c * 256 + d) / 65536 = a * 256 + b) as -> by
    (symmetry; apply N.div_unique with (c * 256 + d); lia).
  assert ((a * 16777216 + b * 65536 + c * 256 + d) / 256 = a * 65536 + b * 256 + c) as -> by
    (symmetry; apply N.div_unique with d; lia).
  repeat f_equal; symmetry.
  - rewrite N.mod_small; lia.
  - apply N.mod_unique with a; lia.
  - apply N.mod_unique with (a * 256 + b); lia.
  - apply N.mod_unique with (a * 65536 + b * 256 + c); lia.
Qed.

Lemma from_to_be n rest : n < U32 -> from_be_bytes (to_be_bytes n ++ rest) = n.
Proof.
  intros Hn. unfold from_be_bytes, to_be_bytes, U32 in *. cbn [app].
  assert (n / 65536 = n / 256 / 256) as -> by by rewrite N.Div0.div_div.
  assert (n / 16777216 = n / 256 / 256 / 256) as -> by by rewrite !N.Div0.div_div.
  pose proof (N.div_mod n 256). pose proof (N.div_mod (n / 256) 256).
  pose proof (N.div_mod (n / 256 / 256) 256).
  rewrite (N.mod_small (n / 256 / 256 / 256)); [lia|].
  apply N.Div0.div_lt_upper_bound. apply N.Div0.div_lt_upper_bound.
  apply N.Div0.div_lt_upper_bound. lia.
Qed.

Lemma nlen_frame p : nlen (frame p) = 4 + nlen p.
Proof. unfold frame. by rewrite nlen_app. Qed.

Abbreviation bytes := (Forall (fun b : N => b < 256)) (only parsing).

Lemma pending_compact d : pending (compact d) = pending d.
Proof. unfold pending, compact. cbn [offset buf]. by rewrite drop_0. Qed.

Lemma nlen_pending d : offset d <= nlen (buf d) -> nlen (pending d) = nlen (buf d) - offset d.
Proof. intros H. unfold nlen, pending in *. rewrite length_drop. lia. Qed.

(** What a push does to a decoder without a pending failure. *)
Lemma push_pending d data :
  bounded d -> failed d = None ->
  let n := nlen (pending d) + nlen data in
  let d' := push d data in
  bounded d' /\ max_frame d' = max_frame d
  /\ if max_frame d + 4 <? n
     then failed d' = Some (BufferOverflow (N.min n u64_max)) /\ pending d' = pending d
     else pending d' = pending d ++ data
          /\ failed d' = if (4 <=? n) && (max_frame d <? from_be_bytes (pending d ++ data))
                         then Some (Oversized (from_be_bytes (pending d ++ data))) else None.
Proof.
  intros (Ho & Hb & Hm) Hf. cbn zeta. unfold push. rewrite Hf.
  set (c := if offset d =? 0 then d else compact d).
  assert (offset c = 0 /\ buf c = pending d /\ max_frame c = max_frame d) as (Hc0 & Hcb & Hcm).
  { subst c. destruct (N.eqb_spec (offset d) 0) as [E|E]; [|done].
    by unfold pending; rewrite E, drop_0. }
  assert (forall b f, pending {| buf := b; offset := offset c; max_frame := max_frame c; failed := f |} = b) as Hp.
  { intros. unfold pending. cbn [offset buf]. by rewrite Hc0, drop_0. }
  pose proof (nlen_pending d Ho) as Hn. rewrite Hcb, Hcm. unfold U64, u64_max, U32 in *.
  destruct (N.leb_spec 18446744073709551616 (nlen (pending d) + nlen data)) as [Hov|Hov].
  { destruct (N.ltb_spec (max_frame d + 4) (nlen (pending d) + nlen data)); [|lia].
    unfold fail, bounded. rewrite Hp. cbn [buf offset max_frame failed].
    rewrite Hc0, Hcb, Hcm. rewrite N.min_r by lia. repeat split; unfold U32; first [done | lia]. }
  destruct (N.ltb_spec (max_frame d + 4) (nlen (pending d) + nlen data)) as [Hx|Hx].
  { unfold fail, bounded. rewrite Hp. cbn [buf offset max_frame failed].
    rewrite Hc0, Hcb, Hcm, N.min_l by lia. repeat split; unfold U32; first [done | lia]. }
  rewrite <- nlen_app in *. unfold fail, bounded. rewrite Hc0 in *. cbn [buf offset max_frame failed].
  destruct (4 <=? nlen (pending d ++ data)) eqn:E4; cbn [andb];
    [destruct (max_frame d <? from_be_bytes (pending d ++ data)) eqn:Em|];
    unfold pending; cbn [buf offset max_frame failed];
    rewrite drop_0; repeat split; unfold U32; first [done | lia].
Qed.

Section Stream.
Context {M : Type} (deserialize : list byte -> option M).

Abbreviation answer := (result (option M) FrameError).

(** A stream that starts with the whole frame of payload [p]. *)
Definition starts (max : N) (p rest l : list byte) : Prop :=
  l = frame p ++ rest /\ nlen p <= max.

(** What a call of [decode] answers, when no push has failed before. *)
Lemma decode_spec d :
  bounded d -> failed d = None -> bytes (pending d) ->
  let (d', r) := decode deserialize d in
  bounded d' /\ failed d' = None /\ max_frame d' = max_frame d
  /\ match r with
     | Ok (Some m) => exists p, starts (max_frame d) p (pending d') (pending d)
                               /\ deserialize p = Some m
     | Ok None => d' = d /\ ~ exists p rest, starts (max_frame d) p rest (pending d)
     | Err e => d' = d
         /\ ((e = Oversized (from_be_bytes (pending d)) /\ 4 <= nlen (pending d)
              /\ max_frame d < from_be_bytes (pending d))
             \/ (e = Corrupt /\ exists p rest, starts (max_frame d) p rest (pending d)
                                         /\ deserialize p = None))
     end.
Proof.
  intros Hbd Hf Hby. pose proof Hbd as (Ho & Hb & Hm). unfold decode. rewrite Hf.
  set (P := pending d) in *. set (h := from_be_bytes P).
  assert (forall p rest, nlen p <= max_frame d -> P = frame p ++ rest -> h = nlen p) as Hhd.
  { intros p rest Hp HP. subst h. rewrite HP. unfold frame. rewrite <- app_assoc.
    apply from_to_be. lia. }
  destruct (N.ltb_spec (nlen P) 4) as [H4|H4].
  { do 4 (split; [done|]). intros (p & rest & HP & Hp). rewrite HP, nlen_app, nlen_frame in H4. lia. }
  destruct (N.ltb_spec (max_frame d) h) as [Hh|Hh].
  { do 4 (split; [done|]). by left. }
  destruct (N.ltb_spec (nlen P) (4 + h)) as [Ht|Ht].
  { do 4 (split; [done|]). intros (p & rest & HP & Hp).
    pose proof (Hhd p rest Hp HP) as Hx. rewrite HP, nlen_app, nlen_frame in Ht. lia. }
  set (p := take (N.to_nat h) (drop 4 P)).
  assert (nlen p = h) as Hpl.
  { subst p. unfold nlen in *. rewrite length_take, length_drop. lia. }
  assert (P = frame p ++ drop (N.to_nat (4 + h)) P) as HP.
  { unfold frame. rewrite Hpl. subst h. rewrite to_from_be by done.
    replace (N.to_nat (4 + from_be_bytes P)) with (4 + N.to_nat (from_be_bytes P))%nat by lia.
    rewrite <- drop_drop. subst p. by rewrite <- app_assoc, !take_drop. }
  assert (starts (max_frame d) p (drop (N.to_nat (4 + h)) P) P) as Hst by (split; [done|lia]).
  destruct (deserialize p) as [m|] eqn:Hde.
  - pose proof (nlen_pending d Ho) as Hn. fold P in Hn.
    assert (forall q, q = drop (N.to_nat (4 + h)) P -> exists p0,
      starts (max_frame d) p0 q P /\ deserialize p0 = Some m) as Hex by (intros ? ->; eauto).
    destruct (N.eqb_spec (offset d + (4 + h)) (nlen (buf d))) as [E|E];
      unfold bounded; cbn [buf offset max_frame failed];
      (split; [unfold nlen in *; cbn [length]; lia|]; split; [done|]; split; [done|]; apply Hex).
    + symmetry. apply drop_ge. unfold nlen in *. lia.
    + unfold P, pending. cbn [buf offset]. rewrite drop_drop. f_equal. lia.
  - do 4 (split; [done|]). right. eauto.
Qed.

(** A reader calls [push] and [decode] in any order. *)
Definition reader_step (st : FrameDecoder * list answer) (o : op) : FrameDecoder * list answer :=
  match o with
  | Push data => (push st.1 data, st.2)
  | Decode => let (d, r) := decode deserialize st.1 in (d, st.2 ++ [r])
  end.

Definition run (max : N) (ops : list op) : FrameDecoder * list answer :=
  foldl reader_step (with_max_frame max, []) ops.

(** The payloads [ps] and the answers a stream of them calls for, waits left out. *)
Definition answers (ps : list (list byte)) (outs : list answer) : Prop :=
  map deserialize ps = map Some (omap (fun r => match r with Ok m => m | Err _ => None end) outs).

(** Why a failure is remembered. *)
Definition justified (max : N) (ops : list op) (d : FrameDecoder) (lost : list byte) : Prop :=
  match failed d with
  | None => lost = []
  | Some (Oversized n) => n = from_be_bytes (pending d) /\ 4 <= nlen (pending d) /\ N.max max 1 < n
  | Some (BufferOverflow n) => exists before data after,
      ops = before ++ Push data :: after
      /\ N.max max 1 + 4 < nlen (pending (run max before).1) + nlen data
      /\ n = N.min (nlen (pending (run max before).1) + nlen data) u64_max
  | Some Corrupt => False
  end.

Definition stream_inv (max : N) (ops : list op) (st : FrameDecoder * list answer) : Prop :=
  exists ps lost,
    pushed ops = concat (map frame ps) ++ pending st.1 ++ lost
    /\ Forall (fun p => nlen p <= N.max max 1) ps /\ answers ps st.2
    /\ justified max ops st.1 lost.

Lemma reader_snoc max ops o : run max (ops ++ [o]) = reader_step (run max ops) o.
Proof. unfold run. by rewrite foldl_app. Qed.

Lemma pushed_snoc ops o :
  pushed (ops ++ [o]) = pushed ops ++ match o with Push data => data | Decode => [] end.
Proof. unfold pushed. rewrite map_app, concat_app. simpl. by rewrite app_nil_r. Qed.

Lemma run_bounded max ops :
  max < U32 -> bounded (run max ops).1 /\ max_frame (run max ops).1 = N.max max 1.
Proof.
  intros Hm. induction ops as [|o ops [Hb IH]] using rev_ind.
  { unfold bounded, U32 in *. simpl. split; [|done]. unfold nlen. simpl. lia. }
  rewrite reader_snoc. destruct (run max ops) as [d outs]. cbn [fst] in *.
  destruct o as [data|]; cbn [reader_step fst].
  - destruct (failed d) as [e|] eqn:Hf; [unfold push; by rewrite Hf|].
    destruct (push_pending d data Hb Hf) as (? & -> & _). done.
  - unfold decode. destruct (failed d) as [e|] eqn:Hf.
    { unfold bounded in *. cbn. split; [|done]. unfold nlen. simpl. lia. }
    destruct (_ <? 4); [done|]. destruct (_ <? _); [done|].
    destruct (N.ltb_spec (nlen (pending d)) (4 + from_be_bytes (pending d))); [done|].
    destruct (deserialize _); [|done].
    pose proof Hb as (Ho & _). pose proof (nlen_pending d Ho).
    destruct (_ =? _); unfold bounded in *; cbn [fst buf offset max_frame];
      (split; [unfold nlen in *; cbn [length]; lia|done]).
Qed.

Lemma bytes_pending max ops ps lost :
  bytes (pushed ops) -> pushed ops = concat (map frame ps) ++ pending (run max ops).1 ++ lost ->
  bytes (pending (run max ops).1).
Proof. intros H E. rewrite E, !Forall_app in H. apply H. Qed.

Lemma justified_snoc max ops o d lost lost' :
  failed d <> None -> justified max ops d lost -> justified max (ops ++ [o]) d lost'.
Proof.
  unfold justified. destruct (failed d) as [[n|n|]|]; try done.
  intros _ (bf & data & af & -> & H). exists bf, data, (af ++ [o]). by rewrite <- app_assoc.
Qed.

Lemma stream_push max ops data :
  max < U32 -> stream_inv max ops (run max ops) ->
  stream_inv max (ops ++ [Push data]) (run max (ops ++ [Push data])).
Proof.
  intros Hm (ps & lost & Hp & Hall & Ha & Hj).
  pose proof (run_bounded max ops Hm) as [Hb Hmx]. unfold stream_inv. rewrite reader_snoc, pushed_snoc.
  destruct (run max ops) as [d outs] eqn:Er. cbn [reader_step fst snd] in *.
  destruct (failed d) as [e|] eqn:Hf.
  { assert (push d data = d) as -> by (unfold push; by rewrite Hf).
    exists ps, (lost ++ data). rewrite Hp, <- !app_assoc. do 3 (split; [done|]).
    eapply justified_snoc; [congruence|exact Hj]. }
  unfold justified in Hj. rewrite Hf in Hj. subst lost. rewrite app_nil_r in Hp.
  destruct (push_pending d data Hb Hf) as (_ & _ & H).
  destruct (N.ltb_spec (max_frame d + 4) (nlen (pending d) + nlen data)) as [Hx|Hx].
  - destruct H as [Hf' Hp']. exists ps, data. rewrite Hp, Hp', <- app_assoc. do 3 (split; [done|]).
    unfold justified. rewrite Hf'. exists ops, data, []. rewrite Er. cbn [fst]. by rewrite <- Hmx.
  - destruct H as [Hp' Hf']. exists ps, []. rewrite Hp, Hp', app_nil_r, <- app_assoc.
    do 3 (split; [done|]). unfold justified. rewrite Hf', Hp'.
    destruct (N.leb_spec 4 (nlen (pending d) + nlen data)); cbn [andb]; [|done].
    destruct (N.ltb_spec (max_frame d) (from_be_bytes (pending d ++ data))); [|done].
    rewrite nlen_app, <- Hmx. done.
Qed.

Lemma from_be_app p q : 4 <= nlen p -> from_be_bytes (p ++ q) = from_be_bytes p.
Proof.
  intros H. destruct p as [|a [|b [|c [|d p]]]]; try done; unfold nlen in H; simpl in H; lia.
Qed.

Lemma answers_snoc ps outs p m :
  answers ps outs -> deserialize p = Some m -> answers (ps ++ [p]) (outs ++ [Ok (Some m)]).
Proof. unfold answers. intros H Hp. rewrite !map_app, omap_app, map_app, H. simpl. by rewrite Hp. Qed.

Lemma answers_wait ps outs : answers ps outs -> answers ps (outs ++ [Ok None]).
Proof. unfold answers. intros H. rewrite omap_app. simpl. by rewrite app_nil_r. Qed.

Lemma stream_decode max ops :
  max < U32 -> bytes (pushed ops) -> stream_inv max ops (run max ops) ->
  is_ok (decode deserialize (run max ops).1).2 ->
  stream_inv max (ops ++ [Decode]) (run max (ops ++ [Decode])).
Proof.
  intros Hm Hby (ps & lost & Hp & Hall & Ha & Hj) Hok.
  pose proof (run_bounded max ops Hm) as [Hb Hmx].
  pose proof (bytes_pending _ _ _ _ Hby Hp) as Hbp.
  unfold stream_inv. rewrite reader_snoc, pushed_snoc, app_nil_r.
  destruct (run max ops) as [d outs] eqn:Er. cbn [reader_step fst snd] in *.
  destruct (failed d) as [e|] eqn:Hf; [by unfold decode in Hok; rewrite Hf in Hok|].
  unfold justified in Hj. rewrite Hf in Hj. subst lost. rewrite app_nil_r in Hp.
  pose proof (decode_spec d Hb Hf Hbp) as H.
  destruct (decode deserialize d) as [d' [[m|]|e]]; [| |done]; cbn [fst snd];
    destruct H as (_ & Hf' & _ & H).
  - destruct H as (p & [Hst Hl] & Hde). exists (ps ++ [p]), [].
    rewrite Hp, Hst, map_app, concat_app, app_nil_r. simpl. rewrite app_nil_r, <- app_assoc.
    split; [done|]. split; [apply Forall_app; split; [done|]; constructor; [lia|done]|].
    split; [by apply answers_snoc|]. unfold justified. by rewrite Hf'.
  - destruct H as [-> _]. exists ps, []. rewrite app_nil_r. split; [done|]. split; [done|].
    split; [by apply answers_wait|]. unfold justified. by rewrite Hf.
Qed.

Lemma stream_exact max ops :
  max < U32 -> bytes (pushed ops) -> Forall is_ok (run max ops).2 ->
  stream_inv max ops (run max ops).
Proof.
  intros Hm. induction ops as [|o ops IH] using rev_ind; intros Hby Hok.
  { exists [], []. done. }
  rewrite pushed_snoc in Hby. apply Forall_app in Hby as [Hby Ho].
  destruct o as [data|].
  - apply stream_push; [done|]. apply IH; [done|]. rewrite reader_snoc in Hok. exact Hok.
  - rewrite reader_snoc in Hok. unfold reader_step in Hok.
    destruct (decode deserialize (run max ops).1) as [d' r] eqn:E. cbn [snd] in Hok.
    apply Forall_app in Hok as [Hok Hr]. apply Forall_cons in Hr as [Hr _].
    apply stream_decode; [done|done|by apply IH|by rewrite E].
Qed.

(** C20: the decoder is exact on every byte stream. In whatever order [push] and
    [decode] are called, the buffer stays within its bound, and as long as no
    error was answered the messages returned are those of the successive
    frames at the head of the bytes pushed: none is lost, repeated, invented or
    larger than the limit. The next answer is then the next frame's message;
    "not yet" only when what remains has no whole frame; or an error that the
    stream justifies, an oversized header, a payload that does not parse, or a
    push that went beyond the bound. *)
Theorem decoder_stream_exact max ops :
  max < U32 -> bytes (pushed ops) ->
  let (d, outs) := run max ops in
  nlen (buf d) <= N.max max 1 + 4
  /\ (Forall is_ok outs -> exists ps rest,
        pushed ops = concat (map frame ps) ++ rest
        /\ Forall (fun p => nlen p <= N.max max 1) ps /\ answers ps outs
        /\ match (decode deserialize d).2 with
           | Ok (Some m) => exists p rest', starts (N.max max 1) p rest' rest /\ deserialize p = Some m
           | Ok None => ~ exists p rest', starts (N.max max 1) p rest' rest
           | Err (Oversized n) => 4 <= nlen rest /\ n = from_be_bytes rest /\ N.max max 1 < n
           | Err Corrupt => exists p rest', starts (N.max max 1) p rest' rest /\ deserialize p = None
           | Err (BufferOverflow n) => exists before data after,
               ops = before ++ Push data :: after
               /\ N.max max 1 + 4 < nlen (pending (run max before).1) + nlen data
               /\ n = N.min (nlen (pending (run max before).1) + nlen data) u64_max
           end).
Proof.
  intros Hm Hby. pose proof (run_bounded max ops Hm) as [Hb Hmx].
  pose proof (stream_exact max ops Hm Hby) as Hex.
  pose proof (fun ps lost => bytes_pending max ops ps lost Hby) as Hbp.
  destruct (run max ops) as [d outs]. cbn [fst snd] in *.
  split; [rewrite <- Hmx; apply Hb|]. intros Hok.
  destruct (Hex Hok) as (ps & lost & Hp & Hall & Ha & Hj). cbn [fst snd] in *.
  specialize (Hbp ps lost Hp). exists ps, (pending d ++ lost). do 3 (split; [done|]).
  unfold justified in Hj. destruct (failed d) as [e|] eqn:Hf.
  - unfold decode. rewrite Hf. cbn [snd]. destruct e as [n|n|]; [|exact Hj|done].
    destruct Hj as (-> & H4 & Hn). rewrite nlen_app, from_be_app by done. split; [lia|done].
  - subst lost. rewrite app_nil_r. pose proof (decode_spec d Hb Hf Hbp) as H.
    destruct (decode deserialize d) as [d' [[m|]|e]]; cbn [snd]; destruct H as (_ & _ & _ & H);
      rewrite <- Hmx.
    + destruct H as (p & Hst & Hde). eauto.
    + by destruct H as [_ ?].
    + by destruct H as [_ [(-> & ? & ?)|(-> & ?)]].
Qed.
End Stream.

(** ** Encoding and decoding *)

Lemma frame_inj p q x y :
  nlen p < U32 -> nlen q < U32 -> frame p ++ x = frame q ++ y -> p = q /\ x = y.
Proof.
  intros Hp Hq E.
  assert (nlen p = nlen q) as Hl.
  { apply (f_equal from_be_bytes) in E. unfold frame in E. rewrite <- !app_assoc in E.
    by rewrite !from_to_be in E by done. }
  unfold frame in E. rewrite Hl, <- !app_assoc in E. apply app_inv_head in E.
  apply app_inj_1 in E; [done|]. unfold nlen in Hl. lia.
Qed.

Lemma bytes_frame p : bytes p -> bytes (frame p).
Proof.
  intros H. unfold frame, to_be_bytes. repeat (apply Forall_cons; split; [by apply N.mod_lt|]). done.
Qed.

Section RoundTrip.
Context {M : Type} (serialize : M -> list byte) (deserialize : list byte -> option M).

(** A reader on a socket: every chunk read is pushed and the whole messages
    are drained. *)
Fixpoint read_all (d : FrameDecoder) (chunks : list (list byte)) (messages : list M)
  : option (FrameDecoder * list M * result unit FrameError) :=
  match chunks with
  | [] => Some (d, messages, Ok tt)
  | c :: chunks =>
      let d := push d c in
      match drain_server_messages deserialize (S (length (buf d))) d messages with
      | Some (d, messages, Ok _) => read_all d chunks messages
      | r => r
      end
  end.

Context (Hser : forall m, deserialize (serialize m) = Some m).
Context (max K : N) (Hmax : max < U32).

(** A message whose frame fits beside one more read of [K] bytes. *)
Definition fits (m : M) : Prop := bytes (serialize m) /\ nlen (serialize m) + K <= max + 1.

Abbreviation wire ms := (concat (map (encode_frame serialize) ms)).

Lemma encode_frame_frame m : nlen (serialize m) < U32 -> encode_frame serialize m = frame (serialize m).
Proof. intros H. unfold encode_frame, frame. by rewrite N.mod_small. Qed.

Lemma fits_frame m :
  0 < K -> fits m -> encode_frame serialize m = frame (serialize m) /\ nlen (serialize m) <= max.
Proof. intros HK [_ Hl]. split; [apply encode_frame_frame; lia|lia]. Qed.

Lemma bytes_wire ms : 0 < K -> Forall fits ms -> bytes (wire ms).
Proof.
  intros HK. induction 1 as [|m ms Hm _ IH]; [constructor|]. cbn [map concat].
  apply Forall_app. split; [|done]. destruct (fits_frame m HK Hm) as [-> _]. apply bytes_frame, Hm.
Qed.

(** Less than the next frame of [ms] is waiting. *)
Definition short (d : FrameDecoder) (ms : list M) : Prop :=
  match ms with [] => pending d = [] | m :: _ => nlen (pending d) < 4 + nlen (serialize m) end.

Definition reading (d : FrameDecoder) (later : list byte) (ms : list M) : Prop :=
  bounded d /\ failed d = None /\ max_frame d = max /\ pending d ++ later = wire ms.

Lemma drain_exact fuel d later ms acc :
  0 < K -> Forall fits ms -> reading d later ms -> (length (pending d) < fuel)%nat ->
  exists d' ms1 ms2, ms = ms1 ++ ms2
    /\ drain_server_messages deserialize fuel d acc = Some (d', acc ++ ms1, Ok tt)
    /\ reading d' later ms2 /\ short d' ms2.
Proof.
  intros HK. revert d ms acc. induction fuel as [|fuel IH]; intros d ms acc Hfit Hr Hlt; [lia|].
  pose proof Hr as (Hb & Hf & Hmx & Hw). cbn [drain_server_messages].
  assert (bytes (pending d)) as Hby.
  { pose proof (bytes_wire ms HK Hfit) as H. rewrite <- Hw in H. by apply Forall_app in H as [? _]. }
  pose proof (decode_spec deserialize d Hb Hf Hby) as H. rewrite Hmx in H.
  assert (forall p rest, starts max p rest (pending d) ->
    exists m ms', ms = m :: ms' /\ p = serialize m /\ rest ++ later = wire ms') as Hnext.
  { intros p rest [E Hp]. destruct ms as [|m ms'].
    { rewrite E in Hw. unfold frame, to_be_bytes in Hw. by apply app_nil in Hw as [? _]. }
    apply Forall_cons in Hfit as [Hfm _]. destruct (fits_frame m HK Hfm) as [Ef Hl].
    rewrite E in Hw. cbn [map concat] in Hw. rewrite Ef, <- app_assoc in Hw.
    apply frame_inj in Hw as [-> Hw]; [eauto|lia|lia]. }
  destruct (decode deserialize d) as [d' [[m|]|e]].
  - destruct H as (Hb' & Hf' & Hmx' & p & Hst & Hde).
    destruct (Hnext _ _ Hst) as (m0 & ms' & -> & -> & Hw').
    rewrite Hser in Hde. injection Hde as [= <-]. apply Forall_cons in Hfit as [_ Hfit].
    destruct (IH d' ms' (acc ++ [m0]) Hfit) as (d2 & ms1 & ms2 & -> & Hd & Hr2 & Hs2).
    { split_and!; [done|done|congruence|done]. }
    { destruct Hst as [Hst _]. rewrite Hst, length_app in Hlt.
      pose proof (nlen_frame (serialize m0)) as Hl. unfold nlen in Hl. lia. }
    exists d2, (m0 :: ms1), ms2. rewrite <- app_assoc in Hd. done.
  - destruct H as (_ & _ & _ & -> & Hno). exists d, [], ms. rewrite app_nil_r.
    split; [done|]. split; [done|]. split; [done|]. unfold short. destruct ms as [|m ms'].
    { by apply app_nil in Hw as [? _]. }
    destruct (N.ltb_spec (nlen (pending d)) (4 + nlen (serialize m))) as [|Hge]; [done|].
    apply Forall_cons in Hfit as [Hfm _]. destruct (fits_frame m HK Hfm) as [Ef Hl].
    destruct Hno. cbn [map concat] in Hw. rewrite Ef in Hw. exists (serialize m).
    apply (f_equal (take (length (frame (serialize m))))) in Hw as Hw2.
    pose proof (nlen_frame (serialize m)) as Hlf. unfold nlen in Hlf, Hge.
    rewrite take_app_le, take_app_length in Hw2 by lia.
    exists (drop (length (frame (serialize m))) (pending d)). split; [|done].
    by rewrite <- Hw2 at 1; rewrite take_drop.
  - destruct H as (_ & _ & _ & -> & [(-> & H4 & Hgt)|(-> & p & rest & Hst & Hde)]).
    + destruct ms as [|m ms']; [apply app_nil in Hw as [Hw _]; rewrite Hw in H4; unfold nlen in H4; simpl in H4; lia|].
      apply Forall_cons in Hfit as [Hfm _]. destruct (fits_frame m HK Hfm) as [Ef Hl].
      apply (f_equal from_be_bytes) in Hw. cbn [map concat] in Hw.
      rewrite Ef, from_be_app in Hw by done. unfold frame in Hw.
      rewrite <- app_assoc, from_to_be in Hw; lia.
    + destruct (Hnext _ _ Hst) as (m0 & ms' & _ & -> & _). by rewrite Hser in Hde.
Qed.

(** A read of at most [K] bytes never overflows a reader that drains. *)
Lemma push_reading d c later ms :
  0 < K -> Forall fits ms -> nlen c <= K -> reading d (c ++ later) ms -> short d ms ->
  reading (push d c) later ms.
Proof.
  intros HK Hfit Hc (Hb & Hf & Hmx & Hw) Hs.
  destruct (push_pending d c Hb Hf) as (Hb' & Hm' & H). rewrite Hmx in *.
  assert (nlen (pending d) + nlen c <= max + 4
          /\ (4 <= nlen (pending d ++ c) -> from_be_bytes (pending d ++ c) <= max)) as [Hle Hh].
  { destruct ms as [|m ms'].
    - rewrite Hs in *. destruct c; [|done]. unfold nlen; cbn [length app]. split; lia.
    - apply Forall_cons in Hfit as [Hfm _]. destruct (fits_frame m HK Hfm) as [Ef Hl].
      cbn [short] in Hs. destruct Hfm as [_ Hfm]. split; [lia|]. intros H4.
      rewrite app_assoc in Hw. apply (f_equal from_be_bytes) in Hw.
      rewrite from_be_app in Hw by done. cbn [map concat] in Hw. rewrite Ef in Hw. unfold frame in Hw.
      rewrite <- app_assoc, from_to_be in Hw; lia. }
  destruct (N.ltb_spec (max + 4) (nlen (pending d) + nlen c)); [lia|].
  destruct H as [Hp Hf']. split_and!; [done| |done|by rewrite Hp, <- app_assoc].
  rewrite Hf'. rewrite nlen_app in Hh. destruct (N.leb_spec 4 (nlen (pending d) + nlen c)) as [H4|]; [|done].
  cbn [andb]. specialize (Hh H4).
  destruct (N.ltb_spec max (from_be_bytes (pending d ++ c))); [lia|done].
Qed.

Lemma read_exact chunks d later ms acc :
  0 < K -> Forall fits ms -> Forall (fun c => nlen c <= K) chunks ->
  reading d (concat chunks ++ later) ms -> short d ms ->
  exists d' ms1 ms2, ms = ms1 ++ ms2
    /\ read_all d chunks acc = Some (d', acc ++ ms1, Ok tt)
    /\ reading d' later ms2 /\ short d' ms2.
Proof.
  intros HK Hfit Hc. revert d ms acc Hfit. induction Hc as [|c chunks Hc _ IH]; intros d ms acc Hfit Hr Hs.
  { exists d, [], ms. cbn [read_all]. by rewrite app_nil_r. }
  cbn [concat] in Hr. rewrite <- app_assoc in Hr.
  pose proof (push_reading _ _ _ _ HK Hfit Hc Hr Hs) as Hr2.
  destruct (drain_exact (S (length (buf (push d c)))) _ _ _ acc HK Hfit Hr2) as
    (d2 & ms1 & ms2 & -> & Hd & Hr3 & Hs3).
  { unfold pending. rewrite length_drop. lia. }
  cbn [read_all]. rewrite Hd. apply Forall_app in Hfit as [_ Hfit].
  destruct (IH d2 ms2 (acc ++ ms1) Hfit Hr3 Hs3) as (d3 & ms3 & ms4 & -> & -> & H).
  exists d3, (ms1 ++ ms3), ms4. by rewrite !app_assoc.
Qed.

(** What is sent is received. If every message of the stream parses back
    and leaves room for one read of [K] bytes beside its frame, then however the
    socket cuts the stream into reads of at most [K] bytes, also in the middle
    of a header, the reader never fails, returns exactly the messages whose
    frames have arrived whole, in order, and keeps exactly the bytes of the
    next one; when the stream has arrived it has every message. *)
Theorem frames_round_trip ms chunks later :
  0 < K -> 0 < max -> Forall fits ms -> Forall (fun c => nlen c <= K) chunks ->
  concat chunks ++ later = concat (map (encode_frame serialize) ms) ->
  exists d ms1 ms2, ms = ms1 ++ ms2
    /\ read_all (with_max_frame max) chunks [] = Some (d, ms1, Ok tt)
    /\ concat chunks = concat (map (encode_frame serialize) ms1) ++ pending d
    /\ match ms2 with
       | [] => pending d = []
       | m :: _ => nlen (pending d) < nlen (encode_frame serialize m)
       end
    /\ (later = [] -> ms1 = ms).
Proof.
  intros HK H0 Hfit Hc Hw.
  destruct (read_exact chunks (with_max_frame max) later ms [] HK Hfit Hc) as
    (d & ms1 & ms2 & -> & Hd & (_ & _ & _ & Hw2) & Hs).
  { assert (N.max max 1 = max) as E by lia. unfold reading, bounded, pending.
    cbn [with_max_frame buf offset max_frame failed default]. rewrite E. change (nlen []) with 0.
    split_and!; [lia|lia|done|done|done|exact Hw]. }
  { destruct ms as [|m ms]; [done|]. change (0 < 4 + nlen (serialize m)). lia. }
  assert (match ms2 with [] => pending d = []
          | m :: _ => nlen (pending d) < nlen (encode_frame serialize m) end) as Hs2.
  { destruct ms2 as [|m ms2]; [done|]. rewrite !Forall_app, Forall_cons in Hfit.
    destruct (fits_frame m HK (proj1 (proj2 Hfit))) as [-> _]. by rewrite nlen_frame. }
  exists d, ms1, ms2. split; [done|]. split; [exact Hd|]. rewrite map_app, concat_app in Hw.
  split; [|split; [done|]].
  - rewrite <- Hw2, app_assoc in Hw. by apply app_inv_tail in Hw.
  - intros ->. destruct ms2 as [|m ms2]; [by rewrite app_nil_r|]. rewrite app_nil_r in Hw2.
    rewrite Hw2 in Hs2. cbn [map concat] in Hs2. rewrite nlen_app in Hs2. lia.
Qed.
End RoundTrip.

(** ** Witnesses: messages that are their own payload *)

Lemma decoder_stream_exact_witness :
  let ops := [Push [0; 0; 0; 2; 7]; Decode; Push [8; 0; 0; 0; 200]; Decode] in
  exists ps rest, pushed ops = concat (map frame ps) ++ rest /\ map Some ps = [Some [7; 8]]
    /\ 4 <= nlen rest.
Proof.
  intros ops.
  pose proof (decoder_stream_exact (M := list N) Some 16 ops) as H.
  assert (bytes (pushed ops)) as Hb by (by apply (bool_decide_unpack _); vm_compute).
  specialize (H eq_refl Hb).
  assert (run Some 16 ops = ({| buf := [0; 0; 0; 2; 7; 8; 0; 0; 0; 200]; offset := 6;
    max_frame := 16; failed := None |}, [Ok None; Ok (Some [7; 8])])) as E by (vm_compute; done).
  rewrite E in H. destruct H as [_ H].
  destruct H as (ps & rest & Hp & _ & Ha & Hd); [by repeat constructor|].
  exists ps, rest. vm_compute in Hd. split; [exact Hp|]. split; [exact Ha|].
  destruct Hd as [Hd _]. exact Hd.
Defined.

Lemma frames_round_trip_witness :
  exists d, read_all Some (with_max_frame 16) [[0; 0; 0]; [1; 42; 0]; [0; 0; 0]] []
            = Some (d, [[42]; []], Ok tt).
Proof.
  destruct (frames_round_trip (fun m : list N => m) Some (fun m => eq_refl) 16 3 eq_refl
    [[42]; []] [[0; 0; 0]; [1; 42; 0]; [0; 0; 0]] []) as (d & ms1 & ms2 & _ & Hd & _ & _ & Hall).
  - done.
  - done.
  - repeat constructor; vm_compute; congruence.
  - repeat constructor; vm_compute; congruence.
  - done.
  - exists d. rewrite <- (Hall eq_refl). exact Hd.
Defined.

(** Two frames within the limit, pushed before the first is decoded, can exceed
    the bound of the buffer: readers must drain between reads. *)
Lemma burst_overflow {M} (deserialize : list byte -> option M) max p q :
  max < U32 -> 0 < max -> nlen p <= max -> nlen q <= max -> max < nlen p + 4 + nlen q ->
  (decode deserialize (push (push (with_max_frame max) (frame p)) (frame q))).2
  = Err (BufferOverflow (nlen (frame p) + nlen (frame q))).
Proof.
  intros Hm H0 Hp Hq Hpq.
  assert (bounded (with_max_frame max) /\ max_frame (with_max_frame max) = max) as [Hb Hmx].
  { unfold bounded. cbn [with_max_frame buf offset max_frame default]. change (nlen []) with 0. lia. }
  destruct (push_pending (with_max_frame max) (frame p) Hb eq_refl) as (Hb1 & Hm1 & H1).
  change (pending (with_max_frame max)) with (@nil byte) in H1. change (nlen []) with 0 in H1.
  rewrite Hmx in *. rewrite nlen_frame in *.
  destruct (N.ltb_spec (max + 4) (0 + (4 + nlen p))); [lia|]. destruct H1 as [Hp1 Hf1].
  cbn [app] in Hp1, Hf1.
  assert (from_be_bytes (frame p) = nlen p) as Hh by (apply from_to_be; lia).
  rewrite Hh in Hf1. destruct (N.ltb_spec max (nlen p)); [lia|]. rewrite andb_false_r in Hf1.
  destruct (push_pending _ (frame q) Hb1 Hf1) as (_ & _ & H2).
  rewrite Hm1, Hp1, !nlen_frame in H2.
  destruct (N.ltb_spec (max + 4) (4 + nlen p + (4 + nlen q))); [|lia]. destruct H2 as [Hf2 _].
  unfold decode. rewrite Hf2, !nlen_frame. cbn [snd]. rewrite N.min_l; [done|].
  unfold U32, u64_max in *. lia.
Qed.
