(* ===== verification/Keyboard.v ===== *)
(** * Keyboard input

    [uniterm-core/src/keyboard.rs]: the host reports disambiguated keys (CSI u);
    a legacy consumer gets their usual bytes, and pasted text passes unchanged,
    also when a read cuts it. *)

From S2P Require Import Prelude Decimal Utf8.
#[local] Open Scope u_scope.

(** ** Keys *)

(** [str::split(';')]. *)
Fixpoint split_on (sep : N) (s : str) : list str :=
  match s with
  | [] => [[]]
  | c :: s =>
      let parts := split_on sep s in
      if c =? sep then [] :: parts
      else match parts with [] => [[c]] | p :: ps => (c :: p) :: ps end
  end.

Definition is_final (b : N) : bool := (64 <=? b) && (b <=? 126).

(** The position of the first final byte within the first [n]. *)
Fixpoint final_position (n : nat) (l : list N) : option nat :=
  match n, l with
  | S n, b :: l => if is_final b then Some O else S <$> final_position n l
  | _, _ => None
  end.

Definition key_params (ps : list str) : option (N * N) :=
  match ps with
  | [] => None
  | k :: ps =>
      key ← parse_uint U32 k;
      modifiers ← match ps with [] => Some 1 | m :: _ => parse_uint U32 m end;
      if (1 <? length ps)%nat || (modifiers =? 0) then None else Some (key, modifiers - 1)
  end.

(** The length, key and modifiers of the CSI-u key at the front. *)
Definition csi_key (input : list N) : option (nat * N * N) :=
  match input with
  | 27 :: 91 :: tail =>
      e ← final_position 24 tail;
      if default 0 (tail !! e) =? 117 then
        text ← from_utf8 (take e tail);
        '(key, modifiers) ← key_params (split_on 59 text);
        Some ((e + 3)%nat, key, modifiers)
      else None
  | _ => None
  end.

(** Keypad keys: the parameter and the final byte. *)
Definition keypad (key : N) : N * N :=
  if key =? 57417 then (49, 68) else if key =? 57418 then (49, 67) else if key =? 57419 then (49, 65)
  else if key =? 57420 then (49, 66) else if key =? 57421 then (53, 126) else if key =? 57422 then (54, 126)
  else if key =? 57423 then (49, 72) else if key =? 57424 then (49, 70) else if key =? 57425 then (50, 126)
  else (51, 126).

Definition keypad_bytes (key modifiers : N) : list N :=
  let '(parameter, final_byte) := keypad key in
  let held := N.land modifiers 7 in
  [27; 91]
  ++ (if negb (held =? 0) || (final_byte =? 126) then [parameter] else [])
  ++ (if negb (held =? 0) then [59; 49 + held] else [])
  ++ [final_byte].

(** The ASCII key that a functional key stands for. *)
Definition plain_key (key : N) : option N :=
  if (57399 <=? key) && (key <=? 57408) then Some (48 + key - 57399)
  else if key =? 57409 then Some 46 else if key =? 57410 then Some 47 else if key =? 57411 then Some 42
  else if key =? 57412 then Some 45 else if key =? 57413 then Some 43 else if key =? 57414 then Some 13
  else if key =? 57415 then Some 61 else if key =? 57416 then Some 44
  else if (57344 <=? key) && (key <=? 63743) then None
  else Some key.

Definition control_key (key : N) : N :=
  if (key =? 32) || (key =? 50) || (key =? 64) then 0
  else if (97 <=? key) && (key <=? 122) then key - 96
  else if (65 <=? key) && (key <=? 90) then key - 64
  else if (key =? 51) || (key =? 91) then 27
  else if (key =? 52) || (key =? 92) then 28
  else if (key =? 53) || (key =? 93) then 29
  else if (key =? 54) || (key =? 94) || (key =? 126) then 30
  else if (key =? 47) || (key =? 55) || (key =? 95) then 31
  else if (key =? 56) || (key =? 63) then 127
  else if key =? 127 then 8
  else key.

Definition UNSHIFTED : list N := lit "`1234567890-=[]\;',./".
Definition SHIFTED : list N := lit "~!@#$%^&*()_+{}|:" ++ [34] ++ lit "<>?".

Definition shift_key (key : N) : N :=
  if (97 <=? key) && (key <=? 122) then key - 32
  else match list_find (fun b => b = key) UNSHIFTED with
  | Some (i, _) => default key (SHIFTED !! i)
  | None => key
  end.

(** [char::from_u32] *)
Definition from_u32 (c : N) : option char :=
  if (c <? 55296) || (57344 <=? c) && (c <? 1114112) then Some c else None.

Definition held_bit (modifiers bit : N) : bool := negb (N.land modifiers bit =? 0).

Definition legacy_key (key modifiers : N) : option (list N) :=
  if negb (N.ldiff modifiers (7 + 64 + 128) =? 0) then None
  else if (57417 <=? key) && (key <=? 57426) then Some (keypad_bytes key modifiers)
  else
    key ← plain_key key;
    if (key =? 9) && (N.land modifiers 7 =? 1) then Some [27; 91; 90]
    else
      let key :=
        if held_bit modifiers 4 then control_key key
        else if held_bit modifiers 1 then shift_key key else key in
      character ← from_u32 key;
      Some ((if held_bit modifiers 2 then [27] else []) ++ utf8_char character).

(** ** Input *)

Record KeyboardInput : Set := { pasting : bool; marker_position : nat }.

Definition default_input : KeyboardInput := {| pasting := false; marker_position := 0 |}.

Definition paste_start : list N := [27; 91; 50; 48; 48; 126].
Definition paste_end : list N := [27; 91; 50; 48; 49; 126].

(** The position stays below the marker's length, so the indexing never fails. *)
Definition observe_byte (k : KeyboardInput) (byte : N) : KeyboardInput * bool :=
  let was_pasting := pasting k in
  let marker := if pasting k then paste_end else paste_start in
  let k :=
    if byte =? default 0 (marker !! marker_position k) then
      let position := S (marker_position k) in
      if (position =? length marker)%nat then {| pasting := negb (pasting k); marker_position := 0 |}
      else {| pasting := pasting k; marker_position := position |}
    else {| pasting := pasting k; marker_position := if byte =? 27 then 1 else 0 |} in
  (k, was_pasting || pasting k || negb (marker_position k =? 0)%nat).

Definition reset_marker (k : KeyboardInput) : KeyboardInput :=
  {| pasting := pasting k; marker_position := 0 |}.

(** A key the consumer gets as legacy bytes: its length and the bytes. *)
Definition decoded_key (rest : list N) (prefix_only : option N) : option (nat * list N) :=
  '(len, key, modifiers) ← csi_key rest;
  bytes ← legacy_key key modifiers;
  match prefix_only with
  | Some prefix => if bool_decide (bytes = [prefix]) then Some (len, bytes) else None
  | None => Some (len, bytes)
  end.

(** The [while] over the input; [output] is none while nothing has changed. *)
Fixpoint keys_loop (fuel : nat) (k : KeyboardInput) (input : list N) (prefix_only : option N) (index : nat)
    (output : option (list N)) : KeyboardInput * option (list N) :=
  match fuel, input !! index with
  | S fuel, Some byte =>
      let literal :=
        keys_loop fuel (observe_byte k byte).1 input prefix_only (S index) ((fun o => o ++ [byte]) <$> output) in
      if negb (byte =? 27) || pasting k then literal
      else match decoded_key (drop index input) prefix_only with
      | Some (len, bytes) =>
          keys_loop fuel (reset_marker k) input prefix_only (index + len)
            (Some (default (take index input) output ++ bytes))
      | None => literal
      end
  | _, _ => (k, output)
  end.

(** The input itself when nothing was decoded. *)
Definition legacy_keys (k : KeyboardInput) (input : list N) (prefix_only : option N) : KeyboardInput * list N :=
  let '(k, output) := keys_loop (length input) k input prefix_only 0 None in (k, default input output).

(** The repository's examples. *)
Example legacy_controls :
  let input := lit "hello" ++ [27] ++ lit "[97;5u" ++ [27] ++ lit "[13;2u" ++ [27] ++ lit "[99;5u" ++ [27] ++ lit "[27u" in
  (legacy_keys default_input input (Some 1)).2
    = lit "hello" ++ [1; 27] ++ lit "[13;2u" ++ [27] ++ lit "[99;5u" ++ [27] ++ lit "[27u"
  /\ (legacy_keys default_input input None).2 = lit "hello" ++ [1; 13; 3; 27].
Proof. vm_compute. by split. Qed.

Example legacy_keypad :
  (legacy_keys default_input ([27] ++ lit "[57419u" ++ [27] ++ lit "[57421;5u" ++ [27] ++ lit "[57425u") None).2
  = [27] ++ lit "[A" ++ [27] ++ lit "[5;5~" ++ [27] ++ lit "[2~".
Proof. by vm_compute. Qed.
