(* ===== verification/KeyboardSpec.v ===== *)
(** * What keyboard input means

    Pasted text passes unchanged however reads cut it, and everything else is
    decoded key by key. *)

From S2P Require Import Prelude Decimal Utf8 Keyboard.
#[local] Open Scope u_scope.

(** ** Reading as a relation *)

Definition next (k : KeyboardInput) (b : N) : KeyboardInput := (observe_byte k b).1.
#[local] Arguments next : simpl never.

Section Reads.
Context (prefix_only : option N).

(** From [k] the input gives the output and leaves the last state. *)
Inductive reads : KeyboardInput -> list N -> KeyboardInput -> list N -> Prop :=
| reads_end k : reads k [] k []
| reads_byte k b l k' out :
    b <> 27 \/ pasting k = true \/ decoded_key (b :: l) prefix_only = None ->
    reads (next k b) l k' out -> reads k (b :: l) k' (b :: out)
| reads_key k l len bytes k' out :
    pasting k = false -> decoded_key (27 :: l) prefix_only = Some (len, bytes) ->
    reads (reset_marker k) (drop len (27 :: l)) k' out -> reads k (27 :: l) k' (bytes ++ out).

Lemma reads_fun k l k1 o1 k2 o2 : reads k l k1 o1 -> reads k l k2 o2 -> k1 = k2 /\ o1 = o2.
Proof.
  intros H. revert k2 o2. induction H as [k|k b l k' out Hb _ IH|k l len bytes k' out Hp Hd _ IH]; intros k2 o2 H2.
  - by inversion H2.
  - inversion H2 as [|? ? ? ? ? Hb2 H2'|? ? ? ? ? ? Hp2 Hd2 H2']; subst.
    + by destruct (IH _ _ H2') as [-> ->].
    + destruct Hb as [Hb|[Hb|Hb]]; [done|congruence|congruence].
  - inversion H2 as [|? ? ? ? ? Hb2 H2'|? ? ? ? ? ? Hp2 Hd2 H2']; subst.
    + destruct Hb2 as [Hb|[Hb|Hb]]; [done|congruence|congruence].
    + rewrite Hd in Hd2. injection Hd2 as <- <-. by destruct (IH _ _ H2') as [-> ->].
Qed.

Lemma final_position_lt n l e : final_position n l = Some e -> (e < length l)%nat.
Proof.
  revert l e. induction n as [|n IH]; intros [|b l] e; simpl; try done. destruct (is_final b).
  - intros [= <-]. lia.
  - intros (e'&He&->)%fmap_Some. apply IH in He. lia.
Qed.

Lemma csi_key_length l len key m : csi_key l = Some (len, key, m) -> (3 <= len <= length l)%nat.
Proof.
  unfold csi_key. destruct l as [|a [|b tail]]; try (repeat case_match; done).
  intros H. assert (exists e, final_position 24 tail = Some e /\ len = (e + 3)%nat) as (e&He&->).
  { repeat case_match; try done. apply bind_Some in H as (e&He&H). exists e. split; [done|].
    case_match; [|done]. apply bind_Some in H as (t&_&H). apply bind_Some in H as ([? ?]&_&[=]). done. }
  apply final_position_lt in He. simpl. lia.
Qed.

Lemma decoded_length l len bytes : decoded_key l prefix_only = Some (len, bytes) -> (3 <= len <= length l)%nat.
Proof.
  unfold decoded_key. intros ([[len' key] m]&Hc&H)%bind_Some. apply csi_key_length in Hc.
  apply bind_Some in H as (bs&_&H). destruct prefix_only; [case_match; [|done]|]; by injection H as <- <-.
Qed.

Lemma loop_reads fuel input : forall k index output, (index <= length input)%nat -> (length input <= index + fuel)%nat ->
  exists out, reads k (drop index input) (keys_loop fuel k input prefix_only index output).1 out
    /\ default input (keys_loop fuel k input prefix_only index output).2 = default (take index input) output ++ out.
Proof.
  induction fuel as [|fuel IH]; intros k index output Hi Hf; simpl.
  { exists []. rewrite drop_ge by lia. split; [constructor|]. rewrite app_nil_r, take_ge by lia. done. }
  destruct (input !! index) as [b|] eqn:Hb.
  2: { apply lookup_ge_None in Hb. exists []. rewrite drop_ge by lia. split; [constructor|].
       rewrite app_nil_r, take_ge by lia. done. }
  pose proof (lookup_lt_Some _ _ _ Hb) as Hlt. rewrite (drop_S _ _ _ Hb).
  assert (Hlit : b <> 27 \/ pasting k = true \/ decoded_key (b :: drop (S index) input) prefix_only = None ->
    exists out, reads k (b :: drop (S index) input) (keys_loop fuel (observe_byte k b).1 input prefix_only (S index)
          ((fun o => o ++ [b]) <$> output)).1 out
      /\ default input (keys_loop fuel (observe_byte k b).1 input prefix_only (S index)
          ((fun o => o ++ [b]) <$> output)).2 = default (take index input) output ++ out).
  { intros Hl. destruct (IH (observe_byte k b).1 (S index) ((fun o => o ++ [b]) <$> output)) as (out&Hr&Ho); [lia|lia|].
    exists (b :: out). split; [by constructor|]. rewrite Ho.
    destruct output; simpl; [by rewrite <- app_assoc|]. by rewrite (take_S_r _ _ _ Hb), <- app_assoc. }
  destruct (negb (b =? 27) || pasting k) eqn:E.
  { apply Hlit. apply orb_true_iff in E as [E|E]; [|by auto]. apply negb_true_iff, N.eqb_neq in E. by auto. }
  apply orb_false_iff in E as [E1 E2]. apply negb_false_iff, N.eqb_eq in E1. subst b.
  destruct (decoded_key (27 :: drop (S index) input) prefix_only) as [[len bytes]|] eqn:Hd; [|by apply Hlit; auto].
  pose proof (decoded_length _ _ _ Hd) as Hlen. rewrite <- (drop_S _ _ _ Hb), length_drop in Hlen.
  destruct (IH (reset_marker k) (index + len)%nat (Some (default (take index input) output ++ bytes))) as (out&Hr&Ho); [lia|lia|].
  exists (bytes ++ out). split.
  - econstructor; [done|done|]. by rewrite <- (drop_S _ _ _ Hb), drop_drop.
  - rewrite Ho. simpl. by rewrite <- app_assoc.
Qed.

(** The function computes the relation: it is total, so its fuel is enough. *)
Lemma legacy_keys_reads k input k' out :
  reads k input k' out <-> legacy_keys k input prefix_only = (k', out).
Proof.
  destruct (loop_reads (length input) input k 0 None) as (out'&Hr&Ho); [lia|lia|].
  unfold legacy_keys. destruct (keys_loop _ _ _ _ _ _) as [k1 o1]. simpl in *. rewrite Ho. split.
  - intros H. by destruct (reads_fun _ _ _ _ _ _ H Hr) as [-> ->].
  - by intros [= -> ->].
Qed.

(** ** Bytes that pass unchanged *)

Definition observes (k : KeyboardInput) (l : list N) : KeyboardInput :=
  foldl (fun k b => next k b) k l.

Lemma reads_literal k l rest k' out :
  (forall l1 l2, l = l1 ++ 27 :: l2 -> pasting (observes k l1) = true \/ decoded_key (27 :: l2 ++ rest) prefix_only = None) ->
  reads (observes k l) rest k' out -> reads k (l ++ rest) k' (l ++ out).
Proof.
  revert k. induction l as [|b l IH]; intros k Hl Hr; simpl; [done|]. constructor.
  - destruct (decide (b = 27)) as [->|]; [|by auto]. right. by apply (Hl []).
  - apply IH; [|done]. intros l1 l2 ->. by apply (Hl (b :: l1)).
Qed.
End Reads.
#[export] Hint Constructors reads : uniterm.

Lemma observes_app k l l' : observes k (l ++ l') = observes (observes k l) l'.
Proof. apply foldl_app. Qed.

(** ** Paste markers *)

(** The marker awaited and how much of it has been seen. *)
Definition awaited (k : KeyboardInput) : list N := if pasting k then paste_end else paste_start.
Definition in_range (k : KeyboardInput) : Prop := (marker_position k < 6)%nat.

Lemma awaited_shape k : exists c d, awaited k = [27; 91; 50; 48; c; d] /\ c <> 27 /\ d = 126.
Proof. unfold awaited. destruct (pasting k); by eexists _, _. Qed.

Lemma observe_cases k b : in_range k ->
  next k b =
    if decide (awaited k !! marker_position k = Some b) then
      if decide (marker_position k = 5%nat) then {| pasting := negb (pasting k); marker_position := 0 |}
      else {| pasting := pasting k; marker_position := S (marker_position k) |}
    else {| pasting := pasting k; marker_position := if b =? 27 then 1 else 0 |}.
Proof.
  unfold in_range, next, observe_byte, awaited. intros Hk.
  destruct k as [[] [|[|[|[|[|[|n]]]]]]]; simpl in *; try lia; simpl;
    match goal with |- context [b =? ?x] => destruct (N.eqb_spec b x) as [->|Hn] end;
    try (by rewrite decide_True); rewrite decide_False by (intros [= E]; congruence); by destruct (N.eqb_spec b 27).
Qed.

Lemma observe_range k b : in_range k -> in_range (next k b).
Proof.
  intros Hk. rewrite observe_cases by done. unfold in_range in *.
  repeat case_decide; simpl; [lia|lia|]. destruct (b =? 27); lia.
Qed.

Lemma observes_range l : forall k, in_range k -> in_range (observes k l).
Proof. induction l as [|b l IH]; intros k Hk; simpl; [done|]. by apply IH, observe_range. Qed.

(** Only a tilde can complete a marker. *)
Lemma observes_pasting l : forall k, in_range k -> 126 ∉ l -> pasting (observes k l) = pasting k.
Proof.
  induction l as [|b l IH]; intros k Hk Hl; simpl; [done|]. apply not_elem_of_cons in Hl as [Hb Hl].
  rewrite IH by (done || by apply observe_range). rewrite observe_cases by done.
  case_decide as E1; [case_decide as E2|]; [|done|done].
  destruct (awaited_shape k) as (c&d&Ha&_&->). rewrite Ha, E2 in E1. by injection E1 as <-.
Qed.

(** A byte outside the marker resets the position. *)
Lemma observe_reset k b : in_range k -> b <> 27 -> b <> 126 -> b ∉ awaited k ->
  next k b = {| pasting := pasting k; marker_position := 0 |}.
Proof.
  intros Hk H1 H2 H3. rewrite observe_cases by done. rewrite decide_False.
  - by rewrite (proj2 (N.eqb_neq b 27)).
  - intros E. by apply list_elem_of_lookup_2 in E.
Qed.

(** Without escapes nothing is awaited. *)
Lemma observes_plain l : 27 ∉ l -> observes default_input l = default_input.
Proof.
  induction l as [|b l IH]; intros Hl; simpl; [done|]. apply not_elem_of_cons in Hl as [Hb Hl].
  rewrite observe_cases by (unfold in_range; simpl; lia). simpl.
  rewrite decide_False by (intros [= <-]; done). rewrite (proj2 (N.eqb_neq b 27)) by done. by apply IH.
Qed.

(** ** A paste *)

(** [e] ends [s] and occurs nowhere else in it. *)
Definition ends_first (e s : list N) : Prop :=
  (exists x, s = x ++ e) /\ forall y z, s = y ++ e ++ z -> z = [].

Lemma ends_first_drop e pre s : ends_first e (pre ++ s) ->
  (forall x, pre ++ s = x ++ e -> (length pre <= length x)%nat) -> ends_first e s.
Proof.
  intros [[x Hx] Hu] Hl. specialize (Hl _ Hx). split.
  - apply app_eq_inv in Hx as [(k&->&Hk)|(k&->&Hk)].
    + rewrite length_app in Hl. destruct k; simpl in Hl; [|lia]. by exists [].
    + by exists k.
  - intros y z ->. apply (Hu (pre ++ y)). by rewrite <- app_assoc.
Qed.

Lemma ends_first_check e x :
  forallb (fun i => negb (bool_decide (prefix e (drop i (x ++ e))))) (seq 0 (length x)) = true -> ends_first e (x ++ e).
Proof.
  intros Hf. split; [by exists x|]. intros y z E. rewrite forallb_forall in Hf.
  destruct (Nat.le_gt_cases (length x) (length y)) as [Hl|Hl].
  - apply (f_equal length) in E. rewrite !length_app in E. destruct z; [done|]. simpl in E. lia.
  - specialize (Hf (length y)). rewrite in_seq, E, drop_app_length, bool_decide_eq_true_2 in Hf by (by exists z).
    specialize (Hf ltac:(lia)). done.
Qed.

(** The end does not start in a match that has just failed. *)
Lemma mismatch_before p b l x : (p < 6)%nat -> paste_end !! p <> Some b -> take p paste_end ++ b :: l = x ++ paste_end ->
  (p <= length x)%nat /\ (b <> 27 -> (S p <= length x)%nat).
Proof.
  intros Hp Hb Hx.
  assert (Hl : length (take p paste_end) = p) by (rewrite length_take; simpl; lia).
  assert (Hat : forall j, (take p paste_end ++ b :: l) !! j = (x ++ paste_end) !! j) by (intros; by rewrite Hx).
  assert (Hp' : (x ++ paste_end) !! p = Some b) by (by rewrite <- Hat, list_lookup_middle).
  assert (H0 : (x ++ paste_end) !! length x = Some 27) by (unfold paste_end; by rewrite list_lookup_middle).
  assert (Hge : (p <= length x)%nat).
  { destruct (Nat.le_gt_cases p (length x)) as [|Hlt]; [done|]. rewrite <- Hat, lookup_app_l, lookup_take_lt in H0 by lia.
    destruct x as [|c x]; simpl in *; [by rewrite Hp' in Hb|].
    destruct (length x) as [|[|[|[|[|n]]]]]; simpl in H0; simplify_eq. }
  split; [done|]. intros H27. destruct (decide (length x = p)) as [E|]; [|lia]. rewrite E in H0. congruence.
Qed.

(** While the end has not come the paste goes on; then the state is fresh. *)
Lemma end_scan l : forall p, (p < 6)%nat -> ends_first paste_end (take p paste_end ++ l) ->
  (forall l1 b l2, l = l1 ++ b :: l2 -> pasting (observes {| pasting := true; marker_position := p |} l1) = true)
  /\ observes {| pasting := true; marker_position := p |} l = default_input.
Proof.
  induction l as [|b l IH]; intros p Hp Hs.
  { exfalso. destruct Hs as [[x Hx] _]. apply (f_equal length) in Hx.
    rewrite app_nil_r, length_take, length_app in Hx. simpl in Hx. lia. }
  set (k := {| pasting := true; marker_position := p |}).
  assert (Hstep : forall p', (p' < 6)%nat -> next k b = {| pasting := true; marker_position := p' |} ->
    ends_first paste_end (take p' paste_end ++ l) ->
    (forall l1 c l2, b :: l = l1 ++ c :: l2 -> pasting (observes k l1) = true) /\ observes k (b :: l) = default_input).
  { intros p' Hp' He Hs'. destruct (IH p' Hp' Hs') as [H1 H2]. simpl. rewrite He. split; [|done].
    intros [|c1 l1] c l2 E; simplify_eq/=; [done|]. rewrite He. by eapply H1. }
  pose proof (observe_cases k b ltac:(unfold in_range; simpl; lia)) as Ho. unfold awaited in Ho. simpl in Ho.
  case_decide as Eb; [case_decide as Ep|].
  - subst p. assert (l = []) as ->.
    { destruct Hs as [_ Hu]. apply (Hu []). by injection Eb as <-. }
    split; [|by simpl; rewrite Ho]. intros [|c1 l1] c l2 E; simplify_eq/=; [done|]. by destruct l1.
  - apply (Hstep (S p)); [lia|done|]. by rewrite (take_S_r _ _ _ Eb), <- app_assoc.
  - apply (Hstep (if b =? 27 then 1%nat else 0%nat)); [by case_match; lia|done|].
    destruct (N.eqb_spec b 27) as [->|H27].
    + apply (ends_first_drop _ (take p paste_end)); [done|]. intros x Hx. rewrite length_take.
      pose proof (mismatch_before _ _ _ _ Hp Eb Hx) as [H _]. simpl. lia.
    + apply (ends_first_drop _ (take p paste_end ++ [b])); [by rewrite <- app_assoc|].
      intros x Hx. rewrite <- app_assoc in Hx. rewrite length_app, length_take.
      pose proof (mismatch_before _ _ _ _ Hp Eb Hx) as [_ H]. specialize (H H27). simpl. lia.
Qed.

(** The body of a paste does not hold the end marker. *)
Definition paste_body (body : list N) : Prop := ends_first paste_end (body ++ paste_end).

Definition paste (body : list N) : list N := paste_start ++ body ++ paste_end.

Lemma paste_scan body : paste_body body ->
  (forall l1 l2, paste body = l1 ++ 27 :: l2 -> l1 = [] \/ pasting (observes default_input l1) = true)
  /\ observes default_input (paste body) = default_input.
Proof.
  intros Hb. destruct (end_scan (body ++ paste_end) 0 ltac:(lia) Hb) as [H1 H2].
  assert (Hstart : observes default_input paste_start = {| pasting := true; marker_position := 0 |}) by done.
  split; [|unfold paste; by rewrite observes_app, Hstart]. intros l1 l2 E.
  destruct (Nat.le_gt_cases 6 (length l1)) as [Hl|Hl].
  - right. unfold paste in E. apply app_eq_inv in E as [(k&E1&E2)|(k&->&E2)].
    + assert (k = []) as ->.
      { apply (f_equal length) in E1. rewrite length_app in E1. destruct k; [done|]. simpl in *. lia. }
      rewrite app_nil_r in E1. by rewrite <- E1.
    + rewrite observes_app, Hstart. by eapply H1.
  - left. unfold paste, paste_start in E.
    destruct l1 as [|? [|? [|? [|? [|? [|? l1]]]]]]; simpl in *; [done|simplify_eq..|lia].
Qed.

(** The start marker is not a key, however much of it has come. *)
Lemma start_not_key t x p : prefix t (91 :: 50 :: 48 :: 48 :: 126 :: x) -> decoded_key (27 :: t) p = None.
Proof.
  intros [y Hy]. destruct t as [|? [|? [|? [|? [|? t]]]]]; simplify_eq/=; done.
Qed.

(** One read after another. *)
Fixpoint feed (k : KeyboardInput) (chunks : list (list N)) (prefix_only : option N) : KeyboardInput * list (list N) :=
  match chunks with
  | [] => (k, [])
  | c :: chunks =>
      let '(k, o) := legacy_keys k c prefix_only in
      let '(k, os) := feed k chunks prefix_only in (k, o :: os)
  end.

Lemma feed_paste body p : paste_body body -> forall chunks before, paste body = before ++ concat chunks ->
  feed (observes default_input before) chunks p = (observes default_input (before ++ concat chunks), chunks).
Proof.
  intros Hb. destruct (paste_scan body Hb) as [Hs _]. induction chunks as [|c chunks IH]; intros before E; simpl.
  { by rewrite app_nil_r. }
  assert (Hc : legacy_keys (observes default_input before) c p = (observes (observes default_input before) c, c)).
  { apply legacy_keys_reads. 
    pose proof (reads_literal p (observes default_input before) c [] (observes (observes default_input before) c) []) as H.
    rewrite !app_nil_r in H. apply H; [|constructor]. intros l1 l2 ->. rewrite app_nil_r, <- observes_app.
    destruct (Hs (before ++ l1) (l2 ++ concat chunks)) as [Hn|Ht]; [|right|by left].
    { rewrite E. simpl. by rewrite <- !app_assoc. }
    apply app_nil in Hn as [-> ->]. simpl in E. unfold paste, paste_start in E. simpl in E. injection E as E.
    eapply start_not_key. exists (concat chunks). rewrite <- E. done. }
  rewrite Hc, <- observes_app, IH by (by rewrite <- app_assoc). by rewrite <- app_assoc.
Qed.

(** C18: a paste passes unchanged, however reads cut it. A bracketed paste that
    arrives in any sequence of reads gives each read as it is, whatever escape
    codes and keys its text holds and whether all keys are decoded or only the
    prefix; after it the reader is as fresh. *)
Theorem paste_literal body chunks prefix_only : paste_body body -> concat chunks = paste body ->
  feed default_input chunks prefix_only = (default_input, chunks).
Proof.
  intros Hb Hc. pose proof (feed_paste body prefix_only Hb chunks [] ltac:(by rewrite Hc)) as H.
  simpl in H. by rewrite Hc, (proj2 (paste_scan body Hb)) in H.
Qed.

Lemma paste_literal_witness :
  let body := [27] ++ lit "[97;5u" ++ [27] in
  feed default_input [[27]; lit "[200~" ++ [27] ++ lit "[97;5"; lit "u" ++ [27; 27] ++ lit "[20"; lit "1~"] None
  = (default_input, [[27]; lit "[200~" ++ [27] ++ lit "[97;5"; lit "u" ++ [27; 27] ++ lit "[20"; lit "1~"]).
Proof.
  intros body. apply (paste_literal body); [|done]. by apply ends_first_check.
Defined.

(** ** Keys *)

(** A key as the host reports it. *)
Definition key_bytes (key modifiers : N) : list N := [27; 91] ++ dec key ++ [59] ++ dec (modifiers + 1) ++ [117].

Lemma final_position_skip n l r : Forall (fun b => is_final b = false) l -> (length l <= n)%nat ->
  final_position n (l ++ r) = Nat.add (length l) <$> final_position (n - length l) r.
Proof.
  revert n. induction l as [|b l IH]; intros n Hl Hn; simpl.
  - rewrite Nat.sub_0_r. by destruct (final_position n r).
  - inversion Hl as [|? ? Hb Hl']; subst. destruct n as [|n]; simpl in *; [lia|]. rewrite Hb, IH by (done || lia).
    by destruct (final_position (n - length l) r).
Qed.

Lemma split_on_none sep l : sep ∉ l -> split_on sep l = [l].
Proof.
  induction l as [|c l IH]; intros Hl; simpl; [done|]. apply not_elem_of_cons in Hl as [Hc Hl].
  rewrite IH by done. by rewrite (proj2 (N.eqb_neq c sep)) by done.
Qed.

Lemma split_on_two sep l r : sep ∉ l -> sep ∉ r -> split_on sep (l ++ sep :: r) = [l; r].
Proof.
  intros Hl Hr. induction l as [|c l IH]; simpl.
  - by rewrite N.eqb_refl, split_on_none.
  - apply not_elem_of_cons in Hl as [Hc Hl]. rewrite IH by done. by rewrite (proj2 (N.eqb_neq c sep)) by done.
Qed.

Lemma digit_small l : Forall digit l -> Forall (fun c => c < 128 /\ c <> 27 /\ c <> 59 /\ is_final c = false) l.
Proof.
  intros Hl. eapply Forall_impl; [exact Hl|]. intros c [H1 H2]. unfold is_final. split_and!; try lia. apply andb_false_iff. left. apply N.leb_gt. lia.
Qed.

Lemma dec_u32 n : n < U32 -> (length (dec n) <= 10)%nat.
Proof. intros Hn. apply dec_length; [lia|]. unfold U32 in Hn. simpl. lia. Qed.

Lemma csi_key_bytes key modifiers rest : key < U32 -> modifiers + 1 < U32 ->
  csi_key (key_bytes key modifiers ++ rest) = Some (length (key_bytes key modifiers), key, modifiers).
Proof.
  intros Hk Hm. set (text := dec key ++ 59 :: dec (modifiers + 1)).
  pose proof (digit_small _ (proj1 (dec_digits key))) as Hd1.
  pose proof (digit_small _ (proj1 (dec_digits (modifiers + 1)))) as Hd2.
  assert (Hlen : (length text <= 21)%nat).
  { unfold text. rewrite length_app. simpl. pose proof (dec_u32 _ Hk). pose proof (dec_u32 _ Hm). lia. }
  assert (Htext : Forall (fun c => c < 128 /\ c <> 27 /\ is_final c = false) text).
  { unfold text. apply Forall_app. split; [|constructor; [by split_and!|]]; (eapply Forall_impl; [done|]); naive_solver. }
  assert (key_bytes key modifiers ++ rest = 27 :: 91 :: text ++ 117 :: rest) as ->.
  { unfold key_bytes, text. cbn [app]. repeat (rewrite <- app_assoc; cbn [app]). done. }
  unfold csi_key.
  rewrite final_position_skip; [|eapply Forall_impl; [exact Htext|]; naive_solver|lia].
  destruct (24 - length text)%nat as [|n] eqn:En; [lia|]. cbn [final_position]. change (is_final 117) with true. simpl.
  rewrite Nat.add_0_r, list_lookup_middle by done. simpl. rewrite take_app_length.
  assert (from_utf8 text = Some text) as ->.
  { rewrite <- (utf8_ascii text) at 1 by (eapply Forall_impl; [exact Htext|]; naive_solver).
    apply from_utf8_utf8. eapply Forall_impl; [exact Htext|]. intros c (Hc&_). left. lia. }
  simpl. assert (split_on 59 text = [dec key; dec (modifiers + 1)]) as ->.
  { apply split_on_two; intros Hin; [rewrite Forall_forall in Hd1|rewrite Forall_forall in Hd2]; naive_solver. }
  simpl. rewrite !parse_dec by done. simpl. replace (modifiers + 1 =? 0) with false by bool_lia.
  rewrite N.add_sub. unfold text, key_bytes. rewrite !length_app. simpl. rewrite !length_app. simpl. do 2 f_equal. f_equal. lia.
Qed.

(** ** A stream of input *)

Inductive token : Set :=
| Plain (bytes : list N)
| Key (key modifiers : N)
| Paste (body : list N).

Definition token_ok (t : token) : Prop :=
  match t with
  | Plain l => 27 ∉ l
  | Key key modifiers => key < U32 /\ modifiers + 1 < U32
  | Paste body => paste_body body
  end.

Definition token_bytes (t : token) : list N :=
  match t with Plain l => l | Key key modifiers => key_bytes key modifiers | Paste body => paste body end.

(** What the consumer gets. *)
Definition meaning (prefix_only : option N) (t : token) : list N :=
  match t with
  | Key key modifiers =>
      match legacy_key key modifiers with
      | Some bytes =>
          match prefix_only with
          | Some prefix => if bool_decide (bytes = [prefix]) then bytes else token_bytes t
          | None => bytes
          end
      | None => token_bytes t
      end
  | _ => token_bytes t
  end.

Lemma observes_key key modifiers : observes default_input (key_bytes key modifiers) = default_input.
Proof.
  assert (Hd : forall n, 126 ∉ dec n).
  { intros n Hin. pose proof (digit_small _ (proj1 (dec_digits n))) as H. rewrite Forall_forall in H.
    destruct (H _ Hin) as (_&_&_&[=]). }
  set (front := [27; 91] ++ dec key ++ [59] ++ dec (modifiers + 1)).
  assert (key_bytes key modifiers = front ++ [117]) as ->.
  { unfold key_bytes, front. by rewrite <- !app_assoc. }
  assert (Hr : in_range (observes default_input front)) by (apply observes_range; unfold in_range; simpl; lia).
  assert (Hp : pasting (observes default_input front) = false).
  { rewrite observes_pasting; [done|unfold in_range; simpl; lia|]. unfold front. rewrite !not_elem_of_app, !not_elem_of_cons.
    by repeat split; try done; apply not_elem_of_nil. }
  rewrite observes_app. change (next (observes default_input front) 117 = default_input). rewrite observe_reset; [by rewrite Hp|done..|].
  unfold awaited. rewrite Hp. by apply (bool_decide_unpack (117 ∉ paste_start)).
Qed.

Lemma decoded_key_bytes key modifiers rest p : key < U32 -> modifiers + 1 < U32 ->
  match decoded_key (key_bytes key modifiers ++ rest) p with
  | Some (len, bytes) => len = length (key_bytes key modifiers) /\ meaning p (Key key modifiers) = bytes
  | None => meaning p (Key key modifiers) = key_bytes key modifiers
  end.
Proof.
  intros Hk Hm. unfold decoded_key. rewrite csi_key_bytes by done. simpl.
  destruct (legacy_key key modifiers) as [bytes|]; simpl; [|done].
  destruct p as [prefix|]; [|done]. by case_bool_decide.
Qed.

Lemma reads_token t rest k' out p : token_ok t -> reads p default_input rest k' out ->
  reads p default_input (token_bytes t ++ rest) k' (meaning p t ++ out).
Proof.
  destruct t as [l|key modifiers|body]; intros Ht Hr.
  - simpl in *. apply reads_literal; [|by rewrite observes_plain]. intros l1 l2 ->. exfalso. apply Ht.
    apply elem_of_app. right. by apply elem_of_cons; left.
  - destruct Ht as [Hk Hm]. pose proof (decoded_key_bytes key modifiers rest p Hk Hm) as Hd.
    change (token_bytes (Key key modifiers)) with (key_bytes key modifiers) in *.
    destruct (decoded_key _ p) as [[len bytes]|] eqn:E.
    + destruct Hd as [-> <-]. change (key_bytes key modifiers ++ rest)
        with (27 :: drop 1 (key_bytes key modifiers ++ rest)) in *. econstructor; [done|done|].
      replace (drop _ _) with rest by (symmetry; apply (drop_app_length (key_bytes key modifiers))). done.
    + rewrite Hd.
      apply reads_literal; [|by rewrite observes_key]. intros l1 l2 El. right.
      destruct l1 as [|c l1]; [by rewrite El in E|]. exfalso. 
      assert (Hin : 27 ∈ tail (key_bytes key modifiers)).
      { rewrite El. simpl. apply elem_of_app. right. by apply elem_of_cons; left. }
      revert Hin. unfold key_bytes. simpl. rewrite elem_of_cons, elem_of_app, elem_of_cons, elem_of_app, elem_of_cons.
      pose proof (digit_small _ (proj1 (dec_digits key))) as H1.
      pose proof (digit_small _ (proj1 (dec_digits (modifiers + 1)))) as H2. rewrite Forall_forall in H1, H2.
      intros [[=]|[Hin|[[=]|[Hin|[[=]|Hin]]]]]; [naive_solver|naive_solver|by inversion Hin].
  - destruct (paste_scan body Ht) as [Hs Ho].
    change (reads p default_input (paste body ++ rest) k' (paste body ++ out)). apply reads_literal; [|by rewrite Ho].
    intros l1 l2 E. destruct (Hs l1 l2 E) as [->|Hp]; [right|by left]. simpl in E. unfold paste, paste_start in E.
    simpl in E. injection E as <-.
    apply (start_not_key _ ((body ++ paste_end) ++ rest)). exists []. by rewrite app_nil_r.
Qed.

(** C25: input means what its keys mean. In a read of typed text, keys that the
    host reports as CSI u and whole pastes, in any order, the text and the
    pastes pass unchanged and each key becomes its legacy bytes, or, when only
    the prefix is decoded, does so if these are the prefix byte and stays as
    it is otherwise; keys without legacy bytes stay as they are. *)
Theorem keyboard_stream ts prefix_only : Forall token_ok ts ->
  legacy_keys default_input (concat (map token_bytes ts)) prefix_only
  = (default_input, concat (map (meaning prefix_only) ts)).
Proof.
  intros Hts. apply legacy_keys_reads. induction Hts as [|t ts Ht _ IH]; simpl; [constructor|].
  by apply reads_token.
Qed.

Lemma keyboard_stream_witness :
  legacy_keys default_input (lit "ls" ++ key_bytes 97 4 ++ paste (key_bytes 97 4) ++ key_bytes 13 0) None
  = (default_input, lit "ls" ++ [1] ++ paste (key_bytes 97 4) ++ [13]).
Proof.
  pose proof (keyboard_stream [Plain (lit "ls"); Key 97 4; Paste (key_bytes 97 4); Key 13 0] None) as H.
  apply H.
  apply Forall_cons_2; [by apply (bool_decide_unpack (27 ∉ lit "ls"))|].
  apply Forall_cons_2; [split; reflexivity|]. apply Forall_cons_2; [by apply ends_first_check|].
  apply Forall_cons_2; [split; reflexivity|]. constructor.
Defined.
