(* ===== verification/Outbox.v ===== *)
(** * The runtime outbox

    [uniterm-server/src/runtime/outbox.rs] and the calls of [runtime.rs] that
    use it: the core loop's backlog of messages to the agent runtime, over a
    bounded channel that may be full or gone.  Observations that a newer one
    replaces are dropped; records and lifecycle operations never are. *)

From S2P Require Import Prelude.
#[local] Open Scope u_scope.

(** ** Messages *)

(** What the outbox does not look into: a checkpoint, whose retained memory
    depends on the allocator, and the other messages, which [bincode] sizes. *)
Class Payloads : Type := {
  Snapshot : Set;
  Request : Set;
  retained_bytes : Snapshot -> N;
  serialized_size : Request -> option N }.

Section Outbox.
Context `{Payloads}.

Inductive CoreToAgent : Set :=
| SnapshotSave (name : str) (snapshot : Snapshot)
| EventAppend (name line : str)
| WorkspaceCatalogAppend (name line : str)
| PaneEvidence (pane : N) (foreground_pid : option Z) (process_changed : bool) (tail title : str)
    (bound_agent : option str)
| DevServerEvidence (pane : N) (tail : str)
| Lifecycle (request : Request).

Definition same_projection (old new : CoreToAgent) : bool :=
  match old, new with
  | SnapshotSave a _, SnapshotSave b _ => bool_decide (a = b)
  | WorkspaceCatalogAppend a _, WorkspaceCatalogAppend b _ => bool_decide (a = b)
  | PaneEvidence a _ _ _ _ _, PaneEvidence b _ _ _ _ _ => a =? b
  | DevServerEvidence a _, DevServerEvidence b _ => a =? b
  | _, _ => false
  end.

Definition barrier (m : CoreToAgent) : bool :=
  match m with Lifecycle _ => true | _ => false end.

(** ** The outbox *)

Definition MAX_MESSAGES : nat := 512.
Definition MAX_BYTES : N := 128 * 1024 * 1024.

Inductive failure_text : Set := Exceeded | Gone.

Record Outbox : Set := {
  pending : list (CoreToAgent * N); o_bytes : N; failure : option failure_text }.

Definition default_outbox : Outbox := {| pending := []; o_bytes := 0; failure := None |}.

(** [Iterator::rposition] *)
Fixpoint rposition {A} (f : A -> bool) (l : list A) : option nat :=
  match l with
  | [] => None
  | x :: l => match rposition f l with Some i => Some (S i) | None => if f x then Some O else None end
  end.

(** [*process_changed |= previous] *)
Definition merge_evidence (old new : CoreToAgent) : CoreToAgent :=
  match old, new with
  | PaneEvidence _ _ previous _ _ _, PaneEvidence p pid changed tail title agent =>
      PaneEvidence p pid (changed || previous) tail title agent
  | _, _ => new
  end.

(** Take the entry out that the message replaces, unless a barrier follows it. *)
Definition supersede (o : Outbox) (m : CoreToAgent) : Outbox * CoreToAgent :=
  match rposition (fun e => same_projection e.1 m) (pending o) with
  | Some i =>
      if forallb (fun e => negb (barrier e.1)) (drop (S i) (pending o)) then
        match pending o !! i with
        | Some (old, size) =>
            ({| pending := delete i (pending o); o_bytes := wsub U64 (o_bytes o) size; failure := failure o |},
              merge_evidence old m)
        | None => (o, m)
        end
      else (o, m)
  | None => (o, m)
  end.

Definition encoded_size (m : CoreToAgent) : option N :=
  match m with
  | SnapshotSave name snapshot => Some (sadd u64_max (retained_bytes snapshot) (len8 name + 32))
  | EventAppend name line | WorkspaceCatalogAppend name line => Some (len8 name + len8 line + 32)
  | PaneEvidence _ _ _ tail title agent => Some (len8 tail + len8 title + from_option len8 0 agent + 64)
  | DevServerEvidence _ tail => Some (len8 tail + 32)
  | Lifecycle r => serialized_size r
  end.

Definition message_size (m : CoreToAgent) : N := default u64_max (encoded_size m).

Definition enqueue (o : Outbox) (m : CoreToAgent) : Outbox :=
  let size := message_size m in
  if (MAX_MESSAGES <=? length (pending o))%nat || (ssub MAX_BYTES (o_bytes o) <? size)
  then {| pending := pending o; o_bytes := o_bytes o; failure := Some Exceeded |}
  else {| pending := pending o ++ [(m, size)]; o_bytes := wadd U64 (o_bytes o) size; failure := failure o |}.

Definition push (o : Outbox) (m : CoreToAgent) : Outbox :=
  match failure o with
  | Some _ => o
  | None => let '(o, m) := supersede o m in enqueue o m
  end.

Definition backpressured (o : Outbox) : bool :=
  (MAX_MESSAGES / 2 <=? length (pending o))%nat || (MAX_BYTES / 2 <=? o_bytes o).

Definition is_empty (o : Outbox) : bool := match pending o with [] => true | _ => false end.

Definition check_health (o : Outbox) : result unit failure_text :=
  match failure o with Some e => Err e | None => Ok () end.

(** ** The channel *)

Inductive sent : Set := Sent | Full | Disconnected.

(** The sender of a bounded channel: [try_send] hands a refused message back. *)
Class Channel : Type := {
  chan : Type;
  try_send : chan -> CoreToAgent -> chan * sent }.

(** What the channel promises: [taken] is all it has accepted, [room] how many
    more messages it takes before it is full. *)
Class ChannelLaws `{Channel} : Type := {
  taken : chan -> list CoreToAgent;
  alive : chan -> bool;
  room : chan -> nat;
  cl_send c m : match try_send c m with
    | (c', Sent) => alive c = true /\ alive c' = true /\ room c = S (room c') /\ taken c' = taken c ++ [m]
    | (c', Full) => c' = c /\ alive c = true /\ room c = O
    | (c', Disconnected) => c' = c /\ alive c = false
    end }.

Section Sending.
Context `{Channel}.

(** [flush]: the [while let] over the queue's front. *)
Fixpoint flush_loop (l : list (CoreToAgent * N)) (bytes : N) (f : option failure_text) (c : chan) : Outbox * chan :=
  match l with
  | [] => ({| pending := []; o_bytes := bytes; failure := f |}, c)
  | (m, size) :: rest =>
      match try_send c m with
      | (c, Sent) => flush_loop rest (wsub U64 bytes size) f c
      | (c, Full) => ({| pending := (m, size) :: rest; o_bytes := bytes; failure := f |}, c)
      | (c, Disconnected) => ({| pending := rest; o_bytes := wsub U64 bytes size; failure := Some Gone |}, c)
      end
  end.

Definition flush (o : Outbox) (c : chan) : Outbox * chan := flush_loop (pending o) (o_bytes o) (failure o) c.

(** [AgentRuntime::send] *)
Definition send (o : Outbox) (c : chan) (m : CoreToAgent) : Outbox * chan := flush (push o m) c.
End Sending.
End Outbox.
