(* ===== verification/OutboxSpec.v ===== *)
(** * What the runtime receives

    The outbox of Outbox.v loses no record, reorders nothing, and replaces an
    observation by a newer one only; with room in the channel it drains. *)

From S2P Require Import Prelude Outbox.
#[local] Open Scope u_scope.

Section Spec.
Context {P : Payloads} {CH : Channel} {CL : ChannelLaws}.
Implicit Types (m n old : CoreToAgent) (l : list CoreToAgent) (o : Outbox) (c : chan).

(** ** Messages *)

Lemma same_sym m n : same_projection m n = same_projection n m.
Proof. destruct m, n; simpl; try done; try (by apply N.eqb_sym); by apply bool_decide_ext. Qed.

Lemma same_trans m n k : same_projection m n = true -> same_projection n k = true -> same_projection m k = true.
Proof.
  destruct m, n; simpl; try done; destruct k; simpl; try done;
    rewrite ?bool_decide_eq_true, ?N.eqb_eq; by intros -> ->.
Qed.

(** A message that a later one may replace. *)
Definition replaceable m : bool := same_projection m m.

Lemma same_replaceable m n : same_projection m n = true -> replaceable m = true /\ replaceable n = true.
Proof. intros E. pose proof E as E'. rewrite same_sym in E'. split; by eapply same_trans. Qed.

Lemma barrier_kept m : barrier m = true -> replaceable m = false.
Proof. by destruct m. Qed.

(** The records and lifecycle operations, which keep their order. *)
Definition ordered l : list CoreToAgent := filter (fun m => replaceable m = false) l.
Definition barriers l : list CoreToAgent := filter (fun m => barrier m = true) l.

Lemma ordered_app l l' : ordered (l ++ l') = ordered l ++ ordered l'.
Proof. apply filter_app. Qed.

Lemma ordered_replaceable m l : replaceable m = true -> ordered (m :: l) = ordered l.
Proof. intros E. unfold ordered. rewrite filter_cons_False; [done|]. by rewrite E. Qed.

Lemma no_barriers l : Forall (fun m => barrier m = false) l <-> barriers l = [].
Proof.
  unfold barriers. induction l as [|m l IH]; [by split|]. rewrite Forall_cons, filter_cons.
  case_decide as E; rewrite IH; [by rewrite E; split; [intros []|]|].
  apply not_true_is_false in E. rewrite E. split; [by intros []|done].
Qed.

Lemma barriers_ordered l : barriers (ordered l) = barriers l.
Proof.
  unfold barriers, ordered. rewrite list_filter_filter_l; [done|]. intros m. apply barrier_kept.
Qed.

Definition changed m : bool := match m with PaneEvidence _ _ b _ _ _ => b | _ => false end.

(** A message but for the mark that its process changed. *)
Definition content m : CoreToAgent :=
  match m with PaneEvidence p pid _ tail title agent => PaneEvidence p pid false tail title agent | _ => m end.

Lemma content_same m n k : content m = content n -> same_projection m k = same_projection n k.
Proof. destruct m, n; intros E; try done; by simplify_eq/=. Qed.

Lemma merge_content old m : content (merge_evidence old m) = content m.
Proof. by destruct old, m. Qed.

Lemma merge_changed old m : same_projection old m = true ->
  changed (merge_evidence old m) = changed m || changed old.
Proof. destruct old, m; simpl; try done. Qed.

(** ** One push *)

Lemma rposition_spec {A} (f : A -> bool) (l : list A) :
  match rposition f l with
  | Some i => exists (l1 : list A) x (l2 : list A), l = l1 ++ x :: l2 /\ length l1 = i /\ f x = true
  | None => True
  end.
Proof.
  induction l as [|x l IH]; simpl; [done|]. destruct (rposition f l) as [i|].
  - destruct IH as (l1&y&l2&->&<-&E). by exists (x :: l1), y, l2.
  - destruct (f x) eqn:E; [|done]. by exists [], x, l.
Qed.

Lemma supersede_cases o m :
  supersede o m = (o, m)
  \/ exists p1 old size p2, pending o = p1 ++ (old, size) :: p2 /\ same_projection old m = true
     /\ barriers p2.*1 = []
     /\ supersede o m = ({| pending := p1 ++ p2; o_bytes := wsub U64 (o_bytes o) size; failure := failure o |},
          merge_evidence old m).
Proof.
  unfold supersede. pose proof (rposition_spec (fun e => same_projection e.1 m) (pending o)) as Hr.
  destruct (rposition _ _) as [i|]; [|by left]. destruct Hr as (p1&[old size]&p2&Hp&<-&E).
  destruct (forallb _ _) eqn:Hb; [|by left]. right. exists p1, old, size, p2.
  rewrite Hp in Hb |- *. split_and!; [done|done| |].
  - apply no_barriers, Forall_fmap. apply Is_true_true_2, forallb_True in Hb. rewrite drop_app_ge in Hb by lia.
    replace (S (length p1) - length p1)%nat with 1%nat in Hb by lia. eapply Forall_impl; [exact Hb|].
    intros [n s]; simpl. by destruct (barrier n).
  - by rewrite list_lookup_middle, delete_middle.
Qed.

(** ** Budgets *)

Definition total (l : list (CoreToAgent * N)) : N := foldr (fun e acc => e.2 + acc) 0 l.

Lemma total_app (l1 l2 : list (CoreToAgent * N)) : total (l1 ++ l2) = total l1 + total l2.
Proof. induction l1 as [|e l1 IH]; simpl; [done|]. rewrite IH. lia. Qed.

(** The counted bytes are exact and within the budget. *)
Record budget o : Prop := {
  bd_count : (length (pending o) <= MAX_MESSAGES)%nat;
  bd_bytes : o_bytes o = total (pending o);
  bd_max : o_bytes o <= MAX_BYTES }.

Lemma push_budget o m : budget o -> budget (push o m).
Proof.
  intros Hb. unfold push. destruct (failure o); [done|].
  assert (Hs : budget (supersede o m).1).
  { destruct (supersede_cases o m) as [->|(p1&old&size&p2&Hp&_&_&->)]; [done|]. destruct Hb as [Hc Hy Hm].
    rewrite Hp in Hc, Hy. rewrite length_app in Hc. rewrite total_app in Hy. simpl in *.
    rewrite wsub_small by (unfold U64, MAX_BYTES in *; lia).
    split; simpl; rewrite ?length_app, ?total_app; lia. }
  destruct (supersede o m) as [o' m']. simpl in Hs. unfold enqueue.
  case_match eqn:E; [by destruct Hs|]. apply orb_false_iff in E as [E1 E2].
  apply Nat.leb_gt in E1. apply N.ltb_ge in E2. destruct Hs as [Hc Hy Hm]. unfold ssub in E2.
  rewrite wadd_small by (unfold U64, MAX_BYTES in *; lia).
  split; simpl; rewrite ?length_app, ?total_app; simpl; lia.
Qed.

Lemma flush_budget o c : budget o -> budget (flush o c).1.
Proof.
  unfold flush. destruct o as [l b f]. simpl. revert b c.
  induction l as [|[m size] l IH]; intros b c [Hc Hy Hm]; simpl in *; [by split|].
  pose proof (cl_send c m) as Hs. destruct (try_send c m) as [c' []]; simpl.
  - apply IH. rewrite wsub_small by (unfold U64, MAX_BYTES in *; lia). split; simpl; lia.
  - by split.
  - rewrite wsub_small by (unfold U64, MAX_BYTES in *; lia). split; simpl; lia.
Qed.

Lemma merge_size old m : message_size (merge_evidence old m) = message_size m.
Proof. by destruct old, m. Qed.

Lemma supersede_shrinks o m : budget o ->
  (length (pending (supersede o m).1) <= length (pending o))%nat
  /\ o_bytes (supersede o m).1 <= o_bytes o /\ failure (supersede o m).1 = failure o
  /\ message_size (supersede o m).2 = message_size m.
Proof.
  intros [Hc Hy Hm]. destruct (supersede_cases o m) as [->|(p1&old&size&p2&Hp&_&_&->)]; [done|].
  rewrite Hp in Hc, Hy |- *. rewrite total_app in Hy. simpl in *.
  rewrite wsub_small by (unfold U64, MAX_BYTES in *; lia). rewrite !length_app. simpl.
  split_and!; [lia|lia|done|apply merge_size].
Qed.

(** A message within the free budget is accepted. *)
Lemma push_fits o m : budget o -> failure o = None -> (length (pending o) < MAX_MESSAGES)%nat ->
  o_bytes o + message_size m <= MAX_BYTES -> failure (push o m) = None.
Proof.
  intros Hb Hf Hc Hm. unfold push. rewrite Hf. destruct (supersede_shrinks o m Hb) as (H1&H2&H3&H4).
  destruct (supersede o m) as [o' m']. simpl in *. unfold enqueue. rewrite H4, H3.
  replace (MAX_MESSAGES <=? length (pending o'))%nat with false by (symmetry; apply Nat.leb_gt; lia).
  replace (ssub MAX_BYTES (o_bytes o') <? message_size m) with false; [done|].
  symmetry. apply N.ltb_ge. unfold ssub. lia.
Qed.

(** ** Flushing *)

Definition delivered o c : list CoreToAgent := taken c ++ (pending o).*1.

(** A flush moves messages; it drops one only when the channel is gone. *)
Lemma flush_spec o c :
  let '(o', c') := flush o c in
  (failure o' = failure o /\ delivered o' c' = delivered o c
   \/ failure o' = Some Gone /\ exists m, delivered o c = taken c' ++ m :: (pending o').*1).
Proof.
  unfold flush. destruct o as [l b f]. simpl. revert b c.
  induction l as [|[m size] l IH]; intros b c; simpl; [by left|].
  pose proof (cl_send c m) as Hs. destruct (try_send c m) as [c' []]; simpl.
  - specialize (IH (wsub U64 b size) c'). destruct (flush_loop _ _ _ _) as [o'' c'']. destruct Hs as (_&_&_&Ht).
    unfold delivered in *. simpl in *. rewrite Ht, <- app_assoc in IH. exact IH.
  - destruct Hs as [-> _]. by left.
  - destruct Hs as [-> _]. right. split; [done|]. by exists m.
Qed.

(** ** What is delivered stands for what was pushed *)

(** The message [m], pushed between [a] and [b], is represented by [m'], which
    comes after [oa]: it is [m] itself or a later message with its key and no
    barrier in between, at its own place among the ordered records. *)
Definition kept a m b oa m' : Prop :=
  exists b1 n b2, m :: b = b1 ++ n :: b2 /\ content m' = content n /\ (b1 = [] \/ same_projection m n = true)
    /\ barriers b1 = [] /\ ordered oa = ordered (a ++ b1) /\ (changed m = true -> changed m' = true).

Record faithful (pushed dl : list CoreToAgent) : Prop := {
  fa_ordered : ordered dl = ordered pushed;
  fa_kept : forall a m b, pushed = a ++ m :: b -> exists oa m' ob, dl = oa ++ m' :: ob /\ kept a m b oa m';
  fa_sub : sublist (content <$> dl) (content <$> pushed) }.

Lemma kept_snoc a m b oa oa' m' n : kept a m b oa m' -> ordered oa' = ordered oa -> kept a m (b ++ [n]) oa' m'.
Proof.
  intros (b1&k&b2&Hb&Hc&Hk&Hn&Ho&Hch) E. exists b1, k, (b2 ++ [n]). rewrite E. split_and!; try done.
  by rewrite app_comm_cons, Hb, <- app_assoc.
Qed.

Lemma kept_last a m m' oa : content m' = content m -> ordered oa = ordered a ->
  (changed m = true -> changed m' = true) -> kept a m [] oa m'.
Proof. intros Hc Ho Hch. exists [], m, []. rewrite app_nil_r. split_and!; auto. Qed.

(** A position in a list with one more message at its end. *)
Lemma snoc_position l n a m b : l ++ [n] = a ++ m :: b ->
  (b = [] /\ m = n /\ a = l) \/ exists b', b = b' ++ [n] /\ l = a ++ m :: b'.
Proof.
  destruct b as [|k b' _] using rev_ind; intros E.
  - left. by apply app_inj_tail in E as [-> ->].
  - right. exists b'. rewrite app_comm_cons, app_assoc in E. by apply app_inj_tail in E as [-> ->].
Qed.

Lemma faithful_push pushed dl m : faithful pushed dl -> faithful (pushed ++ [m]) (dl ++ [m]).
Proof.
  intros [Ho Hk Hs]. split.
  - by rewrite !ordered_app, Ho.
  - intros a k b [(->&->&->)|(b'&->&E)]%snoc_position.
    + exists dl, m, []. split; [done|]. by apply kept_last.
    + destruct (Hk _ _ _ E) as (oa&m'&ob&->&Hm). exists oa, m', (ob ++ [m]). split; [by rewrite <- app_assoc|].
      by eapply kept_snoc.
  - rewrite !fmap_app. by apply sublist_app.
Qed.

(** The message that stood for [k] is replaced: the new one stands for it. *)
Lemma kept_replaced a k b d1 old d2 m :
  kept a k b d1 old -> ordered (d1 ++ old :: d2) = ordered (a ++ k :: b) -> same_projection old m = true ->
  barriers d2 = [] -> kept a k (b ++ [m]) (d1 ++ d2) (merge_evidence old m).
Proof.
  intros (b1&n&b2&Hb&Hc&Hsame&Hn&Ho&Hch) Hall Hs Hd.
  assert (Hnm : same_projection n m = true) by (by rewrite <- (content_same _ _ m Hc)).
  destruct (same_replaceable _ _ Hs) as [Ro Rm]. destruct (same_replaceable _ _ Hnm) as [Rn _].
  rewrite ordered_app, ordered_replaceable, Hb, app_assoc, (ordered_app (a ++ b1)), Ho, (ordered_replaceable n) in Hall by done.
  apply app_inv_head in Hall.
  exists (k :: b), m, []. split_and!.
  - done.
  - apply merge_content.
  - right. destruct Hsame as [->|Hkn]; [by injection Hb as -> ->|]. by eapply same_trans.
  - rewrite Hb. rewrite <- barriers_ordered, ordered_app, (ordered_replaceable n), <- Hall, <- ordered_app by done.
    rewrite barriers_ordered. unfold barriers in *. by rewrite filter_app, Hn, Hd.
  - by rewrite Hb, app_assoc, (ordered_app (a ++ b1)), (ordered_replaceable n), <- Hall, <- Ho, <- ordered_app by done.
  - intros Hk. rewrite merge_changed, Hch by done. by rewrite orb_true_r.
Qed.

Lemma faithful_replace pushed d1 old d2 m :
  faithful pushed (d1 ++ old :: d2) -> same_projection old m = true -> barriers d2 = [] ->
  faithful (pushed ++ [m]) (d1 ++ d2 ++ [merge_evidence old m]).
Proof.
  intros [Ho Hk Hs] Hsame Hd. destruct (same_replaceable _ _ Hsame) as [Ro Rm].
  assert (Ho' : ordered (d1 ++ d2) = ordered pushed).
  { rewrite <- Ho, !ordered_app. by rewrite ordered_replaceable. }
  assert (Hmm : replaceable (merge_evidence old m) = true).
  { unfold replaceable. rewrite (content_same _ _ _ (merge_content old m)), same_sym.
    by rewrite (content_same _ _ _ (merge_content old m)). }
  split.
  - rewrite app_assoc, ordered_app, Ho', ordered_app, !ordered_replaceable by done. done.
  - intros a k b [(->&->&->)|(b'&->&E)]%snoc_position.
    + exists (d1 ++ d2), (merge_evidence old m), []. split; [by rewrite app_assoc|].
      apply kept_last; [apply merge_content|done|]. intros Hc. by rewrite merge_changed, Hc.
    + destruct (Hk _ _ _ E) as (oa&m'&ob&Hl&Hm).
      apply app_eq_inv in Hl as [([|y q]&->&Hq)|([|y q]&->&Hq)]; simplify_eq/=.
      * rewrite app_nil_r in *. eexists (oa ++ d2), _, []. split; [by rewrite <- app_assoc|]. by apply kept_replaced.
      * exists oa, y, (q ++ d2 ++ [merge_evidence old m]). split; [by rewrite <- app_assoc|]. by eapply kept_snoc.
      * exists (d1 ++ ob), (merge_evidence m' m), []. split; [by rewrite <- app_assoc|].
        rewrite app_nil_r in Hm. by apply kept_replaced.
      * exists (d1 ++ q), m', (ob ++ [merge_evidence y m]). split; [by rewrite <- !app_assoc|].
        eapply kept_snoc; [done|]. rewrite !ordered_app. by rewrite ordered_replaceable.
  - rewrite app_assoc, !(fmap_app content _ [_]). apply sublist_app; [|by rewrite list_fmap_singleton, merge_content].
    etrans; [|exact Hs]. rewrite !fmap_app, fmap_cons. apply sublist_app; [done|]. by apply sublist_cons.
Qed.

(** ** The core loop and the runtime *)

(** [s_pushed] lists the messages the outbox has accepted. *)
Record system : Type := Sys { s_outbox : Outbox; s_chan : chan; s_pushed : list CoreToAgent }.

Definition s_delivered (s : system) : list CoreToAgent := delivered (s_outbox s) (s_chan s).

Definition accepted o m pushed : list CoreToAgent :=
  match failure (push o m) with None => pushed ++ [m] | Some _ => pushed end.

Inductive step : system -> system -> Prop :=
| step_send o c pushed m : step (Sys o c pushed) (Sys (send o c m).1 (send o c m).2 (accepted o m pushed))
| step_drain o c pushed : step (Sys o c pushed) (Sys (flush o c).1 (flush o c).2 pushed)
| step_runtime o c c' pushed :       (* it receives a message, or goes away *)
    taken c' = taken c -> (alive c' = true -> alive c = true) -> step (Sys o c pushed) (Sys o c' pushed).

Definition reachable (s : system) : Prop :=
  exists c, taken c = [] /\ rtc step (Sys default_outbox c []) s.

Record inv (s : system) : Prop := {
  iv_budget : budget (s_outbox s);
  iv_sub : sublist (content <$> s_delivered s) (content <$> s_pushed s);
  iv_faithful : failure (s_outbox s) = None -> faithful (s_pushed s) (s_delivered s) }.

Lemma push_delivers o c m pushed : failure o = None -> faithful pushed (delivered o c) ->
  match failure (push o m) with
  | None => faithful (pushed ++ [m]) (delivered (push o m) c)
  | Some _ => sublist (delivered (push o m) c) (delivered o c)
  end.
Proof.
  intros Hf Hfa. unfold push. rewrite Hf. unfold delivered in *.
  destruct (supersede_cases o m) as [->|(p1&old&size&p2&Hp&Hs&Hb&->)]; unfold enqueue; simpl.
  - destruct (_ || _); simpl; [done|]. rewrite Hf, fmap_app, app_assoc. by apply faithful_push.
  - rewrite Hp, fmap_app, fmap_cons in Hfa |- *. destruct (_ || _); simpl.
    + rewrite fmap_app. apply sublist_app; [done|]. apply sublist_app; [done|]. by apply sublist_cons.
    + rewrite Hf, !fmap_app. simpl. rewrite !app_assoc in *. rewrite <- (app_assoc _ p2.*1).
      by apply faithful_replace.
Qed.

Lemma push_failed o m f : failure o = Some f -> push o m = o.
Proof. unfold push. by intros ->. Qed.

Lemma inv_push o c pushed m : inv (Sys o c pushed) -> inv (Sys (push o m) c (accepted o m pushed)).
Proof.
  intros [Hb Hs Hf]. unfold accepted. destruct (failure o) as [f|] eqn:E.
  - rewrite (push_failed _ _ _ E), E. by split.
  - simpl in Hf. specialize (Hf E). pose proof (push_delivers o c m pushed E Hf) as Hp.
    split; simpl; [by apply push_budget| |]; destruct (failure (push o m)); try done.
    + etrans; [|exact Hs]. by apply fmap_sublist.
    + apply Hp.
Qed.

Lemma inv_flush o c pushed : inv (Sys o c pushed) -> inv (Sys (flush o c).1 (flush o c).2 pushed).
Proof.
  intros [Hb Hs Hf]. pose proof (flush_budget o c Hb) as Hb'. pose proof (flush_spec o c) as Hd.
  destruct (flush o c) as [o' c']. unfold s_delivered in *. simpl in *.
  destruct Hd as [[Ef Ed]|[Ef [m Ed]]].
  - split; unfold s_delivered; simpl; rewrite ?Ed, ?Ef; done.
  - split; unfold s_delivered; simpl; [done| |by rewrite Ef]. etrans; [|exact Hs]. rewrite Ed.
    apply fmap_sublist. unfold delivered. apply sublist_app; [done|]. by apply sublist_cons.
Qed.

Lemma reachable_inv s : reachable s -> inv s.
Proof.
  intros (c&Hc&Hr).
  assert (Hi : inv (Sys default_outbox c [])).
  { split; unfold s_delivered, delivered; simpl; rewrite ?Hc; [split; simpl; lia|done|].
    split; [done| |done]. intros a m b E. by destruct a. }
  clear Hc. induction Hr as [|s1 s2 s3 Hs _ IH]; [done|]. apply IH.
  destruct Hs as [o c1 l m|o c1 l|o c1 c2 l Ht _].
  - by apply inv_flush, inv_push.
  - by apply inv_flush.
  - destruct Hi as [Hb Hsb Hf]. unfold s_delivered, delivered in *. simpl in *.
    split; unfold s_delivered, delivered; simpl; rewrite ?Ht; done.
Qed.

(** C6: the runtime receives what was pushed. Whatever the order of sends,
    drains, receptions and even the runtime's death: the backlog stays within
    512 messages and its byte budget, counted exactly, and what the channel has
    taken and the backlog holds is, in order, part of what was pushed. While
    there is no failure, event records and lifecycle operations all arrive, in
    order; each other message arrives, or one pushed later in its place with
    the same key, no lifecycle operation in between, at that later message's
    own place among the records; and no change of process is forgotten. An
    outbox that does not push back takes any message of half the budget. *)
Theorem outbox_faithful s : reachable s ->
  let dl := s_delivered s in
  (length (pending (s_outbox s)) <= MAX_MESSAGES)%nat
  /\ o_bytes (s_outbox s) = total (pending (s_outbox s)) /\ o_bytes (s_outbox s) <= MAX_BYTES
  /\ sublist (content <$> dl) (content <$> s_pushed s)
  /\ (failure (s_outbox s) = None ->
       ordered dl = ordered (s_pushed s)
       /\ forall a m b, s_pushed s = a ++ m :: b -> exists oa m' ob, dl = oa ++ m' :: ob /\ kept a m b oa m')
  /\ (failure (s_outbox s) = None -> backpressured (s_outbox s) = false ->
       forall m, message_size m <= MAX_BYTES / 2 -> failure (push (s_outbox s) m) = None).
Proof.
  intros [Hb Hs Hf]%reachable_inv. pose proof Hb as [Hc Hy Hm].
  split_and!; [done..| |].
  - intros E. by destruct (Hf E).
  - intros E [Hp1 Hp2]%orb_false_iff m Hsz. apply Nat.leb_gt in Hp1. apply N.leb_gt in Hp2.
    apply push_fits; [done|done| |].
    + change (MAX_MESSAGES / 2)%nat with 256%nat in Hp1. unfold MAX_MESSAGES. lia.
    + change (MAX_BYTES / 2) with 67108864 in *. unfold MAX_BYTES. lia.
Qed.

(** ** Draining *)

(** The runtime lives and has received something since the last flush. *)
Definition received c c' : Prop := taken c' = taken c /\ alive c' = true /\ (0 < room c')%nat.

Inductive rounds : nat -> Outbox * chan -> Outbox * chan -> Prop :=
| rounds_0 x : rounds 0 x x
| rounds_S k o c c' x : received c c' -> rounds k (flush o c') x -> rounds (S k) (o, c) x.

Lemma flush_progress o c : alive c = true ->
  failure (flush o c).1 = failure o /\ delivered (flush o c).1 (flush o c).2 = delivered o c
  /\ length (pending (flush o c).1) = (length (pending o) - room c)%nat.
Proof.
  unfold flush. destruct o as [l b f]. simpl. revert b c.
  induction l as [|[m size] l IH]; intros b c Ha; simpl; [done|].
  pose proof (cl_send c m) as Hs. destruct (try_send c m) as [c' []]; simpl.
  - destruct Hs as (_&Ha'&Hr&Ht). destruct (IH (wsub U64 b size) c' Ha') as (->&Hd&->).
    unfold delivered in *. rewrite Hd, Ht, <- app_assoc. simpl. split_and!; [done|done|lia].
  - destruct Hs as (->&_&Hr). split_and!; [done|done|simpl; lia].
  - destruct Hs as [_ E]. by rewrite E in Ha.
Qed.

Lemma rounds_spec k x y : rounds k x y ->
  failure y.1 = failure x.1 /\ delivered y.1 y.2 = delivered x.1 x.2
  /\ (length (pending y.1) <= length (pending x.1) - k)%nat /\ (budget x.1 -> budget y.1).
Proof.
  induction 1 as [x|k o c c' x (Ht&Ha&Hr) _ IH]; [split_and!; [done|done|lia|done]|].
  destruct (flush_progress o c' Ha) as (Hf&Hd&Hl). destruct IH as (->&->&Hk&Hb). simpl in *.
  rewrite Hf, Hd. unfold delivered. rewrite Ht. split_and!; [done|done|lia|].
  intros H. by apply Hb, flush_budget.
Qed.

(** C24: the backlog drains. In every reachable state, if the runtime lives and
    receives a message before each flush, the backlog shrinks by a message a
    round at least, and after at most 512 rounds it is empty: the runtime's
    channel has then taken all that was pending, in order, and nothing failed
    meanwhile. *)
Theorem outbox_drains s k o' c' : reachable s -> rounds k (s_outbox s, s_chan s) (o', c') ->
  (length (pending o') <= length (pending (s_outbox s)) - k)%nat
  /\ failure o' = failure (s_outbox s)
  /\ ((MAX_MESSAGES <= k)%nat -> is_empty o' = true /\ taken c' = s_delivered s /\ o_bytes o' = 0).
Proof.
  intros [Hb _ _]%reachable_inv Hr. pose proof (rounds_spec _ _ _ Hr) as (Hf&Hd&Hl&Hb'). simpl in *.
  specialize (Hb' Hb). split_and!; [done|done|]. intros Hk. destruct Hb as [Hc _ _].
  assert (Hp : pending o' = []) by (apply nil_length_inv; lia). unfold is_empty. rewrite Hp.
  unfold delivered in Hd at 1. rewrite Hp, app_nil_r in Hd. split_and!; [done|done|].
  destruct Hb' as [_ -> _]. by rewrite Hp.
Qed.
End Spec.

(** ** A channel with room for one message *)

#[local] Instance sample_payloads : Payloads :=
  {| Snapshot := N; Request := unit; retained_bytes _ := 100; serialized_size _ := Some 8 |}.

(** What the channel has taken, its free slots and whether the receiver lives. *)
#[local] Instance slots : Channel :=
  {| chan := list CoreToAgent * nat * bool;
     try_send c m := let '(got, free, live) := c in
       if live then match free with O => (c, Full) | S free => (got ++ [m], free, live, Sent) end
       else (c, Disconnected) |}.

#[local] Instance slots_laws : ChannelLaws.
Proof.
  refine {| taken c := c.1.1; alive c := c.2; room c := c.1.2 |}.
  intros [[got [|free]] []] m; simpl; done.
Defined.

Definition slot (got : list CoreToAgent) (free : nat) : chan := (got, free, true).
Definition line (n : N) : CoreToAgent := EventAppend [] [n].
Definition checkpoint (n : N) : CoreToAgent := SnapshotSave [] n.

(** The channel takes the first record; of two checkpoints the second stays. *)
Definition busy : system :=
  Sys {| pending := [(line 2, 33); (checkpoint 9, 132)]; o_bytes := 165; failure := None |}
    (slot [line 1] 0) [line 1; checkpoint 7; line 2; checkpoint 9].

Lemma busy_reachable : reachable busy.
Proof.
  exists (slot [] 1). split; [done|].
  eapply rtc_l; [apply (step_send _ _ _ (line 1))|]. eapply rtc_l; [apply (step_send _ _ _ (checkpoint 7))|].
  eapply rtc_l; [apply (step_send _ _ _ (line 2))|]. eapply rtc_l; [apply (step_send _ _ _ (checkpoint 9))|].
  apply rtc_refl.
Qed.

Lemma outbox_faithful_witness :
  backpressured (s_outbox busy) = false
  /\ sublist (content <$> s_delivered busy) (content <$> s_pushed busy)
  /\ ordered (s_delivered busy) = [line 1; line 2].
Proof.
  destruct (outbox_faithful busy busy_reachable) as (_&_&_&Hs&Ho&_).
  split_and!; [reflexivity|exact Hs|]. by destruct (Ho eq_refl) as [-> _].
Defined.

Lemma outbox_drains_witness :
  exists o' c', rounds 2 (s_outbox busy, s_chan busy) (o', c')
    /\ (length (pending o') <= 0)%nat /\ taken c' = [line 1; line 2; checkpoint 9].
Proof.
  assert (Hr : rounds 2 (s_outbox busy, s_chan busy)
    (default_outbox, slot [line 1; line 2; checkpoint 9] 0)).
  { eapply (rounds_S _ _ _ (slot [line 1] 1)); [split_and!; [done|done|simpl; lia]|].
    eapply (rounds_S _ _ _ (slot [line 1; line 2] 1)); [split_and!; [done|done|simpl; lia]|]. apply rounds_0. }
  eexists _, _. split; [exact Hr|].
  split; [exact (proj1 (outbox_drains busy 2 _ _ busy_reachable Hr))|reflexivity].
Defined.
