(* ===== verification/Grid.v ===== *)
(** * The terminal grid: state and operations

    [uniterm-core/src/grid.rs]: the live screen, scrollback ring, damage and
    the arenas of graphemes, underline colours and hyperlinks.  Reflow is in
    Reflow.v, persisted lines in Stored.v, the theorems in GridInv.v,
    Damage.v and Wide.v.

    Line identities are unbounded.  Where the source indexes a slice, [peek]
    and [alter] read a default and write nothing out of range; the invariant of
    GridInv.v makes every such index in range, so nothing panics. *)

From S2P Require Import Prelude Cell.

#[global] Instance Color_countable : Countable Color.
Proof.
  refine (inj_countable'
    (fun c => match c with Default => None | Idx i => Some (inl i) | Rgb r g b => Some (inr (r, g, b)) end)
    (fun x => match x with None => Default | Some (inl i) => Idx i | Some (inr (r, g, b)) => Rgb r g b end) _).
  by intros [].
Defined.

Record Line : Set := { cells : list Cell; wrapped : bool; l_id : N }.
Record RowDamage : Set := { dirty : bool; lo : N; hi : N }.

Record Grid : Set := {
  g_width : N; g_height : N;
  lines : list Line;
  damage : list RowDamage;
  any_damage : bool;
  pending_scroll_up : N;
  scrollback : list Line;
  scrollback_limit : N;
  clusters : list str; cluster_gc_at : N;
  hyperlinks : gmap N str; hyperlink_gc_at : N; next_hyperlink : N;
  underline_colors : list Color;
  next_line_id : N }.

(** ** Field updates *)

Definition with_lines (g : Grid) (l : list Line) : Grid :=
  {| g_width := g_width g; g_height := g_height g; lines := l; damage := damage g;
     any_damage := any_damage g; pending_scroll_up := pending_scroll_up g;
     scrollback := scrollback g; scrollback_limit := scrollback_limit g;
     clusters := clusters g; cluster_gc_at := cluster_gc_at g; hyperlinks := hyperlinks g;
     hyperlink_gc_at := hyperlink_gc_at g; next_hyperlink := next_hyperlink g;
     underline_colors := underline_colors g; next_line_id := next_line_id g |}.

Definition with_damage (g : Grid) (d : list RowDamage) (any : bool) (pending : N) : Grid :=
  {| g_width := g_width g; g_height := g_height g; lines := lines g; damage := d;
     any_damage := any; pending_scroll_up := pending;
     scrollback := scrollback g; scrollback_limit := scrollback_limit g;
     clusters := clusters g; cluster_gc_at := cluster_gc_at g; hyperlinks := hyperlinks g;
     hyperlink_gc_at := hyperlink_gc_at g; next_hyperlink := next_hyperlink g;
     underline_colors := underline_colors g; next_line_id := next_line_id g |}.

Definition with_history (g : Grid) (sb : list Line) (limit : N) : Grid :=
  {| g_width := g_width g; g_height := g_height g; lines := lines g; damage := damage g;
     any_damage := any_damage g; pending_scroll_up := pending_scroll_up g;
     scrollback := sb; scrollback_limit := limit;
     clusters := clusters g; cluster_gc_at := cluster_gc_at g; hyperlinks := hyperlinks g;
     hyperlink_gc_at := hyperlink_gc_at g; next_hyperlink := next_hyperlink g;
     underline_colors := underline_colors g; next_line_id := next_line_id g |}.

Definition with_clusters (g : Grid) (cl : list str) (gc : N) : Grid :=
  {| g_width := g_width g; g_height := g_height g; lines := lines g; damage := damage g;
     any_damage := any_damage g; pending_scroll_up := pending_scroll_up g;
     scrollback := scrollback g; scrollback_limit := scrollback_limit g;
     clusters := cl; cluster_gc_at := gc; hyperlinks := hyperlinks g;
     hyperlink_gc_at := hyperlink_gc_at g; next_hyperlink := next_hyperlink g;
     underline_colors := underline_colors g; next_line_id := next_line_id g |}.

Definition with_links (g : Grid) (links : gmap N str) (gc next : N) : Grid :=
  {| g_width := g_width g; g_height := g_height g; lines := lines g; damage := damage g;
     any_damage := any_damage g; pending_scroll_up := pending_scroll_up g;
     scrollback := scrollback g; scrollback_limit := scrollback_limit g;
     clusters := clusters g; cluster_gc_at := cluster_gc_at g; hyperlinks := links;
     hyperlink_gc_at := gc; next_hyperlink := next;
     underline_colors := underline_colors g; next_line_id := next_line_id g |}.

Definition with_colors (g : Grid) (uc : list Color) : Grid :=
  {| g_width := g_width g; g_height := g_height g; lines := lines g; damage := damage g;
     any_damage := any_damage g; pending_scroll_up := pending_scroll_up g;
     scrollback := scrollback g; scrollback_limit := scrollback_limit g;
     clusters := clusters g; cluster_gc_at := cluster_gc_at g; hyperlinks := hyperlinks g;
     hyperlink_gc_at := hyperlink_gc_at g; next_hyperlink := next_hyperlink g;
     underline_colors := uc; next_line_id := next_line_id g |}.

Definition with_next_id (g : Grid) (n : N) : Grid :=
  {| g_width := g_width g; g_height := g_height g; lines := lines g; damage := damage g;
     any_damage := any_damage g; pending_scroll_up := pending_scroll_up g;
     scrollback := scrollback g; scrollback_limit := scrollback_limit g;
     clusters := clusters g; cluster_gc_at := cluster_gc_at g; hyperlinks := hyperlinks g;
     hyperlink_gc_at := hyperlink_gc_at g; next_hyperlink := next_hyperlink g;
     underline_colors := underline_colors g; next_line_id := n |}.

Definition with_size (g : Grid) (w h : N) : Grid :=
  {| g_width := w; g_height := h; lines := lines g; damage := damage g;
     any_damage := any_damage g; pending_scroll_up := pending_scroll_up g;
     scrollback := scrollback g; scrollback_limit := scrollback_limit g;
     clusters := clusters g; cluster_gc_at := cluster_gc_at g; hyperlinks := hyperlinks g;
     hyperlink_gc_at := hyperlink_gc_at g; next_hyperlink := next_hyperlink g;
     underline_colors := underline_colors g; next_line_id := next_line_id g |}.

Definition with_cells (l : Line) (cs : list Cell) : Line :=
  {| cells := cs; wrapped := wrapped l; l_id := l_id l |}.
Definition with_wrapped (l : Line) (w : bool) : Line :=
  {| cells := cells l; wrapped := w; l_id := l_id l |}.

(** ** Lines and damage *)

Definition blank_line (width : N) (cell : Cell) (id : N) : Line :=
  {| cells := replicate (N.to_nat width) cell; wrapped := false; l_id := id |}.

(** The cells up to the last that is not the default cell. *)
Definition trim_cells (cs : list Cell) : list Cell :=
  trim_by (fun c => bool_decide (c = default_cell)) cs.

Definition trim_default_tail (l : Line) : Line :=
  if wrapped l then l else with_cells l (trim_cells (cells l)).

Definition clean : RowDamage := {| dirty := false; lo := 0; hi := 0 |}.

(** [for x in lo..hi] *)
Definition range (lo hi : N) : list N :=
  map (fun i => lo + N.of_nat i) (seq 0 (N.to_nat (hi - lo))).

Definition new (w h : N) : Grid :=
  {| g_width := w; g_height := h;
     lines := map (fun i => blank_line w default_cell (1 + i)) (range 0 h);
     damage := replicate (N.to_nat h) clean; any_damage := false; pending_scroll_up := 0;
     scrollback := []; scrollback_limit := 10000;
     clusters := [[]]; cluster_gc_at := 4096;
     hyperlinks := ∅; hyperlink_gc_at := 4096; next_hyperlink := 1;
     underline_colors := [Default]; next_line_id := 1 + h |}.

(** [while deque.len() > limit { deque.pop_front() }] *)
Definition keep_last {A} (limit : N) (l : list A) : list A :=
  drop (length l - N.to_nat limit) l.

Definition set_scrollback_limit (g : Grid) (limit : N) : Grid :=
  with_history g (keep_last limit (scrollback g)) limit.

Definition clear_scrollback (g : Grid) : Grid := with_history g [] (scrollback_limit g).

Definition scrollback_len (g : Grid) : N := N.of_nat (length (scrollback g)).
Definition total_lines (g : Grid) : N := scrollback_len g + g_height g.

Definition retained_cell_count (g : Grid) : nat :=
  sum_list (map (fun l => length (cells l)) (scrollback g ++ lines g)).

Definition line (g : Grid) (i : N) : option Line :=
  if i <? scrollback_len g then scrollback g !! N.to_nat i
  else lines g !! N.to_nat (i - scrollback_len g).

Definition first_line_id (g : Grid) : option N :=
  l_id <$> match scrollback g with l :: _ => Some l | [] => head (lines g) end.
Definition line_id (g : Grid) (i : N) : option N := l_id <$> line g i.
Definition line_wrapped (g : Grid) (i : N) : bool :=
  match line g i with Some l => wrapped l | None => false end.

Definition set_row_wrapped (g : Grid) (y : N) (w : bool) : Grid :=
  with_lines g (alter (fun l => with_wrapped l w) (N.to_nat y) (lines g)).

Definition line_cell (g : Grid) (i x : N) : Cell :=
  default default_cell (l ← line g i; cells l !! N.to_nat x).

(** [None] is a panic of [self.lines[y].cells[x]]. *)
Definition get (g : Grid) (x y : N) : option Cell :=
  l ← lines g !! N.to_nat y; cells l !! N.to_nat x.

Definition peek (g : Grid) (x y : N) : Cell := default default_cell (get g x y).

(** ** Arenas *)

(** [cell_text_owned]: the text of a cell. *)
Definition cell_text (cl : list str) (c : Cell) : str :=
  if is_continuation c then []
  else if negb (cluster c =? 0) then default [REPLACEMENT] (cl !! N.to_nat (cluster c))
  else [ch c].

Definition cell_text_owned (g : Grid) (c : Cell) : str := cell_text (clusters g) c.

(** A pass over all cells, oldest line first, that threads a state. *)
Fixpoint map_acc {S A B} (f : S -> A -> S * B) (s : S) (l : list A) : S * list B :=
  match l with
  | [] => (s, [])
  | a :: l =>
      let '(s, b) := f s a in
      let '(s, bs) := map_acc f s l in
      (s, b :: bs)
  end.

Definition pass_line {S} (f : S -> Cell -> S * Cell) (s : S) (l : Line) : S * Line :=
  let '(s, cs) := map_acc f s (cells l) in (s, with_cells l cs).

Definition pass {S} (f : S -> Cell -> S * Cell) (s : S) (g : Grid) : S * Grid :=
  let '(s, sb) := map_acc (pass_line f) s (scrollback g) in
  let '(s, ls) := map_acc (pass_line f) s (lines g) in
  (s, with_lines (with_history g sb (scrollback_limit g)) ls).

Definition with_cluster (c : Cell) (h : N) : Cell :=
  {| ch := ch c; fg := fg c; bg := bg c; attrs := attrs c; width := width c;
     c_underline := c_underline c; cluster := h; c_hyperlink := c_hyperlink c |}.
Definition with_ch (c : Cell) (x : char) : Cell :=
  {| ch := x; fg := fg c; bg := bg c; attrs := attrs c; width := width c;
     c_underline := c_underline c; cluster := cluster c; c_hyperlink := c_hyperlink c |}.
Definition with_width (c : Cell) (w : N) : Cell :=
  {| ch := ch c; fg := fg c; bg := bg c; attrs := attrs c; width := w;
     c_underline := c_underline c; cluster := cluster c; c_hyperlink := c_hyperlink c |}.
Definition with_underline (c : Cell) (h : N) : Cell :=
  {| ch := ch c; fg := fg c; bg := bg c; attrs := attrs c; width := width c;
     c_underline := h; cluster := cluster c; c_hyperlink := c_hyperlink c |}.
Definition with_hyperlink (c : Cell) (h : N) : Cell :=
  {| ch := ch c; fg := fg c; bg := bg c; attrs := attrs c; width := width c;
     c_underline := c_underline c; cluster := cluster c; c_hyperlink := h |}.

(** *** Hyperlinks *)

Definition used_links (g : Grid) : gset N :=
  list_to_set (filter (fun h => h <> 0)
    (concat (map (fun l => map c_hyperlink (cells l)) (scrollback g ++ lines g)))).

Definition compact_hyperlinks (g : Grid) : Grid :=
  let links := filter (fun e => e.1 ∈ used_links g) (hyperlinks g) in
  with_links g links (N.max (N.min (N.of_nat (size links) * 2) u64_max) 4096) (next_hyperlink g).

(** The [loop] that looks for a free handle; it is left as soon as one is
    found, and among [size + 1] candidates one is free. *)
Fixpoint free_handle (fuel : nat) (links : gmap N str) (next : N) : N * N :=
  let candidate := N.max next 1 in
  let next := N.max (wadd U32 candidate 1) 1 in
  match fuel with
  | O => (candidate, next)
  | S fuel =>
      if bool_decide (is_Some (links !! candidate)) then free_handle fuel links next
      else (candidate, next)
  end.

Definition intern_hyperlink (g : Grid) (uri : str) : Grid * N :=
  if bool_decide (uri = []) || (8192 <? len8 uri) || existsb is_control uri then (g, 0)
  else match find_entry (fun e => str_eqb e.2 uri) (hyperlinks g) with
  | Some (h, _) => (g, h)
  | None =>
      let g := if hyperlink_gc_at g <=? N.of_nat (size (hyperlinks g))
               then compact_hyperlinks g else g in
      let '(h, next) := free_handle (size (hyperlinks g)) (hyperlinks g) (next_hyperlink g) in
      (with_links g (<[h := uri]> (hyperlinks g)) (hyperlink_gc_at g) next, h)
  end.

Definition hyperlink (g : Grid) (h : N) : option str :=
  if negb (h =? 0) then hyperlinks g !! h else None.

(** *** Renumbering

    Both compactions walk all cells, look each handle up in the old arena and
    push its value into the new one on its first occurrence; [wrap] is the
    width the new handle is cast to. *)
Definition rehandle {K} `{Countable K} (wrap : N) (old : list K) (st : gmap K N * list K) (h : N)
  : (gmap K N * list K) * option N :=
  match old !! N.to_nat h with
  | None => (st, None)
  | Some k =>
      match st.1 !! k with
      | Some h' => (st, Some h')
      | None =>
          let l := st.2 ++ [k] in
          let h' := N.of_nat (length l - 1) mod wrap in
          ((<[k := h']> st.1, l), Some h')
      end
  end.

(** *** Underline colours: handles are [u8] *)

Definition position {A} `{EqDecision A} (x : A) (l : list A) : option nat :=
  fst <$> list_find (fun y => y = x) l.

Definition compact_color (old : list Color) (st : gmap Color N * list Color) (c : Cell)
  : (gmap Color N * list Color) * Cell :=
  if c_underline c =? 0 then (st, c)
  else let '(st, h) := rehandle 256 old st (c_underline c) in (st, with_underline c (default 0 h)).

Definition compact_underline_colors (g : Grid) : Grid :=
  let '((_, colors), g') := pass (compact_color (underline_colors g)) (∅, [Default]) g in
  with_colors g' colors.

Definition colors_full (g : Grid) : bool := (length (underline_colors g) =? 256)%nat.

Definition push_color (g : Grid) (color : Color) : Grid * N :=
  if colors_full g then (g, 0)
  else let colors := underline_colors g ++ [color] in
       (with_colors g colors, N.of_nat (length colors - 1) mod 256).

Definition intern_underline_color (g : Grid) (color : Color) : Grid * N :=
  if decide (color = Default) then (g, 0)
  else match position color (underline_colors g) with
  | Some i => (g, N.of_nat i mod 256)
  | None =>
      if colors_full g then
        let g := compact_underline_colors g in
        match position color (underline_colors g) with
        | Some i => (g, N.of_nat i mod 256)
        | None => push_color g color
        end
      else push_color g color
  end.

Definition underline_color (g : Grid) (h : N) : Color :=
  default Default (underline_colors g !! N.to_nat h).

(** *** Graphemes: handles are [u32] *)

Definition compact_cluster (old : list str) (st : gmap (list N) N * list str) (c : Cell)
  : (gmap (list N) N * list str) * Cell :=
  if cluster c =? 0 then (st, c)
  else let '(st, h) := rehandle U32 old st (cluster c) in
       (st, match h with
            | Some h => with_cluster c h
            | None => with_ch (with_cluster c 0) REPLACEMENT
            end).

Definition compact_clusters (g : Grid) : Grid :=
  let '((_, cl), g') := pass (compact_cluster (clusters g)) (∅, [[]]) g in
  with_clusters g' cl (N.max (N.min (N.of_nat (length cl) * 2) u64_max) 4096).

(** [clusters.iter().enumerate().rev().take(64).find(..)] *)
Definition recent_cluster (cl : list str) (text : str) : option nat :=
  (fun p : nat * (nat * str) => p.2.1)
    <$> list_find (fun p : nat * str => p.2 = text) (take 64 (rev (imap pair cl))).

Definition intern (g : Grid) (text : str) : Grid * N :=
  match recent_cluster (clusters g) text with
  | Some i => (g, N.of_nat i mod U32)
  | None =>
      let g := if cluster_gc_at g <=? N.of_nat (length (clusters g)) then compact_clusters g else g in
      let cl := clusters g ++ [text] in
      (with_clusters g cl (cluster_gc_at g), N.of_nat (length cl - 1) mod U32)
  end.

(** ** Damage *)

Definition damage_at (x : N) (r : RowDamage) : RowDamage :=
  if dirty r then {| dirty := true; lo := N.min (lo r) x; hi := N.max (hi r) x |}
  else {| dirty := true; lo := x; hi := x |}.

Definition mark_damage (g : Grid) (x y : N) : Grid :=
  with_damage g (alter (damage_at x) (N.to_nat y) (damage g)) true (pending_scroll_up g).

Definition full_row (g : Grid) : RowDamage := {| dirty := true; lo := 0; hi := g_width g - 1 |}.

Definition mark_rows_damaged (g : Grid) (top bottom : N) : Grid :=
  if g_width g =? 0 then g
  else with_damage g
    (imap (fun y r => if (top <=? N.of_nat y) && (N.of_nat y <=? bottom) then full_row g else r)
       (damage g)) true (pending_scroll_up g).

Definition mark_all_damaged (g : Grid) : Grid :=
  if (g_width g =? 0) || (g_height g =? 0) then g
  else with_damage g (map (fun _ => full_row g) (damage g)) true 0.

Definition clear_damage (g : Grid) : Grid :=
  if any_damage g then
    with_damage g (map (fun r => {| dirty := false; lo := lo r; hi := hi r |}) (damage g)) false 0
  else with_damage g (damage g) (any_damage g) 0.

Definition is_dirty (g : Grid) : bool := any_damage g.

Definition row_damage (g : Grid) (y : N) : option (N * N) :=
  r ← damage g !! N.to_nat y; if dirty r then Some (lo r, hi r) else None.

(** ** Editing cells *)

Definition put (g : Grid) (x y : N) (c : Cell) : Grid :=
  with_lines g (alter (fun l => with_cells l (<[N.to_nat x := c]> (cells l))) (N.to_nat y) (lines g)).

Definition set (g : Grid) (x y : N) (c : Cell) : Grid :=
  if (g_width g <=? x) || (g_height g <=? y) then g
  else if decide (peek g x y = c) then g
  else mark_damage (put g x y c) x y.

Definition clear_glyph_at (g : Grid) (x y : N) (blank : Cell) : Grid :=
  if (g_width g <=? x) || (g_height g <=? y) then g
  else
    let cell := peek g x y in
    if is_continuation cell && (0 <? x) then set (set g (x - 1) y blank) x y blank
    else
      let g := set g x y blank in
      if (width cell =? 2) && (x +16 1 <? g_width g) then set g (x +16 1) y blank else g.

(** The [while] of [erase_cells]; each round advances by a column at least. *)
Fixpoint erase_loop (fuel : nat) (g : Grid) (y x to : N) (blank : Cell) : Grid :=
  match fuel with
  | O => g
  | S fuel =>
      if x <? to then
        let w := N.max (display_width (peek g x y)) 1 in
        erase_loop fuel (clear_glyph_at g x y blank) y (x +16 w) to blank
      else g
  end.

Definition erase_cells (g : Grid) (y from to : N) (blank : Cell) : Grid :=
  if g_height g <=? y then g
  else
    let x := N.min from (g_width g) in
    let to := N.min to (g_width g) in
    erase_loop (N.to_nat (to - x)) g y x to blank.

Definition repair_cell (y : N) (blank : Cell) (g : Grid) (x : N) : Grid :=
  let cell := peek g x y in
  if is_continuation cell then
    if (0 <? x) && (width (peek g (x - 1) y) =? 2) then g else set g x y blank
  else if width cell =? 2 then
    if (x +16 1 <? g_width g) && is_continuation (peek g (x +16 1) y) then g else set g x y blank
  else g.

Definition repair_wide_row (g : Grid) (y : N) (blank : Cell) : Grid :=
  foldl (repair_cell y blank) g (range 0 (g_width g)).

Definition delete_cells (g : Grid) (y from count : N) (blank : Cell) : Grid :=
  if (g_height g <=? y) || (g_width g <=? from) || (count =? 0) then g
  else
    let count := N.min count (g_width g - from) in
    let g := foldl (fun g x =>
      let source := x +16 count in
      set g x y (if source <? g_width g then peek g source y else blank))
      g (range from (g_width g)) in
    repair_wide_row g y blank.

Definition insert_cells (g : Grid) (y from count : N) (blank : Cell) : Grid :=
  if (g_height g <=? y) || (g_width g <=? from) || (count =? 0) then g
  else
    let count := N.min count (g_width g - from) in
    let g := foldl (fun g x =>
      set g x y (if from + count <=? x then peek g (x - count) y else blank))
      g (rev (range from (g_width g))) in
    repair_wide_row g y blank.

(** [Cell { fg, bg, ..Cell::default() }] *)
Definition blank_of (f b : Color) : Cell := {|
  ch := SPACE; fg := f; bg := b; attrs := NONE; width := 1;
  c_underline := 0; cluster := 0; c_hyperlink := 0 |}.

(** The trailing half of a wide glyph. *)
Definition continuation_of (c : Cell) : Cell := {|
  ch := SPACE; fg := fg c; bg := bg c; attrs := attrs c; width := 0;
  c_underline := c_underline c; cluster := 0; c_hyperlink := c_hyperlink c |}.

Definition set_grapheme (g : Grid) (x y : N) (text : str) (cell : Cell) (w : N) : Grid :=
  if (g_width g <=? x) || (g_height g <=? y) then g
  else
    let w := nclamp w 1 2 in
    if (w =? 2) && (g_width g <=? x +16 1) then g
    else
      let blank := blank_of (fg cell) (bg cell) in
      let g := clear_glyph_at g x y blank in
      let g := if w =? 2 then clear_glyph_at g (x +16 1) y blank else g in
      let cell := with_width (with_ch cell (default SPACE (head text))) w in
      let '(g, h) := if (2 <=? length text)%nat then intern g text else (g, 0) in
      let cell := with_cluster cell h in
      let g := set g x y cell in
      if w =? 2 then set g (x +16 1) y (continuation_of cell) else g.

Section Graphemes.
Context `{Unicode}.

Definition grapheme_extends (g : Grid) (c : Cell) (x : char) : bool :=
  if is_continuation c then false
  else grapheme_count (cell_text_owned g c ++ [x]) =? 1.

Definition append_to_grapheme (g : Grid) (x y : N) (c : char) : Grid * bool :=
  if (g_width g <=? x) || (g_height g <=? y) then (g, false)
  else
    let at_lead := is_continuation (peek g x y) && (0 <? x) in
    let lead_x := if at_lead then x - 1 else x in
    let cell := peek g lead_x y in
    if negb (grapheme_extends g cell c) then (g, false)
    else
      let text := cell_text_owned g cell ++ [c] in
      (set_grapheme g lead_x y text cell (nclamp (text_width text) 1 2), true).
End Graphemes.

(** ** Scrolling *)

Definition push_scrollback (g : Grid) (departing : Line) : Grid :=
  if scrollback_limit g =? 0 then g
  else with_history g (keep_last (scrollback_limit g) (scrollback g ++ [departing]))
         (scrollback_limit g).

Definition alloc_line_id (g : Grid) : Grid * N :=
  (with_next_id g (next_line_id g + 1), next_line_id g).

(** [rotate_left(1)], then the last row is clean. *)
Definition rotate_damage (d : list RowDamage) : list RowDamage :=
  match d with [] => [] | _ :: d => d ++ [clean] end.

Definition scroll_up (g : Grid) (blank : Cell) : Grid :=
  if g_height g =? 0 then g
  else match lines g with
  | [] => g
  | departing :: rest =>
      let replacement := blank_line (g_width g) blank (next_line_id g) in
      let g := with_lines (with_next_id g (next_line_id g + 1)) rest in
      let g := push_scrollback g (trim_default_tail departing) in
      let g := with_lines g (lines g ++ [replacement]) in
      let g := with_damage g (rotate_damage (damage g)) (any_damage g)
                 (N.min (sadd u16_max (pending_scroll_up g) 1) (g_height g)) in
      mark_rows_damaged g (g_height g - 1) (g_height g - 1)
  end.

Definition remove_at {A} (i : N) (l : list A) : list A := delete (N.to_nat i) l.
Definition insert_at {A} (i : N) (x : A) (l : list A) : list A :=
  take (N.to_nat i) l ++ x :: drop (N.to_nat i) l.

(** The replacement of a region scroll: [pending_scroll_up] is dropped and the
    region is damaged. *)
Definition replace_line (g : Grid) (at_ : N) (blank : Cell) (top bottom : N) : Grid :=
  let '(g, id) := alloc_line_id g in
  let g := with_lines g (insert_at at_ (blank_line (g_width g) blank id) (lines g)) in
  mark_rows_damaged (with_damage g (damage g) (any_damage g) 0) top bottom.

Definition scroll_region_up_inner (g : Grid) (top bottom : N) (blank : Cell) (history : bool) : Grid :=
  if (g_height g <=? top) || (g_height g <=? bottom) || (bottom <? top) then g
  else if history && (top =? 0) && (bottom =? g_height g - 1) then scroll_up g blank
  else
    let departing := lines g !! N.to_nat top in
    let g := with_lines g (remove_at top (lines g)) in
    let g := match departing with
             | Some l => if history then push_scrollback g l else g
             | None => g
             end in
    replace_line g bottom blank top bottom.

Definition scroll_region_up (g : Grid) (top bottom : N) (blank : Cell) : Grid :=
  scroll_region_up_inner g top bottom blank (top =? 0).

Definition scroll_region_up_discarding (g : Grid) (top bottom : N) (blank : Cell) : Grid :=
  scroll_region_up_inner g top bottom blank false.

Definition scroll_region_down (g : Grid) (top bottom : N) (blank : Cell) : Grid :=
  if (g_height g <=? top) || (g_height g <=? bottom) || (bottom <? top) then g
  else replace_line (with_lines g (remove_at bottom (lines g))) top blank top bottom.
