(* ===== verification/GridInv.v ===== *)
(** * The invariant of the terminal grid

    Well-formedness of the grid of Grid.v: its shape, its damage, the
    identities of its lines and the handles of its cells; every operation
    preserves it. *)

From S2P Require Import Prelude Cell Grid.

(** ** Lists *)

Lemma keep_last_suffix {A} n (l : list A) : exists k, keep_last n l = drop k l.
Proof. by eexists. Qed.

Lemma keep_last_length {A} n (l : list A) : (length (keep_last n l) <= N.to_nat n)%nat.
Proof. unfold keep_last. rewrite length_drop. lia. Qed.

Lemma keep_last_all {A} n (l : list A) : (length l <= N.to_nat n)%nat -> keep_last n l = l.
Proof. intros H. unfold keep_last. by replace (length l - N.to_nat n)%nat with 0%nat by lia. Qed.

Lemma keep_last_sublist {A} n (l : list A) : keep_last n l `sublist_of` l.
Proof. destruct (keep_last_suffix n l) as [k ->]. apply sublist_drop. Qed.

Lemma trim_cells_spec cs : exists k, cs = trim_cells cs ++ replicate k default_cell.
Proof.
  destruct (trim_by_spec (fun c => bool_decide (c = default_cell)) cs) as (k & E & Hk & _).
  exists (length k). unfold trim_cells. rewrite E at 1. f_equal. symmetry. apply replicate_as_Forall.
  split; [done|]. eapply Forall_impl; [exact Hk|]. intros c Hc. symmetry. by apply bool_decide_eq_true in Hc.
Qed.

Lemma trim_cells_length cs : (length (trim_cells cs) <= length cs)%nat.
Proof. apply trim_by_length. Qed.

Lemma length_range a b : length (range a b) = N.to_nat (b - a).
Proof. unfold range. by rewrite length_map, length_seq. Qed.

Lemma elem_of_range a b x : x ∈ range a b <-> a <= x < b.
Proof.
  unfold range. rewrite list_elem_of_fmap. setoid_rewrite elem_of_seq. split.
  - intros (i & -> & Hi). lia.
  - intros H. exists (N.to_nat (x - a)). lia.
Qed.

Lemma map_acc_spec {S A B} (f : S -> A -> S * B) s l :
  length (map_acc f s l).2 = length l.
Proof.
  revert s. induction l as [|a l IH]; intros s; [done|]. cbn [map_acc].
  destruct (f s a) as [s1 b]. specialize (IH s1). destruct (map_acc f s1 l) as [s2 bs].
  cbn [snd length] in *. by rewrite IH.
Qed.

Lemma map_alter_same {A B} (f : A -> B) (h : A -> A) i l :
  (forall a, f (h a) = f a) -> map f (alter h i l) = map f l.
Proof.
  intros H. revert i. induction l as [|a l IH]; intros [|i]; [done|done| |].
  - cbn. by rewrite H.
  - cbn. by rewrite IH.
Qed.

Lemma existsb_alter {A} (f : A -> bool) (h : A -> A) i l :
  (i < length l)%nat -> (forall a, f (h a) = true) -> existsb f (alter h i l) = true.
Proof.
  intros Hi H. apply existsb_exists.
  destruct (lookup_lt_is_Some_2 l i Hi) as [a Ha]. exists (h a). split; [|by rewrite H].
  apply list_elem_of_In. apply list_elem_of_lookup. exists i. by rewrite list_lookup_alter_eq, Ha.
Qed.

(** ** Shape: sizes of the screen and of the history *)

(** A line of history is no longer than the width, and full when it soft-wraps. *)
Definition hist_row (w : nat) (l : Line) : Prop :=
  (length (cells l) <= w)%nat /\ (wrapped l = true -> length (cells l) = w).

Record shape (g : Grid) : Prop := {
  sh_dims : g_width g < U16 /\ g_height g < U16;
  sh_lines : length (lines g) = N.to_nat (g_height g);
  sh_rows : Forall (fun l => length (cells l) = N.to_nat (g_width g)) (lines g);
  sh_history : Forall (hist_row (N.to_nat (g_width g))) (scrollback g);
  sh_limit : (length (scrollback g) <= N.to_nat (scrollback_limit g))%nat }.

(** Damage: one entry per row, ranges within the row, [any_damage] exact. *)
Record damage_wf (g : Grid) : Prop := {
  dm_rows : length (damage g) = N.to_nat (g_height g);
  dm_range : Forall (fun r => dirty r = true -> lo r <= hi r < g_width g) (damage g);
  dm_any : any_damage g = existsb dirty (damage g);
  dm_pending : pending_scroll_up g <= g_height g }.

(** Line identities are fresh and never repeated. *)
Definition ids (g : Grid) : list N := map l_id (scrollback g ++ lines g).

Record ids_wf (g : Grid) : Prop := {
  id_nodup : NoDup (ids g);
  id_fresh : Forall (fun i => i < next_line_id g) (ids g) }.

(** Handles: every cell's handles are in the arenas, and the arenas hold what
    the interning functions look for. *)
Definition link_ok (g : Grid) (h : N) : Prop := h = 0 \/ is_Some (hyperlinks g !! h).

Definition cell_ok (g : Grid) (c : Cell) : Prop :=
  (N.to_nat (cluster c) < length (clusters g))%nat
  /\ (N.to_nat (c_underline c) < length (underline_colors g))%nat
  /\ link_ok g (c_hyperlink c) /\ width c <= 2.

(** A target that OSC 8 accepts. *)
Definition valid_uri (u : str) : bool :=
  negb (bool_decide (u = [])) && (len8 u <=? 8192) && negb (existsb is_control u).

Record arena_wf (g : Grid) : Prop := {
  ar_clusters : head (clusters g) = Some [];
  ar_colors : head (underline_colors g) = Some Default;
  ar_colors_nodup : NoDup (underline_colors g);
  ar_colors_len : (length (underline_colors g) <= 256)%nat;
  ar_links : map_Forall (fun h _ => 0 < h < U32) (hyperlinks g);
  ar_links_inj : forall h k u, hyperlinks g !! h = Some u -> hyperlinks g !! k = Some u -> h = k;
  ar_next : next_hyperlink g < U32;
  ar_cells : Forall (fun l => Forall (cell_ok g) (cells l)) (scrollback g ++ lines g);
  ar_uris : map_Forall (fun _ u => valid_uri u = true) (hyperlinks g);
  ar_texts : [] ∉ tail (clusters g) }.

Record wf (g : Grid) : Prop := {
  wf_shape : shape g; wf_damage : damage_wf g; wf_ids : ids_wf g; wf_arena : arena_wf g }.

#[export] Hint Resolve wf_shape wf_damage wf_ids wf_arena : uniterm.

(** ** In-range accesses *)

Lemma get_some g x y : shape g -> x < g_width g -> y < g_height g -> get g x y = Some (peek g x y).
Proof.
  intros Hs Hx Hy. unfold peek. destruct (get g x y) as [c|] eqn:E; [done|]. exfalso.
  unfold get in E. pose proof (sh_lines g Hs) as Hl. pose proof (sh_rows g Hs) as Hr.
  destruct (lookup_lt_is_Some_2 (lines g) (N.to_nat y)) as [l El]; [lia|]. rewrite El in E. cbn in E.
  rewrite Forall_lookup in Hr. pose proof (Hr _ _ El). apply lookup_ge_None in E. lia.
Qed.

Lemma get_elem g x y c : get g x y = Some c -> exists l, l ∈ lines g /\ c ∈ cells l.
Proof.
  unfold get. intros H. apply bind_Some in H as (l & Hl & Hc).
  exists l. split; by eapply list_elem_of_lookup_2.
Qed.

Lemma cell_ok_default g : arena_wf g -> cell_ok g default_cell.
Proof.
  intros H. pose proof (ar_clusters g H). pose proof (ar_colors g H).
  destruct (clusters g) eqn:E1; [done|]. destruct (underline_colors g) eqn:E2; [done|].
  unfold cell_ok. rewrite E1, E2. cbn. split_and!; [lia|lia|by left|lia].
Qed.

Lemma peek_ok g x y : arena_wf g -> cell_ok g (peek g x y).
Proof.
  intros H. unfold peek. destruct (get g x y) as [c|] eqn:E; [|by apply cell_ok_default].
  apply get_elem in E as (l & Hl & Hc). pose proof (ar_cells g H) as Ha.
  rewrite Forall_forall in Ha. specialize (Ha l ltac:(set_solver)). rewrite Forall_forall in Ha. by apply Ha.
Qed.

(** ** One cell *)

Lemma put_shape g x y c : shape g -> shape (put g x y c).
Proof.
  intros [Hd Hl Hr Hh Hm]. split; cbn [put with_lines lines g_width g_height scrollback scrollback_limit]; [done| | |done|done].
  - by rewrite length_alter.
  - apply Forall_alter; [done|]. intros l _ E. cbn. by rewrite length_insert.
Qed.

Lemma put_ids g x y c : ids (put g x y c) = ids g.
Proof. unfold ids. cbn. rewrite !map_app. f_equal. by apply map_alter_same. Qed.

Lemma put_arena g x y c : arena_wf g -> cell_ok g c -> arena_wf (put g x y c).
Proof.
  intros [? ? ? ? ? ? ? Hc] Hok. split; try done. cbn. apply Forall_app in Hc as [Hc1 Hc2].
  apply Forall_app. split; [done|]. apply Forall_alter; [done|]. intros l _ Hl. cbn.
  by apply Forall_insert.
Qed.

Lemma damage_at_range w x r :
  x < w -> (dirty r = true -> lo r <= hi r < w) ->
  dirty (damage_at x r) = true -> lo (damage_at x r) <= hi (damage_at x r) < w.
Proof. intros Hx Hr _. unfold damage_at. destruct (dirty r); cbn; [specialize (Hr eq_refl)|]; lia. Qed.

Lemma mark_damage_wf g x y :
  x < g_width g -> y < g_height g -> damage_wf g -> damage_wf (mark_damage g x y).
Proof.
  intros Hx Hy [Hr Hg Ha Hp]. split; cbn; [by rewrite length_alter| | |done].
  - apply Forall_alter; [done|]. intros r _. by apply damage_at_range.
  - symmetry. apply existsb_alter; [lia|]. intros r. unfold damage_at. by destruct (dirty r).
Qed.

Lemma set_wf g x y c : wf g -> cell_ok g c -> wf (set g x y c).
Proof.
  intros [Hs Hd Hi Ha] Hc. unfold set.
  destruct (N.leb_spec (g_width g) x); [done|]. destruct (N.leb_spec (g_height g) y); [done|].
  destruct (decide _); [done|]. cbn [orb]. split.
  - destruct (put_shape g x y c Hs). by split.
  - apply mark_damage_wf; [done|done|]. destruct Hd. by split.
  - destruct Hi as [H1 H2]. split; [|change (next_line_id (mark_damage (put g x y c) x y)) with (next_line_id g)];
      change (ids (mark_damage (put g x y c) x y)) with (ids (put g x y c)); by rewrite put_ids.
  - destruct (put_arena g x y c Ha Hc). by split.
Qed.

(** What [set] keeps: the arenas, the sizes, the history. *)
Definition same_arenas (g g' : Grid) : Prop :=
  clusters g' = clusters g /\ underline_colors g' = underline_colors g
  /\ hyperlinks g' = hyperlinks g.

Lemma cell_ok_same g g' c : same_arenas g g' -> cell_ok g c -> cell_ok g' c.
Proof. intros (E1 & E2 & E3). unfold cell_ok, link_ok. by rewrite E1, E2, E3. Qed.

Lemma set_same g x y c : same_arenas g (set g x y c).
Proof. unfold set. destruct (_ || _); [done|]. by destruct (decide _). Qed.

Lemma set_dims g x y c : g_width (set g x y c) = g_width g /\ g_height (set g x y c) = g_height g.
Proof. unfold set. destruct (_ || _); [done|]. by destruct (decide _). Qed.

(** ** Renumbering an arena *)

Section Rehandle.
Context {K : Type} `{Countable K} (wrap : N) (old : list K).
Implicit Types st : gmap K N * list K.

Record renumbering st : Prop := {
  rn_map : forall k h, st.1 !! k = Some h -> h <> 0 /\ st.2 !! N.to_nat h = Some k;
  rn_known : forall i k, st.2 !! S i = Some k -> is_Some (st.1 !! k);
  rn_nodup : NoDup (tail st.2);
  rn_old : forall k, k ∈ tail st.2 -> k ∈ tail old;
  rn_head : st.2 <> [] }.

Lemma renumbering_length st : renumbering st -> old <> [] -> (length st.2 <= length old)%nat.
Proof.
  intros [_ _ Hn Ho Hh] Hold. destruct (st.2) as [|x l]; [done|]. destruct old as [|y o]; [done|].
  cbn in *. apply le_n_S. apply submseteq_length. by apply NoDup_submseteq.
Qed.

(** A handle of the old arena gets one with the same value in the new. *)
Lemma rehandle_spec st h :
  renumbering st -> h <> 0 -> (N.to_nat h < length old)%nat -> N.of_nat (length old) <= wrap ->
  let '(st', h') := rehandle wrap old st h in
  renumbering st' /\ (st.2 `prefix_of` st'.2)
  /\ exists h0, h' = Some h0 /\ h0 <> 0 /\ st'.2 !! N.to_nat h0 = old !! N.to_nat h.
Proof.
  intros Hr Hh Hlt Hw. unfold rehandle.
  destruct (lookup_lt_is_Some_2 old (N.to_nat h) Hlt) as [k Ek]. rewrite Ek.
  assert (Hold : old <> []) by (intros ->; cbn in Hlt; lia).
  pose proof (renumbering_length st Hr Hold) as Hlen.
  destruct (st.1 !! k) as [h'|] eqn:E.
  { destruct (rn_map st Hr k h' E) as [? ?]. split; [done|]. split; [done|]. eauto. }
  pose proof Hr as [Hm Hk Hn Ho Hne].
  assert (k ∈ tail old) as Hk_old.
  { destruct old as [|y o]; [done|]. cbn. apply list_elem_of_lookup. exists (N.to_nat h - 1)%nat.
    destruct (N.to_nat h) as [|i] eqn:Ei; [lia|]. cbn in *. by rewrite Nat.sub_0_r. }
  assert (k ∉ tail st.2) as Hk_new.
  { intros Hin. apply list_elem_of_lookup in Hin as [i Hi].
    destruct (Hk i k) as [? ?]; [|congruence]. by destruct (st.2). }
  assert (tail (st.2 ++ [k]) = tail st.2 ++ [k]) as Et by by destruct (st.2).
  assert (0 < length st.2)%nat as Hpos by (destruct (st.2); cbn; [done|lia]).
  assert (length (st.2 ++ [k]) <= length old)%nat as Hlen'.
  { rewrite length_app. cbn. destruct (st.2) as [|x l]; [done|]. destruct old as [|y o]; [done|].
    cbn in *. assert (length (l ++ [k]) <= length o)%nat; [|rewrite length_app in *; cbn in *; lia].
    apply submseteq_length, NoDup_submseteq.
    - apply NoDup_app. split; [done|]. split; [set_solver|apply NoDup_singleton].
    - set_solver. }
  assert (N.of_nat (length (st.2 ++ [k]) - 1) mod wrap = N.of_nat (length st.2)) as Eh.
  { rewrite length_app in *. cbn in *. rewrite N.mod_small; lia. }
  rewrite Eh. split; [|split; [by apply prefix_app_r|]].
  - split; cbn [fst snd].
    + intros k' h0. destruct (decide (k' = k)) as [->|Hne'].
      * rewrite lookup_insert_eq. intros [= <-]. split; [lia|].
        rewrite Nat2N.id. apply list_lookup_middle. done.
      * rewrite lookup_insert_ne by done. intros Hkh. destruct (Hm k' h0 Hkh). split; [done|].
        by apply lookup_app_l_Some.
    + intros i k' Hi. destruct (decide (k' = k)) as [->|]; [rewrite lookup_insert_eq; eauto|].
      rewrite lookup_insert_ne by done. apply lookup_app_Some in Hi as [Hi|[_ Hi]]; [by eapply Hk|].
      by apply list_lookup_singleton_Some in Hi as [_ ->].
    + rewrite Et. apply NoDup_app. split; [done|]. split; [set_solver|apply NoDup_singleton].
    + intros k' Hin. rewrite Et in Hin. apply elem_of_app in Hin as [Hin|Hin]; [by apply Ho|].
      by apply list_elem_of_singleton in Hin as ->.
    + destruct (st.2); done.
  - eexists. split; [done|]. split; [lia|]. rewrite Nat2N.id. cbn [snd].
    by apply list_lookup_middle.
Qed.
End Rehandle.

(** ** A pass over all cells *)

Section MapAcc.
Context {S : Type} (Inv : S -> Prop) (le : S -> S -> Prop).
Context `{!PreOrder le}.

Lemma map_acc_rel {A B} (f : S -> A -> S * B) (P : A -> Prop) (R : S -> A -> B -> Prop) s l :
  (forall s s' a b, le s s' -> R s a b -> R s' a b) ->
  (forall s a, Inv s -> P a -> Inv (f s a).1 /\ le s (f s a).1 /\ R (f s a).1 a (f s a).2) ->
  Inv s -> Forall P l ->
  let '(s', l') := map_acc f s l in Inv s' /\ le s s' /\ Forall2 (R s') l l'.
Proof.
  intros Hmono Hf. revert s. induction l as [|a l IH]; intros s Hs HP; [by split_and!|].
  apply Forall_cons in HP as [Ha HP]. cbn [map_acc].
  destruct (Hf s a Hs Ha) as (H1 & H2 & H3). destruct (f s a) as [s1 b]. cbn [fst snd] in *.
  specialize (IH s1 H1 HP). destruct (map_acc f s1 l) as [s2 bs]. destruct IH as (H4 & H5 & H6).
  split; [done|]. split; [by etrans|]. constructor; [by eapply Hmono|done].
Qed.

Definition line_rel (R : Cell -> Cell -> Prop) (l l' : Line) : Prop :=
  wrapped l' = wrapped l /\ l_id l' = l_id l /\ Forall2 R (cells l) (cells l').

Lemma pass_rel (f : S -> Cell -> S * Cell) (P : Cell -> Prop) (R : S -> Cell -> Cell -> Prop) s g :
  (forall s s' a b, le s s' -> R s a b -> R s' a b) ->
  (forall s c, Inv s -> P c -> Inv (f s c).1 /\ le s (f s c).1 /\ R (f s c).1 c (f s c).2) ->
  Inv s -> Forall (fun l => Forall P (cells l)) (scrollback g ++ lines g) ->
  let '(s', g') := pass f s g in
  Inv s' /\ le s s'
  /\ (exists sb ls, g' = with_lines (with_history g sb (scrollback_limit g)) ls
      /\ Forall2 (line_rel (R s')) (scrollback g) sb /\ Forall2 (line_rel (R s')) (lines g) ls).
Proof.
  intros Hmono Hf Hs HP. apply Forall_app in HP as [HP1 HP2].
  assert (forall s s' a b, le s s' -> line_rel (R s) a b -> line_rel (R s') a b) as Hmono2.
  { intros s1 s2 a b Hle (? & ? & Hc). split; [done|]. split; [done|].
    eapply Forall2_impl; [exact Hc|]. intros. by eapply Hmono. }
  assert (forall s l, Inv s -> Forall P (cells l) -> Inv (pass_line f s l).1
    /\ le s (pass_line f s l).1 /\ line_rel (R (pass_line f s l).1) l (pass_line f s l).2) as Hf2.
  { intros s1 l H1 Hl. pose proof (map_acc_rel f P R s1 (cells l) Hmono Hf H1 Hl) as H.
    unfold pass_line. destruct (map_acc f s1 (cells l)) as [s2 cs]. cbn. destruct H as (? & ? & ?). done. }
  unfold pass.
  pose proof (map_acc_rel (pass_line f) _ _ s (scrollback g) Hmono2 Hf2 Hs HP1) as H1.
  destruct (map_acc (pass_line f) s (scrollback g)) as [s1 sb]. destruct H1 as (H1 & Hle1 & Hsb).
  pose proof (map_acc_rel (pass_line f) _ _ s1 (lines g) Hmono2 Hf2 H1 HP2) as H2.
  destruct (map_acc (pass_line f) s1 (lines g)) as [s2 ls]. destruct H2 as (H2 & Hle2 & Hls).
  split; [done|]. split; [by etrans|]. exists sb, ls. split; [done|]. split; [|done].
  eapply Forall2_impl; [exact Hsb|]. intros. by eapply Hmono2.
Qed.
End MapAcc.

(** What a cell looks like: its handles resolved. *)
Record look : Set := {
  lk_text : str; lk_fg : Color; lk_bg : Color; lk_attrs : N; lk_width : N;
  lk_underline : Color; lk_link : option str }.

Definition look_of (g : Grid) (c : Cell) : look := {|
  lk_text := cell_text_owned g c; lk_fg := fg c; lk_bg := bg c; lk_attrs := attrs c;
  lk_width := width c; lk_underline := underline_color g (c_underline c);
  lk_link := hyperlink g (c_hyperlink c) |}.

(** [relooks g g']: [g'] is [g] with handles renumbered: same lines, and every
    cell valid and looking the same. *)
Definition relooks (g g' : Grid) : Prop :=
  let R := line_rel (fun c c' => cell_ok g' c' /\ look_of g' c' = look_of g c
                                 /\ (c = default_cell -> c' = default_cell)) in
  Forall2 R (scrollback g) (scrollback g') /\ Forall2 R (lines g) (lines g')
  /\ g_width g' = g_width g /\ g_height g' = g_height g /\ damage g' = damage g
  /\ any_damage g' = any_damage g /\ pending_scroll_up g' = pending_scroll_up g
  /\ scrollback_limit g' = scrollback_limit g /\ next_line_id g' = next_line_id g.

Lemma Forall2_length_eq {A B} (R : A -> B -> Prop) l k : Forall2 R l k -> length k = length l.
Proof. intros H. symmetry. by eapply Forall2_length. Qed.

Lemma line_rel_ids R ls ls' : Forall2 (line_rel R) ls ls' -> map l_id ls' = map l_id ls.
Proof. induction 1 as [|l l' ls ls' (_ & Hi & _) _ IH]; [done|]. cbn. by rewrite Hi, IH. Qed.

Lemma line_rel_rows R (Q : bool -> nat -> Prop) ls ls' :
  Forall2 (line_rel R) ls ls' -> Forall (fun l => Q (wrapped l) (length (cells l))) ls ->
  Forall (fun l => Q (wrapped l) (length (cells l))) ls'.
Proof.
  induction 1 as [|l l' ls ls' (Hw & _ & Hc) _ IH]; intros HQ; [constructor|].
  apply Forall_cons in HQ as [HQ1 HQ2]. constructor; [|by apply IH].
  by rewrite (Forall2_length_eq _ _ _ Hc), Hw.
Qed.

Lemma relooks_shape g g' : relooks g g' -> shape g -> shape g'.
Proof.
  intros (Hsb & Hls & Hw & Hh & _ & _ & _ & Hlim & _) [Hd Hl Hr Hs Hm].
  split; rewrite ?Hw, ?Hh, ?Hlim; [done| | | |].
  - by rewrite (Forall2_length_eq _ _ _ Hls).
  - eapply (line_rel_rows _ (fun _ n => n = _)); [exact Hls|exact Hr].
  - eapply (line_rel_rows _ (fun b n => (n <= _)%nat /\ (b = true -> n = _))); [exact Hsb|exact Hs].
  - by rewrite (Forall2_length_eq _ _ _ Hsb).
Qed.

Lemma relooks_damage g g' : relooks g g' -> damage_wf g -> damage_wf g'.
Proof.
  intros (_ & _ & Hw & Hh & Hd & Ha & Hp & _) [H1 H2 H3 H4].
  split; rewrite ?Hw, ?Hh, ?Hd, ?Ha, ?Hp; done.
Qed.

Lemma relooks_ids g g' : relooks g g' -> ids_wf g -> ids_wf g'.
Proof.
  intros (Hsb & Hls & _ & _ & _ & _ & _ & _ & Hn) [H1 H2].
  assert (ids g' = ids g) as E.
  { unfold ids. rewrite !map_app. by rewrite (line_rel_ids _ _ _ Hsb), (line_rel_ids _ _ _ Hls). }
  split; rewrite ?E, ?Hn; done.
Qed.

Lemma line_rel_forall (R : Cell -> Cell -> Prop) (P : Cell -> Prop) ls ls' :
  Forall2 (line_rel R) ls ls' -> (forall c c', R c c' -> P c') ->
  Forall (fun l => Forall P (cells l)) ls'.
Proof.
  intros H HP. induction H as [|l l' ls ls' (_ & _ & Hc) _ IH]; constructor; [|done].
  induction Hc as [|c c' cs cs' Hcc _ IHc]; constructor; [by eapply HP|done].
Qed.

Lemma relooks_cells g g' :
  relooks g g' -> Forall (fun l => Forall (cell_ok g') (cells l)) (scrollback g' ++ lines g').
Proof.
  intros (Hsb & Hls & _). apply Forall_app.
  split; eapply line_rel_forall; [exact Hsb| |exact Hls|]; by intros ? ? [? _].
Qed.

Lemma line_rel_lookup R ls ls' y l x c :
  Forall2 (line_rel R) ls ls' -> ls !! y = Some l -> cells l !! x = Some c ->
  exists l' c', ls' !! y = Some l' /\ cells l' !! x = Some c' /\ R c c'.
Proof.
  intros H Hl Hc. destruct (Forall2_lookup_l _ _ _ _ _ H Hl) as (l' & Hl' & _ & _ & Hcs).
  destruct (Forall2_lookup_l _ _ _ _ _ Hcs Hc) as (c' & Hc' & HR). eauto 6.
Qed.

(** ** The two compactions *)

Lemma look_cluster g g' c h :
  underline_colors g' = underline_colors g -> hyperlinks g' = hyperlinks g ->
  h <> 0 -> cluster c <> 0 -> clusters g' !! N.to_nat h = clusters g !! N.to_nat (cluster c) ->
  look_of g' (with_cluster c h) = look_of g c.
Proof.
  intros Hu Hl Hh Hc E. unfold look_of, cell_text_owned, cell_text, underline_color, hyperlink.
  rewrite Hu, Hl. cbn. destruct (N.eqb_spec h 0); [done|].
  destruct (N.eqb_spec (cluster c) 0); [done|]. cbn. by rewrite E.
Qed.

Lemma look_underline g g' c h :
  clusters g' = clusters g -> hyperlinks g' = hyperlinks g ->
  underline_colors g' !! N.to_nat h = underline_colors g !! N.to_nat (c_underline c) ->
  look_of g' (with_underline c h) = look_of g c.
Proof.
  intros Hc Hl E. unfold look_of, cell_text_owned, cell_text, underline_color, hyperlink.
  rewrite Hc, Hl. cbn. by rewrite E.
Qed.

Lemma line_rel_impl (R R' : Cell -> Cell -> Prop) ls ls' :
  (forall c c', R c c' -> R' c c') -> Forall2 (line_rel R) ls ls' -> Forall2 (line_rel R') ls ls'.
Proof.
  intros HR H. eapply Forall2_impl; [exact H|]. intros l l' (? & ? & Hc). split; [done|]. split; [done|].
  by eapply Forall2_impl.
Qed.

#[export] Instance prefix_le {K A} : PreOrder (fun s s' : A * list K => s.2 `prefix_of` s'.2).
Proof. split; [by intros s|]. intros s1 s2 s3 H1 H2. by etrans. Qed.

Lemma compact_clusters_spec g :
  arena_wf g -> N.of_nat (length (clusters g)) <= U32 ->
  relooks g (compact_clusters g) /\ arena_wf (compact_clusters g)
  /\ (length (clusters (compact_clusters g)) <= length (clusters g))%nat.
Proof.
  intros Ha Hroom. pose proof (ar_clusters g Ha) as Hcl.
  assert (clusters g <> []) as Hne by by destruct (clusters g).
  pose proof (pass_rel (renumbering (clusters g)) (fun s s' => s.2 `prefix_of` s'.2)
    (compact_cluster (clusters g)) (cell_ok g)
    (fun s c c' => cell_ok g c /\ (N.to_nat (cluster c') < length s.2)%nat
       /\ (c' = c /\ cluster c = 0
           \/ exists h, h <> 0 /\ cluster c <> 0 /\ c' = with_cluster c h
                        /\ s.2 !! N.to_nat h = clusters g !! N.to_nat (cluster c)))
    (∅, [[]]) g) as H.
  unfold compact_clusters.
  destruct (pass (compact_cluster (clusters g)) (∅, [[]]) g) as [[m cl] g'].
  destruct H as (Hr & Hpre & sb & ls & -> & Hsb & Hls).
  - intros s s' c c' Hp (Hok & Hlt & Hc). split; [done|]. split; [apply prefix_length in Hp; lia|].
    destruct Hc as [Hc|(h & ? & ? & ? & Hh)]; [by left|right]. exists h. split_and!; [done|done|done|].
    rewrite <- Hh. destruct Hp as [k ->]. subst c'. cbn in Hlt. by rewrite lookup_app_l.
  - intros s c Hs Hok. pose proof Hok as (Hc & _). unfold compact_cluster.
    assert (0 < length s.2)%nat by (pose proof (rn_head _ _ Hs); destruct (s.2); cbn; [done|lia]).
    destruct (N.eqb_spec (cluster c) 0) as [E|E].
    { cbn. split; [done|]. split; [done|]. split; [done|]. split; [lia|by left]. }
    pose proof (rehandle_spec U32 (clusters g) s (cluster c) Hs E Hc Hroom) as H'.
    destruct (rehandle U32 (clusters g) s (cluster c)) as [s' h'].
    destruct H' as (Hs' & Hp & h0 & -> & Hh0 & Eh). cbn.
    split; [done|]. split; [done|]. split; [done|]. split.
    + apply lookup_lt_is_Some_1. rewrite Eh. by apply lookup_lt_is_Some_2.
    + right. exists h0. done.
  - split; cbn; [by intros ? ? ?%lookup_empty_Some|by intros ? ?|constructor|set_solver|done].
  - eapply Forall_impl; [exact (ar_cells g Ha)|]. done.
  - cbn [snd] in *. set (g2 := with_clusters _ cl _).
    assert (relooks g g2) as Hrl.
    { split; [|split; [|done]]; (eapply line_rel_impl; [|first [exact Hsb|exact Hls]]);
        intros c c' ((_ & Hu & Hl & Hw) & Hlt & [[-> E0]|(h & Hh & Hc & -> & Eh)]).
      1, 3: split; [by split_and!|]; split; [|done];
            unfold look_of, cell_text_owned, cell_text; by rewrite E0.
      all: split; [by split_and!|]; split; [by apply (look_cluster g)|by intros ->]. }
    split; [done|]. split; [|exact (renumbering_length _ _ Hr Hne)].
    destruct Ha. split; try done.
    + cbn. destruct Hpre as [k Hk]. by rewrite Hk.
    + by apply (relooks_cells g).
    + intros Hin. by apply (rn_old _ _ Hr) in Hin.
Qed.

Lemma compact_colors_spec g :
  arena_wf g ->
  relooks g (compact_underline_colors g) /\ arena_wf (compact_underline_colors g).
Proof.
  intros Ha. pose proof (ar_colors g Ha) as Hcl. pose proof (ar_colors_len g Ha) as Hlen.
  assert (underline_colors g <> []) as Hne by by destruct (underline_colors g).
  pose proof (pass_rel (renumbering (underline_colors g)) (fun s s' => s.2 `prefix_of` s'.2)
    (compact_color (underline_colors g)) (cell_ok g)
    (fun s c c' => cell_ok g c /\ (N.to_nat (c_underline c') < length s.2)%nat
       /\ (c' = c /\ c_underline c = 0
           \/ exists h, h <> 0 /\ c_underline c <> 0 /\ c' = with_underline c h
                        /\ s.2 !! N.to_nat h = underline_colors g !! N.to_nat (c_underline c)))
    (∅, [Default]) g) as H.
  unfold compact_underline_colors.
  destruct (pass (compact_color (underline_colors g)) (∅, [Default]) g) as [[m cl] g'].
  destruct H as (Hr & Hpre & sb & ls & -> & Hsb & Hls).
  - intros s s' c c' Hp (Hok & Hlt & Hc). split; [done|]. split; [apply prefix_length in Hp; lia|].
    destruct Hc as [Hc|(h & ? & ? & ? & Hh)]; [by left|right]. exists h. split_and!; [done|done|done|].
    rewrite <- Hh. destruct Hp as [k ->]. subst c'. cbn in Hlt. by rewrite lookup_app_l.
  - intros s c Hs Hok. pose proof Hok as (_ & Hc & _). unfold compact_color.
    assert (0 < length s.2)%nat by (pose proof (rn_head _ _ Hs); destruct (s.2); cbn; [done|lia]).
    destruct (N.eqb_spec (c_underline c) 0) as [E|E].
    { cbn. split; [done|]. split; [done|]. split; [done|]. split; [lia|by left]. }
    pose proof (rehandle_spec 256 (underline_colors g) s (c_underline c) Hs E Hc ltac:(lia)) as H'.
    destruct (rehandle 256 (underline_colors g) s (c_underline c)) as [s' h'].
    destruct H' as (Hs' & Hp & h0 & -> & Hh0 & Eh). cbn.
    split; [done|]. split; [done|]. split; [done|]. split.
    + apply lookup_lt_is_Some_1. rewrite Eh. by apply lookup_lt_is_Some_2.
    + right. exists h0. done.
  - split; cbn; [by intros ? ? ?%lookup_empty_Some|by intros ? ?|constructor|set_solver|done].
  - eapply Forall_impl; [exact (ar_cells g Ha)|]. done.
  - cbn [snd] in *. set (g2 := with_colors _ cl).
    assert (relooks g g2) as Hrl.
    { split; [|split; [|done]]; (eapply line_rel_impl; [|first [exact Hsb|exact Hls]]);
        intros c c' ((Hc & _ & Hl & Hw) & Hlt & [[-> E0]|(h & Hh & Hu & -> & Eh)]).
      1, 3: split; [by split_and!|]; split; [|done];
            destruct Hpre as [k ->]; unfold look_of, underline_color; rewrite E0; cbn;
            by destruct (underline_colors g); [|injection Hcl as ->].
      all: split; [by split_and!|]; split; [by apply (look_underline g)|by intros ->]. }
    split; [done|]. pose proof (renumbering_length _ _ Hr Hne) as Hlen2. cbn in Hlen2, Hpre.
    destruct Ha as [? ? Hnd ? ? ? ? ?]. destruct Hpre as [k Hk]. subst cl.
    split; try done.
    + cbn. constructor; [|exact (rn_nodup _ _ Hr)]. intros Hin.
      apply (rn_old _ _ Hr) in Hin. destruct (underline_colors g); [done|].
      injection Hcl as ->. by apply NoDup_cons in Hnd as [? _].
    + by etrans.
    + by apply (relooks_cells g).
Qed.

(** ** Renumbering composes *)

Lemma line_rel_self (R : Cell -> Cell -> Prop) ls :
  Forall (fun l => Forall (fun c => R c c) (cells l)) ls -> Forall2 (line_rel R) ls ls.
Proof.
  induction 1 as [|l ls Hl _ IH]; constructor; [|done]. split; [done|]. split; [done|].
  induction Hl; by constructor.
Qed.

Lemma line_rel_trans (R S T : Cell -> Cell -> Prop) l1 l2 l3 :
  (forall a b c, R a b -> S b c -> T a c) ->
  Forall2 (line_rel R) l1 l2 -> Forall2 (line_rel S) l2 l3 -> Forall2 (line_rel T) l1 l3.
Proof.
  intros H H12. revert l3. induction H12 as [|a b l1 l2 (W1 & I1 & C1) _ IH]; intros l3 H23;
    inversion H23 as [|? c ? l3' (W2 & I2 & C2) H23']; subst; constructor; [|by apply IH].
  split; [congruence|]. split; [congruence|].
  clear -H C1 C2. revert C2. generalize (cells c). induction C1; intros k C2; inversion C2; subst;
    constructor; eauto.
Qed.

(** [g'] differs from [g] in its arenas only, and every cell keeps its look. *)
Lemma relooks_arenas g g' :
  Forall (fun l => Forall (fun c => cell_ok g' c /\ look_of g' c = look_of g c) (cells l))
    (scrollback g ++ lines g) ->
  lines g' = lines g -> scrollback g' = scrollback g -> g_width g' = g_width g ->
  g_height g' = g_height g -> damage g' = damage g -> any_damage g' = any_damage g ->
  pending_scroll_up g' = pending_scroll_up g -> scrollback_limit g' = scrollback_limit g ->
  next_line_id g' = next_line_id g -> relooks g g'.
Proof.
  intros H El Es Ew Eh Ed Ea Ep Em En. apply Forall_app in H as [H1 H2].
  split; [|split; [|by split_and!]].
  - rewrite Es. apply line_rel_self. eapply Forall_impl; [exact H1|]. intros l Hl.
    eapply Forall_impl; [exact Hl|]. intros c [? ?]. done.
  - rewrite El. apply line_rel_self. eapply Forall_impl; [exact H2|]. intros l Hl.
    eapply Forall_impl; [exact Hl|]. intros c [? ?]. done.
Qed.

Lemma relooks_refl g : arena_wf g -> relooks g g.
Proof.
  intros Ha. apply relooks_arenas; try done. eapply Forall_impl; [exact (ar_cells g Ha)|].
  intros l Hl. eapply Forall_impl; [exact Hl|]. done.
Qed.

Lemma relooks_trans g1 g2 g3 : relooks g1 g2 -> relooks g2 g3 -> relooks g1 g3.
Proof.
  intros (S1 & L1 & ? & ? & ? & ? & ? & ? & ?) (S2 & L2 & ? & ? & ? & ? & ? & ? & ?).
  split; [|split; [|split_and!; congruence]];
    (eapply line_rel_trans; [|first [exact S1|exact L1]|first [exact S2|exact L2]]);
    intros a b c (? & ? & Hab) (? & ? & Hbc); (split; [done|]); (split; [congruence|auto]).
Qed.

Lemma relooks_wf g g' : wf g -> relooks g g' -> arena_wf g' -> wf g'.
Proof.
  intros [Hs Hd Hi _] Hr Ha. split;
    [by eapply relooks_shape|by eapply relooks_damage|by eapply relooks_ids|done].
Qed.

(** ** Interning *)

Definition cells_of (g : Grid) (P : Cell -> Prop) : Prop :=
  Forall (fun l => Forall P (cells l)) (scrollback g ++ lines g).

Lemma cells_of_impl g (P Q : Cell -> Prop) : (forall c, P c -> Q c) -> cells_of g P -> cells_of g Q.
Proof. intros HPQ H. eapply Forall_impl; [exact H|]. intros l Hl. exact (Forall_impl _ _ _ Hl HPQ). Qed.

Lemma push_cluster_spec g t :
  arena_wf g -> t <> [] -> let g' := with_clusters g (clusters g ++ [t]) (cluster_gc_at g) in
  relooks g g' /\ arena_wf g' /\ clusters g' !! length (clusters g) = Some t.
Proof.
  intros Ha Ht g'.
  assert (cells_of g (fun c => cell_ok g' c /\ look_of g' c = look_of g c)) as Hc.
  { eapply cells_of_impl; [|exact (ar_cells g Ha)]. intros c (H1 & H2 & H3 & H4). split.
    - split; [|by split_and!]. subst g'. cbn. rewrite length_app. lia.
    - unfold look_of, cell_text_owned, cell_text. subst g'. cbn.
      by rewrite lookup_app_l by done. }
  assert (relooks g g') as Hr by (by apply relooks_arenas).
  split; [done|]. split; [|by apply list_lookup_middle].
  destruct Ha as [Hh ? ? ? ? ? ? _ ? Htx]. split; try done.
  - subst g'. cbn. by destruct (clusters g).
  - by apply (relooks_cells g).
  - subst g'. cbn. destruct (clusters g); [done|]. cbn in *.
    intros [?|?%list_elem_of_singleton]%elem_of_app; [done|congruence].
Qed.

Lemma recent_cluster_some cl t i : recent_cluster cl t = Some i -> cl !! i = Some t.
Proof.
  unfold recent_cluster. intros H. apply fmap_Some in H as ((j & i' & t') & Hf & ->). cbn.
  apply list_find_Some in Hf as (Hj & Ht & _). cbn in Ht. subst t'.
  apply list_elem_of_lookup_2, elem_of_take in Hj as (k & Hk & _).
  apply list_elem_of_lookup_2, list_elem_of_In, in_rev, list_elem_of_In, list_elem_of_lookup in Hk as [k' Hk].
  rewrite list_lookup_imap in Hk. apply fmap_Some in Hk as (t' & Ht' & [= -> ->]). done.
Qed.

(** A grapheme handle stands for its text, and no cell changes its look. *)
Lemma intern_spec g t :
  arena_wf g -> N.of_nat (length (clusters g)) < U32 -> t <> [] ->
  let '(g', h) := intern g t in
  relooks g g' /\ arena_wf g' /\ clusters g' !! N.to_nat h = Some t.
Proof.
  intros Ha Hroom Ht. unfold intern. destruct (recent_cluster (clusters g) t) as [i|] eqn:E.
  - apply recent_cluster_some in E. split; [by apply relooks_refl|]. split; [done|].
    apply lookup_lt_Some in E as Hi. rewrite N.mod_small by lia. by rewrite Nat2N.id.
  - set (g1 := if _ <=? _ then compact_clusters g else g).
    assert (relooks g g1 /\ arena_wf g1 /\ N.of_nat (length (clusters g1)) < U32) as (Hr & Ha1 & Hroom1).
    { subst g1. destruct (_ <=? _); [|by split; [apply relooks_refl|]].
      destruct (compact_clusters_spec g Ha) as (Hr & Ha1 & Hle); [lia|]. split; [done|]. split; [done|lia]. }
    destruct (push_cluster_spec g1 t Ha1 Ht) as (Hr2 & Ha2 & Hl).
    split; [by eapply relooks_trans|]. split; [done|].
    rewrite length_app, Nat.add_sub. cbn [Nat.add length]. rewrite N.mod_small by done.
    rewrite Nat2N.id. done.
Qed.

Lemma push_color_spec g color :
  arena_wf g -> color <> Default -> color ∉ underline_colors g ->
  let '(g', h) := push_color g color in
  relooks g g' /\ arena_wf g'
  /\ (N.to_nat h < length (underline_colors g'))%nat
  /\ (underline_color g' h = color \/ h = 0 /\ length (underline_colors g) = 256%nat).
Proof.
  intros Ha Hd Hnew. unfold push_color, colors_full.
  pose proof (ar_colors_len g Ha) as Hlen. pose proof (ar_colors g Ha) as Hhd.
  assert (0 < length (underline_colors g))%nat by (destruct (underline_colors g); cbn; [done|lia]).
  destruct (Nat.eqb_spec (length (underline_colors g)) 256) as [E|E].
  { split; [by apply relooks_refl|]. split; [done|]. split; [lia|by right]. }
  rewrite length_app, Nat.add_sub, N.mod_small by (cbn; lia).
  set (g' := with_colors g _).
  assert (cells_of g (fun c => cell_ok g' c /\ look_of g' c = look_of g c)) as Hc.
  { eapply cells_of_impl; [|exact (ar_cells g Ha)]. intros c (H1 & H2 & H3 & H4). split.
    - split; [done|]. split; [|done]. subst g'. cbn. rewrite length_app. lia.
    - unfold look_of, underline_color. subst g'. cbn. by rewrite lookup_app_l by done. }
  assert (relooks g g') as Hr by (by apply relooks_arenas).
  split; [done|]. split; [|split].
  - destruct Ha as [? ? Hnd ? ? ? ? _]. split; try done.
    + subst g'. cbn. by destruct (underline_colors g).
    + subst g'. cbn. apply NoDup_app. split; [done|]. split; [set_solver|apply NoDup_singleton].
    + subst g'. cbn. rewrite length_app. cbn. lia.
    + by apply (relooks_cells g).
  - subst g'. cbn. rewrite length_app. cbn. lia.
  - left. unfold underline_color. subst g'. cbn. rewrite Nat2N.id.
    by rewrite list_lookup_middle.
Qed.

Lemma position_some {A} `{EqDecision A} (x : A) l i : position x l = Some i -> l !! i = Some x.
Proof.
  unfold position. intros H. apply fmap_Some in H as ((j & y) & Hf & ->). cbn.
  apply list_find_Some in Hf as (Hj & -> & _). done.
Qed.

Lemma position_none {A} `{EqDecision A} (x : A) l : position x l = None -> x ∉ l.
Proof.
  unfold position. intros H. apply fmap_None in H. apply list_find_None in H.
  rewrite Forall_forall in H. intros Hin. by apply (H x Hin).
Qed.

(** An underline handle stands for its colour, unless 255 other colours are
    live on the grid; then it stands for the terminal default. *)
Lemma intern_color_spec g color :
  arena_wf g ->
  let '(g', h) := intern_underline_color g color in
  relooks g g' /\ arena_wf g'
  /\ (N.to_nat h < length (underline_colors g'))%nat
  /\ (underline_color g' h = color
      \/ h = 0 /\ length (underline_colors (compact_underline_colors g)) = 256%nat).
Proof.
  intros Ha. unfold intern_underline_color.
  pose proof (ar_colors_len g Ha) as Hlen. pose proof (ar_colors g Ha) as Hhd.
  assert (forall g1, arena_wf g1 -> forall i, position color (underline_colors g1) = Some i ->
    (N.to_nat (N.of_nat i mod 256) < length (underline_colors g1))%nat
    /\ underline_color g1 (N.of_nat i mod 256) = color) as Hpos.
  { intros g1 Ha1 i Hi. apply position_some in Hi. apply lookup_lt_Some in Hi as Hlt.
    pose proof (ar_colors_len g1 Ha1). rewrite N.mod_small by lia. split; [lia|].
    unfold underline_color. by rewrite Nat2N.id, Hi. }
  destruct (decide (color = Default)) as [->|Hd].
  { split; [by apply relooks_refl|]. split; [done|]. unfold underline_color.
    destruct (underline_colors g); [done|]. injection Hhd as ->. cbn. split; [lia|by left]. }
  destruct (position color (underline_colors g)) as [i|] eqn:Ei.
  { split; [by apply relooks_refl|]. split; [done|]. destruct (Hpos g Ha i Ei). auto. }
  apply position_none in Ei. unfold colors_full.
  destruct (Nat.eqb_spec (length (underline_colors g)) 256) as [E|E].
  - destruct (compact_colors_spec g Ha) as [Hr Ha1].
    destruct (position color _) as [i|] eqn:Ei1.
    { split; [done|]. split; [done|]. destruct (Hpos _ Ha1 i Ei1). auto. }
    apply position_none in Ei1. pose proof (push_color_spec _ color Ha1 Hd Ei1) as H.
    destruct (push_color _ color) as [g' h]. destruct H as (Hr2 & Ha2 & Hlt & Hc).
    split; [by eapply relooks_trans|]. auto.
  - pose proof (push_color_spec g color Ha Hd Ei) as H.
    destruct (push_color g color) as [g' h]. destruct H as (Hr2 & Ha2 & Hlt & [Hc|[_ Hc]]); [auto|done].
Qed.

(** *** Hyperlinks *)

Lemma used_links_elem g h :
  h ∈ used_links g <-> h <> 0 /\ exists l c, l ∈ scrollback g ++ lines g /\ c ∈ cells l /\ c_hyperlink c = h.
Proof.
  unfold used_links. rewrite elem_of_list_to_set, list_elem_of_filter. f_equiv.
  rewrite list_elem_of_In, in_concat. setoid_rewrite <- list_elem_of_In. split.
  - intros (x & Hx & Hh). apply list_elem_of_fmap in Hx as (l & -> & Hl).
    apply list_elem_of_fmap in Hh as (c & -> & Hc). eauto 6.
  - intros (l & c & Hl & Hc & <-). exists (map c_hyperlink (cells l)).
    split; [apply list_elem_of_fmap; eauto|by apply list_elem_of_fmap_2].
Qed.

Lemma compact_links_spec g :
  arena_wf g -> relooks g (compact_hyperlinks g) /\ arena_wf (compact_hyperlinks g)
  /\ (size (hyperlinks (compact_hyperlinks g)) <= size (hyperlinks g))%nat
  /\ hyperlinks (compact_hyperlinks g) ⊆ hyperlinks g.
Proof.
  intros Ha.
  assert (hyperlinks (compact_hyperlinks g) ⊆ hyperlinks g) as Hsub by apply map_filter_subseteq.
  assert (cells_of g (fun c => cell_ok (compact_hyperlinks g) c
                               /\ look_of (compact_hyperlinks g) c = look_of g c)) as Hc.
  { apply Forall_forall. intros l Hl. apply Forall_forall. intros c Hcl.
    pose proof (ar_cells g Ha) as Hall. rewrite Forall_forall in Hall. specialize (Hall l Hl).
    rewrite Forall_forall in Hall. destruct (Hall c Hcl) as (H1 & H2 & H3 & H4).
    destruct H3 as [E|[u Hu]].
    - split; [split_and!; [done|done|by left|done]|]. unfold look_of, hyperlink. by rewrite E.
    - assert (c_hyperlink c <> 0) as Hne.
      { intros E. rewrite E in Hu. by apply (ar_links g Ha) in Hu as [? _]. }
      assert (hyperlinks (compact_hyperlinks g) !! c_hyperlink c = Some u) as Hu'.
      { apply map_lookup_filter_Some. split; [done|]. cbn. apply used_links_elem. eauto 6. }
      split; [split_and!; [done|done|by right; eauto|done]|].
      unfold look_of, hyperlink. rewrite Hu, Hu'. done. }
  assert (relooks g (compact_hyperlinks g)) as Hr by (by apply relooks_arenas).
  split; [done|]. split; [|split; [by apply map_subseteq_size|done]].
  destruct Ha as [? ? ? ? Hk Hinj ? _ Hu]. split; try done.
  - intros h u Hh. eapply Hk, lookup_weaken; [exact Hh|done].
  - intros h k u Hh Hku. eapply Hinj; by eapply lookup_weaken.
  - by apply (relooks_cells g).
  - intros h u Hh. eapply Hu, lookup_weaken; [exact Hh|done].
Qed.

(** The candidates of the search run through all of [1 .. 2^32 - 1]. *)
Definition next_candidate (c : N) : N := N.max (wadd U32 c 1) 1.

Lemma candidates c i :
  1 <= c < U32 -> Nat.iter i next_candidate c = 1 + (c - 1 + N.of_nat i) mod (U32 - 1).
Proof.
  intros Hc. induction i as [|i IH].
  - cbn. rewrite N.add_0_r, N.mod_small; unfold U32 in *; lia.
  - change (Nat.iter (S i) next_candidate c) with (next_candidate (Nat.iter i next_candidate c)).
    rewrite IH. unfold next_candidate, wadd.
    set (x := c - 1 + N.of_nat i). replace (c - 1 + N.of_nat (S i)) with (x + 1) by lia.
    rewrite <- (N.Div0.add_mod_idemp_l x 1 (U32 - 1)).
    pose proof (N.mod_lt x (U32 - 1) ltac:(done)). set (r := x mod (U32 - 1)) in *. clearbody r.
    unfold U32 in *. destruct (decide (r = 4294967294)) as [->|]; [done|].
    rewrite !N.mod_small by lia. lia.
Qed.

Lemma candidates_inj c i j :
  1 <= c < U32 -> (i <= j)%nat -> N.of_nat j < U32 - 1 ->
  Nat.iter i next_candidate c = Nat.iter j next_candidate c -> i = j.
Proof.
  intros Hc Hij Hj E. rewrite !candidates in E by done.
  assert ((c - 1 + N.of_nat i) mod (U32 - 1) = (c - 1 + N.of_nat j) mod (U32 - 1)) as E' by lia.
  clear E. pose proof (N.div_mod (c - 1 + N.of_nat i) (U32 - 1) ltac:(done)) as H1.
  pose proof (N.div_mod (c - 1 + N.of_nat j) (U32 - 1) ltac:(done)) as H2. rewrite E' in H1.
  unfold U32 in *. nia.
Qed.

Lemma free_handle_spec fuel links next :
  exists k, (k <= fuel)%nat
    /\ (free_handle fuel links next).1 = Nat.iter k next_candidate (N.max next 1)
    /\ (free_handle fuel links next).2 = next_candidate (free_handle fuel links next).1
    /\ (forall i, (i < k)%nat -> is_Some (links !! Nat.iter i next_candidate (N.max next 1)))
    /\ ((k < fuel)%nat -> links !! (free_handle fuel links next).1 = None).
Proof.
  revert next. induction fuel as [|fuel IH]; intros next.
  { exists 0%nat. cbn. split_and!; [done|done|done|lia|lia]. }
  cbn [free_handle]. destruct (bool_decide_reflect (is_Some (links !! N.max next 1))) as [Hs|Hs].
  - destruct (IH (next_candidate (N.max next 1))) as (k & Hk & E1 & E2 & Hall & Hfree).
    assert (N.max (next_candidate (N.max next 1)) 1 = next_candidate (N.max next 1)) as Em
      by (unfold next_candidate; lia).
    rewrite Em in *. exists (S k). fold (next_candidate (N.max next 1)).
    split; [lia|]. rewrite E1. split; [by rewrite Nat.iter_succ_r|]. split; [by rewrite <- E1|].
    split; [|intros; rewrite <- E1; apply Hfree; lia].
    intros [|i] Hi; [done|]. rewrite Nat.iter_succ_r. apply Hall. lia.
  - exists 0%nat. cbn. split_and!; [lia|done|done|lia|]. intros _. by apply eq_None_not_Some.
Qed.

(** The search finds a free handle within [size + 1] candidates. *)
Lemma free_handle_free links next :
  next < U32 -> N.of_nat (size links) < U32 - 1 ->
  let '(h, n) := free_handle (size links) links next in
  links !! h = None /\ 0 < h < U32 /\ n < U32.
Proof.
  intros Hn Hs. destruct (free_handle_spec (size links) links next) as (k & Hk & E1 & E2 & Hall & Hfree).
  destruct (free_handle (size links) links next) as [h n]. cbn [fst snd] in *.
  assert (1 <= N.max next 1 < U32) as Hc by (unfold U32 in *; lia).
  assert (forall i, 0 < Nat.iter i next_candidate (N.max next 1) < U32) as Hrange.
  { intros i. rewrite candidates by done.
    pose proof (N.mod_lt (N.max next 1 - 1 + N.of_nat i) (U32 - 1) ltac:(done)).
    set (r := _ mod (U32 - 1)) in *. clearbody r. unfold U32 in *. lia. }
  split; [|split; [rewrite E1; apply Hrange|]].
  - destruct (decide (k < size links)%nat) as [Hlt|Hge]; [by apply Hfree|].
    destruct (links !! h) as [u|] eqn:Eh; [|done]. exfalso.
    set (cs := map (fun i => Nat.iter i next_candidate (N.max next 1)) (seq 0 (S k))).
    assert (cs ⊆+ elements (dom links)) as Hsub.
    { apply NoDup_submseteq.
      - apply NoDup_fmap_2_strong; [|apply NoDup_seq].
        intros i j Hi Hj E. apply elem_of_seq in Hi, Hj.
        destruct (le_lt_dec i j); [apply (candidates_inj (N.max next 1)); [done|done|lia|done]|].
        symmetry. apply (candidates_inj (N.max next 1)); [done|lia|lia|done].
      - intros x Hx. apply elem_of_elements, elem_of_dom. apply list_elem_of_fmap in Hx as (i & -> & Hi).
        apply elem_of_seq in Hi. destruct (decide (i = k)) as [->|]; [rewrite <- E1; eauto|apply Hall; lia]. }
    apply submseteq_length in Hsub. unfold cs in Hsub. rewrite length_map, length_seq in Hsub.
    change (length (elements (dom links))) with (size (dom links)) in Hsub.
    rewrite size_dom in Hsub. lia.
  - rewrite E2. unfold next_candidate, wadd, U32 in *.
    pose proof (N.mod_lt (h + 1) 4294967296 ltac:(done)). lia.
Qed.

Lemma push_link_spec g h next u :
  arena_wf g -> hyperlinks g !! h = None -> 0 < h < U32 -> next < U32 ->
  (forall k, hyperlinks g !! k <> Some u) -> valid_uri u = true ->
  let g' := with_links g (<[h := u]> (hyperlinks g)) (hyperlink_gc_at g) next in
  relooks g g' /\ arena_wf g'.
Proof.
  intros Ha Hfree Hh Hn Hnew Hval g'.
  assert (cells_of g (fun c => cell_ok g' c /\ look_of g' c = look_of g c)) as Hc.
  { eapply cells_of_impl; [|exact (ar_cells g Ha)]. intros c (H1 & H2 & H3 & H4).
    assert (link_ok g' (c_hyperlink c) /\ hyperlink g' (c_hyperlink c) = hyperlink g (c_hyperlink c)) as [Hl E].
    { unfold link_ok, hyperlink. subst g'. cbn. destruct H3 as [->|[v Hv]]; [by split; [left|]|].
      destruct (decide (h = c_hyperlink c)) as [->|Hne]; [congruence|].
      rewrite lookup_insert_ne by done. rewrite Hv. split; [right; eauto|done]. }
    split; [by split_and!|]. unfold look_of. by rewrite E. }
  assert (relooks g g') as Hr by (by apply relooks_arenas).
  split; [done|]. destruct Ha as [? ? ? ? Hk Hinj ? _ Hu]. split; try done.
  - intros k v. subst g'. cbn. destruct (decide (h = k)) as [->|].
    + by rewrite lookup_insert_eq.
    + rewrite lookup_insert_ne by done. apply Hk.
  - intros k1 k2 v. subst g'. cbn. rewrite !lookup_insert_Some.
    intros [[<- <-]|[? H1]] [[<- ?]|[? H2]]; [done|by destruct (Hnew k2)|subst v; by destruct (Hnew k1)|].
    by eapply Hinj.
  - by apply (relooks_cells g).
  - subst g'. cbn. by apply map_Forall_insert_2.
Qed.

(** A hyperlink handle stands for its target; targets that OSC 8 does not
    accept have no handle. *)
Lemma intern_link_spec g u :
  arena_wf g -> N.of_nat (size (hyperlinks g)) < U32 - 1 ->
  let '(g', h) := intern_hyperlink g u in
  relooks g g' /\ arena_wf g' /\ link_ok g' h
  /\ hyperlink g' h = if valid_uri u then Some u else None.
Proof.
  intros Ha Hroom. unfold intern_hyperlink.
  assert (bool_decide (u = []) || (8192 <? len8 u) || existsb is_control u = negb (valid_uri u)) as ->.
  { unfold valid_uri. rewrite N.ltb_antisym.
    by destruct (bool_decide _), (_ <=? _), (existsb is_control u). }
  destruct (valid_uri u) eqn:Hval; cbn [negb]; [|by split_and!; [apply relooks_refl| |left|]].
  destruct (find_entry _ (hyperlinks g)) as [[h v]|] eqn:Ef.
  { apply find_entry_some in Ef as (Hh & Hv). unfold str_eqb in Hv. cbn in Hv.
    apply bool_decide_eq_true in Hv as ->. split; [by apply relooks_refl|]. split; [done|].
    split; [right; eauto|]. unfold hyperlink. apply (ar_links g Ha) in Hh as Hr. cbn in Hr.
    destruct (N.eqb_spec h 0); [lia|done]. }
  set (g1 := if _ <=? _ then compact_hyperlinks g else g).
  assert (relooks g g1 /\ arena_wf g1 /\ N.of_nat (size (hyperlinks g1)) < U32 - 1
          /\ hyperlinks g1 ⊆ hyperlinks g) as (Hr & Ha1 & Hroom1 & Hsub).
  { subst g1. destruct (_ <=? _); [|by split; [apply relooks_refl|]].
    destruct (compact_links_spec g Ha) as (? & ? & ? & ?). split_and!; [done|done|lia|done]. }
  pose proof (free_handle_free (hyperlinks g1) (next_hyperlink g1) (ar_next g1 Ha1) Hroom1) as Hf.
  destruct (free_handle _ _ _) as [h n]. destruct Hf as (Hfree & Hh & Hn).
  destruct (push_link_spec g1 h n u Ha1 Hfree Hh Hn) as [Hr2 Ha2].
  { intros k Hk. pose proof (proj1 (find_entry_none _ _) Ef k u (lookup_weaken _ _ _ _ Hk Hsub)) as E.
    unfold str_eqb in E. cbn in E. by rewrite bool_decide_eq_true_2 in E. }
  { done. }
  split; [by eapply relooks_trans|]. split; [done|]. unfold link_ok, hyperlink. cbn.
  rewrite lookup_insert_eq. split; [right; eauto|]. by destruct (N.eqb_spec h 0); [lia|].
Qed.
