(* ===== verification/GridEdit.v ===== *)
(** * Editing the grid

    Every editing operation of Grid.v is a sequence of cell assignments, with
    at most one grapheme interned: what [set] and [intern] preserve, all of
    them preserve. *)

From S2P Require Import Prelude Cell Grid GridInv.

(** ** Sequences of assignments *)

Inductive sets (g : Grid) : Grid -> Prop :=
| sets_refl : sets g g
| sets_step g' x y c : sets g g' -> cell_ok g c -> sets g (set g' x y c).

Lemma sets_same g g' :
  sets g g' -> same_arenas g g' /\ g_width g' = g_width g /\ g_height g' = g_height g.
Proof.
  induction 1 as [|g' x y c _ ((E1 & E2 & E3) & Ew & Eh) _]; [done|].
  destruct (set_same g' x y c) as (F1 & F2 & F3). destruct (set_dims g' x y c) as [Fw Fh].
  unfold same_arenas. by rewrite F1, F2, F3, Fw, Fh.
Qed.

Lemma sets_ok g g' c : sets g g' -> cell_ok g c -> cell_ok g' c.
Proof. intros H. apply cell_ok_same. by apply sets_same. Qed.

Lemma sets_ok_r g g' c : sets g g' -> cell_ok g' c -> cell_ok g c.
Proof.
  intros H. destruct (sets_same g g' H) as [(E1 & E2 & E3) _]. apply cell_ok_same. by split_and!.
Qed.

Lemma sets_wf g g' : wf g -> sets g g' -> wf g'.
Proof. intros Hw. induction 1; [done|]. apply set_wf; [done|]. by eapply sets_ok. Qed.

Lemma sets_trans g1 g2 g3 : sets g1 g2 -> sets g2 g3 -> sets g1 g3.
Proof.
  intros H12. induction 1 as [|g' x y c _ IH Hc]; [done|]. apply sets_step; [done|].
  exact (sets_ok_r _ _ _ H12 Hc).
Qed.

Lemma sets_one g x y c : cell_ok g c -> sets g (set g x y c).
Proof. apply sets_step, sets_refl. Qed.

#[export] Hint Resolve sets_refl sets_one : uniterm.

Lemma clear_glyph_sets g x y blank : cell_ok g blank -> sets g (clear_glyph_at g x y blank).
Proof.
  intros Hb. unfold clear_glyph_at. destruct (_ || _); [apply sets_refl|].
  destruct (_ && _); [by apply sets_step; [apply sets_one|]|].
  destruct (_ && _); [by apply sets_step; [apply sets_one|]|by apply sets_one].
Qed.

Lemma erase_loop_sets fuel g y x to blank : cell_ok g blank -> sets g (erase_loop fuel g y x to blank).
Proof.
  revert g x. induction fuel as [|fuel IH]; intros g x Hb; [apply sets_refl|]. cbn [erase_loop].
  destruct (x <? to); [|apply sets_refl].
  pose proof (clear_glyph_sets g x y blank Hb) as H.
  eapply sets_trans; [exact H|]. apply IH. by eapply sets_ok.
Qed.

Lemma erase_sets g y from to blank : cell_ok g blank -> sets g (erase_cells g y from to blank).
Proof. intros Hb. unfold erase_cells. destruct (_ <=? _); [apply sets_refl|by apply erase_loop_sets]. Qed.

Lemma fold_sets {A} (f : Grid -> A -> Grid) g l :
  (forall g' a, sets g g' -> a ∈ l -> sets g' (f g' a)) -> sets g (foldl f g l).
Proof.
  assert (forall g0, sets g g0 -> (forall g' a, sets g g' -> a ∈ l -> sets g' (f g' a)) ->
    sets g (foldl f g0 l)) as H; [|intros; apply H; [apply sets_refl|done]].
  induction l as [|a l IH]; intros g0 H0 Hf; [done|]. cbn. apply IH.
  - eapply sets_trans; [exact H0|]. apply Hf; [done|set_solver].
  - intros g' b Hg' Hb. apply Hf; [done|set_solver].
Qed.

Lemma repair_sets g y blank : cell_ok g blank -> sets g (repair_wide_row g y blank).
Proof.
  intros Hb. apply fold_sets. intros g' x Hg _. unfold repair_cell.
  assert (cell_ok g' blank) by (by eapply sets_ok).
  destruct (is_continuation _); [destruct (_ && _); eauto with uniterm|].
  destruct (_ =? _); [|apply sets_refl]. destruct (_ && _); eauto with uniterm.
Qed.

Lemma shift_sets g y blank (f : Grid -> N -> Cell) l :
  wf g -> (forall g' x, wf g' -> sets g g' -> cell_ok g' (f g' x)) -> cell_ok g blank ->
  sets g (repair_wide_row (foldl (fun g x => set g x y (f g x)) g l) y blank).
Proof.
  intros Hw Hf Hb.
  assert (sets g (foldl (fun g x => set g x y (f g x)) g l)) as H.
  { apply fold_sets. intros g' x Hg _. apply sets_one, Hf; [by eapply sets_wf|done]. }
  eapply sets_trans; [exact H|]. apply repair_sets. by eapply sets_ok.
Qed.

Lemma delete_sets g y from count blank :
  wf g -> cell_ok g blank -> sets g (delete_cells g y from count blank).
Proof.
  intros Hw Hb. unfold delete_cells. destruct (_ || _ || _); [apply sets_refl|].
  apply (shift_sets g y blank (fun g' x => if _ <? g_width g' then peek g' _ y else blank)); [done| |done].
  intros g' x Hw' Hg. destruct (_ <? _); [apply peek_ok; eauto with uniterm|by eapply sets_ok].
Qed.

Lemma insert_sets g y from count blank :
  wf g -> cell_ok g blank -> sets g (insert_cells g y from count blank).
Proof.
  intros Hw Hb. unfold insert_cells. destruct (_ || _ || _); [apply sets_refl|].
  apply (shift_sets g y blank (fun g' x => if _ <=? x then peek g' _ y else blank)); [done| |done].
  intros g' x Hw' Hg. destruct (_ <=? _); [apply peek_ok; eauto with uniterm|by eapply sets_ok].
Qed.

(** ** Graphemes *)

Lemma intern_others g t :
  underline_colors (intern g t).1 = underline_colors g /\ hyperlinks (intern g t).1 = hyperlinks g.
Proof.
  unfold intern. destruct (recent_cluster _ _); [done|]. cbn.
  destruct (_ <=? _); [|done]. unfold compact_clusters, pass.
  destruct (map_acc _ _ (scrollback g)) as [s1 sb]. destruct (map_acc _ s1 (lines g)) as [[m cl] ls]. done.
Qed.

(** A cell whose handles, the grapheme aside, are the grid's. *)
Definition style_ok (g : Grid) (c : Cell) : Prop :=
  (N.to_nat (c_underline c) < length (underline_colors g))%nat /\ link_ok g (c_hyperlink c).

Lemma style_ok_same g g' c :
  underline_colors g' = underline_colors g -> hyperlinks g' = hyperlinks g ->
  style_ok g c -> style_ok g' c.
Proof. intros E1 E2. unfold style_ok, link_ok. by rewrite E1, E2. Qed.

Lemma plain_ok g c : arena_wf g -> cluster c = 0 -> width c <= 2 -> style_ok g c -> cell_ok g c.
Proof.
  intros Ha E Hw [? ?]. split_and!; [|done|done|done]. rewrite E.
  pose proof (ar_clusters g Ha). destruct (clusters g); [done|cbn; lia].
Qed.

Lemma blank_style g f b : arena_wf g -> style_ok g (blank_of f b).
Proof.
  intros Ha. split; [|by left]. pose proof (ar_colors g Ha). destruct (underline_colors g); [done|cbn; lia].
Qed.

Lemma blank_ok g f b : arena_wf g -> cell_ok g (blank_of f b).
Proof. intros Ha. apply plain_ok; [done|done|cbn; lia|by apply blank_style]. Qed.

#[export] Hint Resolve blank_ok peek_ok : uniterm.

Lemma sets_style g g' c : sets g g' -> style_ok g c -> style_ok g' c.
Proof. intros H. destruct (sets_same g g' H) as [(_ & E1 & E2) _]. by apply style_ok_same. Qed.

(** [set_grapheme] is assignments, perhaps an interning, and assignments. *)
Lemma set_grapheme_steps g x y t cell w :
  wf g -> style_ok g cell -> N.of_nat (length (clusters g)) < U32 ->
  exists g1 g2, sets g g1 /\ relooks g1 g2 /\ wf g2
    /\ sets g2 (set_grapheme g x y t cell w) /\ (g2 = g1 \/ t <> [] /\ g2 = (intern g1 t).1).
Proof.
  intros Hw Hc Hroom. unfold set_grapheme.
  assert (relooks g g) as Hrefl by (apply relooks_refl; apply Hw).
  destruct (_ || _); [exists g, g; split_and!; auto using sets_refl|].
  destruct (_ && _); [exists g, g; split_and!; auto using sets_refl|].
  set (g1 := if nclamp w 1 2 =? 2 then _ else _).
  assert (sets g g1) as Hg1.
  { assert (cell_ok g (blank_of (fg cell) (bg cell))) as Hb by eauto with uniterm.
    pose proof (clear_glyph_sets g x y _ Hb) as H1. subst g1. destruct (_ =? _); [|done].
    eapply sets_trans; [exact H1|]. apply clear_glyph_sets. by eapply sets_ok. }
  assert (wf g1) as Hw1 by (by eapply sets_wf).
  assert (N.of_nat (length (clusters g1)) < U32) as Hroom1.
  { destruct (sets_same g g1 Hg1) as [(E & _) _]. by rewrite E. }
  pose proof (intern_spec g1 t (wf_arena g1 Hw1) Hroom1) as Hi.
  destruct (intern_others g1 t) as [Eu El].
  set (p := if (2 <=? length t)%nat then intern g1 t else (g1, 0)).
  assert (relooks g1 p.1 /\ wf p.1 /\ style_ok p.1 cell
          /\ (N.to_nat p.2 < length (clusters p.1))%nat
          /\ (p.1 = g1 \/ t <> [] /\ p.1 = (intern g1 t).1)) as (Hp & Hwp & Hsp & Hlt & Hint).
  { assert (style_ok g1 cell) by (by eapply sets_style). subst p.
    destruct (Nat.leb_spec 2 (length t)) as [H2|H2]; cbn [fst snd].
    - assert (t <> []) as Ht by (intros ->; cbn in H2; lia). specialize (Hi Ht).
      destruct (intern g1 t) as [g2 h]. destruct Hi as (Hr & Ha2 & Hl). cbn [fst] in *.
      split; [done|]. split; [by eapply relooks_wf|]. split; [by eapply style_ok_same|].
      split; [by eapply lookup_lt_Some|by right].
    - split; [apply relooks_refl, Hw1|]. split; [done|]. split; [done|]. split; [|by left].
      pose proof (ar_clusters g1 (wf_arena g1 Hw1)). destruct (clusters g1); [done|cbn; lia]. }
  destruct p as [g2 h]. cbn [fst snd] in *. exists g1, g2. split; [done|]. split; [done|]. split; [done|].
  split; [|done].
  destruct Hsp as [Hsu Hsl]. set (lead := with_cluster _ h).
  assert (nclamp w 1 2 <= 2) as Hcl by (pose proof (nclamp_range w 1 2); lia).
  assert (cell_ok g2 lead) as Hlead by (by split_and!).
  destruct (_ =? _); [|by apply sets_one]. apply sets_step; [by apply sets_one|].
  apply plain_ok; [eauto with uniterm|done|cbn; lia|done].
Qed.

Lemma set_grapheme_wf g x y t cell w :
  wf g -> style_ok g cell -> N.of_nat (length (clusters g)) < U32 -> wf (set_grapheme g x y t cell w).
Proof.
  intros Hw Hc Hroom. destruct (set_grapheme_steps g x y t cell w Hw Hc Hroom) as (g1 & g2 & _ & _ & H2 & H3 & _).
  by eapply sets_wf.
Qed.

Lemma peek_style g x y : arena_wf g -> style_ok g (peek g x y).
Proof. intros Ha. destruct (peek_ok g x y Ha) as (_ & ? & ? & _). done. Qed.
