(* ===== verification/GridScroll.v ===== *)
(** * Scrolling keeps the grid well formed

    Rows that leave and enter the screen keep identities unique and the
    history within its limit; the file ends with a concrete grid. *)

From S2P Require Import Prelude Cell Grid GridInv GridEdit.

Lemma submseteq_nodup {A} (l k : list A) : l ⊆+ k -> NoDup k -> NoDup l.
Proof.
  intros Hs Hk. apply submseteq_Permutation in Hs as [m Hm]. rewrite Hm in Hk.
  by apply NoDup_app in Hk as [? _].
Qed.

Lemma Forall_sublist {A} (P : A -> Prop) (l k : list A) : l `sublist_of` k -> Forall P k -> Forall P l.
Proof.
  intros Hs Hk. rewrite Forall_forall in *. intros x Hx. apply Hk.
  eapply elem_of_submseteq; [exact Hx|]. by apply sublist_submseteq.
Qed.

Lemma NoDup_sublist {A} (l k : list A) : l `sublist_of` k -> NoDup k -> NoDup l.
Proof. intros Hs. apply submseteq_nodup. by apply sublist_submseteq. Qed.

(** One line leaves, one fresh line enters. *)
Lemma ids_replace g g' kept :
  ids_wf g -> next_line_id g' = next_line_id g + 1 ->
  ids g' ≡ₚ next_line_id g :: kept -> kept ⊆+ ids g -> ids_wf g'.
Proof.
  intros [Hn Hf] Hnext Hp Hk. rewrite Forall_forall in Hf.
  assert (forall i, i ∈ kept -> i < next_line_id g) as Hlt.
  { intros i Hi. apply Hf. eapply elem_of_submseteq; [exact Hi|done]. }
  split.
  - rewrite Hp. constructor; [|by eapply submseteq_nodup]. intros Hin%Hlt. lia.
  - rewrite Hp, Hnext. constructor; [lia|]. apply Forall_forall. intros i Hi%Hlt. lia.
Qed.

Lemma id_blank w c i : l_id (blank_line w c i) = i.
Proof. done. Qed.

Lemma id_trim l : l_id (trim_default_tail l) = l_id l.
Proof. unfold trim_default_tail. by destruct (wrapped l). Qed.

Lemma trim_row l : (length (cells (trim_default_tail l)) <= length (cells l))%nat.
Proof. unfold trim_default_tail. destruct (wrapped l); [done|]. apply trim_cells_length. Qed.

Lemma trim_hist_row w l : hist_row w l -> hist_row w (trim_default_tail l).
Proof.
  intros [H1 H2]. pose proof (trim_row l). split; [lia|]. revert H. unfold trim_default_tail.
  destruct (wrapped l) eqn:E; [auto|]. cbn. by rewrite E.
Qed.

Lemma trim_cells_elem P l : Forall P (cells l) -> Forall P (cells (trim_default_tail l)).
Proof.
  unfold trim_default_tail. destruct (wrapped l); [done|]. cbn. intros H.
  destruct (trim_cells_spec (cells l)) as [k E]. rewrite E in H. by apply Forall_app in H as [? _].
Qed.

(** A grid whose history and screen come from another's: every line is a line
    of [g], perhaps trimmed, or a blank one. *)
Definition line_from (g : Grid) (blank : Cell) (l : Line) : Prop :=
  (exists l0, l0 ∈ scrollback g ++ lines g /\ (l = l0 \/ l = trim_default_tail l0))
  \/ exists i, l = blank_line (g_width g) blank i.

Lemma line_from_cells g blank l :
  arena_wf g -> cell_ok g blank -> line_from g blank l -> Forall (cell_ok g) (cells l).
Proof.
  intros Ha Hb [(l0 & Hl & Hc)|[i ->]].
  - pose proof (ar_cells g Ha) as H. rewrite Forall_forall in H. specialize (H l0 Hl).
    destruct Hc as [->| ->]; [done|by apply trim_cells_elem].
  - cbn. by apply Forall_replicate.
Qed.

Lemma line_from_short g blank l :
  shape g -> line_from g blank l -> hist_row (N.to_nat (g_width g)) l.
Proof.
  intros Hs [(l0 & Hl & Hc)|[i ->]]; [|split; cbn; by rewrite length_replicate].
  assert (hist_row (N.to_nat (g_width g)) l0) as H0.
  { apply elem_of_app in Hl as [Hl|Hl].
    - pose proof (sh_history g Hs) as H. rewrite Forall_forall in H. by apply H.
    - pose proof (sh_rows g Hs) as H. rewrite Forall_forall in H. unfold hist_row. by rewrite (H l0 Hl). }
  destruct Hc as [->| ->]; [done|by apply trim_hist_row].
Qed.

Lemma arena_from g g' blank :
  arena_wf g -> cell_ok g blank -> same_arenas g g' -> next_hyperlink g' = next_hyperlink g ->
  Forall (line_from g blank) (scrollback g' ++ lines g') -> arena_wf g'.
Proof.
  intros Ha Hb Hsame Hn Hl. pose proof Hsame as (E1 & E2 & E3).
  assert (Forall (fun l => Forall (cell_ok g') (cells l)) (scrollback g' ++ lines g')) as Hc.
  { eapply Forall_impl; [exact Hl|]. intros l H. eapply Forall_impl; [by eapply line_from_cells|].
    intros c. by apply cell_ok_same. }
  destruct Ha. split; rewrite ?E1, ?E2, ?E3, ?Hn; done.
Qed.

Lemma existsb_forall_false {A} (f : A -> bool) l : existsb f l = false <-> Forall (fun x => f x = false) l.
Proof.
  split.
  - intros H. apply Forall_forall. intros x Hx. destruct (f x) eqn:E; [|done].
    assert (existsb f l = true); [|congruence]. apply existsb_exists. exists x. split; [|done].
    by apply list_elem_of_In.
  - intros H. destruct (existsb f l) eqn:E; [|done]. apply existsb_exists in E as (x & Hx & Hf).
    rewrite Forall_forall in H. rewrite H in Hf; [done|by apply list_elem_of_In].
Qed.

Definition rows_ok (w : N) (d : list RowDamage) : Prop :=
  Forall (fun r => dirty r = true -> lo r <= hi r < w) d.

Lemma mark_rows_wf g top bottom :
  length (damage g) = N.to_nat (g_height g) -> rows_ok (g_width g) (damage g) ->
  pending_scroll_up g <= g_height g -> top <= bottom -> bottom < g_height g ->
  (g_width g = 0 -> any_damage g = existsb dirty (damage g)) ->
  damage_wf (mark_rows_damaged g top bottom).
Proof.
  intros Hl Hr Hp Htb Hb H0. unfold mark_rows_damaged.
  destruct (N.eqb_spec (g_width g) 0) as [E|E]; [by split; [| |apply H0|]|].
  split; cbn; [by rewrite length_imap| | |done].
  - apply Forall_lookup. intros i r Hi. rewrite list_lookup_imap in Hi.
    apply fmap_Some in Hi as (r0 & Hr0 & ->). destruct (_ && _); [cbn; lia|].
    unfold rows_ok in Hr. rewrite Forall_lookup in Hr. by apply (Hr i).
  - symmetry. apply existsb_exists. exists (full_row g). split; [|done].
    apply list_elem_of_In, list_elem_of_lookup. exists (N.to_nat bottom). rewrite list_lookup_imap.
    destruct (lookup_lt_is_Some_2 (damage g) (N.to_nat bottom)) as [r ->]; [lia|]. cbn.
    rewrite N2Nat.id. destruct (N.leb_spec top bottom), (N.leb_spec bottom bottom); [done|lia..].
Qed.

Lemma mark_all_wf g :
  length (damage g) = N.to_nat (g_height g) ->
  (g_width g = 0 \/ g_height g = 0 -> damage_wf g) -> damage_wf (mark_all_damaged g).
Proof.
  intros Hl H0. unfold mark_all_damaged.
  destruct (N.eqb_spec (g_width g) 0), (N.eqb_spec (g_height g) 0); cbn [orb]; auto.
  split; cbn; [by rewrite length_map| | |lia].
  - apply Forall_forall. intros r Hr. apply list_elem_of_fmap in Hr as (r0 & -> & _). cbn. lia.
  - destruct (damage g); [cbn in Hl; lia|done].
Qed.

Lemma clear_damage_wf g : damage_wf g -> damage_wf (clear_damage g).
Proof.
  intros [H1 H2 H3 H4]. unfold clear_damage. destruct (any_damage g) eqn:E; split; cbn.
  - by rewrite length_map.
  - apply Forall_forall. intros r Hr. by apply list_elem_of_fmap in Hr as (r0 & -> & _).
  - symmetry. apply existsb_forall_false, Forall_forall. intros r Hr.
    by apply list_elem_of_fmap in Hr as (r0 & -> & _).
  - lia.
  - done.
  - done.
  - congruence.
  - lia.
Qed.

(** [push_scrollback] changes the history only, to part of it and the line. *)
Lemma push_scrollback_fields g l :
  exists sb, push_scrollback g l = with_history g sb (scrollback_limit g)
    /\ sb `sublist_of` scrollback g ++ [l]
    /\ ((length (scrollback g) <= N.to_nat (scrollback_limit g))%nat ->
        (length sb <= N.to_nat (scrollback_limit g))%nat).
Proof.
  unfold push_scrollback. destruct (N.eqb_spec (scrollback_limit g) 0).
  - exists (scrollback g). split; [by destruct g|]. split; [|done]. by apply sublist_inserts_r.
  - eexists. split; [done|]. split; [apply keep_last_sublist|]. intros _. apply keep_last_length.
Qed.

(** A scroll: [kept] stay on the screen around a fresh line, [sb] is the
    history, and the damage is well formed. *)
Lemma scroll_wf g g' sb kept i blank :
  wf g -> cell_ok g blank ->
  (exists d, g' = with_damage (with_lines (with_history (with_next_id g (next_line_id g + 1)) sb
                (scrollback_limit g))
                (insert_at i (blank_line (g_width g) blank (next_line_id g)) kept))
                d (any_damage g') (pending_scroll_up g')) ->
  damage_wf g' ->
  map l_id (sb ++ kept) ⊆+ ids g ->
  Forall (line_from g blank) sb -> (length sb <= N.to_nat (scrollback_limit g))%nat ->
  kept ⊆+ lines g -> S (length kept) = N.to_nat (g_height g) ->
  wf g'.
Proof.
  intros Hw Hb [d E] Hd Hids Hsb Hlim Hk Hlen. pose proof Hw as [Hs _ Hi Ha].
  assert (lines g' = insert_at i (blank_line (g_width g) blank (next_line_id g)) kept) as El by by rewrite E.
  assert (scrollback g' = sb) as Es by by rewrite E.
  assert (lines g' ≡ₚ blank_line (g_width g) blank (next_line_id g) :: kept) as Ep.
  { rewrite El. unfold insert_at. rewrite <- Permutation_middle. f_equiv. by rewrite take_drop. }
  assert (Forall (line_from g blank) kept) as Hkf.
  { apply Forall_forall. intros l Hl. left. exists l. split; [|by left].
    apply elem_of_app. right. by eapply elem_of_submseteq. }
  split; [|done| |].
  - destruct Hs as [Hdim Hl Hr Hh Hm]. split; [by rewrite E|..].
    + rewrite El. unfold insert_at. rewrite length_app. cbn. rewrite length_take, length_drop.
      rewrite E. cbn. lia.
    + rewrite Ep. replace (g_width g') with (g_width g) by by rewrite E. constructor.
      * cbn. by rewrite length_replicate.
      * apply Forall_forall. intros l Hl'. rewrite Forall_forall in Hr. apply Hr. by eapply elem_of_submseteq.
    + rewrite Es. replace (g_width g') with (g_width g) by by rewrite E.
      eapply Forall_impl; [exact Hsb|]. intros l. apply line_from_short. by destruct Hw.
    + rewrite Es. by replace (scrollback_limit g') with (scrollback_limit g) by by rewrite E.
  - apply (ids_replace g g' (map l_id (sb ++ kept))); [done|by rewrite E| |done].
    unfold ids. rewrite Es, !map_app, Ep. cbn. by rewrite <- Permutation_middle.
  - apply (arena_from g g' blank); [done|done|by rewrite E|by rewrite E|].
    rewrite Es. apply Forall_app. split; [done|]. rewrite Ep. constructor; [|done]. right. eauto.
Qed.

Lemma line_from_app g blank ls :
  (forall l, l ∈ ls -> exists l0, l0 ∈ scrollback g ++ lines g /\ (l = l0 \/ l = trim_default_tail l0)) ->
  Forall (line_from g blank) ls.
Proof. intros H. apply Forall_forall. intros l Hl. left. by apply H. Qed.

Lemma rotate_rows_ok w d : rows_ok w d -> rows_ok w (rotate_damage d).
Proof.
  intros H. destruct d as [|r d]; [done|]. apply Forall_cons in H as [_ H]. cbn.
  apply Forall_app. split; [done|]. by constructor.
Qed.

Lemma rotate_length d : length (rotate_damage d) = length d.
Proof. destruct d; [done|]. cbn. rewrite length_app. cbn. lia. Qed.

Lemma rows_ok_zero d : rows_ok 0 d -> existsb dirty d = false.
Proof.
  intros H. apply existsb_forall_false. eapply Forall_impl; [exact H|]. intros r Hr. cbn in Hr.
  destruct (dirty r); [specialize (Hr eq_refl); lia|done].
Qed.

Lemma scroll_up_wf g blank : wf g -> cell_ok g blank -> wf (scroll_up g blank).
Proof.
  intros Hw Hb. unfold scroll_up. destruct (N.eqb_spec (g_height g) 0); [done|].
  destruct (lines g) as [|l rest] eqn:El; [done|].
  pose proof Hw as [Hs [Dl Dr Da Dp] Hi Ha]. pose proof (sh_lines g Hs) as Hlen. rewrite El in Hlen. cbn in Hlen.
  destruct (push_scrollback_fields (with_lines (with_next_id g (next_line_id g + 1)) rest)
    (trim_default_tail l)) as (sb & Esb & Hsub & Hlim).
  cbn [with_lines with_next_id scrollback scrollback_limit] in *. rewrite Esb. cbn zeta.
  set (g1 := with_damage _ _ _ _).
  assert (g_width g1 = g_width g /\ g_height g1 = g_height g /\ damage g1 = rotate_damage (damage g)) as (Ew & Eh & Ed) by (split_and!; reflexivity).
  assert (damage_wf (mark_rows_damaged g1 (g_height g1 - 1) (g_height g1 - 1))) as Hd.
  { apply mark_rows_wf; rewrite ?Ed, ?Eh, ?Ew; [by rewrite rotate_length|by apply rotate_rows_ok| |lia|lia|].
    - cbn. lia.
    - intros E0. rewrite E0 in Dr. change (any_damage g = existsb dirty (rotate_damage (damage g))).
      rewrite Da, !rows_ok_zero; [done|by apply rotate_rows_ok|done]. }
  change (g_height g1) with (g_height g) in *.
  eapply (scroll_wf g _ sb rest (g_height g - 1) blank Hw Hb); [|exact Hd| | | | |].
  - assert (insert_at (g_height g - 1) (blank_line (g_width g) blank (next_line_id g)) rest
            = rest ++ [blank_line (g_width g) blank (next_line_id g)]) as Ei.
    { unfold insert_at. rewrite take_ge, drop_ge by lia. done. }
    rewrite Ei. unfold mark_rows_damaged. destruct (_ =? 0); by eexists.
  - unfold ids. rewrite El, !map_app. cbn.
    transitivity (map l_id (scrollback g ++ [trim_default_tail l]) ++ map l_id rest).
    + apply sublist_submseteq, sublist_app; [|done]. by apply fmap_sublist.
    + rewrite map_app. cbn. rewrite id_trim, <- app_assoc. done.
  - apply line_from_app. intros l' Hl'.
    eapply elem_of_submseteq in Hl'; [|by apply sublist_submseteq].
    rewrite El. apply elem_of_app in Hl' as [Hl'|Hl']; [exists l'; set_solver|].
    apply list_elem_of_singleton in Hl' as ->. exists l. set_solver.
  - apply Hlim. by destruct Hs.
  - rewrite El. by apply submseteq_cons.
  - lia.
Qed.

Lemma delete_perm {A} (l : list A) i x : l !! i = Some x -> l ≡ₚ x :: delete i l.
Proof. intros H. by apply delete_Permutation. Qed.

(** A line of the region leaves, to the history [sb] or for good. *)
Lemma replace_line_wf g sb i x j blank top bottom :
  wf g -> cell_ok g blank -> lines g !! N.to_nat i = Some x ->
  sb `sublist_of` scrollback g ++ [x] -> (length sb <= N.to_nat (scrollback_limit g))%nat ->
  top <= bottom -> bottom < g_height g ->
  wf (replace_line (with_lines (with_history g sb (scrollback_limit g)) (remove_at i (lines g)))
        j blank top bottom).
Proof.
  intros Hw Hb Hx Hsb Hlim Htb Hbot. pose proof Hw as [Hs [Dl Dr Da Dp] Hi Ha].
  pose proof (delete_perm _ _ _ Hx) as Hperm. pose proof (sh_lines g Hs) as Hlen.
  unfold replace_line, alloc_line_id. cbn zeta beta iota. set (g1 := with_damage _ _ _ 0).
  assert (damage_wf (mark_rows_damaged g1 top bottom)) as Hd.
  { apply mark_rows_wf; [done|done|cbn; lia|done|done|]. intros _. exact Da. }
  eapply (scroll_wf g _ sb (remove_at i (lines g)) j blank Hw Hb); [|exact Hd| | |done| |].
  - unfold mark_rows_damaged. destruct (_ =? 0); by eexists.
  - unfold ids. rewrite !map_app.
    transitivity (map l_id (scrollback g ++ [x]) ++ map l_id (remove_at i (lines g))).
    + apply sublist_submseteq, sublist_app; [|done]. by apply fmap_sublist.
    + rewrite map_app, <- app_assoc. apply submseteq_app; [done|].
      change (map l_id [x] ++ map l_id (remove_at i (lines g)) ⊆+ map l_id (lines g)).
      rewrite <- map_app. rewrite Hperm at 2. done.
  - apply line_from_app. intros l' Hl'. eapply elem_of_submseteq in Hl'; [|by apply sublist_submseteq].
    exists l'. split; [|by left]. apply elem_of_app in Hl' as [Hl'|Hl']; [set_solver|].
    apply list_elem_of_singleton in Hl' as ->. apply elem_of_app. right. by eapply list_elem_of_lookup_2.
  - rewrite Hperm at 2. by apply submseteq_cons.
  - unfold remove_at. rewrite length_delete by eauto. apply lookup_lt_Some in Hx. lia.
Qed.

Lemma with_history_same g : with_history g (scrollback g) (scrollback_limit g) = g.
Proof. by destruct g. Qed.

Lemma line_at g y : shape g -> y < g_height g -> exists l, lines g !! N.to_nat y = Some l.
Proof. intros Hs Hy. apply lookup_lt_is_Some_2. rewrite (sh_lines g Hs). lia. Qed.

Lemma scroll_region_up_wf g top bottom blank history :
  wf g -> cell_ok g blank -> wf (scroll_region_up_inner g top bottom blank history).
Proof.
  intros Hw Hb. unfold scroll_region_up_inner.
  destruct (N.leb_spec (g_height g) top); [done|]. destruct (N.leb_spec (g_height g) bottom); [done|].
  destruct (N.ltb_spec bottom top); [done|]. cbn [orb].
  destruct (_ && _ && _); [by apply scroll_up_wf|].
  destruct (line_at g top) as [l Hl]; [eauto with uniterm|done|]. rewrite Hl.
  pose proof (sh_limit g (wf_shape g Hw)) as Hlim0.
  destruct history.
  - destruct (push_scrollback_fields (with_lines g (remove_at top (lines g))) l) as (sb & E & Hsub & Hlim).
    rewrite E. apply (replace_line_wf g sb top l); auto.
  - rewrite <- (with_history_same g) at 1. apply (replace_line_wf g _ top l); auto.
    by apply sublist_inserts_r.
Qed.

Lemma scroll_region_down_wf g top bottom blank :
  wf g -> cell_ok g blank -> wf (scroll_region_down g top bottom blank).
Proof.
  intros Hw Hb. unfold scroll_region_down.
  destruct (N.leb_spec (g_height g) top); [done|]. destruct (N.leb_spec (g_height g) bottom); [done|].
  destruct (N.ltb_spec bottom top); [done|]. cbn [orb].
  destruct (line_at g bottom) as [l Hl]; [eauto with uniterm|done|].
  pose proof (sh_limit g (wf_shape g Hw)) as Hlim0.
  rewrite <- (with_history_same g) at 1. apply (replace_line_wf g _ bottom l); auto.
  by apply sublist_inserts_r.
Qed.

(** ** The other operations *)

Lemma set_row_wrapped_wf g y w : wf g -> wf (set_row_wrapped g y w).
Proof.
  intros [[Hd Hl Hr Hh Hm] [D1 D2 D3 D4] [I1 I2] [A1 A2 A3 A4 A5 A6 A7 A8]].
  assert (ids (set_row_wrapped g y w) = ids g) as Ei.
  { unfold ids. cbn. rewrite !map_app. f_equal. by apply map_alter_same. }
  split; split; try done; rewrite ?Ei; try done; cbn.
  - by rewrite length_alter.
  - apply Forall_alter; [done|]. by intros l _ ?.
  - apply Forall_app in A8 as [? ?]. apply Forall_app. split; [done|].
    apply Forall_alter; [done|]. by intros l _ ?.
Qed.

Lemma history_wf g sb limit :
  wf g -> sb `sublist_of` scrollback g -> (length sb <= N.to_nat limit)%nat -> wf (with_history g sb limit).
Proof.
  intros [[Hd Hl Hr Hh Hm] [D1 D2 D3 D4] [I1 I2] [A1 A2 A3 A4 A5 A6 A7 A8]] Hsub Hlim.
  assert (ids (with_history g sb limit) `sublist_of` ids g) as Hi.
  { unfold ids. cbn. apply fmap_sublist. by apply sublist_app. }
  split; split; try done.
  - cbn. by eapply Forall_sublist.
  - by eapply NoDup_sublist.
  - by eapply Forall_sublist.
  - eapply Forall_sublist; [|exact A8]. by apply sublist_app.
Qed.

Lemma clear_damage_grid_wf g : wf g -> wf (clear_damage g).
Proof.
  intros Hw. pose proof (clear_damage_wf g (wf_damage g Hw)) as Hd.
  destruct Hw as [[] _ [] []]. split; [| exact Hd| |]; unfold clear_damage in *; destruct (any_damage g); by split.
Qed.

Lemma mark_all_grid_wf g : wf g -> wf (mark_all_damaged g).
Proof.
  intros Hw. assert (damage_wf (mark_all_damaged g)) as Hd.
  { apply mark_all_wf; [apply Hw|]. intros _. apply Hw. }
  destruct Hw as [[] _ [] []]. split; [|exact Hd| |]; unfold mark_all_damaged in *; destruct (_ || _); by split.
Qed.

Lemma new_grid_wf w h : w < U16 -> h < U16 -> wf (new w h).
Proof.
  intros Hw Hh. unfold new.
  assert (map l_id (map (fun i => blank_line w default_cell (1 + i)) (range 0 h)) = map (fun i => 1 + i) (range 0 h)) as Ei.
  { by rewrite map_map. }
  split; split; cbn [g_width g_height lines damage any_damage pending_scroll_up scrollback scrollback_limit
    clusters hyperlinks underline_colors next_line_id next_hyperlink]; try done.
  - rewrite length_map, length_range. lia.
  - apply Forall_forall. intros l Hl. apply list_elem_of_fmap in Hl as (i & -> & _). cbn. by rewrite length_replicate.
  - cbn [length]. lia.
  - by rewrite length_replicate.
  - by apply Forall_replicate.
  - symmetry. apply existsb_forall_false. by apply Forall_replicate.
  - lia.
  - unfold ids. cbn [scrollback lines app]. rewrite Ei. apply NoDup_fmap_2; [intros ? ?; lia|].
    unfold range. apply NoDup_fmap_2; [intros ? ?; lia|apply NoDup_seq].
  - unfold ids. cbn [scrollback lines app]. rewrite Ei. apply Forall_forall. intros i Hi.
    apply list_elem_of_fmap in Hi as (j & -> & Hj%elem_of_range). lia.
  - apply NoDup_singleton.
  - cbn. lia.
  - apply Forall_forall. intros l Hl. cbn in Hl. apply list_elem_of_fmap in Hl as (i & -> & _).
    cbn. apply Forall_replicate. unfold cell_ok, link_ok. cbn. split_and!; [lia|lia|by left|lia].
  - cbn. apply not_elem_of_nil.
Qed.

(** ** Reading cells *)

Lemma get_put f x y c x' y' :
  shape f -> x < g_width f -> y < g_height f ->
  get (put f x y c) x' y' = if decide (x' = x /\ y' = y) then Some c else get f x' y'.
Proof.
  intros Hs Hx Hy. unfold get. cbn [put with_lines lines].
  destruct (decide (y' = y)) as [->|Hne].
  - destruct (line_at f y Hs Hy) as [l Hl]. rewrite list_lookup_alter_eq, Hl. cbn.
    assert (length (cells l) = N.to_nat (g_width f)) as Hlen.
    { pose proof (sh_rows f Hs) as Hr. rewrite Forall_lookup in Hr. by eapply Hr. }
    destruct (decide (x' = x)) as [->|Hne].
    + rewrite decide_True by done. by rewrite list_lookup_insert_eq by lia.
    + rewrite decide_False by naive_solver. rewrite list_lookup_insert_ne by lia. done.
  - rewrite decide_False by naive_solver. by rewrite list_lookup_alter_ne by lia.
Qed.

Lemma relooks_get f f' x y c :
  relooks f f' -> get f x y = Some c -> exists c', get f' x y = Some c' /\ look_of f' c' = look_of f c.
Proof.
  intros (_ & Hls & _) H. unfold get in *. apply bind_Some in H as (l & Hl & Hc).
  destruct (line_rel_lookup _ _ _ _ _ _ _ Hls Hl Hc) as (l' & c' & Hl' & Hc' & _ & E & _).
  exists c'. rewrite Hl'. cbn. by split.
Qed.

(** A small grid for examples: an accented letter and a wide glyph, scrolled up
    by a row. *)
Definition sample_grid : Grid :=
  scroll_up (set_grapheme (set_grapheme (new 4 2) 0 0 [97; 769] default_cell 1) 1 0 [19968] default_cell 2) default_cell.

Lemma sample_grid_wf : wf sample_grid.
Proof.
  assert (wf (new 4 2)) as H0 by by apply new_grid_wf.
  assert (forall g, wf g -> style_ok g default_cell) as Hd.
  { intros g Hg. apply (blank_style g Default Default), Hg. }
  assert (wf (set_grapheme (new 4 2) 0 0 [97; 769] default_cell 1)) as H1
    by (apply set_grapheme_wf; [done|by apply Hd|done]).
  assert (wf (set_grapheme (set_grapheme (new 4 2) 0 0 [97; 769] default_cell 1) 1 0 [19968] default_cell 2)) as H2
    by (apply set_grapheme_wf; [done|by apply Hd|vm_compute; done]).
  apply scroll_up_wf; [done|]. apply cell_ok_default, H2.
Qed.
