(* ===== verification/GridRoom.v ===== *)
(** * Room in the arenas

    The grapheme and hyperlink arenas of Grid.v are compacted before they grow
    past twice what the cells use, so handles of thirty-two bits are enough as
    long as the grid retains fewer than 2^31 cells.  This file proves the bound
    and that every operation keeps it. *)

From S2P Require Import Prelude Cell Grid GridInv GridEdit GridScroll.

(** The most cells a grid may retain, history and screen together. *)
Definition CELLS_MAX : N := 2147483646.

Definition capacity (g : Grid) : Prop := (scrollback_limit g + g_height g) * g_width g <= CELLS_MAX.

Record roomy (g : Grid) : Prop := {
  rm_clusters : N.of_nat (length (clusters g)) <= cluster_gc_at g;
  rm_cluster_gc : cluster_gc_at g < U32;
  rm_links : N.of_nat (size (hyperlinks g)) <= hyperlink_gc_at g;
  rm_link_gc : hyperlink_gc_at g < U32 - 1 }.

Lemma roomy_new w h : roomy (new w h).
Proof. split; cbn; [lia|unfold U32; lia|rewrite map_size_empty; lia|unfold U32; lia]. Qed.

Lemma roomy_same g g' :
  clusters g' = clusters g -> cluster_gc_at g' = cluster_gc_at g -> hyperlinks g' = hyperlinks g ->
  hyperlink_gc_at g' = hyperlink_gc_at g -> roomy g -> roomy g'.
Proof. intros E1 E2 E3 E4 []. split; by rewrite ?E1, ?E2, ?E3, ?E4. Qed.

Lemma roomy_clusters g : roomy g -> N.of_nat (length (clusters g)) < U32.
Proof. intros []. lia. Qed.

Lemma roomy_links g : roomy g -> N.of_nat (size (hyperlinks g)) < U32 - 1.
Proof. intros []. lia. Qed.

#[export] Hint Resolve roomy_new roomy_clusters roomy_links : uniterm.

(** ** Counting cells *)

Lemma sum_list_le (l : list nat) n : Forall (fun x => (x <= n)%nat) l -> (sum_list l <= length l * n)%nat.
Proof. induction 1; cbn; lia. Qed.

Lemma retained_bound g : shape g -> capacity g -> N.of_nat (retained_cell_count g) <= CELLS_MAX.
Proof.
  intros [_ Hl Hr Hh Hm] Hc. unfold capacity in Hc. unfold retained_cell_count.
  assert (sum_list (map (fun l => length (cells l)) (scrollback g ++ lines g))
          <= length (scrollback g ++ lines g) * N.to_nat (g_width g))%nat as H.
  { rewrite <- (length_map (fun l => length (cells l))). apply sum_list_le.
    apply Forall_forall. intros n Hn. apply list_elem_of_fmap in Hn as (l & -> & Hin).
    apply elem_of_app in Hin as [Hin|Hin].
    - rewrite Forall_forall in Hh. by apply Hh.
    - rewrite Forall_forall in Hr. rewrite (Hr l Hin). lia. }
  rewrite length_app in H. nia.
Qed.

Section Count.
Context {S : Type} (size_ : S -> nat).

Lemma map_acc_count {A B} (f : S -> A -> S * B) (cost : A -> nat) s l :
  (forall s a, (size_ (f s a).1 <= size_ s + cost a)%nat) ->
  (size_ (map_acc f s l).1 <= size_ s + sum_list (map cost l))%nat.
Proof.
  intros Hf. revert s. induction l as [|a l IH]; intros s; cbn [map_acc]; [cbn; lia|].
  specialize (Hf s a). destruct (f s a) as [s1 b]. specialize (IH s1).
  destruct (map_acc f s1 l) as [s2 bs]. cbn in *. lia.
Qed.

Lemma sum_ones {A} (l : list A) : sum_list (map (fun _ => 1%nat) l) = length l.
Proof. induction l; cbn; lia. Qed.

Lemma pass_count (f : S -> Cell -> S * Cell) s g :
  (forall s c, (size_ (f s c).1 <= size_ s + 1)%nat) ->
  (size_ (pass f s g).1 <= size_ s + retained_cell_count g)%nat.
Proof.
  intros Hf. assert (forall s l, (size_ (pass_line f s l).1 <= size_ s + length (cells l))%nat) as Hl.
  { intros s0 l. unfold pass_line. pose proof (map_acc_count f (fun _ => 1%nat) s0 (cells l) Hf) as H.
    rewrite sum_ones in H. by destruct (map_acc f s0 (cells l)). }
  unfold pass, retained_cell_count. rewrite map_app, sum_list_with_app.
  pose proof (map_acc_count (pass_line f) _ s (scrollback g) Hl) as H1.
  destruct (map_acc (pass_line f) s (scrollback g)) as [s1 sb].
  pose proof (map_acc_count (pass_line f) _ s1 (lines g) Hl) as H2.
  destruct (map_acc (pass_line f) s1 (lines g)) as [s2 ls]. cbn in *. lia.
Qed.
End Count.

Lemma rehandle_count {K} `{Countable K} wrap (old : list K) st h :
  (length (rehandle wrap old st h).1.2 <= length st.2 + 1)%nat.
Proof.
  unfold rehandle. destruct (old !! _) as [k|]; [|cbn; lia]. destruct (st.1 !! k); cbn; [lia|].
  by rewrite length_app.
Qed.

Lemma compact_clusters_count g :
  (length (clusters (compact_clusters g)) <= 1 + retained_cell_count g)%nat.
Proof.
  unfold compact_clusters.
  pose proof (pass_count (fun s : gmap (list N) N * list str => length s.2)
    (compact_cluster (clusters g)) (∅, [[]]) g) as H.
  destruct (pass _ _ g) as [[m cl] g']. cbn in *. etrans; [apply H|lia].
  intros s c. unfold compact_cluster. destruct (_ =? 0); [cbn; lia|].
  pose proof (rehandle_count U32 (clusters g) s (cluster c)).
  by destruct (rehandle U32 (clusters g) s (cluster c)).
Qed.

Lemma list_to_set_count (l : list N) : (size (list_to_set l : gset N) <= length l)%nat.
Proof.
  induction l as [|x l IH]; cbn [list_to_set length]; [by rewrite size_empty|].
  rewrite size_union_alt, size_singleton.
  pose proof (subseteq_size (list_to_set l ∖ {[x]} : gset N) (list_to_set l) ltac:(set_solver)). lia.
Qed.

Lemma used_links_count g : (size (used_links g) <= retained_cell_count g)%nat.
Proof.
  unfold used_links, retained_cell_count.
  etrans; [apply list_to_set_count|]. etrans; [apply length_filter|].
  generalize (scrollback g ++ lines g) as ls. induction ls as [|l ls IH]; [done|].
  cbn. rewrite length_app, length_map. lia.
Qed.

Lemma compact_links_count g :
  (size (hyperlinks (compact_hyperlinks g)) <= retained_cell_count g)%nat.
Proof.
  etrans; [|apply used_links_count]. cbn. rewrite <- size_dom. apply subseteq_size.
  intros h Hh. apply elem_of_dom in Hh as [u Hu]. by apply map_lookup_filter_Some in Hu as [_ ?].
Qed.

(** ** Interning keeps the room *)

Lemma intern_roomy g t : wf g -> capacity g -> roomy g -> roomy (intern g t).1.
Proof.
  intros Hwf Hc Hr. unfold intern. destruct (recent_cluster _ _); [done|]. cbn [fst].
  pose proof (retained_bound g (wf_shape g Hwf) Hc) as Hb. unfold CELLS_MAX in Hb.
  destruct Hr as [R1 R2 R3 R4].
  destruct (N.leb_spec (cluster_gc_at g) (N.of_nat (length (clusters g)))).
  - pose proof (compact_clusters_count g) as Hn.
    assert (cluster_gc_at (compact_clusters g)
            = N.max (N.min (N.of_nat (length (clusters (compact_clusters g))) * 2) u64_max) 4096
      /\ hyperlinks (compact_clusters g) = hyperlinks g
      /\ hyperlink_gc_at (compact_clusters g) = hyperlink_gc_at g) as (E1 & E2 & E3).
    { unfold compact_clusters, pass. destruct (map_acc _ _ (scrollback g)) as [s1 sb].
      by destruct (map_acc _ s1 (lines g)) as [[m cl] ls]. }
    unfold u64_max, U64, U32 in *.
    split; cbn; rewrite ?E1, ?E2, ?E3, ?length_app; cbn; unfold U32; lia.
  - split; cbn; rewrite ?length_app; cbn; unfold U32 in *; lia.
Qed.

Lemma intern_link_roomy g u : wf g -> capacity g -> roomy g -> roomy (intern_hyperlink g u).1.
Proof.
  intros Hwf Hc Hr. unfold intern_hyperlink. destruct (_ || _ || _); [done|].
  destruct (find_entry _ _) as [[h v]|]; [done|].
  pose proof (retained_bound g (wf_shape g Hwf) Hc) as Hb. unfold CELLS_MAX in Hb.
  destruct Hr as [R1 R2 R3 R4].
  set (g1 := if _ <=? _ then _ else _).
  assert (clusters g1 = clusters g /\ cluster_gc_at g1 = cluster_gc_at g
    /\ N.of_nat (size (hyperlinks g1)) + 1 <= hyperlink_gc_at g1 < U32 - 1) as (E1 & E2 & E3).
  { subst g1. destruct (N.leb_spec (hyperlink_gc_at g) (N.of_nat (size (hyperlinks g)))).
    - pose proof (compact_links_count g) as Hn.
      assert (hyperlink_gc_at (compact_hyperlinks g)
              = N.max (N.min (N.of_nat (size (hyperlinks (compact_hyperlinks g))) * 2) u64_max) 4096) as -> by done.
      split; [done|]. split; [done|]. unfold u64_max, U64, U32 in *. lia.
    - split; [done|]. split; [done|]. lia. }
  destruct (free_handle _ _ _) as [h n]. cbn [fst].
  assert (size (<[h := u]> (hyperlinks g1)) <= S (size (hyperlinks g1)))%nat.
  { destruct (hyperlinks g1 !! h) eqn:Eh; [rewrite map_size_insert_Some; eauto|by rewrite map_size_insert_None]. }
  split; cbn; rewrite ?E1, ?E2; lia.
Qed.

(** ** Everything else leaves the arenas alone *)

(** The arenas with their thresholds, and the sizes the capacity depends on. *)
Definition room_of (g : Grid) :=
  (clusters g, cluster_gc_at g, hyperlinks g, hyperlink_gc_at g,
   g_width g, g_height g, scrollback_limit g).

(** And the underline colours: all but lines, damage and line identities. *)
Definition still_of (g : Grid) := (room_of g, underline_colors g).

(** What a pen's handles and a cursor depend on. *)
Definition pen_of (g : Grid) :=
  (underline_colors g, hyperlinks g, g_width g, g_height g, scrollback_limit g).

(** A grid that is well formed and cannot run out of handles. *)
Record sound (g : Grid) : Prop := {
  so_wf : wf g; so_roomy : roomy g; so_capacity : capacity g }.

#[export] Hint Resolve so_wf so_roomy so_capacity : uniterm.

Lemma sound_room g g' : room_of g' = room_of g -> wf g' -> sound g -> sound g'.
Proof.
  intros [=] Hwf [_ Hr Hc]. split; [done|by eapply roomy_same|]. unfold capacity in *. congruence.
Qed.

Lemma relooks_capacity g g' : relooks g g' -> capacity g -> capacity g'.
Proof. intros (_ & _ & Ew & Eh & _ & _ & _ & El & _). unfold capacity. by rewrite Ew, Eh, El. Qed.

Lemma new_sound w h : w < U16 -> h < U16 -> (10000 + h) * w <= CELLS_MAX -> sound (new w h).
Proof. intros Hw Hh Hc. split; [by apply new_grid_wf|apply roomy_new|done]. Qed.

Lemma intern_sound g t : sound g -> t <> [] -> sound (intern g t).1.
Proof.
  intros [Hwf Hr Hc] Ht. pose proof (intern_spec g t (wf_arena g Hwf) (roomy_clusters g Hr) Ht) as H.
  pose proof (intern_roomy g t Hwf Hc Hr). destruct (intern g t) as [g' h]. destruct H as (Hl & Ha & _).
  split; [by eapply relooks_wf|done|by eapply relooks_capacity].
Qed.

Lemma intern_link_sound g u : sound g -> sound (intern_hyperlink g u).1.
Proof.
  intros [Hwf Hr Hc]. pose proof (intern_link_spec g u (wf_arena g Hwf) (roomy_links g Hr)) as H.
  pose proof (intern_link_roomy g u Hwf Hc Hr). destruct (intern_hyperlink g u) as [g' h].
  destruct H as (Hl & Ha & _). split; [by eapply relooks_wf|done|by eapply relooks_capacity].
Qed.

Lemma set_still g x y c : still_of (set g x y c) = still_of g.
Proof. unfold set. destruct (_ || _); [done|]. by destruct (decide _). Qed.

Lemma sets_still g g' : sets g g' -> still_of g' = still_of g.
Proof. induction 1; [done|]. by rewrite set_still. Qed.

Lemma pass_room {S} (f : S -> Cell -> S * Cell) s g : room_of (pass f s g).2 = room_of g.
Proof.
  unfold pass. destruct (map_acc _ s (scrollback g)) as [s1 sb]. by destruct (map_acc _ s1 (lines g)).
Qed.

Lemma compact_colors_room g : room_of (compact_underline_colors g) = room_of g.
Proof.
  unfold compact_underline_colors.
  pose proof (pass_room (compact_color (underline_colors g)) (∅, [Default]) g).
  by destruct (pass _ _ g) as [[m cl] g'].
Qed.

Lemma push_color_room g c : room_of (push_color g c).1 = room_of g.
Proof. unfold push_color. by destruct (colors_full g). Qed.

Lemma intern_color_room g c : room_of (intern_underline_color g c).1 = room_of g.
Proof.
  unfold intern_underline_color. destruct (decide _); [done|]. destruct (position _ _); [done|].
  destruct (colors_full g); [|apply push_color_room].
  destruct (position _ _); [|rewrite push_color_room]; apply compact_colors_room.
Qed.

Lemma mark_rows_still g top bottom : still_of (mark_rows_damaged g top bottom) = still_of g.
Proof. unfold mark_rows_damaged. by destruct (_ =? _). Qed.

Lemma push_scrollback_still g l : still_of (push_scrollback g l) = still_of g.
Proof. unfold push_scrollback. by destruct (_ =? _). Qed.

Lemma scroll_up_still g b : still_of (scroll_up g b) = still_of g.
Proof.
  unfold scroll_up. destruct (_ =? _); [done|]. destruct (lines g) as [|l ls]; [done|].
  rewrite mark_rows_still.
  exact (push_scrollback_still (with_lines (with_next_id g (next_line_id g + 1)) ls) (trim_default_tail l)).
Qed.

Lemma replace_line_still g i b top bottom : still_of (replace_line g i b top bottom) = still_of g.
Proof. unfold replace_line, alloc_line_id. by rewrite mark_rows_still. Qed.

Lemma region_up_still g top bottom b history :
  still_of (scroll_region_up_inner g top bottom b history) = still_of g.
Proof.
  unfold scroll_region_up_inner. destruct (_ || _ || _); [done|].
  destruct (_ && _ && _); [apply scroll_up_still|]. rewrite replace_line_still.
  destruct (lines g !! _); [|done]. destruct history; [|done].
  by rewrite (push_scrollback_still (with_lines g _)).
Qed.

Lemma region_down_still g top bottom b : still_of (scroll_region_down g top bottom b) = still_of g.
Proof. unfold scroll_region_down. destruct (_ || _ || _); [done|].
  by rewrite (replace_line_still (with_lines g _)). Qed.

Lemma mark_all_still g : still_of (mark_all_damaged g) = still_of g.
Proof. unfold mark_all_damaged. by destruct (_ || _). Qed.

Lemma clear_damage_still g : still_of (clear_damage g) = still_of g.
Proof. unfold clear_damage. by destruct (any_damage g). Qed.

(** ** Operations keep a grid sound, and its pen *)

(** [g'] comes from [g] with no colour and no link interned. *)
Record steady (g g' : Grid) : Prop := {
  sd_sound : sound g'; sd_pen : pen_of g' = pen_of g }.

#[export] Instance steady_trans : Transitive steady.
Proof. intros g1 g2 g3 [? E1] [? E2]. split; [done|congruence]. Qed.

Lemma steady_refl g : sound g -> steady g g.
Proof. by split. Qed.

Lemma steady_still g g' : still_of g' = still_of g -> wf g' -> sound g -> steady g g'.
Proof.
  intros E Hwf Hg. injection E as ? ? ? ? ? ? ? ?. split; [|unfold pen_of; congruence].
  apply (sound_room g); [unfold room_of; congruence|done|done].
Qed.

Lemma sets_steady g g' : sets g g' -> sound g -> steady g g'.
Proof. intros Hs Hg. apply steady_still; [by apply sets_still| |done]. eapply sets_wf; [apply Hg|done]. Qed.

Lemma intern_steady g t : sound g -> t <> [] -> steady g (intern g t).1.
Proof.
  intros Hg Ht. pose proof (intern_sound g t Hg Ht) as Hs. split; [done|].
  pose proof (intern_spec g t (wf_arena g (so_wf g Hg)) (roomy_clusters g (so_roomy g Hg)) Ht) as H.
  destruct (intern_others g t) as [Eu El]. destruct (intern g t) as [g' h].
  destruct H as ((_ & _ & ? & ? & _ & _ & _ & ? & _) & _). unfold pen_of. cbn [fst] in *. congruence.
Qed.

Lemma set_grapheme_steady g x y t cell w :
  style_ok g cell -> sound g -> steady g (set_grapheme g x y t cell w).
Proof.
  intros Hc Hg. destruct (set_grapheme_steps g x y t cell w) as (g1 & g2 & H1 & _ & _ & H3 & H4);
    [apply Hg|done|apply roomy_clusters, Hg|].
  pose proof (sets_steady g g1 H1 Hg) as Hg1.
  assert (steady g g2) as Hg2.
  { destruct H4 as [->|[Ht ->]]; [done|]. etrans; [done|]. apply intern_steady; [apply Hg1|done]. }
  etrans; [done|]. apply sets_steady; [done|apply Hg2].
Qed.

Lemma scroll_up_steady g b : cell_ok g b -> sound g -> steady g (scroll_up g b).
Proof. intros Hb Hg. apply steady_still; [apply scroll_up_still|by apply scroll_up_wf; [apply Hg|]|done]. Qed.

Lemma region_up_steady g top bottom b history :
  cell_ok g b -> sound g -> steady g (scroll_region_up_inner g top bottom b history).
Proof.
  intros Hb Hg. apply steady_still; [apply region_up_still|by apply scroll_region_up_wf; [apply Hg|]|done].
Qed.

Lemma region_down_steady g top bottom b :
  cell_ok g b -> sound g -> steady g (scroll_region_down g top bottom b).
Proof.
  intros Hb Hg. apply steady_still; [apply region_down_still|by apply scroll_region_down_wf; [apply Hg|]|done].
Qed.

Lemma row_wrapped_steady g y b : sound g -> steady g (set_row_wrapped g y b).
Proof. intros Hg. by apply steady_still; [|apply set_row_wrapped_wf, Hg|]. Qed.

Lemma mark_all_steady g : sound g -> steady g (mark_all_damaged g).
Proof. intros Hg. apply steady_still; [apply mark_all_still|by apply mark_all_grid_wf, Hg|done]. Qed.

Lemma clear_damage_steady g : sound g -> steady g (clear_damage g).
Proof. intros Hg. apply steady_still; [apply clear_damage_still|by apply clear_damage_grid_wf, Hg|done]. Qed.

Lemma clear_scrollback_steady g : sound g -> steady g (clear_scrollback g).
Proof.
  intros Hg. apply steady_still; [done| |done].
  apply history_wf; [apply Hg|apply sublist_nil_l|cbn; lia].
Qed.

(** A colour or a link interned: the sizes stay, the handle is the pen's. *)
Definition sizes_of (g : Grid) := (g_width g, g_height g, scrollback_limit g).

Lemma intern_color_sound g c :
  sound g -> let '(g', h) := intern_underline_color g c in
  sound g' /\ sizes_of g' = sizes_of g /\ hyperlinks g' = hyperlinks g
  /\ (N.to_nat h < length (underline_colors g'))%nat.
Proof.
  intros Hg. pose proof (intern_color_spec g c (wf_arena g (so_wf g Hg))) as H.
  pose proof (intern_color_room g c) as E.
  destruct (intern_underline_color g c) as [g' h]. destruct H as (Hr & Ha & Hh & _). cbn [fst] in E.
  split; [|by injection E as ? ? ? ? ? ? ?; unfold sizes_of; split_and!; congruence].
  apply (sound_room g); [done| |done]. by eapply relooks_wf; [apply Hg|..].
Qed.

Lemma intern_link_sizes g u :
  sound g -> let '(g', h) := intern_hyperlink g u in
  sound g' /\ sizes_of g' = sizes_of g /\ underline_colors g' = underline_colors g /\ link_ok g' h.
Proof.
  intros Hg. pose proof (intern_link_sound g u Hg) as Hs.
  pose proof (intern_link_spec g u (wf_arena g (so_wf g Hg)) (roomy_links g (so_roomy g Hg))) as H.
  assert (underline_colors (intern_hyperlink g u).1 = underline_colors g) as Eu.
  { unfold intern_hyperlink. destruct (_ || _ || _); [done|]. destruct (find_entry _ _) as [[? ?]|]; [done|].
    destruct (_ <=? _); by destruct (free_handle _ _ _). }
  destruct (intern_hyperlink g u) as [g' h]. cbn [fst] in *.
  destruct H as ((_ & _ & ? & ? & _ & _ & _ & ? & _) & _ & Hl & _).
  split; [done|]. unfold sizes_of. split; [congruence|done].
Qed.

Lemma limit_sound g n :
  (n + g_height g) * g_width g <= CELLS_MAX -> sound g -> sound (set_scrollback_limit g n).
Proof.
  intros Hc Hg. split; [|by apply (roomy_same g), Hg|done].
  apply history_wf; [apply Hg|apply keep_last_sublist|apply keep_last_length].
Qed.
