(* ===== verification/Reflow.v ===== *)
(** * Resizing the grid

    [Grid::resize_reflow] of [uniterm-core/src/grid.rs]: growing and shrinking
    the height in place, and the reflow of all retained lines to a new width. *)

From S2P Require Import Prelude Cell Grid.

Section Reflow.
Context `{Unicode}.

(** Natural width of a glyph lead, from its text. *)
Definition glyph_width (g : Grid) (c : Cell) : N :=
  if negb (cluster c =? 0) then
    match clusters g !! N.to_nat (cluster c) with
    | Some text => nclamp (text_width text) 1 2
    | None => 1
    end
  else nclamp (text_width [ch c]) 1 2.

Definition is_default_blank (g : Grid) (c : Cell) : bool :=
  (ch c =? SPACE) && (cluster c =? 0) && negb (is_continuation c)
  && bool_decide (fg c = Default) && bool_decide (bg c = Default) && (attrs c =? NONE)
  && (c_hyperlink c =? 0) && bool_decide (underline_color g (c_underline c) = Default).

(** [vec.resize(n, x)] *)
Definition vec_resize {A} (n : nat) (x : A) (l : list A) : list A :=
  take n l ++ replicate (n - length l) x.

(** ** Cutting a logical line into rows *)

(** A glyph as it is laid down in a row. *)
Definition glyph_cells (lead : Cell) (gw : N) : list Cell :=
  with_width lead gw :: if gw =? 2 then [continuation_of lead] else [].

(** The loop over the leads: finished rows, the row under construction and the
    next line identity. *)
Fixpoint emit_loop (g : Grid) (w : N) (leads : list Cell) (x : N) (row : list Cell) (id : N)
  : list Line * list Cell * N :=
  match leads with
  | [] => ([], row, id)
  | lead :: leads =>
      let gw := N.min (glyph_width g lead) w in
      if (0 <? x) && (w <? x +16 gw) then
        let full := {| cells := vec_resize (N.to_nat w) default_cell row; wrapped := true; l_id := id |} in
        let '(rows, row, id) := emit_loop g w leads (0 +16 gw) (glyph_cells lead gw) (id + 1) in
        (full :: rows, row, id)
      else emit_loop g w leads (x +16 gw) (row ++ glyph_cells lead gw) id
  end.

Definition emit_logical_line (g : Grid) (leads : list Cell) (w id : N) : list Line * N :=
  let '(rows, row, id) := emit_loop g w leads 0 [] id in
  (rows ++ [{| cells := trim_cells row; wrapped := false; l_id := id |}], id + 1).

(** ** Where the cursor's and the viewport's logical lines land *)

Record ReflowAnchors : Set := {
  logical_index : nat; cursor_logical : nat; screen_logical : nat;
  cursor_span : nat * nat; screen_span : nat * nat }.

Definition default_anchors : ReflowAnchors := {|
  logical_index := 0; cursor_logical := 0; screen_logical := 0;
  cursor_span := (0, 1)%nat; screen_span := (0, 1)%nat |}.

Definition record (a : ReflowAnchors) (span : nat * nat) : ReflowAnchors := {|
  logical_index := S (logical_index a);
  cursor_logical := cursor_logical a; screen_logical := screen_logical a;
  cursor_span := if (logical_index a =? cursor_logical a)%nat then span else cursor_span a;
  screen_span := if (logical_index a =? screen_logical a)%nat then span else screen_span a |}.

(** The local variables of the loop over the old lines. *)
Record Reflow : Set := {
  leads : list Cell; physical : list Line; current_width : N;
  cursor_offset : N; screen_offset : N; anchors : ReflowAnchors; r_next_id : N }.

(** [emit_logical_line], [anchors.record] and the reset of the scratch line. *)
Definition flush (g : Grid) (w : N) (r : Reflow) : Reflow :=
  let '(rows, id) := emit_logical_line g (leads r) w (r_next_id r) in
  {| leads := []; physical := physical r ++ rows; current_width := 0;
     cursor_offset := cursor_offset r; screen_offset := screen_offset r;
     anchors := record (anchors r) (length (physical r), length rows); r_next_id := id |}.

(** The glyph leads an old row adds to its logical line. *)
Definition row_leads (g : Grid) (l : Line) : list Cell :=
  let own := filter (fun c => is_continuation c = false) (cells l) in
  if wrapped l then own ++ replicate (N.to_nat (g_width g) - length (cells l)) default_cell
  else trim_by (is_default_blank g) own.

Definition lead_width (c : Cell) : N := N.max (width c) 1.
Definition sum_widths (cs : list Cell) : N := foldr (fun c n => lead_width c + n) 0 cs.

Definition reflow_line (g : Grid) (w : N) (cursor_line screen_line : nat) (cx : N)
    (r : Reflow) (il : nat * Line) : Reflow :=
  let '(i, l) := il in
  let a := anchors r in
  let a := if (i =? cursor_line)%nat then
      {| logical_index := logical_index a; cursor_logical := logical_index a;
         screen_logical := screen_logical a; cursor_span := cursor_span a; screen_span := screen_span a |}
    else a in
  let a := if (i =? screen_line)%nat then
      {| logical_index := logical_index a; cursor_logical := cursor_logical a;
         screen_logical := logical_index a; cursor_span := cursor_span a; screen_span := screen_span a |}
    else a in
  let new := row_leads g l in
  let r := {| leads := leads r ++ new; physical := physical r;
     current_width := current_width r + sum_widths new;
     cursor_offset := if (i =? cursor_line)%nat then current_width r + cx else cursor_offset r;
     screen_offset := if (i =? screen_line)%nat then current_width r else screen_offset r;
     anchors := a; r_next_id := r_next_id r |} in
  if wrapped l then r else flush g w r.

Definition start_reflow (g : Grid) : Reflow := {|
  leads := []; physical := []; current_width := 0; cursor_offset := 0; screen_offset := 0;
  anchors := default_anchors; r_next_id := next_line_id g |}.

(** All old lines cut anew: the loop and the two [if]s after it. *)
Definition reflow_lines (g : Grid) (w : N) (cursor_line screen_line : nat) (cx : N) : Reflow :=
  let r := foldl (reflow_line g w cursor_line screen_line cx) (start_reflow g)
             (imap pair (scrollback g ++ lines g)) in
  let r := if bool_decide (leads r = []) then r else flush g w r in
  if (logical_index (anchors r) =? 0)%nat then flush g w r else r.

(** ** The new viewport *)

(** [n] blank lines with identities from [id] on. *)
Definition blank_lines (w : N) (blank : Cell) (id : N) (n : nat) : list Line :=
  map (fun i => blank_line w blank (id + N.of_nat i)) (seq 0 n).

Definition has_content (l : Line) : bool := wrapped l || negb (bool_decide (cells l = [])).

(** The index after the last line with content. *)
Definition content_end (ls : list Line) : nat :=
  length (trim_by (fun l => negb (has_content l)) ls).

(** The former viewport top is kept across growth; rows that fall off are
    blank unless the cursor or content needs them. *)
Definition grown_start (r : Reflow) (cursor_global top height : nat) : nat * list Line :=
  let start := Nat.max top (cursor_global + 1 - height) in
  if (start + height <? length (physical r))%nat then
    let needed_end := Nat.max (content_end (physical r)) (cursor_global + 1) in
    let start := Nat.max start (needed_end - height) in
    (start, take (start + height) (physical r))
  else (start, physical r).

Definition pad_row (w : N) (l : Line) : Line :=
  if (length (cells l) <? N.to_nat w)%nat
  then with_cells l (vec_resize (N.to_nat w) default_cell (cells l)) else l.

(** The grid after a resize: fresh damage for the new height, all of it set. *)
Definition resized (g : Grid) (w h : N) (sb ls : list Line) (id : N) : Grid :=
  let g := with_lines (with_history (with_next_id g id) sb (scrollback_limit g)) ls in
  let g := with_size g w h in
  mark_all_damaged (with_damage g (replicate (N.to_nat h) clean) (any_damage g) (pending_scroll_up g)).

(** The row and column of the cursor in its logical line, and the pending wrap. *)
Definition map_cursor (offset w : N) (pending : bool) : nat * N * bool :=
  let row := N.to_nat (offset / w) in
  let x := (offset mod w) mod U16 in
  if pending && (x =? 0) && negb (offset =? 0) then ((row - 1)%nat, w - 1, true)
  else (row, x, false).

(** The line the viewport starts at, all lines, the next identity and the
    cursor's line. *)
Definition new_viewport (g : Grid) (w h : N) (blank : Cell) (r : Reflow) (cursor_global top : nat)
  : nat * list Line * N * nat :=
  let hn := N.to_nat h in
  if g_height g <? h then
    let '(start, ls) := grown_start r cursor_global top hn in
    let missing := (start + hn - length ls)%nat in
    (start, ls ++ blank_lines w blank (r_next_id r) missing,
     r_next_id r + N.of_nat missing, cursor_global)
  else
    let missing := (hn - length (physical r))%nat in
    let ls := rev (blank_lines w blank (r_next_id r) missing) ++ physical r in
    ((length ls - hn)%nat, ls, r_next_id r + N.of_nat missing, (cursor_global + missing)%nat).

Definition reflow_width (g : Grid) (w h : N) (blank : Cell) (cursor : N * N) (pending : bool)
  : Grid * (N * N * bool) :=
  let sb_len := length (scrollback g) in
  let r := reflow_lines g w (sb_len + N.to_nat cursor.2) sb_len cursor.1 in
  let '(cursor_start, cursor_count) := cursor_span (anchors r) in
  let '(cursor_row, cursor_x, mapped_pending) := map_cursor (cursor_offset r) w pending in
  let cursor_global := (cursor_start + Nat.min cursor_row (cursor_count - 1))%nat in
  let '(screen_first, screen_count) := screen_span (anchors r) in
  let top := (screen_first + Nat.min (N.to_nat (screen_offset r / w)) (screen_count - 1))%nat in
  let hn := N.to_nat h in
  let '(screen_start, phys, id, cursor_global) := new_viewport g w h blank r cursor_global top in
  let history_start := (screen_start - N.to_nat (scrollback_limit g))%nat in
  let cursor_global := (cursor_global - history_start)%nat in
  let phys := drop history_start phys in
  let retained := (screen_start - history_start)%nat in
  let cursor_y := Nat.min (cursor_global - retained) (hn - 1) in
  (resized g w h (take retained phys) (map (pad_row w) (drop retained phys)) id,
   (N.min cursor_x (w - 1), N.of_nat cursor_y mod U16, mapped_pending)).

Definition unpended (cursor : N * N) (pending : bool) : N :=
  if pending then cursor.1 - 1 else cursor.1.

Definition resize_reflow (g : Grid) (w h : N) (blank : Cell) (cursor : N * N) (pending : bool)
  : Grid * (N * N * bool) :=
  let w := N.max w 1 in
  let h := N.max h 1 in
  if (w =? g_width g) && (h =? g_height g) then (g, (cursor.1, cursor.2, pending))
  else if (g_height g <? h) && (w =? g_width g) then
    let n := (N.to_nat h - length (lines g))%nat in
    (resized g w h (scrollback g) (lines g ++ blank_lines w blank (next_line_id g) n)
       (next_line_id g + N.of_nat n),
     (N.min (unpended cursor pending) (w - 1), N.min cursor.2 (h - 1), pending))
  else if (h <? g_height g) && (w =? g_width g) then
    let removed := N.to_nat (g_height g - h) in
    let g1 := foldl (fun g l => push_scrollback g (trim_default_tail l)) g (take removed (lines g)) in
    (resized g1 w h (scrollback g1) (drop removed (lines g)) (next_line_id g),
     (N.min (unpended cursor pending) (w - 1), cursor.2 - N.of_nat removed, pending))
  else reflow_width g w h blank cursor pending.
End Reflow.
