(* ===== verification/ReflowInv.v ===== *)
(** * Reflow loses no text

    Theorems about Reflow.v: rows are cut exactly, logical lines survive, and
    the resized grid is well formed. *)

From S2P Require Import Prelude Cell Grid GridInv GridEdit GridScroll Reflow.

Section ReflowInv.
Context `{Unicode}.
Implicit Types g : Grid.

(** The widest grid for which column arithmetic stays in [u16]. *)
Definition MAX_WIDTH : N := 65533.

Lemma glyph_width_range g c : 1 <= glyph_width g c <= 2.
Proof.
  unfold glyph_width. destruct (negb _).
  - destruct (clusters g !! _); [apply nclamp_range; lia|lia].
  - apply nclamp_range. lia.
Qed.

(** The width a lead is laid down with. *)
Definition laid_width g (w : N) (lead : Cell) : N := N.min (glyph_width g lead) w.
Definition laid g (w : N) (lead : Cell) : list Cell := glyph_cells lead (laid_width g w lead).

Lemma laid_width_range g w c : 1 <= w -> 1 <= laid_width g w c <= 2 /\ laid_width g w c <= w.
Proof. intros Hw. unfold laid_width. pose proof (glyph_width_range g c). lia. Qed.

Lemma length_laid g w c : 1 <= w -> N.of_nat (length (laid g w c)) = laid_width g w c.
Proof.
  intros Hw. pose proof (laid_width_range g w c Hw). unfold laid, glyph_cells.
  destruct (N.eqb_spec (laid_width g w c) 2); cbn; lia.
Qed.

(** ** Rows of a logical line

    [cut g w leads rows]: the rows are [leads] laid down in order; every row
    but the last is full and soft-wraps, its margin column blank only where
    the next glyph is wide; the last row has no default cell at its end. *)
Inductive cut g (w : N) : list Cell -> list Line -> Prop :=
| cut_last a content i k :
    concat (map (laid g w) a) = content ++ replicate k default_cell ->
    N.of_nat (length (concat (map (laid g w) a))) <= w ->
    trim_cells content = content ->
    cut g w a [{| cells := content; wrapped := false; l_id := i |}]
| cut_row a b content pad i rows :
    a <> [] -> b <> [] ->
    concat (map (laid g w) a) = content -> N.of_nat (length (content ++ pad)) = w ->
    (pad = [] \/ pad = [default_cell] /\ exists c, head b = Some c /\ laid_width g w c = 2) ->
    cut g w b rows ->
    cut g w (a ++ b) ({| cells := content ++ pad; wrapped := true; l_id := i |} :: rows).

Lemma trim_cells_idem cs : trim_cells (trim_cells cs) = trim_cells cs.
Proof.
  unfold trim_cells. apply trim_by_id.
  by destruct (trim_by_spec (fun c => bool_decide (c = default_cell)) cs) as (k & _ & _ & Hl).
Qed.

Lemma emit_loop_cut g w leads : forall a x row id,
  1 <= w <= MAX_WIDTH ->
  row = concat (map (laid g w) a) -> x = N.of_nat (length row) -> x <= w ->
  let '(rows, row', id') := emit_loop g w leads x row id in
  id' = id + N.of_nat (length rows)
  /\ map l_id rows = map (fun i => id + N.of_nat i) (seq 0 (length rows))
  /\ cut g w (a ++ leads) (rows ++ [{| cells := trim_cells row'; wrapped := false; l_id := id' |}]).
Proof.
  induction leads as [|lead leads IH]; intros a x row id Hw Hrow Hx Hle.
  { cbn. split; [lia|]. split; [done|]. rewrite app_nil_r.
    destruct (trim_cells_spec row) as [k Hk].
    apply (cut_last g w a _ id k); [by rewrite <- Hrow|by rewrite <- Hrow, <- Hx|apply trim_cells_idem]. }
  cbn [emit_loop]. pose proof (laid_width_range g w lead ltac:(lia)) as [Hl1 Hl2].
  fold (laid_width g w lead). fold (laid g w lead). unfold MAX_WIDTH in Hw.
  rewrite (wadd_small U16 x) by (unfold U16; lia). rewrite wadd_small by (unfold U16; lia).
  destruct (N.ltb_spec 0 x) as [H0|H0]; [destruct (N.ltb_spec w (x + laid_width g w lead)) as [Hf|Hf]|]; cbn [andb].
  - pose proof (IH [lead] (0 + laid_width g w lead) (laid g w lead) (id + 1) ltac:(unfold MAX_WIDTH; lia)) as IH'.
    cbn [map concat] in IH'. rewrite app_nil_r in IH'.
    specialize (IH' eq_refl ltac:(rewrite length_laid; lia) ltac:(lia)).
    destruct (emit_loop _ _ _ _ _ _) as [[rows row'] id']. destruct IH' as (Hid & Hids & Hcut).
    split; [cbn [length]; lia|]. split.
    { cbn [map length seq]. f_equal; [cbn; lia|]. rewrite Hids, <- seq_shift, map_map.
      apply map_ext. intros i. lia. }
    assert (vec_resize (N.to_nat w) default_cell row = row ++ replicate (N.to_nat w - length row) default_cell) as Ev.
    { unfold vec_resize. by rewrite take_ge by lia. }
    cbn [app]. rewrite Ev. apply cut_row; [| |by rewrite Hrow| |  |exact Hcut].
    + intros ->. cbn in Hrow. subst row. cbn in Hx. lia.
    + done.
    + rewrite length_app, length_replicate. lia.
    + destruct (N.to_nat w - length row)%nat as [|[|n]] eqn:En; [by left|right|lia].
      split; [done|]. exists lead. split; [done|]. lia.
  - specialize (IH (a ++ [lead]) (x + laid_width g w lead) (row ++ laid g w lead) id ltac:(unfold MAX_WIDTH; lia)).
    rewrite <- app_assoc in IH. apply IH.
    + rewrite map_app, concat_app, Hrow. cbn. by rewrite app_nil_r.
    + pose proof (length_laid g w lead ltac:(lia)). rewrite length_app. lia.
    + lia.
  - specialize (IH (a ++ [lead]) (x + laid_width g w lead) (row ++ laid g w lead) id ltac:(unfold MAX_WIDTH; lia)).
    rewrite <- app_assoc in IH. apply IH.
    + rewrite map_app, concat_app, Hrow. cbn. by rewrite app_nil_r.
    + pose proof (length_laid g w lead ltac:(lia)). rewrite length_app. lia.
    + lia.
Qed.

(** Identities in [lo .. hi - 1], none twice. *)
Definition fresh_lines (a b : N) (ls : list Line) : Prop :=
  NoDup (map l_id ls) /\ Forall (fun l => a <= l_id l < b) ls.

Lemma fresh_app a b c l k :
  a <= b -> b <= c -> fresh_lines a b l -> fresh_lines b c k -> fresh_lines a c (l ++ k) /\ fresh_lines a c (k ++ l).
Proof.
  intros Hab Hbc [N1 F1] [N2 F2].
  assert (Forall (fun l => a <= l_id l < c) (l ++ k)) as F.
  { apply Forall_app. split; [eapply Forall_impl; [exact F1|]|eapply Forall_impl; [exact F2|]]; cbn; lia. }
  assert (NoDup (map l_id (l ++ k))) as Hn.
  { rewrite map_app. apply NoDup_app. split; [done|]. split; [|done]. intros i Hi Hk.
    apply list_elem_of_fmap in Hi as (x & -> & Hx). apply list_elem_of_fmap in Hk as (y & E & Hy).
    rewrite Forall_forall in F1, F2. specialize (F1 x Hx). specialize (F2 y Hy). lia. }
  split; [by split|]. split.
  - rewrite map_app, Permutation_app_comm, <- map_app. exact Hn.
  - rewrite Permutation_app_comm. exact F.
Qed.

Lemma fresh_consecutive a (ls : list Line) :
  map l_id ls = map (fun i => a + N.of_nat i) (seq 0 (length ls)) ->
  fresh_lines a (a + N.of_nat (length ls)) ls.
Proof.
  intros E. split.
  - rewrite E. apply NoDup_fmap_2; [intros ? ?; lia|apply NoDup_seq].
  - apply Forall_forall. intros l Hl. assert (l_id l ∈ map l_id ls) as Hi by by apply list_elem_of_fmap_2.
    rewrite E in Hi. apply list_elem_of_fmap in Hi as (i & -> & Hi). apply elem_of_seq in Hi. lia.
Qed.

Lemma fresh_sublist a b l k : l `sublist_of` k -> fresh_lines a b k -> fresh_lines a b l.
Proof.
  intros Hs [Hn Hf]. split; [|by eapply Forall_sublist].
  eapply NoDup_sublist; [|exact Hn]. by apply fmap_sublist.
Qed.

Lemma emit_logical_spec g w leads id :
  1 <= w <= MAX_WIDTH ->
  let '(rows, id') := emit_logical_line g leads w id in
  cut g w leads rows /\ fresh_lines id id' rows /\ id <= id'.
Proof.
  intros Hw. unfold emit_logical_line.
  pose proof (emit_loop_cut g w leads [] 0 [] id Hw eq_refl eq_refl ltac:(lia)) as Hc.
  destruct (emit_loop g w leads 0 [] id) as [[rows row'] id']. destruct Hc as (-> & Hids & Hcut).
  split; [exact Hcut|]. split; [|lia].
  set (last := {| cells := _ |}).
  replace (id + N.of_nat (length rows) + 1) with (id + N.of_nat (length (rows ++ [last])))
    by (rewrite length_app; cbn; lia).
  apply fresh_consecutive. rewrite map_app, length_app, Hids. cbn.
  by rewrite seq_app, map_app.
Qed.

Lemma cut_rows g w leads rows :
  1 <= w -> cut g w leads rows ->
  rows <> [] /\ Forall (hist_row (N.to_nat w)) rows.
Proof.
  intros Hw. induction 1 as [a content i k Ha Hl Ht|a b content pad i rows _ _ Ha Hl _ _ [_ IH]].
  - split; [done|]. constructor; [|done]. rewrite Ha, length_app in Hl. split; [cbn; lia|done].
  - split; [done|]. constructor; [split; cbn; lia|done].
Qed.

(** Rows hold the leads, their second halves and default cells. *)
Lemma cut_forall (P : Cell -> Prop) g w leads rows :
  (forall c n, P c -> n <= 2 -> P (with_width c n)) -> (forall c, P c -> P (continuation_of c)) ->
  P default_cell -> 1 <= w -> cut g w leads rows -> Forall P leads ->
  Forall (fun l => Forall P (cells l)) rows.
Proof.
  intros Hwid Hcont Hdef Hw Hcut. assert (forall a, Forall P a -> Forall P (concat (map (laid g w) a))) as Hlaid.
  { intros a. induction 1 as [|c a Hc _ IH]; [constructor|]. cbn [map concat]. apply Forall_app. split; [|done].
    unfold laid, glyph_cells. pose proof (laid_width_range g w c Hw).
    constructor; [apply Hwid; [done|lia]|]. destruct (_ =? 2); [|done]. constructor; [by apply Hcont|done]. }
  induction Hcut as [a content i k Ha Hl Ht|a b content pad i rows _ _ Ha Hl Hpad _ IH]; intros HP.
  - specialize (Hlaid a HP). rewrite Ha in Hlaid. apply Forall_app in Hlaid as [Hc _]. by repeat constructor.
  - apply Forall_app in HP as [HPa HPb]. constructor; [|by apply IH]. cbn. apply Forall_app. split.
    + rewrite <- Ha. by apply Hlaid.
    + destruct Hpad as [->|[-> _]]; [constructor|by constructor].
Qed.

(** ** Logical lines *)

Definition logical_step g (st : list (list Cell) * list Cell) (l : Line) : list (list Cell) * list Cell :=
  let cur := st.2 ++ row_leads g l in
  if wrapped l then (st.1, cur) else (st.1 ++ [cur], []).

(** The glyph leads of every logical line, oldest first: soft-wrapped rows are
    joined and default blanks at the end of a line are left out. *)
Definition logical_lines g : list (list Cell) :=
  let '(finished, cur) := foldl (logical_step g) ([], []) (scrollback g ++ lines g) in
  let ls := if bool_decide (cur = []) then finished else finished ++ [cur] in
  if bool_decide (ls = []) then [[]] else ls.

Definition reflow_inv g w (st : list (list Cell) * list Cell) (r : Reflow) : Prop :=
  leads r = st.2 /\ logical_index (anchors r) = length st.1
  /\ fresh_lines (next_line_id g) (r_next_id r) (physical r) /\ next_line_id g <= r_next_id r
  /\ exists rowss, physical r = concat rowss /\ Forall2 (cut g w) st.1 rowss.

Lemma flush_inv g w st r :
  1 <= w <= MAX_WIDTH -> reflow_inv g w st r -> reflow_inv g w (st.1 ++ [st.2], []) (flush g w r).
Proof.
  intros Hw (Hl & Hi & Hf & Hn & rowss & Hp & Hc). unfold flush.
  pose proof (emit_logical_spec g w (leads r) (r_next_id r) Hw) as He.
  destruct (emit_logical_line g (leads r) w (r_next_id r)) as [rows id]. destruct He as (Hcut & Hfr & Hle).
  unfold reflow_inv. cbn. split; [done|]. split; [rewrite length_app; cbn; lia|].
  split; [exact (proj1 (fresh_app _ _ _ _ _ Hn Hle Hf Hfr))|]. split; [lia|]. exists (rowss ++ [rows]). split.
  - rewrite concat_app, Hp. cbn. by rewrite app_nil_r.
  - apply Forall2_app; [done|]. constructor; [|constructor]. by rewrite <- Hl.
Qed.

Lemma reflow_line_inv g w cl sl cx st r i l :
  1 <= w <= MAX_WIDTH -> reflow_inv g w st r ->
  reflow_inv g w (logical_step g st l) (reflow_line g w cl sl cx r (i, l)).
Proof.
  intros Hw Hr. unfold reflow_line, logical_step. cbn zeta beta iota.
  set (r1 := {| leads := leads r ++ row_leads g l |}).
  assert (reflow_inv g w (st.1, st.2 ++ row_leads g l) r1) as H1.
  { destruct Hr as (Hl & Hi & Hf & Hn & Hp). subst r1. unfold reflow_inv. cbn.
    split; [by rewrite Hl|]. split; [|done]. by destruct (i =? cl)%nat, (i =? sl)%nat. }
  destruct (wrapped l); [exact H1|]. apply (flush_inv _ _ _ _ Hw) in H1. exact H1.
Qed.

Lemma reflow_fold_inv g w cl sl cx ls : forall n st r,
  1 <= w <= MAX_WIDTH -> reflow_inv g w st r ->
  reflow_inv g w (foldl (logical_step g) st ls)
    (foldl (reflow_line g w cl sl cx) r (imap (fun i => pair (n + i)%nat) ls)).
Proof.
  induction ls as [|l ls IH]; intros n st r Hw Hr; [done|]. cbn.
  assert (imap ((fun i => pair (n + i)%nat) ∘ S) ls = imap (fun i => pair (S n + i)%nat) ls) as E.
  { apply imap_ext. intros i x _. cbn. f_equal. lia. }
  rewrite E. apply IH; [done|]. by apply reflow_line_inv.
Qed.

(** All retained text is cut anew, logical line by logical line. *)
Lemma reflow_lines_spec g w cl sl cx :
  1 <= w <= MAX_WIDTH ->
  let r := reflow_lines g w cl sl cx in
  fresh_lines (next_line_id g) (r_next_id r) (physical r) /\ next_line_id g <= r_next_id r
  /\ exists rowss, physical r = concat rowss /\ Forall2 (cut g w) (logical_lines g) rowss.
Proof.
  intros Hw. unfold reflow_lines, logical_lines.
  assert (reflow_inv g w ([], []) (start_reflow g)) as H0.
  { split_and!; [done|done|split; [constructor|done]|done|]. exists []. done. }
  pose proof (reflow_fold_inv g w cl sl cx (scrollback g ++ lines g) 0 _ _ Hw H0) as H1.
  change (imap (fun i => pair (0 + i)%nat) (scrollback g ++ lines g))
    with (imap pair (scrollback g ++ lines g)) in H1.
  destruct (foldl (logical_step g) ([], []) (scrollback g ++ lines g)) as [fin cur].
  set (r := foldl _ _ _) in *. cbn zeta.
  assert (leads r = cur) as El by apply H1. rewrite El.
  set (ls := if bool_decide (cur = []) then fin else fin ++ [cur]).
  set (r1 := if bool_decide (cur = []) then r else flush g w r).
  assert (reflow_inv g w (ls, []) r1) as H2.
  { subst ls r1. destruct (bool_decide_reflect (cur = [])) as [->|]; [done|].
    apply (flush_inv _ _ _ _ Hw H1). }
  assert (logical_index (anchors r1) = length ls) as E1 by apply H2. rewrite E1.
  destruct ls as [|l0 ls'] eqn:Els.
  - cbn. apply (flush_inv _ _ _ _ Hw) in H2. destruct H2 as (_ & _ & Hf & Hn & Hp). done.
  - cbn. destruct H2 as (_ & _ & Hf & Hn & Hp). done.
Qed.

Lemma row_leads_forall (P : Cell -> Prop) g l :
  P default_cell -> Forall P (cells l) -> Forall P (row_leads g l).
Proof.
  intros Hd Hl. unfold row_leads.
  assert (Forall P (filter (fun c => is_continuation c = false) (cells l))) as Hf.
  { apply Forall_forall. intros c Hc. apply list_elem_of_filter in Hc as [_ Hc].
    rewrite Forall_forall in Hl. by apply Hl. }
  destruct (wrapped l).
  - apply Forall_app. split; [done|by apply Forall_replicate].
  - destruct (trim_by_spec (is_default_blank g) (filter (fun c => is_continuation c = false) (cells l)))
      as (k & E & _). rewrite E in Hf. by apply Forall_app in Hf as [? _].
Qed.

Lemma logical_lines_forall (P : Cell -> Prop) g :
  P default_cell -> cells_of g P -> Forall (Forall P) (logical_lines g).
Proof.
  intros Hd Hc. unfold logical_lines.
  assert (forall ls st, Forall (fun l => Forall P (cells l)) ls -> Forall (Forall P) st.1 -> Forall P st.2 ->
    Forall (Forall P) (foldl (logical_step g) st ls).1 /\ Forall P (foldl (logical_step g) st ls).2) as Hfold.
  { induction ls as [|l ls IH]; intros st Hls H1 H2; [done|]. apply Forall_cons in Hls as [Hl Hls]. cbn.
    assert (Forall P (st.2 ++ row_leads g l)) by (apply Forall_app; split; [done|by apply row_leads_forall]).
    apply IH; [done| |]; unfold logical_step; destruct (wrapped l); cbn; try done.
    apply Forall_app. split; [done|by repeat constructor]. }
  destruct (Hfold _ ([], []) Hc) as [H1 H2]; [constructor|constructor|].
  destruct (foldl (logical_step g) ([], []) _) as [fin cur]. cbn in H1, H2.
  assert (Forall (Forall P) (if bool_decide (cur = []) then fin else fin ++ [cur])) as H3.
  { destruct (bool_decide _); [done|]. apply Forall_app. split; [done|by repeat constructor]. }
  set (ls := if bool_decide (cur = []) then fin else fin ++ [cur]) in *. clearbody ls.
  destruct (bool_decide (ls = [])); [repeat constructor|done].
Qed.

Lemma cut_concat_forall (P : Line -> Prop) g w lines_ rowss :
  Forall2 (cut g w) lines_ rowss -> (forall a rows, a ∈ lines_ -> cut g w a rows -> Forall P rows) ->
  Forall P (concat rowss).
Proof.
  induction 1 as [|a rows l rs Hc _ IH]; intros HP; [constructor|]. cbn. apply Forall_app. split.
  - apply (HP a); [set_solver|done].
  - apply IH. intros. apply (HP a0); [set_solver|done].
Qed.

Lemma reflow_rows_short g w cl sl cx :
  1 <= w <= MAX_WIDTH ->
  Forall (hist_row (N.to_nat w)) (physical (reflow_lines g w cl sl cx)).
Proof.
  intros Hw. destruct (reflow_lines_spec g w cl sl cx Hw) as (_ & _ & rowss & -> & Hc).
  eapply cut_concat_forall; [exact Hc|]. intros a rows _ Hcut. by apply cut_rows in Hcut as [_ ?]; [|lia].
Qed.

Lemma reflow_rows_ok g w cl sl cx :
  1 <= w <= MAX_WIDTH -> arena_wf g ->
  Forall (fun l => Forall (cell_ok g) (cells l)) (physical (reflow_lines g w cl sl cx)).
Proof.
  intros Hw Ha. destruct (reflow_lines_spec g w cl sl cx Hw) as (_ & _ & rowss & -> & Hc).
  pose proof (logical_lines_forall (cell_ok g) g (cell_ok_default g Ha) (ar_cells g Ha)) as Hl.
  rewrite Forall_forall in Hl.
  eapply cut_concat_forall; [exact Hc|]. intros a rows Hin Hcut.
  apply (cut_forall (cell_ok g) g w a rows); [| |by apply cell_ok_default|lia|done|by apply Hl].
  - intros c n (H1 & H2 & H3 & _) Hn. by split_and!.
  - intros c (H1 & H2 & H3 & _). apply plain_ok; [done|done|cbn; lia|done].
Qed.

Lemma blank_lines_fresh w blank id n :
  fresh_lines id (id + N.of_nat n) (blank_lines w blank id n).
Proof.
  replace n with (length (blank_lines w blank id n)) at 1 by (unfold blank_lines; by rewrite length_map, length_seq).
  apply fresh_consecutive. unfold blank_lines. by rewrite map_map, length_map, length_seq.
Qed.

Lemma length_blank_lines w blank id n : length (blank_lines w blank id n) = n.
Proof. unfold blank_lines. by rewrite length_map, length_seq. Qed.

Definition is_blank (w : N) (blank : Cell) (l : Line) : Prop := exists i, l = blank_line w blank i.

Lemma blank_lines_blank w blank id n : Forall (is_blank w blank) (blank_lines w blank id n).
Proof.
  apply Forall_forall. intros l Hl. unfold blank_lines in Hl. apply list_elem_of_fmap in Hl as (i & -> & _).
  by eexists.
Qed.

(** ** The resized grid *)

Lemma length_pad_row w l : length (cells (pad_row w l)) = Nat.max (length (cells l)) (N.to_nat w).
Proof.
  unfold pad_row. destruct (Nat.ltb_spec (length (cells l)) (N.to_nat w)); [|lia]. cbn.
  unfold vec_resize. rewrite length_app, length_take, length_replicate. lia.
Qed.

Lemma pad_row_forall (P : Cell -> Prop) w l : P default_cell -> Forall P (cells l) -> Forall P (cells (pad_row w l)).
Proof.
  intros Hd Hl. unfold pad_row. destruct (_ <? _)%nat; [|done]. cbn. unfold vec_resize.
  apply Forall_app. split; [by apply Forall_take|by apply Forall_replicate].
Qed.

Lemma id_pad_row w l : l_id (pad_row w l) = l_id l.
Proof. unfold pad_row. by destruct (_ <? _)%nat. Qed.

(** [g'] is [g] resized, with the history [sb] and the screen [ls]. *)
Definition installed g (w h : N) (sb ls : list Line) (g' : Grid) : Prop :=
  wf g' /\ same_arenas g g'
  /\ Forall (fun r => r = {| dirty := true; lo := 0; hi := w - 1 |}) (damage g')
  /\ scrollback g' = sb /\ lines g' = ls /\ g_width g' = w /\ g_height g' = h
  /\ scrollback_limit g' = scrollback_limit g /\ pending_scroll_up g' = 0.

(** A resize installs lines of fitting size with identities of their own. *)
Lemma resized_wf g w h sb ls id :
  wf g -> 1 <= w < U16 -> 1 <= h < U16 -> length ls = N.to_nat h ->
  Forall (fun l => length (cells l) = N.to_nat w) ls ->
  Forall (hist_row (N.to_nat w)) sb ->
  (length sb <= N.to_nat (scrollback_limit g))%nat ->
  NoDup (map l_id (sb ++ ls)) -> Forall (fun l => l_id l < id) (sb ++ ls) ->
  Forall (fun l => Forall (cell_ok g) (cells l)) (sb ++ ls) ->
  installed g w h sb ls (resized g w h sb ls id).
Proof.
  intros Hwf Hw Hh Hl Hr Hs Hlim Hn Hid Hc. unfold installed, resized. set (g1 := with_damage _ _ _ _).
  assert (mark_all_damaged g1 = with_damage g1 (map (fun _ => full_row g1) (damage g1)) true 0) as E.
  { unfold mark_all_damaged. change (g_width g1) with w. change (g_height g1) with h.
    destruct (N.eqb_spec w 0), (N.eqb_spec h 0); [lia..|done]. }
  rewrite E. split; [|split; [done|split; [|done]]].
  - split.
    + split; [|done|done|done|done]. cbn. lia.
    + rewrite <- E. apply mark_all_wf; [subst g1; cbn; by rewrite length_replicate|].
      subst g1. cbn. lia.
    + split; [exact Hn|]. unfold ids. cbn. rewrite Forall_forall in Hid. apply Forall_forall.
      intros i Hi. apply list_elem_of_fmap in Hi as (l & -> & Hin). by apply Hid.
    + destruct Hwf as [_ _ _ []]. by split.
  - apply Forall_forall. intros r Hr'. apply list_elem_of_fmap in Hr' as (r0 & -> & _). done.
Qed.

Definition contentless (l : Line) : Prop := has_content l = false.

Lemma fresh_rev a b ls : fresh_lines a b ls -> fresh_lines a b (rev ls).
Proof.
  intros [Hn Hf]. split; [rewrite map_rev, <- Permutation_rev; exact Hn|].
  rewrite <- Permutation_rev. exact Hf.
Qed.

(** The viewport is cut out of the new lines: blank lines around all rows but
    trailing ones without content. *)
Lemma new_viewport_spec g w h blank r cg top a :
  fresh_lines a (r_next_id r) (physical r) -> a <= r_next_id r ->
  let '(ss, ls, id, cg') := new_viewport g w h blank r cg top in
  length ls = (ss + N.to_nat h)%nat /\ fresh_lines a id ls /\ a <= id
  /\ exists t kept after b, ls = t ++ kept ++ b /\ physical r = kept ++ after
       /\ Forall contentless after /\ Forall (is_blank w blank) t /\ Forall (is_blank w blank) b
       /\ (t = [] \/ ss = 0%nat).
Proof.
  intros Hf Ha. unfold new_viewport.
  assert (exists kept after, (grown_start r cg top (N.to_nat h)).2 = kept
    /\ physical r = kept ++ after /\ Forall contentless after
    /\ (length kept <= (grown_start r cg top (N.to_nat h)).1 + N.to_nat h)%nat) as (kept & after & Eg & Ep & Hc & Hl).
  { unfold grown_start. destruct (Nat.ltb_spec (Nat.max top (cg + 1 - N.to_nat h) + N.to_nat h) (length (physical r))).
    - set (s := Nat.max (Nat.max top (cg + 1 - N.to_nat h)) _). exists (take (s + N.to_nat h) (physical r)), (drop (s + N.to_nat h) (physical r)).
      split; [done|]. split; [by rewrite take_drop|]. split; [|cbn [fst]; rewrite length_take; lia].
      destruct (trim_by_spec (fun l => negb (has_content l)) (physical r)) as (k & E & Hk & _).
      assert (content_end (physical r) <= s + N.to_nat h)%nat as Hle by (subst s; lia).
      unfold content_end in Hle. set (t := trim_by _ _) in *. rewrite E, drop_app_ge by done.
      apply Forall_drop. eapply Forall_impl; [exact Hk|]. intros l Hl. by apply negb_true_iff in Hl.
    - exists (physical r), []. rewrite app_nil_r. split_and!; [done|done|done|cbn [fst]; lia]. }
  destruct (g_height g <? h).
  - destruct (grown_start r cg top (N.to_nat h)) as [ss ls]. cbn [fst snd] in *. subst ls.
    assert (fresh_lines a (r_next_id r) kept) as Hfk.
    { eapply fresh_sublist; [|exact Hf]. rewrite Ep. by apply sublist_inserts_r. }
    pose proof (blank_lines_fresh w blank (r_next_id r) (ss + N.to_nat h - length kept)) as Hb.
    split; [rewrite length_app, length_blank_lines; lia|].
    split; [refine (proj1 (fresh_app a (r_next_id r) _ _ _ Ha _ Hfk Hb)); lia|]. split; [lia|].
    exists [], kept, after, (blank_lines w blank (r_next_id r) (ss + N.to_nat h - length kept)).
    split_and!; [done|done|done|constructor|apply blank_lines_blank|by left].
  - set (n := (N.to_nat h - length (physical r))%nat).
    pose proof (blank_lines_fresh w blank (r_next_id r) n) as Hb. apply fresh_rev in Hb.
    rewrite length_app, length_rev, length_blank_lines.
    split; [lia|]. split; [refine (proj2 (fresh_app a (r_next_id r) _ _ _ Ha _ Hf Hb)); lia|]. split; [lia|].
    exists (rev (blank_lines w blank (r_next_id r) n)), (physical r), [], [].
    rewrite !app_nil_r. split; [done|]. split; [done|]. split; [done|]. split.
    + apply Forall_rev. apply blank_lines_blank.
    + split; [constructor|]. destruct (decide (n = 0)%nat) as [E|]; [rewrite E; by left|right; lia].
Qed.

(** A visible row is a new row filled up to the width. *)
Definition same_row (w : N) (l l' : Line) : Prop := l' = l \/ l' = pad_row w l.

(** What a width change leaves on the grid [g']: the rows of the logical lines
    of [g], less the oldest where the history is full and trailing rows without
    content, between blank lines. *)
Definition reflowed g (w : N) (blank : Cell) (g' : Grid) : Prop :=
  exists rowss oldest kept after top bottom,
    Forall2 (cut g w) (logical_lines g) rowss
    /\ concat rowss = oldest ++ kept ++ after /\ Forall contentless after
    /\ Forall2 (same_row w) (top ++ kept ++ bottom) (scrollback g' ++ lines g')
    /\ Forall (is_blank w blank) top /\ Forall (is_blank w blank) bottom
    /\ (oldest = [] \/ length (scrollback g') = N.to_nat (scrollback_limit g')).

Lemma reflow_width_spec g w h blank cursor pending :
  wf g -> cell_ok g blank -> 1 <= w <= MAX_WIDTH -> 1 <= h < U16 ->
  let '(g', (cx, cy, _)) := reflow_width g w h blank cursor pending in
  wf g' /\ same_arenas g g' /\ g_width g' = w /\ g_height g' = h
  /\ scrollback_limit g' = scrollback_limit g
  /\ Forall (fun r => r = {| dirty := true; lo := 0; hi := w - 1 |}) (damage g')
  /\ pending_scroll_up g' = 0 /\ cx < w /\ cy < h /\ reflowed g w blank g'.
Proof.
  intros Hwf Hb Hw Hh. unfold reflow_width.
  set (r := reflow_lines g w _ _ _).
  destruct (reflow_lines_spec g w (length (scrollback g) + N.to_nat cursor.2) (length (scrollback g))
    cursor.1 Hw) as (Hf & Hn & rowss & Hp & Hcut). fold r in Hf, Hn, Hp.
  pose proof (reflow_rows_short g w (length (scrollback g) + N.to_nat cursor.2) (length (scrollback g))
    cursor.1 Hw) as Hshort. fold r in Hshort.
  pose proof (reflow_rows_ok g w (length (scrollback g) + N.to_nat cursor.2) (length (scrollback g))
    cursor.1 Hw (wf_arena g Hwf)) as Hok. fold r in Hok. clearbody r.
  destruct (cursor_span (anchors r)) as [cs cc]. destruct (map_cursor _ _ _) as [[cr cx] mp].
  destruct (screen_span (anchors r)) as [sf sc].
  set (cg := (cs + _)%nat). set (top0 := (sf + _)%nat).
  pose proof (new_viewport_spec g w h blank r cg top0 (next_line_id g) Hf Hn) as Hv.
  destruct (new_viewport g w h blank r cg top0) as [[[ss ls] id] cg'].
  destruct Hv as (Hlen & Hfl & Hid & t & kept & after & b & Els & Ephys & Haft & Ht & Hbb & Hts).
  cbn zeta beta iota. set (hs := (ss - N.to_nat (scrollback_limit g))%nat).
  set (phys := drop hs ls). set (ret := (ss - hs)%nat).
  assert (forall l, l ∈ ls -> hist_row (N.to_nat w) l /\ Forall (cell_ok g) (cells l)) as Hall.
  { intros l Hl. rewrite Els in Hl. rewrite Forall_forall in Hshort, Hok, Ht, Hbb.
    assert (l ∈ kept -> l ∈ physical r) as Hk by (intros; rewrite Ephys; apply elem_of_app; by left).
    assert (is_blank w blank l -> hist_row (N.to_nat w) l /\ Forall (cell_ok g) (cells l)) as Hbl.
    { intros [i ->]. split; [split; cbn; by rewrite length_replicate|]. by apply Forall_replicate. }
    apply elem_of_app in Hl as [Hl|Hl]; [by apply Hbl, Ht|].
    apply elem_of_app in Hl as [Hl|Hl]; [split; [by apply Hshort, Hk|by apply Hok, Hk]|by apply Hbl, Hbb]. }
  assert (forall l, l ∈ phys -> l ∈ ls) as Hsub.
  { intros l Hl. eapply elem_of_submseteq; [exact Hl|]. apply sublist_submseteq, sublist_drop. }
  assert (length phys = (ret + N.to_nat h)%nat) as Hplen by (unfold phys, ret; rewrite length_drop; lia).
  assert (fresh_lines (next_line_id g) id phys) as [Hpn Hpf] by (eapply fresh_sublist; [apply sublist_drop|done]).
  assert (map l_id (take ret phys ++ map (pad_row w) (drop ret phys)) = map l_id phys) as Eid.
  { rewrite map_app, map_map, (map_ext (fun l => l_id (pad_row w l)) l_id (id_pad_row w)).
    by rewrite <- map_app, take_drop. }
  assert (forall l, l ∈ take ret phys -> l ∈ phys) as Htake.
  { intros l Hl. eapply elem_of_submseteq; [exact Hl|]. apply sublist_submseteq, sublist_take. }
  assert (forall l, l ∈ drop ret phys -> l ∈ phys) as Hdrop.
  { intros l Hl. eapply elem_of_submseteq; [exact Hl|]. apply sublist_submseteq, sublist_drop. }
  destruct (resized_wf g w h (take ret phys) (map (pad_row w) (drop ret phys)) id)
    as (W1 & W2 & W3 & W4 & W5 & W6 & W7 & W8 & W9); [done|unfold MAX_WIDTH, U16 in *; lia|done|..].
  - rewrite length_map, length_drop. lia.
  - apply Forall_forall. intros l Hl. apply list_elem_of_fmap in Hl as (l0 & -> & Hl0).
    rewrite length_pad_row. destruct (Hall l0 ltac:(auto)) as [[? _] _]. lia.
  - apply Forall_forall. intros l Hl. apply Hall. auto.
  - rewrite length_take. unfold ret, hs. lia.
  - by rewrite Eid.
  - apply Forall_forall. intros l Hl. rewrite Forall_forall in Hpf.
    assert (l_id l ∈ map l_id phys) as Hi by (rewrite <- Eid; by apply list_elem_of_fmap_2).
    apply list_elem_of_fmap in Hi as (l0 & -> & Hl0). by apply Hpf.
  - apply Forall_app. split; apply Forall_forall; intros l Hl; [apply Hall; auto|].
    apply list_elem_of_fmap in Hl as (l0 & -> & Hl0).
    apply pad_row_forall; [apply cell_ok_default, Hwf|]. apply Hall. auto.
  - split; [done|]. split; [done|]. split; [done|]. split; [done|]. split; [done|]. split; [done|].
    split; [done|]. split; [lia|]. split.
    { apply N.le_lt_trans with (N.of_nat (Nat.min (cg' - hs - ret) (N.to_nat h - 1))); [|lia].
      apply N.Div0.mod_le. }
    exists rowss, (take hs kept), (drop hs kept), after, (drop hs t), (drop (hs - length (t ++ kept)) b).
    split; [done|]. split; [by rewrite app_assoc, take_drop, <- Hp|]. split; [done|]. split; [|split; [|split]].
    + rewrite W4, W5. assert (drop hs t ++ drop hs kept ++ drop (hs - length (t ++ kept)) b = phys) as ->.
      { unfold phys. rewrite Els. destruct Hts as [->|Hss]; [rewrite drop_nil; cbn [app]; by rewrite drop_app|].
        assert (hs = 0%nat) as E0 by (unfold hs; lia). by rewrite E0, Nat.sub_0_l, !drop_0. }
      rewrite <- (take_drop ret phys) at 1. apply Forall2_app.
      * apply Forall_Forall2_diag, Forall_forall. by left.
      * apply Forall2_fmap_r, Forall_Forall2_diag, Forall_forall. by right.
    + by apply Forall_drop.
    + by apply Forall_drop.
    + rewrite W4, W8. destruct (decide (hs = 0)%nat) as [->|Hne]; [by left|right].
      rewrite length_take. unfold ret. lia.
Qed.

Lemma keep_last_app {A} n (l k : list A) :
  keep_last n (keep_last n l ++ k) = keep_last n (l ++ k).
Proof.
  unfold keep_last. rewrite !length_app, length_drop.
  destruct (decide (length l <= N.to_nat n)%nat) as [Hle|Hgt].
  - replace (length l - N.to_nat n)%nat with 0%nat by lia. by rewrite drop_0, Nat.sub_0_r.
  - replace (length l - (length l - N.to_nat n) + length k - N.to_nat n)%nat with (length k) by lia.
    rewrite !drop_app, drop_drop, length_drop. f_equal; f_equal; lia.
Qed.

Lemma push_scrollback_keep g l :
  (length (scrollback g) <= N.to_nat (scrollback_limit g))%nat ->
  push_scrollback g l =
  with_history g (keep_last (scrollback_limit g) (scrollback g ++ [l])) (scrollback_limit g).
Proof.
  intros Hl. unfold push_scrollback. destruct (N.eqb_spec (scrollback_limit g) 0) as [E|]; [|done].
  assert (scrollback g = []) as Es by (apply length_zero_iff_nil; lia).
  rewrite Es. unfold keep_last. cbn [length app]. rewrite drop_ge by (cbn; lia).
  rewrite <- Es at 1. by destruct g.
Qed.

Lemma fold_push_scrollback (f : Line -> Line) ls g :
  (length (scrollback g) <= N.to_nat (scrollback_limit g))%nat ->
  foldl (fun g l => push_scrollback g (f l)) g ls =
  with_history g (keep_last (scrollback_limit g) (scrollback g ++ map f ls)) (scrollback_limit g).
Proof.
  revert g. induction ls as [|l ls IH]; intros g Hl.
  - cbn. rewrite app_nil_r, keep_last_all by done. by destruct g.
  - cbn [foldl map]. rewrite push_scrollback_keep by done. rewrite IH by apply keep_last_length.
    cbn [with_history scrollback scrollback_limit]. by rewrite keep_last_app, <- app_assoc.
Qed.

Lemma ids_sub (g : Grid) sb ls :
  ids_wf g -> map l_id (sb ++ ls) `sublist_of` ids g ->
  NoDup (map l_id (sb ++ ls)) /\ Forall (fun l => l_id l < next_line_id g) (sb ++ ls).
Proof.
  intros [Hn Hf] Hs. split; [by eapply NoDup_sublist|].
  apply Forall_forall. intros l Hl. eapply Forall_sublist in Hf; [|exact Hs].
  rewrite Forall_forall in Hf. apply Hf. by apply list_elem_of_fmap_2.
Qed.

(** More rows at the same width: blank ones below. *)
Lemma grow_installed g h blank :
  wf g -> cell_ok g blank -> 1 <= g_width g -> g_height g < h < U16 ->
  let bottom := blank_lines (g_width g) blank (next_line_id g) (N.to_nat h - length (lines g)) in
  installed g (g_width g) h (scrollback g) (lines g ++ bottom)
    (resized g (g_width g) h (scrollback g) (lines g ++ bottom)
       (next_line_id g + N.of_nat (N.to_nat h - length (lines g)))).
Proof.
  intros Hwf Hb Hw Hh bottom. pose proof Hwf as [Hs _ [Hn Hf] Ha].
  pose proof (sh_lines g Hs) as Hlen. destruct (sh_dims g Hs).
  set (n := (N.to_nat h - length (lines g))%nat) in *.
  pose proof (blank_lines_fresh (g_width g) blank (next_line_id g) n) as [Bn Bf].
  pose proof (blank_lines_blank (g_width g) blank (next_line_id g) n) as Bb.
  apply resized_wf; [done|lia|lia|..].
  - unfold bottom. rewrite length_app, length_blank_lines. lia.
  - apply Forall_app. split; [apply Hs|]. eapply Forall_impl; [exact Bb|].
    intros l [i ->]. cbn. by rewrite length_replicate.
  - apply Hs.
  - apply Hs.
  - rewrite app_assoc, map_app. apply NoDup_app. split; [done|]. split; [|done].
    intros i Hin Hb'. rewrite Forall_forall in Hf. rewrite Forall_forall in Bf. specialize (Hf i Hin).
    apply list_elem_of_fmap in Hb' as (l & -> & Hl). specialize (Bf l Hl). cbn in Bf. lia.
  - rewrite app_assoc. apply Forall_app. split; [|eapply Forall_impl; [exact Bf|]; cbn; lia].
    apply Forall_forall. intros l Hl. rewrite Forall_forall in Hf.
    specialize (Hf (l_id l) ltac:(by apply (list_elem_of_fmap_2 l_id))). lia.
  - rewrite app_assoc. apply Forall_app. split; [apply Ha|].
    eapply Forall_impl; [exact Bb|]. intros l [i ->]. cbn. by apply Forall_replicate.
Qed.

(** Fewer rows at the same width: the top ones leave for the history. *)
Lemma shrink_installed g h blank n :
  wf g -> cell_ok g blank -> 1 <= g_width g -> 1 <= h < U16 ->
  n = N.to_nat (g_height g - h) -> h < g_height g ->
  let sb := keep_last (scrollback_limit g) (scrollback g ++ map trim_default_tail (take n (lines g))) in
  installed g (g_width g) h sb (drop n (lines g))
    (resized g (g_width g) h sb (drop n (lines g)) (next_line_id g)).
Proof.
  intros Hwf Hb Hw Hh -> Hlt. set (n := N.to_nat (g_height g - h)). intros sb.
  pose proof Hwf as [Hs _ Hi Ha]. pose proof (sh_lines g Hs) as Hlen. destruct (sh_dims g Hs).
  assert (map l_id (sb ++ drop n (lines g)) `sublist_of` ids g) as Hsub.
  { assert (ids g = map l_id (scrollback g ++ take n (lines g)) ++ map l_id (drop n (lines g))) as ->.
    { unfold ids. by rewrite <- map_app, <- app_assoc, take_drop. }
    rewrite map_app. apply sublist_app; [|done].
    transitivity (map l_id (scrollback g ++ map trim_default_tail (take n (lines g)))).
    - apply fmap_sublist, keep_last_sublist.
    - rewrite !map_app, map_map, (map_ext (fun l => l_id (trim_default_tail l)) l_id id_trim). done. }
  destruct (ids_sub g sb (drop n (lines g)) Hi Hsub) as [Sn Sf].
  assert (Forall (line_from g blank) sb) as Hfrom.
  { apply line_from_app. intros l Hl. eapply elem_of_submseteq in Hl; [|apply sublist_submseteq, keep_last_sublist].
    apply elem_of_app in Hl as [Hl|Hl]; [exists l; set_solver|].
    apply list_elem_of_fmap in Hl as (l0 & -> & Hl0). exists l0. split; [|by right].
    apply elem_of_app. right. eapply elem_of_submseteq; [exact Hl0|]. apply sublist_submseteq, sublist_take. }
  apply resized_wf; [done|lia|lia|..|done|done|].
  - rewrite length_drop. lia.
  - apply Forall_drop, Hs.
  - eapply Forall_impl; [exact Hfrom|]. intros l. by apply line_from_short.
  - apply keep_last_length.
  - apply Forall_app. split.
    + eapply Forall_impl; [exact Hfrom|]. intros l. by apply line_from_cells.
    + apply Forall_drop. pose proof (ar_cells g Ha) as Hc. by apply Forall_app in Hc as [_ ?].
Qed.

(** What a resize of [g] to another size leaves: [out] is the new grid and the
    new cursor. *)
Definition resize_kept g (w h : N) (blank : Cell) (out : Grid * (N * N * bool)) : Prop :=
  let '(g', (cx, cy, _)) := out in
  wf g' /\ same_arenas g g' /\ g_width g' = w /\ g_height g' = h /\ cx < w /\ cy < h
  /\ Forall (fun r => r = {| dirty := true; lo := 0; hi := w - 1 |}) (damage g')
  /\ pending_scroll_up g' = 0 /\ scrollback_limit g' = scrollback_limit g
  /\ if decide (w = g_width g) then
       if decide (g_height g < h) then
         scrollback g' = scrollback g
         /\ exists bottom, lines g' = lines g ++ bottom /\ Forall (is_blank w blank) bottom
       else exists gone rest, lines g = gone ++ rest /\ lines g' = rest
         /\ scrollback g' = keep_last (scrollback_limit g) (scrollback g ++ map trim_default_tail gone)
     else reflowed g w blank g'.

Lemma resize_spec g w h blank cursor pending :
  wf g -> cell_ok g blank -> 1 <= w <= MAX_WIDTH -> 1 <= h < U16 ->
  cursor.2 < g_height g -> (w <> g_width g \/ h <> g_height g) ->
  resize_kept g w h blank (resize_reflow g w h blank cursor pending).
Proof.
  intros Hwf Hb Hw Hh Hcy Hne. unfold resize_kept, resize_reflow. unfold MAX_WIDTH, U16 in Hw, Hh.
  replace (N.max w 1) with w by lia. replace (N.max h 1) with h by lia.
  pose proof Hwf as [Hs _ Hi Ha]. pose proof (sh_lines g Hs) as Hlen.
  destruct (N.eqb_spec w (g_width g)) as [Ew|Ew].
  2:{ rewrite !andb_false_r. cbn [andb].
      pose proof (reflow_width_spec g w h blank cursor pending Hwf Hb ltac:(done) ltac:(done)) as H0.
      destruct (reflow_width g w h blank cursor pending) as [g' [[cx cy] p]].
      rewrite (decide_False (P := w = g_width g)) by done.
    destruct H0 as (? & ? & ? & ? & ? & ? & ? & ? & ? & ?). split_and!; done. }
  rewrite !andb_true_r. subst w. destruct (N.eqb_spec h (g_height g)) as [Eh|Eh]; [lia|].
  cbn [andb]. destruct (N.ltb_spec (g_height g) h) as [Hlt|Hge].
  - rewrite (decide_True (P := g_width g = g_width g)), (decide_True (P := g_height g < h)) by done.
    destruct (grow_installed g h blank) as (W1 & W2 & W3 & W4 & W5 & W6 & W7 & W8 & W9); [done|done|lia|unfold U16; lia|].
    split_and!; try done; [lia|lia|]. eexists. split; [exact W5|]. apply blank_lines_blank.
  - destruct (N.ltb_spec h (g_height g)); [|lia].
    rewrite (decide_True (P := g_width g = g_width g)), (decide_False (P := g_height g < h)) by lia.
    rewrite (fold_push_scrollback trim_default_tail) by apply Hs. cbn [with_history scrollback].
    set (sb := keep_last _ _). set (n := N.to_nat (g_height g - h)).
    change (resized (with_history g sb (scrollback_limit g)) (g_width g) h sb (drop n (lines g)) (next_line_id g))
      with (resized g (g_width g) h sb (drop n (lines g)) (next_line_id g)).
    destruct (shrink_installed g h blank n) as (W1 & W2 & W3 & W4 & W5 & W6 & W7 & W8 & W9);
      [done|done|lia|unfold U16; lia|done|done|].
    split_and!; try done; [lia|lia|]. exists (take n (lines g)), (drop n (lines g)). by rewrite take_drop.
Qed.

(** C10: a resize keeps the text. Whatever the new size, the grid stays well
    formed, the arenas are kept, everything is damaged and the cursor is inside.
    A taller screen adds blank rows below; a shorter one moves its top rows to
    the history; a width change cuts every logical line anew into rows that hold
    its glyphs in order, each full but the last, with a blank only where a wide
    glyph does not fit; only the oldest lines beyond the history limit and
    trailing rows without content are dropped. *)
Theorem resize_keeps_text g w h blank cursor pending :
  wf g -> cell_ok g blank -> 1 <= w <= MAX_WIDTH -> 1 <= h < U16 ->
  cursor.2 < g_height g -> (w <> g_width g \/ h <> g_height g) ->
  resize_kept g w h blank (resize_reflow g w h blank cursor pending).
Proof. apply resize_spec. Qed.
End ReflowInv.

Lemma resize_keeps_text_witness :
  wf sample_grid /\ resize_kept (H := sample_unicode) sample_grid 2 3 default_cell
    (resize_reflow (H := sample_unicode) sample_grid 2 3 default_cell (3, 1) false).
Proof.
  pose proof sample_grid_wf as H1.
  assert (cell_ok sample_grid default_cell) as H2 by (apply cell_ok_default, H1).
  split; [done|].
  refine (resize_keeps_text (H := sample_unicode) sample_grid 2 3 default_cell (3, 1) false H1 H2 _ _ _ _);
    first [by vm_compute|left; by vm_compute].
Defined.
