(* ===== verification/GridOps.v ===== *)
(** * Programs over the terminal grid

    The operations of Grid.v and Reflow.v as one step function, and that every
    sequence of them keeps the invariant of GridInv.v and the bound of
    GridRoom.v. *)

From S2P Require Import Prelude Cell Grid GridInv GridEdit GridScroll GridRoom Reflow ReflowInv.

Section GridOps.
Context `{Unicode}.
Implicit Types g : Grid.

Inductive grid_op : Set :=
| OSet (x y : N) (c : Cell)
| OClearGlyph (x y : N) (blank : Cell)
| OErase (y from to : N) (blank : Cell)
| ODelete (y from count : N) (blank : Cell)
| OInsert (y from count : N) (blank : Cell)
| OGrapheme (x y : N) (text : str) (c : Cell) (w : N)
| OAppend (x y : N) (c : char)
| OScrollUp (blank : Cell)
| ORegionUp (top bottom : N) (blank : Cell)
| ORegionUpDiscarding (top bottom : N) (blank : Cell)
| ORegionDown (top bottom : N) (blank : Cell)
| ORowWrapped (y : N) (b : bool)
| OMarkAll
| OClearDamage
| OLimit (n : N)
| OClearHistory
| OInternLink (uri : str)
| OInternColor (c : Color)
| OResize (w h : N) (blank : Cell) (cursor : N * N) (pending : bool).

Definition run_op g (o : grid_op) : Grid :=
  match o with
  | OSet x y c => set g x y c
  | OClearGlyph x y b => clear_glyph_at g x y b
  | OErase y from to b => erase_cells g y from to b
  | ODelete y from n b => delete_cells g y from n b
  | OInsert y from n b => insert_cells g y from n b
  | OGrapheme x y t c w => set_grapheme g x y t c w
  | OAppend x y c => (append_to_grapheme g x y c).1
  | OScrollUp b => scroll_up g b
  | ORegionUp top bottom b => scroll_region_up g top bottom b
  | ORegionUpDiscarding top bottom b => scroll_region_up_discarding g top bottom b
  | ORegionDown top bottom b => scroll_region_down g top bottom b
  | ORowWrapped y b => set_row_wrapped g y b
  | OMarkAll => mark_all_damaged g
  | OClearDamage => clear_damage g
  | OLimit n => set_scrollback_limit g n
  | OClearHistory => clear_scrollback g
  | OInternLink u => (intern_hyperlink g u).1
  | OInternColor c => (intern_underline_color g c).1
  | OResize w h b cursor pending => (resize_reflow g w h b cursor pending).1
  end.

(** What a caller owes: cells made of the grid's own handles, sizes for which
    column arithmetic stays in sixteen bits, and a retained grid small enough
    for handles of thirty-two bits. *)
Definition op_ok g (o : grid_op) : Prop :=
  match o with
  | OSet _ _ c => cell_ok g c
  | OClearGlyph _ _ b | OErase _ _ _ b | ODelete _ _ _ b | OInsert _ _ _ b
  | OScrollUp b | ORegionUp _ _ b | ORegionUpDiscarding _ _ b | ORegionDown _ _ b => cell_ok g b
  | OGrapheme _ _ _ c _ => style_ok g c
  | OLimit n => (n + g_height g) * g_width g <= CELLS_MAX
  | OResize w h b cursor _ =>
      cell_ok g b /\ 1 <= w <= MAX_WIDTH /\ 1 <= h < U16 /\ cursor.2 < g_height g
      /\ (scrollback_limit g + h) * w <= CELLS_MAX
  | _ => True
  end.

Fixpoint ops_ok g (os : list grid_op) : Prop :=
  match os with [] => True | o :: os => op_ok g o /\ ops_ok (run_op g o) os end.

Definition run_ops g (os : list grid_op) : Grid := foldl run_op g os.

(** ** The invariant *)

Lemma append_sound g x y c : sound g -> sound (append_to_grapheme g x y c).1.
Proof.
  intros Hg. unfold append_to_grapheme. destruct (_ || _); [done|].
  set (lead_x := if _ && _ then x - 1 else x). destruct (negb _); [done|]. cbn.
  apply set_grapheme_steady; [apply peek_style, (wf_arena g), Hg|done].
Qed.

(** A resize changes no arena. *)
Definition arenas_of g := (clusters g, cluster_gc_at g, hyperlinks g, hyperlink_gc_at g, scrollback_limit g).

Lemma resized_room g w h sb ls id : arenas_of (resized g w h sb ls id) = arenas_of g.
Proof. unfold resized, mark_all_damaged. by destruct (_ || _). Qed.

Lemma resize_room g w h b cursor pending :
  arenas_of (resize_reflow g w h b cursor pending).1 = arenas_of g.
Proof.
  unfold resize_reflow. destruct (_ && _); [done|]. destruct (_ && _); [apply resized_room|].
  destruct (_ && _).
  - cbn [fst]. rewrite resized_room. generalize (take (N.to_nat (g_height g - N.max h 1)) (lines g)) as ls.
    intros ls. clear. revert g. induction ls as [|l ls IH]; intros g; [done|]. cbn [foldl]. rewrite IH.
    pose proof (push_scrollback_still g (trim_default_tail l)) as E. injection E as ? ? ? ? ? ? ? ?.
    unfold arenas_of. congruence.
  - unfold reflow_width. destruct (cursor_span _), (map_cursor _ _ _) as [[? ?] ?], (screen_span _),
      (new_viewport _ _ _ _ _ _ _) as [[[? ?] ?] ?]. apply resized_room.
Qed.

Lemma resize_sound g w h b cursor pending :
  cell_ok g b -> 1 <= w <= MAX_WIDTH -> 1 <= h < U16 -> cursor.2 < g_height g ->
  (scrollback_limit g + h) * w <= CELLS_MAX -> sound g -> sound (resize_reflow g w h b cursor pending).1.
Proof.
  intros Hb Hw Hh Hc Hcap [Hwf Hr Hcap0].
  destruct (decide (w <> g_width g \/ h <> g_height g)) as [Hne|Heq].
  - pose proof (resize_spec g w h b cursor pending Hwf Hb Hw Hh Hc Hne) as Hz. unfold resize_kept in Hz.
    pose proof (resize_room g w h b cursor pending) as Er.
    destruct (resize_reflow g w h b cursor pending) as [g' [[cx cy] p]].
    destruct Hz as (Hwf' & _ & Ew & Eh & _). cbn [fst] in *. injection Er as E1 E2 E3 E4 E5.
    split; [done|by apply (roomy_same g)|]. unfold capacity. by rewrite E5, Ew, Eh.
  - unfold resize_reflow. replace (N.max w 1) with w by lia. replace (N.max h 1) with h by lia.
    destruct (N.eqb_spec w (g_width g)); [|tauto]. destruct (N.eqb_spec h (g_height g)); [|tauto]. done.
Qed.

Lemma run_op_sound g o : sound g -> op_ok g o -> sound (run_op g o).
Proof.
  intros Hg Hok. pose proof (so_wf g Hg) as Hwf. destruct o; cbn [run_op op_ok] in *.
  - by eapply sets_steady; [apply sets_one|].
  - by eapply sets_steady; [apply clear_glyph_sets|].
  - by eapply sets_steady; [apply erase_sets|].
  - by eapply sets_steady; [apply delete_sets|].
  - by eapply sets_steady; [apply insert_sets|].
  - by apply set_grapheme_steady.
  - by apply append_sound.
  - by apply scroll_up_steady.
  - by apply region_up_steady.
  - by apply region_up_steady.
  - by apply region_down_steady.
  - by apply row_wrapped_steady.
  - by apply mark_all_steady.
  - by apply clear_damage_steady.
  - by apply limit_sound.
  - by apply clear_scrollback_steady.
  - by apply intern_link_sound.
  - pose proof (intern_color_sound g c Hg) as Hc. destruct (intern_underline_color g c). apply Hc.
  - destruct Hok as (Hb & Hw & Hh & Hc & Hcap). by apply resize_sound.
Qed.

(** C19: the grid is always well formed. From a fresh grid, no sequence of
    operations breaks the invariant: rows and damage have the size of the
    screen, history stays within its limit and its soft-wrapped lines are full,
    line identities never repeat, damage ranges lie within rows, the dirty flag
    is exact, every handle of every cell stands for an entry of its arena, so
    that no access is out of range, and the arenas are compacted before their
    handles outgrow thirty-two bits. *)
Theorem grid_invariant w h os :
  w < U16 -> h < U16 -> (10000 + h) * w <= CELLS_MAX -> ops_ok (new w h) os ->
  sound (run_ops (new w h) os).
Proof.
  intros Hw Hh Hc. pose proof (new_sound w h Hw Hh Hc) as Hg. revert Hg. generalize (new w h) as g.
  induction os as [|o os IH]; intros g Hg Hos; [done|]. destruct Hos as [Ho Hos].
  apply (IH (run_op g o)); [by apply run_op_sound|exact Hos].
Qed.
End GridOps.

Definition sample_ops : list grid_op :=
  [OGrapheme 0 0 [97; 769] default_cell 1; OScrollUp default_cell; OInternLink [104]; OLimit 3;
   OResize 2 3 default_cell (0, 1) false; OClearDamage].

Lemma grid_invariant_witness :
  ops_ok (H := sample_unicode) (new 4 2) sample_ops /\ sound (run_ops (H := sample_unicode) (new 4 2) sample_ops).
Proof.
  assert (forall g, wf g -> cell_ok g default_cell /\ style_ok g default_cell) as Hd.
  { intros g Hg. split; [apply cell_ok_default, Hg|apply (blank_style g Default Default), Hg]. }
  assert (ops_ok (H := sample_unicode) (new 4 2) sample_ops) as H1.
  { assert (sound (new 4 2)) as S0 by (apply new_sound; vm_compute; done).
    unfold sample_ops. cbn [ops_ok]. split; [apply Hd, S0|].
    pose proof (run_op_sound (H := sample_unicode) _ (OGrapheme 0 0 [97; 769] default_cell 1) S0 (proj2 (Hd _ (so_wf _ S0)))) as S1.
    split; [apply Hd, S1|].
    pose proof (run_op_sound (H := sample_unicode) _ (OScrollUp default_cell) S1 (proj1 (Hd _ (so_wf _ S1)))) as S2.
    split; [done|]. pose proof (run_op_sound (H := sample_unicode) _ (OInternLink [104]) S2 I) as S3.
    assert (op_ok (run_op (H := sample_unicode) (run_op (H := sample_unicode) (run_op (H := sample_unicode) (new 4 2)
      (OGrapheme 0 0 [97; 769] default_cell 1)) (OScrollUp default_cell)) (OInternLink [104])) (OLimit 3)) as O4
      by (vm_compute; done).
    split; [exact O4|]. pose proof (run_op_sound (H := sample_unicode) _ (OLimit 3) S3 O4) as S4.
    split; [|done]. cbn [op_ok]. split; [apply Hd, S4|]. vm_compute. done. }
  split; [done|].
  exact (grid_invariant (H := sample_unicode) 4 2 sample_ops ltac:(done) ltac:(done) ltac:(vm_compute; done) H1).
Defined.
