(* ===== verification/Wide.v ===== *)
(** * Wide glyphs stay whole

    On every screen row a glyph of two columns has its second half right of it,
    and a second half has its glyph: [paired].  Every operation of the grid
    keeps it, a deletion or insertion of cells by the repair of the row. *)

From S2P Require Import Prelude Cell Grid GridInv GridEdit GridScroll GridRoom Reflow ReflowInv GridOps.

(** Widths of a row: [0] is a second half, [2] a wide glyph. *)
Definition paired (w : N) (f : N -> N) : Prop :=
  (0 < w -> f 0 <> 0)
  /\ forall x, x < w -> (f x = 2 -> x + 1 < w) /\ (x + 1 < w -> f x = 2 <-> f (x + 1) = 0).

Definition width_at (g : Grid) (y x : N) : N := width (peek g x y).

Definition wide_ok (g : Grid) : Prop :=
  forall y, y < g_height g -> paired (g_width g) (width_at g y).

Lemma paired_ext w f f' : (forall x, x < w -> f' x = f x) -> paired w f -> paired w f'.
Proof.
  intros E [H0 H]. split; [intros Hw; rewrite E by done; auto|]. intros x Hx. rewrite (E x Hx).
  split; [apply H; done|]. intros Hx1. rewrite (E (x + 1) Hx1). by apply H.
Qed.

(** A row of single columns. *)
Lemma paired_ones w f : (forall x, x < w -> f x = 1) -> paired w f.
Proof.
  intros H. split; [intros Hw; by rewrite H|]. intros x Hx. rewrite (H x Hx). split; [done|].
  intros Hx1. by rewrite (H (x + 1) Hx1).
Qed.

(** ** Edits of one row *)

Definition upd (f : N -> N) (k v : N) : N -> N := fun x => if x =? k then v else f x.

(** [g'] is [g] with row [y] edited to the widths [f]. *)
Record edited (g g' : Grid) (y : N) (f : N -> N) : Prop := {
  ed_shape : shape g';
  ed_dims : g_width g' = g_width g /\ g_height g' = g_height g;
  ed_row : forall x, x < g_width g -> y < g_height g -> width_at g' y x = f x;
  ed_rest : forall x y', y' <> y -> x < g_width g -> y' < g_height g -> width_at g' y' x = width_at g y' x }.

Lemma edited_refl g y : shape g -> edited g g y (width_at g y).
Proof. by split. Qed.

Lemma edited_wide g g' y f : edited g g' y f -> wide_ok g -> paired (g_width g) f -> wide_ok g'.
Proof.
  intros [_ [Ew Eh] Hr Ho] Hg Hf y' Hy. rewrite Ew. rewrite Eh in Hy.
  destruct (decide (y' = y)) as [->|Hne].
  - apply (paired_ext _ f); [|done]. intros x Hx. by apply Hr.
  - apply (paired_ext _ (width_at g y')); [|by apply Hg]. intros x Hx. by apply Ho.
Qed.

Lemma set_shape g x y c : shape g -> shape (set g x y c).
Proof.
  intros Hs. unfold set. destruct (_ || _); [done|]. destruct (decide _); [done|].
  destruct (put_shape g x y c Hs). by split.
Qed.

Lemma width_set g x y c x' y' :
  shape g -> x < g_width g -> y < g_height g ->
  width_at (set g x y c) y' x' = if decide (x' = x /\ y' = y) then width c else width_at g y' x'.
Proof.
  intros Hs Hx Hy. unfold set, width_at.
  destruct (N.leb_spec (g_width g) x); [lia|]. destruct (N.leb_spec (g_height g) y); [lia|]. cbn [orb].
  destruct (decide (peek g x y = c)) as [<-|Hne].
  - case_decide as D; [|done]. by destruct D as [-> ->].
  - unfold peek. change (get (mark_damage (put g x y c) x y) x' y') with (get (put g x y c) x' y').
    rewrite get_put by done. by case_decide.
Qed.

Lemma edited_set g g' y f x c :
  edited g g' y f -> x < g_width g -> y < g_height g -> edited g (set g' x y c) y (upd f x (width c)).
Proof.
  intros [Hs [Ew Eh] Hr Ho] Hx Hy. destruct (set_dims g' x y c) as [Ew' Eh'].
  split; [by apply set_shape|by rewrite Ew', Eh'| |].
  - intros x' Hx' _. rewrite width_set by (done || lia). unfold upd.
    destruct (N.eqb_spec x' x) as [->|]; [by rewrite decide_True|]. rewrite decide_False by tauto. by apply Hr.
  - intros x' y' Hne Hx' Hy'. rewrite width_set by (done || lia). rewrite decide_False by tauto. by apply Ho.
Qed.

Ltac columns := unfold upd in *; repeat match goal with
  | |- context [?a =? ?b] => destruct (N.eqb_spec a b); subst
  end; try lia.

(** A whole glyph is replaced by single columns. *)
Lemma paired_clear w f x :
  paired w f -> x + 1 < w -> f x = 2 -> paired w (upd (upd f x 1) (x + 1) 1).
Proof.
  intros [H0 H] Hx Ex. split; [intros Hw; specialize (H0 Hw); columns|]. intros k Hk.
  destruct (H k Hk) as [Ha Hb]. destruct (H (x + 1) Hx) as [_ Hc]. destruct (H x ltac:(lia)) as [_ Hd].
  columns; replace k with x in * by lia; lia.
Qed.

Lemma paired_single w f x :
  paired w f -> x < w -> f x <> 0 -> f x <> 2 -> paired w (upd f x 1).
Proof.
  intros [H0 H] Hx Ex E2. split; [intros Hw; specialize (H0 Hw); columns|]. intros k Hk.
  destruct (H k Hk) as [Ha Hb]. columns.
Qed.

(** Single columns are replaced by a whole glyph. *)
Lemma paired_wide w f x :
  paired w f -> x + 1 < w -> f x = 1 -> f (x + 1) = 1 -> paired w (upd (upd f x 2) (x + 1) 0).
Proof.
  intros [H0 H] Hx Ex E1. split; [intros Hw; specialize (H0 Hw); columns|]. intros k Hk.
  destruct (H k Hk) as [Ha Hb]. destruct (H (x + 1) Hx) as [_ Hc]. destruct (H x ltac:(lia)) as [_ Hd].
  columns; replace k with x in * by lia; lia.
Qed.

(** Nothing but single columns instead of a glyph. *)
Lemma edited_clear g g' y f x b :
  edited g g' y f -> paired (g_width g) f -> width b = 1 -> y < g_height g -> x < g_width g ->
  exists f', edited g (clear_glyph_at g' x y b) y f' /\ paired (g_width g) f' /\ f' x = 1
    /\ forall k, f k = 1 -> f' k = 1.
Proof.
  intros He Hf Hb Hy Hx. pose proof He as [Hs [Ew Eh] Hr _]. destruct (sh_dims g' Hs) as [Dw _].
  unfold clear_glyph_at. destruct (N.leb_spec (g_width g') x); [lia|].
  destruct (N.leb_spec (g_height g') y); [lia|]. cbn [orb].
  assert (width (peek g' x y) = f x) as Ex by by apply (Hr x).
  unfold is_continuation. rewrite Ex, (wadd_small U16 x 1) by (unfold U16 in *; lia).
  destruct (proj2 Hf x Hx) as [Hlt Hcont].
  destruct (N.eqb_spec (f x) 0) as [E0|E0]; cbn [andb].
  - destruct (N.ltb_spec 0 x); [|pose proof (proj1 Hf ltac:(lia)); by replace x with 0 in * by lia].
    exists (upd (upd f (x - 1) (width b)) x (width b)). rewrite Hb. pose proof (proj2 Hf (x - 1) ltac:(lia)) as [_ Hz].
    split; [rewrite <- Hb; apply edited_set; [apply edited_set|..]; done || lia|].
    split; [|split; [unfold upd; by rewrite N.eqb_refl|intros k Hk; columns]].
    replace x with (x - 1 + 1) at 2 by lia. apply paired_clear; [done|lia|].
    replace (x - 1 + 1) with x in Hz by lia. by apply Hz.
  - destruct (N.eqb_spec (f x) 2) as [E2|E2]; cbn [andb].
    + specialize (Hlt E2). destruct (set_dims g' x y b) as [Ew' _]. rewrite Ew', Ew.
      destruct (N.ltb_spec (x + 1) (g_width g)); [|lia].
      exists (upd (upd f x (width b)) (x + 1) (width b)). rewrite Hb.
      split; [rewrite <- Hb; apply edited_set; [apply edited_set|..]; done || lia|].
      split; [by apply paired_clear|]. split; [columns|intros k Hk; columns].
    + exists (upd f x (width b)). rewrite Hb. split; [rewrite <- Hb; by apply edited_set|].
      split; [by apply paired_single|]. split; [columns|intros k Hk; columns].
Qed.

Lemma width_relooks g g' x y :
  shape g -> relooks g g' -> x < g_width g -> y < g_height g -> width_at g' y x = width_at g y x.
Proof.
  intros Hs Hr Hx Hy. pose proof (get_some g x y Hs Hx Hy) as Hg.
  destruct (relooks_get g g' x y _ Hr Hg) as (c' & Hc & El). unfold width_at, peek at 1. rewrite Hc.
  by injection El.
Qed.

Lemma edited_relooks g g1 g2 y f :
  edited g g1 y f -> relooks g1 g2 -> shape g2 -> edited g g2 y f.
Proof.
  intros [Hs [Ew Eh] Hr Ho] Hrl Hs2. pose proof Hrl as (_ & _ & Ew2 & Eh2 & _).
  split; [done|by rewrite Ew2, Eh2| |].
  - intros x Hx Hy. rewrite (width_relooks g1 g2) by (done || lia). by apply Hr.
  - intros x y' Hne Hx Hy. rewrite (width_relooks g1 g2) by (done || lia). by apply Ho.
Qed.

Lemma wide_relooks g g' : shape g -> relooks g g' -> wide_ok g -> wide_ok g'.
Proof.
  intros Hs Hr Hg y Hy. pose proof Hr as (_ & _ & Ew & Eh & _). rewrite Ew. rewrite Eh in Hy.
  apply (paired_ext _ (width_at g y)); [|by apply Hg]. intros x Hx. by apply width_relooks.
Qed.

(** ** Editing operations *)

Lemma clear_glyph_wide g x y b : shape g -> width b = 1 -> wide_ok g -> wide_ok (clear_glyph_at g x y b).
Proof.
  intros Hs Hb Hg. destruct (decide (x < g_width g /\ y < g_height g)) as [[Hx Hy]|Hout].
  - destruct (edited_clear g g y _ x b (edited_refl g y Hs) (Hg y Hy) Hb Hy Hx) as (f & He & Hf & _).
    by eapply edited_wide.
  - unfold clear_glyph_at. destruct (N.leb_spec (g_width g) x), (N.leb_spec (g_height g) y); try done. tauto.
Qed.

Lemma clear_glyph_shape g x y b : shape g -> shape (clear_glyph_at g x y b).
Proof.
  intros Hs. unfold clear_glyph_at. destruct (_ || _); [done|].
  destruct (_ && _); [by do 2 apply set_shape|]. destruct (_ && _); by repeat apply set_shape.
Qed.

Lemma erase_wide g y from to b : shape g -> width b = 1 -> wide_ok g -> wide_ok (erase_cells g y from to b).
Proof.
  intros Hs Hb Hg. unfold erase_cells. destruct (_ <=? _); [done|].
  generalize (N.to_nat (N.min to (g_width g) - N.min from (g_width g))) as fuel.
  generalize (N.min from (g_width g)) as x, (N.min to (g_width g)) as to'. intros x to' fuel. revert g x Hs Hg.
  induction fuel as [|fuel IH]; intros g x Hs Hg; [done|]. cbn [erase_loop]. destruct (x <? to'); [|done].
  apply IH; [by apply clear_glyph_shape|by apply clear_glyph_wide].
Qed.

Lemma erase_rows_wide g ys to b :
  wf g -> cell_ok g b -> width b = 1 -> wide_ok g ->
  wide_ok (foldl (fun g y => erase_cells g y 0 to b) g ys).
Proof.
  intros Hwf Hc Hb. revert g Hwf Hc. induction ys as [|y ys IH]; intros g Hwf Hc Hg; [done|]. cbn [foldl].
  pose proof (erase_sets g y 0 to b Hc) as Hs. apply IH; [by eapply sets_wf|by eapply sets_ok|].
  by apply erase_wide; [apply Hwf| |].
Qed.

Lemma set_grapheme_wide g x y t cell w :
  sound g -> style_ok g cell -> wide_ok g -> wide_ok (set_grapheme g x y t cell w).
Proof.
  intros Hg Hc Hwide. pose proof (so_wf g Hg) as Hwf. unfold set_grapheme.
  destruct (N.leb_spec (g_width g) x) as [|Hx]; [done|]. destruct (N.leb_spec (g_height g) y) as [|Hy]; [done|].
  cbn [orb]. pose proof (wf_shape g Hwf) as Hs. destruct (sh_dims g Hs) as [Dw _].
  rewrite !(wadd_small U16 x 1) by (unfold U16 in *; lia).
  set (b := blank_of _ _). assert (cell_ok g b) as Hb by (by apply blank_ok, Hwf).
  destruct (edited_clear g g y _ x b (edited_refl g y Hs) (Hwide y Hy) eq_refl Hy Hx) as (f & He & Hf & Hfx & _).
  pose proof (sets_steady _ _ (clear_glyph_sets g x y b Hb) Hg) as Hst.
  assert (sound (clear_glyph_at g x y b) /\ cell_ok (clear_glyph_at g x y b) b) as [Hg1 Hb1].
  { split; [by apply sd_sound in Hst|]. eapply sets_ok; [by apply clear_glyph_sets|done]. }
  clear Hst. revert He Hg1 Hb1. generalize (clear_glyph_at g x y b) as g1. intros g1 He Hg1 Hb1.
  (** one more column where the glyph is wide *)
  assert (forall g' f', edited g g' y f' -> sound g' -> paired (g_width g) f' -> forall w',
    (w' = 1 /\ f' x = 1 \/ w' = 2 /\ x + 1 < g_width g /\ f' x = 1 /\ f' (x + 1) = 1) ->
    forall c, wide_ok (let '(g2, h) := if (2 <=? length t)%nat then intern g' t else (g', 0) in
      let c := with_cluster (with_width c w') h in
      let g2 := set g2 x y c in if w' =? 2 then set g2 (x + 1) y (continuation_of c) else g2)) as Hfinal.
  { intros g' f' He' Hg' Hf' w' Hw c.
    assert (exists g2 h, (if (2 <=? length t)%nat then intern g' t else (g', 0)) = (g2, h) /\ edited g g2 y f') as (g2 & h & E & He2).
    { destruct (Nat.leb_spec 2 (length t)); [|by exists g', 0].
      pose proof (intern_spec g' t (wf_arena g' (so_wf g' Hg')) (roomy_clusters g' (so_roomy g' Hg'))) as Hi.
      destruct (intern g' t) as [g2 h]. destruct Hi as (Hr & _); [by intros ->; cbn in *; lia|].
      exists g2, h. split; [done|]. eapply edited_relooks; [done|done|].
      eapply relooks_shape; [done|]. apply Hg'. }
    rewrite E. cbv zeta.
    destruct Hw as [[-> E1]|(-> & Hlt & E1 & E2)]; cbn [N.eqb Pos.eqb].
    - eapply edited_wide; [eapply edited_set; [exact He2|done..]|done|]. cbn.
      apply paired_single; [done|done|lia|lia].
    - eapply edited_wide; [eapply edited_set; [eapply edited_set; [exact He2|done..]|done..]|done|]. cbn.
      by apply paired_wide. }
  pose proof (nclamp_range w 1 2 ltac:(lia)) as Hcl.
  destruct (N.eqb_spec (nclamp w 1 2) 2) as [E2|E2]; cbn [andb].
  - rewrite E2 in *. destruct (N.leb_spec (g_width g) (x + 1)) as [|Hx1]; [done|].
    destruct (edited_clear g g1 y f (x + 1) b He Hf eq_refl Hy Hx1) as (f' & He' & Hf' & Hfx1 & Hk).
    refine (Hfinal _ f' He' _ Hf' 2 _ _); [|right; auto].
    by eapply sd_sound, sets_steady; [apply clear_glyph_sets|].
  - assert (nclamp w 1 2 = 1) as -> by lia. exact (Hfinal g1 f He Hg1 Hf 1 (or_introl (conj eq_refl Hfx)) _).
Qed.

(** *** The repair of a row *)

(** The columns before [k] are paired. *)
Definition paired_to (w k : N) (f : N -> N) : Prop :=
  forall x, x < k -> (f x = 0 -> 0 < x /\ f (x - 1) = 2) /\ (f x = 2 -> x + 1 < w /\ f (x + 1) = 0).

Lemma paired_to_paired w f : paired_to w w f -> paired w f.
Proof.
  intros H. split; [intros Hw E; destruct (H 0 Hw) as [H0 _]; by destruct (H0 E)|].
  intros x Hx. split; [intros E; by apply H|]. intros Hx1. split; [intros E; by apply H|].
  intros E. destruct (H (x + 1) Hx1) as [H0 _]. destruct (H0 E) as [_ E2].
  by replace (x + 1 - 1) with x in E2 by lia.
Qed.

Lemma paired_to_step w k f : paired_to w k f ->
  (f k = 0 -> 0 < k /\ f (k - 1) = 2) -> (f k = 2 -> k + 1 < w /\ f (k + 1) = 0) -> paired_to w (k + 1) f.
Proof. intros H H0 H2 x Hx. destruct (N.eq_dec x k) as [->|]; [done|]. apply H. lia. Qed.

(** A column that belongs to no whole glyph becomes single. *)
Lemma paired_to_fix w k f : paired_to w k f -> (0 < k -> f (k - 1) = 2 -> f k <> 0) ->
  paired_to w (k + 1) (upd f k 1).
Proof.
  intros H Hk x Hx. unfold upd. destruct (N.eqb_spec x k) as [->|]; [by split|].
  destruct (H x ltac:(lia)) as [H0 H2]. split.
  - intros E. destruct (H0 E). split; [done|]. destruct (N.eqb_spec (x - 1) k); [lia|done].
  - intros E. destruct (H2 E) as [Hl E1]. split; [done|]. destruct (N.eqb_spec (x + 1) k) as [<-|]; [|done].
    exfalso. apply Hk; [lia| |done]. by replace (x + 1 - 1) with x by lia.
Qed.

Lemma repair_cell_paired g g' y f k b :
  edited g g' y f -> y < g_height g -> k < g_width g -> width b = 1 -> paired_to (g_width g) k f ->
  exists f', edited g (repair_cell y b g' k) y f' /\ paired_to (g_width g) (k + 1) f'.
Proof.
  intros He Hy Hk Hb Hf. pose proof He as [Hs [Ew Eh] Hr _]. destruct (sh_dims g' Hs) as [Dw _].
  unfold repair_cell, is_continuation. rewrite (wadd_small U16 k 1) by (unfold U16 in *; lia). rewrite Ew.
  assert (forall x, x < g_width g -> width (peek g' x y) = f x) as Ef by (intros; by apply (Hr x)).
  rewrite Ef by done.
  assert ((0 < k -> f (k - 1) = 2 -> f k <> 0) ->
    exists f', edited g (set g' k y b) y f' /\ paired_to (g_width g) (k + 1) f') as Hset.
  { intros Hno. exists (upd f k (width b)). split; [by apply edited_set|]. rewrite Hb. by apply paired_to_fix. }
  assert (0 < k -> f (k - 1) = 2 -> f k = 0) as Hprev.
  { intros H0 E. destruct (Hf (k - 1) ltac:(lia)) as [_ H2]. destruct (H2 E) as [_ H2'].
    by replace (k - 1 + 1) with k in H2' by lia. }
  destruct (N.eqb_spec (f k) 0) as [E0|E0].
  - destruct (N.ltb_spec 0 k) as [Hpos|]; cbn [andb].
    + rewrite Ef by lia. destruct (N.eqb_spec (f (k - 1)) 2) as [E2|E2].
      * exists f. split; [done|]. apply paired_to_step; [done|auto|]. intros E. lia.
      * apply Hset. tauto.
    + apply Hset. lia.
  - destruct (N.eqb_spec (f k) 2) as [E2|E2].
    + destruct (N.ltb_spec (k + 1) (g_width g)) as [Hlt|]; cbn [andb]; [|apply Hset; lia].
      rewrite Ef by done. destruct (N.eqb_spec (f (k + 1)) 0) as [E1|]; [|apply Hset; lia].
      exists f. split; [done|]. apply paired_to_step; [done|lia|done].
    + exists f. split; [done|]. apply paired_to_step; [done|lia|lia].
Qed.

Lemma range_step a b : a < b -> range a b = a :: range (a + 1) b.
Proof.
  intros H. unfold range. replace (N.to_nat (b - a)) with (S (N.to_nat (b - (a + 1)))) by lia. cbn [seq map].
  f_equal; [lia|]. rewrite <- seq_shift, map_map. apply map_ext. intros. lia.
Qed.

Lemma repair_paired n g g' y f k b :
  edited g g' y f -> y < g_height g -> width b = 1 -> paired_to (g_width g) k f ->
  k + N.of_nat n = g_width g ->
  exists f', edited g (foldl (repair_cell y b) g' (range k (g_width g))) y f' /\ paired (g_width g) f'.
Proof.
  revert g' f k. induction n as [|n IH]; intros g' f k He Hy Hb Hf Hn.
  - exists f. assert (range k (g_width g) = []) as ->.
    { unfold range. by replace (N.to_nat (g_width g - k)) with 0%nat by lia. }
    split; [done|]. apply paired_to_paired. by replace (g_width g) with k at 2 by lia.
  - rewrite range_step by lia. cbn [foldl].
    destruct (repair_cell_paired g g' y f k b) as (f1 & He1 & Hf1); [done|done|lia|done|done|].
    apply (IH _ f1 (k + 1)); [done|done|done|done|lia].
Qed.

Lemma repair_row_wide g g' y f b :
  edited g g' y f -> y < g_height g -> width b = 1 -> wide_ok g -> wide_ok (repair_wide_row g' y b).
Proof.
  intros He Hy Hb Hg. pose proof He as [_ [Ew _] _ _]. unfold repair_wide_row. rewrite Ew.
  destruct (repair_paired (N.to_nat (g_width g)) g g' y f 0 b) as (f' & He' & Hf'); [done|done|done| |lia|].
  - intros x Hx. lia.
  - by eapply edited_wide.
Qed.

(** A row of assignments leaves some widths. *)
Lemma fold_edited g y (c : Grid -> N -> Cell) xs : forall g' f,
  edited g g' y f -> y < g_height g -> (forall x, x ∈ xs -> x < g_width g) ->
  exists f', edited g (foldl (fun g x => set g x y (c g x)) g' xs) y f'.
Proof.
  induction xs as [|x xs IH]; intros g' f He Hy Hx; [by exists f|]. cbn [foldl].
  eapply IH; [by apply edited_set; [done|apply Hx; left|]|done|]. intros. apply Hx. by right.
Qed.

Lemma delete_wide g y from n b : shape g -> width b = 1 -> wide_ok g -> wide_ok (delete_cells g y from n b).
Proof.
  intros Hs Hb Hg. unfold delete_cells. destruct (N.leb_spec (g_height g) y); [done|].
  destruct (N.leb_spec (g_width g) from); [done|]. destruct (n =? 0); [done|]. cbn [orb].
  set (n' := N.min _ _).
  destruct (fold_edited g y (fun g' x => if x +16 n' <? g_width g' then peek g' (x +16 n') y else b)
    (range from (g_width g)) g _ (edited_refl g y Hs)) as (f & He); [done| |].
  - intros x Hx. apply elem_of_range in Hx. lia.
  - by eapply repair_row_wide.
Qed.

Lemma insert_wide g y from n b : shape g -> width b = 1 -> wide_ok g -> wide_ok (insert_cells g y from n b).
Proof.
  intros Hs Hb Hg. unfold insert_cells. destruct (N.leb_spec (g_height g) y); [done|].
  destruct (N.leb_spec (g_width g) from); [done|]. destruct (n =? 0); [done|]. cbn [orb].
  set (n' := N.min _ _).
  destruct (fold_edited g y (fun g' x => if from + n' <=? x then peek g' (x - n') y else b)
    (rev (range from (g_width g))) g _ (edited_refl g y Hs)) as (f & He); [done| |].
  - intros x Hx%list_elem_of_In%in_rev%list_elem_of_In. apply elem_of_range in Hx. lia.
  - by eapply repair_row_wide.
Qed.

(** ** Whole rows *)

Definition wide_row (w : N) (l : Line) : Prop :=
  paired w (fun x => width (default default_cell (cells l !! N.to_nat x))).

Lemma width_at_line g y x l :
  lines g !! N.to_nat y = Some l -> width_at g y x = width (default default_cell (cells l !! N.to_nat x)).
Proof. intros H. unfold width_at, peek, get. by rewrite H. Qed.

Lemma wide_ok_rows g :
  length (lines g) = N.to_nat (g_height g) -> wide_ok g <-> Forall (wide_row (g_width g)) (lines g).
Proof.
  intros Hlen. rewrite Forall_lookup. split.
  - intros Hg i l Hl. pose proof (lookup_lt_Some _ _ _ Hl) as Hi.
    apply (paired_ext _ (width_at g (N.of_nat i))); [|apply Hg; lia].
    intros x Hx. by rewrite (width_at_line g _ x l) by by rewrite Nat2N.id.
  - intros Hf y Hy. destruct (lookup_lt_is_Some_2 (lines g) (N.to_nat y)) as [l Hl]; [lia|].
    apply (paired_ext _ (fun x => width (default default_cell (cells l !! N.to_nat x)))); [|by eapply Hf].
    intros x Hx. by rewrite (width_at_line g _ x l).
Qed.

Lemma blank_row_wide w b i : width b = 1 -> wide_row w (blank_line w b i).
Proof.
  intros Hb. apply paired_ones. intros x Hx. cbn. rewrite lookup_replicate_2 by lia. done.
Qed.

(** Rows that come from the screen or are blank. *)
Lemma wide_rows_from g g' :
  shape g -> shape g' -> g_width g' = g_width g -> wide_ok g ->
  Forall (fun l => l ∈ lines g \/ exists b i, width b = 1 /\ l = blank_line (g_width g) b i) (lines g') ->
  wide_ok g'.
Proof.
  intros Hs Hs' Ew Hg Hf. rewrite wide_ok_rows in Hg by apply Hs. rewrite wide_ok_rows by apply Hs'.
  rewrite Ew. rewrite Forall_forall in *. intros l Hl.
  destruct (Hf l Hl) as [Hin|(b & i & Hb & ->)]; [by apply Hg|by apply blank_row_wide].
Qed.

Lemma scroll_up_wide g b : wf g -> cell_ok g b -> width b = 1 -> wide_ok g -> wide_ok (scroll_up g b).
Proof.
  intros Hwf Hc Hb Hg. pose proof (wf_shape _ (scroll_up_wf g b Hwf Hc)) as Hs'.
  pose proof (scroll_up_still g b) as E. injection E as ? ? ? ? Ew ? ? ?.
  eapply wide_rows_from; [apply Hwf|done|done|done|]. clear Hs' Ew.
  unfold scroll_up. destruct (_ =? 0); [apply Forall_forall; auto|].
  destruct (lines g) as [|l rest] eqn:El; [rewrite El; constructor|].
  destruct (push_scrollback_fields (with_lines (with_next_id g (next_line_id g + 1)) rest)
    (trim_default_tail l)) as (sb & -> & _). cbv zeta. unfold mark_rows_damaged.
  assert (Forall (fun l' => l' ∈ l :: rest \/ exists b i, width b = 1 /\ l' = blank_line (g_width g) b i)
    (rest ++ [blank_line (g_width g) b (next_line_id g)])) as Hf.
  { apply Forall_app. split; [|constructor; [right; eauto|done]].
    apply Forall_forall. intros l' Hl'. left. by right. }
  destruct (_ =? 0); exact Hf.
Qed.

(** A line of the region is replaced by a blank one. *)
Lemma replace_line_wide g sb limit i j b top bottom :
  width b = 1 ->
  Forall (fun l => l ∈ lines g \/ exists b i, width b = 1 /\ l = blank_line (g_width g) b i)
    (lines (replace_line (with_history (with_lines g (remove_at i (lines g))) sb limit) j b top bottom)).
Proof.
  intros Hb. unfold replace_line, alloc_line_id, mark_rows_damaged. cbv zeta beta iota.
  assert (Forall (fun l => l ∈ lines g \/ exists b i, width b = 1 /\ l = blank_line (g_width g) b i)
    (insert_at j (blank_line (g_width g) b (next_line_id g)) (remove_at i (lines g)))) as Hf.
  { assert (Forall (fun l => l ∈ lines g) (remove_at i (lines g))) as Hk.
    { apply Forall_delete. by apply Forall_forall. }
    unfold insert_at. apply Forall_app. split.
    - eapply Forall_impl; [apply Forall_take, Hk|]. auto.
    - constructor; [right; eauto|]. eapply Forall_impl; [apply Forall_drop, Hk|]. auto. }
  destruct (_ =? 0); exact Hf.
Qed.

Lemma region_up_wide g top bottom b history :
  wf g -> cell_ok g b -> width b = 1 -> wide_ok g -> wide_ok (scroll_region_up_inner g top bottom b history).
Proof.
  intros Hwf Hc Hb Hg. pose proof (wf_shape _ (scroll_region_up_wf g top bottom b history Hwf Hc)) as Hs'.
  pose proof (region_up_still g top bottom b history) as E. injection E as ? ? ? ? Ew ? ? ?.
  revert Hs' Ew. unfold scroll_region_up_inner. destruct (_ || _ || _); [done|].
  destruct (_ && _ && _); [intros _ _; by apply scroll_up_wide|]. intros Hs' Ew.
  eapply wide_rows_from; [apply Hwf|done|done|done|]. clear Hs' Ew.
  destruct (lines g !! N.to_nat top) as [l|]; [destruct history|].
  - destruct (push_scrollback_fields (with_lines g (remove_at top (lines g))) l) as (sb & -> & _).
    by apply (replace_line_wide g sb (scrollback_limit g) top bottom b top bottom).
  - rewrite <- (with_history_same (with_lines g (remove_at top (lines g)))).
    by apply (replace_line_wide g (scrollback g) (scrollback_limit g) top bottom b top bottom).
  - rewrite <- (with_history_same (with_lines g (remove_at top (lines g)))).
    by apply (replace_line_wide g (scrollback g) (scrollback_limit g) top bottom b top bottom).
Qed.

Lemma region_down_wide g top bottom b :
  wf g -> cell_ok g b -> width b = 1 -> wide_ok g -> wide_ok (scroll_region_down g top bottom b).
Proof.
  intros Hwf Hc Hb Hg. pose proof (wf_shape _ (scroll_region_down_wf g top bottom b Hwf Hc)) as Hs'.
  pose proof (region_down_still g top bottom b) as E. injection E as ? ? ? ? Ew ? ? ?.
  revert Hs' Ew. unfold scroll_region_down. destruct (_ || _ || _); [done|]. intros Hs' Ew.
  eapply wide_rows_from; [apply Hwf|done|done|done|].
  rewrite <- (with_history_same (with_lines g (remove_at bottom (lines g)))).
  by apply (replace_line_wide g (scrollback g) (scrollback_limit g) bottom top b top bottom).
Qed.

(** Same rows, same widths. *)
Lemma wide_same g g' :
  g_width g' = g_width g -> g_height g' = g_height g -> map cells (lines g') = map cells (lines g) ->
  wide_ok g -> wide_ok g'.
Proof.
  intros Ew Eh El Hg y Hy. rewrite Ew. rewrite Eh in Hy. apply (paired_ext _ (width_at g y)); [|by apply Hg].
  intros x _. unfold width_at, peek, get.
  assert (forall ls, (l ← ls !! N.to_nat y; cells l !! N.to_nat x)
    = (cs ← map cells ls !! N.to_nat y; cs !! N.to_nat x)) as Em.
  { intros ls. rewrite list_lookup_fmap. by destruct (ls !! _). }
  by rewrite (Em (lines g')), El, <- (Em (lines g)).
Qed.

(** ** Reflow *)

Section Reflowed.
Context `{Unicode}.

(** Widths of a list of cells are those of whole glyphs. *)
Inductive whole : list Cell -> Prop :=
| whole_nil : whole []
| whole_one c cs : width c = 1 -> whole cs -> whole (c :: cs)
| whole_two c c' cs : width c = 2 -> width c' = 0 -> whole cs -> whole (c :: c' :: cs).

Lemma whole_app a b : whole a -> whole b -> whole (a ++ b).
Proof. intros Ha Hb. induction Ha; cbn; [done|by constructor|by constructor]. Qed.

Lemma whole_laid g w cs : 1 <= w -> whole (concat (map (laid g w) cs)).
Proof.
  intros Hw. induction cs as [|c cs IH]; [constructor|]. cbn [map concat]. apply whole_app; [|done].
  unfold laid, glyph_cells. pose proof (laid_width_range g w c Hw) as [Hl _].
  destruct (N.eqb_spec (laid_width g w c) 2) as [->|]; [by repeat constructor|].
  constructor; [cbn; lia|constructor].
Qed.

Lemma whole_prefix a n : whole (a ++ replicate n default_cell) -> whole a.
Proof.
  intros Hw. remember (a ++ replicate n default_cell) as l eqn:E. revert a E.
  induction Hw as [|c cs Hc Hw IH|c c' cs Hc Hc' Hw IH]; intros a E.
  - by destruct a; [constructor|].
  - destruct a as [|a0 a]; [constructor|]. injection E as -> ->. constructor; [done|]. by apply IH.
  - destruct a as [|a0 [|a1 a]]; [constructor| |].
    + injection E as -> E. destruct n; [done|]. injection E as -> _. done.
    + injection E as -> -> ->. constructor; [done|done|]. by apply IH.
Qed.

Lemma whole_paired cs : whole cs ->
  forall w, N.of_nat (length cs) <= w -> paired w (fun x => width (default default_cell (cs !! N.to_nat x))).
Proof.
  intros Hw. assert (forall n, whole (replicate n default_cell)) as Hdef.
  { induction n; [constructor|]. by constructor. }
  induction Hw as [|c cs Hc Hw IH|c c' cs Hc Hc' Hw IH]; intros w Hlen.
  - by apply paired_ones.
  - cbn [length] in Hlen. destruct (IH (w - 1) ltac:(lia)) as [H0 H1]. split; [intros _; change (width c <> 0); lia|].
    intros x Hx. destruct (N.eq_dec x 0) as [->|Hne].
    + split; [change (width c = 2 -> 0 + 1 < w); lia|]. intros Hx1. specialize (H0 ltac:(lia)).
      change (width c = 2 <-> width (default default_cell (cs !! 0%nat)) = 0). split; [lia|done].
    + replace (N.to_nat x) with (S (N.to_nat (x - 1))) by lia.
      replace (N.to_nat (x + 1)) with (S (N.to_nat (x - 1 + 1))) by lia. cbn.
      destruct (H1 (x - 1) ltac:(lia)) as [Ha Hb]. split; [intros E; specialize (Ha E); lia|].
      intros Hx1. apply Hb. lia.
  - cbn [length] in Hlen. destruct (IH (w - 2) ltac:(lia)) as [H0 H1]. split; [intros _; change (width c <> 0); lia|].
    intros x Hx. destruct (N.eq_dec x 0) as [->|Hne]; [change ((width c = 2 -> 0 + 1 < w) /\ (0 + 1 < w -> width c = 2 <-> width c' = 0)); lia|].
    destruct (N.eq_dec x 1) as [->|Hne'].
    + split; [change (width c' = 2 -> 1 + 1 < w); lia|]. intros Hx1. specialize (H0 ltac:(lia)).
      change (width c' = 2 <-> width (default default_cell (cs !! 0%nat)) = 0). split; [lia|done].
    + replace (N.to_nat x) with (S (S (N.to_nat (x - 2)))) by lia.
      replace (N.to_nat (x + 1)) with (S (S (N.to_nat (x - 2 + 1)))) by lia. cbn.
      destruct (H1 (x - 2) ltac:(lia)) as [Ha Hb]. split; [intros E; specialize (Ha E); lia|].
      intros Hx1. apply Hb. lia.
Qed.

Lemma cut_whole g w leads rows : 1 <= w -> cut g w leads rows -> Forall (fun l => whole (cells l)) rows.
Proof.
  intros Hw. induction 1 as [a content i k Ha _ _|a b content pad i rows _ _ Ha _ Hpad _ IH].
  - constructor; [|done]. cbn. apply (whole_prefix _ k). rewrite <- Ha. by apply whole_laid.
  - constructor; [|done]. cbn. apply whole_app; [rewrite <- Ha; by apply whole_laid|].
    destruct Hpad as [->|[-> _]]; by repeat constructor.
Qed.

Lemma whole_row w l : whole (cells l) -> (length (cells l) <= N.to_nat w)%nat -> wide_row w l.
Proof. intros Hw Hl. apply whole_paired; [done|lia]. Qed.

(** Padding adds default cells, which are read past the end of a row anyway. *)
Lemma pad_row_wide w l : wide_row w l -> wide_row w (pad_row w l).
Proof.
  unfold wide_row, pad_row. destruct (Nat.ltb_spec (length (cells l)) (N.to_nat w)); [|done].
  apply paired_ext. intros x Hx. cbn [with_cells cells]. unfold vec_resize. rewrite take_ge by lia.
  destruct (decide (N.to_nat x < length (cells l))%nat).
  - by rewrite lookup_app_l.
  - rewrite lookup_app_r by lia. rewrite lookup_replicate_2 by lia. by rewrite (lookup_ge_None_2 (cells l)) by lia.
Qed.

Lemma reflowed_wide g w b g' :
  1 <= w -> width b = 1 -> shape g' -> g_width g' = w -> reflowed g w b g' -> wide_ok g'.
Proof.
  intros Hw Hb Hs Ew (rowss & oldest & kept & after & top & bottom & Hcut & Ec & _ & Hsame & Ht & Hbot & _).
  rewrite wide_ok_rows by apply Hs. rewrite Ew.
  assert (Forall (wide_row w) (concat rowss)) as Hrows.
  { eapply cut_concat_forall; [exact Hcut|]. intros a rows _ Hc.
    pose proof (cut_whole g w a rows Hw Hc) as H1. destruct (cut_rows g w a rows Hw Hc) as [_ H2].
    rewrite Forall_forall in *. intros l Hl. apply whole_row; [by apply H1|by apply (H2 l)]. }
  assert (Forall (wide_row w) (top ++ kept ++ bottom)) as Hall.
  { rewrite Ec in Hrows. apply Forall_app in Hrows as [_ Hrows]. apply Forall_app in Hrows as [Hk _].
    assert (forall ls, Forall (is_blank w b) ls -> Forall (wide_row w) ls) as Hblank.
    { intros ls Hf. eapply Forall_impl; [exact Hf|]. intros l [i ->]. by apply blank_row_wide. }
    apply Forall_app. split; [auto|]. apply Forall_app. auto. }
  assert (Forall (wide_row w) (scrollback g' ++ lines g')) as Hres.
  { clear -Hall Hsame. induction Hsame as [|l l' ls ls' Hl _ IH]; [constructor|].
    apply Forall_cons in Hall as [H1 H2]. constructor; [|by apply IH].
    destruct Hl as [->| ->]; [done|by apply pad_row_wide]. }
  by apply Forall_app in Hres as [_ ?].
Qed.

Lemma resize_wide g w h b cursor pending :
  wf g -> cell_ok g b -> width b = 1 -> 1 <= w <= MAX_WIDTH -> 1 <= h < U16 -> cursor.2 < g_height g ->
  wide_ok g -> wide_ok (resize_reflow g w h b cursor pending).1.
Proof.
  intros Hwf Hc Hb Hw Hh Hcy Hg.
  destruct (decide (w <> g_width g \/ h <> g_height g)) as [Hne|Heq].
  - pose proof (resize_spec g w h b cursor pending Hwf Hc Hw Hh Hcy Hne) as Hz. unfold resize_kept in Hz.
    destruct (resize_reflow g w h b cursor pending) as [g' [[cx cy] p]]. cbn [fst].
    destruct Hz as (Hwf' & _ & Ew & Eh & _ & _ & _ & _ & _ & Hz).
    destruct (decide (w = g_width g)) as [E|_].
    + rewrite wide_ok_rows in Hg by apply Hwf. rewrite wide_ok_rows by apply Hwf'. rewrite Ew, E.
      destruct (decide (g_height g < h)).
      * destruct Hz as (_ & bottom & -> & Hbot). apply Forall_app. split; [done|].
        eapply Forall_impl; [exact Hbot|]. intros l0 [i ->]. rewrite <- E. by apply blank_row_wide.
      * destruct Hz as (gone & rest & El & -> & _). rewrite El in Hg. by apply Forall_app in Hg as [_ ?].
    + eapply reflowed_wide; [|exact Hb|apply Hwf'|done|done]. lia.
  - unfold resize_reflow. replace (N.max w 1) with w by lia. replace (N.max h 1) with h by lia.
    destruct (N.eqb_spec w (g_width g)); [|tauto]. by destruct (N.eqb_spec h (g_height g)); [|tauto].
Qed.

(** ** Programs *)

Lemma append_wide g x y c : sound g -> wide_ok g -> wide_ok (append_to_grapheme g x y c).1.
Proof.
  intros Hg Hw. unfold append_to_grapheme. destruct (_ || _); [done|]. destruct (negb _); [done|].
  apply set_grapheme_wide; [done|apply peek_style, (wf_arena g), Hg|done].
Qed.

(** Operations of the editor: blanks are single columns, and no single cell is
    written behind the glyphs' back ([Grid::set] is called by the grid itself
    only). *)
Definition op_whole (o : grid_op) : Prop :=
  match o with
  | OSet _ _ _ => False
  | OClearGlyph _ _ b | OErase _ _ _ b | ODelete _ _ _ b | OInsert _ _ _ b | OScrollUp b
  | ORegionUp _ _ b | ORegionUpDiscarding _ _ b | ORegionDown _ _ b | OResize _ _ b _ _ => width b = 1
  | _ => True
  end.

Lemma mark_all_lines g : lines (mark_all_damaged g) = lines g.
Proof. unfold mark_all_damaged. by destruct (_ || _). Qed.

Lemma wrapped_wide g y b : wide_ok g -> wide_ok (set_row_wrapped g y b).
Proof. apply wide_same; [done|done|]. cbn. by apply map_alter_same. Qed.

Lemma mark_all_wide g : wide_ok g -> wide_ok (mark_all_damaged g).
Proof. apply wide_same; [unfold mark_all_damaged; by destruct (_ || _)..|by rewrite mark_all_lines]. Qed.

Lemma clear_damage_wide g : wide_ok g -> wide_ok (clear_damage g).
Proof. apply wide_same; unfold clear_damage; by destruct (any_damage g). Qed.

Lemma intern_link_wide g u : sound g -> wide_ok g -> wide_ok (intern_hyperlink g u).1.
Proof.
  intros Hg Hw. pose proof (so_wf g Hg) as Hwf.
  pose proof (intern_link_spec g u (wf_arena g Hwf) (roomy_links g (so_roomy g Hg))) as Hl.
  destruct (intern_hyperlink g u) as [g' h]. destruct Hl as (Hrl & _). eapply wide_relooks; [apply Hwf|done|done].
Qed.

Lemma intern_color_wide g c : wf g -> wide_ok g -> wide_ok (intern_underline_color g c).1.
Proof.
  intros Hwf Hw. pose proof (intern_color_spec g c (wf_arena g Hwf)) as Hl.
  destruct (intern_underline_color g c) as [g' h]. destruct Hl as (Hrl & _). eapply wide_relooks; [apply Hwf|done|done].
Qed.

Lemma run_op_wide g o : sound g -> op_ok g o -> op_whole o -> wide_ok g -> wide_ok (run_op g o).
Proof.
  intros Hg Hok Ho Hw. pose proof (so_wf g Hg) as Hwf. pose proof (wf_shape g Hwf) as Hs.
  destruct o; cbn [run_op op_ok op_whole] in *; try done.
  - by apply clear_glyph_wide.
  - by apply erase_wide.
  - by apply delete_wide.
  - by apply insert_wide.
  - by apply set_grapheme_wide.
  - by apply append_wide.
  - by apply scroll_up_wide.
  - by apply region_up_wide.
  - by apply region_up_wide.
  - by apply region_down_wide.
  - by apply wrapped_wide.
  - by apply mark_all_wide.
  - by apply clear_damage_wide.
  - by apply intern_link_wide.
  - by apply intern_color_wide.
  - destruct Hok as (Hc & Hd & Hh & Hcy & _). by apply resize_wide.
Qed.

Lemma new_wide w h : w < U16 -> h < U16 -> wide_ok (new w h).
Proof.
  intros Hw Hh. rewrite wide_ok_rows by apply (wf_shape _ (new_grid_wf w h Hw Hh)). cbn.
  apply Forall_forall. intros l Hl. apply list_elem_of_fmap in Hl as (i & -> & _). by apply blank_row_wide.
Qed.

Lemma run_ops_wide os : forall g,
  sound g -> wide_ok g -> ops_ok g os -> Forall op_whole os ->
  sound (run_ops g os) /\ wide_ok (run_ops g os).
Proof.
  induction os as [|o os IH]; intros g Hs Hg Hok Ho; [done|].
  destruct Hok as [Hok Hoks]. apply Forall_cons in Ho as [Ho Hos].
  apply (IH (run_op g o)); [by apply run_op_sound|by apply run_op_wide|exact Hoks|exact Hos].
Qed.

(** C27: glyphs are whole. From a fresh grid, whatever the program does with
    single-column blanks, on every row of the screen a second half stands right
    of its two-column glyph and every two-column glyph has its second half on
    the same row: no operation leaves half a glyph. *)
Theorem glyphs_whole w h os :
  w < U16 -> h < U16 -> (10000 + h) * w <= CELLS_MAX ->
  ops_ok (new w h) os -> Forall op_whole os -> wide_ok (run_ops (new w h) os).
Proof.
  intros Hw Hh Hc Hok Ho.
  exact (proj2 (run_ops_wide os (new w h) (new_sound w h Hw Hh Hc) (new_wide w h Hw Hh) Hok Ho)).
Qed.
End Reflowed.

Lemma glyphs_whole_witness :
  let os := [OGrapheme 1 1 [4352] default_cell 2; ODelete 1 0 2 default_cell] in
  ops_ok (H := sample_unicode) (new 4 2) os /\ wide_ok (run_ops (H := sample_unicode) (new 4 2) os).
Proof.
  cbv zeta. assert (sound (new 4 2)) as S0 by (apply new_sound; vm_compute; done).
  assert (ops_ok (H := sample_unicode) (new 4 2)
    [OGrapheme 1 1 [4352] default_cell 2; ODelete 1 0 2 default_cell]) as Hok.
  { assert (op_ok (new 4 2) (OGrapheme 1 1 [4352] default_cell 2)) as H1
      by apply (blank_style _ Default Default), (so_wf _ S0).
    split; [done|]. pose proof (run_op_sound (H := sample_unicode) _ _ S0 H1) as S1.
    split; [apply cell_ok_default, (so_wf _ S1)|done]. }
  split; [done|].
  refine (glyphs_whole (H := sample_unicode) 4 2 _ _ _ _ Hok _); [vm_compute; done..|by repeat constructor].
Defined.
