(* ===== verification/Damage.v ===== *)
(** * Damage is enough to repaint

    The contract between the grid and a renderer ([uniterm-core/src/grid.rs]
    [row_damage], [pending_scroll_up], [clear_damage]): whoever painted the
    screen at the last [clear_damage] moves it up by the pending scroll and
    repaints the damaged ranges, and then shows the grid.  It holds for every
    operation as long as a region scroll of part of the screen finds no pending
    scroll. *)

From S2P Require Import Prelude Cell Grid GridInv GridEdit GridScroll GridRoom Reflow ReflowInv GridOps.

(** What is seen at a position. *)
Definition look_at (g : Grid) (x y : N) : look := look_of g (peek g x y).

Definition damaged (g : Grid) (x y : N) : Prop :=
  match row_damage g y with Some (lo, hi) => lo <= x <= hi | None => False end.

(** [old] moved up by the pending scroll is the grid outside its damage. *)
Definition repaints (old : N -> N -> look) (g : Grid) : Prop :=
  forall x y, x < g_width g -> y < g_height g -> ~ damaged g x y ->
    y + pending_scroll_up g < g_height g /\ look_at g x y = old x (y + pending_scroll_up g).

(** ** Cells *)

Lemma repaints_set old g x y c :
  wf g -> repaints old g -> repaints old (set g x y c).
Proof.
  intros [Hs Hd _ _] Hr. unfold set.
  destruct (N.leb_spec (g_width g) x) as [|Hx]; [done|]. destruct (N.leb_spec (g_height g) y) as [|Hy]; [done|].
  cbn [orb]. destruct (decide _); [done|]. intros x' y' Hx' Hy' Hnd.
  change (g_width (mark_damage (put g x y c) x y)) with (g_width g) in Hx'.
  change (g_height (mark_damage (put g x y c) x y)) with (g_height g) in *.
  change (pending_scroll_up (mark_damage (put g x y c) x y)) with (pending_scroll_up g).
  assert (~ damaged g x' y' /\ ~ (x' = x /\ y' = y)) as [Hnd' Hne].
  { unfold damaged, row_damage in *. cbn [mark_damage with_damage damage put with_lines] in Hnd.
    pose proof (dm_rows g Hd) as Hrows.
    destruct (decide (y' = y)) as [->|Hyy].
    - rewrite list_lookup_alter_eq in Hnd.
      destruct (lookup_lt_is_Some_2 (damage g) (N.to_nat y)) as [r Hr']; [lia|]. rewrite Hr' in *. cbn in *.
      unfold damage_at in Hnd. destruct (dirty r); cbn in *; split; lia.
    - rewrite list_lookup_alter_ne in Hnd by lia. split; [done|]. naive_solver. }
  destruct (Hr x' y' Hx' Hy' Hnd') as [Hp Hl]. split; [done|]. rewrite <- Hl.
  unfold look_at, peek. change (get (mark_damage (put g x y c) x y) x' y') with (get (put g x y c) x' y').
  rewrite get_put by done. by rewrite decide_False.
Qed.

Lemma repaints_sets old g g' : wf g -> sets g g' -> repaints old g -> repaints old g'.
Proof.
  intros Hwf Hs Hr. induction Hs as [|g' x y c Hs IH Hc]; [done|].
  apply repaints_set; [by eapply sets_wf|done].
Qed.

(** Renumbering handles changes no look. *)
Lemma repaints_relooks old g g' : wf g -> relooks g g' -> repaints old g -> repaints old g'.
Proof.
  intros Hwf Hrl Hr x y Hx Hy Hnd. pose proof Hrl as (_ & _ & Ew & Eh & Ed & _ & Ep & _).
  rewrite Ew in Hx. rewrite Eh in Hy. rewrite Ep, Eh.
  destruct (Hr x y Hx Hy) as [Hp Hl]; [unfold damaged, row_damage in *; by rewrite <- Ed|].
  split; [done|]. rewrite <- Hl. unfold look_at.
  pose proof (get_some g x y (wf_shape g Hwf) Hx Hy) as Hg.
  destruct (relooks_get g g' x y _ Hrl Hg) as (c' & Hc' & El). unfold peek at 1. by rewrite Hc'.
Qed.

(** ** Whole screens *)

Lemma all_damaged old g :
  length (damage g) = N.to_nat (g_height g) ->
  Forall (fun r => r = {| dirty := true; lo := 0; hi := g_width g - 1 |}) (damage g) -> repaints old g.
Proof.
  intros Hl Hf x y Hx Hy Hnd. exfalso. apply Hnd. unfold damaged, row_damage.
  destruct (lookup_lt_is_Some_2 (damage g) (N.to_nat y)) as [r Hr]; [lia|].
  rewrite Forall_lookup in Hf. rewrite Hr, (Hf _ _ Hr). cbn. lia.
Qed.

Lemma repaints_mark_all old g : wf g -> repaints old g -> repaints old (mark_all_damaged g).
Proof.
  intros Hwf Hr. unfold mark_all_damaged. destruct (_ || _); [done|]. apply all_damaged.
  - cbn. rewrite length_map. apply Hwf.
  - apply Forall_forall. intros r Hin. cbn in Hin. by apply list_elem_of_fmap in Hin as (? & -> & _).
Qed.

(** After the damage is cleared the screen shows the grid. *)
Lemma repaints_clear g : wf g -> repaints (look_at g) (clear_damage g).
Proof.
  intros _ x y Hx Hy _.
  assert (pending_scroll_up (clear_damage g) = 0 /\ g_height (clear_damage g) = g_height g
    /\ look_at (clear_damage g) x y = look_at g x y) as (-> & E & ->) by (unfold clear_damage in *; by destruct (any_damage g)).
  rewrite N.add_0_r. rewrite E in Hy |- *. done.
Qed.

Lemma repaints_wrapped old g y b : repaints old g -> repaints old (set_row_wrapped g y b).
Proof.
  intros Hr x' y' Hx Hy Hnd. destruct (Hr x' y' Hx Hy Hnd) as [Hp Hl]. split; [done|]. etransitivity; [|exact Hl].
  unfold look_at. change (look_of (set_row_wrapped g y b)) with (look_of g). f_equal.
  unfold peek, get. cbn [set_row_wrapped with_lines lines].
  destruct (decide (N.to_nat y' = N.to_nat y)) as [->|].
  - rewrite list_lookup_alter_eq. by destruct (lines g !! _).
  - by rewrite list_lookup_alter_ne.
Qed.

Lemma repaints_history old g sb n : repaints old g -> repaints old (with_history g sb n).
Proof. exact id. Qed.

(** ** Scrolls *)

Lemma damaged_mark_rows g top bottom x y :
  x < g_width g -> y < N.of_nat (length (damage g)) ->
  damaged (mark_rows_damaged g top bottom) x y <-> top <= y <= bottom \/ damaged g x y.
Proof.
  intros Hx Hy. unfold damaged, row_damage, mark_rows_damaged.
  destruct (N.eqb_spec (g_width g) 0); [lia|]. cbn [with_damage damage].
  rewrite list_lookup_imap. destruct (lookup_lt_is_Some_2 (damage g) (N.to_nat y)) as [r Hr]; [lia|]. rewrite Hr.
  cbn. rewrite N2Nat.id. destruct (N.leb_spec top y), (N.leb_spec y bottom); cbn;
    [split; [intros _; left; lia|intros _; lia]|..];
    (split; [by right|intros [?|?]; [lia|done]]).
Qed.

(** Marking rows changes the damage only. *)
Lemma repaints_mark_rows (old : N -> N -> look) g top bottom :
  length (damage g) = N.to_nat (g_height g) ->
  (forall x y, x < g_width g -> y < g_height g -> ~ (top <= y <= bottom) -> ~ damaged g x y ->
     y + pending_scroll_up g < g_height g /\ look_at g x y = old x (y + pending_scroll_up g)) ->
  repaints old (mark_rows_damaged g top bottom).
Proof.
  intros Hl H x y Hx Hy Hnd.
  assert (exists d a, mark_rows_damaged g top bottom = with_damage g d a (pending_scroll_up g)) as (d & a & E).
  { unfold mark_rows_damaged. destruct (_ =? 0); [|by do 2 eexists]. exists (damage g), (any_damage g). by destruct g. }
  assert (g_width (mark_rows_damaged g top bottom) = g_width g
    /\ g_height (mark_rows_damaged g top bottom) = g_height g) as [Ew Eh] by by rewrite E.
  rewrite Ew in Hx. rewrite Eh in Hy |- *. rewrite damaged_mark_rows in Hnd by lia.
  destruct (H x y Hx Hy) as [H1 H2]; [tauto|tauto|]. rewrite E. by split.
Qed.

Lemma look_at_blank g x y l :
  lines g !! N.to_nat y = Some l -> look_at g x y = look_of g (default default_cell (cells l !! N.to_nat x)).
Proof. intros H. unfold look_at, peek, get. by rewrite H. Qed.

(** Everything scrolls: rows move up by one, damage with them. *)
Lemma repaints_scroll_up old g blank :
  wf g -> repaints old g -> repaints old (scroll_up g blank).
Proof.
  intros Hwf Hr. pose proof Hwf as [Hs Hd _ _]. destruct (sh_dims g Hs) as [_ Dh]. unfold scroll_up.
  destruct (N.eqb_spec (g_height g) 0); [done|]. pose proof (sh_lines g Hs) as Hlen.
  destruct (lines g) as [|l rest] eqn:El; [done|].
  destruct (push_scrollback_fields (with_lines (with_next_id g (next_line_id g + 1)) rest)
    (trim_default_tail l)) as (sb & Esb & _). cbn [with_lines with_next_id scrollback_limit] in Esb.
  rewrite Esb. cbn zeta. set (g1 := with_damage _ _ _ _). pose proof (dm_rows g Hd) as Hrows.
  change (g_height g1) with (g_height g). apply repaints_mark_rows.
  { change (damage g1) with (rotate_damage (damage g)). rewrite rotate_length. done. }
  intros x y Hx Hy Hlast Hnd. change (g_height g1) with (g_height g) in *. change (g_width g1) with (g_width g) in *.
  change (pending_scroll_up g1) with (N.min (sadd u16_max (pending_scroll_up g) 1) (g_height g)).
  cbn in Hlen. assert (y + 1 < g_height g) as Hy1 by lia.
  assert (~ damaged g x (y + 1)) as Hnd1.
  { unfold damaged, row_damage in *. change (damage g1) with (rotate_damage (damage g)) in Hnd.
    destruct (damage g) as [|r d]; [done|]. cbn [rotate_damage length] in *.
    replace (N.to_nat (y + 1)) with (S (N.to_nat y)) by lia. cbn. by rewrite lookup_app_l in Hnd by lia. }
  destruct (Hr x (y + 1) Hx Hy1 Hnd1) as [Hp Hl].
  assert (N.min (sadd u16_max (pending_scroll_up g) 1) (g_height g) = pending_scroll_up g + 1) as ->.
  { rewrite sadd_small by (unfold u16_max, U16 in *; lia). lia. }
  replace (y + (pending_scroll_up g + 1)) with (y + 1 + pending_scroll_up g) by lia. split; [done|]. rewrite <- Hl.
  destruct (lookup_lt_is_Some_2 rest (N.to_nat y)) as [l0 Hl0]; [lia|].
  rewrite (look_at_blank g1 x y l0).
  2: { change (lines g1) with (rest ++ [blank_line (g_width g) blank (next_line_id g)]). by apply lookup_app_l_Some. }
  rewrite (look_at_blank g x (y + 1) l0); [done|].
  rewrite El. replace (N.to_nat (y + 1)) with (S (N.to_nat y)) by lia. done.
Qed.

(** Removing a row of a region and inserting another moves no row outside it. *)
Lemma region_outside (ls : list Line) i j l y top bottom :
  top <= i -> i <= bottom -> top <= j -> j <= bottom -> bottom < N.of_nat (length ls) ->
  ~ (top <= y <= bottom) -> insert_at j l (remove_at i ls) !! N.to_nat y = ls !! N.to_nat y.
Proof.
  intros Hi1 Hi2 Hj1 Hj2 Hb Hy. unfold insert_at, remove_at.
  assert (length (take (N.to_nat j) (delete (N.to_nat i) ls)) = N.to_nat j) as Hlen.
  { rewrite length_take, length_delete by (apply lookup_lt_is_Some_2; lia). lia. }
  destruct (decide (y < top)).
  - rewrite lookup_app_l by lia. rewrite lookup_take_lt by lia. by rewrite list_lookup_delete_lt by lia.
  - rewrite lookup_app_r by lia. rewrite Hlen.
    rewrite lookup_cons_ne_0 by lia. rewrite lookup_drop, list_lookup_delete_ge by lia. f_equal. lia.
Qed.

(** A region scrolls with no scroll pending. *)
Lemma repaints_region old g sb i j blank top bottom :
  wf g -> repaints old g -> pending_scroll_up g = 0 ->
  top <= i <= bottom -> top <= j <= bottom -> bottom < g_height g ->
  repaints old (replace_line (with_history (with_lines g (remove_at i (lines g))) sb (scrollback_limit g)) j blank top bottom).
Proof.
  intros Hwf Hr Hp0 Hi Hj Hb. pose proof Hwf as [Hs Hd _ _]. pose proof (sh_lines g Hs) as Hlen.
  unfold replace_line, alloc_line_id. set (g1 := with_damage _ _ _ _). apply repaints_mark_rows; [exact (dm_rows g Hd)|].
  intros x y Hx Hy Hout Hnd. change (g_width g1) with (g_width g) in *. change (g_height g1) with (g_height g) in *.
  change (pending_scroll_up g1) with 0. destruct (Hr x y Hx Hy Hnd) as [_ Hl]. rewrite Hp0 in Hl.
  split; [lia|]. rewrite <- Hl. destruct (line_at g y Hs Hy) as [l Hl0].
  rewrite (look_at_blank g x y l Hl0). rewrite (look_at_blank g1 x y l); [done|].
  change (lines g1) with (insert_at j (blank_line (g_width g) blank (next_line_id g)) (remove_at i (lines g))).
  rewrite (region_outside _ _ _ _ _ top bottom); [done|lia..].
Qed.

(** ** Programs *)

Section Programs.
Context `{Unicode}.

(** A region scroll finds the damage in the coordinates of the screen: no whole
    scroll is pending, or the whole screen scrolls with it. *)
Definition scroll_settled (g : Grid) (o : grid_op) : Prop :=
  match o with
  | ORegionUp top bottom _ => pending_scroll_up g = 0 \/ top = 0 /\ bottom = g_height g - 1
  | ORegionUpDiscarding _ _ _ | ORegionDown _ _ _ => pending_scroll_up g = 0
  | OClearDamage => False
  | _ => True
  end.

Fixpoint scrolls_settled (g : Grid) (os : list grid_op) : Prop :=
  match os with [] => True | o :: os => scroll_settled g o /\ scrolls_settled (run_op g o) os end.

Lemma repaints_region_up old g top bottom blank history :
  wf g -> repaints old g -> (pending_scroll_up g = 0 \/ history = true /\ top = 0 /\ bottom = g_height g - 1) ->
  repaints old (scroll_region_up_inner g top bottom blank history).
Proof.
  intros Hwf Hr Hp. pose proof Hwf as [Hs _ _ _]. unfold scroll_region_up_inner.
  destruct (N.leb_spec (g_height g) top); [done|]. destruct (N.leb_spec (g_height g) bottom); [done|].
  destruct (N.ltb_spec bottom top); [done|]. cbn [orb].
  destruct (history && (top =? 0) && (bottom =? g_height g - 1)) eqn:E; [by apply repaints_scroll_up|].
  assert (pending_scroll_up g = 0) as Hp0.
  { destruct Hp as [?|(-> & -> & ->)]; [done|]. by rewrite !N.eqb_refl in E. }
  destruct (line_at g top Hs) as [l Hl]; [done|]. rewrite Hl. destruct history.
  - destruct (push_scrollback_fields (with_lines g (remove_at top (lines g))) l) as (sb & Eb & _).
    rewrite Eb. apply (repaints_region old g sb); [done|done|done|lia|lia|done].
  - rewrite <- (with_history_same (with_lines g (remove_at top (lines g)))).
    apply (repaints_region old g (scrollback g)); [done|done|done|lia|lia|done].
Qed.

Lemma repaints_grapheme old g x y t c w :
  sound g -> style_ok g c -> repaints old g ->
  repaints old (set_grapheme g x y t c w).
Proof.
  intros [Hwf Hroom _] Hc Hr.
  destruct (set_grapheme_steps g x y t c w Hwf Hc (roomy_clusters g Hroom)) as (g1 & g2 & H1 & H2 & Hwf2 & H3 & _).
  eapply repaints_sets; [exact Hwf2|exact H3|]. eapply repaints_relooks; [|exact H2|exact (repaints_sets old g g1 Hwf H1 Hr)].
  exact (sets_wf g g1 Hwf H1).
Qed.

Lemma repaints_op old g o :
  sound g -> op_ok g o -> scroll_settled g o -> repaints old g -> repaints old (run_op g o).
Proof.
  intros Hg Hok Hset Hr. pose proof (so_wf g Hg) as Hwf. destruct o; cbn [run_op op_ok scroll_settled] in *; try done.
  - by apply repaints_set.
  - eapply repaints_sets; [done|by apply clear_glyph_sets|done].
  - eapply repaints_sets; [done|by apply erase_sets|done].
  - eapply repaints_sets; [done|apply delete_sets; [apply Hwf|done]|done].
  - eapply repaints_sets; [done|apply insert_sets; [apply Hwf|done]|done].
  - by apply repaints_grapheme.
  - unfold append_to_grapheme. destruct (_ || _); [done|]. destruct (negb _); [done|].
    apply repaints_grapheme; [done|apply peek_style, (wf_arena g), Hg|done].
  - by apply repaints_scroll_up.
  - unfold scroll_region_up. destruct Hset as [Hp|[-> ->]]; apply repaints_region_up; auto.
  - apply repaints_region_up; auto.
  - unfold scroll_region_down. destruct (N.leb_spec (g_height g) top); [done|].
    destruct (N.leb_spec (g_height g) bottom); [done|]. destruct (N.ltb_spec bottom top); [done|]. cbn [orb].
    rewrite <- (with_history_same (with_lines g (remove_at bottom (lines g)))).
    apply (repaints_region old g (scrollback g)); [done|done|done|lia|lia|done].
  - by apply repaints_wrapped.
  - by apply repaints_mark_all.
  - pose proof (intern_link_spec g uri (wf_arena g Hwf) (roomy_links g (so_roomy g Hg))) as Hl.
    destruct (intern_hyperlink g uri) as [g' h]. destruct Hl as (Hrl & _). by eapply repaints_relooks.
  - pose proof (intern_color_spec g c (wf_arena g Hwf)) as Hc.
    destruct (intern_underline_color g c) as [g' h]. destruct Hc as (Hrl & _). by eapply repaints_relooks.
  - destruct Hok as (Hb & Hw & Hh & Hc & _).
    destruct (decide (w <> g_width g \/ h <> g_height g)) as [Hne|Heq].
    + pose proof (resize_spec g w h blank cursor pending Hwf Hb Hw Hh Hc Hne) as Hz. unfold resize_kept in Hz.
      destruct (resize_reflow g w h blank cursor pending) as [g' [[cx cy] p]].
      destruct Hz as (Hwf' & _ & Ew & Eh & _ & _ & Hd & _). apply all_damaged; cbn [fst]; [apply Hwf'|by rewrite Ew].
    + unfold resize_reflow. replace (N.max w 1) with w by lia. replace (N.max h 1) with h by lia.
      destruct (N.eqb_spec w (g_width g)); [|tauto]. destruct (N.eqb_spec h (g_height g)); [|tauto]. done.
Qed.

Lemma repaints_run old os : forall g,
  sound g -> ops_ok g os -> scrolls_settled g os -> repaints old g -> repaints old (run_ops g os).
Proof.
  induction os as [|o os IH]; intros g Hg Hok Hset Hr; [done|].
  destruct Hok as [Ho Hok], Hset as [Hs Hset].
  apply (IH (run_op g o)); [by apply run_op_sound|exact Hok|exact Hset|by apply repaints_op].
Qed.

(** C8: damage is enough to repaint. Whatever operations follow a
    [clear_damage], the grid's cells outside the damaged ranges are those of the
    screen painted then, moved up by the pending scroll, provided that no scroll
    of a part of the screen comes while a whole-screen scroll is pending
    ([scrolls_settled]). Without this proviso it fails: see [region_scroll_stale]
    below. *)
Theorem damage_exact g os :
  sound g -> ops_ok (clear_damage g) os -> scrolls_settled (clear_damage g) os ->
  repaints (look_at g) (run_ops (clear_damage g) os).
Proof.
  intros Hg Hok Hset. apply repaints_run; [|done|done|apply repaints_clear, Hg].
  exact (sd_sound _ _ (clear_damage_steady g Hg)).
Qed.
End Programs.

(** The condition is needed. On a screen of three rows, a scroll of the whole
    screen and then one of its last two rows leave the first row undamaged and
    no scroll pending: a renderer repaints the last two and keeps what the first
    row showed before the scroll. *)
Definition stale_start : Grid :=
  set (set (new 1 3) 0 0 (with_ch default_cell 65)) 0 1 (with_ch default_cell 66).

Definition stale_ops : list grid_op :=
  [OScrollUp default_cell; ORegionDown 1 2 default_cell].

Example region_scroll_stale :
  let g := run_ops (H := sample_unicode) (clear_damage stale_start) stale_ops in
  row_damage g 0 = None /\ pending_scroll_up g = 0
  /\ lk_text (look_at g 0 0) = [66] /\ lk_text (look_at stale_start 0 0) = [65].
Proof. vm_compute. done. Qed.

Lemma damage_exact_witness :
  let os := [OGrapheme 1 1 [98] default_cell 1; OScrollUp default_cell] in
  sound (new 4 2) /\ ops_ok (H := sample_unicode) (clear_damage (new 4 2)) os
  /\ repaints (look_at (new 4 2)) (run_ops (H := sample_unicode) (clear_damage (new 4 2)) os).
Proof.
  cbv zeta. assert (sound (new 4 2)) as S0 by (apply new_sound; vm_compute; done).
  assert (forall g, wf g -> cell_ok g default_cell /\ style_ok g default_cell) as Hd.
  { intros g Hg. split; [apply cell_ok_default, Hg|apply (blank_style g Default Default), Hg]. }
  assert (ops_ok (H := sample_unicode) (clear_damage (new 4 2)) [OGrapheme 1 1 [98] default_cell 1; OScrollUp default_cell]) as H1.
  { pose proof (sd_sound _ _ (clear_damage_steady _ S0)) as S1. split; [apply Hd, S1|].
    pose proof (run_op_sound (H := sample_unicode) _ (OGrapheme 1 1 [98] default_cell 1) S1 (proj2 (Hd _ (so_wf _ S1)))) as S2.
    split; [apply Hd, S2|done]. }
  split; [done|]. split; [done|].
  refine (damage_exact (H := sample_unicode) (new 4 2) [OGrapheme 1 1 [98] default_cell 1; OScrollUp default_cell] S0 H1 _).
  repeat split.
Defined.
