(* ===== verification/Renderer.v ===== *)
(** * The renderer

    [uniterm-server/src/renderer.rs]: painting a grid's damage as escape
    sequences, with a cache of what the host terminal was last told.  The
    output is a list of sequences whose bytes are [seq_bytes]; [render] and its
    variants return how many bytes they wrote.  The theorems are in Paint.v. *)

From S2P Require Import Prelude Cell Grid GridInv.
#[local] Open Scope u_scope.

(** ** Sequences for the host terminal *)

Inductive seq : Set :=
| Cup (row col : N)               (* [CSI row ; col H] *)
| Sgr (params : list (list N))    (* [CSI .. m], subparameters with colons *)
| Ech (n : N)                     (* [CSI n X] *)
| Decstbm (top bottom : N)        (* [CSI top ; bottom r] *)
| Margins                         (* [CSI r] *)
| Su (n : N)                      (* [CSI n S] *)
| Ed2                             (* [CSI 2 J] *)
| Osc8 (uri : str)                (* [OSC 8 ; ; uri ST] *)
| Text (t : str).

Definition csi (body : str) : list N := 27 :: lit "[" ++ utf8 body.

Fixpoint joined (sep : str) (l : list str) : str :=
  match l with [] => [] | [s] => s | s :: l => s ++ sep ++ joined sep l end.

Definition seq_bytes (s : seq) : list N :=
  match s with
  | Cup row col => csi (dec row ++ lit ";" ++ dec col ++ lit "H")
  | Sgr ps => csi (joined (lit ";") (map (fun p => joined (lit ":") (map dec p)) ps) ++ lit "m")
  | Ech n => csi (dec n ++ lit "X")
  | Decstbm top bottom => csi (dec top ++ lit ";" ++ dec bottom ++ lit "r")
  | Margins => csi (lit "r")
  | Su n => csi (dec n ++ lit "S")
  | Ed2 => csi (lit "2J")
  | Osc8 uri => (27 :: lit "]8;;") ++ utf8 uri ++ 27 :: lit "\"
  | Text t => utf8 t
  end.

Definition out_bytes (out : list seq) : list N := concat (map seq_bytes out).

(** ** State *)

(** Foreground, background, attributes and underline colour. *)
Definition style : Set := (Color * Color * N * Color)%type.

Record Renderer : Set := {
  last_style : option style; last_hyperlink : option str; r_cursor : option (N * N); r_dim : bool }.

Definition new : Renderer :=
  {| last_style := None; last_hyperlink := None; r_cursor := None; r_dim := false |}.

Definition with_style (r : Renderer) (s : option style) : Renderer :=
  {| last_style := s; last_hyperlink := last_hyperlink r; r_cursor := r_cursor r; r_dim := r_dim r |}.
Definition with_link (r : Renderer) (l : option str) : Renderer :=
  {| last_style := last_style r; last_hyperlink := l; r_cursor := r_cursor r; r_dim := r_dim r |}.
Definition with_cursor (r : Renderer) (c : option (N * N)) : Renderer :=
  {| last_style := last_style r; last_hyperlink := last_hyperlink r; r_cursor := c; r_dim := r_dim r |}.

Definition invalidate (r : Renderer) : Renderer :=
  {| last_style := None; last_hyperlink := None; r_cursor := None; r_dim := r_dim r |}.

Definition set_dim (r : Renderer) (d : bool) : Renderer :=
  if eqb (r_dim r) d then r
  else {| last_style := None; last_hyperlink := last_hyperlink r; r_cursor := r_cursor r; r_dim := d |}.

(** The renderer and what it has written. *)
Definition drawing : Set := (Renderer * list seq)%type.

Definition emit (s : drawing) (c : seq) : drawing := (s.1, s.2 ++ [c]).

(** ** Cursor, style and link *)

Definition move_cursor (s : drawing) (x y : N) : drawing :=
  if bool_decide (r_cursor s.1 = Some (x, y)) then s
  else emit (with_cursor s.1 (Some (x, y)), s.2) (Cup (y +16 1) (x +16 1)).

Definition close_hyperlink (s : drawing) : drawing :=
  match last_hyperlink s.1 with
  | Some _ => emit (with_link s.1 None, s.2) (Osc8 [])
  | None => s
  end.

Definition set_hyperlink (s : drawing) (target : option str) : drawing :=
  if bool_decide (last_hyperlink s.1 = target) then s
  else
    let s := close_hyperlink s in
    match target with
    | Some uri => let s := emit s (Osc8 uri) in (with_link s.1 (Some uri), s.2)
    | None => s
    end.

Definition has (attrs bit : N) : bool := negb (N.land attrs bit =? 0).

Definition underline_params (u : UnderlineStyle) : list (list N) :=
  match u with
  | UNone => [] | Single => [[4]] | Double => [[4; 2]] | Curly => [[4; 3]] | Dotted => [[4; 4]] | Dashed => [[4; 5]]
  end.

Definition color_params (code : N) (c : Color) : list (list N) :=
  match c with
  | Default => []
  | Idx n => [[code]; [5]; [n]]
  | Rgb r g b => [[code]; [2]; [r]; [g]; [b]]
  end.

Definition sgr_params (dim : bool) (s : style) : list (list N) :=
  let '(f, b, a, u) := s in
  [[0]] ++ (if dim then [[2]] else [])
  ++ (if has a BOLD then [[1]] else []) ++ (if has a DIM then [[2]] else [])
  ++ (if has a ITALIC then [[3]] else []) ++ underline_params (underline_style a)
  ++ (if has a BLINK then [[5]] else []) ++ (if has a REVERSE then [[7]] else [])
  ++ (if has a INVISIBLE then [[8]] else []) ++ (if has a STRIKE then [[9]] else [])
  ++ color_params 38 f ++ color_params 48 b ++ color_params 58 u.

Definition emit_sgr (s : drawing) (st : style) : drawing := emit s (Sgr (sgr_params (r_dim s.1) st)).

(** [if self.last_style != Some(style) { emit_sgr; last_style = Some(style) }] *)
Definition set_style (s : drawing) (st : style) : drawing :=
  if bool_decide (last_style s.1 = Some st) then s
  else let s := emit_sgr s st in (with_style s.1 (Some st), s.2).

Section Cells.
Context `{Unicode}.

(** [write_cell_display_text] *)
Definition display_text (g : Grid) (c : Cell) : str :=
  if is_continuation c then []
  else if negb (cluster c =? 0) then
    let text := default [REPLACEMENT] (clusters g !! N.to_nat (cluster c)) in
    if (width c =? 1) && (1 <? text_width text) then [REPLACEMENT] else text
  else if (width c =? 1) && (1 <? default 0 (char_width (ch c))) then [REPLACEMENT]
  else [ch c].

Definition style_at (g : Grid) (c : Cell) : style :=
  (fg c, bg c, attrs c, underline_color g (c_underline c)).

Definition emit_cell (s : drawing) (g : Grid) (c : Cell) : drawing :=
  let s := set_hyperlink s (hyperlink g (c_hyperlink c)) in
  emit (set_style s (style_at g c)) (Text (display_text g c)).

(** ** Rows *)

(** The [while] that skips default cells from the end; it stops at [lo]. *)
Fixpoint text_end_loop (fuel : nat) (g : Grid) (y lo text_end : N) : N :=
  match fuel with
  | O => text_end
  | S fuel =>
      if (lo <? text_end) && bool_decide (peek g (text_end - 1) y = default_cell)
      then text_end_loop fuel g y lo (text_end - 1) else text_end
  end.

(** The loop over the columns [x .. text_end - 1]; each round advances. *)
Fixpoint cells_loop (fuel : nat) (s : drawing) (g : Grid) (y x text_end : N) : drawing * N :=
  match fuel with
  | O => (s, x)
  | S fuel =>
      if x <? text_end then
        let c := peek g x y in
        if is_continuation c then cells_loop fuel s g y (x +16 1) text_end
        else cells_loop fuel (emit_cell s g c) g y (sadd u16_max x (display_width c)) text_end
      else (s, x)
  end.

Definition default_style : style := (Default, Default, NONE, Default).

(** Where the text of a row ends and the blanks of [ECH] begin. *)
Definition text_end (g : Grid) (y lo hi : N) : N :=
  let e := text_end_loop (N.to_nat (hi +16 1 - lo)) g y lo (hi +16 1) in
  if hi +16 1 - e <? 8 then hi +16 1 else e.

Definition render_row (s : drawing) (g : Grid) (y lo hi ox oy : N) : drawing :=
  let e := text_end g y lo hi in
  let s := move_cursor s (ox +16 lo) (oy +16 y) in
  let '(s, x) := cells_loop (N.to_nat (e - lo)) s g y lo e in
  let s := (with_cursor s.1 (Some (ox +16 x, oy +16 y)), s.2) in
  if e <=? hi then
    let s := set_style (close_hyperlink s) default_style in
    emit s (Ech (hi +16 1 - e))
  else s.

(** ** Panes *)

Definition expanded_damage (g : Grid) (y lo hi : N) : N * N :=
  let lo := if is_continuation (peek g lo y) && (0 <? lo) then lo - 1 else lo in
  let c := peek g hi y in
  let hi := if negb (is_continuation c) && (width c =? 2) && (hi +16 1 <? g_width g) then hi +16 1 else hi in
  (lo, hi).

Definition damage_row (g : Grid) (ox oy : N) (s : drawing) (y : N) : drawing :=
  match row_damage g y with
  | Some (lo, hi) => let '(lo, hi) := expanded_damage g y lo hi in render_row s g y lo hi ox oy
  | None => s
  end.

Definition render_pane_damage_precise (s : drawing) (g : Grid) (ox oy : N) : drawing :=
  close_hyperlink (foldl (damage_row g ox oy) s (range 0 (g_height g))).

Definition full_row_at (g : Grid) (ox oy : N) (s : drawing) (y : N) : drawing :=
  if g_width g =? 0 then s else render_row s g y 0 (g_width g - 1) ox oy.

Definition render_pane_full (s : drawing) (g : Grid) (ox oy : N) : drawing :=
  close_hyperlink (foldl (full_row_at g ox oy) s (range 0 (g_height g))).

Definition render_pane_damage (s : drawing) (g : Grid) (ox oy : N) : drawing :=
  if negb (is_dirty g) then s
  else if negb (pending_scroll_up g =? 0) then render_pane_full s g ox oy
  else render_pane_damage_precise s g ox oy.

Definition render (s : drawing) (g : Grid) : drawing := render_pane_damage s g 0 0.

(** The margins of the pane, the scroll and the margins of the screen again. *)
Definition scroll_pane (s : drawing) (g : Grid) (oy : N) : drawing :=
  let s := close_hyperlink s in
  let s := emit (emit (emit s (Decstbm (oy +16 1) (oy +16 g_height g))) (Su (pending_scroll_up g))) Margins in
  (with_cursor s.1 None, s.2).

Definition render_pane_damage_with_scroll (s : drawing) (g : Grid) (ox oy : N) : drawing :=
  if negb (is_dirty g) then s
  else
    let s := if negb (pending_scroll_up g =? 0) then scroll_pane s g oy else s in
    render_pane_damage_precise s g ox oy.

Definition render_full (s : drawing) (g : Grid) : drawing :=
  render_pane_full (emit (invalidate s.1, s.2) Ed2) g 0 0.

Definition place_cursor (s : drawing) (x y : N) : drawing := move_cursor s x y.

(** The bytes an operation appends. *)
Definition bytes_written (before after : drawing) : N :=
  N.of_nat (length (out_bytes after.2)) - N.of_nat (length (out_bytes before.2)).
End Cells.

(** A clean grid renders to nothing. *)
Example clean_grid_emits_nothing :
  render (H := sample_unicode) (new, []) (Grid.new 80 24) = (new, []).
Proof. reflexivity. Qed.

(** One cell is a cursor move, a style and a glyph. *)
Example single_cell_change_is_small :
  out_bytes (render (H := sample_unicode) (new, []) (set (Grid.new 80 24) 5 2 (with_ch default_cell 65))).2
  = 27 :: lit "[3;6H" ++ 27 :: lit "[0mA".
Proof. vm_compute. reflexivity. Qed.
