(* ===== verification/Host.v ===== *)
(** * The host terminal of a client

    What the renderer relies on: a terminal of fixed size that shows glyphs of
    one or two columns and understands the sequences of Renderer.v.  The host is
    a program of its own, so it is the class [Host] with the behaviour that
    terminals document ([HostLaws]); [plain_host] is a simple one. *)

From S2P Require Import Prelude Cell Grid GridInv Wide Renderer.

(** ** What is shown *)

(** The rendition that SGR parameters select. *)
Record rendition : Set := {
  rn_fg : Color; rn_bg : Color; rn_under : UnderlineStyle; rn_under_color : Color;
  rn_bold : bool; rn_faint : bool; rn_italic : bool; rn_blink : bool; rn_reverse : bool;
  rn_invisible : bool; rn_strike : bool }.

Definition rendition_of (s : style) : rendition :=
  let '(f, b, a, u) := s in
  {| rn_fg := f; rn_bg := b; rn_under := underline_style a; rn_under_color := u;
     rn_bold := has a BOLD; rn_faint := has a DIM; rn_italic := has a ITALIC; rn_blink := has a BLINK;
     rn_reverse := has a REVERSE; rn_invisible := has a INVISIBLE; rn_strike := has a STRIKE |}.

(** A column of the screen: a glyph, or the second half of the one before. *)
Inductive shown : Set :=
| Glyph (t : str) (pen : rendition) (link : option str) (w : N)
| Half.

Definition shown_width (s : shown) : N := match s with Glyph _ _ _ w => w | Half => 0 end.

Definition blank_shown : shown := Glyph [SPACE] (rendition_of default_style) None 1.

(** ** The interface *)

Class Host := {
  host : Type;
  h_width : N; h_height : N;
  h_ok : host -> Prop;                     (* states the terminal can be in *)
  h_cell : host -> N -> N -> shown;
  h_cursor : host -> N * N;                (* at column [h_width] a wrap is pending *)
  h_pen : host -> rendition;
  h_link : host -> option str;
  text_columns : str -> N;                 (* columns a text takes *)
  exec : host -> seq -> host }.

Section Laws.
Context `{Host}.

(** A sequence that draws nothing. *)
Record quiet (h h' : host) : Prop := {
  qt_ok : h_ok h';
  qt_cell : forall x y, x < h_width -> y < h_height -> h_cell h' x y = h_cell h x y }.

(** [n] columns of row [y] from [x] on are written: nothing else changes, but
    halves of a glyph that is cut. *)
Definition beside (h : host) (x y n x' y' : N) : Prop :=
  y' <> y \/ x' + 1 < x \/ (x' + 1 = x /\ shown_width (h_cell h x y) <> 0)
  \/ x + n < x' \/ (x' = x + n /\ shown_width (h_cell h x' y) <> 0).

Record wrote (h h' : host) (x y n : N) : Prop := {
  wr_ok : h_ok h';
  wr_pen : h_pen h' = h_pen h; wr_link : h_link h' = h_link h;
  wr_rest : forall x' y', x' < h_width -> y' < h_height -> beside h x y n x' y' ->
    h_cell h' x' y' = h_cell h x' y' }.

Class HostLaws : Prop := {
  hl_size : h_width < U16 /\ h_height < U16;
  (* no half of a glyph is ever shown alone *)
  hl_paired h y : h_ok h -> y < h_height -> paired h_width (fun x => shown_width (h_cell h x y));
  hl_move h x y : h_ok h -> x < h_width -> y < h_height ->
    let h' := exec h (Cup (y + 1) (x + 1)) in
    quiet h h' /\ h_cursor h' = (x, y) /\ h_pen h' = h_pen h /\ h_link h' = h_link h;
  hl_sgr h s : h_ok h ->
    let h' := exec h (Sgr (sgr_params false s)) in
    quiet h h' /\ h_cursor h' = h_cursor h /\ h_pen h' = rendition_of s /\ h_link h' = h_link h;
  hl_link h u : h_ok h ->
    let h' := exec h (Osc8 u) in
    quiet h h' /\ h_cursor h' = h_cursor h /\ h_pen h' = h_pen h
    /\ h_link h' = if decide (u = []) then None else Some u;
  hl_text h t x y : h_ok h -> h_cursor h = (x, y) -> y < h_height ->
    1 <= text_columns t <= 2 -> x + text_columns t <= h_width ->
    let h' := exec h (Text t) in
    wrote h h' x y (text_columns t) /\ h_cursor h' = (x + text_columns t, y)
    /\ h_cell h' x y = Glyph t (h_pen h) (h_link h) (text_columns t)
    /\ (text_columns t = 2 -> h_cell h' (x + 1) y = Half);
  hl_ech h n x y : h_ok h -> h_cursor h = (x, y) -> y < h_height -> 0 < n -> x + n <= h_width ->
    h_pen h = rendition_of default_style -> h_link h = None ->
    let h' := exec h (Ech n) in
    wrote h h' x y n /\ h_cursor h' = (x, y) /\ (forall i, x <= i < x + n -> h_cell h' i y = blank_shown);
  hl_scroll h top bottom n : h_ok h -> 1 <= top -> top < bottom -> bottom <= h_height ->
    let h' := exec (exec (exec h (Decstbm top bottom)) (Su n)) Margins in
    h_ok h' /\ h_pen h' = h_pen h /\ h_link h' = h_link h
    /\ forall x y, x < h_width -> y < h_height ->
         ((y + 1 < top \/ bottom <= y) -> h_cell h' x y = h_cell h x y)
         /\ (top <= y + 1 -> y + n < bottom -> h_cell h' x y = h_cell h x (y + n));
  hl_clear h : h_ok h ->
    let h' := exec h Ed2 in h_ok h' /\ h_pen h' = h_pen h /\ h_link h' = h_link h
    /\ forall x y, x < h_width -> y < h_height -> shown_width (h_cell h' x y) = 1 }.
End Laws.

(** ** A plain terminal *)

Record plain : Set := {
  p_cell : N -> N -> shown; p_cursor : N * N; p_pen : rendition; p_link : option str; p_margins : N * N }.

(** What SGR parameters do to a rendition. *)
Definition underline_code (v : N) (r : rendition) : UnderlineStyle :=
  match v with 0 => UNone | 1 => Single | 2 => Double | 3 => Curly | 4 => Dotted | 5 => Dashed | _ => rn_under r end.

Definition pen_with (r : rendition) (f b u : Color) (s : UnderlineStyle) (bold faint italic blink rev inv strike : bool) :=
  {| rn_fg := f; rn_bg := b; rn_under := s; rn_under_color := u;
     rn_bold := bold || rn_bold r; rn_faint := faint || rn_faint r; rn_italic := italic || rn_italic r;
     rn_blink := blink || rn_blink r; rn_reverse := rev || rn_reverse r;
     rn_invisible := inv || rn_invisible r; rn_strike := strike || rn_strike r |}.

Definition with_flag (r : rendition) := pen_with r (rn_fg r) (rn_bg r) (rn_under_color r) (rn_under r).

Definition with_color (r : rendition) (code : N) (c : Color) : rendition :=
  let f := if code =? 38 then c else rn_fg r in
  let b := if code =? 48 then c else rn_bg r in
  let u := if code =? 58 then c else rn_under_color r in
  pen_with r f b u (rn_under r) false false false false false false false.

Definition with_under (r : rendition) (u : UnderlineStyle) : rendition :=
  pen_with r (rn_fg r) (rn_bg r) (rn_under_color r) u false false false false false false false.

Definition with_code (r : rendition) (code : N) : rendition :=
  if code =? 0 then rendition_of default_style
  else if code =? 4 then with_under r Single
  else with_flag r (code =? 1) (code =? 2) (code =? 3) (code =? 5) (code =? 7) (code =? 8) (code =? 9).

Fixpoint read_sgr (ps : list (list N)) (r : rendition) : rendition :=
  match ps with
  | [] => r
  | [code] :: ps =>
      if (code =? 38) || (code =? 48) || (code =? 58) then
        match ps with
        | [k] :: [a] :: ps =>
            if k =? 5 then read_sgr ps (with_color r code (Idx a))
            else match ps with
                 | [b] :: [c] :: ps => read_sgr ps (with_color r code (Rgb a b c))
                 | _ => r
                 end
        | _ => r
        end
      else read_sgr ps (with_code r code)
  | [_; v] :: ps => read_sgr ps (with_under r (underline_code v r))
  | _ :: ps => read_sgr ps r
  end.

Section Plain.
Context (w h : N) (columns : str -> N).

(** Columns [x .. x + n - 1] of row [y] are written; cut glyphs become blanks. *)
Definition overwrite (f : N -> N -> shown) (x y n : N) (new : N -> shown) : N -> N -> shown :=
  fun x' y' =>
    if negb (y' =? y) then f x' y'
    else if (x <=? x') && (x' <? x + n) then new x'
    else if (x' + 1 =? x) && (shown_width (f x y) =? 0) then blank_shown
    else if (x' =? x + n) && (shown_width (f x' y) =? 0) then blank_shown
    else f x' y'.

Definition plain_exec (s : plain) (c : seq) : plain :=
  let x := (p_cursor s).1 in
  let y := (p_cursor s).2 in
  match c with
  | Cup row col => {| p_cell := p_cell s; p_cursor := (col - 1, row - 1); p_pen := p_pen s; p_link := p_link s;
                      p_margins := p_margins s |}
  | Sgr ps =>
      {| p_cell := p_cell s; p_cursor := (x, y); p_pen := read_sgr ps (p_pen s); p_link := p_link s; p_margins := p_margins s |}
  | Ech n =>
      {| p_cell := overwrite (p_cell s) x y n (fun _ => blank_shown); p_cursor := (x, y); p_pen := p_pen s;
         p_link := p_link s; p_margins := p_margins s |}
  | Decstbm top bottom =>
      {| p_cell := p_cell s; p_cursor := (0, 0); p_pen := p_pen s; p_link := p_link s;
         p_margins := if (1 <=? top) && (top <? bottom) then (top, bottom) else p_margins s |}
  | Margins =>
      {| p_cell := p_cell s; p_cursor := (0, 0); p_pen := p_pen s; p_link := p_link s; p_margins := (1, h) |}
  | Su n =>
      let '(top, bottom) := p_margins s in
      {| p_cell := fun x y => if (top <=? y + 1) && (y <? bottom)
                              then if y + n <? bottom then p_cell s x (y + n) else blank_shown else p_cell s x y;
         p_cursor := (x, y); p_pen := p_pen s; p_link := p_link s; p_margins := p_margins s |}
  | Ed2 => {| p_cell := fun _ _ => blank_shown; p_cursor := (x, y); p_pen := p_pen s; p_link := p_link s;
              p_margins := p_margins s |}
  | Osc8 u => {| p_cell := p_cell s; p_cursor := (x, y); p_pen := p_pen s;
                 p_link := if decide (u = []) then None else Some u; p_margins := p_margins s |}
  | Text t =>
      let n := columns t in
      {| p_cell := overwrite (p_cell s) x y n
           (fun x' => if x' =? x then Glyph t (p_pen s) (p_link s) n else Half);
         p_cursor := (x + n, y); p_pen := p_pen s; p_link := p_link s; p_margins := p_margins s |}
  end.

Definition plain_ok (s : plain) : Prop := forall y, y < h -> paired w (fun x => shown_width (p_cell s x y)).

#[local] Instance plain_host : Host := {|
  host := plain; h_width := w; h_height := h; h_ok := plain_ok; h_cell := p_cell; h_cursor := p_cursor;
  h_pen := p_pen; h_link := p_link; text_columns := columns; exec := plain_exec |}.

Lemma pen_with_same r :
  pen_with r (rn_fg r) (rn_bg r) (rn_under_color r) (rn_under r) false false false false false false false = r.
Proof. by destruct r. Qed.

Lemma read_flag (b : bool) code ps r :
  code ∈ [1; 2; 3; 5; 7; 8; 9] ->
  read_sgr ((if b then [[code]] else []) ++ ps) r
  = read_sgr ps (with_flag r (b && (code =? 1)) (b && (code =? 2)) (b && (code =? 3)) (b && (code =? 5))
      (b && (code =? 7)) (b && (code =? 8)) (b && (code =? 9))).
Proof.
  intros Hc. destruct b; [|cbn; unfold with_flag; by rewrite pen_with_same].
  repeat (apply elem_of_cons in Hc as [->|Hc]; [reflexivity|]). set_solver.
Qed.

Lemma read_under u ps r :
  read_sgr (underline_params u ++ ps) r
  = read_sgr ps (with_under r match u with UNone => rn_under r | _ => u end).
Proof. destruct u; try reflexivity. cbn. unfold with_under. by rewrite pen_with_same. Qed.

Lemma read_color code c ps r :
  code ∈ [38; 48; 58] ->
  read_sgr (color_params code c ++ ps) r
  = read_sgr ps match c with Default => r | _ => with_color r code c end.
Proof.
  intros Hc. destruct c; [done| |];
    repeat (apply elem_of_cons in Hc as [->|Hc]; [reflexivity|]); set_solver.
Qed.

Lemma with_flag_mk f b u c b1 b2 b3 b4 b5 b6 b7 d1 d2 d3 d4 d5 d6 d7 :
  with_flag (Build_rendition f b u c b1 b2 b3 b4 b5 b6 b7) d1 d2 d3 d4 d5 d6 d7
  = Build_rendition f b u c (d1 || b1) (d2 || b2) (d3 || b3) (d4 || b4) (d5 || b5) (d6 || b6) (d7 || b7).
Proof. done. Qed.

Lemma with_under_mk f b u c b1 b2 b3 b4 b5 b6 b7 v :
  with_under (Build_rendition f b u c b1 b2 b3 b4 b5 b6 b7) v = Build_rendition f b v c b1 b2 b3 b4 b5 b6 b7.
Proof. done. Qed.

Lemma with_color_mk f b u c b1 b2 b3 b4 b5 b6 b7 code v :
  with_color (Build_rendition f b u c b1 b2 b3 b4 b5 b6 b7) code v
  = Build_rendition (if code =? 38 then v else f) (if code =? 48 then v else b) u (if code =? 58 then v else c)
      b1 b2 b3 b4 b5 b6 b7.
Proof. done. Qed.

(** The parameters of a style select its rendition. *)
Lemma read_sgr_params s p : read_sgr (sgr_params false s) p = rendition_of s.
Proof.
  destruct s as [[[f b] a] u]. unfold sgr_params, rendition_of. cbn beta iota.
  change (read_sgr ([[0]] ++ ?ps) p) with (read_sgr ps
    (Build_rendition Default Default UNone Default false false false false false false false)).
  rewrite app_nil_l, !read_flag by set_solver. rewrite read_under, !read_flag by set_solver.
  rewrite !read_color by set_solver. rewrite <- (app_nil_r (color_params 58 u)), read_color by set_solver.
  cbn [read_sgr]. rewrite !with_flag_mk, with_under_mk, !with_flag_mk. cbn [rn_under].
  generalize (underline_style a) as v. intros v.
  cbn [N.eqb Pos.eqb]. rewrite ?andb_true_r, ?andb_false_r, ?orb_false_r, ?orb_false_l.
  destruct f, b, u, v; reflexivity.
Qed.

(** Writing whole glyphs over a row leaves whole glyphs. *)
Lemma paired_overwrite f x n v :
  paired w f -> 0 < n -> x + n <= w -> v x <> 0 ->
  (forall i, x <= i < x + n -> (v i = 2 -> i + 1 < x + n) /\ (i + 1 < x + n -> v i = 2 <-> v (i + 1) = 0)) ->
  paired w (fun i => if (x <=? i) && (i <? x + n) then v i
                     else if (i + 1 =? x) && (f x =? 0) then 1
                     else if (i =? x + n) && (f i =? 0) then 1 else f i).
Proof.
  intros [H0 H] Hn Hx Hvx Hv.
  assert (forall i, i < w -> f i = 2 -> i + 1 = x -> f x = 0) as Hcut.
  { intros i Hi E <-. apply (H i Hi); [lia|done]. }
  split.
  - intros Hw. specialize (H0 Hw). destruct (N.leb_spec x 0); cbn [andb].
    + destruct (N.ltb_spec 0 (x + n)); [|lia]. assert (x = 0) as Ex by lia. by rewrite Ex in Hvx.
    + destruct (_ && _); [done|]. by destruct (_ && _).
  - intros k Hk. destruct (H k Hk) as [Ha Hb]. pose proof (Hcut k Hk) as Hc.
    destruct (N.leb_spec x k), (N.ltb_spec k (x + n)); cbn [andb].
    + destruct (Hv k ltac:(lia)) as [Va Vb]. split; [intros E; specialize (Va E); lia|]. intros Hk1.
      destruct (N.leb_spec x (k + 1)); [|lia]. destruct (N.ltb_spec (k + 1) (x + n)); cbn [andb]; [by apply Vb|].
      destruct (N.eqb_spec (k + 1 + 1) x); [lia|]. destruct (N.eqb_spec (k + 1) (x + n)); [|lia].
      cbn [andb]. destruct (N.eqb_spec (f (k + 1)) 0); split; intros E; try done; specialize (Va E); lia.
    + destruct (N.eqb_spec (k + 1) x); [lia|]. cbn [andb]. destruct (N.leb_spec x (k + 1)); [|lia].
      destruct (N.ltb_spec (k + 1) (x + n)); [lia|]. cbn [andb]. destruct (N.eqb_spec (k + 1 + 1) x); [lia|].
      destruct (N.eqb_spec (k + 1) (x + n)); [lia|]. cbn [andb].
      destruct (N.eqb_spec k (x + n)); cbn [andb]; [|done].
      destruct (N.eqb_spec (f k) 0) as [E0|]; [|done]. split; [done|]. intros Hk1. rewrite <- Hb by done. lia.
    + destruct (N.leb_spec x (k + 1)).
      * assert (k + 1 = x) as Ek by lia. rewrite !Ek. rewrite N.eqb_refl. cbn [andb].
        destruct (N.ltb_spec x (x + n)); [|lia]. cbn [andb].
        destruct (N.eqb_spec (f x) 0); [lia|]. destruct (N.eqb_spec k (x + n)); [lia|]. cbn [andb].
        split; [lia|]. intros _. split; [intros E; specialize (Hc E Ek); lia|done].
      * destruct (N.eqb_spec (k + 1) x); [lia|]. destruct (N.eqb_spec k (x + n)); [lia|]. cbn [andb].
        destruct (N.eqb_spec (k + 1 + 1) x) as [E2|]; cbn [andb].
        -- destruct (N.eqb_spec (f x) 0) as [E0|]; cbn [andb].
           ++ split; [done|]. intros Hk1. destruct (H (k + 1) Hk1) as [_ Hd]. rewrite E2 in Hd.
              split; [intros E; apply Hb in E; [|done]; apply Hd in E0; lia|done].
           ++ destruct (N.eqb_spec (k + 1) (x + n)); [lia|]. done.
        -- destruct (N.eqb_spec (k + 1) (x + n)); [lia|]. done.
    + lia.
Qed.

Lemma plain_wrote s s' x y n new :
  plain_ok s -> y < h -> 0 < n -> x + n <= w -> p_cell s' = overwrite (p_cell s) x y n new ->
  p_pen s' = p_pen s -> p_link s' = p_link s -> shown_width (new x) <> 0 ->
  (forall i, x <= i < x + n -> (shown_width (new i) = 2 -> i + 1 < x + n)
     /\ (i + 1 < x + n -> shown_width (new i) = 2 <-> shown_width (new (i + 1)) = 0)) ->
  wrote s s' x y n /\ forall i, x <= i < x + n -> p_cell s' i y = new i.
Proof.
  intros Hs Hy Hn Hx Ec Ep El Hnew Hv. split.
  - split; [|done|done|].
    + intros y' Hy'. rewrite Ec. unfold overwrite. destruct (N.eqb_spec y' y) as [->|]; cbn [negb]; [|by apply Hs].
      eapply paired_ext; [|exact (paired_overwrite _ x n (fun i => shown_width (new i)) (Hs y Hy) Hn Hx Hnew Hv)].
      intros i _. cbv beta. repeat case_match; try done.
    + intros x' y' _ _ Hb. cbn in *. rewrite Ec. unfold overwrite, beside in *. cbn in Hb.
      destruct (N.eqb_spec y' y) as [->|]; cbn [negb]; [|done].
      destruct (N.leb_spec x x'), (N.ltb_spec x' (x + n)); cbn [andb]; try lia;
      destruct (N.eqb_spec (x' + 1) x), (N.eqb_spec x' (x + n)); subst; cbn [andb]; try lia; try done.
      * destruct (N.eqb_spec (shown_width (p_cell s (x + n) y)) 0); [|done]. lia.
      * destruct (N.eqb_spec (shown_width (p_cell s (x' + 1) y)) 0); [|done]. lia.
  - intros i Hi. rewrite Ec. unfold overwrite. rewrite N.eqb_refl. cbn [negb].
    destruct (N.leb_spec x i); [|lia]. destruct (N.ltb_spec i (x + n)); [done|lia].
Qed.

Lemma plain_quiet s s' : plain_ok s -> p_cell s' = p_cell s -> quiet s s'.
Proof. intros Hs E. split; cbn; unfold plain_ok; by rewrite E. Qed.

Lemma plain_laws : w < U16 -> h < U16 -> HostLaws (H := plain_host).
Proof.
  intros Hw Hh. split; cbn; try done.
  - intros s y Hs. apply Hs.
  - intros s x y Hs Hx Hy. split; [by apply plain_quiet|]. split; [f_equal; lia|done].
  - intros s st Hs. split; [by apply plain_quiet|]. split; [by destruct (p_cursor s)|].
    split; [apply read_sgr_params|done].
  - intros s u Hs. split; [by apply plain_quiet|]. split; [by destruct (p_cursor s)|done].
  - intros s t x y Hs E Hy Ht Hx. rewrite E. cbn [fst snd].
    set (new := fun x' => if x' =? x then Glyph t (p_pen s) (p_link s) (columns t) else Half).
    set (s' := {| p_cell := _ |}).
    destruct (plain_wrote s s' x y (columns t) new Hs Hy ltac:(lia) Hx eq_refl eq_refl eq_refl) as [Hwr Hc].
    + unfold new. rewrite N.eqb_refl. cbn. lia.
    + intros i Hi. unfold new. destruct (N.eqb_spec i x), (N.eqb_spec (i + 1) x); cbn; lia.
    + split; [exact Hwr|]. split; [done|]. split; [|intros E2].
      * refine (eq_trans (Hc x ltac:(lia)) _). unfold new. by rewrite N.eqb_refl.
      * refine (eq_trans (Hc (x + 1) ltac:(lia)) _). unfold new. destruct (N.eqb_spec (x + 1) x); [lia|done].
  - intros s n x y Hs E Hy Hn Hx _ _. rewrite E. cbn [fst snd]. set (s' := {| p_cell := _ |}).
    destruct (plain_wrote s s' x y n (fun _ => blank_shown) Hs Hy Hn Hx eq_refl eq_refl eq_refl) as [Hwr Hc];
      [done|intros; cbn; lia|done].
  - intros s top bottom n Hs H1 H2 H3.
    destruct (N.leb_spec 1 top), (N.ltb_spec top bottom); try lia. cbn.
    split; [|split; [done|split; [done|]]].
    + intros y Hy. cbn. destruct (_ && _); [|by apply Hs]. destruct (N.ltb_spec (y + n) bottom); [apply Hs; lia|].
      by apply paired_ones.
    + intros x y Hx Hy. split.
      * intros Hout. destruct (N.leb_spec top (y + 1)), (N.ltb_spec y bottom); cbn; try done; lia.
      * intros Ht Hb. destruct (N.leb_spec top (y + 1)), (N.ltb_spec y bottom), (N.ltb_spec (y + n) bottom); cbn; try done; lia.
Qed.
End Plain.
