(* ===== verification/Paint.v ===== *)
(** * Painting shows the grid

    The renderer of Renderer.v against the host of Host.v: painting the damage
    of a grid makes a host that showed the grid as it was painted last show it
    as it is now, and touches nothing else. *)

From S2P Require Import Prelude Cell Grid GridInv GridEdit GridScroll GridRoom GridOps Wide Damage Renderer Host.
#[local] Open Scope u_scope.

(** What the tables of widths agree on: a text of one scalar value is as wide as
    it, and a space is no wider than a column. *)
Class UnicodeLaws `{Unicode} : Prop := {
  ul_char c : (1 <? text_width [c]) = (1 <? default 0 (char_width c));
  ul_space : default 0 (char_width SPACE) <= 1 }.

Section Paint.
Context `{Unicode} `{!UnicodeLaws} `{Host} `{!HostLaws}.
Implicit Types (g : Grid) (h : host) (s : drawing).

(** ** The cache is in step with the host *)

(** What a look shows on a host. *)
Definition show (l : look) : shown :=
  if lk_width l =? 0 then Half
  else Glyph (if (lk_width l =? 1) && (1 <? text_width (lk_text l)) then [REPLACEMENT] else lk_text l)
         (rendition_of (lk_fg l, lk_bg l, lk_attrs l, lk_underline l)) (lk_link l) (lk_width l).

Definition shown_at g x y : shown := show (look_at g x y).

Definition run h (out : list seq) : host := foldl exec h out.

Lemma played_snoc h out c : run h (out ++ [c]) = exec (run h out) c.
Proof. unfold run. by rewrite foldl_app. Qed.

(** The host [h] has read what [s] has written since [h0]; style and link are
    what the cache says. *)
Record synced (h0 : host) s h : Prop := {
  sy_run : h = run h0 s.2;
  sy_ok : h_ok h;
  sy_pen : forall st, last_style s.1 = Some st -> h_pen h = rendition_of st;
  sy_link : h_link h = last_hyperlink s.1;
  sy_dim : r_dim s.1 = false }.

(** So is the cursor. *)
Definition at_cursor s h : Prop := forall c, r_cursor s.1 = Some c -> h_cursor h = c.

Definition same_screen h h' : Prop :=
  forall x y, x < h_width -> y < h_height -> h_cell h' x y = h_cell h x y.

Lemma same_screen_trans h1 h2 h3 : same_screen h1 h2 -> same_screen h2 h3 -> same_screen h1 h3.
Proof. intros H12 H23 x y Hx Hy. rewrite H23 by done. by apply H12. Qed.

Lemma move_cursor_synced h0 s h x y :
  synced h0 s h -> at_cursor s h -> x < h_width -> y < h_height ->
  exists h', synced h0 (move_cursor s x y) h' /\ at_cursor (move_cursor s x y) h' /\ same_screen h h'
    /\ h_cursor h' = (x, y).
Proof.
  intros [Hr Hok Hp Hl Hd] Hc Hx Hy. unfold move_cursor. case_bool_decide as E.
  - exists h. split_and!; [by split|done|by intros ??|by apply Hc].
  - destruct hl_size. rewrite !wadd_small by lia.
    destruct (hl_move h x y Hok Hx Hy) as ([Hok' Hs] & Hcur & Hp' & Hl').
    eexists. split; [split; [cbn; by rewrite played_snoc, <- Hr|done|..]|split; [|split; [done|done]]].
    + intros st Hst. rewrite Hp'. by apply Hp.
    + by rewrite Hl'.
    + done.
    + intros c [= <-]. done.
Qed.

Lemma close_synced h0 s h :
  synced h0 s h -> exists h', synced h0 (close_hyperlink s) h' /\ same_screen h h' /\ h_cursor h' = h_cursor h
    /\ h_link h' = None /\ h_pen h' = h_pen h /\ r_cursor (close_hyperlink s).1 = r_cursor s.1.
Proof.
  intros [Hr Hok Hp Hl Hd]. unfold close_hyperlink. destruct (last_hyperlink s.1) as [u|] eqn:E.
  - destruct (hl_link h [] Hok) as ([Hok' Hs] & Hcur & Hp' & Hl'). rewrite decide_True in Hl' by done.
    eexists. split; [split; [cbn; by rewrite played_snoc, <- Hr|done|..]|done].
    + intros st Hst. rewrite Hp'. by apply Hp.
    + done.
    + done.
  - exists h. split_and!; try done. split; try done. by rewrite E.
Qed.

Lemma set_link_synced h0 s h target :
  synced h0 s h -> target <> Some [] ->
  exists h', synced h0 (set_hyperlink s target) h' /\ same_screen h h' /\ h_cursor h' = h_cursor h
    /\ h_link h' = target /\ r_cursor (set_hyperlink s target).1 = r_cursor s.1.
Proof.
  intros Hs Ht. unfold set_hyperlink. case_bool_decide as E.
  - exists h. split_and!; try done. rewrite (sy_link h0 s h Hs). done.
  - destruct (close_synced h0 s h Hs) as (h1 & Hs1 & Hsc & Hc & Hl & _ & Er). destruct target as [u|].
    + destruct Hs1 as [Hr Hok Hp Hl1 Hd].
      destruct (hl_link h1 u Hok) as ([Hok' Hsc'] & Hc' & Hp' & Hl'). rewrite decide_False in Hl' by congruence.
      eexists. split; [split; [cbn; by rewrite played_snoc, <- Hr|done|..]|].
      * intros st Hst. rewrite Hp'. by apply Hp.
      * done.
      * done.
      * split_and!; [by eapply same_screen_trans|congruence|done|done].
    + exists h1. split_and!; done.
Qed.

Lemma set_style_synced h0 s h st :
  synced h0 s h ->
  exists h', synced h0 (set_style s st) h' /\ same_screen h h' /\ h_cursor h' = h_cursor h
    /\ h_link h' = h_link h /\ h_pen h' = rendition_of st /\ r_cursor (set_style s st).1 = r_cursor s.1.
Proof.
  intros [Hr Hok Hp Hl Hd]. unfold set_style. case_bool_decide as E.
  - exists h. split_and!; try done. by apply Hp.
  - destruct (hl_sgr h st Hok) as ([Hok' Hs] & Hc & Hp' & Hl').
    exists (exec h (Sgr (sgr_params false st))).
    split; [split; [cbn; by rewrite played_snoc, <- Hr, Hd|done|..]|by split_and!].
    + intros st' [= <-]. done.
    + by rewrite Hl'.
    + done.
Qed.

(** ** Cells *)

Lemma show_lead g c :
  width c <> 0 ->
  show (look_of g c) = Glyph (display_text g c) (rendition_of (style_at g c)) (hyperlink g (c_hyperlink c)) (width c).
Proof.
  intros Hw. unfold show, display_text. cbn [lk_width lk_text lk_fg lk_bg lk_attrs lk_underline lk_link look_of].
  destruct (N.eqb_spec (width c) 0) as [|_]; [done|]. unfold cell_text_owned, cell_text, is_continuation, style_at.
  destruct (N.eqb_spec (width c) 0) as [|_]; [done|]. destruct (negb _); [done|]. by rewrite ul_char.
Qed.

Lemma link_nonempty g k : wf g -> hyperlink g k <> Some [].
Proof.
  intros Hwf E. unfold hyperlink in E. destruct (negb _); [|done].
  pose proof (ar_uris g (wf_arena g Hwf) k [] E) as Hv. done.
Qed.

(** The host gives the grid's texts the width of their cells. *)
Definition readable g : Prop :=
  forall x y, x < g_width g -> y < g_height g -> width (peek g x y) <> 0 ->
    text_columns (display_text g (peek g x y)) = width (peek g x y).

Lemma emit_cell_synced h0 s h g x y cx cy :
  wf g -> readable g -> synced h0 s h -> h_cursor h = (cx, cy) ->
  x < g_width g -> y < g_height g -> width (peek g x y) <> 0 -> cy < h_height ->
  cx + width (peek g x y) <= h_width ->
  exists h', synced h0 (emit_cell s g (peek g x y)) h'
    /\ h_cursor h' = (cx + width (peek g x y), cy) /\ h_ok h'
    /\ h_cell h' cx cy = shown_at g x y
    /\ (width (peek g x y) = 2 -> h_cell h' (cx + 1) cy = Half)
    /\ (forall x' y', x' < h_width -> y' < h_height -> beside h cx cy (width (peek g x y)) x' y' ->
          h_cell h' x' y' = h_cell h x' y').
Proof.
  intros Hwf Hrd Hs Hcur Hx Hy Hw Hcy Hfit. pose proof (Hrd x y Hx Hy Hw) as Ht.
  assert (1 <= width (peek g x y) <= 2) as Hw12.
  { pose proof (peek_ok g x y (wf_arena g Hwf)) as (_ & _ & _ & ?). lia. }
  unfold shown_at, look_at. rewrite show_lead by done. unfold emit_cell.
  generalize dependent (peek g x y). intros c Hw Hfit Ht Hw12.
  destruct (set_link_synced h0 s h (hyperlink g (c_hyperlink c)) Hs (link_nonempty g _ Hwf))
    as (h1 & Hs1 & Hsc1 & Hc1 & Hl1 & _).
  destruct (set_style_synced h0 _ h1 (style_at g c) Hs1) as (h2 & Hs2 & Hsc2 & Hc2 & Hl2 & Hp2 & _).
  pose proof (same_screen_trans _ _ _ Hsc1 Hsc2) as Hsc. destruct Hs2 as [Hr Hok Hp Hl Hd].
  destruct (hl_text h2 (display_text g c) cx cy Hok) as ([Hok' Hpen Hlink Hrest] & Hcur' & Hcell & Hhalf);
    [congruence|done|by rewrite Ht|by rewrite Ht|]. rewrite Ht in *.
  exists (exec h2 (Text (display_text g c))). split.
  - split; [cbn; by rewrite played_snoc, <- Hr|done|..]; cbn.
    + intros st Hst. rewrite Hpen. by apply Hp.
    + by rewrite Hlink.
    + done.
  - split; [done|]. split; [done|]. split; [by rewrite Hcell, Hp2, Hl2, Hl1|]. split; [done|].
    intros x' y' Hx' Hy' Hb. rewrite Hrest; [by apply Hsc|done|done|].
    unfold beside in *. destruct Hb as [?|[?|[[? Hb]|[?|[? Hb]]]]]; auto.
    + right; right; left. split; [done|]. rewrite Hsc by lia. done.
    + do 4 right. split; [done|]. by rewrite Hsc.
Qed.

(** ** Rows *)

(** No glyph spans from column [x - 1] to column [x] of the host's row [y]. *)
Definition parted h x y : Prop := x < h_width -> shown_width (h_cell h x y) <> 0.

Lemma parted_after h x y n :
  h_ok h -> y < h_height -> 0 < n -> x + n <= h_width ->
  shown_width (h_cell h (x + n - 1) y) <> 2 -> parted h (x + n) y.
Proof.
  intros Hok Hy Hn Hx Hw Hlt E. destruct (hl_paired h y Hok Hy) as [_ Hp].
  destruct (Hp (x + n - 1) ltac:(lia)) as [_ Hb]. apply Hw, Hb; [lia|].
  by replace (x + n - 1 + 1) with (x + n) by lia.
Qed.

(** Columns [a .. b - 1] of the grid's row [y] stand at column [ox + a] of the
    host's row [hy], and nothing else changed. *)
Record painted g h h' (y ox hy a b : N) : Prop := {
  pt_cells : forall x, a <= x < b -> h_cell h' (ox + x) hy = shown_at g x y;
  pt_rest : forall x' y', x' < h_width -> y' < h_height -> (y' = hy -> ~ (ox + a <= x' < ox + b)) ->
    (y' = hy -> x' = ox + b -> parted h x' y') -> h_cell h' x' y' = h_cell h x' y' }.

Lemma cells_loop_synced fuel : forall h0 s h g y ox hy x e,
  wf g -> readable g -> paired (g_width g) (width_at g y) ->
  synced h0 s h -> h_cursor h = (ox + x, hy) -> y < g_height g -> hy < h_height ->
  x <= e -> e <= g_width g -> ox + g_width g <= h_width -> (e - x <= N.of_nat fuel) ->
  (x < e -> width_at g y x <> 0) -> (e < g_width g -> width_at g y e <> 0) -> parted h (ox + x) hy ->
  exists s' h', cells_loop fuel s g y x e = (s', e) /\ synced h0 s' h' /\ h_cursor h' = (ox + e, hy)
    /\ painted g h h' y ox hy x e /\ parted h' (ox + e) hy.
Proof.
  induction fuel as [|fuel IH]; intros h0 s h g y ox hy x e Hwf Hrd Hpair Hs Hcur Hy Hhy Hxe He Hfit Hf Hx Hend Hpart;
    cbn [cells_loop].
  { assert (x = e) as -> by lia. exists s, h. split_and!; try done. split; [lia|done]. }
  destruct (N.ltb_spec x e) as [Hlt|Hge].
  2: { assert (x = e) as -> by lia. exists s, h. split_and!; try done. split; [lia|done]. }
  specialize (Hx Hlt). pose proof (proj2 Hpair x ltac:(lia)) as [Hp1 Hp2]. destruct hl_size as [HW HH].
  unfold is_continuation, display_width, is_continuation. fold (width_at g y x).
  destruct (N.eqb_spec (width_at g y x) 0) as [|_]; [done|].
  assert (1 <= width_at g y x <= 2) as Hw12.
  { pose proof (peek_ok g x y (wf_arena g Hwf)) as (_ & _ & _ & ?). unfold width_at in *. lia. }
  assert (x + width_at g y x <= e) as Hle.
  { destruct (N.eq_dec (width_at g y x) 2) as [E2|]; [|lia]. specialize (Hp1 E2). apply Hp2 in E2; [|done].
    destruct (N.eq_dec (x + 1) e) as [Ee|]; [|lia]. rewrite Ee in *. exfalso. apply Hend; done. }
  destruct (emit_cell_synced h0 s h g x y (ox + x) hy Hwf Hrd Hs Hcur ltac:(lia) Hy Hx Hhy) as
    (h1 & Hs1 & Hcur1 & Hok1 & Hcell & Hhalf & Hrest); [unfold width_at in *; lia|].
  fold (width_at g y x) in *. set (w := width_at g y x) in *.
  rewrite sadd_small by (unfold u16_max, U16 in *; lia). replace (N.max w 1) with w by lia.
  assert (parted h1 (ox + x + w) hy) as Hpart1.
  { apply parted_after; [done|done|lia|lia|]. destruct (N.eq_dec w 1) as [E1|].
    - replace (ox + x + w - 1) with (ox + x) by lia. rewrite Hcell. unfold shown_at, look_at.
      rewrite show_lead by done. cbn. fold (width_at g y x). fold w. lia.
    - replace (ox + x + w - 1) with (ox + x + 1) by lia. rewrite Hhalf by lia. done. }
  destruct (IH h0 (emit_cell s g (peek g x y)) h1 g y ox hy (x + w) e) as (s' & h' & E & Hs' & Hcur' & [Hc Hr] & Hpart'); try done; [|lia|..].
  - by replace (ox + (x + w)) with (ox + x + w) by lia.
  - intros Hlt2. destruct (N.eq_dec w 1) as [E1|].
    + rewrite E1. intros E. apply Hp2 in E; [|lia]. lia.
    + assert (w = 2) as E2 by lia. rewrite E2. pose proof (proj1 (Hp2 ltac:(lia)) E2) as E0.
      destruct (proj2 Hpair (x + 1) ltac:(lia)) as [_ Hp3]. intros E. replace (x + 2) with (x + 1 + 1) in E by lia.
      apply Hp3 in E; [lia|lia].
  - by replace (ox + (x + w)) with (ox + x + w) by lia.
  - exists s', h'. split_and!; try done. split.
    + intros i Hi. destruct (N.lt_ge_cases i (x + w)) as [Hin|]; [|apply Hc; lia].
      assert (h_cell h' (ox + i) hy = h_cell h1 (ox + i) hy) as ->.
      { apply Hr; [lia|done|lia|lia]. }
      destruct (N.eq_dec i x) as [->|]; [done|]. replace i with (x + 1) by lia.
      replace (ox + (x + 1)) with (ox + x + 1) by lia. rewrite Hhalf by lia.
      unfold shown_at, look_at, show. cbn [lk_width look_of]. fold (width_at g y (x + 1)).
      by rewrite (proj1 (Hp2 ltac:(lia))) by lia.
    + intros x' y' Hx' Hy' Hout Hb. rewrite Hr; [|done|done|intros ->; specialize (Hout eq_refl); lia|].
      * apply Hrest; [done|done|]. unfold beside. destruct (N.eq_dec y' hy) as [->|]; [|by left]. right.
        specialize (Hout eq_refl). specialize (Hb eq_refl).
        destruct (N.lt_ge_cases (x' + 1) (ox + x)); [by left|]. right.
        destruct (N.eq_dec (x' + 1) (ox + x)); [left; split; [done|]; by apply Hpart; lia|]. right.
        destruct (N.lt_ge_cases (ox + x + w) x'); [by left|]. right. split; [lia|]. apply Hb; lia.
      * intros -> ->. intros Hlt3. destruct (N.eq_dec (x + w) e) as [E1|].
        -- rewrite <- E1. replace (ox + (x + w)) with (ox + x + w) by lia. apply Hpart1. lia.
        -- rewrite Hrest; [by apply Hb|done|done|]. unfold beside. do 3 right. left. lia.
Qed.

Lemma text_end_loop_spec fuel g y lo e0 :
  lo <= e0 -> let e := text_end_loop fuel g y lo e0 in
  lo <= e <= e0 /\ forall x, e <= x < e0 -> peek g x y = default_cell.
Proof.
  revert e0. induction fuel as [|fuel IH]; intros e0 Hlo; cbn [text_end_loop]; [split; [lia|intros; lia]|].
  destruct (N.ltb_spec lo e0); cbn [andb]; [|split; [lia|intros; lia]].
  case_bool_decide as E; [|split; [lia|intros; lia]].
  destruct (IH (e0 - 1) ltac:(lia)) as [L1 L2]. split; [lia|]. intros x Hx.
  destruct (N.eq_dec x (e0 - 1)) as [->|]; [done|]. apply L2. lia.
Qed.

Lemma text_end_spec g y lo hi :
  lo <= hi -> hi + 1 < U16 -> let e := text_end g y lo hi in
  lo <= e <= hi + 1 /\ forall x, e <= x <= hi -> peek g x y = default_cell.
Proof.
  intros Hlo Hhi. unfold text_end. rewrite wadd_small by done.
  destruct (text_end_loop_spec (N.to_nat (hi + 1 - lo)) g y lo (hi + 1) ltac:(lia)) as [L1 L2].
  destruct (_ <? 8); [split; [lia|intros; lia]|]. split; [lia|]. intros x Hx. apply L2. lia.
Qed.

Lemma shown_default g x y : peek g x y = default_cell -> wf g -> shown_at g x y = blank_shown.
Proof.
  intros E Hwf. unfold shown_at, look_at. rewrite E, show_lead by done. unfold display_text. cbn.
  destruct (N.ltb_spec 1 (default 0 (char_width SPACE))) as [Hs|_]; [pose proof ul_space; lia|].
  unfold style_at. cbn. unfold underline_color. cbn. pose proof (ar_colors g (wf_arena g Hwf)) as Hc.
  by destruct (underline_colors g) as [|c0 l]; [done|]; injection Hc as ->.
Qed.

(** A range of columns that cuts no glyph. *)
Record clean_range g y lo hi : Prop := {
  cr_range : lo <= hi < g_width g;
  cr_left : width_at g y lo <> 0;
  cr_right : hi + 1 < g_width g -> width_at g y (hi + 1) <> 0 }.

(** The rest of the row is erased. *)
Lemma erase_tail_synced h0 s h n x y :
  synced h0 s h -> at_cursor s h -> h_cursor h = (x, y) -> y < h_height -> 0 < n -> x + n <= h_width ->
  let s' := emit (set_style (close_hyperlink s) default_style) (Ech n) in
  exists h', synced h0 s' h' /\ at_cursor s' h' /\ h_cursor h' = (x, y)
    /\ (forall i, x <= i < x + n -> h_cell h' i y = blank_shown)
    /\ (forall x' y', x' < h_width -> y' < h_height -> beside h x y n x' y' -> h_cell h' x' y' = h_cell h x' y').
Proof.
  intros Hs Hat Hcur Hy Hn Hfit s'.
  destruct (close_synced h0 s h Hs) as (h1 & Hs1 & Hsc1 & Hc1 & Hl1 & _ & Er1).
  destruct (set_style_synced h0 _ h1 default_style Hs1) as (h2 & Hs2 & Hsc2 & Hc2 & Hl2 & Hp2 & Er2).
  pose proof (same_screen_trans _ _ _ Hsc1 Hsc2) as Hsc. destruct Hs2 as [Hr Hok Hp Hl Hd].
  destruct (hl_ech h2 n x y Hok) as ([Hok' Hpen Hlink Hrest] & Hcur' & Hcell); [congruence|done|done|done|done|congruence|].
  exists (exec h2 (Ech n)). split; [|split; [|split; [done|split; [done|]]]].
  - split; [cbn; by rewrite played_snoc, <- Hr|done|..]; cbn.
    + intros st Hst. rewrite Hpen. by apply Hp.
    + by rewrite Hlink.
    + done.
  - intros c Hc. cbn in Hc. rewrite Er2, Er1 in Hc. rewrite Hcur', <- Hcur. by apply Hat.
  - intros x' y' Hx' Hy' Hb. rewrite Hrest; [by apply Hsc|done|done|].
    unfold beside in *. destruct Hb as [?|[?|[[? Hb]|[?|[? Hb]]]]]; auto.
    + right; right; left. split; [done|]. rewrite Hsc by lia. done.
    + do 4 right. split; [done|]. by rewrite Hsc.
Qed.

Lemma render_row_synced h0 s h g y lo hi ox oy :
  wf g -> readable g -> wide_ok g -> synced h0 s h -> at_cursor s h ->
  y < g_height g -> oy + y < h_height -> ox + g_width g <= h_width ->
  clean_range g y lo hi -> parted h (ox + lo) (oy + y) -> parted h (ox + (hi + 1)) (oy + y) ->
  exists h', synced h0 (render_row s g y lo hi ox oy) h' /\ at_cursor (render_row s g y lo hi ox oy) h'
    /\ painted g h h' y ox (oy + y) lo (hi + 1).
Proof.
  intros Hwf Hrd Hwide Hs Hat Hy Hhy Hfit [Hr Hleft Hright] Hpl Hpr. destruct hl_size as [HW HH].
  unfold render_row. rewrite !(wadd_small U16 ox lo), !(wadd_small U16 oy y), (wadd_small U16 hi 1) by lia.
  destruct (text_end_spec g y lo hi ltac:(lia) ltac:(lia)) as [He Hblank]. set (e := text_end g y lo hi) in *.
  destruct (move_cursor_synced h0 s h (ox + lo) (oy + y) Hs Hat) as (h1 & Hs1 & Hat1 & Hsc & Hcur); [lia|done|].
  assert (forall x, parted h x (oy + y) -> parted h1 x (oy + y)) as Hpt.
  { intros x Hp Hx. rewrite Hsc by done. by apply Hp. }
  assert (e < g_width g -> width_at g y e <> 0) as Hend.
  { intros Hew. destruct (N.eq_dec e (hi + 1)) as [->|]; [by apply Hright|].
    unfold width_at. rewrite Hblank by lia. done. }
  destruct (cells_loop_synced (N.to_nat (e - lo)) h0 _ h1 g y ox (oy + y) lo e Hwf Hrd (Hwide y Hy) Hs1 Hcur)
    as (s' & h2 & -> & Hs2 & Hcur2 & [Hc2 Hr2] & Hp2); [done|done|lia|lia|done|lia|done|done|by apply Hpt|].
  rewrite (wadd_small U16 ox e) by lia.
  set (s2 := (with_cursor s'.1 (Some (ox + e, oy + y)), s'.2)).
  assert (synced h0 s2 h2) as Hs2' by (destruct Hs2; by split).
  assert (at_cursor s2 h2) as Hat2 by (intros c [= <-]; done).
  destruct (N.leb_spec e hi) as [Hle|Hgt].
  - destruct (erase_tail_synced h0 s2 h2 (hi + 1 - e) (ox + e) (oy + y) Hs2' Hat2 Hcur2) as
      (h3 & Hs3 & Hat3 & _ & Hc3 & Hr3); [done|lia|lia|].
    exists h3. split; [done|]. split; [done|]. split.
    + intros x Hx. destruct (N.lt_ge_cases x e) as [Hlt|Hge].
      * rewrite Hr3; [apply Hc2; lia|lia|done|]. unfold beside. right.
        destruct (N.eq_dec (x + 1) e) as [Ee|]; [right; left|left; lia]. split; [lia|]. apply Hp2. lia.
      * rewrite Hc3 by lia. symmetry. apply shown_default; [apply Hblank; lia|done].
    + intros x' y' Hx' Hy' Hout Hb. rewrite Hr3; [|done|done|].
      * rewrite Hr2; [by apply Hsc|done|done|intros ->; specialize (Hout eq_refl); lia|].
        intros -> ->. specialize (Hout eq_refl). lia.
      * unfold beside. destruct (N.eq_dec y' (oy + y)) as [->|]; [right|by left]. specialize (Hout eq_refl).
        destruct (N.lt_ge_cases (x' + 1) (ox + e)); [by left|]. right.
        destruct (N.eq_dec (x' + 1) (ox + e)); [left; split; [done|apply Hp2; lia]|]. right.
        destruct (N.lt_ge_cases (ox + e + (hi + 1 - e)) x'); [by left|]. right. split; [lia|].
        rewrite Hr2; [rewrite Hsc by done; by apply Hb; [|lia|]|done|done|lia|].
        intros _ ->. lia.
  - assert (e = hi + 1) as Ee by lia. exists h2. split; [done|]. split; [done|]. split.
    + intros x Hx. apply Hc2. lia.
    + intros x' y' Hx' Hy' Hout Hb. rewrite Hr2; [by apply Hsc|done|done|by rewrite Ee|].
      intros -> E. apply Hpt, Hb; [done|]. by rewrite <- Ee.
Qed.

(** ** Panes *)

(** The grid stands on the host's screen with its first cell at [(ox, oy)]. *)
Definition placed g ox oy : Prop := ox + g_width g <= h_width /\ oy + g_height g <= h_height.

(** No glyph of the host crosses the pane's left or right edge. *)
Definition borders g ox oy h : Prop :=
  forall y, y < g_height g -> parted h ox (oy + y) /\ parted h (ox + g_width g) (oy + y).

Definition row_shown g ox oy h y : Prop := forall x, x < g_width g -> h_cell h (ox + x) (oy + y) = shown_at g x y.
Definition pane_shows g ox oy h : Prop := forall y, y < g_height g -> row_shown g ox oy h y.

(** Only rows [a .. b - 1] of the pane differ. *)
Definition only_rows g ox oy (a b : N) h h' : Prop :=
  forall x y, x < h_width -> y < h_height ->
    ~ (ox <= x < ox + g_width g /\ oy + a <= y < oy + b) -> h_cell h' x y = h_cell h x y.

Lemma shown_width_at g x y : shown_width (shown_at g x y) = width_at g y x.
Proof.
  unfold shown_at, look_at, show, width_at. cbn. by destruct (N.eqb_spec (width (peek g x y)) 0) as [->|].
Qed.

Lemma shown_paired g y : y < g_height g -> wide_ok g ->
  (0 < g_width g -> shown_width (shown_at g 0 y) <> 0).
Proof. intros Hy Hw Hg. rewrite shown_width_at. by apply (Hw y Hy). Qed.

(** A row whose painting does nothing beyond it. *)
Definition paints_row g ox oy (keep : N -> N -> Prop) (f : drawing -> N -> drawing) : Prop :=
  forall h0 s h y, y < g_height g -> synced h0 s h -> at_cursor s h -> borders g ox oy h ->
    (forall x, x < g_width g -> keep x y -> h_cell h (ox + x) (oy + y) = shown_at g x y) ->
    exists h', synced h0 (f s y) h' /\ at_cursor (f s y) h' /\ row_shown g ox oy h' y
      /\ only_rows g ox oy y (y + 1) h h'.

Lemma borders_kept g ox oy h h' y :
  wide_ok g -> placed g ox oy -> y < g_height g -> borders g ox oy h -> row_shown g ox oy h' y ->
  only_rows g ox oy y (y + 1) h h' -> borders g ox oy h'.
Proof.
  intros Hw [Px Py] Hy Hb Hr Ho y' Hy'. destruct (Hb y' Hy') as [Hl Hrt]. split.
  - intros Hox. destruct (N.eq_dec (g_width g) 0) as [E0|].
    { rewrite Ho; [by apply Hl|done|lia|lia]. }
    destruct (N.eq_dec y' y) as [->|].
    + rewrite <- (N.add_0_r ox), Hr by lia. apply shown_paired; [done|done|lia].
    + rewrite Ho; [by apply Hl|done|lia|lia].
  - intros Hox. rewrite Ho; [by apply Hrt|done|lia|lia].
Qed.

Lemma rows_synced g ox oy keep f n : forall h0 s h k,
  wide_ok g -> placed g ox oy -> paints_row g ox oy keep f ->
  k + N.of_nat n = g_height g -> synced h0 s h -> at_cursor s h -> borders g ox oy h ->
  (forall x y, x < g_width g -> k <= y < g_height g -> keep x y -> h_cell h (ox + x) (oy + y) = shown_at g x y) ->
  let s' := foldl f s (range k (g_height g)) in
  exists h', synced h0 s' h' /\ at_cursor s' h' /\ borders g ox oy h'
    /\ (forall y, k <= y < g_height g -> row_shown g ox oy h' y) /\ only_rows g ox oy k (g_height g) h h'.
Proof.
  induction n as [|n IH]; intros h0 s h k Hw Hpl Hf Hn Hs Hat Hb Hk; cbv zeta.
  - assert (range k (g_height g) = []) as ->.
    { unfold range. by replace (N.to_nat (g_height g - k)) with 0%nat by lia. }
    exists h. split_and!; [done|done|done|intros; lia|by intros ????].
  - rewrite range_step by lia. cbn [foldl].
    destruct (Hf h0 s h k ltac:(lia) Hs Hat Hb) as (h1 & Hs1 & Hat1 & Hr1 & Ho1).
    { intros x Hx Hkp. apply Hk; [done|lia|done]. }
    pose proof (borders_kept g ox oy h h1 k Hw Hpl ltac:(lia) Hb Hr1 Ho1) as Hb1. destruct Hpl as [Px Py].
    destruct (IH h0 (f s k) h1 (k + 1)) as (h' & Hs' & Hat' & Hb' & Hr' & Ho'); try done; [lia| |].
    { intros x y Hx Hy Hkp. rewrite Ho1; [apply Hk; [done|lia|done]|lia|lia|lia]. }
    exists h'. split_and!; try done.
    + intros y Hy x Hx. destruct (N.eq_dec y k) as [->|]; [|apply Hr'; [lia|done]].
      rewrite Ho'; [by apply Hr1|lia|lia|lia].
    + intros x y Hx Hy Hout. rewrite Ho'; [apply Ho1; [done|done|lia]|done|done|lia].
Qed.

(** *** The two painters of a row *)

Lemma painted_row g ox oy h h' y lo hi :
  placed g ox oy -> y < g_height g -> hi < g_width g -> painted g h h' y ox (oy + y) lo (hi + 1) ->
  parted h (ox + (hi + 1)) (oy + y) -> only_rows g ox oy y (y + 1) h h'.
Proof.
  intros [Px Py] Hy Hhi [Hc Hr] Hp x' y' Hx' Hy' Hout. apply Hr; [done|done| |].
  - intros -> Hin. apply Hout. lia.
  - intros -> ->. exact Hp.
Qed.

Lemma full_row_paints g ox oy keep :
  wf g -> readable g -> wide_ok g -> placed g ox oy -> paints_row g ox oy keep (full_row_at g ox oy).
Proof.
  intros Hwf Hrd Hw Hpl h0 s h y Hy Hs Hat Hb _. unfold full_row_at.
  destruct (N.eqb_spec (g_width g) 0) as [E|Hne].
  { exists h. split_and!; try done. intros x Hx. lia. }
  destruct (Hb y Hy) as [Hl Hr]. pose proof Hpl as [Px Py].
  assert (clean_range g y 0 (g_width g - 1)) as Hcr by (split; [lia|apply (Hw y Hy); lia|lia]).
  assert (parted h (ox + (g_width g - 1 + 1)) (oy + y)) as Hr' by by replace (g_width g - 1 + 1) with (g_width g) by lia.
  destruct (render_row_synced h0 s h g y 0 (g_width g - 1) ox oy) as (h' & Hs' & Hat' & Hp'); try done; [lia| |].
  { by rewrite N.add_0_r. }
  exists h'. split_and!; try done.
  - intros x Hx. apply Hp'. lia.
  - eapply painted_row; try done. lia.
Qed.

Lemma expanded_clean g y lo hi :
  y < g_height g -> g_width g < U16 -> wide_ok g -> lo <= hi < g_width g ->
  let '(lo', hi') := expanded_damage g y lo hi in clean_range g y lo' hi' /\ lo' <= lo /\ hi <= hi'.
Proof.
  intros Hy HW Hw Hr. unfold expanded_damage, is_continuation. fold (width_at g y lo). fold (width_at g y hi).
  rewrite wadd_small by lia. destruct (Hw y Hy) as [P0 P].
  assert (hi + 1 < g_width g -> hi + 1 + 1 < g_width g -> width_at g y hi = 2 -> width_at g y (hi + 1 + 1) <> 0) as Hright2.
  { intros L1 L2 E. pose proof (proj1 (proj2 (P hi ltac:(lia)) L1) E) as E0. intros E1.
    apply (proj2 (P (hi + 1) ltac:(lia)) L2) in E1. lia. }
  assert (hi + 1 < g_width g -> width_at g y hi <> 2 -> width_at g y (hi + 1) <> 0) as Hright1.
  { intros L1 E E0. apply E. by apply (proj2 (P hi ltac:(lia)) L1). }
  assert (width_at g y hi = 2 -> hi + 1 < g_width g) as Hfit by (intros E; by apply (P hi ltac:(lia))).
  set (lo' := if _ && _ then lo - 1 else lo). set (hi' := if _ && _ && _ then hi + 1 else hi).
  assert (width_at g y lo' <> 0 /\ lo' <= lo) as [Hl Hll].
  { subst lo'. destruct (N.eqb_spec (width_at g y lo) 0) as [E|]; cbn [andb]; [|split; [done|lia]].
    destruct (N.ltb_spec 0 lo); [|assert (lo = 0) as El by lia; rewrite El in E; by specialize (P0 ltac:(lia))].
    split; [|lia]. intros E1. pose proof (proj2 (proj2 (P (lo - 1) ltac:(lia)) ltac:(lia))) as E2.
    replace (lo - 1 + 1) with lo in E2 by lia. specialize (E2 E). lia. }
  split; [split; [|done|]|split; [done|]]; subst hi';
    destruct (N.eqb_spec (width_at g y hi) 0), (N.eqb_spec (width_at g y hi) 2), (N.ltb_spec (hi + 1) (g_width g));
    cbn [negb andb]; try lia; auto.
  all: try (intros; apply Hright1; lia).
Qed.

Lemma damage_row_paints g ox oy :
  wf g -> readable g -> wide_ok g -> placed g ox oy ->
  paints_row g ox oy (fun x y => ~ damaged g x y) (damage_row g ox oy).
Proof.
  intros Hwf Hrd Hw Hpl h0 s h y Hy Hs Hat Hb Hk. unfold damage_row. pose proof Hpl as [Px Py].
  destruct hl_size as [HW HH]. unfold damaged in Hk.
  destruct (row_damage g y) as [[lo hi]|] eqn:Ed.
  2: { exists h. split_and!; try done. intros x Hx. by apply Hk; [|auto]. }
  assert (lo <= hi < g_width g) as Hr.
  { unfold row_damage in Ed. apply bind_Some in Ed as (r & Hr & Ed). destruct (dirty r) eqn:E; [|done].
    injection Ed as <- <-. pose proof (dm_range g (wf_damage g Hwf)) as Hf. rewrite Forall_lookup in Hf. by eapply Hf. }
  pose proof (expanded_clean g y lo hi Hy ltac:(lia) Hw Hr) as He.
  destruct (expanded_damage g y lo hi) as [lo' hi']. destruct He as (Hcr & Hlo & Hhi).
  pose proof Hcr as [Cr Cl Crt]. destruct (Hb y Hy) as [Hbl Hbr].
  assert (parted h (ox + lo') (oy + y)) as Hpl1.
  { destruct (N.eq_dec lo' 0) as [->|]; [by rewrite N.add_0_r|]. intros _ E.
    destruct (hl_paired h (oy + y) (sy_ok h0 s h Hs) ltac:(lia)) as [_ P].
    destruct (P (ox + lo' - 1) ltac:(lia)) as [_ P2].
    assert (shown_width (h_cell h (ox + lo' - 1) (oy + y)) = 2) as E2.
    { apply P2; [lia|]. by replace (ox + lo' - 1 + 1) with (ox + lo') by lia. }
    replace (ox + lo' - 1) with (ox + (lo' - 1)) in E2 by lia. rewrite Hk, shown_width_at in E2 by lia.
    apply Cl. destruct (Hw y Hy) as [_ Pg]. destruct (Pg (lo' - 1) ltac:(lia)) as [_ Pg2].
    replace lo' with (lo' - 1 + 1) at 1 by lia. apply Pg2; [lia|done]. }
  assert (parted h (ox + (hi' + 1)) (oy + y)) as Hpr1.
  { destruct (N.eq_dec (hi' + 1) (g_width g)) as [->|]; [done|]. intros _.
    rewrite Hk, shown_width_at by lia. apply Crt. lia. }
  destruct (render_row_synced h0 s h g y lo' hi' ox oy) as (h' & Hs' & Hat' & Hp'); try done; [lia|].
  exists h'. split_and!; try done.
  - intros x Hx. destruct (decide (lo' <= x < hi' + 1)) as [Hin|Hout]; [by apply Hp'|].
    destruct Hp' as [_ Hrest]. rewrite Hrest; [apply Hk; [done|lia]|lia|lia|lia|].
    intros _ E. by rewrite E.
  - eapply painted_row; try done. lia.
Qed.

(** *** Whole panes *)

(** The cache says what the host was told. *)
Definition in_step (r : Renderer) h : Prop := synced h (r, []) h /\ at_cursor (r, []) h.

Lemma in_step_synced h0 s h : synced h0 s h -> at_cursor s h -> in_step s.1 h.
Proof. intros [Hr Hok Hp Hl Hd] Hat. split; [by split|exact Hat]. Qed.

(** What painting a pane achieves: the pane shows the grid, the rest of the
    screen is as before, and the next painting can follow. *)
Record repainted g ox oy h (s : drawing) : Prop := {
  rp_step : in_step s.1 (run h s.2);
  rp_pane : pane_shows g ox oy (run h s.2);
  rp_borders : borders g ox oy (run h s.2);
  rp_rest : forall x y, x < h_width -> y < h_height ->
    ~ (ox <= x < ox + g_width g /\ oy <= y < oy + g_height g) -> h_cell (run h s.2) x y = h_cell h x y }.

Lemma rows_repainted g ox oy keep f h0 s h :
  wide_ok g -> placed g ox oy -> paints_row g ox oy keep f ->
  synced h0 s h -> at_cursor s h -> borders g ox oy h ->
  (forall x y, x < g_width g -> y < g_height g -> keep x y -> h_cell h (ox + x) (oy + y) = shown_at g x y) ->
  let s' := close_hyperlink (foldl f s (range 0 (g_height g))) in
  exists h', synced h0 s' h' /\ at_cursor s' h' /\ pane_shows g ox oy h' /\ borders g ox oy h'
    /\ forall x y, x < h_width -> y < h_height ->
         ~ (ox <= x < ox + g_width g /\ oy <= y < oy + g_height g) -> h_cell h' x y = h_cell h x y.
Proof.
  intros Hw Hpl Hf Hs Hat Hb Hk. cbv zeta. pose proof Hpl as [Px Py].
  destruct (rows_synced g ox oy keep f (N.to_nat (g_height g)) h0 s h 0 Hw Hpl Hf ltac:(lia) Hs Hat Hb)
    as (h1 & Hs1 & Hat1 & Hb1 & Hr1 & Ho1).
  { intros x y Hx Hy. apply Hk; [done|lia]. }
  destruct (close_synced h0 _ h1 Hs1) as (h2 & Hs2 & Hsc & Hc & _ & _ & Er).
  exists h2. split; [done|]. split; [intros c Hcc; rewrite Er in Hcc; rewrite Hc; by apply Hat1|]. split_and!.
  - intros y Hy x Hx. rewrite Hsc by lia. apply Hr1; [lia|done].
  - intros y Hy. destruct (Hb1 y Hy) as [Hl Hrt]. split; intros Hlt; (rewrite Hsc; [auto|done|lia]).
  - intros x y Hx Hy Hout. rewrite Hsc by done. apply Ho1; [done|done|]. by rewrite N.add_0_r.
Qed.

Lemma rows_repainted_from g ox oy keep f r h :
  wide_ok g -> placed g ox oy -> paints_row g ox oy keep f -> in_step r h -> borders g ox oy h ->
  (forall x y, x < g_width g -> y < g_height g -> keep x y -> h_cell h (ox + x) (oy + y) = shown_at g x y) ->
  repainted g ox oy h (close_hyperlink (foldl f (r, []) (range 0 (g_height g)))).
Proof.
  intros Hw Hpl Hf [Hs Hat] Hb Hk.
  destruct (rows_repainted g ox oy keep f h (r, []) h Hw Hpl Hf Hs Hat Hb Hk) as (h' & Hs' & Hat' & Hp & Hb' & Hr).
  pose proof (sy_run _ _ _ Hs') as E. split; rewrite <- E; try done. by eapply in_step_synced.
Qed.

Lemma full_repainted g ox oy r h :
  wf g -> readable g -> wide_ok g -> placed g ox oy -> in_step r h -> borders g ox oy h ->
  repainted g ox oy h (render_pane_full (r, []) g ox oy).
Proof.
  intros Hwf Hrd Hw Hpl Hst Hb.
  apply (rows_repainted_from g ox oy (fun _ _ => False)); [done|done|by apply full_row_paints|done|done|done].
Qed.

Lemma precise_repainted g ox oy r h :
  wf g -> readable g -> wide_ok g -> placed g ox oy -> in_step r h -> borders g ox oy h ->
  (forall x y, x < g_width g -> y < g_height g -> ~ damaged g x y -> h_cell h (ox + x) (oy + y) = shown_at g x y) ->
  repainted g ox oy h (render_pane_damage_precise (r, []) g ox oy).
Proof.
  intros Hwf Hrd Hw Hpl Hst Hb Hk.
  apply (rows_repainted_from g ox oy (fun x y => ~ damaged g x y)); [done|done|by apply damage_row_paints|done|done|done].
Qed.

(** The host shows the looks [old] in the pane. *)
Definition shows_looks (old : N -> N -> look) g ox oy h : Prop :=
  forall x y, x < g_width g -> y < g_height g -> h_cell h (ox + x) (oy + y) = show (old x y).

Lemma clean_undamaged g x y : wf g -> is_dirty g = false -> ~ damaged g x y.
Proof.
  intros Hwf Hd. unfold is_dirty in Hd. rewrite (dm_any g (wf_damage g Hwf)) in Hd.
  rewrite existsb_forall_false in Hd. unfold damaged, row_damage.
  destruct (damage g !! N.to_nat y) as [r|] eqn:E; [|exact id]. cbn [mbind option_bind].
  rewrite Forall_lookup in Hd. rewrite (Hd _ _ E). exact id.
Qed.

(** Painting the damage of a grid over what was painted before its changes. *)
Lemma damage_repainted old g ox oy r h :
  wf g -> readable g -> wide_ok g -> placed g ox oy -> in_step r h -> borders g ox oy h ->
  shows_looks old g ox oy h -> repaints old g ->
  repainted g ox oy h (render_pane_damage (r, []) g ox oy).
Proof.
  intros Hwf Hrd Hw Hpl Hst Hb Hold Hrp. unfold render_pane_damage.
  assert (pending_scroll_up g = 0 -> forall x y, x < g_width g -> y < g_height g -> ~ damaged g x y ->
    h_cell h (ox + x) (oy + y) = shown_at g x y) as Hk.
  { intros E0 x y Hx Hy Hnd. rewrite Hold by done. unfold shown_at.
    destruct (Hrp x y Hx Hy Hnd) as [_ ->]. by rewrite E0, N.add_0_r. }
  destruct (is_dirty g) eqn:Ed; cbn [negb].
  - destruct (N.eqb_spec (pending_scroll_up g) 0) as [E0|]; cbn [negb]; [|by apply full_repainted].
    apply precise_repainted; try done. by apply Hk.
  - split; cbn [fst snd run foldl]; try done.
    intros y Hy x Hx. apply Hk; [|done|done|by apply clean_undamaged].
    destruct (Hrp x (g_height g - 1) Hx ltac:(lia) (clean_undamaged g _ _ Hwf Ed)) as [Hp _]. lia.
Qed.

(** With the margins of the terminal: a pane of the host's full width and of two
    rows at least moves up first. *)
Lemma scroll_repainted old g oy r h :
  wf g -> readable g -> wide_ok g -> placed g 0 oy -> g_width g = h_width -> 2 <= g_height g ->
  in_step r h -> shows_looks old g 0 oy h -> repaints old g ->
  repainted g 0 oy h (render_pane_damage_with_scroll (r, []) g 0 oy).
Proof.
  intros Hwf Hrd Hw Hpl Ewid Hh [Hs Hat] Hold Hrp. pose proof Hpl as [Px Py]. destruct hl_size as [HW HH].
  assert (forall h', h_ok h' -> borders g 0 oy h') as Hbord.
  { intros h' Hok y Hy. split; [|intros Hlt; lia]. intros Hpos. by apply (hl_paired h' (oy + y) Hok ltac:(lia)). }
  pose proof Hs as [_ Hok _ _ _]. specialize (Hbord h Hok) as Hb. unfold render_pane_damage_with_scroll.
  destruct (is_dirty g) eqn:Ed; cbn [negb].
  2: { pose proof (damage_repainted old g 0 oy r h Hwf Hrd Hw Hpl (conj Hs Hat) Hb Hold Hrp) as Hres.
       unfold render_pane_damage in Hres. by rewrite Ed in Hres. }
  destruct (N.eqb_spec (pending_scroll_up g) 0) as [E0|Hne]; cbn [negb].
  { pose proof (damage_repainted old g 0 oy r h Hwf Hrd Hw Hpl (conj Hs Hat) Hb Hold Hrp) as Hres.
    unfold render_pane_damage in Hres. by rewrite Ed, E0 in Hres. }
  unfold scroll_pane. destruct (close_synced h (r, []) h Hs) as (h1 & Hs1 & Hsc & _ & Hl1 & Hp1 & _).
  destruct Hs1 as [Hr1 Hok1 Hpen1 Hlink1 Hd1]. rewrite !wadd_small by lia.
  destruct (hl_scroll h1 (oy + 1) (oy + g_height g) (pending_scroll_up g) Hok1) as (Hok2 & Hp2 & Hl2 & Hc2); [lia|lia|lia|].
  set (h2 := exec (exec (exec h1 _) _) _) in *. set (s2 := (with_cursor _ None, _)).
  assert (synced h s2 h2) as Hs2.
  { split; [|done|intros st Hst; rewrite Hp2; by apply Hpen1|by rewrite Hl2|done].
    cbn. by rewrite !played_snoc, <- Hr1. }
  assert (at_cursor s2 h2) as Hat2 by by intros c Hc.
  assert (forall x y, x < h_width -> y < h_height -> ~ (0 <= x < 0 + g_width g /\ oy <= y < oy + g_height g) ->
    h_cell h2 x y = h_cell h x y) as Hrest2.
  { intros x y Hx Hy Hout. rewrite <- Hsc by done. apply Hc2; [done|done|lia]. }
  assert (forall x y, x < g_width g -> y < g_height g -> ~ damaged g x y ->
    h_cell h2 (0 + x) (oy + y) = shown_at g x y) as Hk.
  { intros x y Hx Hy Hnd. destruct (Hrp x y Hx Hy Hnd) as [Hp Hl]. unfold shown_at. rewrite Hl.
    rewrite <- Hold by (done || lia). rewrite (proj2 (Hc2 (0 + x) (oy + y) ltac:(lia) ltac:(lia))) by lia.
    rewrite Hsc by lia. f_equal. lia. }
  destruct (rows_repainted g 0 oy (fun x y => ~ damaged g x y) (damage_row g 0 oy) h s2 h2 Hw Hpl)
    as (h' & Hs' & Hat' & Hp' & Hb' & Hr'); [by apply damage_row_paints|done|done|by apply Hbord|done|].
  pose proof (sy_run _ _ _ Hs') as E. fold (render_pane_damage_precise s2 g 0 oy) in E, Hs', Hat'.
  split; rewrite <- E; try done; [by eapply in_step_synced|].
  intros x y Hx Hy Hout. rewrite Hr' by done. by apply Hrest2.
Qed.

(** ** From one painting to the next *)

Lemma shown_clear g x y : shown_at (clear_damage g) x y = shown_at g x y.
Proof. unfold shown_at, look_at, clear_damage. by destruct (any_damage g). Qed.

(** C2: painting the damage shows the grid. Take a host that shows a grid as it
    was painted when its damage was last cleared, and a renderer whose cache is
    in step with that host. Operations then change the grid: any that the emulator
    uses ([op_whole]), with the sole exception that no scroll of a part of the
    screen comes while a whole-screen scroll is pending ([scrolls_settled];
    [Damage.region_scroll_stale] is a stale row without it). If the grid has the
    size it had and the host gives its texts the width of their cells
    ([readable]), the bytes that [render_pane_damage] writes make the host show
    exactly the new grid in the pane, leave every other cell of the host's screen
    alone, cut no glyph at the pane's edges and leave the cache in step, so that
    this can go on as long as these conditions hold. On a pane of the host's full
    width and at least two rows ([one_row_scroll] shows what happens on one) the
    same holds for [render_pane_damage_with_scroll], which lets the host scroll. *)
Theorem painting_shows_grid g os r h ox oy :
  sound g -> wide_ok g ->
  ops_ok (clear_damage g) os -> scrolls_settled (clear_damage g) os -> Forall op_whole os ->
  let g' := run_ops (clear_damage g) os in
  g_width g' = g_width g -> g_height g' = g_height g -> readable g' -> placed g' ox oy ->
  in_step r h -> borders g' ox oy h -> pane_shows g ox oy h ->
  repainted g' ox oy h (render_pane_damage (r, []) g' ox oy)
  /\ (ox = 0 -> g_width g = h_width -> 2 <= g_height g ->
      repainted g' 0 oy h (render_pane_damage_with_scroll (r, []) g' 0 oy)).
Proof.
  intros Hg Hw Hok Hset Hwhole g' Ew Eh Hrd Hpl Hst Hb Hshow.
  pose proof (sd_sound _ _ (clear_damage_steady g Hg)) as Hg1.
  destruct (run_ops_wide os _ Hg1 (clear_damage_wide g Hw) Hok Hwhole) as [Hs' Hw']. fold g' in Hs', Hw'.
  pose proof (repaints_run (look_at g) os _ Hg1 Hok Hset (repaints_clear g (so_wf g Hg))) as Hr. fold g' in Hr.
  pose proof (so_wf g' Hs') as Hwf'.
  assert (shows_looks (look_at g) g' ox oy h) as Hold.
  { intros x y Hx Hy. apply Hshow; lia. }
  split; [by apply (damage_repainted (look_at g))|]. intros -> Ewid Hh.
  apply (scroll_repainted (look_at g)); try done; congruence || lia.
Qed.

(** The baseline of an attaching client: after the screen is cleared, a full
    painting shows the grid. *)
Lemma attach_baseline g r h :
  wf g -> readable g -> wide_ok g -> placed g 0 0 -> h_ok h -> h_link h = None -> r_dim r = false ->
  let s := render_full (r, []) g in
  in_step s.1 (run h s.2) /\ pane_shows g 0 0 (run h s.2) /\ borders g 0 0 (run h s.2).
Proof.
  intros Hwf Hrd Hw Hpl Hok Hl Hd. cbv zeta. unfold render_full, render_pane_full.
  destruct (hl_clear h Hok) as (Hok' & _ & Hl' & Hc). set (s0 := emit _ Ed2).
  assert (synced h s0 (exec h Ed2)) as Hs0 by (split; [done|done|done|by rewrite Hl', Hl|done]).
  assert (at_cursor s0 (exec h Ed2)) as Hat0 by by intros c Hcc.
  assert (borders g 0 0 (exec h Ed2)) as Hb.
  { intros y Hy. destruct Hpl as [Px Py]. split; intros Hlt; rewrite Hc by lia; done. }
  destruct (rows_repainted g 0 0 (fun _ _ => False) (full_row_at g 0 0) h s0 (exec h Ed2) Hw Hpl)
    as (h' & Hs' & Hat' & Hp' & Hb' & _); [by apply full_row_paints|done|done|done|done|].
  pose proof (sy_run _ _ _ Hs') as E. rewrite <- E. split; [by eapply in_step_synced|done].
Qed.
End Paint.

(** ** A host to paint on *)

#[local] Existing Instance sample_unicode.

#[local] Instance sample_unicode_laws : UnicodeLaws.
Proof.
  split; [|vm_compute; done]. intros c. change (text_width [c]) with (default 0 (sample_width c) + 0). by rewrite N.add_0_r.
Qed.

(** A screen of eight columns and four rows. *)
#[local] Instance sample_host : Host := plain_host 8 4 text_width.
#[local] Instance sample_host_laws : HostLaws := plain_laws 8 4 text_width eq_refl eq_refl.

Definition blank_plain : plain := {|
  p_cell := fun _ _ => blank_shown; p_cursor := (0, 0); p_pen := rendition_of default_style; p_link := None;
  p_margins := (1, 4) |}.

Definition painted_ops : list grid_op := [OGrapheme 1 1 [4352] default_cell 2; OScrollUp default_cell].

(** A pane of four columns and two rows at column 2 and row 1, on which a wide
    glyph is drawn and scrolled. *)
Lemma painting_shows_grid_witness :
  let g := Grid.new 4 2 in
  sound g /\ pane_shows g 2 1 blank_plain
  /\ repainted (run_ops (clear_damage g) painted_ops) 2 1 blank_plain
       (render_pane_damage (Renderer.new, []) (run_ops (clear_damage g) painted_ops) 2 1).
Proof.
  cbv zeta. assert (sound (Grid.new 4 2)) as S0 by (apply new_sound; vm_compute; done).
  assert (wide_ok (Grid.new 4 2)) as W0 by (apply new_wide; done).
  assert (ops_ok (clear_damage (Grid.new 4 2)) painted_ops) as Hok.
  { pose proof (sd_sound _ _ (clear_damage_steady _ S0)) as S1.
    assert (op_ok (clear_damage (Grid.new 4 2)) (OGrapheme 1 1 [4352] default_cell 2)) as H1
      by apply (blank_style _ Default Default), (so_wf _ S1).
    split; [done|]. pose proof (run_op_sound _ _ S1 H1) as S2.
    split; [apply cell_ok_default, (so_wf _ S2)|done]. }
  assert (h_ok (blank_plain : host)) as Hh by (intros y Hy; by apply paired_ones).
  assert (pane_shows (Grid.new 4 2) 2 1 (blank_plain : host)) as Hp.
  { intros y Hy x Hx. cbn in Hx, Hy. symmetry. apply shown_default; [|apply S0].
    assert (x = 0 \/ x = 1 \/ x = 2 \/ x = 3) as Hx4 by lia. assert (y = 0 \/ y = 1) as Hy2 by lia.
    by destruct Hx4 as [->|[->|[->| ->]]], Hy2 as [->| ->]. }
  split; [done|]. split; [done|].
  refine (proj1 (painting_shows_grid (Grid.new 4 2) painted_ops Renderer.new blank_plain 2 1 S0 W0 Hok _ _ _ _ _ _ _ _ Hp)).
  - repeat split.
  - by repeat constructor.
  - vm_compute. done.
  - vm_compute. done.
  - intros x y Hx Hy Hw. change (x < 4) in Hx. change (y < 2) in Hy.
    assert (x = 0 \/ x = 1 \/ x = 2 \/ x = 3) as Hx4 by lia. assert (y = 0 \/ y = 1) as Hy2 by lia.
    destruct Hx4 as [->|[->|[->| ->]]], Hy2 as [->| ->]; vm_compute; try done; by vm_compute in Hw.
  - split; vm_compute; done.
  - split; [by split|done].
  - intros y Hy. split; intros Hlt; vm_compute; done.
Defined.

(** Two rows are needed. Terminals take margins of two rows at least, so for a
    pane of one row the scroll moves the whole screen of the host: here the
    pane is row 1 of four, and what row 3 shows above it moves to row 2. *)
Definition marked_plain : plain := {|
  p_cell := fun x y => if y =? 3 then Glyph [65] (rendition_of default_style) None 1 else blank_shown;
  p_cursor := (0, 0); p_pen := rendition_of default_style; p_link := None; p_margins := (1, 4) |}.

Example one_row_scroll :
  let g := scroll_up (Grid.new 8 1) default_cell in
  let h := run (marked_plain : host) (render_pane_damage_with_scroll (Renderer.new, []) g 0 1).2 in
  h_cell (marked_plain : host) 0 2 = blank_shown /\ h_cell h 0 2 = Glyph [65] (rendition_of default_style) None 1.
Proof. vm_compute. done. Qed.
