(* ===== verification/Stored.v ===== *)
(** * Stored lines and captures

    [uniterm-core/src/grid.rs] (export) and [uniterm-core/src/grid/capture.rs]:
    lines leave a grid with their handles resolved, either cell by cell
    ([export_lines]) or as a detached [GridCapture] that is resolved later; a
    capture can also be built from stored lines.  The theorems: a capture
    resolves and serializes to the export; a capture of stored lines resolves to
    them. *)

From S2P Require Import Prelude Cell Grid GridInv GridEdit GridScroll.

(** ** Export *)

Definition store_cell (text : str) (underline : Color) (c : Cell) : StoredCell := {|
  s_text := text; s_fg := fg c; s_bg := bg c; s_attrs := attrs c; s_underline := underline;
  s_width := width c; s_continuation := is_continuation c |}.

(** [while cells.last().is_some_and(..) { cells.pop() }], unless wrapped. *)
Definition stored_line (cs : list StoredCell) (w : bool) : StoredLine :=
  {| s_cells := if w then cs else trim_by stored_cell_is_default_blank cs; s_wrapped := w |}.

Definition store_line (g : Grid) (i : N) : StoredLine :=
  stored_line
    (map (fun x => let cell := line_cell g i x in
       store_cell (cell_text_owned g cell) (underline_color g (c_underline cell)) cell)
       (range 0 (g_width g)))
    (line_wrapped g i).

Definition export_lines (g : Grid) (max : N) : list StoredLine :=
  map (store_line g) (range (total_lines g - max) (total_lines g)).

(** ** Captures *)

Record GridCapture : Set := {
  cap_cells : list Cell; cap_lines : list (nat * bool);
  cap_clusters : list str; cap_colors : list Color }.

(** One line is appended: its cells, then its end offset. *)
Definition capture_line (c : GridCapture) (l : Line) : GridCapture :=
  let kept := if wrapped l then cells l else trim_cells (cells l) in
  let all := cap_cells c ++ kept in
  {| cap_cells := all; cap_lines := cap_lines c ++ [(length all, wrapped l)];
     cap_clusters := cap_clusters c; cap_colors := cap_colors c |}.

Definition capture_lines (g : Grid) (max : N) : GridCapture :=
  let c := foldl (fun c i => match line g i with Some l => capture_line c l | None => c end)
    {| cap_cells := []; cap_lines := []; cap_clusters := []; cap_colors := [] |}
    (range (total_lines g - max) (total_lines g)) in
  {| cap_cells := cap_cells c; cap_lines := cap_lines c;
     cap_clusters := if existsb (fun x => negb (cluster x =? 0)) (cap_cells c)
                     then clusters g else [];
     cap_colors := if existsb (fun x => negb (c_underline x =? 0)) (cap_cells c)
                   then underline_colors g else [] |}.

(** [GridCapture::cell], and the same cell of [into_stored_lines]. *)
Definition capture_cell (cap : GridCapture) (c : Cell) : StoredCell :=
  store_cell (cell_text (cap_clusters cap) c)
    (default Default (cap_colors cap !! N.to_nat (c_underline c))) c.

(** The cells of each line with its flag: [self.cells[start..end]]. *)
Fixpoint cut_lines (cs : list Cell) (start : nat) (ls : list (nat * bool)) : list (list Cell * bool) :=
  match ls with
  | [] => []
  | (e, w) :: ls => (take (e - start) (drop start cs), w) :: cut_lines cs e ls
  end.

Definition into_stored_lines (cap : GridCapture) : list StoredLine :=
  map (fun p => stored_line (map (capture_cell cap) p.1) p.2) (cut_lines (cap_cells cap) 0 (cap_lines cap)).

(** [Serialize for GridCapture]: the sequence it writes. *)
Definition serialized_blank (c : StoredCell) : bool :=
  str_eqb (s_text c) [SPACE] && bool_decide (s_fg c = Default) && bool_decide (s_bg c = Default)
  && (s_attrs c =? NONE) && bool_decide (s_underline c = Default) && (s_width c =? 1)
  && negb (s_continuation c).

Definition serialize_line (cap : GridCapture) (p : list Cell * bool) : StoredLine :=
  let cs := map (capture_cell cap) p.1 in
  {| s_cells := if p.2 then cs else trim_by serialized_blank cs; s_wrapped := p.2 |}.

Definition serialize (cap : GridCapture) : list StoredLine :=
  map (serialize_line cap) (cut_lines (cap_cells cap) 0 (cap_lines cap)).

(** ** Captures of stored lines *)

Definition from_stored_cell (cap : GridCapture) (saved : StoredCell) : GridCapture :=
  let '(cl, h) :=
    if (2 <=? length (s_text saved))%nat then
      (cap_clusters cap ++ [s_text saved], N.of_nat (length (cap_clusters cap ++ [s_text saved]) - 1) mod U32)
    else (cap_clusters cap, 0) in
  let '(colors, u) :=
    match position (s_underline saved) (cap_colors cap) with
    | Some i => (cap_colors cap, i)
    | None => if (length (cap_colors cap) <? 256)%nat
              then (cap_colors cap ++ [s_underline saved], length (cap_colors cap ++ [s_underline saved]) - 1)%nat
              else (cap_colors cap, 0%nat)
    end in
  let cell := {|
    ch := default SPACE (head (s_text saved)); fg := s_fg saved; bg := s_bg saved;
    attrs := s_attrs saved; width := if s_continuation saved then 0 else N.max (s_width saved) 1;
    c_underline := N.of_nat u mod 256; cluster := h; c_hyperlink := 0 |} in
  {| cap_cells := cap_cells cap ++ [cell]; cap_lines := cap_lines cap; cap_clusters := cl;
     cap_colors := colors |}.

Definition from_stored_line (cap : GridCapture) (l : StoredLine) : GridCapture :=
  let cap := foldl from_stored_cell cap (s_cells l) in
  {| cap_cells := cap_cells cap; cap_lines := cap_lines cap ++ [(length (cap_cells cap), s_wrapped l)];
     cap_clusters := cap_clusters cap; cap_colors := cap_colors cap |}.

Definition from_stored_lines (ls : list StoredLine) : GridCapture :=
  foldl from_stored_line
    {| cap_cells := []; cap_lines := []; cap_clusters := [[]]; cap_colors := [Default] |} ls.

(** ** Resolving a line *)

Definition resolve (g : Grid) (c : Cell) : StoredCell :=
  store_cell (cell_text_owned g c) (underline_color g (c_underline c)) c.

(** A line as it is exported: filled up to the width, resolved, trimmed. *)
Definition resolved_line (g : Grid) (l : Line) : StoredLine :=
  stored_line (map (resolve g)
    (cells l ++ replicate (N.to_nat (g_width g) - length (cells l)) default_cell)) (wrapped l).

Lemma map_range {A} (f : N -> A) a b : map f (range a b) = map (fun i => f (a + N.of_nat i)) (seq 0 (N.to_nat (b - a))).
Proof. unfold range. by rewrite map_map. Qed.

Lemma list_as_lookups {A} (d : A) (l : list A) n :
  (length l <= n)%nat -> map (fun i => default d (l !! i)) (seq 0 n) = l ++ replicate (n - length l) d.
Proof.
  revert n. induction l as [|a l IH]; intros n Hn.
  - cbn [app length]. rewrite Nat.sub_0_r. generalize 0%nat as k. clear. induction n as [|n IH]; intros k; [done|].
    cbn. by rewrite IH.
  - destruct n as [|n]; [cbn in Hn; lia|]. cbn [seq map]. rewrite <- seq_shift, map_map. cbn.
    f_equal. apply IH. cbn in Hn. lia.
Qed.

Lemma store_line_resolved g i l :
  line g i = Some l -> (length (cells l) <= N.to_nat (g_width g))%nat ->
  store_line g i = resolved_line g l.
Proof.
  intros Hl Hlen. unfold store_line, line_wrapped. rewrite Hl. unfold resolved_line. f_equal.
  rewrite map_range, N.sub_0_r, <- list_as_lookups by done. rewrite map_map. apply map_ext. intros k.
  unfold line_cell. rewrite Hl. cbn. by rewrite N.add_0_l, Nat2N.id.
Qed.

Lemma line_index g i :
  shape g -> i < total_lines g -> line g i = (scrollback g ++ lines g) !! N.to_nat i.
Proof.
  intros Hs Hi. pose proof (sh_lines g Hs). unfold line, total_lines, scrollback_len in *.
  destruct (N.ltb_spec i (N.of_nat (length (scrollback g)))).
  - by rewrite lookup_app_l by lia.
  - rewrite lookup_app_r by lia. f_equal. lia.
Qed.

(** The lines an export covers. *)
Definition last_lines (g : Grid) (max : N) : list Line :=
  drop (N.to_nat (total_lines g - max)) (scrollback g ++ lines g).

Lemma lookups_range {A} (l : list A) a b :
  (N.to_nat b = length l) -> map (fun i => l !! N.to_nat i) (range a b) = map Some (drop (N.to_nat a) l).
Proof.
  intros Hb. rewrite map_range. apply list_eq. intros i. rewrite !list_lookup_fmap, lookup_drop.
  destruct (decide (i < N.to_nat (b - a))%nat) as [Hi|Hi].
  - rewrite lookup_seq_lt by done. cbn.
    destruct (lookup_lt_is_Some_2 l (N.to_nat a + i)) as [x Hx]; [lia|]. rewrite Hx. cbn. f_equal.
    rewrite <- Hx. f_equal. lia.
  - rewrite lookup_seq_ge by lia. cbn.
    assert (l !! (N.to_nat a + i)%nat = None) as -> by (apply lookup_ge_None_2; lia). done.
Qed.

Lemma lines_range g max :
  shape g -> map (line g) (range (total_lines g - max) (total_lines g)) = map Some (last_lines g max).
Proof.
  intros Hs. unfold last_lines. rewrite <- (lookups_range _ _ (total_lines g)).
  - apply map_ext_in. intros i Hi. apply list_elem_of_In, elem_of_range in Hi. apply line_index; [done|lia].
  - rewrite length_app, (sh_lines g Hs). unfold total_lines, scrollback_len. lia.
Qed.

Lemma map_via {A B C} (f : A -> B) (h : A -> option C) (r : C -> B) l k :
  map h l = map Some k -> (forall a c, c ∈ k -> h a = Some c -> f a = r c) -> map f l = map r k.
Proof.
  revert k. induction l as [|a l IH]; intros [|c k] E Hr; try done. cbn in E. injection E as E1 E2.
  cbn. f_equal; [apply Hr; [set_solver|done]|]. apply IH; [done|]. intros a' c' Hc. apply Hr. set_solver.
Qed.

Lemma line_short g l : shape g -> l ∈ scrollback g ++ lines g -> hist_row (N.to_nat (g_width g)) l.
Proof. intros Hs Hl. apply (line_from_short g default_cell); [done|]. left. eauto. Qed.

Lemma last_lines_elem g max l : l ∈ last_lines g max -> l ∈ scrollback g ++ lines g.
Proof. intros Hl. eapply elem_of_submseteq; [exact Hl|]. apply sublist_submseteq, sublist_drop. Qed.

Lemma export_resolved g max : shape g -> export_lines g max = map (resolved_line g) (last_lines g max).
Proof.
  intros Hs. unfold export_lines. eapply map_via; [by apply lines_range|]. intros i l Hl Hi.
  apply store_line_resolved; [done|]. apply last_lines_elem in Hl. by apply (line_short g l Hs) in Hl as [? _].
Qed.

(** ** A capture resolves to the export *)

Definition kept (l : Line) : list Cell := if wrapped l then cells l else trim_cells (cells l).

(** The end offsets of lines whose cells begin at [n]. *)
Fixpoint ends (n : nat) (ls : list Line) : list (nat * bool) :=
  match ls with
  | [] => []
  | l :: ls => let n := (n + length (kept l))%nat in (n, wrapped l) :: ends n ls
  end.

Lemma captured c ls :
  foldl capture_line c ls =
  {| cap_cells := cap_cells c ++ concat (map kept ls);
     cap_lines := cap_lines c ++ ends (length (cap_cells c)) ls;
     cap_clusters := cap_clusters c; cap_colors := cap_colors c |}.
Proof.
  revert c. induction ls as [|l ls IH]; intros c; cbn [foldl map concat ends].
  - rewrite !app_nil_r. by destruct c.
  - rewrite IH. cbn. fold (kept l). rewrite length_app, <- !app_assoc. done.
Qed.

Lemma cut_ends pre ls post :
  cut_lines (pre ++ concat (map kept ls) ++ post) (length pre) (ends (length pre) ls)
  = map (fun l => (kept l, wrapped l)) ls.
Proof.
  revert pre. induction ls as [|l ls IH]; intros pre; [done|]. cbn [map concat ends cut_lines]. f_equal.
  - rewrite drop_app_length, <- app_assoc. f_equal.
    replace (length pre + length (kept l) - length pre)%nat with (length (kept l)) by lia.
    by rewrite take_app_length.
  - specialize (IH (pre ++ kept l)). rewrite length_app, <- !app_assoc in IH. by rewrite <- app_assoc.
Qed.

Lemma trim_by_blanks {A} (f : A -> bool) l k :
  Forall (fun x => f x = true) k -> trim_by f (l ++ k) = trim_by f l.
Proof.
  intros Hk. induction l as [|a l IH]; cbn [app].
  - induction Hk as [|x k Hx _ IH]; [done|]. cbn. by rewrite IH, Hx.
  - cbn. by rewrite IH.
Qed.

Lemma trim_by_ext {A} (f h : A -> bool) l : (forall x, x ∈ l -> f x = h x) -> trim_by f l = trim_by h l.
Proof.
  induction l as [|a l IH]; intros Hf; [done|]. cbn. rewrite IH by set_solver. by rewrite Hf by set_solver.
Qed.

Lemma resolve_default g : arena_wf g -> stored_cell_is_default_blank (resolve g default_cell) = true.
Proof.
  intros Ha. pose proof (ar_colors g Ha). unfold resolve, underline_color. cbn.
  by destruct (underline_colors g); [|injection H as ->].
Qed.

Lemma resolve_blanks g n :
  arena_wf g ->
  Forall (fun x => stored_cell_is_default_blank x = true) (map (resolve g) (replicate n default_cell)).
Proof.
  intros Ha. apply Forall_forall. intros x Hx. apply list_elem_of_fmap in Hx as (y & -> & Hy).
  apply elem_of_replicate in Hy as [-> _]. by apply resolve_default.
Qed.

(** Trimming before the resolution changes nothing, nor does the padding. *)
Lemma resolved_kept g l :
  arena_wf g -> hist_row (N.to_nat (g_width g)) l ->
  resolved_line g l = stored_line (map (resolve g) (kept l)) (wrapped l).
Proof.
  intros Ha [Hl Hw]. unfold resolved_line, kept, stored_line. destruct (wrapped l).
  - rewrite Hw, Nat.sub_diag by done. cbn. by rewrite app_nil_r.
  - f_equal. rewrite map_app, trim_by_blanks by by apply resolve_blanks.
    destruct (trim_cells_spec (cells l)) as [n E]. rewrite E at 1.
    by rewrite map_app, trim_by_blanks by by apply resolve_blanks.
Qed.

Lemma capture_folds g max :
  shape g ->
  let c := foldl capture_line {| cap_cells := []; cap_lines := []; cap_clusters := []; cap_colors := [] |}
             (last_lines g max) in
  capture_lines g max = {| cap_cells := cap_cells c; cap_lines := cap_lines c;
     cap_clusters := if existsb (fun x => negb (cluster x =? 0)) (cap_cells c) then clusters g else [];
     cap_colors := if existsb (fun x => negb (c_underline x =? 0)) (cap_cells c) then underline_colors g else [] |}.
Proof.
  intros Hs. cbn zeta. unfold capture_lines. pose proof (lines_range g max Hs) as E.
  assert (forall c0, foldl (fun c i => match line g i with Some l => capture_line c l | None => c end) c0
    (range (total_lines g - max) (total_lines g)) = foldl capture_line c0 (last_lines g max)) as ->; [|done].
  revert E. generalize (range (total_lines g - max) (total_lines g)) as idx. generalize (last_lines g max) as ls.
  induction ls as [|l ls IH]; intros [|i idx] E; try done. cbn in E. injection E as E1 E2.
  intros c0. cbn. rewrite E1. by apply IH.
Qed.

(** Leaving out an arena no captured cell uses resolves no cell differently. *)
Lemma capture_cell_resolve g cap c :
  arena_wf g -> c ∈ cap_cells cap ->
  cap_clusters cap = (if existsb (fun x => negb (cluster x =? 0)) (cap_cells cap) then clusters g else []) ->
  cap_colors cap = (if existsb (fun x => negb (c_underline x =? 0)) (cap_cells cap) then underline_colors g else []) ->
  capture_cell cap c = resolve g c.
Proof.
  intros Ha Hc E1 E2. unfold capture_cell, resolve. rewrite E1, E2. clear E1 E2. f_equal.
  - unfold cell_text_owned, cell_text. destruct (existsb _ _) eqn:E; [done|].
    apply existsb_forall_false in E. rewrite Forall_forall in E. specialize (E c Hc). cbn in E. by rewrite E.
  - unfold underline_color. destruct (existsb _ _) eqn:E; [done|].
    apply existsb_forall_false in E. rewrite Forall_forall in E. specialize (E c Hc).
    apply negb_false_iff, N.eqb_eq in E. rewrite E. pose proof (ar_colors g Ha). cbn.
    by destruct (underline_colors g); [|injection H as ->].
Qed.

Lemma capture_pieces g max :
  wf g -> let cap := capture_lines g max in
  cut_lines (cap_cells cap) 0 (cap_lines cap) = map (fun l => (kept l, wrapped l)) (last_lines g max)
  /\ forall l, l ∈ last_lines g max -> map (capture_cell cap) (kept l) = map (resolve g) (kept l).
Proof.
  intros [Hs _ _ Ha]. cbn zeta. rewrite capture_folds, captured by done.
  cbn [cap_cells cap_lines length app]. split.
  - pose proof (cut_ends [] (last_lines g max) []) as E. cbn [app length] in E. by rewrite app_nil_r in E.
  - intros l Hl. apply map_ext_in. intros c Hc. apply list_elem_of_In in Hc.
    apply capture_cell_resolve; [done| |done|done]. cbn [cap_cells].
    apply list_elem_of_In, in_concat. exists (kept l). split; apply list_elem_of_In; [by apply list_elem_of_fmap_2|done].
Qed.

(** No cell is a wide plain space. *)
Definition narrow_blanks (g : Grid) : Prop :=
  cells_of g (fun c => stored_cell_is_default_blank (resolve g c) = true -> width c = 1).

Lemma kept_elem l c : c ∈ kept l -> c ∈ cells l.
Proof.
  unfold kept. destruct (wrapped l); [done|]. intros Hc.
  destruct (trim_cells_spec (cells l)) as [k E]. rewrite E. set_solver.
Qed.

(** A capture is the export. The detached copy of the last lines, resolved
    later, gives exactly the stored lines the grid would have exported at that
    moment; and so does the sequence its serializer writes, unless the grid
    holds a plain space of two columns. *)
Theorem capture_is_export g max :
  wf g ->
  into_stored_lines (capture_lines g max) = export_lines g max
  /\ (narrow_blanks g -> serialize (capture_lines g max) = export_lines g max).
Proof.
  intros Hw. pose proof Hw as [Hs _ _ Ha]. destruct (capture_pieces g max Hw) as [Hcut Hcells].
  rewrite export_resolved by done. unfold into_stored_lines, serialize. rewrite Hcut, !map_map. split.
  - apply map_ext_in. intros l Hl%list_elem_of_In. cbn. rewrite Hcells by done.
    rewrite resolved_kept; [done|done|]. by eapply line_short, last_lines_elem.
  - intros Hn. apply map_ext_in. intros l Hl%list_elem_of_In. unfold serialize_line. cbn [fst snd].
    rewrite Hcells by done. rewrite resolved_kept; [|done|by eapply line_short, last_lines_elem].
    unfold stored_line. f_equal. destruct (wrapped l); [done|]. apply trim_by_ext.
    intros x Hx. apply list_elem_of_fmap in Hx as (c & -> & Hc%kept_elem).
    unfold narrow_blanks, cells_of in Hn. rewrite Forall_forall in Hn. specialize (Hn l (last_lines_elem _ _ _ Hl)).
    rewrite Forall_forall in Hn. specialize (Hn c Hc).
    unfold serialized_blank. unfold stored_cell_is_default_blank in *. cbn in *. unfold is_continuation in *.
    destruct (str_eqb _ _), (bool_decide (fg c = _)), (bool_decide (bg c = _)), (attrs c =? NONE),
      (bool_decide (underline_color _ _ = _)), (N.eqb_spec (width c) 0); cbn in *; try done;
      try (by rewrite Hn); by rewrite ?andb_false_r.
Qed.

(** ** A capture of stored lines resolves to them *)

(** A cell as the store writes them: text unless a continuation. *)
Definition stored_ok (s : StoredCell) : Prop :=
  if s_continuation s then s_text s = [] /\ s_width s = 0 else s_text s <> [] /\ 1 <= s_width s.

Definition stored_cells (ls : list StoredLine) : list StoredCell := concat (map s_cells ls).

(** The underline colours of stored lines, the default among them. *)
Definition palette (cs : list StoredCell) : gset Color := {[Default]} ∪ list_to_set (map s_underline cs).

Definition graphemes (cs : list StoredCell) : nat := length (filter (fun s => 2 <= length (s_text s))%nat cs).

(** A line that is not wrapped ends in something to see. *)
Definition line_trimmed (l : StoredLine) : Prop := stored_line (s_cells l) (s_wrapped l) = l.

Record capture_wf (p : gset Color) (cap : GridCapture) : Prop := {
  cw_clusters : (0 < length (cap_clusters cap))%nat;
  cw_colors : NoDup (cap_colors cap);
  cw_palette : forall c, c ∈ cap_colors cap -> c ∈ p;
  cw_cells : Forall (fun c => (N.to_nat (cluster c) < length (cap_clusters cap))%nat
                              /\ (N.to_nat (c_underline c) < length (cap_colors cap))%nat) (cap_cells cap) }.

(** The cells and arenas of [cap'] extend those of [cap] and resolve to [ss]. *)
Definition extends (cap cap' : GridCapture) (ss : list StoredCell) : Prop :=
  cap_clusters cap `prefix_of` cap_clusters cap' /\ cap_colors cap `prefix_of` cap_colors cap'
  /\ cap_lines cap' = cap_lines cap
  /\ exists cs, cap_cells cap' = cap_cells cap ++ cs /\ map (capture_cell cap') cs = ss.

Lemma nodup_palette (p : gset Color) (l : list Color) :
  NoDup l -> (forall c, c ∈ l -> c ∈ p) -> (length l <= size p)%nat.
Proof.
  intros Hn Hp. rewrite <- (size_list_to_set (C := gset Color) l) by done.
  apply subseteq_size. intros c Hc. apply Hp. set_solver.
Qed.

Lemma capture_cell_prefix cap cap' c :
  cap_clusters cap `prefix_of` cap_clusters cap' -> cap_colors cap `prefix_of` cap_colors cap' ->
  (N.to_nat (cluster c) < length (cap_clusters cap))%nat ->
  (N.to_nat (c_underline c) < length (cap_colors cap))%nat ->
  capture_cell cap' c = capture_cell cap c.
Proof.
  intros [k1 E1] [k2 E2] H1 H2. unfold capture_cell, cell_text. rewrite E1, E2.
  by rewrite !lookup_app_l by done.
Qed.

Lemma from_stored_cell_spec p cap s :
  capture_wf p cap -> (size p <= 256)%nat -> s_underline s ∈ p -> stored_ok s ->
  N.of_nat (length (cap_clusters cap)) < U32 ->
  capture_wf p (from_stored_cell cap s) /\ extends cap (from_stored_cell cap s) [s]
  /\ length (cap_clusters (from_stored_cell cap s))
     = (length (cap_clusters cap) + graphemes [s])%nat.
Proof.
  intros [W1 W2 W3 W4] Hp Hs Hok Hroom. unfold from_stored_cell.
  destruct (if _ <=? _ then _ else _)%nat as [cl h] eqn:Ecl.
  assert (cap_clusters cap `prefix_of` cl /\ (N.to_nat h < length cl)%nat
    /\ length cl = (length (cap_clusters cap) + graphemes [s])%nat
    /\ forall x, is_continuation x = false -> cluster x = h -> ch x = default SPACE (head (s_text s)) ->
         s_text s <> [] -> cell_text cl x = s_text s) as (Pcl & Hh & Hlen & Htext).
  { unfold graphemes. destruct (Nat.leb_spec 2 (length (s_text s))) as [H2|H2].
    - rewrite filter_cons_True by done. injection Ecl as <- <-. rewrite length_app, Nat.add_sub. cbn [length].
      rewrite N.mod_small by done.
      split; [by apply prefix_app_r|]. split; [lia|]. split; [done|]. intros x Hx Hc _ _. unfold cell_text. rewrite Hx, Hc.
      destruct (N.eqb_spec (N.of_nat (length (cap_clusters cap))) 0); [lia|]. cbn.
      rewrite Nat2N.id. by rewrite list_lookup_middle.
    - rewrite filter_cons_False by lia. injection Ecl as <- <-.
      split; [done|]. split; [lia|]. split; [cbn; lia|]. intros x Hx Hc Hch Hne. unfold cell_text. rewrite Hx, Hc. cbn.
      rewrite Hch. destruct (s_text s) as [|a [|b t]]; [done|done|cbn in H2; lia]. }
  destruct (match position _ _ with Some _ => _ | None => _ end) as [colors u] eqn:Eco.
  assert (cap_colors cap `prefix_of` colors /\ (u < length colors)%nat /\ colors !! u = Some (s_underline s)
    /\ NoDup colors /\ (forall c, c ∈ colors -> c ∈ p)) as (Pco & Hu & Hcol & Hnd & Hsub).
  { destruct (position _ _) as [i|] eqn:Ei.
    - injection Eco as <- <-. apply position_some in Ei. split; [done|]. split; [by eapply lookup_lt_Some|]. done.
    - apply position_none in Ei. assert (NoDup (cap_colors cap ++ [s_underline s])) as Hnd.
      { apply NoDup_app. split; [done|]. split; [set_solver|apply NoDup_singleton]. }
      assert (length (cap_colors cap ++ [s_underline s]) <= size p)%nat as Hl.
      { apply nodup_palette; [done|]. set_solver. }
      rewrite length_app in Hl. cbn in Hl. destruct (Nat.ltb_spec (length (cap_colors cap)) 256); [|lia].
      injection Eco as <- <-. rewrite length_app, Nat.add_sub. cbn [length].
      split; [by apply prefix_app_r|]. split; [lia|]. split; [by rewrite list_lookup_middle|].
      split; [done|]. set_solver. }
  assert (length colors <= 256)%nat by (pose proof (nodup_palette p colors Hnd Hsub); lia).
  rewrite (N.mod_small (N.of_nat u)) by lia. set (c := {| ch := _ |}). split; [|split; [|exact Hlen]].
  - apply prefix_length in Pcl as L1. apply prefix_length in Pco as L2.
    split; cbn [cap_clusters cap_colors cap_cells]; [lia|done|done|]. apply Forall_app. split.
    + eapply Forall_impl; [exact W4|]. intros x [? ?]. lia.
    + constructor; [|done]. cbn. lia.
  - split; [done|]. split; [done|]. split; [done|]. exists [c]. split; [done|]. cbn [map]. f_equal.
    unfold capture_cell, store_cell. cbn [cap_clusters cap_colors]. unfold stored_ok in Hok.
    assert (default Default (colors !! N.to_nat (c_underline c)) = s_underline s) as ->.
    { subst c. cbn. by rewrite Nat2N.id, Hcol. }
    destruct s as [text sf sb sa su sw sc]. cbn in *. destruct sc.
    + destruct Hok as [-> ->]. done.
    + destruct Hok as [Hne Hw]. assert (is_continuation c = false) as Hcont.
      { unfold is_continuation. cbn. apply N.eqb_neq. lia. }
      rewrite (Htext c Hcont eq_refl eq_refl Hne), Hcont. subst c. cbn. f_equal. lia.
Qed.

Lemma extends_trans p cap1 cap2 cap3 s1 s2 :
  capture_wf p cap2 -> extends cap1 cap2 s1 -> extends cap2 cap3 s2 -> extends cap1 cap3 (s1 ++ s2).
Proof.
  intros Hw (P1 & Q1 & L1 & c1 & E1 & R1) (P2 & Q2 & L2 & c2 & E2 & R2).
  split; [by etrans|]. split; [by etrans|]. split; [congruence|]. exists (c1 ++ c2).
  split; [by rewrite E2, E1, app_assoc|]. rewrite map_app, R2. f_equal. rewrite <- R1.
  apply map_ext_in. intros c Hc%list_elem_of_In. pose proof (cw_cells _ _ Hw) as Hf. rewrite E1 in Hf.
  rewrite Forall_forall in Hf. destruct (Hf c ltac:(set_solver)). by apply capture_cell_prefix.
Qed.

Lemma from_stored_cells_spec p cap ss :
  capture_wf p cap -> (size p <= 256)%nat -> (forall s, s ∈ ss -> s_underline s ∈ p /\ stored_ok s) ->
  N.of_nat (length (cap_clusters cap) + graphemes ss) < U32 ->
  let cap' := foldl from_stored_cell cap ss in
  capture_wf p cap' /\ extends cap cap' ss
  /\ length (cap_clusters cap') = (length (cap_clusters cap) + graphemes ss)%nat.
Proof.
  revert cap. induction ss as [|s ss IH]; intros cap Hw Hp Hall Hroom; cbn [foldl].
  - split; [done|]. split; [|cbn; lia]. split_and!; [done|done|done|]. exists []. by rewrite app_nil_r.
  - destruct (Hall s) as [Hs Hok]; [set_solver|].
    assert (graphemes (s :: ss) = (graphemes [s] + graphemes ss)%nat) as Eg.
    { unfold graphemes. change (s :: ss) with ([s] ++ ss). by rewrite filter_app, length_app. }
    destruct (from_stored_cell_spec p cap s Hw Hp Hs Hok) as (W & X & L); [lia|].
    destruct (IH _ W Hp) as (W' & X' & L'); [set_solver|rewrite L; lia|].
    split; [done|]. split; [|rewrite L', L; lia]. by apply (extends_trans p _ _ _ [s] ss W).
Qed.

Lemma graphemes_app a b : graphemes (a ++ b) = (graphemes a + graphemes b)%nat.
Proof. unfold graphemes. by rewrite filter_app, length_app. Qed.

Lemma cut_lines_app cs n a b :
  cut_lines cs n (a ++ b) = cut_lines cs n a ++ cut_lines cs (default n (fst <$> last a)) b.
Proof.
  revert n. induction a as [|[e w] a IH]; intros n; [done|]. cbn [app cut_lines]. f_equal.
  rewrite IH. f_equal. destruct a as [|x a]; [done|].
  change (last ((e, w) :: x :: a)) with (last (x :: a)).
  destruct (last (x :: a)) eqn:E; [done|]. by apply last_None in E.
Qed.

(** Lines whose offsets lie within cells appended to are cut as before. *)
Lemma cut_lines_grow cs k n ls :
  Forall (fun p => (p.1 <= length cs)%nat) ls -> cut_lines (cs ++ k) n ls = cut_lines cs n ls.
Proof.
  revert n. induction ls as [|[e w] ls IH]; intros n H; [done|]. apply Forall_cons in H as [He H].
  cbn in *. rewrite IH by done. f_equal. f_equal. destruct (decide (n <= length cs)%nat).
  - rewrite drop_app_le by done. rewrite take_app_le; [done|]. rewrite length_drop. lia.
  - replace (e - n)%nat with 0%nat by lia. done.
Qed.

Record lines_wf (cap : GridCapture) : Prop := {
  lw_in : Forall (fun p => (p.1 <= length (cap_cells cap))%nat) (cap_lines cap);
  lw_last : default 0%nat (fst <$> last (cap_lines cap)) = length (cap_cells cap) }.

Lemma cut_lines_within cs n ls p : p ∈ cut_lines cs n ls -> forall c, c ∈ p.1 -> c ∈ cs.
Proof.
  revert n. induction ls as [|[e w] ls IH]; intros n Hp c Hc; cbn in Hp; [by apply elem_of_nil in Hp|].
  apply elem_of_cons in Hp as [->|Hp]; [|by eapply IH]. cbn in Hc.
  eapply elem_of_submseteq; [exact Hc|]. apply sublist_submseteq. etrans; [apply sublist_take|apply sublist_drop].
Qed.

Lemma from_stored_line_spec p cap l :
  capture_wf p cap -> lines_wf cap -> (size p <= 256)%nat -> line_trimmed l ->
  (forall s, s ∈ s_cells l -> s_underline s ∈ p /\ stored_ok s) ->
  N.of_nat (length (cap_clusters cap) + graphemes (s_cells l)) < U32 ->
  let cap' := from_stored_line cap l in
  capture_wf p cap' /\ lines_wf cap'
  /\ length (cap_clusters cap') = (length (cap_clusters cap) + graphemes (s_cells l))%nat
  /\ into_stored_lines cap' = into_stored_lines cap ++ [l].
Proof.
  intros Hw [L1 L2] Hp Ht Hall Hroom. unfold from_stored_line.
  destruct (from_stored_cells_spec p cap (s_cells l) Hw Hp Hall Hroom) as (W & (P & Q & El & cs & Ec & Er) & Hlen).
  set (cap1 := foldl from_stored_cell cap (s_cells l)) in *. cbn zeta.
  split; [by destruct W|]. split; [|split; [exact Hlen|]].
  - split; cbn [cap_lines cap_cells].
    + rewrite El. apply Forall_app. split; [|by repeat constructor].
      eapply Forall_impl; [exact L1|]. intros q Hq. cbn beta in Hq. rewrite Ec, length_app. lia.
    + by rewrite last_snoc.
  - unfold into_stored_lines. cbn [cap_lines cap_cells]. rewrite El, cut_lines_app, map_app, Ec. f_equal.
    + rewrite cut_lines_grow by done. apply map_ext_in. intros q Hq%list_elem_of_In. f_equal.
      apply map_ext_in. intros c Hc%list_elem_of_In. eapply cut_lines_within in Hc; [|exact Hq].
      pose proof (cw_cells _ _ Hw) as Hf. rewrite Forall_forall in Hf. destruct (Hf c Hc).
      by apply (capture_cell_prefix cap).
    + rewrite L2. cbn [cut_lines map]. f_equal. cbn [fst snd].
      rewrite drop_app_length, length_app. replace (_ + _ - _)%nat with (length cs) by lia.
      rewrite take_ge by lia.
      assert (map (capture_cell _) cs = s_cells l) as -> by exact Er. exact Ht.
Qed.

Lemma from_stored_lines_spec p cap ls :
  capture_wf p cap -> lines_wf cap -> (size p <= 256)%nat -> Forall line_trimmed ls ->
  (forall s, s ∈ stored_cells ls -> s_underline s ∈ p /\ stored_ok s) ->
  N.of_nat (length (cap_clusters cap) + graphemes (stored_cells ls)) < U32 ->
  into_stored_lines (foldl from_stored_line cap ls) = into_stored_lines cap ++ ls.
Proof.
  revert cap. induction ls as [|l ls IH]; intros cap Hw Hl Hp Ht Hall Hroom; cbn [foldl].
  { by rewrite app_nil_r. }
  apply Forall_cons in Ht as [Ht Hts]. unfold stored_cells in *. cbn [map concat] in *.
  rewrite graphemes_app in Hroom.
  destruct (from_stored_line_spec p cap l Hw Hl Hp Ht) as (W & L & Hlen & E); [set_solver|lia|].
  rewrite IH, E, <- app_assoc; [done|done|done|done|done|set_solver|rewrite Hlen; lia].
Qed.

(** Stored lines survive a capture. A capture built from any lines as the
    store writes them, with at most 255 underline colours besides the default,
    resolves to exactly these lines: texts, styles, widths, continuations and
    wrap flags. *)
Theorem stored_lines_round_trip ls :
  Forall line_trimmed ls -> Forall stored_ok (stored_cells ls) ->
  (size (palette (stored_cells ls)) <= 256)%nat ->
  N.of_nat (1 + graphemes (stored_cells ls)) < U32 ->
  into_stored_lines (from_stored_lines ls) = ls.
Proof.
  intros Ht Hok Hp Hroom. unfold from_stored_lines. rewrite Forall_forall in Hok.
  apply (from_stored_lines_spec (palette (stored_cells ls))); [| |done|done| |done].
  - split; cbn; [lia|apply NoDup_singleton| |constructor].
    intros c Hc. apply list_elem_of_singleton in Hc as ->. unfold palette. set_solver.
  - split; [constructor|done].
  - intros s Hs. split; [|by apply Hok]. unfold palette. apply elem_of_union_r, elem_of_list_to_set.
    by apply list_elem_of_fmap_2.
Qed.

Lemma capture_is_export_witness :
  wf sample_grid /\ into_stored_lines (capture_lines sample_grid 2) = export_lines sample_grid 2.
Proof.
  pose proof sample_grid_wf as H1. split; [done|]. exact (proj1 (capture_is_export sample_grid 2 H1)).
Defined.

(** The lines of the small grid. *)
Definition sample_lines : list StoredLine := export_lines sample_grid 2.

Lemma stored_lines_round_trip_witness :
  Forall line_trimmed sample_lines /\ into_stored_lines (from_stored_lines sample_lines) = sample_lines.
Proof.
  assert (Forall line_trimmed sample_lines) as H1 by (repeat constructor; vm_compute; try done).
  assert (Forall stored_ok (stored_cells sample_lines)) as H2 by (repeat constructor; vm_compute; try done).
  split; [done|].
  refine (stored_lines_round_trip sample_lines H1 H2 _ _); vm_compute; [lia|done].
Defined.
