(* ===== verification/Restore.v ===== *)
(** * Restoring history

    [Grid::load_scrollback] of [uniterm-core/src/grid.rs] and its helpers:
    stored lines come back into the history of a grid by interning.  The
    theorem: within the sizes of the arenas, a restored history exports exactly
    what was restored.  Beyond them it does not ([rainbow_256_lost]). *)

From S2P Require Import Prelude Cell Grid GridInv GridEdit GridScroll Stored.

(** ** Restoring history *)

Definition set_stored_on_line (g : Grid) (l : Line) (x : N) (saved : StoredCell) (c : Cell) : Grid * Line :=
  if (g_width g <=? x) || bool_decide (s_text saved = []) then (g, l)
  else
    let '(g, h) := if (2 <=? length (s_text saved))%nat then intern g (s_text saved) else (g, 0) in
    let c := with_cluster c h in
    let l := with_cells l (<[N.to_nat x := c]> (cells l)) in
    (g, if (width c =? 2) && (x +16 1 <? g_width g)
        then with_cells l (<[N.to_nat (x +16 1) := continuation_of c]> (cells l)) else l).

Definition restore_cell (gl : Grid * Line) (p : nat * StoredCell) : Grid * Line :=
  let '(g, l) := gl in
  let '(x, saved) := p in
  if s_continuation saved then (g, l)
  else
    let '(g, u) := intern_underline_color g (s_underline saved) in
    let c := {| ch := default SPACE (head (s_text saved)); fg := s_fg saved; bg := s_bg saved;
                attrs := s_attrs saved; width := N.max (s_width saved) 1;
                c_underline := u; cluster := 0; c_hyperlink := 0 |} in
    set_stored_on_line g l (N.of_nat x mod U16) saved c.

Definition line_from_stored (g : Grid) (stored : StoredLine) : Grid * Line :=
  let '(g, id) := alloc_line_id g in
  let l := with_wrapped (blank_line (g_width g) default_cell id) (s_wrapped stored) in
  foldl restore_cell (g, l) (imap pair (take (N.to_nat (g_width g)) (s_cells stored))).

Definition load_line (g : Grid) (stored : StoredLine) : Grid :=
  let '(g, l) := line_from_stored g stored in
  with_history g (scrollback g ++ [trim_default_tail l]) (scrollback_limit g).

Definition load_scrollback (g : Grid) (ls : list StoredLine) : Grid :=
  let g := foldl load_line (with_history g [] (scrollback_limit g)) ls in
  with_history g (keep_last (scrollback_limit g) (scrollback g)) (scrollback_limit g).

(** ** A restored history exports what was restored *)

Definition stored_continuation (s : StoredCell) : StoredCell := {|
  s_text := []; s_fg := s_fg s; s_bg := s_bg s; s_attrs := s_attrs s; s_underline := s_underline s;
  s_width := 0; s_continuation := true |}.

(** A stored glyph: a lead, and the second half of a wide one. *)
Definition stored_glyph (s : StoredCell) : list StoredCell :=
  if s_width s =? 2 then [s; stored_continuation s] else [s].

(** Cells as a screen holds them: whole glyphs of one or two columns. *)
Inductive restorable : list StoredCell -> Prop :=
| restorable_nil : restorable []
| restorable_glyph s ss :
    s_continuation s = false -> s_text s <> [] -> 1 <= s_width s <= 2 -> restorable ss ->
    restorable (stored_glyph s ++ ss).

(** While a history is loaded the arenas only grow. *)
Record grows (g g' : Grid) : Prop := {
  gr_clusters : clusters g `prefix_of` clusters g';
  gr_colors : underline_colors g `prefix_of` underline_colors g';
  gr_history : scrollback g' = scrollback g;
  gr_lines : lines g' = lines g;
  gr_size : g_width g' = g_width g /\ g_height g' = g_height g;
  gr_damage : damage g' = damage g /\ any_damage g' = any_damage g /\ pending_scroll_up g' = pending_scroll_up g;
  gr_limit : scrollback_limit g' = scrollback_limit g;
  gr_ids : next_line_id g' = next_line_id g }.

Record loading (p : gset Color) (g : Grid) : Prop := {
  ld_arena : arena_wf g;
  ld_palette : forall c, c ∈ underline_colors g -> c ∈ p;
  ld_size : (size p <= 256)%nat;
  ld_gc : cluster_gc_at g = 4096 }.

Lemma grows_refl g : grows g g.
Proof. by split. Qed.

Lemma grows_trans g1 g2 g3 : grows g1 g2 -> grows g2 g3 -> grows g1 g3.
Proof.
  intros [? ? ? ? [] (? & ? & ?) ? ?] [? ? ? ? [] (? & ? & ?) ? ?]. split; try (split_and!; congruence); by etrans.
Qed.

Lemma resolve_prefix g g' c :
  clusters g `prefix_of` clusters g' -> underline_colors g `prefix_of` underline_colors g' ->
  cell_ok g c -> resolve g' c = resolve g c.
Proof.
  intros [k1 E1] [k2 E2] (H1 & H2 & _). unfold resolve, cell_text_owned, cell_text, underline_color.
  rewrite E1, E2. by rewrite !lookup_app_l by done.
Qed.

(** Within the palette no colour needs a compaction. *)
Lemma color_within (p : gset Color) g color :
  arena_wf g -> (forall c, c ∈ underline_colors g -> c ∈ p) -> (size p <= 256)%nat -> color ∈ p ->
  let '(g', u) := intern_underline_color g color in
  arena_wf g' /\ (forall c, c ∈ underline_colors g' -> c ∈ p) /\ grows g g'
  /\ clusters g' = clusters g /\ cluster_gc_at g' = cluster_gc_at g
  /\ (N.to_nat u < length (underline_colors g'))%nat /\ underline_color g' u = color.
Proof.
  intros Ha Hpal Hsize Hc. pose proof (intern_color_spec g color Ha) as H.
  destruct (intern_underline_color g color) as [g' u] eqn:E. destruct H as (_ & Ha' & Hu & Hcol).
  unfold intern_underline_color in E. destruct (decide (color = Default)) as [->|Hd].
  { injection E as <- <-. pose proof (ar_colors g Ha). split_and!; try done.
    unfold underline_color. cbn. by destruct (underline_colors g); [|injection H as ->]. }
  destruct (position color (underline_colors g)) as [i|] eqn:Ei.
  { injection E as <- <-. split_and!; try done.
    apply position_some in Ei. pose proof (lookup_lt_Some _ _ _ Ei). pose proof (ar_colors_len g Ha).
    unfold underline_color. rewrite N.mod_small, Nat2N.id by lia. by rewrite Ei. }
  apply position_none in Ei.
  assert (NoDup (underline_colors g ++ [color])) as Hnd.
  { apply NoDup_app. split; [apply Ha|]. split; [set_solver|apply NoDup_singleton]. }
  assert (length (underline_colors g ++ [color]) <= size p)%nat as Hl.
  { apply nodup_palette; [done|]. set_solver. }
  rewrite length_app in Hl. cbn in Hl. unfold push_color, colors_full in E.
  destruct (Nat.eqb_spec (length (underline_colors g)) 256); [lia|].
  injection E as <- <-. split_and!; try done.
  - cbn. set_solver.
  - split; try done. cbn. by apply prefix_app_r.
  - rewrite length_app, Nat.add_sub, N.mod_small by (cbn; lia). unfold underline_color. cbn.
    rewrite Nat2N.id. by rewrite list_lookup_middle.
Qed.

Lemma load_color p g color :
  loading p g -> color ∈ p ->
  let '(g', u) := intern_underline_color g color in
  loading p g' /\ grows g g' /\ clusters g' = clusters g
  /\ (N.to_nat u < length (underline_colors g'))%nat /\ underline_color g' u = color.
Proof.
  intros [Ha Hpal Hsize Hgc] Hc. pose proof (color_within p g color Ha Hpal Hsize Hc) as H.
  destruct (intern_underline_color g color) as [g' u].
  destruct H as (? & ? & ? & ? & ? & ? & ?). split_and!; try done. split; [done..|congruence].
Qed.

(** Below 4096 graphemes no text needs a compaction. *)
Lemma load_text p g t :
  loading p g -> N.of_nat (length (clusters g)) < 4096 -> t <> [] ->
  let '(g', h) := intern g t in
  loading p g' /\ grows g g' /\ underline_colors g' = underline_colors g
  /\ (length (clusters g') <= S (length (clusters g)))%nat
  /\ h <> 0 /\ clusters g' !! N.to_nat h = Some t.
Proof.
  intros [Ha Hpal Hsize Hgc] Hroom Ht.
  pose proof (intern_spec g t Ha ltac:(unfold U32; lia) Ht) as H.
  destruct (intern g t) as [g' h] eqn:E. destruct H as (_ & Ha' & Hh). unfold intern in E.
  assert (h <> 0) as Hne.
  { intros ->. pose proof (ar_clusters g' Ha') as Hc0. rewrite <- head_lookup in Hh. congruence. }
  destruct (recent_cluster _ _); [injection E as <- <-; split_and!; try done; lia|].
  rewrite Hgc in E. destruct (N.leb_spec 4096 (N.of_nat (length (clusters g)))); [lia|].
  injection E as <- <-. split_and!; try done.
  - split; try done. cbn. by apply prefix_app_r.
  - cbn. rewrite length_app. cbn. lia.
Qed.

(** The cells of the line under construction: their handles are in range and
    they resolve to [ss]. *)
Definition laid_out (g : Grid) (cs : list Cell) (ss : list StoredCell) : Prop :=
  Forall (cell_ok g) cs /\ map (resolve g) cs = ss.

Lemma grows_cell_ok g g' c : grows g g' -> arena_wf g' -> hyperlinks g' = hyperlinks g -> cell_ok g c -> cell_ok g' c.
Proof.
  intros [[k1 E1] [k2 E2] _ _ _ _ _ _] _ El (H1 & H2 & H3 & H4). unfold cell_ok, link_ok.
  rewrite E1, E2, El, !length_app. split_and!; [lia|lia|done|done].
Qed.

Lemma intern_color_links g c : hyperlinks (intern_underline_color g c).1 = hyperlinks g.
Proof.
  unfold intern_underline_color, push_color, compact_underline_colors, pass.
  destruct (decide _); [done|]. case_match; [done|]. destruct (colors_full g); [|done].
  destruct (map_acc _ _ (scrollback g)) as [s sb]. destruct (map_acc _ _ (lines g)) as [[m cl] ls]. cbn.
  case_match; [done|]. by case_match.
Qed.

Lemma insert_middle {A} (pre : list A) x y rest : <[length pre := y]> (pre ++ x :: rest) = pre ++ y :: rest.
Proof. rewrite insert_app_r_alt by done. by rewrite Nat.sub_diag. Qed.

(** The grapheme of a restored cell. *)
Lemma restore_text p g s c0 :
  loading p g -> N.of_nat (length (clusters g) + graphemes [s]) <= 4096 -> s_text s <> [] ->
  cluster c0 = 0 -> is_continuation c0 = false -> ch c0 = default SPACE (head (s_text s)) ->
  exists g2 h, (if (2 <=? length (s_text s))%nat then intern g (s_text s) else (g, 0)) = (g2, h)
    /\ loading p g2 /\ grows g g2 /\ hyperlinks g2 = hyperlinks g /\ underline_colors g2 = underline_colors g
    /\ (length (clusters g2) <= length (clusters g) + graphemes [s])%nat
    /\ (N.to_nat h < length (clusters g2))%nat
    /\ cell_text (clusters g2) (with_cluster c0 h) = s_text s.
Proof.
  intros Hld Hroom Htext Hc0 Hic Hch.
  assert (forall h, is_continuation (with_cluster c0 h) = false) as Hic' by (intros; exact Hic).
  unfold graphemes in *. destruct (Nat.leb_spec 2 (length (s_text s))) as [H2|H2].
  - rewrite filter_cons_True in * by done. cbn [filter length] in *.
    pose proof (load_text p g (s_text s) Hld ltac:(cbn in Hroom; lia) Htext) as Ht.
    pose proof (intern_others g (s_text s)) as Ho. destruct (intern g (s_text s)) as [g2 h].
    destruct Ht as (L2 & G2 & Ec & Hsz & Hne & Hlk). exists g2, h. split_and!; try done.
    + apply Ho.
    + cbn. lia.
    + by eapply lookup_lt_Some.
    + unfold cell_text. rewrite Hic'. cbn. destruct (N.eqb_spec h 0); [done|]. cbn. by rewrite Hlk.
  - exists g, 0. pose proof (ar_clusters g (ld_arena _ _ Hld)) as Hhd. split_and!; try done; [lia| |].
    + destruct (clusters g); [done|cbn; lia].
    + unfold cell_text. rewrite Hic'. cbn. rewrite Hch.
      destruct (s_text s) as [|a [|b t]]; [done|done|cbn in H2; lia].
Qed.

(** One glyph: its lead, and the second half of a wide one. *)
Lemma restore_glyph p g l pre rest s n :
  loading p g -> s_underline s ∈ p -> N.of_nat (length (clusters g) + graphemes [s]) <= 4096 ->
  s_continuation s = false -> s_text s <> [] -> 1 <= s_width s <= 2 ->
  cells l = pre ++ rest -> length pre = n -> g_width g < U16 ->
  length (cells l) = N.to_nat (g_width g) -> (N.to_nat (s_width s) <= length rest)%nat ->
  let '(g', l') := restore_cell (g, l) (n, s) in
  loading p g' /\ grows g g' /\ hyperlinks g' = hyperlinks g
  /\ (length (clusters g') <= length (clusters g) + graphemes [s])%nat
  /\ wrapped l' = wrapped l /\ l_id l' = l_id l
  /\ exists cs, cells l' = pre ++ cs ++ drop (N.to_nat (s_width s)) rest
       /\ laid_out g' cs (stored_glyph s).
Proof.
  intros Hld Hpal Hroom Hnc Htext Hw Hcells Hpre Hg Hlen Hrest. unfold restore_cell. rewrite Hnc.
  pose proof (load_color p g (s_underline s) Hld Hpal) as H1. pose proof (intern_color_links g (s_underline s)) as Hl1.
  destruct (intern_underline_color g (s_underline s)) as [g1 u]. cbn in Hl1.
  destruct H1 as (L1 & G1 & Ecl & Hu & Hcol). set (c0 := {| ch := _ |}).
  unfold set_stored_on_line. assert (g_width g1 = g_width g) as Ew by apply G1. rewrite Ew.
  rewrite Hcells, length_app in Hlen. rewrite N.mod_small by lia.
  destruct (N.leb_spec (g_width g) (N.of_nat n)); [lia|]. rewrite bool_decide_eq_false_2 by done. cbn [orb].
  destruct (restore_text p g1 s c0 L1) as (g2 & h & -> & L2 & G2 & Hl2 & Ecol & Hsz & Hh & Htx);
    [by rewrite Ecl|done|done|apply N.eqb_neq; cbn; lia|done|].
  assert (underline_color g2 u = s_underline s) as Hcol2 by (unfold underline_color in *; by rewrite Ecol).
  assert (cell_ok g2 (with_cluster c0 h)) as Hok.
  { split; [done|]. split; [by rewrite Ecol|]. split; [by left|]. cbn. lia. }
  assert (resolve g2 (with_cluster c0 h) = s) as Hres.
  { unfold resolve, cell_text_owned. rewrite Htx. cbn. rewrite Hcol2. unfold store_cell. cbn.
    destruct s as [text sf sb sa su sw sc]. cbn in *. subst sc. unfold is_continuation. cbn.
    replace (N.max sw 1) with sw by lia. f_equal. apply N.eqb_neq. lia. }
  assert (width (with_cluster c0 h) = s_width s) as Hwd by (cbn; lia).
  destruct rest as [|r rest]; [cbn in Hrest; lia|].
  split; [done|]. split; [by eapply grows_trans|]. split; [congruence|]. split; [by rewrite Ecl in Hsz|].
  unfold stored_glyph. rewrite Hwd. replace (g_width g2) with (g_width g) by (rewrite <- Ew; symmetry; apply G2).
  destruct (N.eqb_spec (s_width s) 2) as [E2|E2].
  - assert (N.of_nat n +16 1 = N.of_nat n + 1) as Eadd.
    { apply wadd_small. cbn in Hlen, Hrest. unfold U16 in *. lia. }
    rewrite Eadd. cbn in Hlen, Hrest. destruct rest as [|r2 rest]; [cbn in Hrest; lia|]. cbn in Hlen.
    destruct (N.ltb_spec (N.of_nat n + 1) (g_width g)); [|lia]. cbn [andb]. split; [done|]. split; [done|].
    exists [with_cluster c0 h; continuation_of (with_cluster c0 h)]. split.
    + cbn [with_cells cells]. rewrite Hcells. replace (N.to_nat (N.of_nat n)) with (length pre) by lia.
      rewrite insert_middle. replace (N.to_nat (N.of_nat n + 1)) with (length (pre ++ [with_cluster c0 h])) by (rewrite length_app; cbn; lia).
      change (pre ++ with_cluster c0 h :: r2 :: rest) with (pre ++ [with_cluster c0 h] ++ r2 :: rest).
      rewrite app_assoc, insert_middle, <- app_assoc. rewrite E2. done.
    + split.
      * constructor; [done|]. constructor; [|done]. destruct Hok as (_ & Hk2 & Hk3 & _).
        apply plain_ok; [apply L2|done|cbn; lia|done].
      * cbn [map]. rewrite Hres. f_equal. f_equal. unfold resolve, store_cell, stored_continuation. cbn.
        by rewrite Hcol2.
  - cbn [andb]. split; [done|]. split; [done|]. exists [with_cluster c0 h]. split.
    + cbn [with_cells cells]. rewrite Hcells. replace (N.to_nat (N.of_nat n)) with (length pre) by lia.
      rewrite insert_middle. replace (s_width s) with 1 by lia. done.
    + split; [by constructor|]. cbn [map]. by rewrite Hres.
Qed.

Lemma laid_out_app g a b ss ts : laid_out g a ss -> laid_out g b ts -> laid_out g (a ++ b) (ss ++ ts).
Proof. intros [A1 <-] [B1 <-]. split; [by apply Forall_app|apply map_app]. Qed.

Lemma laid_out_grows g g' cs ss :
  grows g g' -> arena_wf g' -> hyperlinks g' = hyperlinks g -> laid_out g cs ss -> laid_out g' cs ss.
Proof.
  intros G Ha El [Hc <-]. split.
  - eapply Forall_impl; [exact Hc|]. intros c. by apply grows_cell_ok.
  - apply map_ext_in. intros c Hin%list_elem_of_In. rewrite Forall_forall in Hc.
    apply resolve_prefix; [apply G|apply G|by apply Hc].
Qed.

Lemma length_glyph s : 1 <= s_width s <= 2 -> length (stored_glyph s) = N.to_nat (s_width s).
Proof. intros H. unfold stored_glyph. destruct (N.eqb_spec (s_width s) 2); cbn; lia. Qed.

Lemma graphemes_glyph s : graphemes (stored_glyph s) = graphemes [s].
Proof.
  unfold stored_glyph. destruct (_ =? 2); [|done]. change [s; stored_continuation s] with ([s] ++ [stored_continuation s]).
  rewrite graphemes_app. unfold graphemes at 2. rewrite filter_cons_False by (cbn; lia). cbn. lia.
Qed.

(** The second half of a glyph is skipped: its lead has laid it down. *)
Lemma restore_stored_glyph gl n s :
  foldl restore_cell gl (imap (fun i s => ((n + i)%nat, s)) (stored_glyph s)) = restore_cell gl (n, s).
Proof.
  unfold stored_glyph. destruct (_ =? 2); cbn [imap foldl]; rewrite Nat.add_0_r; [|done].
  by destruct (restore_cell gl (n, s)).
Qed.

Lemma imap_shift {A} n (a b : list A) :
  imap (fun i s => ((n + i)%nat, s)) (a ++ b)
  = imap (fun i s => ((n + i)%nat, s)) a ++ imap (fun i s => ((n + length a + i)%nat, s)) b.
Proof. rewrite imap_app. f_equal. apply imap_ext. intros. cbn. f_equal. lia. Qed.

Lemma restore_cells p ss : forall g l pre rest n,
  restorable ss ->
  loading p g -> (forall s, s ∈ ss -> s_underline s ∈ p) ->
  N.of_nat (length (clusters g) + graphemes ss) <= 4096 -> g_width g < U16 ->
  cells l = pre ++ rest -> length pre = n -> length (cells l) = N.to_nat (g_width g) ->
  (length ss <= length rest)%nat ->
  let '(g', l') := foldl restore_cell (g, l) (imap (fun i s => ((n + i)%nat, s)) ss) in
  loading p g' /\ grows g g' /\ hyperlinks g' = hyperlinks g
  /\ (length (clusters g') <= length (clusters g) + graphemes ss)%nat
  /\ wrapped l' = wrapped l /\ l_id l' = l_id l
  /\ exists cs, cells l' = pre ++ cs ++ drop (length ss) rest /\ laid_out g' cs ss.
Proof.
  intros g l pre rest n Hr. revert g l pre rest n.
  induction Hr as [|s ss Hnc Ht Hw _ IH]; intros g l pre rest n Hld Hp Hroom Hg Hc Hn Hlen Hss.
  { cbn. split_and!; try done; [lia|]. exists []. split; [done|]. by split. }
  rewrite graphemes_app, graphemes_glyph in *. rewrite length_app, (length_glyph s Hw) in *.
  assert (s ∈ stored_glyph s) as Hs by (unfold stored_glyph; destruct (_ =? 2); set_solver).
  pose proof (restore_glyph p g l pre rest s n Hld ltac:(set_solver) ltac:(lia) Hnc Ht Hw Hc Hn Hg Hlen ltac:(lia)) as H1.
  rewrite imap_shift, foldl_app, restore_stored_glyph, (length_glyph s Hw).
  destruct (restore_cell (g, l) (n, s)) as [g1 l1].
  destruct H1 as (L1 & G1 & Hl1 & Hsz & Ew & Ei & cs & Ecs & Hout).
  assert (length cs = N.to_nat (s_width s)) as Hcs.
  { destruct Hout as [_ E]. apply (f_equal length) in E. by rewrite length_map, length_glyph in E. }
  specialize (IH g1 l1 (pre ++ cs) (drop (N.to_nat (s_width s)) rest) (n + N.to_nat (s_width s))%nat L1 ltac:(set_solver) ltac:(lia)).
  destruct (gr_size _ _ G1) as [Ewd _]. rewrite Ewd in IH.
  specialize (IH Hg ltac:(by rewrite <- app_assoc) ltac:(rewrite length_app; lia)).
  specialize (IH ltac:(rewrite <- Hlen, Ecs, Hc, !length_app, length_drop; lia) ltac:(rewrite length_drop; lia)).
  destruct (foldl restore_cell (g1, l1) _) as [g2 l2].
  destruct IH as (L2 & G2 & Hl2 & Hsz2 & Ew2 & Ei2 & ds & Eds & Hout2).
  split; [done|]. split; [by eapply grows_trans|]. split; [congruence|]. split; [lia|].
  split; [congruence|]. split; [congruence|]. exists (cs ++ ds). split.
  - rewrite Eds, drop_drop, <- !app_assoc. done.
  - apply laid_out_app; [|done]. eapply laid_out_grows; [exact G2|apply L2|done|done].
Qed.

(** A line that fits the grid. *)
Definition line_fits (w : N) (l : StoredLine) : Prop :=
  restorable (s_cells l) /\ (length (s_cells l) <= N.to_nat w)%nat
  /\ (s_wrapped l = true -> length (s_cells l) = N.to_nat w) /\ line_trimmed l.

Lemma line_from_stored_spec p g stored :
  loading p g -> line_fits (g_width g) stored -> (forall s, s ∈ s_cells stored -> s_underline s ∈ p) ->
  N.of_nat (length (clusters g) + graphemes (s_cells stored)) <= 4096 -> g_width g < U16 ->
  let '(g', l) := line_from_stored g stored in
  loading p g' /\ grows (with_next_id g (next_line_id g + 1)) g' /\ hyperlinks g' = hyperlinks g
  /\ (length (clusters g') <= length (clusters g) + graphemes (s_cells stored))%nat
  /\ l_id l = next_line_id g /\ wrapped l = s_wrapped stored /\ length (cells l) = N.to_nat (g_width g)
  /\ Forall (cell_ok g') (cells l) /\ resolved_line g' l = stored.
Proof.
  intros Hld (Hr & Hlen & Hfull & Htrim) Hp Hroom Hg. unfold line_from_stored, alloc_line_id.
  set (g0 := with_next_id g (next_line_id g + 1)). set (l0 := with_wrapped _ _).
  assert (loading p g0) as Hld0 by (destruct Hld as [[] ? ? ?]; split; [by split|done..]).
  change (g_width g0) with (g_width g). rewrite take_ge by done.
  pose proof (restore_cells p (s_cells stored) g0 l0 [] (cells l0) 0 Hr Hld0 Hp Hroom Hg eq_refl eq_refl) as H.
  assert (length (cells l0) = N.to_nat (g_width g)) as Hl0 by (cbn; by rewrite length_replicate).
  rewrite Hl0 in H. specialize (H eq_refl Hlen).
  change (imap pair (s_cells stored)) with (imap (fun i s => ((0 + i)%nat, s)) (s_cells stored)).
  destruct (foldl restore_cell (g0, l0) _) as [g' l]. destruct H as (L & G & Hlk & Hsz & Ew & Ei & cs & Ecs & Hout).
  assert (length cs = length (s_cells stored)) as Hcs by (destruct Hout as [_ E]; by rewrite <- E, length_map).
  split; [done|]. split; [done|]. split; [done|]. split; [done|]. split; [done|]. split; [done|].
  assert (cells l = cs ++ replicate (N.to_nat (g_width g) - length cs) default_cell) as Ec.
  { rewrite Ecs. cbn. by rewrite drop_replicate, Hcs. }
  split; [rewrite Ec, length_app, length_replicate; lia|]. split.
  - rewrite Ec. apply Forall_app. split; [apply Hout|]. apply Forall_replicate, cell_ok_default, L.
  - rewrite resolved_kept; [|apply L|].
    2: { destruct (gr_size _ _ G) as [E _]. cbn in E. rewrite E. unfold hist_row.
         rewrite Ec, length_app, length_replicate. lia. }
    rewrite <- Htrim. rewrite Ew. change (wrapped l0) with (s_wrapped stored). unfold stored_line, kept.
    rewrite Ew. change (wrapped l0) with (s_wrapped stored). destruct (s_wrapped stored) eqn:E.
    + rewrite Ec, Hcs, Hfull, Nat.sub_diag by done. cbn. rewrite app_nil_r. f_equal. apply Hout.
    + f_equal. destruct (trim_cells_spec (cells l)) as [k Ek].
      pose proof (fun n => resolve_blanks g' n (ld_arena _ _ L)) as Hb.
      rewrite <- (trim_by_blanks _ (map (resolve g') (trim_cells (cells l))) _ (Hb k)), <- map_app, <- Ek, Ec.
      rewrite map_app, trim_by_blanks by apply Hb. f_equal. apply Hout.
Qed.

Lemma resolved_trim g l :
  (length (cells l) <= N.to_nat (g_width g))%nat -> resolved_line g (trim_default_tail l) = resolved_line g l.
Proof.
  intros Hl. unfold trim_default_tail. destruct (wrapped l) eqn:Ew; [done|]. unfold resolved_line.
  cbn [with_cells cells wrapped]. f_equal. f_equal. destruct (trim_cells_spec (cells l)) as [k E].
  revert E Hl. generalize (trim_cells (cells l)) as t. intros t -> Hl.
  rewrite length_app, length_replicate in Hl |- *. rewrite <- app_assoc, <- replicate_add.
  f_equal. f_equal. lia.
Qed.

Lemma resolved_line_prefix g g' l :
  clusters g `prefix_of` clusters g' -> underline_colors g `prefix_of` underline_colors g' ->
  g_width g' = g_width g -> arena_wf g -> Forall (cell_ok g) (cells l) ->
  resolved_line g' l = resolved_line g l.
Proof.
  intros Hc Hu Hw Ha Hl. unfold resolved_line. rewrite Hw. f_equal. apply map_ext_in. intros c Hin%list_elem_of_In.
  apply resolve_prefix; [done|done|]. apply elem_of_app in Hin as [Hin|Hin].
  - rewrite Forall_forall in Hl. by apply Hl.
  - apply elem_of_replicate in Hin as [-> _]. by apply cell_ok_default.
Qed.

(** A grid whose history is being loaded: [ls] are in, the screen is that of
    [g0]. *)
Record loaded (p : gset Color) (g0 g : Grid) (ls : list StoredLine) : Prop := {
  lo_loading : loading p g;
  lo_ids : ids_wf g;
  lo_rows : Forall (hist_row (N.to_nat (g_width g0))) (scrollback g);
  lo_lines : map (resolved_line g) (scrollback g) = ls;
  lo_size : g_width g = g_width g0 /\ g_height g = g_height g0;
  lo_screen : lines g = lines g0;
  lo_damage : damage g = damage g0 /\ any_damage g = any_damage g0 /\ pending_scroll_up g = pending_scroll_up g0;
  lo_limit : scrollback_limit g = scrollback_limit g0 }.

Lemma load_line_spec p g0 g ls l :
  loaded p g0 g ls -> line_fits (g_width g0) l -> (forall s, s ∈ s_cells l -> s_underline s ∈ p) ->
  N.of_nat (length (clusters g) + graphemes (s_cells l)) <= 4096 -> g_width g0 < U16 ->
  loaded p g0 (load_line g l) (ls ++ [l])
  /\ (length (clusters (load_line g l)) <= length (clusters g) + graphemes (s_cells l))%nat.
Proof.
  intros [Hld Hi Hrows Hls [Ew Eh] Es (D1 & D2 & D3) El] Hfit Hp Hroom Hg. rewrite <- Ew in Hrows, Hfit, Hg.
  pose proof (line_from_stored_spec p g l Hld Hfit Hp Hroom Hg) as H. unfold load_line.
  destruct (line_from_stored g l) as [g' l'].
  destruct H as (L & G & Hlk & Hsz & Eid & Ewr & Hlen & Hok & Hres).
  destruct G as [Gc Gu Gh Gl [Gw Ght] (G1 & G2 & G3) Glim Gid]. cbn in *.
  split; [|done]. set (t := trim_default_tail l').
  assert (Forall (fun l => Forall (cell_ok g') (cells l)) (scrollback g')) as Hsb.
  { pose proof (ar_cells _ (ld_arena _ _ L)) as Hall. by apply Forall_app in Hall as [? _]. }
  assert (Forall (cell_ok g') (cells t)) as Ht by by apply trim_cells_elem.
  split; cbn [with_history scrollback lines g_width g_height damage any_damage pending_scroll_up scrollback_limit].
  - destruct L as [La ? ? ?]. split; [|done..].
    destruct La as [? ? ? ? ? ? ? La ?]. split; try done. cbn. rewrite <- app_assoc.
    apply Forall_app in La as [La1 La2]. apply Forall_app. split; [done|]. by constructor.
  - destruct Hi as [Hn Hf].
    assert (map l_id ((scrollback g ++ [t]) ++ lines g) ≡ₚ next_line_id g :: ids g) as E.
    { unfold ids. rewrite <- app_assoc, !map_app. cbn. unfold t. rewrite id_trim, Eid.
      by rewrite <- Permutation_middle. }
    assert (ids (with_history g' (scrollback g' ++ [t]) (scrollback_limit g')) ≡ₚ next_line_id g :: ids g) as E2.
    { unfold ids at 1. cbn. by rewrite Gh, Gl. }
    split; rewrite E2; cbn [with_history next_line_id]; rewrite ?Gid.
    + constructor; [|done]. intros Hin. rewrite Forall_forall in Hf. specialize (Hf _ Hin). cbn in Hf. lia.
    + constructor; [lia|]. eapply Forall_impl; [exact Hf|]. cbn. lia.
  - rewrite Gh, <- Ew. apply Forall_app. split; [done|]. constructor; [|done]. apply trim_hist_row.
    split; [lia|intros _; lia].
  - rewrite map_app. cbn [map]. f_equal.
    + rewrite Gh, <- Hls. apply map_ext_in. intros l0 Hin%list_elem_of_In.
      apply (resolved_line_prefix g); [exact Gc|exact Gu|exact Gw|apply Hld|].
      pose proof (ar_cells _ (ld_arena _ _ Hld)) as Hall. rewrite Forall_forall in Hall. apply Hall. set_solver.
    + f_equal. change (resolved_line g' t = l). rewrite <- Hres. apply resolved_trim. rewrite Gw. lia.
  - by rewrite Gw, Ght, Ew, Eh.
  - by rewrite Gl, Es.
  - by rewrite G1, G2, G3.
  - by rewrite Glim, El.
Qed.

Lemma load_lines_spec p g0 ls : forall g done_,
  loaded p g0 g done_ -> Forall (line_fits (g_width g0)) ls ->
  (forall s, s ∈ stored_cells ls -> s_underline s ∈ p) ->
  N.of_nat (length (clusters g) + graphemes (stored_cells ls)) <= 4096 -> g_width g0 < U16 ->
  loaded p g0 (foldl load_line g ls) (done_ ++ ls).
Proof.
  induction ls as [|l ls IH]; intros g done_ Hl Hfit Hp Hroom Hg; cbn [foldl]; [by rewrite app_nil_r|].
  apply Forall_cons in Hfit as [Hf Hfit]. unfold stored_cells in *. cbn [map concat] in *.
  rewrite graphemes_app in Hroom.
  destruct (load_line_spec p g0 g done_ l Hl Hf ltac:(set_solver) ltac:(lia) Hg) as [Hl1 Hsz].
  replace (done_ ++ l :: ls) with ((done_ ++ [l]) ++ ls) by (by rewrite <- app_assoc).
  apply IH; [done|done|set_solver|lia|done].
Qed.

(** The history limit of a fresh grid. *)
Definition fresh_limit : N := 10000.

(** A restored history exports what was restored. A fresh grid of the
    same width that loads lines of whole glyphs, with at most 255 underline
    colours besides the default and fewer than 4096 graphemes, stays well formed
    with a blank screen, and its history resolves to exactly the last lines of
    those loaded, up to the history limit. *)
Theorem restored_history w h ls :
  w < U16 -> h < U16 -> Forall (line_fits w) ls ->
  (size (palette (stored_cells ls)) <= 256)%nat -> (1 + graphemes (stored_cells ls) <= 4096)%nat ->
  let g := load_scrollback (new w h) ls in
  wf g /\ lines g = lines (new w h) /\ is_dirty g = false
  /\ map (store_line g) (range 0 (scrollback_len g)) = keep_last fresh_limit ls.
Proof.
  intros Hw Hh Hfit Hsize Hroom. cbn zeta. unfold load_scrollback. set (g0 := new w h).
  pose proof (new_grid_wf w h Hw Hh : wf g0) as Hwf.
  assert (loaded (palette (stored_cells ls)) g0 (with_history g0 [] (scrollback_limit g0)) []) as H0.
  { split; try done; [split; try done; [apply Hwf|]|apply Hwf].
    intros c Hc. apply list_elem_of_singleton in Hc as ->. unfold palette. set_solver. }
  pose proof (load_lines_spec _ _ ls _ _ H0 Hfit) as H. cbn [app] in H.
  specialize (H ltac:(intros s Hs; unfold palette; apply elem_of_union_r, elem_of_list_to_set, list_elem_of_fmap_2, Hs)).
  specialize (H ltac:(cbn; lia) Hw). set (g := foldl load_line _ ls) in *. clearbody g.
  destruct H as [[La _ _ _] Hi Hrows Hls [Ew Eh] Es (D1 & D2 & D3) El].
  assert (forall l, l ∈ keep_last (scrollback_limit g) (scrollback g) -> l ∈ scrollback g) as Hin.
  { intros l Hl. eapply elem_of_submseteq; [exact Hl|]. apply sublist_submseteq, keep_last_sublist. }
  set (g2 := with_history g (keep_last _ _) _).
  assert (ids g2 `sublist_of` ids g) as Hids by (apply fmap_sublist, sublist_app; [apply keep_last_sublist|done]).
  assert (wf g2) as Hwf2.
  { split.
    - destruct Hwf as [[S1 S2 S3 S4 S5] _ _ _]. split; cbn.
      + by rewrite Ew, Eh.
      + by rewrite Es, Eh.
      + by rewrite Es, Ew.
      + rewrite Ew. apply Forall_forall. intros l Hl. rewrite Forall_forall in Hrows. by apply Hrows, Hin.
      + apply keep_last_length.
    - destruct Hwf as [_ [W1 W2 W3 W4] _ _]. split; cbn; by rewrite ?D1, ?D2, ?D3, ?Ew, ?Eh.
    - destruct Hi. split; [by eapply NoDup_sublist|by eapply Forall_sublist].
    - destruct La as [? ? ? ? ? ? ? La ?]. split; try done. cbn.
      eapply Forall_sublist; [|exact La]. apply sublist_app; [apply keep_last_sublist|done]. }
  split; [done|]. split; [done|]. split; [unfold is_dirty; cbn; by rewrite D2|].
  assert (map (line g2) (range 0 (scrollback_len g2)) = map Some (scrollback g2)) as Er.
  { transitivity (map (fun i => scrollback g2 !! N.to_nat i) (range 0 (scrollback_len g2))).
    2: { rewrite lookups_range by (unfold scrollback_len; lia). done. }
    apply map_ext_in. intros i Hi'%list_elem_of_In%elem_of_range. unfold line.
    by destruct (N.ltb_spec i (scrollback_len g2)); [|lia]. }
  rewrite (map_via (store_line g2) (line g2) (resolved_line g2) _ _ Er).
  - rewrite <- Hls. change (resolved_line g2) with (resolved_line g). cbn [g2 with_history scrollback].
    unfold keep_last. rewrite El. change (scrollback_limit g0) with fresh_limit.
    by rewrite length_map, fmap_drop.
  - intros i l Hl Hi'. apply store_line_resolved; [done|].
    pose proof (sh_history _ (wf_shape _ Hwf2)) as Hh'. rewrite Forall_forall in Hh'. by destruct (Hh' l Hl).
Qed.

(** The bounds are needed: the line under construction is not on the grid, so
    a compaction its own cells cause renumbers the arena without it.  One line
    with 256 underline colours comes back with the last colour on its first cell
    and none on the others. *)
Definition rainbow (n : nat) : StoredLine := {|
  s_cells := map (fun i => {| s_text := [65]; s_fg := Default; s_bg := Default; s_attrs := NONE;
      s_underline := Rgb 1 (N.of_nat i / 256) (N.of_nat i mod 256); s_width := 1; s_continuation := false |})
    (seq 0 n);
  s_wrapped := false |}.

Example rainbow_255 : store_line (load_scrollback (new 255 1) [rainbow 255]) 0 = rainbow 255.
Proof. vm_compute. reflexivity. Qed.

Example rainbow_256_lost :
  map s_underline (s_cells (store_line (load_scrollback (new 256 1) [rainbow 256]) 0))
  = Rgb 1 0 255 :: replicate 254 Default ++ [Rgb 1 0 255].
Proof. vm_compute. reflexivity. Qed.

Lemma restored_history_witness :
  Forall (line_fits 4) sample_lines
  /\ let g := load_scrollback (new 4 2) sample_lines in
     map (store_line g) (range 0 (scrollback_len g)) = sample_lines.
Proof.
  assert (Forall (line_fits 4) sample_lines) as H1 by (repeat constructor; vm_compute; try done).
  split; [done|].
  refine (proj2 (proj2 (proj2 (restored_history 4 2 sample_lines _ _ H1 _ _)))); vm_compute; try done; lia.
Defined.
