(* ===== verification/Freeze.v ===== *)
(** * Freezing the screen

    [Grid::freeze_screen] of [uniterm-core/src/grid.rs]: the copy of the screen
    rows that copy-mode holds while a selection is in progress.  The theorem: it
    looks like the screen. *)

From S2P Require Import Prelude Cell Grid GridInv GridEdit GridScroll Stored Restore.

(** ** Freezing the screen *)

Definition freeze_cell (g : Grid) (y : N) (f : Grid) (p : nat * Cell) : Grid :=
  let '(x, cell) := p in
  let '(f, copy) :=
    if negb (cluster cell =? 0) then
      match clusters g !! N.to_nat (cluster cell) with
      | Some text => let '(f, h) := intern f text in (f, with_cluster cell h)
      | None => (f, with_ch (with_cluster cell 0) REPLACEMENT)
      end
    else (f, cell) in
  let '(f, copy) :=
    if negb (c_underline cell =? 0) then
      let '(f, h) := intern_underline_color f (underline_color g (c_underline cell)) in
      (f, with_underline copy h)
    else (f, copy) in
  let '(f, copy) :=
    if negb (c_hyperlink cell =? 0) then
      match hyperlink g (c_hyperlink cell) with
      | Some uri => let '(f, h) := intern_hyperlink f uri in (f, with_hyperlink copy h)
      | None => (f, with_hyperlink copy 0)
      end
    else (f, copy) in
  put f (N.of_nat x) y copy.

Definition freeze_row (g f : Grid) (p : nat * Line) : Grid :=
  let '(y, l) := p in
  let f := set_row_wrapped f (N.of_nat y) (wrapped l) in
  foldl (freeze_cell g (N.of_nat y)) f (imap pair (take (N.to_nat (g_width g)) (cells l))).

Definition freeze_screen (g : Grid) : Grid :=
  foldl (freeze_row g) (set_scrollback_limit (new (g_width g) (g_height g)) 0) (imap pair (lines g)).

(** ** A frozen screen looks like the screen *)

(** A copy under construction: valid, without history, its colours those of
    the source. *)
Record freezing (g f : Grid) (n : nat) : Prop := {
  fz_wf : wf f;
  fz_history : scrollback f = [] /\ scrollback_limit f = 0;
  fz_size : g_width f = g_width g /\ g_height f = g_height g;
  fz_clusters : (length (clusters f) <= S n)%nat;
  fz_links : (size (hyperlinks f) <= n)%nat;
  fz_colors : forall c, c ∈ underline_colors f -> c ∈ underline_colors g }.

(** Interned by renumbering the copy's arenas, and perhaps one more entry. *)
Lemma intern_size g t :
  arena_wf g -> N.of_nat (length (clusters g)) < U32 ->
  (length (clusters (intern g t).1) <= S (length (clusters g)))%nat.
Proof.
  intros Ha Hroom. unfold intern. destruct (recent_cluster _ _); [cbn; lia|]. cbn [fst with_clusters clusters].
  rewrite length_app. cbn [length]. destruct (_ <=? _); [|lia].
  destruct (compact_clusters_spec g Ha) as (_ & _ & ?); lia.
Qed.

Lemma intern_link_size g u :
  arena_wf g -> (size (hyperlinks (intern_hyperlink g u).1) <= S (size (hyperlinks g)))%nat.
Proof.
  intros Ha. unfold intern_hyperlink. destruct (_ || _); [cbn; lia|].
  destruct (find_entry _ _) as [[h v]|]; [cbn; lia|].
  set (g1 := if _ <=? _ then compact_hyperlinks g else g).
  assert (size (hyperlinks g1) <= size (hyperlinks g))%nat as Hle.
  { subst g1. destruct (_ <=? _); [|lia]. by apply compact_links_spec. }
  destruct (free_handle _ _ _) as [h n]. cbn. pose proof (map_size_insert h u (hyperlinks g1)) as E.
  destruct (hyperlinks g1 !! h); cbn in E; lia.
Qed.

Lemma intern_link_others g u :
  clusters (intern_hyperlink g u).1 = clusters g /\ underline_colors (intern_hyperlink g u).1 = underline_colors g.
Proof.
  unfold intern_hyperlink. destruct (_ || _); [done|]. destruct (find_entry _ _) as [[h v]|]; [done|].
  set (g1 := if _ <=? _ then compact_hyperlinks g else g).
  assert (clusters g1 = clusters g /\ underline_colors g1 = underline_colors g) as [<- <-] by (subst g1; by destruct (_ <=? _)).
  by destruct (free_handle _ _ _).
Qed.

Lemma size_colors g : arena_wf g -> (size (list_to_set (underline_colors g) : gset Color) <= 256)%nat.
Proof. intros Ha. rewrite size_list_to_set by apply Ha. apply Ha. Qed.

Lemma relooks_freezing g f f' n k :
  freezing g f n -> relooks f f' -> arena_wf f' ->
  (length (clusters f') <= S k)%nat -> (size (hyperlinks f') <= k)%nat ->
  (forall c, c ∈ underline_colors f' -> c ∈ underline_colors g) -> freezing g f' k.
Proof.
  intros [Hwf [Hh Hlim] [S1 S2] _ _ _] Hr Ha Hc Hl Hcol.
  pose proof Hr as (Hsb & _ & Hw & Hht & _ & _ & _ & Elim & _).
  split; [by eapply relooks_wf| | |done|done|done].
  - rewrite Hh in Hsb. rewrite Elim. split; [by inversion Hsb|done].
  - by rewrite Hw, Hht.
Qed.

Lemma freeze_text g f n c :
  arena_wf g -> cell_ok g c -> freezing g f n -> N.of_nat n < U32 - 1 ->
  let '(f', copy) :=
    if negb (cluster c =? 0) then
      match clusters g !! N.to_nat (cluster c) with
      | Some text => let '(f, h) := intern f text in (f, with_cluster c h)
      | None => (f, with_ch (with_cluster c 0) REPLACEMENT)
      end
    else (f, c) in
  relooks f f' /\ arena_wf f' /\ (length (clusters f') <= S (S n))%nat
  /\ underline_colors f' = underline_colors f /\ hyperlinks f' = hyperlinks f
  /\ (N.to_nat (cluster copy) < length (clusters f'))%nat
  /\ cell_text_owned f' copy = cell_text_owned g c
  /\ exists h, copy = with_cluster c h.
Proof.
  intros Hg (Hc & _) [[_ _ _ Ha] _ _ Hn _ _] Hroom. destruct (N.eqb_spec (cluster c) 0) as [E|E]; cbn [negb].
  - split; [by apply relooks_refl|]. split; [done|]. split; [lia|]. split; [done|]. split; [done|].
    pose proof (ar_clusters f Ha). split; [rewrite E; destruct (clusters f); [done|cbn; lia]|].
    split; [unfold cell_text_owned, cell_text; by rewrite E|]. exists (cluster c). by destruct c.
  - destruct (lookup_lt_is_Some_2 _ _ Hc) as [t Et]. rewrite Et.
    assert (t <> []) as Ht.
    { intros ->. apply (ar_texts g Hg). apply list_elem_of_lookup. exists (N.to_nat (cluster c) - 1)%nat.
      destruct (clusters g); [done|]. destruct (N.to_nat (cluster c)) as [|i] eqn:Ei; [lia|].
      cbn in *. by rewrite Nat.sub_0_r. }
    pose proof (intern_spec f t Ha ltac:(unfold U32 in *; lia) Ht) as H. pose proof (intern_others f t) as [O1 O2].
    pose proof (intern_size f t Ha ltac:(unfold U32 in *; lia)) as Hs.
    destruct (intern f t) as [f' h]. cbn in *. destruct H as (Hr & Ha' & Hl).
    split; [done|]. split; [done|]. split; [lia|]. split; [done|]. split; [done|].
    split; [by eapply lookup_lt_Some|]. split; [|by exists h].
    unfold cell_text_owned, cell_text. change (is_continuation (with_cluster c h)) with (is_continuation c).
    destruct (is_continuation c); [done|]. cbn. rewrite Et, Hl. cbn.
    assert (h <> 0) as Hh.
    { intros ->. pose proof (ar_clusters f' Ha') as Hhd. rewrite <- head_lookup in Hl. congruence. }
    by destruct (N.eqb_spec (cluster c) 0), (N.eqb_spec h 0).
Qed.

Lemma freeze_underline g f c u :
  arena_wf g -> arena_wf f -> (forall c, c ∈ underline_colors f -> c ∈ underline_colors g) ->
  (N.to_nat u < length (underline_colors g))%nat -> c_underline c = u ->
  let '(f', copy) :=
    if negb (u =? 0) then
      let '(f, h) := intern_underline_color f (underline_color g u) in (f, with_underline c h)
    else (f, c) in
  relooks f f' /\ arena_wf f' /\ clusters f' = clusters f /\ hyperlinks f' = hyperlinks f
  /\ (forall c, c ∈ underline_colors f' -> c ∈ underline_colors g)
  /\ (N.to_nat (c_underline copy) < length (underline_colors f'))%nat
  /\ underline_color f' (c_underline copy) = underline_color g u
  /\ exists h, copy = with_underline c h.
Proof.
  intros Hg Hf Hsub Hu Ec. pose proof (ar_colors g Hg) as Dg. pose proof (ar_colors f Hf) as Df.
  destruct (N.eqb_spec u 0) as [->|E]; cbn [negb].
  - split; [by apply relooks_refl|]. split; [done|]. split; [done|]. split; [done|]. split; [done|].
    rewrite Ec. unfold underline_color. destruct (underline_colors f), (underline_colors g); try done.
    split; [cbn; lia|]. split; [by injection Dg as ->; injection Df as ->|]. exists 0. rewrite <- Ec. by destruct c.
  - assert (underline_color g u ∈ underline_colors g) as Hin.
    { destruct (lookup_lt_is_Some_2 _ _ Hu) as [x Hx]. unfold underline_color. rewrite Hx. cbn.
      by eapply list_elem_of_lookup_2. }
    pose proof (color_within (list_to_set (underline_colors g)) f (underline_color g u) Hf
      ltac:(intros ? ?; apply elem_of_list_to_set; auto) (size_colors g Hg)
      ltac:(by apply elem_of_list_to_set)) as H1.
    pose proof (intern_color_spec f (underline_color g u) Hf) as H2.
    pose proof (intern_color_links f (underline_color g u)) as H3.
    destruct (intern_underline_color f (underline_color g u)) as [f' h]. cbn in H3.
    destruct H1 as (Ha & Hs & _ & Hc & _ & Hh & Hcol). destruct H2 as (Hr & _).
    split; [done|]. split; [done|]. split; [done|]. split; [done|].
    split; [intros x Hx; specialize (Hs x Hx); by apply elem_of_list_to_set in Hs|].
    split; [done|]. split; [done|]. by exists h.
Qed.

Lemma freeze_link g f c l n :
  arena_wf g -> arena_wf f -> link_ok g l -> c_hyperlink c = l ->
  (size (hyperlinks f) <= n)%nat -> N.of_nat n < U32 - 1 ->
  let '(f', copy) :=
    if negb (l =? 0) then
      match hyperlink g l with
      | Some uri => let '(f, h) := intern_hyperlink f uri in (f, with_hyperlink c h)
      | None => (f, with_hyperlink c 0)
      end
    else (f, c) in
  relooks f f' /\ arena_wf f' /\ clusters f' = clusters f /\ underline_colors f' = underline_colors f
  /\ (size (hyperlinks f') <= S n)%nat
  /\ link_ok f' (c_hyperlink copy) /\ hyperlink f' (c_hyperlink copy) = hyperlink g l
  /\ exists h, copy = with_hyperlink c h.
Proof.
  intros Hg Hf Hl Ec Hn Hroom. destruct (N.eqb_spec l 0) as [->|E]; cbn [negb].
  - split; [by apply relooks_refl|]. split; [done|]. split; [done|]. split; [done|]. split; [lia|].
    rewrite Ec. split; [by left|]. split; [done|]. exists 0. rewrite <- Ec. by destruct c.
  - destruct Hl as [->|[u Hu]]; [done|].
    assert (hyperlink g l = Some u) as -> by (unfold hyperlink; by destruct (N.eqb_spec l 0)).
    pose proof (intern_link_spec f u Hf ltac:(lia)) as H1. pose proof (intern_link_size f u Hf) as H2.
    destruct (intern_link_others f u) as [O1 O2].
    destruct (intern_hyperlink f u) as [f' h]. cbn in *. destruct H1 as (Hr & Ha & Hok & Hh).
    rewrite (ar_uris g Hg l u Hu) in Hh.
    split; [done|]. split; [done|]. split; [done|]. split; [done|]. split; [lia|].
    split; [done|]. split; [done|]. by exists h.
Qed.

Lemma relooks_clusters_text f f' c : clusters f' = clusters f -> cell_text_owned f' c = cell_text_owned f c.
Proof. intros E. unfold cell_text_owned. by rewrite E. Qed.

Lemma freeze_copy g f n c :
  arena_wf g -> cell_ok g c -> freezing g f n -> N.of_nat n < U32 - 1 ->
  exists f' copy, (forall x y, freeze_cell g y f (x, c) = put f' (N.of_nat x) y copy)
    /\ relooks f f' /\ freezing g f' (S n) /\ cell_ok f' copy /\ look_of f' copy = look_of g c.
Proof.
  intros Hg Hok Hf Hroom. pose proof Hok as (Hc & Hu & Hl & Hw).
  pose proof (freeze_text g f n c Hg Hok Hf Hroom) as H1. unfold freeze_cell.
  destruct (if negb (cluster c =? 0) then _ else _) as [f1 c1].
  destruct H1 as (R1 & A1 & N1 & U1 & L1 & B1 & T1 & h1 & ->).
  pose proof (freeze_underline g f1 (with_cluster c h1) (c_underline c) Hg A1
    ltac:(rewrite U1; apply Hf) Hu eq_refl) as H2.
  destruct (if negb (c_underline c =? 0) then _ else _) as [f2 c2].
  destruct H2 as (R2 & A2 & N2 & L2 & S2 & B2 & T2 & h2 & ->).
  pose proof (freeze_link g f2 (with_underline (with_cluster c h1) h2) (c_hyperlink c) n Hg A2 Hl eq_refl
    ltac:(rewrite L2, L1; apply Hf) Hroom) as H3.
  destruct (if negb (c_hyperlink c =? 0) then _ else _) as [f3 c3].
  destruct H3 as (R3 & A3 & N3 & U3 & S3 & B3 & T3 & h3 & ->).
  exists f3, (with_hyperlink (with_underline (with_cluster c h1) h2) h3).
  assert (relooks f f3) as R by (eapply relooks_trans; [exact R1|]; by eapply relooks_trans).
  split; [done|]. split; [done|]. split; [|split].
  - eapply relooks_freezing; [exact Hf|done|done| |done|by rewrite U3]. by rewrite N3, N2.
  - split; [cbn in *; by rewrite N3, N2|]. split; [cbn in *; by rewrite U3|]. by split.
  - unfold look_of. cbn in *.
    assert (cell_text_owned f3 (with_hyperlink (with_underline (with_cluster c h1) h2) h3) = cell_text_owned g c) as ->.
    { rewrite <- T1. unfold cell_text_owned. by rewrite N3, N2. }
    unfold underline_color in *. rewrite U3, T2, T3. done.
Qed.

Lemma relooks_wrapped f f' : relooks f f' -> map wrapped (lines f') = map wrapped (lines f).
Proof. intros (_ & Hls & _). induction Hls as [|l l' ls ls' (Hw & _) _ IH]; [done|]. cbn. by rewrite Hw, IH. Qed.

Lemma put_wf g x y c : wf g -> cell_ok g c -> wf (put g x y c).
Proof.
  intros [Hs [D1 D2 D3 D4] [I1 I2] Ha] Hc. split; [by apply put_shape|by split| |by apply put_arena].
  split; [by rewrite put_ids|]. rewrite put_ids. exact I2.
Qed.

Lemma put_wrapped f x y c : map wrapped (lines (put f x y c)) = map wrapped (lines f).
Proof. cbn. by apply map_alter_same. Qed.

(** Rows above [y] and the columns of [y] before [k] are copied. *)
Record frozen_to (g f : Grid) (y k : nat) : Prop := {
  ft_freezing : freezing g f (y * N.to_nat (g_width g) + k);
  ft_looks : forall x' y', x' < g_width g -> y' < g_height g ->
    (N.to_nat y' < y \/ N.to_nat y' = y /\ N.to_nat x' < k)%nat ->
    look_of f (peek f x' y') = look_of g (peek g x' y') }.

Definition flags_to (g f : Grid) (y : nat) : Prop :=
  take y (map wrapped (lines f)) = take y (map wrapped (lines g)).

Lemma freeze_cell_step g f y k c :
  wf g -> frozen_to g f y k -> (y < N.to_nat (g_height g))%nat -> (k < N.to_nat (g_width g))%nat ->
  get g (N.of_nat k) (N.of_nat y) = Some c ->
  frozen_to g (freeze_cell g (N.of_nat y) f (k, c)) y (S k)
  /\ map wrapped (lines (freeze_cell g (N.of_nat y) f (k, c))) = map wrapped (lines f).
Proof.
  intros Hwf [Hf Hlk] Hy Hk Hc. pose proof Hwf as [Hs _ _ Ha]. destruct (sh_dims g Hs) as [Dw Dh].
  assert (cell_ok g c) as Hok.
  { pose proof (peek_ok g (N.of_nat k) (N.of_nat y) Ha) as H. unfold peek in H. by rewrite Hc in H. }
  destruct (freeze_copy g f _ c Ha Hok Hf) as (f' & copy & Ef & Hr & Hf' & Hcok & Hclook).
  { unfold U16, U32 in *. nia. }
  rewrite Ef. pose proof Hf' as [Hwf' Hh' [W' H'] Hn' Hl' Hc']. pose proof (wf_shape _ Hwf') as Hs'.
  assert (forall x' y', get (put f' (N.of_nat k) (N.of_nat y) copy) x' y'
    = if decide (x' = N.of_nat k /\ y' = N.of_nat y) then Some copy else get f' x' y') as Hget.
  { intros. apply get_put; [done|rewrite W'; lia|rewrite H'; lia]. }
  split; [|by rewrite put_wrapped, (relooks_wrapped f f' Hr)]. split.
  - replace (y * N.to_nat (g_width g) + S k)%nat with (S (y * N.to_nat (g_width g) + k)) by lia.
    split; try done. by apply put_wf.
  - intros x' y' Hx' Hy' Hpos. unfold peek at 1. rewrite Hget.
    change (look_of (put f' (N.of_nat k) (N.of_nat y) copy)) with (look_of f').
    destruct (decide _) as [[-> ->]|Hne].
    + unfold peek. rewrite Hc. exact Hclook.
    + rewrite <- Hlk; [|done|done|]; cycle 1.
      { destruct Hpos as [?|[? ?]]; [by left|right]. split; [done|].
        destruct (decide (N.to_nat x' = k)) as [Ek|]; [|lia]. exfalso. apply Hne. lia. }
      destruct (fz_size _ _ _ Hf) as [W H].
      pose proof (get_some f x' y' (wf_shape _ (fz_wf _ _ _ Hf)) ltac:(by rewrite W) ltac:(by rewrite H)) as Eg.
      destruct (relooks_get f f' x' y' _ Hr Eg) as (c' & Ec' & El). by rewrite Ec'.
Qed.

Lemma freeze_cells_step g y cs : forall f k,
  wf g -> frozen_to g f y k -> (y < N.to_nat (g_height g))%nat ->
  (forall i c, cs !! i = Some c -> get g (N.of_nat (k + i)) (N.of_nat y) = Some c) ->
  let f' := foldl (freeze_cell g (N.of_nat y)) f (imap (fun i c => ((k + i)%nat, c)) cs) in
  frozen_to g f' y (k + length cs) /\ map wrapped (lines f') = map wrapped (lines f).
Proof.
  induction cs as [|c cs IH]; intros f k Hwf Hf Hy Hcs; cbn [imap foldl length].
  { by rewrite Nat.add_0_r. }
  rewrite Nat.add_0_r. pose proof (Hcs 0%nat c eq_refl) as Hc. rewrite Nat.add_0_r in Hc.
  assert (k < N.to_nat (g_width g))%nat as Hk.
  { unfold get in Hc. apply bind_Some in Hc as (l & Hl & Hc%lookup_lt_Some).
    pose proof (sh_rows g (wf_shape g Hwf)) as Hr. rewrite Forall_lookup in Hr. rewrite (Hr _ _ Hl) in Hc. lia. }
  destruct (freeze_cell_step g f y k c Hwf Hf Hy Hk Hc) as [Hf1 Hw1].
  assert (imap ((fun (i : nat) (c0 : Cell) => ((k + i)%nat, c0)) ∘ S) cs
          = imap (fun i c0 => ((S k + i)%nat, c0)) cs) as -> by (apply imap_ext; intros; cbn; f_equal; lia).
  destruct (IH _ (S k) Hwf Hf1 Hy) as [Hf2 Hw2].
  { intros i c' Hi. replace (S k + i)%nat with (k + S i)%nat by lia. by apply Hcs. }
  replace (k + S (length cs))%nat with (S k + length cs)%nat by lia. split; [done|]. by rewrite Hw2, Hw1.
Qed.

Lemma set_row_wrapped_frozen g f y b k :
  frozen_to g f y k -> frozen_to g (set_row_wrapped f (N.of_nat y) b) y k.
Proof.
  intros [[Hwf Hh Hsz Hn Hl Hc] Hlk].
  assert (forall x' y', peek (set_row_wrapped f (N.of_nat y) b) x' y' = peek f x' y') as Ep.
  { intros x' y'. unfold peek, get. cbn [set_row_wrapped with_lines lines].
    destruct (decide (N.to_nat y' = N.to_nat (N.of_nat y))) as [->|].
    - rewrite list_lookup_alter_eq. by destruct (lines f !! _).
    - by rewrite list_lookup_alter_ne. }
  split; [split; try done; by apply set_row_wrapped_wf|].
  intros x' y' Hx Hy Hpos. rewrite Ep. rewrite <- Hlk by done. done.
Qed.

Lemma take_S_eq {A} (l k : list A) n :
  take n l = take n k -> l !! n = k !! n -> take (S n) l = take (S n) k.
Proof.
  intros E1 E2. destruct (l !! n) as [x|] eqn:El.
  - rewrite (take_S_r _ _ _ El), (take_S_r _ _ x) by done. by rewrite E1.
  - symmetry in E2. rewrite (take_ge l (S n)), (take_ge k (S n)) by (apply lookup_ge_None in El, E2; lia).
    rewrite <- (take_ge l n), <- (take_ge k n) by (apply lookup_ge_None in El, E2; lia). done.
Qed.

Lemma freeze_row_step g f y l :
  wf g -> frozen_to g f y 0 -> flags_to g f y -> lines g !! y = Some l ->
  frozen_to g (freeze_row g f (y, l)) (S y) 0 /\ flags_to g (freeze_row g f (y, l)) (S y).
Proof.
  intros Hwf Hf Hfl Hl. unfold freeze_row. set (f1 := set_row_wrapped f (N.of_nat y) (wrapped l)).
  pose proof Hwf as [Hs _ _ _]. pose proof (lookup_lt_Some _ _ _ Hl) as Hy. rewrite (sh_lines g Hs) in Hy.
  assert (length (cells l) = N.to_nat (g_width g)) as Hlen.
  { pose proof (sh_rows g Hs) as Hr. rewrite Forall_lookup in Hr. by eapply Hr. }
  rewrite take_ge by lia.
  destruct (freeze_cells_step g y (cells l) f1 0 Hwf) as [Hf2 Hw2]; [by apply set_row_wrapped_frozen|lia| |].
  { intros i c Hi. unfold get. cbn. by rewrite !Nat2N.id, Hl. }
  change (imap pair (cells l)) with (imap (fun i c => ((0 + i)%nat, c)) (cells l)).
  set (f2 := foldl _ f1 _) in *. split.
  - destruct Hf2 as [Hz Hlk]. split.
    + by replace (S y * N.to_nat (g_width g) + 0)%nat with (y * N.to_nat (g_width g) + (0 + length (cells l)))%nat by lia.
    + intros x' y' Hx Hy' Hpos. apply Hlk; [done|done|]. lia.
  - unfold flags_to in *. rewrite Hw2. unfold f1. cbn [set_row_wrapped with_lines lines].
    assert (is_Some (lines f !! y)) as [l0 Hl0].
    { apply lookup_lt_is_Some_2. destruct Hf as [[Hwff _ [_ H] _ _ _] _].
      rewrite (sh_lines f (wf_shape f Hwff)), H. lia. }
    apply take_S_eq.
    + rewrite <- Hfl, <- !fmap_take. f_equal. rewrite Nat2N.id, take_alter. by rewrite decide_False by lia.
    + rewrite !list_lookup_fmap, Nat2N.id, list_lookup_alter_eq, Hl0, Hl. done.
Qed.

Lemma freeze_rows_step g ls : forall f y,
  wf g -> frozen_to g f y 0 -> flags_to g f y ->
  (forall i l, ls !! i = Some l -> lines g !! (y + i)%nat = Some l) ->
  let f' := foldl (freeze_row g) f (imap (fun i l => ((y + i)%nat, l)) ls) in
  frozen_to g f' (y + length ls) 0 /\ flags_to g f' (y + length ls).
Proof.
  induction ls as [|l ls IH]; intros f y Hwf Hf Hfl Hls; cbn [imap foldl length].
  { by rewrite Nat.add_0_r. }
  rewrite Nat.add_0_r. pose proof (Hls 0%nat l eq_refl) as Hl. rewrite Nat.add_0_r in Hl.
  destruct (freeze_row_step g f y l Hwf Hf Hfl Hl) as [Hf1 Hfl1].
  assert (imap ((fun (i : nat) (c0 : Line) => ((y + i)%nat, c0)) ∘ S) ls
          = imap (fun i c0 => ((S y + i)%nat, c0)) ls) as -> by (apply imap_ext; intros; cbn; f_equal; lia).
  replace (y + S (length ls))%nat with (S y + length ls)%nat by lia. apply IH; [done|done|done|].
  intros i l' Hi. replace (S y + i)%nat with (y + S i)%nat by lia. by apply Hls.
Qed.

(** A frozen screen looks like the screen. The copy is a well-formed grid
    of the same size without history, whose arenas are its own; every cell of it
    shows the text, colours, attributes, underline colour and hyperlink of the
    original cell, and every row its wrap flag. *)
Theorem freeze_screen_exact g :
  wf g ->
  let f := freeze_screen g in
  wf f /\ g_width f = g_width g /\ g_height f = g_height g
  /\ scrollback f = [] /\ scrollback_limit f = 0
  /\ map wrapped (lines f) = map wrapped (lines g)
  /\ forall x y, x < g_width g -> y < g_height g -> look_of f (peek f x y) = look_of g (peek g x y).
Proof.
  intros Hwf. cbn zeta. unfold freeze_screen. pose proof Hwf as [Hs _ _ Ha]. destruct (sh_dims g Hs) as [Dw Dh].
  set (f0 := set_scrollback_limit (new (g_width g) (g_height g)) 0).
  assert (frozen_to g f0 0 0) as H0.
  { split; [split|].
    - apply history_wf; [by apply new_grid_wf|apply keep_last_sublist|apply keep_last_length].
    - done.
    - done.
    - cbn. lia.
    - cbn. rewrite map_size_empty. lia.
    - intros c Hc. apply list_elem_of_singleton in Hc as ->. pose proof (ar_colors g Ha).
      destruct (underline_colors g); [done|]. injection H as ->. set_solver.
    - intros x y _ _ [?|[? ?]]; lia. }
  destruct (freeze_rows_step g (lines g) f0 0 Hwf H0 eq_refl) as [Hf Hfl]; [done|].
  change (imap pair (lines g)) with (imap (fun i l => ((0 + i)%nat, l)) (lines g)).
  set (f := foldl _ f0 _) in *. destruct Hf as [[Hwff [Hh Hlim] [Ew Eh] _ _ _] Hlk].
  split_and!; try done.
  - unfold flags_to in Hfl. rewrite !take_ge in Hfl; [done|rewrite length_map; lia|].
    rewrite length_map, (sh_lines f (wf_shape f Hwff)), Eh, (sh_lines g Hs). lia.
  - intros x y Hx Hy. apply Hlk; [done|done|]. left. rewrite (sh_lines g Hs). lia.
Qed.

Lemma freeze_screen_exact_witness :
  wf sample_grid /\ let f := freeze_screen sample_grid in
  wf f /\ scrollback f = [] /\ look_of f (peek f 1 0) = look_of sample_grid (peek sample_grid 1 0).
Proof.
  pose proof sample_grid_wf as H1. split; [done|].
  destruct (freeze_screen_exact sample_grid H1) as (F1 & _ & _ & F2 & _ & _ & F3).
  split; [exact F1|]. split; [exact F2|]. apply F3; vm_compute; done.
Defined.
