(* ===== verification/Copy.v ===== *)
(** * Copy mode

    [uniterm-server/src/copymode.rs]: navigating the combined history and
    screen, selections by key and mouse, incremental search, the frozen screen
    of [freeze-on-select], and the clipboard sequence. Lines are [usize], columns
    and rows [u16]. *)

From S2P Require Import Prelude Layout Cell Grid Freeze Renderer.
#[local] Open Scope u_scope.

Definition LATEST_BUTTON : str := lit "[v Latest]".

Inductive CopyAction : Set := NoAction | Redraw | Exit | Copy (text : str).

Record FrozenScreen : Set := { f_start : N; f_rows : Grid }.

Record CopyState : Set := {
  top : N; cx : N; cy : N; cs_width : N; cs_height : N;
  anchor : option (N * N); query : str; typing_search : bool;
  c_first_line_id : option N; freeze_on_select : bool; frozen : option FrozenScreen;
  mouse_finished : bool }.

#[global] Instance CopyState_fields : Fields CopyState := fun s => {|
  top := top s; cx := cx s; cy := cy s; cs_width := cs_width s; cs_height := cs_height s;
  anchor := anchor s; query := query s; typing_search := typing_search s;
  c_first_line_id := c_first_line_id s; freeze_on_select := freeze_on_select s; frozen := frozen s;
  mouse_finished := mouse_finished s |}.

Definition capture (g : Grid) : FrozenScreen := {| f_start := scrollback_len g; f_rows := freeze_screen g |}.

Definition new (g : Grid) (rect : Rect) : CopyState :=
  let total := total_lines g in
  let height := N.max (rh rect) 1 in {|
  top := ssub total height; cx := 0; cy := ssub height 1; cs_width := N.max (rw rect) 1; cs_height := height;
  anchor := None; query := []; typing_search := false; c_first_line_id := first_line_id g;
  freeze_on_select := false; frozen := None; mouse_finished := false |}.

Definition finish_mouse_selection (s : CopyState) : CopyState := s <| mouse_finished := true |>.
Definition mouse_selection_finished (s : CopyState) : bool := mouse_finished s.
Definition set_freeze_on_select (s : CopyState) (on : bool) : CopyState := s <| freeze_on_select := on |>.

Definition is_frozen (s : CopyState) : bool := match frozen s with Some _ => true | None => false end.

Definition freeze_if_configured (s : CopyState) (g : Grid) : CopyState :=
  if freeze_on_select s && negb (is_frozen s) then s <| frozen := Some (capture g) |> else s.

Definition thaw (s : CopyState) : CopyState := s <| frozen := None |>.

(** [CopyState::total_lines] and [CopyState::source]. *)
Definition view_lines (s : CopyState) (g : Grid) : N :=
  match frozen s with
  | Some f => f_start f + g_height (f_rows f)
  | None => total_lines g
  end.

Definition source (s : CopyState) (g : Grid) (line : N) : Grid * N :=
  match frozen s with
  | Some f => if f_start f <=? line then (f_rows f, line - f_start f) else (g, line)
  | None => (g, line)
  end.

(** ** Eviction *)

Definition shift_line (start : option N) (evicted line : N) : option N :=
  match start with
  | Some start =>
      if start <=? line then Some (ssub start evicted + (line - start))
      else if evicted <=? line then Some (line - evicted) else None
  | None => if evicted <=? line then Some (line - evicted) else None
  end.

Definition evict (s : CopyState) (evicted : N) : CopyState :=
  let start := f_start <$> frozen s in
  s <| top := default 0 (shift_line start evicted (top s)) |>
    <| anchor := '(line, x) ← anchor s; line ← shift_line start evicted line; Some (line, x) |>
    <| frozen := (fun f => {| f_start := ssub (f_start f) evicted; f_rows := f_rows f |}) <$> frozen s |>.

Definition max_top (s : CopyState) (g : Grid) : N := ssub (view_lines s g) (cs_height s).

Definition sync_history (s : CopyState) (g : Grid) : CopyState :=
  let current := first_line_id g in
  let s :=
    match c_first_line_id s, current with
    | Some old, Some new => if ssub new old =? 0 then s else evict s (ssub new old)
    | _, _ => s
    end in
  let s := s <| c_first_line_id := current |> in
  let s := s <| top := N.min (top s) (max_top s g) |> in
  s <| cy := N.min (cy s) (ssub (cs_height s) 1) |>.

Definition at_bottom (s : CopyState) (g : Grid) : bool := top s =? max_top s g.

Definition resize (s : CopyState) (g : Grid) (rect : Rect) (at_bottom : bool) : CopyState :=
  let s := s <| cs_width := N.max (rw rect) 1 |> <| cs_height := N.max (rh rect) 1 |> in
  let s := if is_frozen s then s <| frozen := Some (capture g) |> else s in
  let s := s <| top := if at_bottom then max_top s g else N.min (top s) (max_top s g) |> in
  s <| cx := N.min (cx s) (cs_width s - 1) |> <| cy := N.min (cy s) (cs_height s - 1) |>
    <| anchor := None |> <| c_first_line_id := first_line_id g |>.

Definition cursor_line (s : CopyState) : N := top s + cy s.

Definition cursor_pos (s : CopyState) (rect : Rect) : N * N := (rx rect +16 cx s, ry rect +16 cy s).

(** ** Motion *)

Definition up (s : CopyState) : CopyState :=
  if 0 <? cy s then s <| cy := cy s - 1 |>
  else if 0 <? top s then s <| top := top s - 1 |>
  else s.

Definition down (s : CopyState) (g : Grid) : CopyState :=
  let last := ssub (view_lines s g) 1 in
  if last <=? cursor_line s then s
  else if cy s <? cs_height s - 1 then s <| cy := cy s +16 1 |>
  else if top s <? max_top s g then s <| top := top s + 1 |>
  else s.

Definition left (s : CopyState) : CopyState := s <| cx := ssub (cx s) 1 |>.

Definition right (s : CopyState) : CopyState :=
  if cx s +16 1 <? cs_width s then s <| cx := cx s +16 1 |> else s.

Definition is_space (s : CopyState) (g : Grid) (x : N) : bool :=
  let '(src, line) := source s g (cursor_line s) in is_whitespace (ch (line_cell src line x)).

(** [while self.cx + 1 < self.width && test { self.cx += 1 }]; the fuel is the width. *)
Fixpoint forward (fuel : nat) (test : N -> bool) (s : CopyState) : CopyState :=
  match fuel with
  | O => s
  | S fuel =>
      if (cx s +16 1 <? cs_width s) && test (cx s) then forward fuel test (s <| cx := cx s +16 1 |>) else s
  end.

(** [while self.cx > 0 && test { self.cx -= 1 }]; the fuel is the column. *)
Fixpoint backward (fuel : nat) (test : N -> bool) (s : CopyState) : CopyState :=
  match fuel with
  | O => s
  | S fuel => if (0 <? cx s) && test (cx s) then backward fuel test (s <| cx := cx s - 1 |>) else s
  end.

Definition forward_while (test : N -> bool) (s : CopyState) : CopyState := forward (N.to_nat (cs_width s)) test s.
Definition backward_while (test : N -> bool) (s : CopyState) : CopyState := backward (N.to_nat (cx s)) test s.

Definition next_big_word (s : CopyState) (g : Grid) : CopyState :=
  forward_while (is_space s g) (forward_while (fun x => negb (is_space s g x)) s).

Definition previous_big_word (s : CopyState) (g : Grid) : CopyState :=
  let s := s <| cx := ssub (cx s) 1 |> in
  backward_while (fun x => negb (is_space s g (x - 1))) (backward_while (is_space s g) s).

Definition end_big_word (s : CopyState) (g : Grid) : CopyState :=
  forward_while (fun x => negb (is_space s g (x +16 1))) (forward_while (is_space s g) s).

Definition page (s : CopyState) (g : Grid) (up : bool) : CopyState :=
  let half := N.max (cs_height s / 2) 1 in
  s <| top := if up then ssub (top s) half else N.min (top s + half) (max_top s g) |>.

(** [scroll]: whether the view ends at the live bottom. *)
Definition scroll (s : CopyState) (g : Grid) (lines : Z) : CopyState * bool :=
  let mx := max_top s g in
  let s := s <| top := if (lines <? 0)%Z then ssub (top s) (Z.abs_N lines) else N.min (top s + Z.to_N lines) mx |> in
  (s, top s =? mx).

(** ** Text of lines *)

(** The [while x < min(to, width)] of [line_text_range]; the fuel is the width. *)
Fixpoint range_loop (fuel : nat) (g : Grid) (line to x : N) : str :=
  match fuel with
  | O => []
  | S fuel =>
      if x <? N.min to (g_width g) then
        let c := line_cell g line x in
        (if is_continuation c then [] else cell_text_owned g c)
        ++ range_loop fuel g line to (x +16 N.max (display_width c) 1)
      else []
  end.

Definition line_text_range (g : Grid) (line from to : N) : str :=
  let x := N.min from (g_width g) in
  let x := if (0 <? x) && is_continuation (line_cell g line x) then x - 1 else x in
  range_loop (N.to_nat (g_width g)) g line to x.

Definition line_text (g : Grid) (line width : N) : str := trim_end (line_text_range g line 0 width).

Fixpoint column_loop (fuel : nat) (g : Grid) (line width byte_offset bytes x : N) : N :=
  match fuel with
  | O => ssub width 1
  | S fuel =>
      if x <? N.min width (g_width g) then
        let c := line_cell g line x in
        let next := x +16 N.max (display_width c) 1 in
        if is_continuation c then column_loop fuel g line width byte_offset bytes next
        else
          let len := len8 (cell_text_owned g c) in
          if (byte_offset <=? bytes) || (byte_offset <? bytes + len) then x
          else column_loop fuel g line width byte_offset (bytes + len) next
      else ssub width 1
  end.

Definition search_column (g : Grid) (line width byte_offset : N) : N :=
  column_loop (S (N.to_nat (g_width g))) g line width byte_offset 0 0.

(** ** Selection *)

Definition position_in (s : CopyState) (p : N * N) : N := p.1 * cs_width s + p.2.

Definition selection (s : CopyState) : option ((N * N) * (N * N)) :=
  anchor ← anchor s;
  let cursor := (cursor_line s, cx s) in
  Some (if position_in s anchor <=? position_in s cursor then (anchor, cursor) else (cursor, anchor)).

Definition is_selected (s : CopyState) (line x : N) : bool :=
  match selection s with
  | None => false
  | Some (st, en) => (position_in s st <=? position_in s (line, x)) && (position_in s (line, x) <=? position_in s en)
  end.

(** The columns of [line] that a selection from [st] to [en] takes. *)
Definition selected_from (st : N * N) (line : N) : N := if line =? st.1 then st.2 else 0.
Definition selected_to (s : CopyState) (en : N * N) (line : N) : N :=
  if line =? en.1 then N.min (sadd u16_max en.2 1) (cs_width s) else cs_width s.

Definition selected_line (s : CopyState) (g : Grid) (st en : N * N) (line : N) : str :=
  let to := selected_to s en line in
  let '(src, index) := source s g line in
  let selected := line_text_range src index (selected_from st line) to in
  (if to =? cs_width s then trim_end selected else selected)
  ++ (if negb (line =? en.1) && negb (line_wrapped src index) then [10] else []).

Definition selected_text (s : CopyState) (g : Grid) : str :=
  match selection s with
  | None => let '(src, line) := source s g (cursor_line s) in line_text src line (cs_width s)
  | Some (st, en) => concat (map (selected_line s g st en) (range st.1 (en.1 + 1)))
  end.

Definition yank (s : CopyState) (g : Grid) : str := selected_text s g.

Definition cell_in (s : CopyState) (rect : Rect) (sx sy : N) : N * N :=
  (N.min (ssub sx (rx rect)) (ssub (cs_width s) 1), N.min (ssub sy (ry rect)) (ssub (cs_height s) 1)).

Definition mouse_drag (s : CopyState) (rect : Rect) (sx sy : N) : CopyState :=
  let '(x, y) := cell_in s rect sx sy in s <| cx := x |> <| cy := y |>.

Definition mouse_anchor (s : CopyState) (g : Grid) (rect : Rect) (sx sy : N) : CopyState :=
  let s := freeze_if_configured s g <| mouse_finished := false |> in
  let '(x, y) := cell_in s rect sx sy in
  let s := s <| cx := x |> <| cy := y |> in
  s <| anchor := Some (cursor_line s, x) |>.

(** ** Search *)

(** [str::find]: the byte offset of the first occurrence. *)
Fixpoint find_str (needle hay : str) : option N :=
  if bool_decide (needle `prefix_of` hay) then Some 0
  else match hay with
  | [] => None
  | c :: hay => N.add (len8 [c]) <$> find_str needle hay
  end.

Definition land_on (s : CopyState) (g : Grid) (line col : N) : CopyState :=
  let s := s <| top := N.min line (max_top s g) |> in
  s <| cy := (line - top s) mod U16 |> <| cx := N.min col (ssub (cs_width s) 1) |>.

(** The line of a step, and whether it matches. *)
Definition step_line (total start step : N) (forward : bool) : N :=
  if forward then (start + step) mod total else (start + total - step) mod total.

Definition match_at (s : CopyState) (g : Grid) (line : N) : option N :=
  let '(src, index) := source s g line in
  search_column src index (cs_width s) <$> find_str (query s) (line_text src index (cs_width s)).

Fixpoint search_loop (s : CopyState) (g : Grid) (total start : N) (forward : bool) (steps : list N) : CopyState :=
  match steps with
  | [] => s
  | step :: steps =>
      let line := step_line total start step forward in
      match match_at s g line with
      | Some col => land_on s g line col
      | None => search_loop s g total start forward steps
      end
  end.

Definition run_search (s : CopyState) (g : Grid) (forward : bool) : CopyState :=
  match query s with
  | [] => s
  | _ =>
      let total := view_lines s g in
      search_loop s g total (cursor_line s) forward (range 1 (total + 1))
  end.

(** ** Input *)

Fixpoint csi_sequence_len (input : list N) : option nat :=
  match input with
  | [] => None
  | b :: input => if (64 <=? b) && (b <=? 126) then Some 1%nat else S <$> csi_sequence_len input
  end.

Definition is_ascii_graphic (b : N) : bool := (33 <=? b) && (b <=? 126).

Definition search_byte (s : CopyState) (g : Grid) (b : N) : CopyState :=
  if (b =? 13) || (b =? 10) then run_search s g true <| typing_search := false |>
  else if b =? 27 then s <| typing_search := false |> <| query := [] |>
  else if (b =? 127) || (b =? 8) then s <| query := removelast (query s) |>
  else if is_ascii_graphic b || (b =? 32) then s <| query := query s ++ [b] |>
  else s.

Definition toggle_selection (s : CopyState) (g : Grid) : CopyState :=
  match anchor s with
  | Some _ => thaw (s <| anchor := None |>)
  | None => let s := freeze_if_configured s g in s <| anchor := Some (cursor_line s, cx s) |>
  end.

(** The keys that stay in copy mode. *)
Definition key_byte (s : CopyState) (g : Grid) (b : N) : CopyState :=
  if b =? 107 then up s
  else if b =? 106 then down s g
  else if b =? 104 then left s
  else if b =? 108 then right s
  else if (b =? 119) || (b =? 87) then next_big_word s g
  else if (b =? 98) || (b =? 66) then previous_big_word s g
  else if (b =? 101) || (b =? 69) then end_big_word s g
  else if b =? 21 then page s g true
  else if b =? 4 then page s g false
  else if b =? 103 then s <| top := 0 |> <| cy := 0 |>
  else if b =? 71 then s <| top := max_top s g |> <| cy := ssub (cs_height s) 1 |>
  else if (b =? 118) || (b =? 32) then toggle_selection s g
  else if b =? 47 then s <| typing_search := true |> <| query := [] |>
  else if b =? 110 then run_search s g true
  else if b =? 78 then run_search s g false
  else s.

Definition csi_key (s : CopyState) (g : Grid) (sequence : list N) : CopyState :=
  if bool_decide (sequence = lit "A") then up s
  else if bool_decide (sequence = lit "B") then down s g
  else if bool_decide (sequence = lit "C") then right s
  else if bool_decide (sequence = lit "D") then left s
  else if bool_decide (sequence = lit "5~") then page s g true
  else if bool_decide (sequence = lit "6~") then page s g false
  else s.

Definition jumps_to_live (sequence : list N) : bool :=
  bool_decide (sequence = lit "1;5F") || bool_decide (sequence = lit "1;9B").

Definition outcome (changed : bool) : CopyAction := if changed then Redraw else NoAction.

(** One iteration consumes at least a byte: the fuel is the number of bytes. *)
Fixpoint handle_loop (fuel : nat) (s : CopyState) (g : Grid) (buf : list N) (changed : bool) : CopyState * CopyAction :=
  match fuel, buf with
  | S fuel, b :: rest =>
      if typing_search s then handle_loop fuel (search_byte s g b) g rest true
      else if b =? 27 then
        match rest with
        | [] => (s, Exit)
        | c :: input =>
            if negb (c =? 91) then (s, Exit)
            else match csi_sequence_len input with
            | None => (s, outcome changed)
            | Some length =>
                if jumps_to_live (take length input) then (s, Exit)
                else handle_loop fuel (csi_key s g (take length input)) g (drop length input) true
            end
        end
      else if b =? 113 then (s, Exit)
      else if (b =? 121) || (b =? 13) || (b =? 10) then (s, Copy (selected_text s g))
      else handle_loop fuel (key_byte s g b) g rest true
  | _, _ => (s, outcome changed)
  end.

Definition handle (s : CopyState) (buf : list N) (g : Grid) : CopyState * CopyAction :=
  handle_loop (length buf) (sync_history s g) g buf false.

(** ** Drawing *)

Definition indicator_label (s : CopyState) (g : Grid) : str :=
  if typing_search s then lit "[search: " ++ query s ++ lit "]"
  else lit "[COPY " ++ dec (cursor_line s + 1) ++ lit "/" ++ dec (view_lines s g) ++ lit "]".

Definition latest_button_rect (s : CopyState) (g : Grid) (rect : Rect) : option Rect :=
  if ssub (max_top s g) (top s) <=? cs_height s then None
  else
    let indicator_width := len8 (indicator_label s g) mod U16 in
    let indicator_x := rx rect +16 ssub (rw rect) (indicator_width +16 1) in
    let button_width := len8 LATEST_BUTTON in
    if indicator_x <? button_width + 1 then None
    else
      let button_x := indicator_x - (button_width + 1) in
      if rx rect <=? button_x then Some (mkRect button_x (ry rect) button_width 1) else None.

Definition color_sgr (code : string) (c : Color) : str :=
  match c with
  | Default => []
  | Idx n => lit (";" ++ code ++ ";5;")%string ++ dec n
  | Rgb r g b => lit (";" ++ code ++ ";2;")%string ++ dec r ++ lit ";" ++ dec g ++ lit ";" ++ dec b
  end.

Definition copy_style (c : Cell) (underline : Color) (selected : bool) : str :=
  [27] ++ lit "[0"
  ++ concat (map (fun '(attr, code) => if negb (N.land (attrs c) attr =? 0) then lit ";" ++ dec code else [])
       [(BOLD, 1); (DIM, 2); (ITALIC, 3); (BLINK, 5); (REVERSE, 7); (INVISIBLE, 8); (STRIKE, 9)])
  ++ (match underline_style (attrs c) with
      | UNone => [] | Single => lit ";4" | Double => lit ";4:2" | Curly => lit ";4:3"
      | Dotted => lit ";4:4" | Dashed => lit ";4:5" end)
  ++ (if selected then lit ";7" else [])
  ++ color_sgr "38" (fg c) ++ color_sgr "48" (bg c) ++ color_sgr "58" underline ++ lit "m".

Definition goto (row col : N) : str := [27] ++ lit "[" ++ dec row ++ lit ";" ++ dec col ++ lit "H".

Definition cell_highlighted (s : CopyState) (line x : N) (c : Cell) : bool :=
  is_selected s line x || ((width c =? 2) && is_selected s line (x +16 1)).

Section Render.
Context `{Unicode}.

(** The row's [while x < rect.w]; the fuel is the width. *)
Fixpoint render_cells (fuel : nat) (s : CopyState) (src : Grid) (line index rw x : N) : str :=
  match fuel with
  | O => []
  | S fuel =>
      if x <? rw then
        let c := line_cell src index x in
        if is_continuation c then render_cells fuel s src line index rw (x +16 1)
        else copy_style c (underline_color src (c_underline c)) (cell_highlighted s line x c)
          ++ display_text src c ++ render_cells fuel s src line index rw (sadd u16_max x (display_width c))
      else []
  end.

Definition render_row (s : CopyState) (g : Grid) (rect : Rect) (row : N) : str :=
  let line := top s + row in
  let '(src, index) := source s g line in
  goto (ry rect +16 row +16 1) (rx rect +16 1)
  ++ render_cells (N.to_nat (rw rect)) s src line index (rw rect) 0 ++ [27] ++ lit "[0m".

Definition render_label (x y : N) (label : str) : str :=
  goto (y +16 1) (x +16 1) ++ [27] ++ lit "[7m" ++ label ++ [27] ++ lit "[0m".

(** The bytes are the text's UTF-8. *)
Definition render (s : CopyState) (g : Grid) (rect : Rect) : list N :=
  let label := indicator_label s g in
  let lx := rx rect +16 ssub (rw rect) ((len8 label mod U16) +16 1) in
  utf8 (concat (map (render_row s g rect) (range 0 (rh rect)))
        ++ render_label lx (ry rect) label
        ++ (match latest_button_rect s g rect with
            | Some b => render_label (rx b) (ry b) LATEST_BUTTON
            | None => [] end)).
End Render.

(** ** The clipboard *)

Definition BASE64 : list N := lit "ABCDEFGHIJKLMNOPQRSTUVWXYZabcdefghijklmnopqrstuvwxyz0123456789+/".
Definition symbol (n : N) : N := default 0 (BASE64 !! N.to_nat n).

Definition chunk64 (b0 : N) (b1 b2 : option N) : list N :=
  let v1 := default 0 b1 in let v2 := default 0 b2 in
  [symbol (N.shiftr b0 2); symbol (N.lor (N.shiftl (N.land b0 3) 4) (N.shiftr v1 4));
   match b1 with Some _ => symbol (N.lor (N.shiftl (N.land v1 15) 2) (N.shiftr v2 6)) | None => 61 end;
   match b2 with Some _ => symbol (N.land v2 63) | None => 61 end].

Fixpoint base64 (data : list N) : list N :=
  match data with
  | [] => []
  | [b0] => chunk64 b0 None None
  | [b0; b1] => chunk64 b0 (Some b1) None
  | b0 :: b1 :: b2 :: data => chunk64 b0 (Some b1) (Some b2) ++ base64 data
  end.

Definition osc52 (text : str) : list N := [27] ++ lit "]52;c;" ++ base64 (utf8 text) ++ [7].
