(* ===== verification/CopySpec.v ===== *)
(** * What copy mode promises

    A selection keeps its text while output goes on (Copy.v): always in a frozen
    screen, and in history as long as its lines are kept and their identities
    count them; the highlighted cells are the copied ones; a search lands on the
    next line with a match; the cursor stays in the view. *)

From S2P Require Import Prelude Layout Cell Grid GridInv GridScroll Freeze Renderer Wide Copy.
#[local] Open Scope u_scope.

(** ** Lines of text *)

(** What the text functions read of a cell. *)
Definition reads (g : Grid) (i x : N) : str * N :=
  let c := line_cell g i x in
  (if is_continuation c then [] else cell_text_owned g c, display_width c).

(** Two lines of the same text and wrap flag. *)
Definition same_line (g : Grid) (i : N) (g' : Grid) (i' : N) : Prop :=
  (forall x, reads g i x = reads g' i' x) /\ line_wrapped g i = line_wrapped g' i'.

Lemma reads_continuation g i x : is_continuation (line_cell g i x) = ((reads g i x).2 =? 0).
Proof.
  unfold reads, display_width. cbn. destruct (is_continuation (line_cell g i x)) eqn:E; [done|].
  unfold is_continuation in E. apply N.eqb_neq in E. symmetry. apply N.eqb_neq. lia.
Qed.

Lemma range_loop_reads n g i to x : range_loop (S n) g i to x =
  if x <? N.min to (g_width g) then (reads g i x).1 ++ range_loop n g i to (x +16 N.max (reads g i x).2 1) else [].
Proof. done. Qed.

Lemma range_loop_same g i g' i' to : g_width g = g_width g' -> (forall x, reads g i x = reads g' i' x) ->
  forall n x, range_loop n g i to x = range_loop n g' i' to x.
Proof.
  intros Hw Hr n. induction n as [|n IH]; intros x; [done|]. rewrite !range_loop_reads, Hw, Hr, IH. done.
Qed.

Lemma range_text_same g i g' i' from to : g_width g = g_width g' -> (forall x, reads g i x = reads g' i' x) ->
  line_text_range g i from to = line_text_range g' i' from to.
Proof.
  intros Hw Hr. unfold line_text_range. rewrite !reads_continuation, <- Hw, <- Hr.
  by apply range_loop_same.
Qed.

(** ** Selections and eviction *)

(** The line at an index of the view still exists when [e] lines are gone: the
    screen of a freeze is a copy, history loses its oldest lines. *)
Definition survives (s : CopyState) (e line : N) : Prop :=
  match frozen s with Some f => f_start f <= line \/ e <= line | None => e <= line end.

(** The lines below [upto] that [e] evictions leave are in [g'] where they were,
    [e] lines further up. *)
Definition history_kept (g g' : Grid) (e upto : N) : Prop :=
  g_width g' = g_width g /\ forall i, e <= i -> i < upto -> same_line g i g' (i - e).

(** How far the view moves. *)
Definition moved_by (s : CopyState) (e : N) : N :=
  match frozen s with Some f => N.min e (f_start f) | None => e end.

Lemma shift_survives s e line : survives s e line ->
  shift_line (f_start <$> frozen s) e line = Some (line - moved_by s e) /\ moved_by s e <= line.
Proof.
  unfold survives, shift_line, moved_by. destruct (frozen s) as [f|]; cbn [fmap option_fmap option_map].
  - intros H. unfold ssub. destruct (N.leb_spec (f_start f) line); [split; [f_equal; lia|lia]|].
    destruct (N.leb_spec e line); [split; [f_equal; lia|lia]|lia].
  - intros H. destruct (N.leb_spec e line); [split; [f_equal; lia|lia]|lia].
Qed.

Lemma evict_spec s e l x : anchor s = Some (l, x) -> survives s e (top s) -> survives s e l ->
  evict s e = s <| top := top s - moved_by s e |> <| anchor := Some (l - moved_by s e, x) |>
    <| frozen := (fun f => {| f_start := f_start f - moved_by s e; f_rows := f_rows f |}) <$> frozen s |>.
Proof.
  intros Ha Ht Hl. unfold evict. destruct (shift_survives _ _ _ Ht) as [-> _]. rewrite Ha. cbn [mbind option_bind].
  destruct (shift_survives _ _ _ Hl) as [-> _]. unfold moved_by. destruct (frozen s) as [f|]; [|done].
  cbn [fmap option_fmap option_map]. unfold ssub.
  assert (f_start f - e = f_start f - N.min e (f_start f)) as -> by lia. done.
Qed.

(** The lines [sync_history] takes to be gone. *)
Definition gone (s : CopyState) (g : Grid) : N :=
  match c_first_line_id s, first_line_id g with Some old, Some new => ssub new old | _, _ => 0 end.

Lemma view_moved s e (f : FrozenScreen) : frozen s = Some f -> moved_by s e <= f_start f.
Proof. unfold moved_by. intros ->. lia. Qed.

(** The state after the eviction, once nothing is clamped. *)
Definition moved_state (s : CopyState) (g' : Grid) (l x : N) : CopyState :=
  let d := moved_by s (gone s g') in
  s <| top := top s - d |> <| anchor := Some (l - d, x) |>
    <| frozen := (fun f => {| f_start := f_start f - d; f_rows := f_rows f |}) <$> frozen s |>
    <| c_first_line_id := first_line_id g' |>.

Lemma sync_spec s g g' l x :
  let e := gone s g' in
  anchor s = Some (l, x) -> cy s < cs_height s -> top s <= max_top s g -> survives s e (top s) -> survives s e l ->
  (frozen s = None -> total_lines g <= total_lines g' + e) ->
  sync_history s g' = moved_state s g' l x.
Proof.
  intros e Ha Hcy Htop Hst Hsl Hlines. unfold sync_history.
  assert (forall t, t = evict s e -> (match c_first_line_id s, first_line_id g' with
    | Some old, Some new => if ssub new old =? 0 then s else evict s (ssub new old) | _, _ => s end) = t) as Hm.
  { intros t ->. assert (e = 0 -> s = evict s e) as H0.
    { intros E. rewrite (evict_spec s e l x Ha Hst Hsl). assert (moved_by s e = 0) as -> by (unfold moved_by; destruct (frozen s); lia).
      rewrite !N.sub_0_r, <- Ha. destruct s as [t ? ? ? ? ? ? ? ? ? [[st rows]|] ?]; cbn; [|done]. by rewrite N.sub_0_r. }
    unfold e, gone in *. destruct (c_first_line_id s) as [old|], (first_line_id g') as [new|]; try by apply H0.
    destruct (N.eqb_spec (ssub new old) 0) as [E|]; [by apply H0|done]. }
  rewrite (Hm _ eq_refl), (evict_spec s e l x Ha Hst Hsl). clear Hm.
  set (s1 := _ <| c_first_line_id := _ |>). change (moved_state s g' l x) with s1.
  destruct (shift_survives _ _ _ Hst) as [_ Hd].
  assert (top s1 <= max_top s1 g') as Htop'.
  { unfold max_top, view_lines in *. cbn [s1 put_field frozen top cs_height]. unfold s1, put_field; cbn. unfold ssub in *.
    destruct (frozen s) as [f|] eqn:Ef; cbn.
    - pose proof (view_moved s e f Ef). lia.
    - specialize (Hlines eq_refl). assert (moved_by s e = e) as E by (unfold moved_by; by rewrite Ef). lia. }
  rewrite (N.min_l (top s1)) by done.
  assert (s1 <| top := top s1 |> = s1) as -> by done.
  assert (N.min (cy s1) (ssub (cs_height s1) 1) = cy s1) as -> by (unfold s1, put_field, ssub; cbn; lia). done.
Qed.

Section Moved.
Context (s : CopyState) (g g' : Grid) (l x : N).
Let e := gone s g'.
Let d := moved_by s e.
Let s' := moved_state s g' l x.
Context (Ha : anchor s = Some (l, x)) (Hst : survives s e (top s)) (Hsl : survives s e l).

Lemma moved_cursor : cursor_line s' = cursor_line s - d /\ d <= cursor_line s /\ d <= l.
Proof.
destruct (shift_survives _ _ _ Hst) as [_ H1], (shift_survives _ _ _ Hsl) as [_ H2]. fold d in H1, H2.
unfold cursor_line. cbn. fold e d. lia.
Qed.

Lemma moved_position p : d <= p.1 -> position_in s' (p.1 - d, p.2) + d * cs_width s = position_in s p.
Proof. intros H. unfold position_in. change (cs_width s') with (cs_width s). cbn [fst snd]. rewrite N.mul_sub_distr_r.
pose proof (N.mul_le_mono_r _ _ (cs_width s) H). lia. Qed.

Lemma moved_selection : selection s' = (fun '(a, b) => ((a.1 - d, a.2), (b.1 - d, b.2))) <$> selection s.
Proof.
destruct moved_cursor as (Hc&Hd1&Hd2).
pose proof (moved_position (l, x) Hd2) as E1. pose proof (moved_position (cursor_line s, cx s) Hd1) as E2. cbn [fst snd] in E1, E2.
assert (selection s' = Some (if position_in s' (l - d, x) <=? position_in s' (cursor_line s - d, cx s)
  then ((l - d, x), (cursor_line s - d, cx s)) else ((cursor_line s - d, cx s), (l - d, x)))) as ->.
{ rewrite <- Hc. done. }
unfold selection. rewrite Ha. cbn [mbind option_bind fmap option_fmap option_map]. f_equal.
generalize dependent (position_in s' (l - d, x)). intros p1 E1. generalize dependent (position_in s' (cursor_line s - d, cx s)). intros p2 E2.
destruct (N.leb_spec (position_in s (l, x)) (position_in s (cursor_line s, cx s))), (N.leb_spec p1 p2); try done; lia.
Qed.

Lemma moved_selected line y : d <= line -> is_selected s' (line - d) y = is_selected s line y.
Proof.
intros Hl. unfold is_selected. rewrite moved_selection. destruct (selection s) as [[st en]|] eqn:Es; [|done].
cbn [fmap option_fmap option_map]. destruct moved_cursor as (_&Hd1&Hd2).
assert (d <= st.1 /\ d <= en.1) as [H1 H2].
{ unfold selection in Es. rewrite Ha in Es. cbn in Es. destruct (_ <=? _); injection Es as <- <-; cbn; lia. }
pose proof (moved_position st H1) as E1. pose proof (moved_position en H2) as E2. pose proof (moved_position (line, y) Hl) as E3.
cbn [fst snd] in E3. apply eq_iff_eq_true. rewrite !andb_true_iff, !N.leb_le. lia.
Qed.

(** The line at an index of the view, before and after. *)
Lemma moved_source line : d <= line ->
match frozen s with
| Some f => f_start f <= line \/ same_line g line g' (line - d)
| None => same_line g line g' (line - d)
end -> g_width g' = g_width g \/ (exists f, frozen s = Some f /\ f_start f <= line) ->
let '(src, i) := source s g line in let '(src', i') := source s' g' (line - d) in
g_width src = g_width src' /\ (forall y, reads src i y = reads src' i' y) /\ line_wrapped src i = line_wrapped src' i'.
Proof.
intros Hd Hl Hw. unfold source. change (frozen s') with
  ((fun f => {| f_start := f_start f - d; f_rows := f_rows f |}) <$> frozen s).
destruct (frozen s) as [f|] eqn:Ef; cbn [fmap option_fmap option_map f_start f_rows].
- pose proof (view_moved s e f Ef) as Hdf. fold d in Hdf.
  destruct (N.leb_spec (f_start f) line).
  + destruct (N.leb_spec (f_start f - d) (line - d)); [|lia].
    assert (line - d - (f_start f - d) = line - f_start f) as -> by lia. done.
  + destruct (N.leb_spec (f_start f - d) (line - d)); [lia|].
    destruct Hl as [|[Hr Hwr]]; [lia|]. destruct Hw as [->|(f'&[= <-]&?)]; [done|lia].
- destruct Hl as [Hr Hwr]. destruct Hw as [->|(f&?&_)]; [done|done].
Qed.

Lemma moved_line st en line : d <= line ->
match frozen s with
| Some f => f_start f <= line \/ same_line g line g' (line - d)
| None => same_line g line g' (line - d)
end -> g_width g' = g_width g \/ (exists f, frozen s = Some f /\ f_start f <= line) ->
d <= st.1 -> d <= en.1 ->
selected_line s' g' (st.1 - d, st.2) (en.1 - d, en.2) (line - d) = selected_line s g st en line.
Proof.
intros Hd Hl Hw H1 H2. pose proof (moved_source line Hd Hl Hw) as Hs. unfold selected_line.
destruct (source s g line) as [src i]. destruct (source s' g' (line - d)) as [src' i']. destruct Hs as (Hws&Hr&Hwr).
assert (selected_to s' (en.1 - d, en.2) (line - d) = selected_to s en line) as ->.
{ unfold selected_to. cbn [fst snd]. destruct (N.eqb_spec line en.1), (N.eqb_spec (line - d) (en.1 - d)); try done; lia. }
assert (selected_from (st.1 - d, st.2) (line - d) = selected_from st line) as ->.
{ unfold selected_from. cbn [fst snd]. destruct (N.eqb_spec line st.1), (N.eqb_spec (line - d) (st.1 - d)); try done; lia. }
cbn [fst snd]. rewrite <- Hwr, <- (range_text_same src i src' i') by done.
assert ((line - d =? en.1 - d) = (line =? en.1)) as ->.
{ destruct (N.eqb_spec line en.1), (N.eqb_spec (line - d) (en.1 - d)); try done; lia. }
done.
Qed.
End Moved.

Lemma range_shift a b d : d <= a -> range (a - d) (b - d) = map (fun i => i - d) (range a b).
Proof.
  intros H. unfold range. rewrite map_map. replace (b - d - (a - d)) with (b - a) by lia.
  apply map_ext. intros k. lia.
Qed.

(** C15: The text under a selection holds still while the program goes on
    writing. With the screen frozen and the selection within it, whatever the
    program does, the selected text and the highlight stay (only moving up with
    the view). A selection that reaches into history, or without a freeze, stays
    as long as its lines do: when [e] lines of history are gone, as the line
    identities count them, and the lines below them are as they were. *)
Theorem selection_survives s g g' l x :
  let e := gone s g' in let d := moved_by s e in
  anchor s = Some (l, x) -> cy s < cs_height s -> top s <= max_top s g -> survives s e (top s) -> survives s e l ->
  match frozen s with
  | Some f => f_start f <= top s /\ f_start f <= l \/ history_kept g g' e (f_start f)
  | None => history_kept g g' e (N.max (cursor_line s) l + 1) /\ total_lines g <= total_lines g' + e
  end ->
  let s' := sync_history s g' in
  selected_text s' g' = selected_text s g
  /\ (forall line y, d <= line -> is_selected s' (line - d) y = is_selected s line y)
  /\ anchor s' = Some (l - d, x) /\ cursor_line s' = cursor_line s - d.
Proof.
  intros e d Ha Hcy Htop Hst Hsl Hkept s'.
  assert (s' = moved_state s g' l x) as ->.
  { eapply sync_spec; [done..|]. intros Ef. rewrite Ef in Hkept. by apply Hkept. }
  destruct (moved_cursor s g' l x Hst Hsl) as (Hc&Hd1&Hd2). fold e in Hd1, Hd2, Hc. fold d in Hd1, Hd2, Hc.
  split_and!; [|by apply moved_selected|done|done].
  unfold selected_text. rewrite moved_selection by done. unfold selection. rewrite Ha. cbn [mbind option_bind fmap option_fmap option_map].
  fold e. fold d. set (p := if _ <=? _ then _ else _).
  assert (d <= p.1.1 /\ d <= p.2.1 /\ p.2.1 <= N.max (cursor_line s) l /\ (p.1.1 = l \/ p.1.1 = cursor_line s)) as (H1&H2&H3&H4).
  { unfold p. destruct (_ <=? _); cbn; lia. }
  destruct p as [st en]. cbn [fst snd] in *.
  replace (en.1 - d + 1) with (en.1 + 1 - d) by lia. rewrite range_shift by done. rewrite map_map. f_equal.
  apply map_ext_in. intros i Hi. apply list_elem_of_In, elem_of_range in Hi.
  assert (survives s e st.1) as Hsv.
  { destruct H4 as [ -> | -> ]; [done|]. unfold survives, cursor_line in *. destruct (frozen s); lia. }
  assert (forall f, frozen s = Some f -> i < f_start f -> e <= i /\ d = e) as Hlt.
  { intros f Ef Hif. unfold survives in Hsv. rewrite Ef in Hsv. unfold d, moved_by. rewrite Ef. lia. }
  assert (frozen s = None -> e <= i /\ d = e) as Hnone.
  { intros Ef. unfold survives in Hsv. rewrite Ef in Hsv. unfold d, moved_by. rewrite Ef. lia. }
  apply moved_line; try done; fold e d; try lia.
  - destruct (frozen s) as [f|] eqn:Ef.
    + destruct (N.leb_spec (f_start f) i) as [|Hif]; [by left|right]. destruct (Hlt f eq_refl Hif) as [Hei ->].
      destruct Hkept as [[Ht Hl']|[_ Hk]]; [|by apply Hk]. unfold cursor_line in H4. lia.
    + destruct (Hnone eq_refl) as [Hei ->]. apply Hkept; [done|]. lia.
  - destruct (frozen s) as [f|] eqn:Ef; [|left; by apply Hkept].
    destruct Hkept as [[Ht Hl']|[Hw _]]; [|by left]. right. exists f. split; [done|]. unfold cursor_line in H4. lia.
Qed.

(** ** The highlighted cells are the copied ones *)

(** A row of whole glyphs, as [Wide.glyphs_whole] keeps the screen's. *)
Definition whole_line (g : Grid) (i : N) : Prop :=
  paired (g_width g) (fun x => width (line_cell g i x)) /\ forall x, width (line_cell g i x) <= 2.

Definition lead_text (g : Grid) (i x : N) : str := (reads g i x).1.

Lemma display_width_of c : display_width c = width c.
Proof. unfold display_width, is_continuation. destruct (N.eqb_spec (width c) 0); lia. Qed.

(** A second half adds no text. *)
Lemma second_half g i x : whole_line g i -> x + 1 < g_width g -> width (line_cell g i x) = 2 -> lead_text g i (x + 1) = [].
Proof.
  intros [[_ Hp] _] Hx Hw. destruct (Hp x) as [_ H]; [lia|]. unfold lead_text, reads, is_continuation. cbn.
  by rewrite (proj1 (H Hx) Hw).
Qed.

Lemma range_cons a b : a < b -> range a b = a :: range (a + 1) b.
Proof.
  intros H. unfold range. replace (N.to_nat (b - a)) with (S (N.to_nat (b - (a + 1)))) by lia.
  cbn [List.seq map]. f_equal; [lia|]. rewrite <- seq_shift, map_map. apply map_ext. intros k. lia.
Qed.

Lemma range_nil a b : b <= a -> range a b = [].
Proof. intros H. unfold range. by replace (N.to_nat (b - a)) with 0%nat by lia. Qed.

(** The loop over glyphs is the text of the columns. *)
Lemma range_loop_columns g i to : whole_line g i -> g_width g <= u16_max -> forall n x,
  (N.to_nat (N.min to (g_width g) - x) <= n)%nat ->
  range_loop n g i to x = concat (map (lead_text g i) (range x (N.min to (g_width g)))).
Proof.
  intros Hw Hg n. induction n as [n IH] using lt_wf_ind. intros x Hn. destruct n as [|n].
  { rewrite range_nil by lia. done. }
  rewrite range_loop_reads. destruct (N.ltb_spec x (N.min to (g_width g))) as [Hx|Hx]; [|by rewrite range_nil].
  rewrite range_cons by done. cbn [map concat]. fold (lead_text g i x). f_equal.
  change ((reads g i x).2) with (display_width (line_cell g i x)). rewrite display_width_of.
  pose proof (proj2 Hw x) as H2. unfold u16_max in Hg.
  assert (width (line_cell g i x) <= 1 \/ width (line_cell g i x) = 2) as [H|H] by lia.
  - rewrite N.max_r by done. rewrite wadd_small by (unfold U16; lia). apply IH; lia.
  - rewrite H. change (N.max 2 1) with 2. assert (x + 1 < g_width g) as Hx1 by (apply (proj2 (proj1 Hw) x); [lia|done]).
    rewrite wadd_small by (unfold U16; lia). destruct (N.ltb_spec (x + 1) (N.min to (g_width g))) as [Hlt|Hge].
    + rewrite (range_cons (x + 1)) by done. cbn [map concat]. rewrite (second_half g i x) by done. cbn [app].
      replace (x + 1 + 1) with (x + 2) by lia. apply IH; lia.
    + rewrite (range_nil (x + 1)) by done. cbn. rewrite (IH n) by lia. by rewrite range_nil by lia.
Qed.

(** The column a text starts at: a glyph whose second half is named counts. *)
Definition text_start (g : Grid) (i from : N) : N :=
  let x := N.min from (g_width g) in if (0 <? x) && is_continuation (line_cell g i x) then x - 1 else x.

Lemma range_text_columns g i from to : whole_line g i -> g_width g <= u16_max ->
  line_text_range g i from to = concat (map (lead_text g i) (range (text_start g i from) (N.min to (g_width g)))).
Proof. intros Hw Hg. unfold line_text_range. apply range_loop_columns; [done|done|lia]. Qed.

(** What a selection takes of a line of the view. *)
Lemma selected_columns s st en line x : selection s = Some (st, en) -> st.2 < cs_width s -> en.2 < cs_width s ->
  cs_width s <= u16_max -> x < cs_width s ->
  is_selected s line x = true <->
  st.1 <= line /\ line <= en.1 /\ selected_from st line <= x /\ x < selected_to s en line.
Proof.
  intros Hs Hst Hen Hw Hx. unfold is_selected. rewrite Hs, andb_true_iff, !N.leb_le. unfold position_in, selected_from, selected_to, sadd.
  cbn [fst snd]. assert (forall a b y z, y < cs_width s -> z < cs_width s ->
    a * cs_width s + y <= b * cs_width s + z <-> a < b \/ a = b /\ y <= z) as Hlex.
  { intros a b y z Hy Hz. split; [|nia]. intros H. destruct (N.lt_trichotomy a b) as [|[->|]]; [by left|right; lia|nia]. }
  rewrite !Hlex by done. destruct (N.eqb_spec line st.1), (N.eqb_spec line en.1); unfold u16_max in *; lia.
Qed.

Lemma selection_order s st en : selection s = Some (st, en) -> position_in s st <= position_in s en.
Proof.
  unfold selection. destruct (anchor s) as [a|]; [|done]. cbn.
  destruct (N.leb_spec (position_in s a) (position_in s (cursor_line s, cx s))); intros [= <- <-]; lia.
Qed.

(** The text of a line's highlighted cells. *)
Definition highlighted (s : CopyState) (g : Grid) (line : N) : str :=
  let '(src, i) := source s g line in
  concat (map (fun x => if cell_highlighted s line x (line_cell src i x) then lead_text src i x else []) (range 0 (cs_width s))).

Lemma concat_nil_map {A} (f : N -> list A) l : (forall x, x ∈ l -> f x = []) -> concat (map f l) = [].
Proof.
  induction l as [|x l IH]; intros H; [done|]. cbn. rewrite (H x) by left. apply IH. intros y Hy. apply H. by right.
Qed.

Lemma range_app a b c : a <= b -> b <= c -> range a c = range a b ++ range b c.
Proof.
  intros H1 H2. remember (N.to_nat (b - a)) as n eqn:E. revert a H1 E. induction n as [|n IH]; intros a H1 E.
  - assert (a = b) as -> by lia. by rewrite (range_nil b b).
  - rewrite (range_cons a c), (range_cons a b) by lia. cbn [app]. f_equal. apply IH; lia.
Qed.

(** A sum over an interval within a larger one. *)
Lemma concat_interval {A} (f : N -> list A) a b c : b <= c ->
  concat (map f (range a b)) = concat (map (fun x => if (a <=? x) && (x <? b) then f x else []) (range 0 c)).
Proof.
  intros Hc. destruct (N.le_gt_cases a b) as [Hab|Hab].
  - rewrite (range_app 0 a c), (range_app a b c), !map_app, !concat_app by lia.
    rewrite (concat_nil_map _ (range 0 a)), (concat_nil_map _ (range b c)), app_nil_r.
    + cbn [app]. f_equal. apply map_ext_in. intros x Hx. apply list_elem_of_In, elem_of_range in Hx.
      destruct (N.leb_spec a x), (N.ltb_spec x b); try done; lia.
    + intros x Hx%elem_of_range. destruct (N.leb_spec a x), (N.ltb_spec x b); try done; lia.
    + intros x Hx%elem_of_range. destruct (N.leb_spec a x), (N.ltb_spec x b); try done; lia.
  - rewrite range_nil by lia. symmetry. apply concat_nil_map. intros x _.
    destruct (N.leb_spec a x), (N.ltb_spec x b); try done; lia.
Qed.

Section Highlight.
Context (s : CopyState) (st en : N * N) (src : Grid) (i line : N).
Context (Hs : selection s = Some (st, en)) (Hst : st.2 < cs_width s) (Hen : en.2 < cs_width s) (Hw : cs_width s <= u16_max).
Context (Hline : whole_line src i) (Hsrc : g_width src = cs_width s) (Hlo : st.1 <= line) (Hhi : line <= en.1).
Let from := selected_from st line.
Let to := selected_to s en line.
Let start := text_start src i from.

Lemma bounds_ok : from < cs_width s /\ to <= cs_width s /\ (0 < from -> from < to).
Proof.
pose proof (selection_order s st en Hs) as Ho. unfold position_in in Ho.
assert (st.1 = en.1 -> st.2 <= en.2) as Hsame by (intros E; rewrite E in Ho; lia).
unfold from, to, selected_from, selected_to, sadd, u16_max in *.
destruct (N.eqb_spec line st.1), (N.eqb_spec line en.1); split_and!; lia.
Qed.

Lemma start_cases : (start = from /\ is_continuation (line_cell src i from) = false \/ start = from /\ from = 0)
\/ (start = from - 1 /\ 0 < from /\ width (line_cell src i (from - 1)) = 2).
Proof.
destruct bounds_ok as (Hf&_&_). unfold start, text_start. rewrite N.min_l by lia.
destruct (N.ltb_spec 0 from) as [Hp|Hp]; cbn [andb]; [|left; right; lia].
destruct (is_continuation (line_cell src i from)) eqn:Ec; [|left; left; done]. right. split_and!; [done|done|].
destruct (proj2 (proj1 Hline) (from - 1)) as [_ H]; [lia|]. apply H; [lia|].
replace (from - 1 + 1) with from by lia. by apply N.eqb_eq in Ec.
Qed.

(** A glyph is highlighted exactly from the start to the end of the text. *)
Lemma lead_highlighted x : x < cs_width s -> is_continuation (line_cell src i x) = false ->
cell_highlighted s line x (line_cell src i x) = true <-> start <= x /\ x < to.
Proof.
intros Hx Hc. destruct bounds_ok as (Hf&Ht&Hft). unfold cell_highlighted. rewrite orb_true_iff, andb_true_iff, N.eqb_eq.
rewrite wadd_small by (unfold U16, u16_max in *; lia).
assert (width (line_cell src i x) = 2 -> x + 1 < cs_width s) as H2.
{ rewrite <- Hsrc. apply (proj2 (proj1 Hline) x). lia. }
rewrite (selected_columns s st en line x) by done. fold from to.
assert (width (line_cell src i x) = 2 /\ is_selected s line (x + 1) = true <-> width (line_cell src i x) = 2 /\ from <= x + 1 /\ x + 1 < to) as ->.
{ split; intros [Hx2 H]; (split; [done|]); specialize (H2 Hx2).
  - apply (selected_columns s st en line) in H; try done. by destruct H as (_&_&?).
  - apply (selected_columns s st en line); done. }
assert (from = x + 1 -> width (line_cell src i x) = 2 -> is_continuation (line_cell src i from) = true) as Hpair.
{ intros E Hx2. specialize (H2 Hx2). apply N.eqb_eq. rewrite E. apply (proj2 (proj1 Hline) x); lia. }
destruct start_cases as [[[-> Hn]|[-> ->]]|(->&Hp&Hw2)].
- split; [|lia]. intros [?|(?&?&?)]; [lia|]. destruct (decide (from = x + 1)) as [E|]; [|lia]. rewrite Hpair in Hn by done. done.
- lia.
- destruct (decide (x = from - 1)) as [->|Hne]; [|lia]. split; [lia|]. intros _. right. split; [done|]. lia.
Qed.

Lemma highlighted_text : line_text_range src i from to
= concat (map (fun x => if cell_highlighted s line x (line_cell src i x) then lead_text src i x else []) (range 0 (cs_width s))).
Proof.
destruct bounds_ok as (Hf&Ht&Hft). rewrite (range_text_columns src i from to Hline) by lia. fold start. rewrite Hsrc, N.min_l by done.
assert (start <= to \/ to <= start) as Hst' by lia.
assert (start <= cs_width s) as Hsw by (destruct start_cases as [[[-> _]|[-> ->]]|(->&_&_)]; lia).
assert (forall x, x < cs_width s -> (if cell_highlighted s line x (line_cell src i x) then lead_text src i x else [])
  = if (start <=? x) && (x <? to) then lead_text src i x else []) as Heq.
{ intros x Hx. destruct (is_continuation (line_cell src i x)) eqn:Ec.
  - assert (lead_text src i x = []) as -> by (unfold lead_text, reads; by rewrite Ec). by destruct (cell_highlighted _ _ _ _), (_ && _).
  - pose proof (lead_highlighted x Hx Ec) as H. destruct (cell_highlighted s line x (line_cell src i x)), (N.leb_spec start x), (N.ltb_spec x to);
      cbn [andb]; try done; [lia|lia|lia|]. assert (false = true) by (apply H; lia). done. }
rewrite (map_ext_in _ (fun x => if (start <=? x) && (x <? to) then lead_text src i x else []) (range 0 (cs_width s))).
2: { intros x Hx. apply Heq. apply list_elem_of_In, elem_of_range in Hx. lia. }
by apply concat_interval.
Qed.
End Highlight.

(** The lines of a selection that show whole glyphs on a grid as wide as the view. *)
Definition clean_line (s : CopyState) (g : Grid) (line : N) : Prop :=
  let '(src, i) := source s g line in whole_line src i /\ g_width src = cs_width s.

(** Whether a line ends in a newline when copied. *)
Definition breaks (s : CopyState) (g : Grid) (line : N) : bool :=
  let '(src, i) := source s g line in negb (line_wrapped src i).

(** C31: What is highlighted is what is copied. Line by line, the selected text is
    the text of exactly the cells the view highlights (a wide glyph is whole,
    whichever half an end of the selection is on), with trailing blanks
    dropped on lines selected to their end, and a newline after each line but the
    last and those that wrap into the next. No cell outside the selected lines is
    highlighted. *)
Theorem highlight_is_copied s g st en :
  selection s = Some (st, en) -> st.2 < cs_width s -> en.2 < cs_width s -> cs_width s <= u16_max ->
  (forall line, st.1 <= line -> line <= en.1 -> clean_line s g line) ->
  selected_text s g = concat (map (fun line =>
    (if selected_to s en line =? cs_width s then trim_end (highlighted s g line) else highlighted s g line)
    ++ (if negb (line =? en.1) && breaks s g line then [10] else [])) (range st.1 (en.1 + 1)))
  /\ (forall line x, x < cs_width s -> cell_highlighted s line x (line_cell (source s g line).1 (source s g line).2 x) = true ->
        clean_line s g line -> is_continuation (line_cell (source s g line).1 (source s g line).2 x) = false ->
        st.1 <= line /\ line <= en.1).
Proof.
  intros Hs Hst Hen Hw Hclean. split.
  - unfold selected_text. rewrite Hs. f_equal. apply map_ext_in. intros line Hl. apply list_elem_of_In, elem_of_range in Hl.
    specialize (Hclean line). unfold clean_line in Hclean. unfold selected_line, highlighted, breaks.
    destruct (source s g line) as [src i]. destruct Hclean as [Hline Hsrc]; [lia|lia|].
    rewrite (highlighted_text s st en src i line) by (done || lia). done.
  - intros line x Hx Hh Hc Hlead. unfold clean_line in Hc. destruct (source s g line) as [src i]. destruct Hc as [Hline Hsrc]. cbn [fst snd] in *.
    unfold cell_highlighted in Hh. apply orb_prop in Hh as [Hh|[Hw2%N.eqb_eq Hh]%andb_prop].
    + apply (selected_columns s st en) in Hh; try done. lia.
    + assert (x + 1 < cs_width s) as Hx1 by (rewrite <- Hsrc; apply (proj2 (proj1 Hline) x); [lia|done]).
      rewrite wadd_small in Hh by (unfold U16, u16_max in *; lia). apply (selected_columns s st en) in Hh; try done. lia.
Qed.

(** ** Sample buffers *)

Definition letter (t : char) : Cell := {|
  ch := t; fg := Default; bg := Default; attrs := NONE; width := 1; c_underline := 0; cluster := 0; c_hyperlink := 0 |}.

(** A program that scrolls the upper two rows of a screen of three and writes a
    letter on the second. *)
Fixpoint feed (g : Grid) (text : str) : Grid :=
  match text with
  | [] => g
  | c :: text => feed (set (scroll_region_up g 0 1 default_cell) 0 1 (letter c)) text
  end.

Definition view_rect : Rect := mkRect 0 0 2 3.
Definition five_lines : Grid := feed (set_scrollback_limit (Grid.new 2 3) 4) (lit "ABCDE").
Definition seven_lines : Grid := feed five_lines (lit "FG").

Definition plain (g : Grid) : bool := forallb (fun l => forallb (fun c => width c =? 1) (cells l)) (scrollback g ++ lines g).

Lemma plain_line g i : plain g = true -> whole_line g i.
Proof.
  unfold plain. rewrite forallb_forall. intros H.
  assert (forall x, width (line_cell g i x) = 1) as Hw.
  { intros x. unfold line_cell. destruct (line g i) as [l|] eqn:El; [|done]. cbn.
    destruct (cells l !! N.to_nat x) as [c|] eqn:Ec; [|done]. cbn.
    assert (In l (scrollback g ++ lines g)) as Hin.
    { apply list_elem_of_In, elem_of_app. unfold line in El. destruct (_ <? _); [left|right]; by eapply list_elem_of_lookup_2. }
    specialize (H l Hin). rewrite forallb_forall in H. apply N.eqb_eq, H. apply list_elem_of_In. by eapply list_elem_of_lookup_2. }
  split; [by apply paired_ones|]. intros x. rewrite Hw. lia.
Qed.

Lemma plain_clean s g line : plain g = true -> g_width g = cs_width s -> frozen s = None -> clean_line s g line.
Proof. intros Hp Hw Hf. unfold clean_line, source. rewrite Hf. split; [by apply plain_line|done]. Qed.

Definition keys (s : CopyState) (text : string) (g : Grid) : CopyState := (handle s (lit text) g).1.

Lemma highlight_is_copied_witness :
  let s := keys (new five_lines view_rect) "gjvjl" five_lines in
  selected_text s five_lines = lit "A" ++ [10] ++ lit "B" /\ highlighted s five_lines 1 = lit "A ".
Proof.
  split; [|vm_compute; reflexivity].
  destruct (highlight_is_copied (keys (new five_lines view_rect) "gjvjl" five_lines) five_lines (1, 0) (2, 1)) as [H _];
    [vm_compute; reflexivity..|vm_compute; discriminate| |].
  - intros line _ _. apply plain_clean; vm_compute; reflexivity.
  - etransitivity; [exact H|]. vm_compute. reflexivity.
Defined.

(** ** Search *)

Lemma len8_app a b : len8 (a ++ b) = len8 a + len8 b.
Proof. unfold len8, utf8. rewrite map_app, concat_app, length_app. lia. Qed.

(** [find_str] is the first occurrence, by its byte offset. *)
Lemma find_str_spec needle hay off : find_str needle hay = Some off ->
  exists pre post, hay = pre ++ needle ++ post /\ off = len8 pre
    /\ forall pre' post', hay = pre' ++ needle ++ post' -> (length pre <= length pre')%nat.
Proof.
  revert off. induction hay as [|c hay IH]; intros off; cbn [find_str]; case_bool_decide as Hp.
  - destruct Hp as [k Hk]. intros [= <-]. exists [], k. split_and!; [done|done|intros; cbn; lia].
  - done.
  - destruct Hp as [k Hk]. intros [= <-]. exists [], k. split_and!; [done|done|intros; cbn; lia].
  - destruct (find_str needle hay) as [o|] eqn:E; [|done]. cbn. intros [= <-].
    destruct (IH o eq_refl) as (pre&post&->&->&Hmin). exists (c :: pre), post. split_and!; [done| |].
    + rewrite <- len8_app. done.
    + intros [|c' pre'] post' Heq; [destruct Hp; by exists post'|]. injection Heq as <- Heq. cbn. specialize (Hmin pre' post' Heq). lia.
Qed.

Lemma find_str_none needle hay : find_str needle hay = None -> forall pre post, hay <> pre ++ needle ++ post.
Proof.
  induction hay as [|c hay IH]; cbn [find_str]; case_bool_decide as Hp; try done.
  - intros _ pre post Heq. destruct pre; [|done]. apply Hp. by exists post.
  - destruct (find_str needle hay); [done|]. intros _ [|c' pre] post Heq; [apply Hp; by exists post|].
    injection Heq as <- Heq. by apply (IH eq_refl pre post).
Qed.

(** The text of the columns before [x]. *)
Definition columns (g : Grid) (i x : N) : str := concat (map (lead_text g i) (range 0 x)).

Lemma columns_next g i x : columns g i (x + 1) = columns g i x ++ lead_text g i x.
Proof.
  unfold columns. rewrite (range_app 0 x (x + 1)) by lia. rewrite (range_cons x) by lia. rewrite (range_nil (x + 1)) by lia.
  by rewrite map_app, concat_app; cbn; rewrite app_nil_r.
Qed.

(** The glyph at [col] has the byte [off] of the line's text. *)
Definition covers (g : Grid) (i off col : N) : Prop :=
  is_continuation (line_cell g i col) = false /\ len8 (columns g i col) <= off
  /\ (off < len8 (columns g i (col + 1)) \/ off = len8 (columns g i col)).

Lemma column_loop_covers g i w off : whole_line g i -> g_width g <= u16_max ->
  off < len8 (columns g i (N.min w (g_width g))) -> forall n x,
  (N.to_nat (N.min w (g_width g) - x) < n)%nat -> x <= N.min w (g_width g) -> len8 (columns g i x) <= off ->
  let col := column_loop n g i w off (len8 (columns g i x)) x in covers g i off col /\ col < N.min w (g_width g).
Proof.
  intros Hw Hg Hoff n. induction n as [n IH] using lt_wf_ind. intros x Hn Hx Hle. destruct n as [|n]; [lia|]. cbn zeta.
  cbn [column_loop]. destruct (N.ltb_spec x (N.min w (g_width g))) as [Hlt|Hge].
  2: { exfalso. assert (x = N.min w (g_width g)) as Ex by lia. rewrite <- Ex in Hoff. by apply N.lt_nge in Hoff. }
  pose proof (proj2 Hw x) as H2. rewrite display_width_of. unfold u16_max in Hg.
  pose proof (columns_next g i x) as Hnext. apply (f_equal len8) in Hnext. rewrite len8_app in Hnext.
  destruct (is_continuation (line_cell g i x)) eqn:Ec.
  { assert (width (line_cell g i x) = 0) as H0 by (by apply N.eqb_eq in Ec). rewrite H0. change (N.max 0 1) with 1.
    rewrite wadd_small by (unfold U16; lia).
    assert (lead_text g i x = []) as Hl by (unfold lead_text, reads; by rewrite Ec). rewrite Hl in Hnext. change (len8 []) with 0 in Hnext.
    rewrite N.add_0_r in Hnext. rewrite <- Hnext. apply IH; lia. }
  assert (lead_text g i x = cell_text_owned g (line_cell g i x)) as Hl by (unfold lead_text, reads; by rewrite Ec). rewrite <- Hl.
  destruct (N.leb_spec off (len8 (columns g i x))) as [Ho|Ho]; cbn [orb].
  { split; [|done]. split_and!; [done|lia|right; lia]. }
  destruct (N.ltb_spec off (len8 (columns g i x) + len8 (lead_text g i x))) as [Hin|Hout].
  { split; [|done]. split_and!; [done|lia|left; lia]. }
  rewrite <- Hnext in *.
  assert (width (line_cell g i x) = 0 \/ width (line_cell g i x) = 1 \/ width (line_cell g i x) = 2) as [H|[H|H]] by lia.
  - unfold is_continuation in Ec. apply N.eqb_neq in Ec. done.
  - rewrite H. change (N.max 1 1) with 1. rewrite wadd_small by (unfold U16; lia). apply IH; lia.
  - rewrite H. change (N.max 2 1) with 2. assert (x + 1 < g_width g) as Hx1 by (apply (proj2 (proj1 Hw) x); [lia|done]).
    rewrite wadd_small by (unfold U16; lia).
    assert (len8 (columns g i (x + 2)) = len8 (columns g i (x + 1))) as E.
    { replace (x + 2) with (x + 1 + 1) by lia. rewrite (columns_next g i (x + 1)), (second_half g i x) by done. by rewrite app_nil_r. }
    rewrite <- E in Hout |- *. destruct (N.le_gt_cases (x + 2) (N.min w (g_width g))) as [Hle2|Hgt2]; [apply IH; lia|].
    assert (N.min w (g_width g) = x + 1) as Em by lia. rewrite Em in Hoff. lia.
Qed.

Definition view_text (s : CopyState) (g : Grid) (line : N) : str :=
  let '(src, i) := source s g line in line_text src i (cs_width s).

(** [col] has the beginning of the first match on [line]. *)
Definition found_at (s : CopyState) (g : Grid) (line col : N) : Prop :=
  exists pre post, view_text s g line = pre ++ query s ++ post
  /\ (forall pre' post', view_text s g line = pre' ++ query s ++ post' -> (length pre <= length pre')%nat)
  /\ covers (source s g line).1 (source s g line).2 (len8 pre) col /\ col < cs_width s.

Lemma trim_end_prefix t : exists k, t = trim_end t ++ k.
Proof.
  unfold trim_end. assert (forall u, exists k, u = k ++ trim_start u) as H.
  { induction u as [|c u [k IH]]; [by exists []|]. cbn. destruct (is_whitespace c); [|by exists []]. exists (c :: k). cbn. by f_equal. }
  destruct (H (rev t)) as [k Hk]. exists (rev k). rewrite <- rev_app_distr, <- Hk. by rewrite rev_involutive.
Qed.

Lemma len8_pos (t : str) : t <> [] -> 0 < len8 t.
Proof.
  destruct t as [|c t]; [done|]. intros _. unfold len8, utf8. cbn. rewrite length_app.
  unfold utf8_char. destruct (c <? 128), (c <? 2048), (c <? 65536); cbn; lia.
Qed.

Lemma match_found s g line : query s <> [] -> clean_line s g line -> cs_width s <= u16_max ->
  match match_at s g line with
  | Some col => found_at s g line col
  | None => forall pre post, view_text s g line <> pre ++ query s ++ post
  end.
Proof.
  intros Hq Hc Hw. unfold match_at, found_at, view_text, clean_line in *. destruct (source s g line) as [src i]. destruct Hc as [Hl Hsrc]. cbn [fst snd].
  destruct (find_str (query s) (line_text src i (cs_width s))) as [off|] eqn:E; cbn [fmap option_fmap option_map].
  2: { intros pre post. by apply find_str_none. }
  destruct (find_str_spec _ _ _ E) as (pre&post&Ht&->&Hmin). exists pre, post. split_and!; [done|done| |].
  all: assert (N.min (cs_width s) (g_width src) = cs_width s) as Em by lia.
  all: assert (len8 pre < len8 (columns src i (N.min (cs_width s) (g_width src)))) as Hoff.
  1, 3: rewrite Em; unfold line_text in Ht; rewrite range_text_columns in Ht by (done || lia);
    assert (text_start src i 0 = 0) as E0 by (unfold text_start; by rewrite N.min_0_l);
    rewrite E0, Em in Ht; fold (columns src i (cs_width s)) in Ht; destruct (trim_end_prefix (columns src i (cs_width s))) as [k ->];
    rewrite Ht, !len8_app; pose proof (len8_pos _ Hq); lia.
  all: destruct (column_loop_covers src i (cs_width s) (len8 pre) Hl ltac:(lia) Hoff (S (N.to_nat (g_width src))) 0) as [H1 H2];
    [lia|lia|unfold columns; rewrite (range_nil 0 0) by lia; change (len8 (concat (map (lead_text src i) []))) with 0; lia|].
  all: unfold search_column; unfold columns in H1, H2; rewrite (range_nil 0 0) in H1, H2 by lia; cbn [map concat] in H1, H2; change (len8 []) with 0 in H1, H2.
  - done.
  - lia.
Qed.

(** The steps visit every line, the cursor's own last. *)
Lemma step_line_range total start step forward : 0 < total -> step_line total start step forward < total.
Proof. intros H. unfold step_line. destruct forward; apply N.mod_lt; lia. Qed.

Lemma step_line_covers total start forward line : start < total -> line < total ->
  exists k, 1 <= k /\ k <= total /\ step_line total start k forward = line.
Proof.
  intros Hs Hl. unfold step_line. destruct forward.
  - destruct (N.lt_ge_cases start line) as [H|H].
    + exists (line - start). split_and!; [lia|lia|]. rewrite N.mod_small; lia.
    + exists (line + total - start). split_and!; [lia|lia|]. replace (start + (line + total - start)) with (line + 1 * total) by lia.
      rewrite N.Div0.mod_add. apply N.mod_small. lia.
  - destruct (N.lt_ge_cases line start) as [H|H].
    + exists (start - line). split_and!; [lia|lia|]. replace (start + total - (start - line)) with (line + 1 * total) by lia.
      rewrite N.Div0.mod_add. apply N.mod_small. lia.
    + exists (start + total - line). split_and!; [lia|lia|]. replace (start + total - (start + total - line)) with line by lia.
      apply N.mod_small. lia.
Qed.

(** [search_loop] stops at the first step whose line matches. *)
Lemma search_loop_first s g total start forward n a :
  (exists k col, a <= k /\ k < a + N.of_nat n /\ match_at s g (step_line total start k forward) = Some col
     /\ (forall j, a <= j -> j < k -> match_at s g (step_line total start j forward) = None)
     /\ search_loop s g total start forward (range a (a + N.of_nat n)) = land_on s g (step_line total start k forward) col)
  \/ (forall k, a <= k -> k < a + N.of_nat n -> match_at s g (step_line total start k forward) = None)
     /\ search_loop s g total start forward (range a (a + N.of_nat n)) = s.
Proof.
  revert a. induction n as [|n IH]; intros a; [right; split; [lia|by rewrite range_nil by lia]|].
  rewrite (range_cons a) by lia. cbn [search_loop].
  destruct (match_at s g (step_line total start a forward)) as [col|] eqn:E.
  - left. exists a, col. split_and!; [lia|lia|done|lia|done].
  - replace (a + N.of_nat (S n)) with (a + 1 + N.of_nat n) by lia.
    destruct (IH (a + 1)) as [(k&col&Hk1&Hk2&Hm&Hn&->)|[Hn ->]].
    + left. exists k, col. split_and!; [lia|lia|done| |done]. intros j Hj1 Hj2.
      destruct (decide (j = a)) as [->|]; [done|]. apply Hn; lia.
    + right. split; [|done]. intros k Hk1 Hk2. destruct (decide (k = a)) as [->|]; [done|]. apply Hn; lia.
Qed.

(** The view shows a line under the cursor. *)
Lemma land_on_spec s g line col : line < view_lines s g -> cs_height s <= view_lines s g -> cs_height s <= u16_max -> 0 < cs_height s ->
  col < cs_width s ->
  let s' := land_on s g line col in
  cursor_line s' = line /\ cx s' = col /\ cy s' < cs_height s /\ top s' <= max_top s g.
Proof.
  intros Hl Hh Hu Hp Hc. unfold land_on, cursor_line. cbn. unfold max_top, view_lines in *. cbn. unfold ssub, u16_max in *.
  assert (N.min col (cs_width s - 1) = col) as -> by lia.
  set (t := N.min line _). assert (line - t < cs_height s) as Ht by (unfold t; lia).
  rewrite N.mod_small by (unfold U16; lia). unfold t. split_and!; lia.
Qed.

(** C37: a search goes from line to line. Forward or backward from the cursor's
    line and around the ends, the cursor's own line last, it takes the first line
    whose text contains the query and puts the cursor on the glyph where the
    leftmost match of that line begins, in view; no line passed over contains the
    query. Other matches of a line are never landed on ([search_by_line] below).
    Without a match on any line nothing moves. *)
Theorem search_exact s g forward :
  query s <> [] -> cursor_line s < view_lines s g -> cs_height s <= view_lines s g -> 0 < cs_height s ->
  cs_height s <= u16_max -> cs_width s <= u16_max -> (forall line, line < view_lines s g -> clean_line s g line) ->
  let total := view_lines s g in
  let s' := run_search s g forward in
  (exists k, 1 <= k <= total
     /\ found_at s g (cursor_line s') (cx s') /\ cursor_line s' = step_line total (cursor_line s) k forward
     /\ (forall j pre post, 1 <= j < k -> view_text s g (step_line total (cursor_line s) j forward) <> pre ++ query s ++ post)
     /\ cy s' < cs_height s /\ top s' <= max_top s g /\ anchor s' = anchor s /\ frozen s' = frozen s)
  \/ (s' = s /\ forall line pre post, line < total -> view_text s g line <> pre ++ query s ++ post).
Proof.
  intros Hq Hc Hh Hp Hu Hw Hclean total. cbv zeta. unfold run_search. destruct (query s) as [|q0 qs] eqn:Eq; [done|]. rewrite <- Eq in *.
  fold total. assert (0 < total) as Ht by (unfold total; lia).
  pose proof (search_loop_first s g total (cursor_line s) forward (N.to_nat total) 1) as H.
  rewrite N2Nat.id, (N.add_comm 1 total) in H. destruct H as [(k&col&Hk1&Hk2&Hm&Hn&->)|[Hn ->]].
  - left. exists k. set (line := step_line total (cursor_line s) k forward) in *.
    assert (line < total) as Hl by by apply step_line_range.
    pose proof (match_found s g line Hq (Hclean line Hl) Hw) as Hf. rewrite Hm in Hf.
    assert (col < cs_width s) as Hcol by (destruct Hf as (?&?&_&_&_&?); done).
    destruct (land_on_spec s g line col Hl Hh Hu Hp Hcol) as (E1&E2&E3&E4). rewrite E1, E2. split_and!; try done; try lia.
    intros j pre post Hj. set (lj := step_line total (cursor_line s) j forward).
    pose proof (match_found s g lj Hq (Hclean lj (step_line_range _ _ _ _ Ht)) Hw) as Hfj.
    unfold lj in Hfj. rewrite Hn in Hfj by lia. apply Hfj.
  - right. split; [done|]. intros line pre post Hl.
    destruct (step_line_covers total (cursor_line s) forward line Hc Hl) as (k&Hk1&Hk2&<-).
    pose proof (match_found s g _ Hq (Hclean _ Hl) Hw) as Hf. rewrite Hn in Hf by lia. apply Hf.
Qed.

Lemma search_exact_witness :
  let s := keys (new five_lines view_rect) "g/D" five_lines in
  view_text (run_search s five_lines true) five_lines (cursor_line (run_search s five_lines true)) = lit "D".
Proof.
  destruct (search_exact (keys (new five_lines view_rect) "g/D" five_lines) five_lines true) as [(k&_&_&E&_)|[_ H]];
    [vm_compute; discriminate|vm_compute; reflexivity|vm_compute; discriminate|vm_compute; reflexivity|vm_compute; discriminate|vm_compute; discriminate| | |].
  - intros line _. apply plain_clean; vm_compute; reflexivity.
  - vm_compute. reflexivity.
  - exfalso. apply (H 4 [] []); vm_compute; reflexivity.
Defined.

(** The column of the cursor plays no part: on a line with two matches, the only
    one with any, a search in either direction stays on the first. *)
Definition two_matches : Grid := set (set (Grid.new 3 1) 0 0 (letter 120)) 2 0 (letter 120).

Example search_by_line :
  let s := keys (new two_matches (mkRect 0 0 3 1)) "g/x" two_matches in
  view_text s two_matches 0 = lit "x x"
  /\ (cursor_line s, cx s) = (0, 0)
  /\ map (fun f => (cursor_line (run_search s two_matches f), cx (run_search s two_matches f))) [true; false] = [(0, 0); (0, 0)]
  /\ cx (run_search (s <| cx := 2 |>) two_matches true) = 0.
Proof. vm_compute. done. Qed.

(** ** Evictions *)

(** The screen frozen, a selection of its middle row holds through an output of
    seven lines. *)
Lemma selection_survives_witness :
  let s := keys (set_freeze_on_select (new five_lines view_rect) true) "kv" five_lines in
  selected_text (sync_history s seven_lines) seven_lines = selected_text s five_lines
  /\ selected_text s five_lines = lit "E".
Proof.
  split; [|vm_compute; reflexivity].
  destruct (selection_survives (keys (set_freeze_on_select (new five_lines view_rect) true) "kv" five_lines)
    five_lines seven_lines 5 0) as [H _]; [vm_compute; reflexivity|vm_compute; reflexivity|vm_compute; discriminate| | | |exact H].
  - vm_compute. left. discriminate.
  - vm_compute. left. discriminate.
  - vm_compute. left. split; discriminate.
Defined.

(** The identities do not count the lines: those of rows below a scroll region,
    older than the lines that scroll past them, leave gaps. Two lines are gone
    here and three are taken off, so a selection that begins on the line of C
    then begins on the line of B. *)
Example eviction_miscounted :
  let s := keys (new five_lines view_rect) "gjjjv" five_lines in
  let s' := sync_history s seven_lines in
  anchor s = Some (3, 0) /\ view_text s five_lines 3 = lit "C"
  /\ map (view_text s five_lines) [2; 3; 4; 5] = map (view_text s' seven_lines) [0; 1; 2; 3]
  /\ anchor s' = Some (0, 0) /\ view_text s' seven_lines 0 = lit "B".
Proof. vm_compute. done. Qed.

(** History above a frozen screen is not always what it was: when the program
    enters the alternate screen, the lines above are read from that screen. *)
Example frozen_history_replaced :
  let s := keys (set_freeze_on_select (new five_lines view_rect) true) "ggjlvG" five_lines in
  let alternate := set (Grid.new 2 3) 0 1 (letter 88) in
  let s' := sync_history s alternate in
  selected_text s five_lines = [10] ++ lit "B" ++ [10] ++ lit "C" ++ [10] ++ lit "D" ++ [10] ++ lit "E" ++ [10]
  /\ is_frozen s' = true /\ anchor s' = anchor s /\ view_text s five_lines 1 = lit "A" /\ view_text s' alternate 1 = lit "X".
Proof. vm_compute. done. Qed.

(** ** The cursor stays in the view *)

Record framed (s : CopyState) (g : Grid) : Prop := {
  fr_column : cx s < cs_width s;
  fr_row : cy s < cs_height s;
  fr_top : top s <= max_top s g;
  fr_anchor : forall a, anchor s = Some a -> a.2 < cs_width s;
  fr_frozen : view_lines s g <= total_lines g;
  fr_size : cs_width s <= u16_max /\ cs_height s <= u16_max }.

(** Steps that keep the window and the freeze. *)
Definition same_frame (s s' : CopyState) : Prop :=
  cs_width s' = cs_width s /\ cs_height s' = cs_height s /\ frozen s' = frozen s.

Lemma frame_step s s' g : framed s g -> same_frame s s' -> cx s' < cs_width s -> cy s' < cs_height s ->
  top s' <= max_top s g -> (forall a, anchor s' = Some a -> a.2 < cs_width s) -> framed s' g.
Proof.
  intros [H1 H2 H3 H4 H5 H6] (E1&E2&E3) ? ? ? ?. assert (view_lines s' g = view_lines s g) as Ev by (unfold view_lines; by rewrite E3).
  split; rewrite ?E1, ?E2, ?Ev; try done. unfold max_top. by rewrite Ev, E2.
Qed.

Ltac frame H := apply (frame_step _ _ _ H); [by repeat split| | | |exact (fr_anchor _ _ H)]; pose proof H as [? ? ? _ ? [? ?]];
  cbn [put_field cx cy top cs_width cs_height]; unfold put_field; cbn; unfold ssub, u16_max in *; try done; try lia.

Lemma forward_framed n test s g : framed s g -> framed (forward n test s) g.
Proof.
  revert s. induction n as [|n IH]; intros s H; [done|]. cbn [forward]. destruct (N.ltb_spec (cx s +16 1) (cs_width s)) as [Hlt|]; [|done].
  destruct (test (cx s)); [|done]. apply IH. frame H.
Qed.

Lemma backward_framed n test s g : framed s g -> framed (backward n test s) g.
Proof.
  revert s. induction n as [|n IH]; intros s H; [done|]. cbn [backward]. destruct (N.ltb_spec 0 (cx s)) as [Hlt|]; [|done].
  destruct (test (cx s)); [|done]. apply IH. frame H.
Qed.

Lemma left_framed s g : framed s g -> framed (left s) g.
Proof. intros H. unfold left. frame H. Qed.

Lemma up_framed s g : framed s g -> framed (up s) g.
Proof.
  intros H. unfold up. destruct (N.ltb_spec 0 (cy s)); [frame H|]. destruct (N.ltb_spec 0 (top s)); [frame H|done].
Qed.

Lemma down_framed s g : framed s g -> framed (down s g) g.
Proof.
  intros H. unfold down. destruct (_ <=? _); [done|]. destruct (N.ltb_spec (cy s) (cs_height s - 1)).
  - frame H. rewrite wadd_small; unfold U16; lia.
  - destruct (N.ltb_spec (top s) (max_top s g)); [frame H|done].
Qed.

Lemma right_framed s g : framed s g -> framed (right s) g.
Proof. intros H. unfold right. destruct (N.ltb_spec (cx s +16 1) (cs_width s)); [frame H|done]. Qed.

Lemma page_framed s g b : framed s g -> framed (page s g b) g.
Proof. intros H. unfold page. destruct b; frame H. Qed.

Lemma land_framed s g line col : framed s g -> line < view_lines s g -> framed (land_on s g line col) g.
Proof.
  intros H Hl. unfold land_on. pose proof H as [? ? ? _ ? [? ?]]. unfold u16_max in *. apply (frame_step _ _ _ H); [by repeat split|..|exact (fr_anchor _ _ H)];
    unfold put_field; cbn; unfold max_top, view_lines in *; cbn; unfold ssub in *; [lia| |lia].
  rewrite N.mod_small; unfold U16; lia.
Qed.

Lemma search_framed s g forward : framed s g -> framed (run_search s g forward) g.
Proof.
  intros H. unfold run_search. destruct (query s); [done|].
  pose proof (search_loop_first s g (view_lines s g) (cursor_line s) forward (N.to_nat (view_lines s g)) 1) as Hs.
  rewrite N2Nat.id, (N.add_comm 1) in Hs. destruct Hs as [(k&col&Hk1&Hk2&_&_&->)|[_ ->]]; [|done].
  apply land_framed; [done|]. apply step_line_range. lia.
Qed.

Lemma framed_same s s' g : framed s g -> same_frame s s' -> cx s' = cx s -> cy s' = cy s -> top s' = top s ->
  anchor s' = anchor s -> framed s' g.
Proof.
  intros H Hf E1 E2 E3 E4. apply (frame_step _ _ _ H Hf); rewrite ?E1, ?E2, ?E3, ?E4; apply H.
Qed.

Lemma freeze_framed s g : wf g -> framed s g -> framed (freeze_if_configured s g) g.
Proof.
  intros Hwf H. unfold freeze_if_configured, is_frozen. destruct (freeze_on_select s); [|done]. destruct (frozen s) eqn:E; [done|].
  match goal with |- framed ?t g => set (s1 := t) end. assert (view_lines s1 g = view_lines s g) as Ev.
  { unfold view_lines. rewrite E. cbn. destruct (freeze_screen_exact g Hwf) as (_&_&->&_). done. }
  destruct H as [H1 H2 H3 H4 H5 H6]. split; rewrite ?Ev; try done. unfold max_top in *. by rewrite Ev.
Qed.

Lemma toggle_framed s g : wf g -> framed s g -> framed (toggle_selection s g) g.
Proof.
  intros Hwf H. unfold toggle_selection. destruct (anchor s) as [a|] eqn:E.
  - destruct H as [? ? Ht ? Hf ?]. unfold thaw. split; try done; cbn.
    + unfold max_top in *. cbn. unfold put_field. cbn. unfold view_lines in *. cbn. unfold ssub in *. lia.
  - pose proof (freeze_framed s g Hwf H) as H'. apply (frame_step _ _ _ H'); [by repeat split|apply H'|apply H'|apply H'|].
    intros a. cbn. intros [= <-]. apply H'.
Qed.

Lemma word_framed s g : framed s g -> framed (next_big_word s g) g /\ framed (previous_big_word s g) g /\ framed (end_big_word s g) g.
Proof.
  intros H. unfold next_big_word, previous_big_word, end_big_word, forward_while, backward_while.
  pose proof (left_framed s g H) as Hl. unfold left in Hl.
  split_and!; [by apply forward_framed, forward_framed|by apply backward_framed, backward_framed|by apply forward_framed, forward_framed].
Qed.

Lemma key_framed s g b : wf g -> framed s g -> framed (key_byte s g b) g.
Proof.
  intros Hwf H. destruct (word_framed s g H) as (H1&H2&H3). unfold key_byte.
  repeat match goal with |- framed (if ?c then _ else _) g => destruct c end;
    try (by apply up_framed || by apply down_framed || by apply left_framed || by apply right_framed || by apply page_framed
      || by apply search_framed || by apply toggle_framed || done); try (frame H).
Qed.

Lemma csi_framed s g q : framed s g -> framed (csi_key s g q) g.
Proof.
  intros H. unfold csi_key. repeat case_bool_decide; by apply up_framed || apply down_framed || apply left_framed || apply right_framed || apply page_framed || apply H.
Qed.

Lemma search_byte_framed s g b : framed s g -> framed (search_byte s g b) g.
Proof.
  intros H. unfold search_byte. pose proof (search_framed s g true H) as Hs.
  repeat match goal with |- framed (if ?c then _ else _) g => destruct c end; try done;
    [apply (framed_same (run_search s g true))|apply (framed_same s)..]; done.
Qed.

Lemma handle_loop_framed n s g buf changed : wf g -> framed s g -> framed (handle_loop n s g buf changed).1 g.
Proof.
  intros Hwf. revert s buf changed. induction n as [|n IH]; intros s buf changed H; [by destruct buf|]. destruct buf as [|b rest]; [done|].
  cbn [handle_loop]. destruct (typing_search s); [by apply IH, search_byte_framed|]. destruct (b =? 27).
  - destruct rest as [|c input]; [done|]. destruct (negb (c =? 91)); [done|]. destruct (csi_sequence_len input) as [len|]; [|done]. destruct (jumps_to_live _); [done|]. by apply IH, csi_framed.
  - destruct (b =? 113); [done|]. destruct ((b =? 121) || (b =? 13) || (b =? 10)); [done|]. by apply IH, key_framed.
Qed.

(** What output in between leaves of a framed state. *)
Record steady (s : CopyState) : Prop := {
  st_column : cx s < cs_width s;
  st_height : 0 < cs_height s;
  st_anchor : forall a, anchor s = Some a -> a.2 < cs_width s;
  st_size : cs_width s <= u16_max /\ cs_height s <= u16_max }.

Lemma framed_steady s g : framed s g -> steady s.
Proof. intros [? ? ? ? ? ?]. split; try done. lia. Qed.

Lemma evict_fields s e : cx (evict s e) = cx s /\ cs_width (evict s e) = cs_width s /\ cs_height (evict s e) = cs_height s
  /\ forall a, anchor (evict s e) = Some a -> exists l, anchor s = Some (l, a.2).
Proof.
  split_and!; try done. intros a. unfold evict. cbn. unfold put_field. cbn. destruct (anchor s) as [[l x]|]; [|done]. cbn.
  destruct (shift_line _ _ _); [|done]. intros [= <-]. by exists l.
Qed.

Lemma sync_framed s g : steady s -> view_lines (sync_history s g) g <= total_lines g -> framed (sync_history s g) g.
Proof.
  intros [H1 H2 H3 H4] Hv. unfold sync_history in *. cbv zeta in *.
  set (s1 := match c_first_line_id s, first_line_id g with Some _, Some _ => _ | _, _ => _ end) in *.
  assert (cx s1 = cx s /\ cs_width s1 = cs_width s /\ cs_height s1 = cs_height s
    /\ forall a, anchor s1 = Some a -> exists l, anchor s = Some (l, a.2)) as (E1&E2&E3&E4).
  { assert (forall a, anchor s = Some a -> exists l, anchor s = Some (l, a.2)) as Hs by (intros [l x] ->; by exists l).
    unfold s1. destruct (c_first_line_id s) as [old|], (first_line_id g) as [new|]; try done.
    destruct (ssub new old =? 0); [done|]. apply evict_fields. }
  clearbody s1. split; unfold put_field; cbn; rewrite ?E1, ?E2, ?E3; try done.
  - unfold ssub. lia.
  - unfold max_top. cbn. unfold view_lines. cbn. lia.
  - intros a Ha. destruct (E4 a Ha) as [l Hl]. by apply (H3 (l, a.2)).
Qed.

Lemma scroll_framed s g n : framed s g -> framed (scroll s g n).1 g.
Proof. intros H. unfold scroll. cbn [fst]. destruct (n <? 0)%Z; frame H. Qed.

Lemma drag_framed s g r x y : framed s g -> framed (mouse_drag s r x y) g.
Proof. intros H. unfold mouse_drag, cell_in. frame H. Qed.

Lemma press_framed s g r x y : wf g -> framed s g -> framed (mouse_anchor s g r x y) g.
Proof.
  intros Hwf H. unfold mouse_anchor. pose proof (freeze_framed s g Hwf H) as Hf.
  assert (framed (freeze_if_configured s g <| mouse_finished := false |>) g) as H1 by (by apply (framed_same (freeze_if_configured s g))).
  pose proof (drag_framed _ g r x y H1) as H2. unfold mouse_drag in H2. destruct (cell_in _ _ _ _) as [a b] eqn:E.
  apply (frame_step _ _ _ H2); [by repeat split|apply H2|apply H2|apply H2|]. cbn. intros p [= <-]. cbn. apply H2.
Qed.

Lemma new_framed g rect : rw rect <= u16_max -> rh rect <= u16_max -> framed (new g rect) g.
Proof. intros Hw Hh. unfold u16_max in *. split; cbn; unfold max_top, view_lines, ssub, u16_max; cbn; try done; lia. Qed.

Lemma resize_framed s g rect b : wf g -> rw rect <= u16_max -> rh rect <= u16_max -> framed (resize s g rect b) g.
Proof.
  intros Hwf Hw Hh. unfold resize. cbv zeta. set (s1 := s <| cs_width := _ |> <| cs_height := _ |>).
  set (s2 := if is_frozen s1 then s1 <| frozen := Some (capture g) |> else s1).
  assert (view_lines s2 g = total_lines g /\ cs_width s2 = N.max (rw rect) 1 /\ cs_height s2 = N.max (rh rect) 1) as (Ev&E1&E2).
  { unfold s2. destruct (is_frozen s1) eqn:Ef.
    - split_and!; try done. unfold view_lines. cbn. destruct (freeze_screen_exact g Hwf) as (_&_&->&_). done.
    - split_and!; try done. unfold view_lines. unfold is_frozen in Ef. by destruct (frozen s1). }
  clearbody s2. clear s1. unfold u16_max in *. split; unfold put_field; cbn; rewrite ?E1, ?E2; unfold u16_max; try done.
  - lia.
  - lia.
  - unfold max_top, ssub. cbn. unfold view_lines in *. cbn. destruct b; lia.
  - unfold view_lines in *. cbn. lia.
  - lia.
Qed.

(** ** The cursor stays in the window *)

(** Whatever the view shows: the cursor and the selection's column are in the
    window. *)
Record inside (s : CopyState) : Prop := {
  in_steady : steady s;
  in_row : cy s < cs_height s }.

Lemma inside_step s s' : inside s -> cs_width s' = cs_width s -> cs_height s' = cs_height s ->
  cx s' < cs_width s -> cy s' < cs_height s -> (forall a, anchor s' = Some a -> a.2 < cs_width s) -> inside s'.
Proof. intros [[H1 H2 H3 H4] H5] E1 E2 ? ? ?. repeat split; rewrite ?E1, ?E2; by try apply H4. Qed.

Ltac inside H := apply (inside_step _ _ H); [done|done|..|exact (st_anchor _ (in_steady _ H))]; pose proof H as [[? ? _ [? ?]] ?];
  cbn [put_field cx cy top cs_width cs_height]; unfold put_field; cbn; unfold ssub, u16_max in *; try done; try lia.

Lemma forward_inside n test s : inside s -> inside (forward n test s).
Proof.
  revert s. induction n as [|n IH]; intros s H; [done|]. cbn [forward]. destruct (N.ltb_spec (cx s +16 1) (cs_width s)) as [Hlt|]; [|done].
  destruct (test (cx s)); [|done]. apply IH. inside H.
Qed.

Lemma backward_inside n test s : inside s -> inside (backward n test s).
Proof.
  revert s. induction n as [|n IH]; intros s H; [done|]. cbn [backward]. destruct (N.ltb_spec 0 (cx s)) as [Hlt|]; [|done].
  destruct (test (cx s)); [|done]. apply IH. inside H.
Qed.

Lemma moves_inside s g : inside s -> inside (up s) /\ inside (down s g) /\ inside (left s) /\ inside (right s)
  /\ forall b, inside (page s g b).
Proof.
  intros H. unfold up, down, left, right, page. split_and!.
  - destruct (N.ltb_spec 0 (cy s)); [inside H|]. destruct (N.ltb_spec 0 (top s)); [inside H|done].
  - destruct (_ <=? _); [done|]. destruct (N.ltb_spec (cy s) (cs_height s - 1)).
    + inside H. rewrite wadd_small; unfold U16; lia.
    + destruct (N.ltb_spec (top s) (max_top s g)); [inside H|done].
  - inside H.
  - destruct (N.ltb_spec (cx s +16 1) (cs_width s)); [inside H|done].
  - intros []; inside H.
Qed.

Lemma search_inside s g f : inside s -> inside (run_search s g f).
Proof.
  intros H. unfold run_search. destruct (query s); [done|].
  pose proof (search_loop_first s g (view_lines s g) (cursor_line s) f (N.to_nat (view_lines s g)) 1) as Hs.
  rewrite N2Nat.id, (N.add_comm 1) in Hs. destruct Hs as [(k&col&Hk1&Hk2&_&_&->)|[_ ->]]; [|done].
  pose proof (step_line_range (view_lines s g) (cursor_line s) k f ltac:(lia)) as Hl. unfold land_on. inside H.
  unfold max_top, view_lines in *. cbn. unfold ssub in *. rewrite N.mod_small; unfold U16; lia.
Qed.

Lemma toggle_inside s g : inside s -> inside (toggle_selection s g).
Proof.
  intros H. unfold toggle_selection. destruct (anchor s) as [a|].
  - pose proof H as [[? ? _ _] ?]. apply (inside_step _ _ H); done.
  - unfold freeze_if_configured. pose proof H as [[? ? _ _] ?].
    destruct (freeze_on_select s); [destruct (is_frozen s)|]; (apply (inside_step _ _ H); [done..|]); intros ? [= <-]; done.
Qed.

Lemma key_inside s g b : inside s -> inside (key_byte s g b).
Proof.
  intros H. destruct (moves_inside s g H) as (H1&H2&H3&H4&H5). unfold key_byte, next_big_word, previous_big_word, end_big_word, forward_while, backward_while.
  unfold left in H3. repeat match goal with |- inside (if ?c then _ else _) => destruct c end; try done;
    try (by apply forward_inside, forward_inside || by apply backward_inside, backward_inside || by apply search_inside || by apply toggle_inside);
    inside H.
Qed.

Lemma search_byte_inside s g b : inside s -> inside (search_byte s g b).
Proof.
  intros H. unfold search_byte. pose proof (search_inside s g true H) as Hs. pose proof Hs as [[? ? _ _] ?]. pose proof H as [[? ? _ _] ?].
  repeat match goal with |- inside (if ?c then _ else _) => destruct c end; try done;
    [apply (inside_step _ _ Hs)|apply (inside_step _ _ H)..]; done || apply Hs || apply H.
Qed.

Lemma handle_loop_inside n g : forall s buf changed, inside s -> inside (handle_loop n s g buf changed).1.
Proof.
  induction n as [|n IH]; intros s buf changed H; [by destruct buf|]. destruct buf as [|b rest]; [done|].
  cbn [handle_loop]. destruct (typing_search s); [by apply IH, search_byte_inside|]. destruct (b =? 27).
  - destruct rest as [|c input]; [done|]. destruct (negb (c =? 91)); [done|]. destruct (csi_sequence_len input) as [len|]; [|done].
    destruct (jumps_to_live _); [done|]. apply IH. destruct (moves_inside s g H) as (?&?&?&?&?). unfold csi_key. by repeat case_bool_decide.
  - destruct (b =? 113); [done|]. destruct ((b =? 121) || (b =? 13) || (b =? 10)); [done|]. by apply IH, key_inside.
Qed.

Lemma sync_inside s g : steady s -> inside (sync_history s g) /\ (frozen s = None -> frozen (sync_history s g) = None).
Proof.
  intros [H1 H2 H3 H4]. unfold sync_history. cbv zeta.
  set (s1 := match c_first_line_id s, first_line_id g with Some _, Some _ => _ | _, _ => _ end).
  assert (cx s1 = cx s /\ cs_width s1 = cs_width s /\ cs_height s1 = cs_height s /\ (frozen s = None -> frozen s1 = None)
    /\ forall a, anchor s1 = Some a -> exists l, anchor s = Some (l, a.2)) as (E1&E2&E3&Ef&E4).
  { assert (forall a, anchor s = Some a -> exists l, anchor s = Some (l, a.2)) as Hs by (intros [l x] ->; by exists l).
    unfold s1. destruct (c_first_line_id s) as [old|], (first_line_id g) as [new|]; try done.
    destruct (ssub new old =? 0); [done|]. destruct (evict_fields s (ssub new old)) as (?&?&?&?). split_and!; try done.
    intros E. unfold evict. cbn. unfold put_field. cbn. by rewrite E. }
  clearbody s1. split; [|by unfold put_field]. repeat split; unfold put_field; cbn; rewrite ?E1, ?E2, ?E3; try apply H4; try done.
  - intros a Ha. destruct (E4 a Ha) as [l Hl]. by apply (H3 (l, a.2)).
  - unfold ssub. lia.
Qed.

(** C38: the cursor stays in the view and the view in the buffer. Entering copy
    mode and a resize put them there, and every wheel step and every press and
    drag of the mouse keeps them there. So does every batch of input bytes,
    whatever it holds, provided that the view has no more lines than the Pane has
    now; this holds whenever the screen is not frozen, and for a frozen screen as
    long as the Pane has not lost lines, which it does when its program enters
    the alternate screen ([thawed_out_of_view] below). Without the proviso a
    batch keeps the cursor in the window and the selection's column in its width,
    and once the screen is not frozen any more the next batch, on whatever screen
    there is then, first brings the view back into the buffer. *)
Theorem cursor_in_view g rect :
  wf g -> rw rect <= u16_max -> rh rect <= u16_max ->
  framed (new g rect) g
  /\ (forall s b, framed (resize s g rect b) g)
  /\ (forall s, framed s g -> (forall n, framed (scroll s g n).1 g)
        /\ forall r x y, framed (mouse_anchor s g r x y) g /\ framed (mouse_drag s r x y) g)
  /\ (forall s buf, steady s -> view_lines (sync_history s g) g <= total_lines g -> framed (handle s buf g).1 g)
  /\ (forall s buf, steady s -> frozen s = None -> framed (handle s buf g).1 g)
  /\ (forall s buf, steady s -> let s' := (handle s buf g).1 in
        steady s' /\ cy s' < cs_height s' /\ forall later, frozen s' = None -> framed (sync_history s' later) later)
  /\ (forall s g', framed s g' -> steady s).
Proof.
  intros Hwf Hw Hh.
  assert (forall s g, steady s -> frozen s = None -> view_lines (sync_history s g) g <= total_lines g) as Hlive.
  { intros s g0 Hs Ef. unfold view_lines. by rewrite (proj2 (sync_inside s g0 Hs) Ef). }
  assert (forall s buf, steady s -> view_lines (sync_history s g) g <= total_lines g -> framed (handle s buf g).1 g) as Hbatch.
  { intros s buf Hs Hv. unfold handle. apply handle_loop_framed; [done|]. by apply sync_framed. }
  split_and!; try done.
  - by apply new_framed.
  - intros s b. by apply resize_framed.
  - intros s H. split; [intros n; by apply scroll_framed|]. intros r x y. split; [by apply press_framed|by apply drag_framed].
  - intros s buf Hs Ef. by apply Hbatch, Hlive.
  - intros s buf Hs. cbv zeta. destruct (handle_loop_inside (length buf) g (sync_history s g) buf false (proj1 (sync_inside s g Hs))) as [H1 H2].
    split_and!; [done|done|]. intros later Ef. by apply sync_framed, Hlive.
  - intros s g'. apply framed_steady.
Qed.

Lemma cursor_in_view_witness : framed (keys (new (Grid.new 2 3) view_rect) "jjlG/x" (Grid.new 2 3)) (Grid.new 2 3).
Proof.
  destruct (cursor_in_view (Grid.new 2 3) view_rect) as (H1&_&_&H&_&_&Hs); [by apply new_grid_wf|discriminate|discriminate|].
  apply (H (new (Grid.new 2 3) view_rect) (lit "jjlG/x")); [by apply (Hs _ (Grid.new 2 3))|vm_compute; discriminate].
Defined.

(** The proviso is needed. A selection freezes the screen on seven lines, four of
    them above it, the program enters the alternate screen, which has three lines
    and no history, and the key that gives the selection up thaws: the view still
    begins at line 4, beyond the whole buffer, until the next batch. *)
Example thawed_out_of_view :
  let s := keys (set_freeze_on_select (new five_lines view_rect) true) "Gv" five_lines in
  let alternate := Grid.new 2 3 in
  let s' := keys s "v" alternate in
  is_frozen s = true /\ view_lines s five_lines = 7 /\ top s = 4 /\ is_frozen s' = false /\ total_lines alternate = 3
  /\ top s' = 4 /\ max_top s' alternate = 0 /\ top (keys s' "" alternate) = 0.
Proof. vm_compute. done. Qed.

(** The fuel of the loops suffices: with more bytes to read it is never used up. *)
Lemma handle_loop_fuel n m s g buf changed : (length buf <= n)%nat -> (length buf <= m)%nat ->
  handle_loop n s g buf changed = handle_loop m s g buf changed.
Proof.
  revert m s buf changed. induction n as [|n IH]; intros m s buf changed Hn Hm; [by destruct buf; [destruct m|cbn in Hn; lia]|].
  destruct buf as [|b rest]; [by destruct m|]. destruct m as [|m]; [cbn in Hm; lia|]. cbn in Hn, Hm. cbn [handle_loop].
  destruct (typing_search s); [apply IH; lia|]. destruct (b =? 27).
  - destruct rest as [|c input]; [done|]. destruct (negb (c =? 91)); [done|]. destruct (csi_sequence_len input) as [len|]; [|done].
    destruct (jumps_to_live _); [done|]. cbn in Hn, Hm. apply IH; rewrite length_drop; lia.
  - destruct (b =? 113); [done|]. destruct ((b =? 121) || (b =? 13) || (b =? 10)); [done|]. apply IH; lia.
Qed.

Lemma forward_stops n test s : cx s < cs_width s -> cs_width s <= u16_max -> (N.to_nat (cs_width s - cx s) <= n)%nat ->
  let s' := forward n test s in cs_width s <= cx s' + 1 \/ test (cx s') = false.
Proof.
  revert s. induction n as [|n IH]; intros s Hc Hw Hn; [lia|]. cbn [forward]. unfold u16_max in *. rewrite wadd_small by (unfold U16; lia).
  destruct (N.ltb_spec (cx s + 1) (cs_width s)) as [Hlt|]; cbn [andb]; [|left; lia]. destruct (test (cx s)) eqn:E; [|by right].
  match goal with |- context [forward n test ?t] => pose proof (IH t) as H end. cbn in H |- *. apply H; lia.
Qed.
