(* ===== verification/Emu.v ===== *)
(** * Terminal emulator state

    [uniterm-server/src/terminal.rs]: the state behind a terminal screen
    ([EmuState]) with the bounded keyboard-mode stack, colours and graphic
    renditions, and the metadata that operating-system commands carry.  The
    operations on grid and cursor are in Terminal.v.

    The JSON parser of [serde_json] is the operation of a class. *)

From S2P Require Import Prelude Utf8 Cell Agent AgentDetail Grid.
#[local] Open Scope u_scope.

(** ** Enumerations and small records *)

Inductive MouseMode : Set := Off | X10 | Normal | Button | Any.

#[global] Instance MouseMode_eq_dec : EqDecision MouseMode.
Proof. solve_decision. Defined.

Record AgentEvent : Set := {
  ev_agent : option str; ev_status : option AgentStatus; cooperative_ready : bool;
  tool_completed : bool; ev_session_id : option str; parent_session_id : option str;
  resume_command : list str; ev_transcript_path : option str; details : list AgentDetail }.

(** *** Keyboard modes: a stack of sixteen entries *)

Record KeyboardMode : Set := { flags : N; stack : list N; depth : nat }.
#[global] Instance KeyboardMode_fields : Fields KeyboardMode :=
  fun k => {| flags := flags k; stack := stack k; depth := depth k |}.

Definition STACK_LEN : nat := 16.
Definition default_keyboard : KeyboardMode := {| flags := 0; stack := replicate STACK_LEN 0; depth := 0 |}.

(** [stack.copy_within(1.., 0)] *)
Definition shift_down (l : list N) : list N := drop 1 l ++ drop (length l - 1) l.

Definition push (k : KeyboardMode) (f : N) : KeyboardMode :=
  let k := if (depth k =? length (stack k))%nat
           then k <| stack := shift_down (stack k) |> <| depth := (depth k - 1)%nat |> else k in
  k <| stack := <[depth k := flags k]> (stack k) |> <| depth := S (depth k) |> <| flags := N.land f 1 |>.

Definition pop (k : KeyboardMode) (count : nat) : KeyboardMode :=
  if (depth k <? count)%nat then k <| flags := 0 |> <| depth := 0%nat |>
  else if negb (count =? 0)%nat then
    let k := k <| depth := (depth k - count)%nat |> in
    k <| flags := default 0 (stack k !! depth k) |>
  else k.

(** *** Saved cursors: position, pen and pending wrap *)

Record SavedCursor : Set := {
  sc_x : N; sc_y : N; sc_fg : Color; sc_bg : Color; sc_attrs : N; sc_underline : Color; sc_pending : bool }.
#[global] Instance SavedCursor_fields : Fields SavedCursor :=
  fun s => {| sc_x := sc_x s; sc_y := sc_y s; sc_fg := sc_fg s; sc_bg := sc_bg s; sc_attrs := sc_attrs s;
              sc_underline := sc_underline s; sc_pending := sc_pending s |}.

(** ** The state *)

Record EmuState : Set := {
  e_width : N; e_height : N; cx : N; cy : N;
  e_fg : Color; e_bg : Color; e_attrs : N; underline_color : Color; underline_color_handle : N;
  hyperlink : N;
  wrap_pending : bool; autowrap : bool; origin_mode : bool; insert_mode : bool;
  cursor_visible : bool; bracketed_paste : bool;
  keyboard : KeyboardMode * KeyboardMode;
  last_char : option char; tabs : list bool; dec_line_drawing : bool;
  scroll_top : N; scroll_bottom : N;
  saved : option SavedCursor;
  alt_backup : option Grid; alt_cursor : option SavedCursor;
  app_cursor : bool; mouse_mode : MouseMode; mouse_sgr : bool;
  nested_input : bool; nested_input_changes : list bool;
  agent_events : list AgentEvent; cwd : option str; prompt_marks : list str;
  clipboard_requests : list (list N); terminal_title : str;
  default_fg : Color; default_bg : Color; dark_theme : bool; palette_notifications : bool;
  e_scrollback_limit : N; responses : list N }.

#[global] Instance EmuState_fields : Fields EmuState := fun s => {|
  e_width := e_width s; e_height := e_height s; cx := cx s; cy := cy s; e_fg := e_fg s; e_bg := e_bg s;
  e_attrs := e_attrs s; underline_color := underline_color s;
  underline_color_handle := underline_color_handle s; hyperlink := hyperlink s;
  wrap_pending := wrap_pending s; autowrap := autowrap s; origin_mode := origin_mode s;
  insert_mode := insert_mode s; cursor_visible := cursor_visible s; bracketed_paste := bracketed_paste s;
  keyboard := keyboard s; last_char := last_char s; tabs := tabs s; dec_line_drawing := dec_line_drawing s;
  scroll_top := scroll_top s; scroll_bottom := scroll_bottom s; saved := saved s;
  alt_backup := alt_backup s; alt_cursor := alt_cursor s; app_cursor := app_cursor s;
  mouse_mode := mouse_mode s; mouse_sgr := mouse_sgr s; nested_input := nested_input s;
  nested_input_changes := nested_input_changes s; agent_events := agent_events s; cwd := cwd s;
  prompt_marks := prompt_marks s; clipboard_requests := clipboard_requests s;
  terminal_title := terminal_title s; default_fg := default_fg s; default_bg := default_bg s;
  dark_theme := dark_theme s; palette_notifications := palette_notifications s;
  e_scrollback_limit := e_scrollback_limit s; responses := responses s |}.

Definition blank_cell (s : EmuState) : Cell := blank_of (e_fg s) (e_bg s).

Definition default_tabs (width : N) : list bool :=
  map (fun x => negb (x =? 0) && (x mod 8 =? 0)) (range 0 width).

(** The state of [Terminal::new]. *)
Definition initial_state (w h : N) : EmuState := {|
  e_width := w; e_height := h; cx := 0; cy := 0; e_fg := Default; e_bg := Default; e_attrs := NONE;
  underline_color := Default; underline_color_handle := 0; hyperlink := 0; wrap_pending := false;
  autowrap := true; origin_mode := false; insert_mode := false; cursor_visible := true;
  bracketed_paste := false; keyboard := (default_keyboard, default_keyboard); last_char := None;
  tabs := default_tabs w; dec_line_drawing := false; scroll_top := 0; scroll_bottom := h - 1;
  saved := None; alt_backup := None; alt_cursor := None; app_cursor := false; mouse_mode := Off;
  mouse_sgr := false; nested_input := false; nested_input_changes := []; agent_events := []; cwd := None;
  prompt_marks := []; clipboard_requests := []; terminal_title := [];
  default_fg := Rgb 204 204 204; default_bg := Rgb 30 30 46; dark_theme := true;
  palette_notifications := false; e_scrollback_limit := 10000; responses := [] |}.

(** ** Parameters of a control sequence *)

(** [vte::Params]: groups of subparameters. *)
Abbreviation Params := (list (list N)) (only parsing).

Definition param (params : Params) (n : nat) (default_ : N) : N :=
  match params !! n ≫= head with
  | Some v => if v =? 0 then default_ else v
  | None => default_
  end.

Definition params_flat (params : Params) : list N := map (fun p => default 0 (head p)) params.

Definition has_private_marker (inter : list N) : bool := existsb (fun b => (60 <=? b) && (b <=? 63)) inter.

(** The final byte is one of these characters. *)
Definition one_of (action : N) (s : string) : bool := existsb (N.eqb action) (lit s).
Definition contains (inter : list N) (s : string) : bool := existsb (fun b => one_of b s) inter.
Definition is_bytes (bs : list N) (s : string) : bool := str_eqb bs (lit s).

(** ** Colours and renditions *)

Definition underline_style (value : N) : option UnderlineStyle :=
  match value with
  | 0 => Some UNone | 1 => Some Single | 2 => Some Double | 3 => Some Curly
  | 4 => Some Dotted | 5 => Some Dashed | _ => None
  end.

Definition u8 (n : N) : N := n mod 256.

(** The colour at the front of the groups and how many groups it takes. *)
Definition parse_extended_color (groups : list (list N)) : option Color * nat :=
  let head_ := default [] (groups !! 0%nat) in
  let sub i := default 0 (head_ !! i) in
  if (1 <? length head_)%nat then
    (if (sub 1%nat =? 5) && (3 <=? length head_)%nat then Some (Idx (u8 (sub 2%nat)))
     else if (sub 1%nat =? 2) && (6 <=? length head_)%nat
     then Some (Rgb (u8 (sub 3%nat)) (u8 (sub 4%nat)) (u8 (sub 5%nat)))
     else if (sub 1%nat =? 2) && (5 <=? length head_)%nat
     then Some (Rgb (u8 (sub 2%nat)) (u8 (sub 3%nat)) (u8 (sub 4%nat)))
     else None, 1%nat)
  else
    let val i := groups !! i ≫= head in
    match val 1%nat with
    | Some 5 => match val 2%nat with Some n => (Some (Idx (u8 n)), 3%nat) | None => (None, 2%nat) end
    | Some 2 =>
        match val 2%nat, val 3%nat, val 4%nat with
        | Some r, Some g, Some b => (Some (Rgb (u8 r) (u8 g) (u8 b)), 5%nat)
        | _, _, _ => (None, Nat.min (length groups) 5)
        end
    | _ => (None, 1%nat)
    end.

Definition indexed_rgb (index : N) : N * N * N :=
  let ansi : list (N * N * N) :=
    [(0, 0, 0); (205, 0, 0); (0, 205, 0); (205, 205, 0); (0, 0, 238); (205, 0, 205); (0, 205, 205);
     (229, 229, 229); (127, 127, 127); (255, 0, 0); (0, 255, 0); (255, 255, 0); (92, 92, 255);
     (255, 0, 255); (0, 255, 255); (255, 255, 255)] in
  if index <? 16 then default (0, 0, 0) (ansi !! N.to_nat index)
  else if index <? 232 then
    let value := index - 16 in
    let component part := if part =? 0 then 0 else wadd 256 55 (part * 40 mod 256) in
    (component (value / 36), component (value / 6 mod 6), component (value mod 6))
  else let grey := wadd 256 8 ((index - 232) * 10 mod 256) in (grey, grey, grey).

Definition color_rgb (c : Color) : N * N * N :=
  match c with Default => (0, 0, 0) | Idx i => indexed_rgb i | Rgb r g b => (r, g, b) end.

Definition color_luminance (c : Color) : N :=
  let '(r, g, b) := color_rgb c in r * 299 + g * 587 + b * 114.

Definition hex_digit (n : N) : N := if n <? 10 then 48 + n else 87 + n.
Definition hex2 (n : N) : list N := [hex_digit (n / 16); hex_digit (n mod 16)].

Definition osc_rgb (c : Color) : list N :=
  let '(r, g, b) := color_rgb c in
  lit "rgb:" ++ hex2 r ++ hex2 r ++ lit "/" ++ hex2 g ++ hex2 g ++ lit "/" ++ hex2 b ++ hex2 b.

Definition ESC : list N := [27].
Definition respond (s : EmuState) (bs : list N) : EmuState := s <| responses := responses s ++ bs |>.

Definition theme_report (dark : bool) : list N :=
  ESC ++ if dark then lit "[?997;1n" else lit "[?997;2n".
Definition push_theme_report (s : EmuState) (dark : bool) : EmuState := respond s (theme_report dark).

Definition set_default_colors_state (s : EmuState) (f b : Color) : EmuState :=
  let changed := negb (bool_decide (default_fg s = f)) || negb (bool_decide (default_bg s = b)) in
  let s := s <| default_fg := f |> <| default_bg := b |>
             <| dark_theme := color_luminance b <? color_luminance f |> in
  if changed && palette_notifications s then push_theme_report s (dark_theme s) else s.

(** DEC special graphics. *)
Definition dec_line_drawing_char (c : char) : char :=
  let table : list N :=
    [9670; 9618; 9225; 9228; 9229; 9226; 176; 177; 9252; 9227; 9496; 9488; 9484; 9492; 9532; 9146; 9147;
     9472; 9148; 9149; 9500; 9508; 9524; 9516; 9474; 8804; 8805; 960; 8800; 163; 183] in
  if (96 <=? c) && (c <=? 126) then default c (table !! N.to_nat (c - 96)) else c.

(** ** Agent events (OSC 777) *)

Record Raw : Set := {
  r_agent : option str; r_event : option str; r_status : option str; r_session_id : option str;
  r_parent_session_id : option str; r_resume_command : list str; r_transcript_path : option str;
  r_message : option str; r_notification_kind : option str; r_tool : option str; r_preview : option str;
  r_loop_state : option str; r_delay_seconds : option N }.

Class Json := raw_from_slice : list N -> option Raw.

Definition is_event (o : option str) (s : string) : bool :=
  match o with Some v => str_eqb v (lit s) | None => false end.

Definition bounded_id (o : option str) : option str :=
  v ← o; if negb (bool_decide (v = [])) && (len8 v <=? 512) then Some v else None.

Definition notification_details (raw : Raw) : list AgentDetail :=
  if is_event (r_event raw) "notification" || bool_decide (is_Some (r_message raw))
     || bool_decide (is_Some (r_notification_kind raw))
  then [Notification (bounded_text (default (lit "notification") (r_notification_kind raw)) DETAIL_TEXT_LIMIT)
          (bounded_text (default [] (r_message raw)) DETAIL_TEXT_LIMIT)]
  else [].

Definition permission_details (raw : Raw) : list AgentDetail :=
  if is_event (r_event raw) "permission_request" then
    match r_tool raw with
    | Some tool =>
        if negb (bool_decide (trim tool = [])) then
          [PermissionAsked (bounded_text tool DETAIL_TEXT_LIMIT)
             (bounded_text (default [] (r_preview raw)) DETAIL_TEXT_LIMIT)]
        else []
    | None => []
    end
  else [].

Definition loop_details (raw : Raw) : list AgentDetail :=
  if is_event (r_event raw) "loop" then
    if is_event (r_loop_state raw) "scheduled" then [Loop Scheduled (r_delay_seconds raw)]
    else if is_event (r_loop_state raw) "stopped" then [Loop Stopped None]
    else []
  else [].

Definition event_of_raw (raw : Raw) : AgentEvent := {|
  ev_agent := r_agent raw;
  ev_status := match r_event raw ≫= from_event with
               | Some s => Some s
               | None => r_status raw ≫= from_event
               end;
  cooperative_ready := is_event (r_event raw) "idle" || is_event (r_status raw) "idle";
  tool_completed := is_event (r_event raw) "tool_end";
  ev_session_id := bounded_id (r_session_id raw);
  parent_session_id := bounded_id (r_parent_session_id raw);
  resume_command := take 64 (filter (fun v => (len8 v <=? 4096) && negb (existsb (N.eqb 0) v) = true)
                               (r_resume_command raw));
  ev_transcript_path :=
    (v ← r_transcript_path raw; if (len8 v <=? 4096) && negb (existsb is_control v) then Some v else None);
  details := notification_details raw ++ permission_details raw ++ loop_details raw |}.

Definition parse_osc777 `{Json} (json : list N) : option AgentEvent := event_of_raw <$> raw_from_slice json.
