(* ===== verification/Terminal.v ===== *)
(** * The terminal emulator

    [uniterm-server/src/terminal.rs]: what each parsed action does to grid and
    cursor ([Performer]), resizing and the queues.  The escape-sequence
    parser of the [vte] crate is not modelled: its calls of [Perform] are the
    actions below.  [None] is a panic of an index out of range. *)

From S2P Require Import Prelude Decimal Utf8 Agent Cell Grid Reflow Emu.
#[local] Open Scope u_scope.

Section Terminal.
Context `{Unicode} `{Json}.

(** ** The performer *)

Record Performer : Set := { grid : Grid; st : EmuState }.
#[local] Instance Performer_fields : Fields Performer := fun p => {| grid := grid p; st := st p |}.

Definition on_grid (p : Performer) (f : Grid -> Grid) : Performer := p <| grid := f (grid p) |>.
Definition on_st (p : Performer) (f : EmuState -> EmuState) : Performer := p <| st := f (st p) |>.

Definition no_wrap (p : Performer) : Performer := on_st p (fun s => s <| wrap_pending := false |>).
Definition set_cx (p : Performer) (x : N) : Performer := on_st p (fun s => s <| cx := x |>).
Definition set_cy (p : Performer) (y : N) : Performer := on_st p (fun s => s <| cy := y |>).

Definition scroll_up_region (p : Performer) : Performer :=
  on_grid p (fun g => scroll_region_up g (scroll_top (st p)) (scroll_bottom (st p)) (blank_cell (st p))).

Definition scroll_down_region (p : Performer) : Performer :=
  on_grid p (fun g => scroll_region_down g (scroll_top (st p)) (scroll_bottom (st p)) (blank_cell (st p))).

Definition linefeed (p : Performer) : Performer :=
  if cy (st p) =? scroll_bottom (st p) then scroll_up_region p
  else if cy (st p) +16 1 <? e_height (st p) then set_cy p (cy (st p) +16 1)
  else p.

Definition reverse_index (p : Performer) : Performer :=
  if cy (st p) =? scroll_top (st p) then scroll_down_region p
  else if 0 <? cy (st p) then set_cy p (cy (st p) - 1)
  else p.

(** ** Editing at the cursor *)

Definition delete_chars (p : Performer) (n : N) : Performer :=
  let s := st p in
  let p := on_grid p (fun g => delete_cells g (cy s) (cx s) n (blank_cell s)) in
  no_wrap (on_grid p (fun g => set_row_wrapped g (cy s) false)).

Definition insert_chars (p : Performer) (n : N) : Performer :=
  let s := st p in
  on_grid (no_wrap p) (fun g => insert_cells g (cy s) (cx s) n (blank_cell s)).

Definition erase_chars (p : Performer) (n : N) : Performer :=
  let s := st p in
  let p := on_grid p (fun g => erase_cells g (cy s) (cx s) (sadd u16_max (cx s) n) (blank_cell s)) in
  no_wrap (on_grid p (fun g => set_row_wrapped g (cy s) false)).

(** [for _ in 0..n] *)
Definition repeat_ {A} (n : N) (f : A -> A) (a : A) : A := Nat.iter (N.to_nat n) f a.

Definition outside_region (s : EmuState) : bool := (cy s <? scroll_top s) || (scroll_bottom s <? cy s).

Definition insert_lines (p : Performer) (n : N) : Performer :=
  let p := no_wrap p in
  let s := st p in
  if outside_region s then p
  else repeat_ n (fun p => on_grid p (fun g => scroll_region_down g (cy s) (scroll_bottom s) (blank_cell s))) p.

Definition delete_lines (p : Performer) (n : N) : Performer :=
  let p := no_wrap p in
  let s := st p in
  if outside_region s then p
  else repeat_ n (fun p => on_grid p
         (fun g => scroll_region_up_discarding g (cy s) (scroll_bottom s) (blank_cell s))) p.

Definition erase_in_line (p : Performer) (mode : N) : Performer :=
  let s := st p in
  let w := e_width s in
  let span := match mode with
              | 0 => Some (cx s, w)
              | 1 => Some (0, cx s +16 1)
              | 2 => Some (0, w)
              | _ => None
              end in
  match span with
  | None => p
  | Some (from, to) =>
      let p := on_grid p (fun g => erase_cells g (cy s) from (N.min to w) (blank_cell s)) in
      let p := if mode =? 0 then on_grid p (fun g => set_row_wrapped g (cy s) false) else p in
      no_wrap p
  end.

Definition erase_rows (p : Performer) (ys : list N) : Performer :=
  let s := st p in
  on_grid p (fun g => foldl (fun g y => erase_cells g y 0 (e_width s) (blank_cell s)) g ys).

Definition erase_in_display (p : Performer) (mode : N) : Performer :=
  let s := st p in
  match mode with
  | 0 => erase_rows (erase_in_line p 0) (range (cy s +16 1) (e_height s))
  | 1 => erase_in_line (erase_rows p (range 0 (cy s))) 1
  | 2 => no_wrap (erase_rows p (range 0 (e_height s)))
  | 3 => on_grid p clear_scrollback
  | _ => p
  end.

(** ** Graphic rendition *)

Definition reset_sgr (p : Performer) : Performer :=
  on_st p (fun s => s <| e_fg := Default |> <| e_bg := Default |> <| e_attrs := NONE |>
                      <| underline_color := Default |> <| underline_color_handle := 0 |>).

Definition set_attrs (p : Performer) (f : N -> N) : Performer :=
  on_st p (fun s => s <| e_attrs := f (e_attrs s) |>).
Definition add_attr (p : Performer) (a : N) : Performer := set_attrs p (fun x => N.lor x a).
Definition drop_attr (p : Performer) (a : N) : Performer := set_attrs p (fun x => N.land x (not16 a)).
Definition set_fg (p : Performer) (c : Color) : Performer := on_st p (fun s => s <| e_fg := c |>).
Definition set_bg (p : Performer) (c : Color) : Performer := on_st p (fun s => s <| e_bg := c |>).

(** The pen's underline colour, with its handle in the grid. *)
Definition set_underline (p : Performer) (c : Color) : Performer :=
  let '(g, h) := intern_underline_color (grid p) c in
  {| grid := g; st := st p <| underline_color := c |> <| underline_color_handle := h |> |}.

Definition set_style (p : Performer) (s : UnderlineStyle) : Performer :=
  set_attrs p (fun a => set_underline_style a s).

(** One group and the number of groups taken. *)
Definition sgr_group (p : Performer) (groups : list (list N)) (g : list N) : Performer * nat :=
  let code := default 0 (head g) in
  if code =? 0 then (reset_sgr p, 1%nat)
  else if code =? 1 then (add_attr p BOLD, 1%nat)
  else if code =? 2 then (add_attr p DIM, 1%nat)
  else if code =? 3 then (add_attr p ITALIC, 1%nat)
  else if code =? 4 then
    (match match g !! 1%nat with Some v => underline_style v | None => Some Single end with
     | Some s => set_style p s
     | None => p
     end, 1%nat)
  else if code =? 5 then (add_attr p BLINK, 1%nat)
  else if code =? 7 then (add_attr p REVERSE, 1%nat)
  else if code =? 8 then (add_attr p INVISIBLE, 1%nat)
  else if code =? 9 then (add_attr p STRIKE, 1%nat)
  else if code =? 22 then (drop_attr p (N.lor BOLD DIM), 1%nat)
  else if code =? 23 then (drop_attr p ITALIC, 1%nat)
  else if code =? 24 then (set_style p UNone, 1%nat)
  else if code =? 25 then (drop_attr p BLINK, 1%nat)
  else if code =? 27 then (drop_attr p REVERSE, 1%nat)
  else if code =? 28 then (drop_attr p INVISIBLE, 1%nat)
  else if code =? 29 then (drop_attr p STRIKE, 1%nat)
  else if (30 <=? code) && (code <=? 37) then (set_fg p (Idx (code - 30)), 1%nat)
  else if code =? 39 then (set_fg p Default, 1%nat)
  else if (40 <=? code) && (code <=? 47) then (set_bg p (Idx (code - 40)), 1%nat)
  else if code =? 49 then (set_bg p Default, 1%nat)
  else if (90 <=? code) && (code <=? 97) then (set_fg p (Idx (code - 90 + 8)), 1%nat)
  else if (100 <=? code) && (code <=? 107) then (set_bg p (Idx (code - 100 + 8)), 1%nat)
  else if (code =? 38) || (code =? 48) || (code =? 58) then
    let '(color, consumed) := parse_extended_color groups in
    (match color with
     | Some c => if code =? 38 then set_fg p c else if code =? 48 then set_bg p c else set_underline p c
     | None => p
     end, consumed)
  else if code =? 59 then
    (on_st p (fun s => s <| underline_color := Default |> <| underline_color_handle := 0 |>), 1%nat)
  else (p, 1%nat).

(** The loop over the groups; every round takes one at least. *)
Fixpoint sgr_loop (fuel : nat) (p : Performer) (groups : list (list N)) : Performer :=
  match fuel, groups with
  | S fuel, g :: _ =>
      let '(p, consumed) := sgr_group p groups g in sgr_loop fuel p (drop consumed groups)
  | _, _ => p
  end.

Definition apply_sgr (p : Performer) (groups : list (list N)) : Performer :=
  match groups with [] => reset_sgr p | _ => sgr_loop (length groups) p groups end.

(** ** Saved cursors and screens *)

Definition pen_saved (s : EmuState) : SavedCursor := {|
  sc_x := cx s; sc_y := cy s; sc_fg := e_fg s; sc_bg := e_bg s; sc_attrs := e_attrs s;
  sc_underline := underline_color s; sc_pending := wrap_pending s |}.

Definition save_cursor (p : Performer) : Performer :=
  on_st p (fun s => s <| saved := Some (pen_saved s) |>).

(** Back to a saved position and pen, the handle interned anew. *)
Definition load_cursor (p : Performer) (c : SavedCursor) : Performer :=
  let p := on_st p (fun s => s <| cx := N.min (sc_x c) (e_width s - 1) |> <| cy := N.min (sc_y c) (e_height s - 1) |>
    <| e_fg := sc_fg c |> <| e_bg := sc_bg c |> <| e_attrs := sc_attrs c |>) in
  on_st (set_underline p (sc_underline c)) (fun s => s <| wrap_pending := sc_pending c |>).

Definition restore_cursor (p : Performer) : Performer :=
  match saved (st p) with Some c => load_cursor p c | None => p end.

Definition reset_region (s : EmuState) : EmuState :=
  s <| scroll_top := 0 |> <| scroll_bottom := e_height s - 1 |>.

Definition enter_alt (p : Performer) : Performer :=
  match alt_backup (st p) with
  | Some _ => p
  | None =>
      let s := st p in
      let alt := mark_all_damaged (set_scrollback_limit (new (e_width s) (e_height s)) 0) in
      let '(alt, h) := intern_underline_color alt (underline_color s) in
      {| grid := alt;
         st := reset_region (s <| alt_backup := Some (grid p) |> <| underline_color_handle := h |>
                 <| alt_cursor := Some (pen_saved s) |> <| cx := 0 |> <| cy := 0 |> <| hyperlink := 0 |>
                 <| wrap_pending := false |>) <| origin_mode := false |> |}
  end.

Definition exit_alt (p : Performer) : Performer :=
  match alt_backup (st p) with
  | None => p
  | Some primary =>
      let p := {| grid := mark_all_damaged primary; st := st p <| alt_backup := None |> |} in
      let p := match alt_cursor (st p) with
               | Some c => load_cursor (on_st p (fun s => s <| alt_cursor := None |>)) c
               | None => p
               end in
      on_st p (fun s => reset_region s <| origin_mode := false |> <| hyperlink := 0 |>)
  end.

Definition set_nested_input (s : EmuState) (enabled : bool) : EmuState :=
  if eqb (nested_input s) enabled then s
  else s <| nested_input := enabled |> <| nested_input_changes := nested_input_changes s ++ [enabled] |>.

Definition shell_modes (s : EmuState) : EmuState :=
  let s := s <| cursor_visible := true |> <| bracketed_paste := false |>
             <| keyboard := (default_keyboard, default_keyboard) |> <| app_cursor := false |>
             <| mouse_mode := Off |> <| mouse_sgr := false |> in
  reset_region (set_nested_input s false <| origin_mode := false |> <| hyperlink := 0 |>)
    <| wrap_pending := false |>.

Definition recover_shell_screen (p : Performer) : Performer := on_st (exit_alt p) shell_modes.

Definition home (p : Performer) : Performer :=
  on_st p (fun s => s <| cx := 0 |> <| cy := if origin_mode s then scroll_top s else 0 |>
                      <| wrap_pending := false |>).

Definition mouse (enabled : bool) (m : MouseMode) (s : EmuState) : EmuState :=
  s <| mouse_mode := if enabled then m else Off |>.

Definition set_private_mode (p : Performer) (mode : N) (enabled : bool) : Performer :=
  if mode =? 1 then on_st p (fun s => s <| app_cursor := enabled |>)
  else if mode =? 6 then home (on_st p (fun s => s <| origin_mode := enabled |>))
  else if mode =? 7 then no_wrap (on_st p (fun s => s <| autowrap := enabled |>))
  else if mode =? 9 then on_st p (mouse enabled X10)
  else if mode =? 25 then on_st p (fun s => s <| cursor_visible := enabled |>)
  else if mode =? 1000 then on_st p (mouse enabled Normal)
  else if mode =? 1002 then on_st p (mouse enabled Button)
  else if mode =? 1003 then on_st p (mouse enabled Any)
  else if mode =? 1006 then on_st p (fun s => s <| mouse_sgr := enabled |>)
  else if mode =? 1048 then if enabled then save_cursor p else restore_cursor p
  else if (mode =? 47) || (mode =? 1047) || (mode =? 1049) then if enabled then enter_alt p else exit_alt p
  else if mode =? 2004 then on_st p (fun s => s <| bracketed_paste := enabled |>)
  else p.

Definition reset_terminal (p : Performer) : Performer :=
  let s := st p in
  let g := mark_all_damaged (set_scrollback_limit (new (e_width s) (e_height s)) (e_scrollback_limit s)) in
  let s := s <| cx := 0 |> <| cy := 0 |> <| e_fg := Default |> <| e_bg := Default |> <| e_attrs := NONE |>
             <| underline_color := Default |> <| underline_color_handle := 0 |> <| hyperlink := 0 |>
             <| wrap_pending := false |> <| autowrap := true |> <| origin_mode := false |>
             <| insert_mode := false |> <| cursor_visible := true |> <| bracketed_paste := false |>
             <| keyboard := (default_keyboard, default_keyboard) |> <| last_char := None |>
             <| tabs := default_tabs (e_width s) |> <| dec_line_drawing := false |> in
  let s := reset_region s <| saved := None |> <| alt_backup := None |> <| alt_cursor := None |>
             <| app_cursor := false |> <| mouse_mode := Off |> <| mouse_sgr := false |> in
  {| grid := g; st := set_nested_input s false |}.

(** ** Printing *)

(** The character joins the glyph [old] at [(x, y)]. *)
Definition extend_glyph (p : Performer) (x y : N) (old : Cell) (c : char) : Performer :=
  let s := st p in
  let text := cell_text_owned (grid p) old ++ [c] in
  let w := nclamp (text_width text) 1 2 in
  if (w =? 2) && (e_width s <=? x +16 1) then
    let p := on_grid p (fun g => clear_glyph_at g x y (blank_cell s)) in
    if autowrap s then
      let p := on_grid p (fun g => set_row_wrapped g y true) in
      let p := no_wrap (linefeed (set_cx p 0)) in
      let p := on_grid p (fun g => set_grapheme g 0 (cy (st p)) text old 2) in
      if e_width s =? 2 then on_st (set_cx p 1) (fun s => s <| wrap_pending := true |>)
      else set_cx p 2
    else on_grid p (fun g => set_grapheme g x y [REPLACEMENT] old 1)
  else
    let '(g, appended) := append_to_grapheme (grid p) x y c in
    let p := p <| grid := g |> in
    if appended then
      let end_ := sadd u16_max x w in
      if e_width s <=? end_ then
        on_st (set_cx p (e_width s - 1)) (fun s => s <| wrap_pending := autowrap s |>)
      else if negb (wrap_pending s) then set_cx p end_ else p
    else p.

(** The next row, soft-wrapped from this one. *)
Definition wrap_row (p : Performer) : Performer :=
  linefeed (set_cx (on_grid p (fun g => set_row_wrapped g (cy (st p)) true)) 0).

Definition DOTTED_CIRCLE : char := 9676.

(** A glyph of its own, at the cursor. *)
Definition print_glyph (p : Performer) (c : char) : Performer :=
  let w := nclamp (default 0 (char_width c)) 0 2 in
  let '(text, w) := if w =? 0 then ([DOTTED_CIRCLE; c], 1) else ([c], w) in
  let '(text, w) := if (w =? 2) && (e_width (st p) =? 1) then ([REPLACEMENT], 1) else (text, w) in
  let p := if wrap_pending (st p) then no_wrap (if autowrap (st p) then wrap_row p else p) else p in
  let '(p, text, w) :=
    if (w =? 2) && (e_width (st p) <=? cx (st p) +16 1) then
      if autowrap (st p) then (wrap_row p, text, w) else (p, [REPLACEMENT], 1)
    else (p, text, w) in
  let s := st p in
  let p := if insert_mode s then on_grid p (fun g => insert_cells g (cy s) (cx s) w (blank_cell s)) else p in
  let cell := {| ch := c; fg := e_fg s; bg := e_bg s; attrs := e_attrs s; width := 1;
                 c_underline := underline_color_handle s; cluster := 0; c_hyperlink := hyperlink s |} in
  let p := on_grid p (fun g => set_grapheme g (cx s) (cy s) text cell w) in
  let end_ := cx s +16 w in
  if e_width s <=? end_ then
    on_st (set_cx p (e_width s - 1)) (fun s => s <| wrap_pending := autowrap s |>)
  else set_cx p end_.

(** Where the last printed glyph stands. *)
Definition previous (s : EmuState) : option (N * N) :=
  if wrap_pending s then Some (cx s, cy s)
  else if 0 <? cx s then Some (cx s - 1, cy s)
  else None.

(** The glyph before the cursor, with its column. *)
Definition previous_lead (p : Performer) (x y : N) : option (N * Cell) :=
  c ← get (grid p) x y;
  let x := if is_continuation c && (0 <? x) then x - 1 else x in
  old ← get (grid p) x y;
  Some (x, old).

Definition print (p : Performer) (input : char) : option Performer :=
  let c := if dec_line_drawing (st p) then dec_line_drawing_char input else input in
  let fresh := on_st (print_glyph p c) (fun s => s <| last_char := Some input |>) in
  match previous (st p) with
  | Some (x, y) =>
      '(x, old) ← previous_lead p x y;
      Some (if grapheme_extends (grid p) old c then extend_glyph p x y old c else fresh)
  | None => Some fresh
  end.

(** ** Control characters *)

(** [iterator.find(|x| tabs[x])]: the first stop of [xs]. *)
Fixpoint find_stop (tabs : list bool) (xs : list N) : option (option N) :=
  match xs with
  | [] => Some None
  | x :: xs => stop ← tabs !! N.to_nat x; if stop : bool then Some (Some x) else find_stop tabs xs
  end.

Definition tab_forward (p : Performer) : option Performer :=
  let s := st p in
  x ← find_stop (tabs s) (range (cx s +16 1) (e_width s));
  Some (no_wrap (set_cx p (default (e_width s - 1) x))).

Definition tab_back (p : Performer) : option Performer :=
  x ← find_stop (tabs (st p)) (rev (range 0 (cx (st p))));
  Some (set_cx p (default 0 x)).

Definition set_tab (p : Performer) (b : bool) : option Performer :=
  let i := N.to_nat (cx (st p)) in
  if (i <? length (tabs (st p)))%nat then Some (on_st p (fun s => s <| tabs := <[i := b]> (tabs s) |>)) else None.

Definition hard_linefeed (p : Performer) : Performer :=
  no_wrap (linefeed (on_grid p (fun g => set_row_wrapped g (cy (st p)) false))).

Definition execute (p : Performer) (byte : N) : option Performer :=
  if (10 <=? byte) && (byte <=? 12) then Some (hard_linefeed p)
  else if byte =? 13 then Some (no_wrap (set_cx p 0))
  else if byte =? 8 then Some (no_wrap (set_cx p (cx (st p) - 1)))
  else if byte =? 9 then tab_forward p
  else Some p.

(** ** Control sequences *)

(** [loop { f()? }], [n] times. *)
Fixpoint repeat_opt {A} (n : nat) (f : A -> option A) (a : A) : option A :=
  match n with O => Some a | S n => a ← f a; repeat_opt n f a end.

Definition move_up (p : Performer) (n : N) : Performer :=
  let s := st p in
  no_wrap (set_cy p (N.max (cy s - n) (if origin_mode s then scroll_top s else 0))).

Definition move_down (p : Performer) (n : N) : Performer :=
  let s := st p in
  no_wrap (set_cy p (N.min (sadd u16_max (cy s) n)
    (if origin_mode s then scroll_bottom s else e_height s - 1))).

(** The row a 1-based address selects. *)
Definition cup_row (s : EmuState) (row : N) : N :=
  if origin_mode s then N.min (scroll_top s +16 row -16 1) (scroll_bottom s)
  else N.min (row - 1) (e_height s - 1).

Definition cursor_position (p : Performer) (row col : N) : Performer :=
  let s := st p in
  no_wrap (set_cx (set_cy p (cup_row s row)) (N.min (col - 1) (e_width s - 1))).

Definition vertical_position (p : Performer) (row : N) : Performer :=
  let s := st p in
  no_wrap (set_cy p (if origin_mode s then N.min (scroll_top s +16 (row - 1)) (scroll_bottom s)
                     else N.min (row - 1) (e_height s - 1))).

Definition set_margins (p : Performer) (top_ bottom_ : N) : Performer :=
  let top_ := top_ - 1 in
  let bot := bottom_ - 1 in
  if (top_ <? bot) && (bot <? e_height (st p))
  then home (on_st p (fun s => s <| scroll_top := top_ |> <| scroll_bottom := bot |>))
  else p.

Definition is_alt_screen (s : EmuState) : bool := bool_decide (is_Some (alt_backup s)).

(** The keyboard mode of the screen in use. *)
Definition current_keyboard (s : EmuState) : KeyboardMode :=
  if is_alt_screen s then (keyboard s).2 else (keyboard s).1.
Definition set_keyboard (s : EmuState) (k : KeyboardMode) : EmuState :=
  s <| keyboard := if is_alt_screen s then ((keyboard s).1, k) else (k, (keyboard s).2) |>.

Definition query_keyboard (s : EmuState) : EmuState :=
  respond s (ESC ++ if flags (current_keyboard s) =? 0 then lit "[?0u" else lit "[?1u").

Definition change_keyboard (s : EmuState) (params : Params) (inter : list N) : EmuState :=
  let k := current_keyboard s in
  set_keyboard s
    (if is_bytes inter ">" then push k (param params 0 0)
     else if is_bytes inter "<" then pop k (N.to_nat (param params 0 1))
     else
       let f := N.land (param params 0 0) 1 in
       match param params 1 1 with
       | 1 => k <| flags := f |>
       | 2 => k <| flags := N.lor (flags k) f |>
       | 3 => k <| flags := N.land (flags k) (not16 f) |>
       | _ => k
       end).

Definition report_row (s : EmuState) : N :=
  if origin_mode s then cy s -16 scroll_top s +16 1 else cy s +16 1.

Definition device_status (s : EmuState) (what : N) : EmuState :=
  match what with
  | 5 => respond s (ESC ++ lit "[0n")
  | 6 => respond s (ESC ++ lit "[" ++ dec (report_row s) ++ lit ";" ++ dec (cx s +16 1) ++ lit "R")
  | _ => s
  end.

Definition window_report (s : EmuState) (what : N) : EmuState :=
  match what with
  | 14 => respond s (ESC ++ lit "[4;0;0t")
  | 18 | 19 => respond s (ESC ++ lit "[8;" ++ dec (e_height s) ++ lit ";" ++ dec (e_width s) ++ lit "t")
  | 21 =>
      let title := map (fun c => if (c =? 27) || (c =? 7) then 32 else c) (terminal_title s) in
      respond s (ESC ++ lit "]l" ++ utf8 title ++ ESC ++ [92])
  | _ => s
  end.

Definition private_mode (enabled : bool) (p : Performer) (mode : N) : Performer :=
  if mode =? 2031 then
    on_st p (fun s => let s := s <| palette_notifications := enabled |> in
                      if enabled then push_theme_report s (dark_theme s) else s)
  else set_private_mode p mode enabled.

Definition ansi_mode (enabled : bool) (p : Performer) (mode : N) : Performer :=
  if mode =? 4 then on_st p (fun s => s <| insert_mode := enabled |>) else p.

(** Cursor movement and erasure: the sequences that ignore intermediates. *)
Definition csi_move (p : Performer) (params : Params) (action : N) : option (option Performer) :=
  let s := st p in
  let n := param params 0 1 in
  if one_of action "Hf" then Some (Some (cursor_position p n (param params 1 1)))
  else if one_of action "A" then Some (Some (move_up p n))
  else if one_of action "Be" then Some (Some (move_down p n))
  else if one_of action "Ca" then Some (Some (no_wrap (set_cx p (N.min (sadd u16_max (cx s) n) (e_width s - 1)))))
  else if one_of action "D" then Some (Some (no_wrap (set_cx p (cx s - n))))
  else if one_of action "E" then Some (Some (set_cx (move_down p n) 0))
  else if one_of action "F" then Some (Some (set_cx (move_up p n) 0))
  else if one_of action "G`" then Some (Some (no_wrap (set_cx p (N.min (n - 1) (e_width s - 1)))))
  else if one_of action "d" then Some (Some (vertical_position p n))
  else if one_of action "J" then Some (Some (erase_in_display p (param params 0 0)))
  else if one_of action "K" then Some (Some (erase_in_line p (param params 0 0)))
  else None.

(** Editing, tabs and scrolling: likewise. *)
Definition csi_edit (p : Performer) (params : Params) (action : N) : option (option Performer) :=
  let n := param params 0 1 in
  if one_of action "P" then Some (Some (delete_chars p n))
  else if one_of action "@" then Some (Some (insert_chars p n))
  else if one_of action "X" then Some (Some (erase_chars p n))
  else if one_of action "L" then Some (Some (insert_lines p n))
  else if one_of action "M" then Some (Some (delete_lines p n))
  else if one_of action "b" then
    Some (match last_char (st p) with
          | Some c => repeat_opt (N.to_nat n) (fun p => print p c) p
          | None => Some p
          end)
  else if one_of action "Z" then Some (no_wrap <$> repeat_opt (N.to_nat n) tab_back p)
  else if one_of action "g" then
    Some (match param params 0 0 with
          | 0 => set_tab p false
          | 3 => Some (on_st p (fun s => s <| tabs := map (fun _ => false) (tabs s) |>))
          | _ => Some p
          end)
  else if one_of action "S" then Some (Some (repeat_ n scroll_up_region p))
  else if one_of action "T" then Some (Some (repeat_ n scroll_down_region p))
  else None.

(** Modes, saved cursors, the keyboard protocol and the queries. *)
Definition csi_mode (p : Performer) (params : Params) (inter : list N) (action : N) : Performer :=
  let plain := bool_decide (inter = []) in
  if one_of action "r" && plain then set_margins p (param params 0 1) (param params 1 (e_height (st p)))
  else if one_of action "s" && plain then save_cursor p
  else if one_of action "u" && plain then restore_cursor p
  else if one_of action "u" && is_bytes inter "?" then on_st p query_keyboard
  else if one_of action "u" && (is_bytes inter ">" || is_bytes inter "<" || is_bytes inter "=") then
    on_st p (fun s => change_keyboard s params inter)
  else if one_of action "c" then
    on_st p (fun s => respond s (ESC ++ if contains inter ">" then lit "[>84;0;0c" else lit "[?1;2c"))
  else if one_of action "n" && plain then on_st p (fun s => device_status s (param params 0 0))
  else if one_of action "n" && contains inter "?" && (param params 0 0 =? 996) then
    on_st p (fun s => push_theme_report s (dark_theme s))
  else if one_of action "t" && plain then on_st p (fun s => window_report s (param params 0 0))
  else if one_of action "h" && contains inter "?" then foldl (private_mode true) p (params_flat params)
  else if one_of action "l" && contains inter "?" then foldl (private_mode false) p (params_flat params)
  else if one_of action "h" && plain then foldl (ansi_mode true) p (params_flat params)
  else if one_of action "l" && plain then foldl (ansi_mode false) p (params_flat params)
  else p.

Definition csi_dispatch (p : Performer) (params : Params) (inter : list N) (action : N) : option Performer :=
  match csi_move p params action with
  | Some r => r
  | None =>
      if one_of action "m" && bool_decide (inter = []) then Some (apply_sgr p params)
      else if one_of action "m" && has_private_marker inter then Some p
      else if one_of action "n" && contains inter ">" then Some p
      else match csi_edit p params action with
           | Some r => r
           | None => Some (csi_mode p params inter action)
           end
  end.

(** ** Operating-system commands *)

(** Parameters joined by [;]. *)
Fixpoint join_params (ps : list (list N)) : list N :=
  match ps with
  | [] => []
  | [v] => v
  | v :: ps => v ++ 59 :: join_params ps
  end.

Definition set_title (s : EmuState) (bytes : list N) : EmuState :=
  s <| terminal_title := take 512 (filter (fun c => is_control c = false /\ c <> 127) (from_utf8_lossy bytes)) |>.

Definition set_link (p : Performer) (bytes : list N) : Performer :=
  match from_utf8 bytes with
  | Some uri =>
      let '(g, h) := intern_hyperlink (grid p) uri in
      {| grid := g; st := (st p) <| hyperlink := h |> |}
  | None => on_st p (fun s => s <| hyperlink := 0 |>)
  end.

Definition agent_event (p : Performer) (json : list N) : Performer :=
  match parse_osc777 json with
  | Some ev =>
      let p := if bool_decide (ev_status ev = Some Exited) then recover_shell_screen p else p in
      on_st p (fun s => s <| agent_events := agent_events s ++ [ev] |>)
  | None => p
  end.

(** [mark.split(';').next()] *)
Fixpoint first_field (mark : str) : str :=
  match mark with
  | [] => []
  | c :: mark => if c =? 59 then [] else c :: first_field mark
  end.

Definition prompt_mark (p : Performer) (fields : list (list N)) : Performer :=
  let mark := join_params (omap from_utf8 fields) in
  let head_ := first_field mark in
  let p := if is_alt_screen (st p) && (str_eqb head_ (lit "A") || str_eqb head_ (lit "D"))
           then recover_shell_screen p else p in
  if (len8 mark <=? 4096) && (length (prompt_marks (st p)) <? 1024)%nat
  then on_st p (fun s => s <| prompt_marks := prompt_marks s ++ [mark] |>) else p.

Definition clipboard (p : Performer) (payload : list N) : Performer :=
  if (length payload <=? 1048576)%nat && (length (clipboard_requests (st p)) <? 16)%nat
  then on_st p (fun s => s <| clipboard_requests := clipboard_requests s ++ [payload] |>) else p.

(** [str::parse::<u8>] *)
Definition parse_u8 : str -> option N := parse_uint 256.

Definition palette_query (p : Performer) (params : list (list N)) : option Performer :=
  match params with
  | code :: index :: what :: _ =>
      if is_bytes code "4" && is_bytes what "?" then
        i ← parse_u8 (default [] (from_utf8 index));
        Some (on_st p (fun s => respond s (ESC ++ lit "]4;" ++ dec i ++ lit ";" ++ osc_rgb (Idx i) ++ [7])))
      else None
  | _ => None
  end.

Definition color_query (p : Performer) (params : list (list N)) : Performer :=
  match params with
  | code :: what :: _ =>
      if is_bytes what "?" then
        if is_bytes code "10" then
          on_st p (fun s => respond s (ESC ++ lit "]10;" ++ osc_rgb (default_fg s) ++ [7]))
        else if is_bytes code "11" then
          on_st p (fun s => respond s (ESC ++ lit "]11;" ++ osc_rgb (default_bg s) ++ [7]))
        else p
      else p
  | _ => p
  end.

Definition nested_marker (p : Performer) (value : option (list N)) : Performer :=
  match value with
  | Some v => if is_bytes v "1" then on_st p (fun s => set_nested_input s true)
              else if is_bytes v "0" then on_st p (fun s => set_nested_input s false) else p
  | None => p
  end.

Definition osc_dispatch (p : Performer) (params : list (list N)) : Performer :=
  let code := default [] (head params) in
  let args := tail params in
  let nargs := length args in
  if is_bytes code "0" || is_bytes code "2" then on_st p (fun s => set_title s (join_params args))
  else if is_bytes code "8" && (2 <=? nargs)%nat then set_link p (join_params (drop 1 args))
  else if is_bytes code "777" && is_bytes (default [] (head args)) "uniterm-input" then
    nested_marker p (args !! 1%nat)
  else if is_bytes code "777" && (3 <=? nargs)%nat && is_bytes (default [] (head args)) "notify" then
    agent_event p (join_params (drop 2 args))
  else if is_bytes code "7" then
    match head args ≫= from_utf8 with
    | Some v => if len8 v <=? 4096 then on_st p (fun s => s <| cwd := Some v |>) else p
    | None => p
    end
  else if is_bytes code "133" then prompt_mark p args
  else if is_bytes code "52" then clipboard p (join_params args)
  else match palette_query p params with Some p => p | None => color_query p params end.

(** ** Escape sequences *)

Definition esc_dispatch (p : Performer) (inter : list N) (byte : N) : option Performer :=
  if is_bytes inter "(" then
    Some (if one_of byte "0" then on_st p (fun s => s <| dec_line_drawing := true |>)
          else if one_of byte "B" then on_st p (fun s => s <| dec_line_drawing := false |>) else p)
  else if one_of byte "M" then Some (reverse_index p)
  else if one_of byte "D" then Some (hard_linefeed p)
  else if one_of byte "E" then
    Some (no_wrap (linefeed (set_cx (on_grid p (fun g => set_row_wrapped g (cy (st p)) false)) 0)))
  else if one_of byte "H" then set_tab p true
  else if one_of byte "7" then Some (save_cursor p)
  else if one_of byte "8" then Some (restore_cursor p)
  else if one_of byte "c" then Some (reset_terminal p)
  else Some p.

(** ** Terminals *)

(** The calls a parser makes. *)
Inductive action : Set :=
| APrint (c : char)
| AExecute (byte : N)
| ACsi (params : list (list N)) (inter : list N) (final : N)
| AOsc (params : list (list N))
| AEsc (inter : list N) (byte : N).

Definition perform (p : Performer) (a : action) : option Performer :=
  match a with
  | APrint c => print p c
  | AExecute b => execute p b
  | ACsi params inter final => csi_dispatch p params inter final
  | AOsc params => Some (osc_dispatch p params)
  | AEsc inter b => esc_dispatch p inter b
  end.

Definition perform_all (p : Performer) (l : list action) : option Performer :=
  foldl (fun p a => p ≫= fun p => perform p a) (Some p) l.

Record Terminal : Set := { screen : Performer; t_scrollback_limit : N }.

Definition new_terminal (w h : N) : Terminal := {|
  screen := {| grid := new (N.max w 1) (N.max h 1); st := initial_state (N.max w 1) (N.max h 1) |};
  t_scrollback_limit := 10000 |}.

(** The stashed primary screen of an alternate one, and its cursor. *)
Definition resize_primary (limit w h : N) (blank : Cell) (s : EmuState) (primary : Grid) : EmuState :=
  let primary := set_scrollback_limit primary limit in
  let '(saved, pending) :=
    match alt_cursor s with
    | Some c => ((sc_x c +16 (if sc_pending c then 1 else 0), sc_y c), sc_pending c)
    | None => ((0, 0), false)
    end in
  let '(primary, (x, y, pending)) := resize_reflow primary w h blank saved pending in
  s <| alt_backup := Some primary |>
    <| alt_cursor := (fun c => c <| sc_x := x |> <| sc_y := y |> <| sc_pending := pending |>) <$> alt_cursor s |>.

Definition resize (t : Terminal) (width height : N) : Terminal :=
  let w := N.max width 1 in
  let h := N.max height 1 in
  let p := screen t in
  let s := st p in
  if (w =? e_width s) && (h =? e_height s) then t
  else
    let blank := blank_cell s in
    let col := cx s +16 (if wrap_pending s then 1 else 0) in
    let '(g, (x, y, pending)) := resize_reflow (grid p) w h blank (col, cy s) (wrap_pending s) in
    let s := s <| cx := x |> <| cy := y |> <| wrap_pending := pending |> in
    let '(g, handle) := intern_underline_color g (underline_color s) in
    let s := s <| underline_color_handle := handle |> in
    let '(g, s) :=
      match alt_backup s with
      | Some primary =>
          (set_scrollback_limit g 0, resize_primary (t_scrollback_limit t) w h blank s primary)
      | None => (g, s)
      end in
    let s := s <| e_width := w |> <| e_height := h |> <| scroll_top := 0 |> <| scroll_bottom := h - 1 |> in
    let kept := take (N.to_nat w) (tabs s) in
    let s := s <| tabs := kept ++ drop (length kept) (default_tabs w) |> in
    {| screen := {| grid := g; st := s |}; t_scrollback_limit := t_scrollback_limit t |}.

Definition terminal_set_scrollback_limit (t : Terminal) (limit : N) : Terminal := {|
  screen := {| grid := set_scrollback_limit (grid (screen t)) limit;
               st := (st (screen t)) <| e_scrollback_limit := limit |> |};
  t_scrollback_limit := limit |}.

Definition set_default_colors (t : Terminal) (f b : Color) : Terminal := {|
  screen := on_st (screen t) (fun s => set_default_colors_state s f b);
  t_scrollback_limit := t_scrollback_limit t |}.

Definition on_screen (t : Terminal) (f : EmuState -> EmuState) : Terminal := {|
  screen := on_st (screen t) f; t_scrollback_limit := t_scrollback_limit t |}.

(** The queues the server drains: [std::mem::take]. *)
Definition take_responses (t : Terminal) : list N * Terminal :=
  (responses (st (screen t)), on_screen t (fun s => s <| responses := [] |>)).
Definition take_agent_events (t : Terminal) : list AgentEvent * Terminal :=
  (agent_events (st (screen t)), on_screen t (fun s => s <| agent_events := [] |>)).
Definition queue_agent_event (t : Terminal) (e : AgentEvent) : Terminal :=
  on_screen t (fun s => s <| agent_events := agent_events s ++ [e] |>).
Definition take_prompt_marks (t : Terminal) : list str * Terminal :=
  (prompt_marks (st (screen t)), on_screen t (fun s => s <| prompt_marks := [] |>)).
Definition take_clipboard_requests (t : Terminal) : list (list N) * Terminal :=
  (clipboard_requests (st (screen t)), on_screen t (fun s => s <| clipboard_requests := [] |>)).
Definition take_nested_input_changes (t : Terminal) : list bool * Terminal :=
  (nested_input_changes (st (screen t)), on_screen t (fun s => s <| nested_input_changes := [] |>)).

Definition keyboard_disambiguation (t : Terminal) : bool :=
  negb (N.land (flags (current_keyboard (st (screen t)))) 1 =? 0).

(** [feed]: the parser is a state with the actions of each byte. *)
Definition feed {P : Type} (advance : P -> N -> P * list action) (t : Terminal) (parser : P) (bytes : list N)
  : option (Terminal * P) :=
  foldl (fun tp b =>
    '(t, parser) ← tp;
    let '(parser, actions) := advance parser b in
    p ← perform_all (screen t) actions;
    Some ({| screen := p; t_scrollback_limit := t_scrollback_limit t |}, parser))
    (Some (t, parser)) bytes.

End Terminal.
