(* ===== verification/TermInv.v ===== *)
(** * The terminal emulator never indexes out of range

    The invariant of grid and cursor that every action of Terminal.v keeps on a
    screen of two columns at least, so that no action panics, and the panic that
    a screen of one column allows. *)

From S2P Require Import Prelude Utf8 Agent Cell Grid GridInv GridEdit GridScroll GridRoom.
From S2P Require Import Reflow ReflowInv GridOps Wide Emu Terminal.
#[local] Open Scope u_scope.

Section TermInv.
Context `{Unicode} `{Json}.

(** The largest history limit the terminal is given. *)
Context (limit : N).
Implicit Types (p q : Performer) (s : EmuState) (g : Grid).

(** ** The invariant *)

Definition keyboard_ok (k : KeyboardMode) : Prop :=
  length (stack k) = STACK_LEN /\ (depth k <= STACK_LEN)%nat.

(** A grid of the terminal's size, with a history it may have and no half of a
    glyph on its screen. *)
Record fits g (w h : N) : Prop := {
  ft_sound : sound g; ft_width : g_width g = w; ft_height : g_height g = h;
  ft_limit : scrollback_limit g <= limit; ft_wide : wide_ok g }.

(** Sizes of a terminal: at least two columns, arithmetic in sixteen bits. *)
Record size_ok (w h : N) : Prop := {
  sz_width : 2 <= w <= MAX_WIDTH; sz_height : 1 <= h < U16;
  sz_capacity : (limit + h) * w <= CELLS_MAX }.

(** The cursor, its region and the tabs. *)
Record cursor_ok s : Prop := {
  cu_x : cx s < e_width s; cu_y : cy s < e_height s;
  cu_region : scroll_top s <= scroll_bottom s < e_height s;
  cu_tabs : length (tabs s) = N.to_nat (e_width s) }.

(** The pen's handles stand for entries of the grid's arenas. *)
Record pen_ok g s : Prop := {
  pn_color : (N.to_nat (underline_color_handle s) < length (underline_colors g))%nat;
  pn_link : link_ok g (hyperlink s) }.

(** The stashed primary screen has the terminal's size and a cursor. *)
Definition alt_ok s : Prop :=
  match alt_backup s with
  | None => True
  | Some g => fits g (e_width s) (e_height s)
              /\ exists c, alt_cursor s = Some c /\ sc_y c < e_height s
  end.

Record state_ok s : Prop := {
  so_size : size_ok (e_width s) (e_height s); so_limit : e_scrollback_limit s <= limit;
  so_cursor : cursor_ok s; so_keyboard : keyboard_ok (keyboard s).1 /\ keyboard_ok (keyboard s).2;
  so_alt : alt_ok s }.

Record ok p : Prop := {
  ok_state : state_ok (st p);
  ok_grid : fits (grid p) (e_width (st p)) (e_height (st p));
  ok_pen : pen_ok (grid p) (st p) }.

(** ** Steps of the state *)

(** What the invariant reads of a state, the cursor's position aside. *)
Definition frame_of s :=
  (e_width s, e_height s, e_scrollback_limit s, scroll_top s, scroll_bottom s, tabs s, keyboard s,
   alt_backup s, alt_cursor s).
Definition handles_of s := (underline_color_handle s, hyperlink s).

Lemma state_frame s s' :
  frame_of s' = frame_of s -> cx s' < e_width s -> cy s' < e_height s -> state_ok s -> state_ok s'.
Proof.
  intros [= Ew Eh El Et Eb Etb Ek Ea Ec] Hx Hy [Hz Hl [_ _ Hr Htb] Hk Ha].
  split; rewrite ?Ew, ?Eh, ?El, ?Ek; [done|done| |done|].
  - split; rewrite ?Ew, ?Eh, ?Et, ?Eb, ?Etb; done.
  - unfold alt_ok in *. by rewrite Ea, Ec, Ew, Eh.
Qed.

(** A step of the state that moves the cursor inside the screen. *)
Lemma ok_st p (f : EmuState -> EmuState) :
  frame_of (f (st p)) = frame_of (st p) -> handles_of (f (st p)) = handles_of (st p) ->
  cx (f (st p)) < e_width (st p) -> cy (f (st p)) < e_height (st p) -> ok p -> ok (on_st p f).
Proof.
  intros E1 E2 Hx Hy [Hs Hg [Hc Hl]]. pose proof (state_frame _ _ E1 Hx Hy Hs) as Hs'.
  injection E1 as Ew Eh _ _ _ _ _ _ _. injection E2 as E3 E4.
  split; cbn [on_st put_field grid st]; [done| |].
  - change (fits (grid p) (e_width (f (st p))) (e_height (f (st p)))). by rewrite Ew, Eh.
  - split; cbn; rewrite ?E3, ?E4; done.
Qed.

Lemma ok_cursor p : ok p -> cx (st p) < e_width (st p) /\ cy (st p) < e_height (st p).
Proof. intros [Hs _ _]. destruct (so_cursor _ Hs). done. Qed.

(** A step that leaves the cursor where it is. *)
Lemma ok_st_same p (f : EmuState -> EmuState) :
  frame_of (f (st p)) = frame_of (st p) -> handles_of (f (st p)) = handles_of (st p) ->
  cx (f (st p)) = cx (st p) -> cy (f (st p)) = cy (st p) -> ok p -> ok (on_st p f).
Proof. intros ? ? E1 E2 Hp. destruct (ok_cursor p Hp). apply ok_st; try done; by rewrite ?E1, ?E2. Qed.

(** ** Steps of the grid *)

Lemma ok_grid_step p f :
  steady (grid p) (f (grid p)) -> (wide_ok (grid p) -> wide_ok (f (grid p))) -> ok p -> ok (on_grid p f).
Proof.
  intros [Hg E] Hwide [Hs [_ Ew Eh El Hw] [Hc Hl]]. injection E as E1 E2 E3 E4 E5. split; cbn; [done| |].
  - split; cbn; [done|congruence|congruence|by rewrite E5|auto].
  - split; cbn; [by rewrite E1|]. unfold link_ok in *. by rewrite E2.
Qed.

Lemma ok_sound p : ok p -> sound (grid p).
Proof. intros []. by apply ft_sound in ok_grid0. Qed.

Lemma pen_cell_ok g f b : sound g -> cell_ok g (blank_of f b).
Proof. intros Hg. apply blank_ok, Hg. Qed.

#[local] Hint Resolve ok_sound pen_cell_ok : uniterm.

(** ** Movement, scrolling and editing *)

Lemma ok_no_wrap p : ok p -> ok (no_wrap p).
Proof. by apply ok_st_same. Qed.

Lemma ok_set_cx p x : x < e_width (st p) -> ok p -> ok (set_cx p x).
Proof. intros Hx Hp. apply ok_st; try done. by apply ok_cursor. Qed.

Lemma ok_set_cy p y : y < e_height (st p) -> ok p -> ok (set_cy p y).
Proof. intros Hy Hp. apply ok_st; try done. by apply ok_cursor. Qed.

Lemma ok_wrapped p y b : ok p -> ok (on_grid p (fun g => set_row_wrapped g y b)).
Proof. intros Hp. apply ok_grid_step; [by apply row_wrapped_steady, ok_sound|apply wrapped_wide|done]. Qed.

Lemma ok_sets p f :
  (sound (grid p) -> sets (grid p) (f (grid p)) /\ (wide_ok (grid p) -> wide_ok (f (grid p)))) ->
  ok p -> ok (on_grid p f).
Proof.
  intros Hf Hp. pose proof (ok_sound p Hp) as Hg. destruct (Hf Hg) as [Hs Hw].
  apply ok_grid_step; [by apply sets_steady|done|done].
Qed.

Lemma ok_scroll_up p top bottom f b :
  ok p -> ok (on_grid p (fun g => scroll_region_up g top bottom (blank_of f b))).
Proof. intros Hp. apply ok_grid_step; [apply region_up_steady|apply region_up_wide|done]; eauto with uniterm. Qed.

Lemma ok_scroll_discarding p top bottom f b :
  ok p -> ok (on_grid p (fun g => scroll_region_up_discarding g top bottom (blank_of f b))).
Proof. intros Hp. apply ok_grid_step; [apply region_up_steady|apply region_up_wide|done]; eauto with uniterm. Qed.

Lemma ok_scroll_down p top bottom f b :
  ok p -> ok (on_grid p (fun g => scroll_region_down g top bottom (blank_of f b))).
Proof. intros Hp. apply ok_grid_step; [apply region_down_steady|apply region_down_wide|done]; eauto with uniterm. Qed.

#[local] Hint Resolve ok_no_wrap ok_wrapped ok_scroll_up ok_scroll_discarding ok_scroll_down : uniterm.

Lemma ok_dims p : ok p -> size_ok (e_width (st p)) (e_height (st p)).
Proof. intros [[]]. done. Qed.

(** Size and cursor of the screen, for arithmetic. *)
Lemma ok_bounds p :
  ok p -> 2 <= e_width (st p) <= MAX_WIDTH /\ 1 <= e_height (st p) < U16
  /\ cx (st p) < e_width (st p) /\ cy (st p) < e_height (st p)
  /\ scroll_top (st p) <= scroll_bottom (st p) < e_height (st p).
Proof. intros Hp. pose proof (ok_dims p Hp) as []. destruct Hp as [[_ _ [] _ _] _ _]. done. Qed.

Lemma ok_linefeed p : ok p -> ok (linefeed p) /\ cx (st (linefeed p)) = cx (st p)
  /\ e_width (st (linefeed p)) = e_width (st p).
Proof.
  intros Hp. unfold linefeed. destruct (_ =? _); [split; [by apply ok_scroll_up|done]|].
  destruct (N.ltb_spec (cy (st p) +16 1) (e_height (st p))); [|done]. split; [by apply ok_set_cy|done].
Qed.

Lemma ok_reverse_index p : ok p -> ok (reverse_index p).
Proof.
  intros Hp. unfold reverse_index. destruct (_ =? _); [by apply ok_scroll_down|].
  destruct (_ <? _); [|done]. pose proof (ok_bounds p Hp). apply ok_set_cy; [lia|done].
Qed.

Lemma ok_repeat {n} (f : Performer -> Performer) p :
  (forall q, ok q -> ok (f q)) -> ok p -> ok (repeat_ n f p).
Proof. intros Hf Hp. unfold repeat_. induction (N.to_nat n) as [|k IH]; [done|]. by apply Hf. Qed.

Lemma ok_delete_chars p n : ok p -> ok (delete_chars p n).
Proof.
  intros Hp. unfold delete_chars. apply ok_no_wrap, ok_wrapped, ok_sets; [|done].
  intros Hg. split; [apply delete_sets|apply delete_wide]; eauto with uniterm.
Qed.

Lemma ok_insert_chars p n : ok p -> ok (insert_chars p n).
Proof.
  intros Hp. unfold insert_chars. apply ok_sets; [|by apply ok_no_wrap].
  intros Hg. split; [apply insert_sets|apply insert_wide]; eauto with uniterm.
Qed.

Lemma ok_erase p y from to f b : ok p -> ok (on_grid p (fun g => erase_cells g y from to (blank_of f b))).
Proof. intros Hp. apply ok_sets; [|done]. intros Hg. split; [apply erase_sets|apply erase_wide]; eauto with uniterm. Qed.

#[local] Hint Resolve ok_erase : uniterm.

Lemma ok_erase_chars p n : ok p -> ok (erase_chars p n).
Proof. intros Hp. by apply ok_no_wrap, ok_wrapped, ok_erase. Qed.

Lemma ok_insert_lines p n : ok p -> ok (insert_lines p n).
Proof.
  intros Hp. unfold insert_lines. apply ok_no_wrap in Hp. destruct (outside_region _); [done|].
  apply ok_repeat; [|done]. intros q Hq. by apply ok_scroll_down.
Qed.

Lemma ok_delete_lines p n : ok p -> ok (delete_lines p n).
Proof.
  intros Hp. unfold delete_lines. apply ok_no_wrap in Hp. destruct (outside_region _); [done|].
  apply ok_repeat; [|done]. intros q Hq. by apply ok_scroll_discarding.
Qed.

Lemma ok_erase_in_line p mode : ok p -> ok (erase_in_line p mode).
Proof.
  intros Hp. unfold erase_in_line. destruct (match mode with 0 => _ | _ => _ end) as [[from to]|]; [|done].
  apply ok_no_wrap. destruct (_ =? 0); [apply ok_wrapped|]; by apply ok_erase.
Qed.

Lemma ok_erase_rows p ys : ok p -> ok (erase_rows p ys).
Proof.
  intros Hp. apply ok_sets; [|done]. intros Hg.
  split; [|apply erase_rows_wide; eauto with uniterm]. apply (fold_sets (fun g y => erase_cells g y 0 _ _)).
  intros g' y Hs _. apply erase_sets. eapply sets_ok; [exact Hs|]. by apply pen_cell_ok.
Qed.

Lemma ok_clear_scrollback p : ok p -> ok (on_grid p clear_scrollback).
Proof. intros Hp. apply ok_grid_step; [by apply clear_scrollback_steady, ok_sound|exact id|done]. Qed.

#[local] Hint Resolve ok_erase_in_line ok_erase_rows ok_clear_scrollback : uniterm.

Lemma ok_erase_in_display p mode : ok p -> ok (erase_in_display p mode).
Proof.
  intros Hp. unfold erase_in_display. destruct mode as [|[[| |]|[| |]|]]; auto with uniterm.
Qed.

(** ** The pen *)

Lemma ok_set_fg p c : ok p -> ok (set_fg p c).
Proof. by apply ok_st_same. Qed.
Lemma ok_set_bg p c : ok p -> ok (set_bg p c).
Proof. by apply ok_st_same. Qed.
Lemma ok_set_attrs p f : ok p -> ok (set_attrs p f).
Proof. by apply ok_st_same. Qed.

Lemma colors_nonempty g : sound g -> (0 < length (underline_colors g))%nat.
Proof. intros Hg. pose proof (ar_colors g (wf_arena g (so_wf g Hg))). destruct (underline_colors g); cbn; [done|lia]. Qed.

(** A pen with the default underline. *)
Lemma ok_plain_pen p (f : EmuState -> EmuState) :
  frame_of (f (st p)) = frame_of (st p) -> underline_color_handle (f (st p)) = 0 ->
  hyperlink (f (st p)) = hyperlink (st p) ->
  cx (f (st p)) = cx (st p) -> cy (f (st p)) = cy (st p) -> ok p -> ok (on_st p f).
Proof.
  intros E1 E2 E3 Ex Ey Hp. destruct (ok_cursor p Hp) as [Hx Hy]. pose proof (ok_sound p Hp) as Hg.
  destruct Hp as [Hs Hgr [_ Hl]].
  pose proof (state_frame _ (f (st p)) E1 ltac:(by rewrite Ex) ltac:(by rewrite Ey) Hs) as Hs'.
  injection E1 as Ew Eh _ _ _ _ _ _ _. split; cbn; [done|by rewrite Ew, Eh|].
  split; [rewrite E2; by apply colors_nonempty|by rewrite E3].
Qed.

Lemma ok_set_underline p c : ok p -> ok (set_underline p c).
Proof.
  intros [Hs [Hg Ew Eh El Hw] [_ Hl]]. unfold set_underline.
  pose proof (intern_color_wide (grid p) c (so_wf _ Hg) Hw) as Hw'.
  pose proof (intern_color_sound (grid p) c Hg) as Hi. destruct (intern_underline_color (grid p) c) as [g h].
  destruct Hi as (Hg' & E & Ek & Hh). injection E as E1 E2 E3.
  split; cbn; [by apply (state_frame (st p)); [..|apply Hs]; try apply (so_cursor _ Hs)| |].
  - split; cbn; [done|congruence|congruence|by rewrite E3|done].
  - split; cbn; [done|]. unfold link_ok. by rewrite Ek.
Qed.

Lemma ok_reset_sgr p : ok p -> ok (reset_sgr p).
Proof. by apply ok_plain_pen. Qed.

#[local] Hint Resolve ok_set_fg ok_set_bg ok_set_attrs ok_set_underline ok_reset_sgr : uniterm.

Lemma ok_sgr_group p groups (g : list N) : ok p -> ok (sgr_group p groups g).1.
Proof.
  intros Hp. unfold sgr_group, add_attr, drop_attr, set_style.
  repeat match goal with
  | |- ok (if ?b then _ else _).1 => destruct b; [cbn [fst]; try solve [auto with uniterm]|]
  end; [| | |done].
  - destruct (match g !! 1%nat with Some v => underline_style v | None => Some Single end);
      [by apply ok_set_attrs|done].
  - destruct (parse_extended_color groups) as [[c|] n]; cbn [fst]; [|done].
    destruct (_ =? 38); [by apply ok_set_fg|]. destruct (_ =? 48); [by apply ok_set_bg|by apply ok_set_underline].
  - by apply ok_plain_pen.
Qed.

Lemma ok_apply_sgr p groups : ok p -> ok (apply_sgr p groups).
Proof.
  intros Hp. unfold apply_sgr. destruct groups as [|g0 gs]; [by apply ok_reset_sgr|].
  generalize (g0 :: gs) as l. intros l. generalize (length l) as fuel. intros fuel. clear g0 gs.
  revert p l Hp. induction fuel as [|fuel IH]; intros p l Hp; [done|]. destruct l as [|g l]; [done|].
  cbn [sgr_loop]. pose proof (ok_sgr_group p (g :: l) g Hp) as Hg.
  destruct (sgr_group p (g :: l) g) as [q n]. by apply IH.
Qed.

(** ** Saved cursors and the alternate screen *)

Lemma ok_load_cursor p c : ok p -> ok (load_cursor p c).
Proof.
  intros Hp. pose proof (ok_bounds p Hp). unfold load_cursor.
  set (q := on_st p _). assert (ok q) as Hq by (apply ok_st; cbn; [done|done|lia|lia|done]).
  apply (ok_set_underline q (sc_underline c)) in Hq. by apply ok_st_same.
Qed.

Lemma ok_restore_cursor p : ok p -> ok (restore_cursor p).
Proof. intros Hp. unfold restore_cursor. destruct (saved (st p)); [by apply ok_load_cursor|done]. Qed.

Lemma ok_save_cursor p : ok p -> ok (save_cursor p).
Proof. by apply ok_st_same. Qed.

(** A step of the state in general. *)
Lemma ok_state_step p (f : EmuState -> EmuState) :
  state_ok (f (st p)) -> e_width (f (st p)) = e_width (st p) -> e_height (f (st p)) = e_height (st p) ->
  pen_ok (grid p) (f (st p)) -> ok p -> ok (on_st p f).
Proof. intros Hs Ew Eh Hpen [_ Hg _]. split; cbn; [done|by rewrite Ew, Eh|done]. Qed.

Lemma default_keyboard_ok : keyboard_ok default_keyboard.
Proof. split; [done|cbn; unfold STACK_LEN; lia]. Qed.

(** The region is a part of the screen. *)
Lemma ok_region p t b : t <= b < e_height (st p) ->
  ok p -> ok (on_st p (fun s => s <| scroll_top := t |> <| scroll_bottom := b |>)).
Proof. intros Hr Hp. pose proof Hp as [[? ? [] ? ?] ? []]. by apply ok_state_step. Qed.

Lemma ok_unlink p : ok p -> ok (on_st p (fun s => s <| hyperlink := 0 |>)).
Proof. intros Hp. pose proof Hp as [[? ? [] ? ?] ? []]. apply ok_state_step; try done. by split; [|left]. Qed.

Lemma set_nested_frame s b :
  frame_of (set_nested_input s b) = frame_of s /\ handles_of (set_nested_input s b) = handles_of s
  /\ cx (set_nested_input s b) = cx s /\ cy (set_nested_input s b) = cy s.
Proof. unfold set_nested_input. by destruct (eqb _ _). Qed.

Lemma ok_nested p b : ok p -> ok (on_st p (fun s => set_nested_input s b)).
Proof. intros Hp. destruct (set_nested_frame (st p) b) as (? & ? & ? & ?). by apply ok_st_same. Qed.

Lemma ok_keyboards p : ok p -> ok (on_st p (fun s => s <| keyboard := (default_keyboard, default_keyboard) |>)).
Proof.
  intros Hp. pose proof Hp as [[? ? [] ? ?] ? []]. apply ok_state_step; try done.
  split; try done. split; apply default_keyboard_ok.
Qed.

Lemma ok_reset_region p : ok p -> ok (on_st p reset_region).
Proof. intros Hp. pose proof (ok_bounds p Hp). apply (ok_region p 0 (e_height (st p) - 1)); [lia|done]. Qed.

Lemma ok_origin p b : ok p -> ok (on_st p (fun s => s <| origin_mode := b |>)).
Proof. by apply ok_st_same. Qed.

(** A blank grid of the terminal's size. *)
Lemma blank_screen_fits w h n : size_ok w h -> n <= limit ->
  fits (mark_all_damaged (set_scrollback_limit (new w h) n)) w h.
Proof.
  intros [Hw Hh Hc] Hn. unfold MAX_WIDTH, U16 in Hw, Hh.
  assert (wf (new w h)) as Hwf by (apply new_grid_wf; unfold U16; lia).
  assert (sound (set_scrollback_limit (new w h) n)) as Hs.
  { split; [|by apply (roomy_same (new w h))|unfold capacity; cbn; nia].
    apply history_wf; [done|apply keep_last_sublist|apply keep_last_length]. }
  pose proof (mark_all_steady _ Hs) as [Hm E]. injection E as _ _ E3 E4 E5. split; [done|done|done|by rewrite E5|].
  apply mark_all_wide. exact (new_wide w h ltac:(unfold U16; lia) ltac:(unfold U16; lia)).
Qed.

Lemma fits_damaged g w h : fits g w h -> fits (mark_all_damaged g) w h.
Proof.
  intros [Hs Ew Eh El Hw]. pose proof (mark_all_steady g Hs) as [Hm E]. injection E as _ _ E3 E4 E5.
  split; [done|congruence|congruence|by rewrite E5|by apply mark_all_wide].
Qed.

Lemma intern_color_fits g c w h :
  fits g w h -> let '(g', k) := intern_underline_color g c in
  fits g' w h /\ (N.to_nat k < length (underline_colors g'))%nat.
Proof.
  intros [Hs Ew Eh El Hw]. pose proof (intern_color_wide g c (so_wf _ Hs) Hw) as Hw'.
  pose proof (intern_color_sound g c Hs) as Hi.
  destruct (intern_underline_color g c) as [g' k]. destruct Hi as (Hg & E & _ & Hk). injection E as E1 E2 E3.
  split; [|done]. split; [done|congruence|congruence|by rewrite E3|done].
Qed.

Lemma ok_enter_alt p : ok p -> ok (enter_alt p).
Proof.
  intros Hp. pose proof (ok_bounds p Hp) as (? & ? & ? & ? & ?). unfold enter_alt.
  destruct Hp as [[Hz Hl Hc Hk Ha] Hg Hpen]. destruct (alt_backup (st p)); [done|].
  pose proof (blank_screen_fits _ _ 0 Hz ltac:(lia)) as Hf.
  pose proof (intern_color_fits _ (underline_color (st p)) _ _ Hf) as Hi.
  destruct (intern_underline_color _ _) as [g h]. destruct Hi as [Hg' Hh].
  split; cbn; [|done|by split; [|left]].
  split; cbn; [done|done| |done|].
  - split; cbn; [lia|lia|lia|apply Hc].
  - split; [done|]. eexists. split; [done|]. done.
Qed.

(** The primary screen back in place, before its cursor is loaded. *)
Definition leave_alt p (primary : Grid) : Performer := {|
  grid := mark_all_damaged primary;
  st := (st p) <| alt_backup := None |> <| alt_cursor := None |> <| hyperlink := 0 |>
               <| underline_color_handle := 0 |> |}.

Lemma ok_leave_alt p primary : alt_backup (st p) = Some primary -> ok p -> ok (leave_alt p primary).
Proof.
  intros E [[Hz Hl Hc Hk Ha] Hg Hpen]. unfold alt_ok in Ha. rewrite E in Ha. destruct Ha as [Hf _].
  apply fits_damaged in Hf. split; cbn; [|done|].
  - destruct Hc. by split.
  - split; cbn; [apply colors_nonempty, Hf|by left].
Qed.

Lemma exit_alt_steps p primary c :
  alt_backup (st p) = Some primary -> alt_cursor (st p) = Some c ->
  exit_alt p = on_st (on_st (on_st (load_cursor (leave_alt p primary) c) reset_region)
    (fun s => s <| origin_mode := false |>)) (fun s => s <| hyperlink := 0 |>).
Proof.
  intros E1 E2. unfold exit_alt. rewrite E1. cbn [st on_st put_field]. cbn. rewrite E2.
  unfold load_cursor, set_underline. cbn. by destruct (intern_underline_color _ _).
Qed.

Lemma ok_exit_alt p : ok p -> ok (exit_alt p).
Proof.
  intros Hp. destruct (alt_backup (st p)) as [primary|] eqn:E; [|unfold exit_alt; by rewrite E].
  pose proof Hp as [[_ _ _ _ Ha] _ _]. unfold alt_ok in Ha. rewrite E in Ha. destruct Ha as (_ & c & Ec & _).
  rewrite (exit_alt_steps p primary c E Ec). apply ok_unlink.
  by apply ok_origin, ok_reset_region, ok_load_cursor, ok_leave_alt.
Qed.

Lemma shell_modes_frame s : let s' := shell_modes s in
  e_width s' = e_width s /\ e_height s' = e_height s /\ e_scrollback_limit s' = e_scrollback_limit s
  /\ scroll_top s' = 0 /\ scroll_bottom s' = e_height s - 1 /\ tabs s' = tabs s
  /\ keyboard s' = (default_keyboard, default_keyboard) /\ alt_backup s' = alt_backup s
  /\ alt_cursor s' = alt_cursor s /\ underline_color_handle s' = underline_color_handle s
  /\ hyperlink s' = 0 /\ cx s' = cx s /\ cy s' = cy s.
Proof. unfold shell_modes, set_nested_input. destruct (eqb _ _); split_and!; reflexivity. Qed.

Lemma ok_shell_modes p : ok p -> ok (on_st p shell_modes).
Proof.
  intros Hp. pose proof (ok_bounds p Hp) as (? & ? & ? & ? & ?).
  destruct (shell_modes_frame (st p)) as (E1 & E2 & E3 & E4 & E5 & E6 & E7 & E8 & E9 & Eh1 & Eh2 & Ex & Ey).
  destruct Hp as [[Hz Hl Hc Hk Ha] Hg Hpen].
  apply ok_state_step; [|done|done| |by split].
  - split; rewrite ?E1, ?E2, ?E3; [done|done| |rewrite E7; split; apply default_keyboard_ok|].
    + split; rewrite ?E1, ?E2, ?E4, ?E5, ?E6, ?Ex, ?Ey; [done|done|lia|apply Hc].
    + unfold alt_ok in *. by rewrite E8, E9, E1, E2.
  - destruct Hpen. split; [by rewrite Eh1|rewrite Eh2; by left].
Qed.

Lemma ok_recover p : ok p -> ok (recover_shell_screen p).
Proof. intros Hp. by apply ok_shell_modes, ok_exit_alt. Qed.

(** ** Modes and reset *)

Lemma ok_home p : ok p -> ok (home p).
Proof.
  intros Hp. pose proof (ok_bounds p Hp) as (? & ? & ? & ? & ?). apply ok_st; cbn; [done|done|lia| |done].
  destruct (origin_mode _); lia.
Qed.

Lemma ok_set_private_mode p mode b : ok p -> ok (set_private_mode p mode b).
Proof.
  intros Hp. unfold set_private_mode.
  repeat match goal with
  | |- ok (if (_ =? _) then on_st p _ else _) => destruct (_ =? _); [by apply ok_st_same|]
  | |- ok (if (_ =? 6) then _ else _) => destruct (_ =? 6); [by apply ok_home, ok_st_same|]
  | |- ok (if (_ =? 7) then _ else _) => destruct (_ =? 7); [by apply ok_no_wrap, ok_st_same|]
  end.
  destruct (_ =? 1048); [destruct b; [by apply ok_save_cursor|by apply ok_restore_cursor]|].
  destruct (_ || _ || _); [destruct b; [by apply ok_enter_alt|by apply ok_exit_alt]|].
  destruct (_ =? _); [by apply ok_st_same|done].
Qed.

Lemma default_tabs_length w : length (default_tabs w) = N.to_nat w.
Proof. unfold default_tabs. rewrite length_map, length_range. lia. Qed.

Lemma reset_frame p : let s := st p in let s' := st (reset_terminal p) in
  e_width s' = e_width s /\ e_height s' = e_height s /\ e_scrollback_limit s' = e_scrollback_limit s
  /\ scroll_top s' = 0 /\ scroll_bottom s' = e_height s - 1 /\ tabs s' = default_tabs (e_width s)
  /\ keyboard s' = (default_keyboard, default_keyboard) /\ alt_backup s' = None
  /\ underline_color_handle s' = 0 /\ hyperlink s' = 0 /\ cx s' = 0 /\ cy s' = 0.
Proof. unfold reset_terminal, set_nested_input. cbn [st]. destruct (eqb _ _); split_and!; reflexivity. Qed.

Lemma ok_reset_terminal p : ok p -> ok (reset_terminal p).
Proof.
  intros Hp. pose proof (ok_bounds p Hp) as (? & ? & ? & ? & ?).
  destruct (reset_frame p) as (E1 & E2 & E3 & E4 & E5 & E6 & E7 & E8 & Eh1 & Eh2 & Ex & Ey).
  destruct Hp as [[Hz Hl Hc Hk Ha] Hg Hpen].
  pose proof (blank_screen_fits _ _ _ Hz Hl) as Hf. split; rewrite ?E1, ?E2; [|exact Hf|].
  - split; rewrite ?E1, ?E2, ?E3; [done|done| |rewrite E7; split; apply default_keyboard_ok|].
    + split; rewrite ?E1, ?E2, ?E4, ?E5, ?E6, ?Ex, ?Ey; [lia|lia|lia|apply default_tabs_length].
    + unfold alt_ok. by rewrite E8.
  - split; [rewrite Eh1; apply colors_nonempty, Hf|rewrite Eh2; by left].
Qed.

(** ** Printing *)

Lemma linefeed_pen p : ok p -> pen_of (grid (linefeed p)) = pen_of (grid p).
Proof.
  intros Hp. pose proof (ok_sound p Hp) as Hg. unfold linefeed. destruct (_ =? _); [|by destruct (_ <? _)].
  apply region_up_steady; eauto with uniterm.
Qed.

Lemma style_pen g g' c : pen_of g' = pen_of g -> style_ok g c -> style_ok g' c.
Proof. intros [=]. by apply style_ok_same. Qed.

Lemma ok_grapheme p x y t c w : style_ok (grid p) c -> ok p -> ok (on_grid p (fun g => set_grapheme g x y t c w)).
Proof.
  intros Hc Hp. pose proof (ok_sound p Hp).
  apply ok_grid_step; [by apply set_grapheme_steady|by apply set_grapheme_wide|done].
Qed.

Lemma ok_clear_glyph p x y f b :
  ok p -> ok (on_grid p (fun g => clear_glyph_at g x y (blank_of f b)))
          /\ pen_of (clear_glyph_at (grid p) x y (blank_of f b)) = pen_of (grid p).
Proof.
  intros Hp. pose proof (ok_sound p Hp) as Hg.
  assert (steady (grid p) (clear_glyph_at (grid p) x y (blank_of f b))) as Hs.
  { apply sets_steady; [|done]. apply clear_glyph_sets; eauto with uniterm. }
  split; [apply ok_grid_step; [done|apply clear_glyph_wide; eauto with uniterm|done]|apply Hs].
Qed.

Lemma ok_pending p b : ok p -> ok (on_st p (fun s => s <| wrap_pending := b |>)).
Proof. by apply ok_st_same. Qed.

Lemma ok_auto_pending p : ok p -> ok (on_st p (fun s => s <| wrap_pending := autowrap s |>)).
Proof. by apply ok_st_same. Qed.

Lemma append_steady g x y c : sound g -> steady g (append_to_grapheme g x y c).1.
Proof.
  intros Hg. unfold append_to_grapheme. destruct (_ || _); [by apply steady_refl|].
  set (lead_x := if _ && _ then x - 1 else x). destruct (negb _); [by apply steady_refl|].
  apply set_grapheme_steady; [apply peek_style, (wf_arena g), Hg|done].
Qed.

(** The pen's cell is in the arenas. *)
Lemma ok_extend_glyph p x y old c :
  style_ok (grid p) old -> ok p -> ok (extend_glyph p x y old c).
Proof.
  intros Hold Hp. pose proof (ok_bounds p Hp) as (Hw & _). unfold extend_glyph.
  set (text := cell_text_owned (grid p) old ++ [c]).
  destruct ((nclamp (text_width text) 1 2 =? 2) && _) eqn:Ewide.
  - destruct (ok_clear_glyph p x y (e_fg (st p)) (e_bg (st p)) Hp) as [Hq Eq].
    fold (blank_cell (st p)) in Hq, Eq. set (q := on_grid p _) in *.
    destruct (autowrap (st p)); [|apply ok_grapheme; [by eapply style_pen|done]].
    pose proof (ok_wrapped q y true Hq) as Hr. set (r := on_grid q _) in *.
    assert (pen_of (grid r) = pen_of (grid p)) as Er.
    { etrans; [|exact Eq]. exact (sd_pen _ _ (row_wrapped_steady (grid q) y true (ok_sound q Hq))). }
    assert (ok (set_cx r 0)) as Hz by (apply ok_set_cx; [|done]; cbn; lia).
    pose proof (linefeed_pen _ Hz) as El. destruct (ok_linefeed _ Hz) as (Hl & Ecx & Ewd).
    set (l := linefeed _) in *. pose proof (ok_no_wrap l Hl) as Hn.
    assert (style_ok (grid (no_wrap l)) old) as Hs by (eapply style_pen; [exact (eq_trans El Er)|done]).
    pose proof (ok_grapheme (no_wrap l) 0 (cy (st (no_wrap l))) text old 2 Hs Hn) as Hm.
    assert (e_width (st l) = e_width (st p)) as Ewl by done.
    destruct (N.eqb_spec (e_width (st p)) 2).
    + apply ok_pending, ok_set_cx; [|done]. cbn. lia.
    + apply ok_set_cx; [|done]. cbn. lia.
  - pose proof (append_steady (grid p) x y c (ok_sound p Hp)) as Ha.
    pose proof (append_wide (grid p) x y c (ok_sound p Hp)) as Hb.
    destruct (append_to_grapheme (grid p) x y c) as [g b]. cbn [fst] in Ha, Hb.
    pose proof (ok_grid_step p (fun _ => g) Ha Hb Hp) as Hq. set (q := p <| grid := g |>).
    change (on_grid p (fun _ => g)) with q in Hq. destruct b; [|done].
    destruct (N.leb_spec (e_width (st p)) (sadd u16_max x (nclamp (text_width text) 1 2))).
    + apply ok_auto_pending, ok_set_cx; [|done]. cbn. lia.
    + destruct (negb _); [by apply ok_set_cx|done].
Qed.

Lemma ok_wrap_row p : ok p -> ok (wrap_row p) /\ e_width (st (wrap_row p)) = e_width (st p)
  /\ cx (st (wrap_row p)) = 0.
Proof.
  intros Hp. pose proof (ok_bounds p Hp) as (Hw & _). unfold wrap_row.
  pose proof (ok_wrapped p (cy (st p)) true Hp) as Hq. set (q := on_grid p _) in *.
  assert (ok (set_cx q 0)) as Hz by (apply ok_set_cx; [|done]; cbn; lia).
  destruct (ok_linefeed _ Hz) as (Hl & Ecx & Ewd). done.
Qed.

(** The row is wrapped at most twice before the glyph is laid down. *)
Lemma ok_ready p (b : bool) :
  ok p -> ok (if wrap_pending (st p) then no_wrap (if b then wrap_row p else p) else p)
  /\ e_width (st (if wrap_pending (st p) then no_wrap (if b then wrap_row p else p) else p)) = e_width (st p).
Proof.
  intros Hp. destruct (ok_wrap_row p Hp) as (Hw & Ew & _).
  destruct (wrap_pending (st p)); [|done]. destruct b; (split; [by apply ok_no_wrap|done]).
Qed.

Lemma ok_print_glyph p c : ok p -> ok (print_glyph p c).
Proof.
  intros Hp. unfold print_glyph.
  destruct (if nclamp _ 0 2 =? 0 then _ else _) as [t0 w0].
  destruct (if (w0 =? 2) && _ then _ else _) as [t1 w1].
  destruct (ok_ready p (autowrap (st p)) Hp) as [Hq _].
  set (q := if wrap_pending (st p) then _ else _) in *. clearbody q.
  set (r := if (w1 =? 2) && _ then _ else _).
  assert (ok r.1.1) as Hr.
  { subst r. destruct (_ && _); [|done]. destruct (autowrap (st q)); [|done]. by apply ok_wrap_row. }
  clearbody r. destruct r as [[r text] w]. cbn [fst] in Hr. clear q Hq.
  set (q := if insert_mode (st r) then _ else _).
  assert (ok q /\ st q = st r /\ pen_of (grid q) = pen_of (grid r)) as (Hq & Es & Eq).
  { subst q. destruct (insert_mode (st r)); [|done]. pose proof (ok_sound r Hr) as Hg.
    assert (sets (grid r) (insert_cells (grid r) (cy (st r)) (cx (st r)) w (blank_cell (st r)))) as Hs
      by (apply insert_sets; eauto with uniterm).
    split; [apply ok_sets; [|done]|]; [|split; [done|by apply sets_steady]].
    intros _. split; [done|]. apply insert_wide; eauto with uniterm. }
  clearbody q. set (cell := {| ch := c |}).
  assert (style_ok (grid q) cell) as Hc.
  { destruct (ok_pen r Hr) as [H1 H2]. apply (style_pen (grid r)); [done|]. by split. }
  pose proof (ok_grapheme q (cx (st r)) (cy (st r)) text cell w Hc Hq) as Hm.
  set (m := on_grid q _) in *. pose proof (ok_bounds r Hr) as (? & _).
  assert (st m = st r) as Em by done. clearbody m.
  destruct (N.leb_spec (e_width (st r)) (cx (st r) +16 w)).
  - apply ok_auto_pending, ok_set_cx; [rewrite Em; lia|done].
  - apply ok_set_cx; [by rewrite Em|done].
Qed.

Lemma previous_in p x y : ok p -> previous (st p) = Some (x, y) -> x < e_width (st p) /\ y < e_height (st p).
Proof.
  intros Hp. pose proof (ok_bounds p Hp) as (? & ? & ? & ? & ?). unfold previous.
  destruct (wrap_pending (st p)); [intros [= <- <-]; done|].
  destruct (N.ltb_spec 0 (cx (st p))); [|done]. intros [= <- <-]. split; [lia|done].
Qed.

Lemma ok_get p x y : ok p -> x < e_width (st p) -> y < e_height (st p) ->
  get (grid p) x y = Some (peek (grid p) x y).
Proof.
  intros [_ [Hg Ew Eh _] _] Hx Hy. apply get_some; [apply Hg|by rewrite Ew|by rewrite Eh].
Qed.

Lemma ok_print p c : ok p -> exists q, print p c = Some q /\ ok q.
Proof.
  intros Hp. unfold print. set (c1 := if dec_line_drawing (st p) then _ else c).
  pose proof (ok_print_glyph p c1 Hp) as Hg.
  assert (ok (on_st (print_glyph p c1) (fun s => s <| last_char := Some c |>))) as Hf.
  { revert Hg. generalize (print_glyph p c1) as q. intros q. by apply ok_st_same. }
  destruct (previous (st p)) as [[x y]|] eqn:Ep; [|by eauto].
  destruct (previous_in p x y Hp Ep) as [Hx Hy]. unfold previous_lead. rewrite ok_get by done. cbn [mbind option_bind].
  set (x1 := if _ && _ then x - 1 else x).
  assert (x1 < e_width (st p)) as Hx1 by (subst x1; destruct (_ && _); lia).
  rewrite ok_get by done. cbn [mbind option_bind].
  eexists. split; [done|]. destruct (grapheme_extends _ _ _); [|done].
  apply ok_extend_glyph; [|done]. apply peek_style, wf_arena, so_wf, ok_sound, Hp.
Qed.

(** ** Tabs and control characters *)

(** A result that is a good screen. *)
Definition fine (r : option Performer) : Prop := exists q, r = Some q /\ ok q.

Lemma fine_some p : ok p -> fine (Some p).
Proof. by eexists. Qed.
#[local] Hint Resolve fine_some : uniterm.

Lemma find_stop_in (ts : list bool) xs :
  Forall (fun x => (N.to_nat x < length ts)%nat) xs ->
  exists r, find_stop ts xs = Some r /\ forall x, r = Some x -> x ∈ xs.
Proof.
  induction 1 as [|x xs Hx _ (r & Er & Hr)]; [by eexists|]. cbn [find_stop].
  destruct (lookup_lt_is_Some_2 ts _ Hx) as [b ->]. cbn. destruct b.
  - eexists. split; [done|]. intros ? [= <-]. set_solver.
  - exists r. split; [done|]. intros y Hy. specialize (Hr y Hy). set_solver.
Qed.

Lemma ok_tabs p : ok p -> length (tabs (st p)) = N.to_nat (e_width (st p)).
Proof. intros [[_ _ [] _ _] _ _]. done. Qed.

Lemma fine_tab_forward p : ok p -> fine (tab_forward p).
Proof.
  intros Hp. pose proof (ok_bounds p Hp) as (? & ? & ? & _). unfold tab_forward.
  destruct (find_stop_in (tabs (st p)) (range (cx (st p) +16 1) (e_width (st p)))) as (r & -> & Hr).
  { apply Forall_forall. intros x Hx. apply elem_of_range in Hx. rewrite ok_tabs by done. lia. }
  cbn. apply fine_some, ok_no_wrap, ok_set_cx; [|done]. destruct r as [x|]; cbn; [|lia].
  specialize (Hr x eq_refl). apply elem_of_range in Hr. lia.
Qed.

Lemma fine_tab_back p : ok p -> fine (tab_back p).
Proof.
  intros Hp. pose proof (ok_bounds p Hp) as (? & ? & ? & _). unfold tab_back.
  destruct (find_stop_in (tabs (st p)) (rev (range 0 (cx (st p))))) as (r & -> & Hr).
  { apply Forall_forall. intros x Hx. apply list_elem_of_In, in_rev, list_elem_of_In, elem_of_range in Hx.
    rewrite ok_tabs by done. lia. }
  cbn. apply fine_some, ok_set_cx; [|done]. destruct r as [x|]; cbn; [|lia].
  specialize (Hr x eq_refl). apply list_elem_of_In, in_rev, list_elem_of_In, elem_of_range in Hr. lia.
Qed.

(** Other tabs, as many. *)
Lemma ok_retab p f : length (f (tabs (st p))) = length (tabs (st p)) ->
  ok p -> ok (on_st p (fun s => s <| tabs := f (tabs s) |>)).
Proof.
  intros Hl Hp. pose proof Hp as [[? ? [] ? ?] ? []]. apply ok_state_step; try done.
  split; cbn; try done. split; cbn; try done. by rewrite Hl.
Qed.

Lemma fine_set_tab p b : ok p -> fine (set_tab p b).
Proof.
  intros Hp. pose proof (ok_bounds p Hp) as (? & ? & ? & _). unfold set_tab.
  destruct (Nat.ltb_spec (N.to_nat (cx (st p))) (length (tabs (st p)))); [|rewrite ok_tabs in *; [lia|done]].
  apply fine_some, (ok_retab p (fun l => <[N.to_nat (cx (st p)) := b]> l)); [by rewrite length_insert|done].
Qed.

Lemma ok_hard_linefeed p : ok p -> ok (hard_linefeed p).
Proof. intros Hp. apply ok_no_wrap, ok_linefeed. by apply ok_wrapped. Qed.

Lemma fine_execute p b : ok p -> fine (execute p b).
Proof.
  intros Hp. pose proof (ok_bounds p Hp) as (? & ? & ? & _). unfold execute.
  destruct (_ && _); [apply fine_some; by apply ok_hard_linefeed|].
  destruct (_ =? 13); [apply fine_some, ok_no_wrap, ok_set_cx; [lia|done]|].
  destruct (_ =? 8); [apply fine_some, ok_no_wrap, ok_set_cx; [lia|done]|].
  destruct (_ =? 9); [by apply fine_tab_forward|by apply fine_some].
Qed.

Lemma fine_repeat n f p : (forall q, ok q -> fine (f q)) -> ok p -> fine (repeat_opt n f p).
Proof.
  intros Hf. revert p. induction n as [|n IH]; intros p Hp; [by apply fine_some|].
  cbn. destruct (Hf p Hp) as (q & -> & Hq). by apply IH.
Qed.

(** ** Control sequences *)

Lemma ok_move_up p n : ok p -> ok (move_up p n).
Proof.
  intros Hp. pose proof (ok_bounds p Hp) as (? & ? & ? & ? & ?). apply ok_no_wrap, ok_set_cy; [|done].
  destruct (origin_mode _); lia.
Qed.

Lemma ok_move_down p n : ok p -> ok (move_down p n).
Proof.
  intros Hp. pose proof (ok_bounds p Hp) as (? & ? & ? & ? & ?). apply ok_no_wrap, ok_set_cy; [|done].
  destruct (origin_mode _); lia.
Qed.

Lemma fine_csi_move p params a : ok p -> forall r, csi_move p params a = Some r -> fine r.
Proof.
  intros Hp r. pose proof (ok_bounds p Hp) as (? & ? & ? & ? & ?). unfold csi_move.
  repeat match goal with
  | |- (if ?b then _ else _) = _ -> _ => destruct b; [intros [= <-]; apply fine_some|]
  end; [..|done].
  - apply ok_no_wrap, (ok_set_cx (set_cy p _)); [cbn; lia|]. apply ok_set_cy; [|done].
    unfold cup_row. destruct (origin_mode _); lia.
  - by apply ok_move_up.
  - by apply ok_move_down.
  - apply ok_no_wrap, ok_set_cx; [lia|done].
  - apply ok_no_wrap, ok_set_cx; [lia|done].
  - apply (ok_set_cx (move_down p _)); [cbn; lia|by apply ok_move_down].
  - apply (ok_set_cx (move_up p _)); [cbn; lia|by apply ok_move_up].
  - apply ok_no_wrap, ok_set_cx; [lia|done].
  - apply ok_no_wrap, ok_set_cy; [|done]. destruct (origin_mode _); lia.
  - by apply ok_erase_in_display.
  - by apply ok_erase_in_line.
Qed.

Lemma fine_csi_edit p params a : ok p -> forall r, csi_edit p params a = Some r -> fine r.
Proof.
  intros Hp r. unfold csi_edit.
  repeat match goal with
  | |- (if ?b then _ else _) = _ -> _ => destruct b; [intros [= <-]|]
  end; [..|done].
  - by apply fine_some, ok_delete_chars.
  - by apply fine_some, ok_insert_chars.
  - by apply fine_some, ok_erase_chars.
  - by apply fine_some, ok_insert_lines.
  - by apply fine_some, ok_delete_lines.
  - destruct (last_char (st p)) as [c|]; [|by apply fine_some].
    apply fine_repeat; [|done]. intros q Hq. by apply ok_print.
  - destruct (fine_repeat (N.to_nat (param params 0 1)) tab_back p) as (q & -> & Hq);
      [by apply fine_tab_back|done|]. by apply fine_some, ok_no_wrap.
  - destruct (param params 0 0) as [|[[|[]|]|[]|]]; try by apply fine_some.
    + by apply fine_set_tab.
    + by apply fine_some, (ok_retab p (map (fun _ => false))); [rewrite length_map|].
  - apply fine_some, ok_repeat; [|done]. intros q Hq. by apply ok_scroll_up.
  - apply fine_some, ok_repeat; [|done]. intros q Hq. by apply ok_scroll_down.
Qed.

(** *** Keyboard modes *)

Lemma length_shift_down (l : list N) : length (shift_down l) = length l.
Proof. unfold shift_down. rewrite length_app, !length_drop. destruct l; cbn; lia. Qed.

Lemma push_ok k f : keyboard_ok k -> keyboard_ok (push k f).
Proof.
  intros [Hl Hd]. unfold push. destruct (Nat.eqb_spec (depth k) (length (stack k))) as [E|E].
  - split; cbn; [by rewrite length_insert, length_shift_down|unfold STACK_LEN in *; lia].
  - split; cbn; [by rewrite length_insert|unfold STACK_LEN in *; lia].
Qed.

Lemma pop_ok k n : keyboard_ok k -> keyboard_ok (pop k n).
Proof.
  intros [Hl Hd]. unfold pop. destruct (_ <? _)%nat; [split; cbn; [done|lia]|].
  destruct (negb _); split; cbn; try done; lia.
Qed.

Lemma ok_set_keyboard p k : keyboard_ok k -> ok p -> ok (on_st p (fun s => set_keyboard s k)).
Proof.
  intros Hk Hp. pose proof Hp as [[? ? [] [] ?] ? []]. apply ok_state_step; try done.
  split; cbn; try done. by destruct (is_alt_screen (st p)).
Qed.

Lemma ok_change_keyboard p params inter : ok p -> ok (on_st p (fun s => change_keyboard s params inter)).
Proof.
  intros Hp. apply (ok_set_keyboard p); [|done].
  assert (keyboard_ok (current_keyboard (st p))) as Hk.
  { destruct Hp as [[_ _ _ [? ?] _] _ _]. unfold current_keyboard. by destruct (is_alt_screen _). }
  destruct (is_bytes inter ">"); [by apply push_ok|]. destruct (is_bytes inter "<"); [by apply pop_ok|].
  by destruct (param params 1 1) as [|[[]|[]|]].
Qed.

(** *** Reports and modes *)

Lemma ok_respond p f : ok p -> ok (on_st p (fun s => respond s (f s))).
Proof. by apply ok_st_same. Qed.

Lemma ok_theme p : ok p -> ok (on_st p (fun s => push_theme_report s (dark_theme s))).
Proof. by apply ok_respond. Qed.

(** A report changes nothing but the pending answers. *)
Definition reports (f : EmuState -> EmuState) : Prop := forall s, f s = s \/ exists bs, f s = respond s bs.

Lemma ok_reports p f : reports f -> ok p -> ok (on_st p f).
Proof. intros Hf Hp. destruct (Hf (st p)) as [E|[bs E]]; apply ok_st_same; rewrite ?E; done. Qed.

Lemma reports_status n : reports (fun s => device_status s n).
Proof.
  intros s. unfold device_status. case_match; [by left|].
  repeat (case_match; try (by left)); right; by eexists.
Qed.

Lemma reports_window n : reports (fun s => window_report s n).
Proof.
  intros s. unfold window_report. case_match; [by left|].
  repeat (case_match; try (by left)); right; by eexists.
Qed.

Lemma ok_fold {A} (f : Performer -> A -> Performer) p l : (forall q a, ok q -> ok (f q a)) -> ok p -> ok (foldl f p l).
Proof. intros Hf. revert p. induction l as [|a l IH]; intros p Hp; [done|]. apply IH. by apply Hf. Qed.

Lemma ok_private_mode b p mode : ok p -> ok (private_mode b p mode).
Proof.
  intros Hp. unfold private_mode. destruct (_ =? _); [|by apply ok_set_private_mode].
  apply ok_st_same; destruct b; done.
Qed.

Lemma ok_ansi_mode b p mode : ok p -> ok (ansi_mode b p mode).
Proof. intros Hp. unfold ansi_mode. destruct (_ =? _); [by apply ok_st_same|done]. Qed.

Lemma ok_set_margins p t b : ok p -> ok (set_margins p t b).
Proof.
  intros Hp. unfold set_margins. destruct (N.ltb_spec (t - 1) (b - 1)); [|done].
  destruct (N.ltb_spec (b - 1) (e_height (st p))); [|done]. cbn [andb].
  apply ok_home, ok_region; [lia|done].
Qed.

Lemma ok_csi_mode p params inter a : ok p -> ok (csi_mode p params inter a).
Proof.
  intros Hp. unfold csi_mode.
  repeat match goal with
  | |- ok (if ?b then _ else _) => destruct b
  end; try done.
  - by apply ok_set_margins.
  - by apply ok_save_cursor.
  - by apply ok_restore_cursor.
  - by apply (ok_respond p).
  - by apply ok_change_keyboard.
  - by apply (ok_respond p).
  - by apply ok_reports; [apply reports_status|].
  - by apply ok_theme.
  - by apply ok_reports; [apply reports_window|].
  - apply ok_fold; [|done]. intros. by apply ok_private_mode.
  - apply ok_fold; [|done]. intros. by apply ok_private_mode.
  - apply ok_fold; [|done]. intros. by apply ok_ansi_mode.
  - apply ok_fold; [|done]. intros. by apply ok_ansi_mode.
Qed.

Lemma fine_csi p params inter a : ok p -> fine (csi_dispatch p params inter a).
Proof.
  intros Hp. unfold csi_dispatch. destruct (csi_move p params a) as [r|] eqn:E; [by eapply fine_csi_move|].
  destruct (_ && _); [by apply fine_some, ok_apply_sgr|].
  destruct (_ && _); [by apply fine_some|]. destruct (_ && _); [by apply fine_some|].
  destruct (csi_edit p params a) as [r|] eqn:E2; [by eapply fine_csi_edit|].
  by apply fine_some, ok_csi_mode.
Qed.

(** ** Operating-system commands and escapes *)

Lemma ok_set_link p bytes : ok p -> ok (set_link p bytes).
Proof.
  intros Hp. unfold set_link. destruct (from_utf8 bytes) as [uri|]; [|by apply ok_unlink].
  destruct Hp as [Hs [Hg Ew Eh El Hw] [Hc _]]. pose proof (intern_link_wide (grid p) uri Hg Hw) as Hw'.
  pose proof (intern_link_sizes (grid p) uri Hg) as Hi.
  destruct (intern_hyperlink (grid p) uri) as [g h]. destruct Hi as (Hg' & E & Eu & Hl).
  injection E as E1 E2 E3. split; cbn.
  - apply (state_frame (st p)); try done; apply (so_cursor _ Hs).
  - split; cbn; [done|congruence|congruence|by rewrite E3|done].
  - split; cbn; [by rewrite Eu|done].
Qed.

Lemma ok_agent_event p json : ok p -> ok (agent_event p json).
Proof.
  intros Hp. unfold agent_event. destruct (parse_osc777 json) as [ev|]; [|done].
  assert (ok (if bool_decide (ev_status ev = Some Exited) then recover_shell_screen p else p)) as Hq
    by (destruct (bool_decide _); [by apply ok_recover|done]).
  revert Hq. generalize (if bool_decide (ev_status ev = Some Exited) then recover_shell_screen p else p).
  intros q. by apply ok_st_same.
Qed.

Lemma ok_prompt_mark p fields : ok p -> ok (prompt_mark p fields).
Proof.
  intros Hp. unfold prompt_mark. set (mark := join_params _). set (b := is_alt_screen (st p) && _). clearbody b.
  assert (ok (if b then recover_shell_screen p else p)) as Hq by (destruct b; [by apply ok_recover|done]).
  revert Hq. generalize (if b then recover_shell_screen p else p). intros q Hq.
  destruct (_ && _); [by apply ok_st_same|done].
Qed.

Lemma ok_clipboard p payload : ok p -> ok (clipboard p payload).
Proof. intros Hp. unfold clipboard. destruct (_ && _); [by apply ok_st_same|done]. Qed.

Lemma ok_nested_marker p v : ok p -> ok (nested_marker p v).
Proof.
  intros Hp. unfold nested_marker. destruct v as [v|]; [|done].
  destruct (is_bytes v "1"); [by apply ok_nested|]. destruct (is_bytes v "0"); [by apply ok_nested|done].
Qed.

Lemma ok_palette_query p params q : palette_query p params = Some q -> ok p -> ok q.
Proof.
  unfold palette_query. intros E Hp. destruct params as [|? [|? [|? ?]]]; try done.
  destruct (_ && _); [|done]. apply bind_Some in E as (i & _ & [= <-]). by apply (ok_respond p).
Qed.

Lemma ok_color_query p params : ok p -> ok (color_query p params).
Proof.
  intros Hp. unfold color_query. destruct params as [|? [|? ?]]; [done|done|].
  destruct (is_bytes _ "?"); [|done]. destruct (is_bytes _ "10"); [by apply (ok_respond p)|].
  destruct (is_bytes _ "11"); [by apply (ok_respond p)|done].
Qed.

Lemma ok_osc p params : ok p -> ok (osc_dispatch p params).
Proof.
  intros Hp. unfold osc_dispatch.
  repeat match goal with
  | |- ok (if ?b then _ else _) => destruct b
  end.
  - by apply ok_st_same.
  - by apply ok_set_link.
  - by apply ok_nested_marker.
  - by apply ok_agent_event.
  - destruct (head (tail params) ≫= from_utf8) as [v|]; [|done].
    destruct (_ <=? _); [by apply ok_st_same|done].
  - by apply ok_prompt_mark.
  - by apply ok_clipboard.
  - destruct (palette_query p params) as [q|] eqn:E; [by eapply ok_palette_query|by apply ok_color_query].
Qed.

Lemma ok_charset p b : ok p -> ok (on_st p (fun s => s <| dec_line_drawing := b |>)).
Proof. by apply ok_st_same. Qed.

Lemma fine_esc p inter b : ok p -> fine (esc_dispatch p inter b).
Proof.
  intros Hp. pose proof (ok_bounds p Hp) as (? & _). unfold esc_dispatch.
  repeat match goal with
  | |- fine (if ?b then _ else _) => destruct b
  end.
  - apply fine_some. destruct (one_of b "0"); [by apply ok_charset|].
    destruct (one_of b "B"); [by apply ok_charset|done].
  - by apply fine_some, ok_reverse_index.
  - by apply fine_some, ok_hard_linefeed.
  - apply fine_some, ok_no_wrap, ok_linefeed, (ok_set_cx (on_grid p _)); [cbn; lia|by apply ok_wrapped].
  - by apply fine_set_tab.
  - by apply fine_some, ok_save_cursor.
  - by apply fine_some, ok_restore_cursor.
  - by apply fine_some, ok_reset_terminal.
  - by apply fine_some.
Qed.

Lemma fine_perform p a : ok p -> fine (perform p a).
Proof.
  intros Hp. destruct a; cbn [perform].
  - by apply ok_print.
  - by apply fine_execute.
  - by apply fine_csi.
  - by apply fine_some, ok_osc.
  - by apply fine_esc.
Qed.

Lemma fine_perform_all p l : ok p -> fine (perform_all p l).
Proof.
  intros Hp. unfold perform_all. apply fine_some in Hp. revert Hp. generalize (Some p) as r.
  induction l as [|a l IH]; intros r Hr; [done|]. cbn [foldl]. apply IH.
  destruct Hr as (q & -> & Hq). cbn. by apply fine_perform.
Qed.

(** ** Resizing *)

Lemma resize_fits g w h w' h' f b cursor pending :
  fits g w h -> size_ok w' h' -> cursor.2 < h -> (w' <> w \/ h' <> h) ->
  let '(g', (x, y, _)) := resize_reflow g w' h' (blank_of f b) cursor pending in
  fits g' w' h' /\ x < w' /\ y < h' /\ hyperlinks g' = hyperlinks g.
Proof.
  intros [Hs Ew Eh El Hwide] [Hw Hh Hc] Hcy Hne.
  assert (cell_ok g (blank_of f b)) as Hb by by apply pen_cell_ok.
  assert (1 <= w' <= MAX_WIDTH) as Hw1 by lia.
  assert ((scrollback_limit g + h') * w' <= CELLS_MAX) as Hcap by nia.
  rewrite <- Eh in Hcy. rewrite <- Ew, <- Eh in Hne.
  pose proof (resize_spec g w' h' _ cursor pending (so_wf g Hs) Hb Hw1 Hh Hcy Hne) as Hz.
  pose proof (resize_sound g w' h' _ cursor pending Hb Hw1 Hh Hcy Hcap Hs) as Hs'.
  pose proof (resize_wide g w' h' _ cursor pending (so_wf g Hs) Hb eq_refl Hw1 Hh Hcy Hwide) as Hwide'. unfold resize_kept in Hz.
  destruct (resize_reflow _ _ _ _ _ _) as [g' [[x y] q]].
  destruct Hz as (_ & (_ & _ & El') & Ew' & Eh' & Hx & Hy & _ & _ & Elim & _).
  split_and!; [|done|done|done]. split; [done|done|done|by rewrite Elim|done].
Qed.

(** The tabs kept by a resize. *)
Lemma resized_tabs (w : N) (ts : list bool) :
  let kept := take (N.to_nat w) ts in
  length (kept ++ drop (length kept) (default_tabs w)) = N.to_nat w.
Proof.
  cbn zeta. rewrite length_app, length_drop, default_tabs_length, length_take. lia.
Qed.

Lemma limit_fits g w h n : size_ok w h -> n <= limit -> fits g w h -> fits (set_scrollback_limit g n) w h.
Proof.
  intros [_ _ Hc] Hn [Hs Ew Eh El Hw]. split; try done. apply limit_sound; [|done]. rewrite Ew, Eh. nia.
Qed.

Record terminal_ok (t : Terminal) : Prop := {
  tm_screen : ok (screen t); tm_limit : t_scrollback_limit t <= limit }.

Lemma ok_resize (t : Terminal) w h :
  size_ok (N.max w 1) (N.max h 1) -> terminal_ok t -> terminal_ok (resize t w h).
Proof.
  intros Hz Ht. unfold resize. cbv zeta. set (w' := N.max w 1) in *. set (h' := N.max h 1) in *.
  clearbody w' h'. destruct (_ && _) eqn:Esame; [done|].
  assert (w' <> e_width (st (screen t)) \/ h' <> e_height (st (screen t))) as Hne.
  { apply andb_false_iff in Esame as [E%N.eqb_neq|E%N.eqb_neq]; auto. }
  clear Esame. destruct Ht as [Hp Hlim]. destruct t as [[g s] tl]. cbn [screen grid st t_scrollback_limit] in *.
  pose proof (ok_bounds _ Hp) as (_ & _ & _ & Hcy & _). cbn [st] in Hcy.
  destruct Hp as [[Hz0 Hl Hc Hk Ha] Hg [_ Hlink]]. cbn [st grid] in *.
  pose proof (resize_fits g _ _ w' h' (e_fg s) (e_bg s) (cx s +16 (if wrap_pending s then 1 else 0), cy s)
    (wrap_pending s) Hg Hz Hcy Hne) as Hr.
  fold (blank_cell s) in Hr. destruct (resize_reflow g w' h' _ _ _) as [g1 [[x y] q]].
  destruct Hr as (Hf1 & Hx & Hy & El1).
  pose proof (intern_color_fits g1 (underline_color s) _ _ Hf1) as Hi.
  pose proof (intern_color_sound g1 (underline_color s) (ft_sound _ _ _ Hf1)) as Hi2.
  cbn. destruct (intern_underline_color g1 (underline_color s)) as [g2 k].
  destruct Hi as [Hf2 Hk2]. destruct Hi2 as (_ & _ & El2 & _).
  assert (link_ok g2 (hyperlink s)) as Hlink2 by (unfold link_ok in *; by rewrite El2, El1).
  pose proof Hz as [Hzw Hzh Hzc].
  pose proof (resized_tabs w' (tabs s)) as Htabs.
  destruct (alt_backup s) as [primary|] eqn:Ealt.
  - unfold alt_ok in Ha. rewrite Ealt in Ha. destruct Ha as (Hfp & c & Ec & Hyc).
    unfold resize_primary. cbn. rewrite Ec.
    pose proof (resize_fits (set_scrollback_limit primary tl) _ _ w' h' (e_fg s) (e_bg s)
      (sc_x c +16 (if sc_pending c then 1 else 0), sc_y c) (sc_pending c)
      (limit_fits _ _ _ _ Hz0 Hlim Hfp) Hz Hyc Hne) as Hr.
    fold (blank_cell s) in Hr. destruct (resize_reflow (set_scrollback_limit primary tl) _ _ _ _ _) as [g3 [[x3 y3] q3]].
    destruct Hr as (Hf3 & Hx3 & Hy3 & _).
    split; [|done]. split; cbn; [|apply limit_fits; [done|lia|done]|by split].
    split; cbn; [done|done| |done|split; [done|by eexists]].
    split; cbn; [done|done|lia|done].
  - split; [|done]. split; cbn; [|done|by split].
    split; cbn; [done|done| |done|unfold alt_ok; cbn; by rewrite Ealt].
    split; cbn; [done|done|lia|done].
Qed.

(** ** Programs *)

(** What the server does with a terminal: the actions of parsed output, a
    resize, the settings, the recovery of a shell screen and the queues. *)
Inductive term_op : Set :=
| TActions (l : list action)
| TResize (w h : N)
| TLimit (n : N)
| TColors (f b : Color)
| TRecover
| TQueue (e : AgentEvent)
| TDrain.

Definition drain (t : Terminal) : Terminal :=
  (take_nested_input_changes (take_clipboard_requests (take_prompt_marks (take_agent_events
    (take_responses t).2).2).2).2).2.

Definition term_step (t : Terminal) (o : term_op) : option Terminal :=
  match o with
  | TActions l =>
      p ← perform_all (screen t) l;
      Some {| screen := p; t_scrollback_limit := t_scrollback_limit t |}
  | TResize w h => Some (resize t w h)
  | TLimit n => Some (terminal_set_scrollback_limit t n)
  | TColors f b => Some (set_default_colors t f b)
  | TRecover => Some {| screen := recover_shell_screen (screen t); t_scrollback_limit := t_scrollback_limit t |}
  | TQueue e => Some (queue_agent_event t e)
  | TDrain => Some (drain t)
  end.

Definition term_run (t : Terminal) (os : list term_op) : option Terminal :=
  foldl (fun t o => t ≫= fun t => term_step t o) (Some t) os.

(** What the server owes: sizes of at least two columns and limits within bounds. *)
Definition term_op_ok (o : term_op) : Prop :=
  match o with
  | TResize w h => size_ok (N.max w 1) (N.max h 1)
  | TLimit n => n <= limit
  | _ => True
  end.

Lemma ok_limit p n : n <= limit -> ok p ->
  ok {| grid := set_scrollback_limit (grid p) n; st := (st p) <| e_scrollback_limit := n |> |}.
Proof.
  intros Hn [[Hz Hl [] Hk Ha] Hg Hpen]. split; cbn; [|by apply limit_fits|by destruct Hpen; split].
  by split.
Qed.

Lemma ok_on_screen t (f : EmuState -> EmuState) :
  (forall s, frame_of (f s) = frame_of s) -> (forall s, handles_of (f s) = handles_of s) ->
  (forall s, cx (f s) = cx s) -> (forall s, cy (f s) = cy s) ->
  terminal_ok t -> terminal_ok (on_screen t f).
Proof. intros ? ? ? ? [Hp Hl]. split; [by apply ok_st_same|done]. Qed.

Lemma step_ok t o : term_op_ok o -> terminal_ok t -> exists t', term_step t o = Some t' /\ terminal_ok t'.
Proof.
  intros Ho Ht. pose proof Ht as [Hp Hl]. destruct o; cbn [term_step term_op_ok] in *.
  - destruct (fine_perform_all (screen t) l Hp) as (q & -> & Hq). eexists. split; [done|]. by split.
  - eexists. split; [done|]. by apply ok_resize.
  - eexists. split; [done|]. split; [by apply ok_limit|done].
  - eexists. split; [done|]. split; [|done]. unfold set_default_colors, set_default_colors_state. cbn [screen].
    apply ok_st_same; [| | | |done]; by destruct (_ && _).
  - eexists. split; [done|]. split; [by apply ok_recover|done].
  - eexists. split; [done|]. split; [by apply ok_st_same|done].
  - eexists. split; [done|]. unfold drain. by repeat apply ok_on_screen.
Qed.

Lemma new_terminal_ok w h : 10000 <= limit -> size_ok (N.max w 1) (N.max h 1) -> terminal_ok (new_terminal w h).
Proof.
  intros Hl Hz. pose proof Hz as [Hw Hh Hc]. unfold MAX_WIDTH, U16 in Hw, Hh.
  set (w' := N.max w 1) in *. set (h' := N.max h 1) in *.
  assert (fits (new w' h') w' h') as Hf.
  { split; try done; [apply new_sound; [unfold U16; lia|unfold U16; lia|nia]|].
    apply new_wide; unfold U16; lia. }
  split; [|done]. split; [|exact Hf|split; [cbn; lia|by left]].
  split; [done|done| |split; apply default_keyboard_ok|done].
  split; cbn; [lia|lia|lia|apply default_tabs_length].
Qed.

(** C1: a terminal never indexes out of range. From a new terminal of two
    columns at least, no sequence of parsed output, resizes to two columns at
    least, settings and recoveries panics, whatever the bytes: the grid stays
    well formed, cursor, scroll region, tab stops and saved cursors stay inside
    the screen, the pen's colour and link handles stand for entries of the
    grid's arenas, the stashed primary screen keeps the terminal's size, and no
    half of a wide glyph is ever left on either screen. *)
Theorem terminal_never_panics w h os :
  10000 <= limit -> size_ok (N.max w 1) (N.max h 1) -> Forall term_op_ok os ->
  exists t, term_run (new_terminal w h) os = Some t /\ terminal_ok t.
Proof.
  intros Hl Hz Hos. pose proof (new_terminal_ok w h Hl Hz) as Ht. revert Ht.
  generalize (new_terminal w h) as t. induction Hos as [|o os Ho _ IH]; intros t Ht; [by eexists|].
  destruct (step_ok t o Ho Ht) as (t1 & E & Ht1). unfold term_run in *. cbn [foldl mbind option_bind].
  rewrite E. by apply IH.
Qed.
End TermInv.

(** A screen of two columns: CJK, a tab, an alternate screen, a resize. *)
Definition session_ops : list term_op :=
  [TActions [APrint 97; APrint 0x4e00; AExecute 9; ACsi [[1049]] [63] 104; APrint 98]; TResize 3 2;
   TActions [ACsi [[1049]] [63] 108; ACsi [[31]] [] 109; APrint 99]; TLimit 5; TDrain].

#[local] Instance no_json : Json := fun _ => None.

Lemma terminal_never_panics_witness :
  (10000 <= 20000 /\ size_ok 20000 2 2 /\ Forall (term_op_ok 20000) session_ops)
  /\ exists t, term_run (H := sample_unicode) (new_terminal 2 2) session_ops = Some t
       /\ terminal_ok 20000 t.
Proof.
  assert (10000 <= 20000) as H1 by done.
  assert (size_ok 20000 2 2) as H2 by (split; vm_compute; done).
  assert (Forall (term_op_ok 20000) session_ops) as H3.
  { repeat constructor; vm_compute; done. }
  split; [done|]. exact (terminal_never_panics (H := sample_unicode) 20000 2 2 session_ops H1 H2 H3).
Defined.

(** Two columns are needed. Where a variation selector makes a glyph wide, as in
    emoji presentation, a screen of one column puts the cursor in column 2: the
    next character indexes out of range. *)
Definition emoji_width (c : char) : option N := if c =? 65039 then Some 0 else sample_width c.

Definition emoji_unicode : Unicode := {|
  char_width := emoji_width;
  text_width := fun s => foldr (fun c n => (if c =? 65039 then 1 else default 0 (sample_width c)) + n) 0 s;
  grapheme_count := fun s => N.max 1 (N.of_nat (length (filter (fun c => emoji_width c <> Some 0) s))) |}.

Example narrow_panic :
  term_run (H := emoji_unicode) (new_terminal 1 1) [TActions [APrint 9992; APrint 65039; APrint 97]] = None
  /\ is_Some (term_run (H := emoji_unicode) (new_terminal 2 1) [TActions [APrint 9992; APrint 65039; APrint 97]]).
Proof.
  split; [vm_compute; done|].
  destruct (term_run (H := emoji_unicode) (new_terminal 2 1)
    [TActions [APrint 9992; APrint 65039; APrint 97]]) eqn:E; [by eexists|]. by vm_compute in E.
Qed.
