(* ===== verification/TermView.v ===== *)
(** * Text views of a terminal

    [uniterm-server/src/terminal.rs]: what agent detection, output waits and
    the mouse read from a terminal's grid.  Rows and columns are in range by the
    invariant of TermInv.v, so [peek] stands for the source's indexing. *)

From S2P Require Import Prelude Utf8 Agent Cell Grid GridInv Emu Terminal.

(** [write_cell_text]: what a cell adds to a line. *)
Definition write_cell_text (g : Grid) (c : Cell) : str :=
  if is_continuation c then []
  else if negb (cluster c =? 0) then default [] (clusters g !! N.to_nat (cluster c))
  else [ch c].

(** Lines separated by newlines. *)
Fixpoint join_lines (ls : list str) : str :=
  match ls with
  | [] => []
  | [l] => l
  | l :: ls => l ++ 10 :: join_lines ls
  end.

(** The text of columns [from] to [to] of a row of the screen. *)
Definition span_text (g : Grid) (y from to : N) : str :=
  concat (map (fun x => write_cell_text g (peek g x y)) (range from to)).

Definition screen_text (g : Grid) (start end_ : N) : str :=
  join_lines (map (fun y => trim_end (span_text g y 0 (g_width g))) (range start end_)).

Section Views.
Context `{Unicode} `{Json}.
Implicit Types t : Terminal.

Definition t_grid t : Grid := grid (screen t).

Definition bottom_text t (max_lines : N) : str :=
  let height := g_height (t_grid t) in
  screen_text (t_grid t) (height - max_lines) height.

Definition cursor_row t : N := N.min (cy (st (screen t))) (g_height (t_grid t) - 1).

Definition evidence_text t (max_lines : N) : str :=
  let height := g_height (t_grid t) in
  screen_text (t_grid t) (N.min (height - max_lines) (cursor_row t - (max_lines - 1))) height.

Definition recent_output_text t (max_lines : N) : str :=
  let end_ := cursor_row t + 1 in
  screen_text (t_grid t) (end_ - max_lines) end_.

(** A line of history or screen. *)
Definition line_text (g : Grid) (i : N) : str :=
  concat (map (fun x => write_cell_text g (line_cell g i x)) (range 0 (g_width g))).

Definition is_blank_char (c : char) : bool := (c =? 32) || (c =? 9).

Definition automation_output_text t (max_lines : N) : str :=
  let g := t_grid t in
  let history := total_lines g - g_height g in
  let end_ := N.min (sadd u64_max (sadd u64_max history (cy (st (screen t)))) 1) (total_lines g) in
  join_lines (map (fun i => trim_by is_blank_char (line_text g i)) (range (end_ - max_lines) end_)).

Definition dump_text t : str :=
  let g := t_grid t in
  concat (map (fun y => trim_end (concat (map (fun x =>
    let c := peek g x y in if is_continuation c then [] else cell_text_owned g c) (range 0 (g_width g))))
    ++ [10]) (range 0 (g_height g))).

(** ** The link under a cell *)

Definition starts_with (pat s : str) : bool := bool_decide (take (length pat) s = pat).

Definition http_url (s : str) : bool := starts_with (lit "http://") s || starts_with (lit "https://") s.

(** [&s[s.find(pat)?..]] *)
Fixpoint find_from (pat s : str) : option str :=
  if starts_with pat s then Some s
  else match s with [] => None | _ :: s => find_from pat s end.

(** A character of a printed URL. *)
Definition url_char (c : char) : bool :=
  (33 <=? c) && (c <=? 126) && negb ((c =? 34) || (c =? 96) || (c =? 60) || (c =? 62)).

Definition url_part (g : Grid) (x y : N) : bool :=
  let c := peek g x y in
  if is_continuation c then false
  else let text := cell_text_owned g c in negb (bool_decide (text = [])) && forallb url_char text.

(** [while start > 0 && part(start - 1) { start -= 1 }] *)
Fixpoint token_start (g : Grid) (y : N) (x : nat) : nat :=
  match x with
  | O => O
  | S x' => if url_part g (N.of_nat x') y then token_start g y x' else S x'
  end.

(** [while end < width && part(end) { end += 1 }] *)
Fixpoint token_end (g : Grid) (y : N) (fuel : nat) (x : N) : N :=
  match fuel with
  | O => x
  | S fuel => if (x <? g_width g) && url_part g x y then token_end g y fuel (x + 1) else x
  end.

Definition token_text (g : Grid) (y from to : N) : str :=
  concat (map (fun x => let c := peek g x y in if is_continuation c then [] else cell_text_owned g c)
    (range from to)).

(** Punctuation that ends a sentence rather than a URL. *)
Definition closing (c : char) : bool := existsb (N.eqb c) (lit ".,;:)]}").

(** The text between the first two slashes and the next. *)
Definition authority (url : str) : option str :=
  rest ← find_from (lit "//") url;
  Some ((fix upto s := match s with [] => [] | c :: s => if c =? 47 then [] else c :: upto s end) (drop 2 rest)).

Definition printed_url (token : str) : option str :=
  found ← match find_from (lit "https://") token with
          | Some s => Some s
          | None => find_from (lit "http://") token
          end;
  let url := trim_by closing found in
  host ← authority url;
  if negb (bool_decide (host = [])) && negb (existsb is_whitespace host) then Some url else None.

(** The URL printed around a cell. *)
Definition printed_at (g : Grid) (x y : N) : option str :=
  if url_part g x y then
    printed_url (token_text g y (N.of_nat (token_start g y (N.to_nat x)))
      (token_end g y (N.to_nat (g_width g - (x + 1))) (x + 1)))
  else None.

Definition url_at t (x y : N) : option str :=
  let g := t_grid t in
  if (g_width g <=? x) || (g_height g <=? y) then None
  else match (uri ← Grid.hyperlink g (c_hyperlink (peek g x y)); if http_url uri then Some uri else None) with
  | Some uri => Some uri
  | None => printed_at g x y
  end.

(** ** Theorems *)

Lemma starts_with_app pat s : starts_with pat s = true <-> exists r, s = pat ++ r.
Proof.
  unfold starts_with. rewrite bool_decide_eq_true. split.
  - intros E. exists (drop (length pat) s). by rewrite <- E at 1; rewrite take_drop.
  - intros [r ->]. apply take_app_length.
Qed.

Lemma find_from_some pat s r : find_from pat s = Some r -> starts_with pat r = true /\ exists pre, s = pre ++ r.
Proof.
  induction s as [|c s IH]; cbn [find_from]; intros Hr.
  - destruct (starts_with pat []) eqn:E; simplify_eq. split; [done|by exists []].
  - destruct (starts_with pat (c :: s)) eqn:E; simplify_eq; [split; [done|by exists []]|].
    destruct (IH Hr) as (? & pre & ->). split; [done|]. by exists (c :: pre).
Qed.

(** Trimming the end leaves a prefix whose last character is not trimmed. *)
Lemma starts_with_trim f pat c s :
  f c = false -> starts_with (pat ++ [c]) s = true -> starts_with (pat ++ [c]) (trim_by f s) = true.
Proof.
  intros Hc Hs. apply starts_with_app in Hs as [r Hr]. apply starts_with_app.
  destruct (trim_by_spec f s) as (k & E & Hk & _). rewrite E in Hr. set (u := trim_by f s) in *. clearbody u.
  apply app_eq_inv in Hr as [(m & E1 & E2)|(m & E1 & E2)].
  - by exists m.
  - destruct m as [|d m _] using rev_ind; [exists []; by rewrite app_nil_r in *|].
    rewrite app_assoc in E1. apply app_inj_tail in E1 as [_ <-].
    rewrite E2, !Forall_app in Hk. destruct Hk as [[_ Hk] _]. rewrite Forall_cons in Hk. destruct Hk. congruence.
Qed.

Lemma token_start_spec g y x : (token_start g y x <= x)%nat
  /\ forall i, (token_start g y x <= i < x)%nat -> url_part g (N.of_nat i) y = true.
Proof.
  induction x as [|x [IH1 IH2]]; cbn [token_start]; [by split; [|lia]|].
  destruct (url_part g (N.of_nat x) y) eqn:E; [|split; [lia|lia]]. split; [lia|]. intros i Hi.
  destruct (decide (i = x)) as [->|]; [done|]. apply IH2. lia.
Qed.

Lemma token_end_spec g y fuel x : x <= token_end g y fuel x
  /\ (x <= g_width g -> token_end g y fuel x <= g_width g)
  /\ forall i, x <= i < token_end g y fuel x -> url_part g i y = true.
Proof.
  revert x. induction fuel as [|fuel IH]; intros x; cbn [token_end]; [split_and!; [lia|done|lia]|].
  destruct (N.ltb_spec x (g_width g)); cbn [andb]; [|split_and!; [lia|done|lia]].
  destruct (url_part g x y) eqn:E; [|split_and!; [lia|lia|lia]].
  destruct (IH (x + 1)) as (I1 & I2 & I3). split_and!; [lia|intros _; apply I2; lia|].
  intros i Hi. destruct (decide (i = x)) as [->|]; [done|]. apply I3. lia.
Qed.

Lemma token_text_chars g y from to :
  (forall i, from <= i < to -> url_part g i y = true) -> Forall (fun c => url_char c = true) (token_text g y from to).
Proof.
  intros Hp. unfold token_text. apply Forall_concat, Forall_fmap, Forall_forall. intros x Hx.
  apply elem_of_range, Hp in Hx. cbn. unfold url_part in Hx. destruct (is_continuation _); [done|].
  apply andb_true_iff in Hx as [_ Hx]. apply Forall_forall. intros c Hc.
  rewrite forallb_forall in Hx. apply Hx. by apply list_elem_of_In.
Qed.

Lemma printed_url_spec token u : printed_url token = Some u ->
  http_url u = true /\ (exists pre post, token = pre ++ u ++ post)
  /\ exists host, authority u = Some host /\ host <> [].
Proof.
  unfold printed_url. intros Hu. apply bind_Some in Hu as (found & Hf & Hu).
  apply bind_Some in Hu as (host & Hh & Hu). destruct (bool_decide_reflect (host = [])) as [|Hne]; [done|].
  destruct (existsb is_whitespace host); [done|]. injection Hu as <-.
  assert ((starts_with (lit "https://") found = true \/ starts_with (lit "http://") found = true)
          /\ exists pre, token = pre ++ found) as [Hs [pre Hpre]].
  { destruct (find_from (lit "https://") token) as [s|] eqn:E.
    - injection Hf as <-. apply find_from_some in E as [? ?]. auto.
    - apply find_from_some in Hf as [? ?]. auto. }
  split; [|split].
  - unfold http_url. destruct Hs as [Hs|Hs].
    + apply (starts_with_trim closing (lit "https:/") 47) in Hs; [|done]. apply orb_true_iff. right. exact Hs.
    + apply (starts_with_trim closing (lit "http:/") 47) in Hs; [|done]. apply orb_true_iff. left. exact Hs.
  - destruct (trim_by_spec closing found) as (k & E & _). exists pre, k. by rewrite <- E.
  - by exists host.
Qed.

(** A link under a cell is a link that is there. What the mouse gets is an
    HTTP address: the cell's own hyperlink target, or a piece of the text
    printed in the unbroken run of URL characters around the cell, with a
    nonempty host. *)
Theorem url_at_sound t x y u :
  url_at t x y = Some u ->
  let g := t_grid t in
  http_url u = true
  /\ (Grid.hyperlink g (c_hyperlink (peek g x y)) = Some u
      \/ Forall (fun c => url_char c = true) u
         /\ exists from to pre post, from <= x < to /\ to <= g_width g
              /\ (forall i, from <= i < to -> url_part g i y = true)
              /\ token_text g y from to = pre ++ u ++ post
              /\ exists host, authority u = Some host /\ host <> []).
Proof.
  unfold url_at. cbv zeta. set (g := t_grid t). clearbody g.
  destruct (N.leb_spec (g_width g) x); [done|]. destruct (N.leb_spec (g_height g) y); [done|]. cbn [orb].
  destruct (Grid.hyperlink g (c_hyperlink (peek g x y)) ≫= _) as [uri|] eqn:E.
  - intros [= <-]. apply bind_Some in E as (v & Hv & E). destruct (http_url v) eqn:Ev; [|done].
    injection E as <-. auto.
  - unfold printed_at. destruct (url_part g x y) eqn:Ep; [|done]. intros Hu.
    apply printed_url_spec in Hu as (Hh & (pre & post & Et) & Ha). split; [done|]. right.
    destruct (token_start_spec g y (N.to_nat x)) as [S1 S2].
    destruct (token_end_spec g y (N.to_nat (g_width g - (x + 1))) (x + 1)) as (E1 & E2 & E3).
    set (from := token_start g y (N.to_nat x)) in *. set (to := token_end g y _ (x + 1)) in *.
    assert (forall i, N.of_nat from <= i < to -> url_part g i y = true) as Hall.
    { intros i Hi. destruct (N.lt_trichotomy i x) as [Hlt|[->|Hgt]]; [|done|apply E3; lia].
      replace i with (N.of_nat (N.to_nat i)) by lia. apply S2. lia. }
    pose proof (token_text_chars g y (N.of_nat from) to Hall) as Hc. rewrite Et in Hc.
    split; [rewrite !Forall_app in Hc; by destruct Hc as (_ & ? & _)|]. exists (N.of_nat from), to, pre, post.
    split_and!; [lia|lia|apply E2; lia|done|done|done].
Qed.
End Views.

#[local] Instance no_json : Json := fun _ => None.

(** A screen that prints "(http://a.b)." *)
Definition link_screen : Terminal := {|
  screen := default (screen (new_terminal 16 1))
    (perform_all (H := sample_unicode) (screen (new_terminal 16 1)) (map APrint (lit "(http://a.b).")));
  t_scrollback_limit := 10000 |}.

Lemma url_at_sound_witness : url_at link_screen 3 0 = Some (lit "http://a.b") /\ http_url (lit "http://a.b") = true.
Proof.
  assert (url_at link_screen 3 0 = Some (lit "http://a.b")) as H1 by (vm_compute; done).
  split; [done|]. exact (proj1 (url_at_sound link_screen 3 0 (lit "http://a.b") H1)).
Defined.
