(* ===== verification/TermSpec.v ===== *)
(** * What the terminal emulator's controls do

    Theorems about Terminal.v: the keyboard-mode stack refines a bounded list,
    the alternate screen hands the primary one back, cursor addresses and
    position reports agree, and the two spellings of extended colours are one. *)

From S2P Require Import Prelude Utf8 Agent Cell Grid GridInv GridEdit GridScroll GridRoom.
From S2P Require Import Reflow ReflowInv GridOps Emu Terminal TermInv.
#[local] Open Scope u_scope.

(** ** Keyboard modes: a list of at most sixteen *)

Section Keyboard.

(** The flags in force and the stacked ones, newest first. *)
Definition spec : Set := N * list N.

Definition spec_push (k : spec) (f : N) : spec := (N.land f 1, take STACK_LEN (k.1 :: k.2)).

Definition spec_pop (k : spec) (n : nat) : spec :=
  match n with
  | O => k
  | S i => match k.2 !! i with Some f => (f, drop n k.2) | None => (0, []) end
  end.

Inductive key_op : Set := KPush (f : N) | KPop (n : nat).

Definition key_step (k : KeyboardMode) (o : key_op) : KeyboardMode :=
  match o with KPush f => push k f | KPop n => pop k n end.
Definition spec_step (k : spec) (o : key_op) : spec :=
  match o with KPush f => spec_push k f | KPop n => spec_pop k n end.

Definition abs (k : KeyboardMode) : spec := (flags k, reverse (take (depth k) (stack k))).

Lemma reverse_take_insert (l : list N) d x : (d < length l)%nat ->
  reverse (take (S d) (<[d := x]> l)) = x :: reverse (take d l).
Proof.
  intros Hd. rewrite (take_S_r _ _ x) by (by apply list_lookup_insert_eq).
  rewrite take_insert_ge by lia. by rewrite reverse_snoc.
Qed.

Lemma reverse_drop (l : list N) n : drop n (reverse l) = reverse (take (length l - n) l).
Proof. unfold reverse. rewrite <- !rev_alt. apply skipn_rev. Qed.

Lemma push_fields k f : let full := (depth k =? length (stack k))%nat in
  let d := if full then (depth k - 1)%nat else depth k in
  flags (push k f) = N.land f 1 /\ depth (push k f) = S d
  /\ stack (push k f) = <[d := flags k]> (if full then shift_down (stack k) else stack k).
Proof. unfold push. by destruct (_ =? _)%nat. Qed.

Lemma abs_push k f : keyboard_ok k -> abs (push k f) = spec_push (abs k) f.
Proof.
  intros [Hl Hd]. unfold abs, spec_push. destruct (push_fields k f) as (-> & -> & ->). cbn [fst snd]. f_equal.
  destruct (Nat.eqb_spec (depth k) (length (stack k))) as [E|E].
  - rewrite reverse_take_insert by (rewrite length_shift_down; unfold STACK_LEN in *; lia).
    rewrite (take_ge (stack k)) by lia. unfold STACK_LEN in *. rewrite E, Hl. cbn [take Nat.sub]. f_equal.
    unfold shift_down. rewrite take_app_le by (rewrite length_drop; lia).
    rewrite (take_ge (drop 1 _)) by (rewrite length_drop; lia).
    destruct (stack k) as [|a l]; [done|]. cbn in Hl. cbn [drop]. rewrite drop_0, reverse_cons.
    rewrite take_app_le by (rewrite length_reverse; lia). by rewrite take_ge by (rewrite length_reverse; lia).
  - rewrite reverse_take_insert by lia. symmetry. apply take_ge.
    cbn [length]. rewrite length_reverse, length_take. unfold STACK_LEN in *. lia.
Qed.

Lemma abs_pop k n : keyboard_ok k -> abs (pop k n) = spec_pop (abs k) n.
Proof.
  intros [Hl Hd]. unfold pop, abs, spec_pop, put_field. destruct n as [|i]; [done|].
  cbn [fst snd Nat.eqb negb]. assert (length (take (depth k) (stack k)) = depth k) as Hlen
    by (rewrite length_take; lia).
  destruct (Nat.ltb_spec (depth k) (S i)).
  - rewrite lookup_ge_None_2 by (rewrite length_reverse; lia). done.
  - rewrite reverse_lookup, Hlen, lookup_take_lt by lia. rewrite reverse_drop, Hlen.
    destruct (lookup_lt_is_Some_2 (stack k) (depth k - S i)) as [x Hx]; [lia|]. rewrite Hx.
    rewrite take_take, Nat.min_l by lia. cbn. by rewrite Hx.
Qed.

(** The keyboard protocol's mode stack is a list of at most sixteen
    entries. Whatever the pushes and pops, the flags in force and the stacked
    ones are those of the list: a push beyond sixteen forgets the oldest entry,
    a pop of more entries than there are clears all, and the flags are those
    pushed with every bit but the first cleared. *)
Theorem keyboard_refines_list os :
  abs (foldl key_step default_keyboard os) = foldl spec_step (0, []) os.
Proof.
  change (0, []) with (abs default_keyboard).
  assert (keyboard_ok default_keyboard) as Hk by apply default_keyboard_ok.
  revert Hk. generalize default_keyboard as k.
  induction os as [|o os IH]; intros k Hk; [done|]. cbn [foldl].
  assert (abs (key_step k o) = spec_step (abs k) o) as <- by (destruct o; [by apply abs_push|by apply abs_pop]).
  apply IH. destruct o; [by apply push_ok|by apply pop_ok].
Qed.
End Keyboard.

(** ** Graphic renditions *)

Section Rendition.
Context `{Unicode} `{Json}.
Implicit Types p : Performer.

Lemma extended_takes groups : groups <> [] -> (1 <= (parse_extended_color groups).2)%nat.
Proof.
  intros Hg. unfold parse_extended_color. destruct (1 <? _)%nat; [done|].
  destruct groups as [|g gs]; [done|]. repeat case_match; cbn; try done; lia.
Qed.

Lemma sgr_group_takes p groups (g : list N) : groups <> [] -> (1 <= (sgr_group p groups g).2)%nat.
Proof.
  intros Hg. pose proof (extended_takes groups Hg) as He. unfold sgr_group.
  repeat match goal with |- context [if ?b then _ else _] => destruct b; [done|] end.
  destruct (_ || _ || _); [|by destruct (_ =? _)]. by destruct (parse_extended_color groups).
Qed.

(** The loop ends: each round takes a group, so the number of groups is fuel enough. *)
Lemma sgr_fuel fuel p groups :
  (length groups <= fuel)%nat -> sgr_loop fuel p groups = sgr_loop (length groups) p groups.
Proof.
  revert p groups. induction fuel as [fuel IH] using lt_wf_ind. intros p groups Hf.
  destruct groups as [|g gs]; [by destruct fuel|]. destruct fuel as [|fuel]; [cbn in Hf; lia|].
  cbn [length sgr_loop]. pose proof (sgr_group_takes p (g :: gs) g ltac:(done)) as Ht.
  destruct (sgr_group p (g :: gs) g) as [q n]. cbn [snd] in Ht. cbn [length] in Hf.
  assert (length (drop n (g :: gs)) <= length gs)%nat as Hd by (rewrite length_drop; cbn; lia).
  destruct (decide (fuel = length gs)) as [->|Hne]; [done|].
  rewrite (IH fuel) by lia. symmetry. apply (IH (length gs)); [lia|done].
Qed.

Lemma apply_sgr_step p (g : list N) gs :
  apply_sgr p (g :: gs) =
    let '(q, n) := sgr_group p (g :: gs) g in
    let l := drop n (g :: gs) in sgr_loop (length l) q l.
Proof.
  unfold apply_sgr. cbn [length sgr_loop]. pose proof (sgr_group_takes p (g :: gs) g ltac:(done)) as Ht.
  destruct (sgr_group p (g :: gs) g) as [q n]. cbn [snd] in Ht. apply sgr_fuel. rewrite length_drop. cbn. lia.
Qed.

(** Two parameter lists that set the same pen. *)
Definition same_rendition p (a b : list (list N)) : Prop := apply_sgr p a = apply_sgr p b.

(** The spellings of an extended colour are one. A foreground, background
    or underline colour of the palette or of red, green and blue means the same
    as one group with colons, with or without a colour space, and as several
    groups with semicolons, whatever the renditions that follow. *)
Theorem sgr_spellings p code n r g b space rest :
  code ∈ [38; 48; 58] ->
  same_rendition p ([code] :: [5] :: [n] :: rest) ([code; 5; n] :: rest)
  /\ same_rendition p ([code] :: [2] :: [r] :: [g] :: [b] :: rest) ([code; 2; r; g; b] :: rest)
  /\ same_rendition p ([code; 2; r; g; b] :: rest) ([code; 2; space; r; g; b] :: rest).
Proof.
  intros Hc. unfold same_rendition. rewrite !apply_sgr_step. assert (code = 38 \/ code = 48 \/ code = 58) as Hcode by set_solver.
  destruct Hcode as [->|[->| ->]]; split_and!; reflexivity.
Qed.

End Rendition.

#[local] Instance no_json : Json := fun _ => None.

(** Both spellings of an indexed foreground, with bold after it. *)
Lemma sgr_spellings_witness :
  let p := screen (new_terminal 2 2) in
  38 ∈ [38; 48; 58] /\ same_rendition p [[38]; [5]; [9]; [1]] [[38; 5; 9]; [1]].
Proof.
  cbv zeta. assert (38 ∈ [38; 48; 58]) as H1 by set_solver.
  split; [done|]. exact (proj1 (sgr_spellings (screen (new_terminal 2 2)) 38 9 0 0 0 0 [[1]] H1)).
Defined.

(** ** Cursor addresses and position reports *)

Section Cursor.
Context `{Unicode} `{Json} (limit : N).
Implicit Types p : Performer.

(** The rows an address counts: the scroll region in origin mode, else the screen. *)
Definition addressed_rows (s : EmuState) : N :=
  if origin_mode s then scroll_bottom s - scroll_top s + 1 else e_height s.

Lemma report_row_address p row col :
  ok limit p -> 1 <= row -> scroll_top (st p) + row < U16 ->
  report_row (st (cursor_position p row col)) = N.min row (addressed_rows (st p)).
Proof.
  intros Hp Hr Ht. pose proof (ok_bounds limit p Hp) as (_ & Hh & _ & _ & Hreg). unfold U16 in Ht, Hh.
  unfold report_row, addressed_rows, cursor_position. cbn. unfold cup_row. destruct (origin_mode (st p)).
  - rewrite (wadd_small _ _ row) by (unfold U16; lia). rewrite (wsub_small U16 _ 1) by (unfold U16; lia).
    rewrite wsub_small by (unfold U16; lia). rewrite wadd_small by (unfold U16; lia). lia.
  - rewrite wadd_small by (unfold U16; lia). lia.
Qed.

(** A position report answers the address. After a cursor address the
    report names the same row and column, the last of the region or the screen
    for an address beyond it, with and without origin mode, as long as row and
    region top together stay within sixteen bits. *)
Theorem report_answers_address p row col :
  ok limit p -> 1 <= row -> 1 <= col -> scroll_top (st p) + row < U16 ->
  exists q, perform_all p [ACsi [[row]; [col]] [] 72; ACsi [[6]] [] 110] = Some q
    /\ responses (st q) = responses (st p) ++ ESC ++ lit "[" ++ dec (N.min row (addressed_rows (st p)))
         ++ lit ";" ++ dec (N.min col (e_width (st p))) ++ lit "R".
Proof.
  intros Hp Hr Hc Ht. pose proof (ok_bounds limit p Hp) as (Hw & _). unfold MAX_WIDTH in Hw.
  exists (on_st (cursor_position p row col) (fun s => device_status s 6)). split.
  - assert (param [[row]; [col]] 0%nat 1 = row /\ param [[row]; [col]] 1%nat 1 = col) as [E1 E2].
    { unfold param. cbn. destruct (N.eqb_spec row 0), (N.eqb_spec col 0); lia. }
    assert (perform p (ACsi [[row]; [col]] [] 72) = Some (cursor_position p row col)) as E.
    { change (Some (cursor_position p (param [[row]; [col]] 0%nat 1) (param [[row]; [col]] 1%nat 1))
        = Some (cursor_position p row col)). by rewrite E1, E2. }
    unfold perform_all. cbn [foldl mbind option_bind]. rewrite E. reflexivity.
  - cbn [st on_st put_field]. rewrite <- (report_row_address p row col) by done.
    assert (cx (st (cursor_position p row col)) +16 1 = N.min col (e_width (st p))) as <-; [|reflexivity].
    cbn. rewrite wadd_small by (unfold U16; lia). lia.
Qed.
End Cursor.

(** Origin mode, region rows 2 and 3, an address beyond the region. *)
Definition region_screen : Performer :=
  default (screen (new_terminal 4 4))
    (perform_all (H := sample_unicode) (screen (new_terminal 4 4)) [ACsi [[2]; [3]] [] 114; ACsi [[6]] [63] 104]).

Lemma report_answers_address_witness :
  ok 20000 region_screen /\ scroll_top (st region_screen) = 1
  /\ exists q, perform_all (H := sample_unicode) region_screen [ACsi [[9]; [3]] [] 72; ACsi [[6]] [] 110] = Some q
       /\ responses (st q) = ESC ++ lit "[2;3R".
Proof.
  assert (ok 20000 region_screen) as H1.
  { destruct (new_terminal_ok 20000 4 4) as [Hn _]; [done|split; vm_compute; done|].
    destruct (fine_perform_all (H := sample_unicode) 20000 _ [ACsi [[2]; [3]] [] 114; ACsi [[6]] [63] 104] Hn) as (q & E & Hq).
    unfold region_screen. by rewrite E. }
  split; [done|]. split; [reflexivity|].
  exact (report_answers_address (H := sample_unicode) 20000 region_screen 9 3 H1 ltac:(done) ltac:(done) ltac:(done)).
Defined.

(** Beyond sixteen bits the address wraps: with a region from row 3 on, the last
    row there is puts the cursor above the region. *)
Example address_wraps :
  let p := default (screen (new_terminal 4 6)) (perform_all (H := sample_unicode) (screen (new_terminal 4 6))
    [ACsi [[3]; [5]] [] 114; ACsi [[6]] [63] 104; ACsi [[65535]; [1]] [] 72]) in
  scroll_top (st p) = 2 /\ cy (st p) = 0.
Proof. vm_compute. done. Qed.
