(* ===== verification/Pen.v ===== *)
(** * The renderer and the emulator agree on pens

    A program inside Uniterm sets a pen, Renderer.v writes it for the host, and
    the host may be another Uniterm: the emulator of Terminal.v reads exactly
    the pen that was written. *)

From S2P Require Import Prelude Cell Grid GridInv GridRoom Renderer Emu Terminal TermSpec.
#[local] Open Scope u_scope.

(** ** Attributes *)

(** Attributes that the emulator can hold: no bits but the ten, and one of the
    six underline styles. *)
Definition attrs_ok (a : N) : bool :=
  (a <? 1024) && (set_underline_style (N.land a (not16 UNDERLINE_STYLE_MASK)) (Cell.underline_style a) =? a).

(** The attributes after the codes that [sgr_params] writes for [a]. *)
Definition rebuilt (a : N) : N :=
  let flag (x bit : N) : N := if has a bit then N.lor x bit else x in
  let x := flag (flag (flag NONE BOLD) DIM) ITALIC in
  let x := match Cell.underline_style a with UNone => x | s => set_underline_style x s end in
  flag (flag (flag (flag x BLINK) REVERSE) INVISIBLE) STRIKE.

(** Faint once more, as for panes that are not focused. *)
Definition rebuilt_dim (a : N) : N :=
  let flag (x bit : N) : N := if has a bit then N.lor x bit else x in
  let x := flag (flag (flag (N.lor NONE DIM) BOLD) DIM) ITALIC in
  let x := match Cell.underline_style a with UNone => x | s => set_underline_style x s end in
  flag (flag (flag (flag x BLINK) REVERSE) INVISIBLE) STRIKE.

(** All 1024 values are checked. *)
Lemma attrs_rebuilt a : attrs_ok a = true -> rebuilt a = a /\ rebuilt_dim a = N.lor a DIM.
Proof.
  assert (Hall : forallb (fun n => let a := N.of_nat n in
    implb (attrs_ok a) ((rebuilt a =? a) && (rebuilt_dim a =? N.lor a DIM))) (List.seq 0 1024) = true) by (by vm_compute).
  intros Ha. rewrite forallb_forall in Hall. pose proof Ha as Hb. apply andb_true_iff in Hb as [Hlt%N.ltb_lt _].
  specialize (Hall (N.to_nat a)). rewrite in_seq in Hall. specialize (Hall ltac:(lia)).
  cbv zeta in Hall. rewrite N2Nat.id, Ha in Hall. simpl in Hall.
  apply andb_true_iff in Hall as [H1%N.eqb_eq H2%N.eqb_eq]. done.
Qed.

Definition color_ok (c : Color) : Prop :=
  match c with Default => True | Idx n => n < 256 | Rgb r g b => r < 256 /\ g < 256 /\ b < 256 end.

(** ** Reading what was written *)

Section Pen.
Context `{Unicode} `{Json}.
Implicit Types p : Performer.

Definition run p (gs : list (list N)) : Performer := sgr_loop (length gs) p gs.

Lemma run_step p (g : list N) gs :
  run p (g :: gs) = let '(q, n) := sgr_group p (g :: gs) g in run q (drop n (g :: gs)).
Proof. exact (apply_sgr_step p g gs). Qed.

(** The state of the pen. *)
Definition pen_at p : Color * Color * N * Color :=
  (e_fg (st p), e_bg (st p), e_attrs (st p), Emu.underline_color (st p)).

Definition flag_code (bit : N) : N :=
  if bit =? BOLD then 1 else if bit =? DIM then 2 else if bit =? ITALIC then 3 else if bit =? BLINK then 5
  else if bit =? REVERSE then 7 else if bit =? INVISIBLE then 8 else 9.

Lemma run_flag p (b : bool) bit gs : bit ∈ [BOLD; DIM; ITALIC; BLINK; REVERSE; INVISIBLE; STRIKE] ->
  run p ((if b then [[flag_code bit]] else []) ++ gs) = run (if b then add_attr p bit else p) gs.
Proof. destruct b; [|done]. rewrite !elem_of_cons, elem_of_nil. by intros [->|[->|[->|[->|[->|[->|[->|[]]]]]]]]. Qed.

Lemma run_underline p u gs :
  run p (underline_params u ++ gs) = run (match u with UNone => p | _ => set_style p u end) gs.
Proof. by destruct u. Qed.

Lemma run_color p code c gs : code ∈ [38; 48; 58] -> color_ok c ->
  run p (color_params code c ++ gs) = run (match c with
    | Default => p
    | _ => if code =? 38 then set_fg p c else if code =? 48 then set_bg p c else set_underline p c
    end) gs.
Proof.
  rewrite !elem_of_cons, elem_of_nil. intros Hc Hok. unfold color_params.
  destruct c as [|n|r g b]; [done|..]; cbn [app]; rewrite run_step; unfold u8 in *; simpl in Hok.
  - destruct Hc as [->|[->|[->|[]]]]; cbn; unfold u8; by rewrite N.mod_small.
  - destruct Hok as (Hr&Hg&Hb). destruct Hc as [->|[->|[->|[]]]]; cbn; unfold u8; by rewrite !N.mod_small.
Qed.

(** The pen's parts, one step at a time. *)
Lemma pen_reset p : pen_at (reset_sgr p) = (Default, Default, NONE, Default).
Proof. done. Qed.
Lemma pen_attr p a : pen_at (add_attr p a) = let '(f, b, x, u) := pen_at p in (f, b, N.lor x a, u).
Proof. done. Qed.
Lemma pen_style p s : pen_at (set_style p s) = let '(f, b, x, u) := pen_at p in (f, b, set_underline_style x s, u).
Proof. done. Qed.
Lemma pen_fg p c : pen_at (set_fg p c) = let '(f, b, x, u) := pen_at p in (c, b, x, u).
Proof. done. Qed.
Lemma pen_bg p c : pen_at (set_bg p c) = let '(f, b, x, u) := pen_at p in (f, c, x, u).
Proof. done. Qed.
Lemma pen_underline p c : pen_at (set_underline p c) = let '(f, b, x, u) := pen_at p in (f, b, x, c).
Proof. unfold set_underline. by destruct (intern_underline_color (grid p) c). Qed.

Lemma pen_flag p (b : bool) a :
  pen_at (if b then add_attr p a else p) = let '(f, g, x, u) := pen_at p in (f, g, if b then N.lor x a else x, u).
Proof. by destruct b. Qed.

Lemma pen_under p u :
  pen_at (match u with UNone => p | _ => set_style p u end)
  = let '(f, g, x, c) := pen_at p in (f, g, match u with UNone => x | s => set_underline_style x s end, c).
Proof. by destruct u. Qed.

Lemma pen_colored p code c : code ∈ [38; 48; 58] ->
  pen_at (match c with Default => p | _ => if code =? 38 then set_fg p c else if code =? 48 then set_bg p c else set_underline p c end)
  = let '(f, g, x, u) := pen_at p in
    match c with
    | Default => (f, g, x, u)
    | _ => (if code =? 38 then c else f, if code =? 48 then c else g, x, if code =? 58 then c else u)
    end.
Proof.
  rewrite !elem_of_cons, elem_of_nil.
  destruct c; [done|..]; intros [->|[->|[->|[]]]]; simpl; by rewrite ?pen_underline.
Qed.

(** What a pen with the default underline keeps of the grid. *)
Definition unlined p p' : Prop := grid p' = grid p /\ underline_color_handle (st p') = 0.

Lemma unlined_flag p p' (c : bool) bit : unlined p p' -> unlined p (if c then add_attr p' bit else p').
Proof. by destruct c. Qed.

Lemma unlined_under p p' s : unlined p p' -> unlined p (match s with UNone => p' | _ => set_style p' s end).
Proof. by destruct s. Qed.

Lemma unlined_color p p' code c : code ∈ [38; 48] -> unlined p p' ->
  unlined p (match c with Default => p' | _ => if code =? 38 then set_fg p' c else if code =? 48 then set_bg p' c else set_underline p' c end).
Proof. rewrite !elem_of_cons, elem_of_nil. destruct c; [done|..]; by intros [->|[->|[]]]. Qed.

(** What [sgr_params] sets. *)
Lemma pen_written p (dim : bool) f b a u : color_ok f -> color_ok b -> color_ok u ->
  exists q, unlined p q /\ pen_at q = (f, b, if dim then rebuilt_dim a else rebuilt a, Default)
    /\ apply_sgr p (sgr_params dim (f, b, a, u)) = match u with Default => q | _ => set_underline q u end.
Proof.
  intros Hf Hb Hu. unfold sgr_params. change (apply_sgr p ([[0]] ++ ?gs)) with (run p ([0] :: gs)).
  rewrite run_step. change (sgr_group p ([0] :: ?gs) [0]) with (reset_sgr p, 1%nat). cbv iota beta.
  change (drop 1 ([0] :: ?gs)) with gs.
  assert (Hflag : forall p (c : bool) code bit gs, code = flag_code bit ->
    bit ∈ [BOLD; DIM; ITALIC; BLINK; REVERSE; INVISIBLE; STRIKE] ->
    run p ((if c then [[code]] else []) ++ gs) = run (if c then add_attr p bit else p) gs)
    by (intros; subst; by apply run_flag).
  rewrite (Hflag _ dim 2 DIM), (Hflag _ (has a BOLD) 1 BOLD), (Hflag _ (has a DIM) 2 DIM), (Hflag _ (has a ITALIC) 3 ITALIC),
    run_underline, (Hflag _ (has a BLINK) 5 BLINK), (Hflag _ (has a REVERSE) 7 REVERSE),
    (Hflag _ (has a INVISIBLE) 8 INVISIBLE), (Hflag _ (has a STRIKE) 9 STRIKE) by (done || set_solver).
  rewrite (run_color _ 38), (run_color _ 48) by (done || set_solver).
  rewrite <- (app_nil_r (color_params 58 u)), (run_color _ 58) by (done || set_solver).
  change (run ?q []) with q. eexists. split_and!; [..|reflexivity].
  - apply unlined_color; [set_solver|]. apply unlined_color; [set_solver|].
    repeat (apply unlined_flag || apply unlined_under). by split.
  - rewrite (pen_colored _ 48), (pen_colored _ 38) by set_solver.
    rewrite !pen_flag, pen_under, !pen_flag, pen_reset. cbv iota beta.
    unfold rebuilt, rebuilt_dim. destruct (Cell.underline_style a), dim, f, b; reflexivity.
Qed.

Lemma pen_underlined q u f b a : pen_at q = (f, b, a, Default) ->
  pen_at (match u with Default => q | _ => set_underline q u end) = (f, b, a, u).
Proof. intros E. destruct u; rewrite ?pen_underline, E; done. Qed.

(** The palette of underline colours has room, or would have after compaction. *)
Definition palette_room p : Prop :=
  arena_wf (grid p) /\ length (underline_colors (compact_underline_colors (grid p))) <> 256%nat.

Lemma underline_drawn p q u : palette_room p -> unlined p q ->
  let q' := match u with Default => q | _ => set_underline q u end in
  Grid.underline_color (grid q') (underline_color_handle (st q')) = u.
Proof.
  intros [Ha Hr] [Hg Hh]. assert (Hset : Grid.underline_color (grid (set_underline q u)) (underline_color_handle (st (set_underline q u))) = u).
  { unfold set_underline. pose proof (intern_color_spec (grid q) u ltac:(by rewrite Hg)) as Hs. rewrite Hg in Hs.
    rewrite Hg. destruct (intern_underline_color (grid p) u) as [g h]. destruct Hs as (_&_&_&[Hs|[_ Hs]]); [exact Hs|done]. }
  destruct u; [|done|done]. simpl. rewrite Hg, Hh. pose proof (ar_colors (grid p) Ha) as Hc.
  unfold Grid.underline_color. destruct (underline_colors (grid p)); [done|]. by injection Hc as ->.
Qed.

(** C14: the emulator reads the pen that the renderer writes. Whatever the pen
    was, the rendition the renderer writes for a style of colours in eight bits
    and attributes that the emulator can hold sets exactly this style, and
    faint besides for a dimmed Pane; if the palette of underline colours has
    room, the renderer would write a cell with this pen in the same style. *)
Theorem pen_round_trip p f b a u : color_ok f -> color_ok b -> color_ok u -> attrs_ok a = true ->
  let q := apply_sgr p (sgr_params false (f, b, a, u)) in
  pen_at q = (f, b, a, u)
  /\ pen_at (apply_sgr p (sgr_params true (f, b, a, u))) = (f, b, N.lor a DIM, u)
  /\ (palette_room p -> forall c, (fg c, bg c, attrs c, c_underline c)
         = (e_fg (st q), e_bg (st q), e_attrs (st q), underline_color_handle (st q)) -> style_at (grid q) c = (f, b, a, u)).
Proof.
  intros Hf Hb Hu Ha q. destruct (attrs_rebuilt a Ha) as [Hr Hd].
  destruct (pen_written p false f b a u Hf Hb Hu) as (q1&Hq1&Hp1&E1).
  destruct (pen_written p true f b a u Hf Hb Hu) as (q2&_&Hp2&E2). unfold q. rewrite E1, E2, !(pen_underlined _ u _ _ _ Hp1), (pen_underlined _ u _ _ _ Hp2), Hr, Hd.
  split_and!; [done..|]. intros Hroom c Hc. injection Hc as E3 E4 E5 E6.
  pose proof (underline_drawn p q1 u Hroom Hq1) as Hline. cbv zeta in Hline.
  pose proof (pen_underlined q1 u _ _ _ Hp1) as Hpen. rewrite Hr in Hpen. unfold pen_at in Hpen. injection Hpen as P1 P2 P3 P4.
  unfold style_at. by rewrite E3, E4, E5, E6, P1, P2, P3, Hline.
Qed.
End Pen.

#[local] Existing Instance sample_unicode.
#[local] Instance no_json : Json := fun _ => None.

(** Bold curly text in a palette colour with a red underline. *)
Lemma pen_round_trip_witness :
  let p := screen (new_terminal 2 2) in
  pen_at (apply_sgr p (sgr_params false (Idx 9, Default, 259, Rgb 255 0 0))) = (Idx 9, Default, 259, Rgb 255 0 0).
Proof. intros p. apply pen_round_trip; [done|done|done|by vm_compute]. Defined.
