(* ===== verification/AltScreen.v ===== *)
(** * The alternate screen

    What a program draws on the alternate screen does not reach the primary
    one: leaving it gives the primary grid and its cursor back. *)

From S2P Require Import Prelude Utf8 Agent Cell Grid GridInv GridEdit GridScroll GridRoom.
From S2P Require Import Reflow ReflowInv GridOps Emu Terminal TermInv.
#[local] Open Scope u_scope.

Section AltScreen.
Context `{Unicode} `{Json} (limit : N).
Implicit Types p q : Performer.

(** What is stashed while the alternate screen is shown, and its size. *)
Definition stash s := (alt_backup s, alt_cursor s, e_width s, e_height s).
Definition stash_kept p q : Prop := stash (st q) = stash (st p).

#[local] Instance stash_kept_preorder : PreOrder stash_kept.
Proof. split; [done|]. intros p q r E1 E2. unfold stash_kept in *. congruence. Qed.

(** ** Each operation keeps the stash *)

Lemma stash_st p (f : EmuState -> EmuState) : stash (f (st p)) = stash (st p) -> stash_kept p (on_st p f).
Proof. done. Qed.

Lemma stash_fold {A} (f : Performer -> A -> Performer) p l :
  (forall q a, a ∈ l -> stash_kept q (f q a)) -> stash_kept p (foldl f p l).
Proof.
  revert p. induction l as [|a l IH]; intros p Hf; [done|]. cbn.
  etrans; [apply (Hf p a); set_solver|]. apply IH. intros q b Hb. apply Hf. set_solver.
Qed.

Lemma stash_repeat n (f : Performer -> Performer) p : (forall q, stash_kept q (f q)) -> stash_kept p (repeat_ n f p).
Proof. intros Hf. unfold repeat_. induction (N.to_nat n) as [|k IH]; [done|]. cbn. by etrans. Qed.

Definition kept_by p (r : option Performer) : Prop := forall q, r = Some q -> stash_kept p q.

Lemma kept_some p q : stash_kept p q -> kept_by p (Some q).
Proof. by intros ? ? [= <-]. Qed.

Lemma kept_repeat n f p : (forall q, kept_by q (f q)) -> kept_by p (repeat_opt n f p).
Proof.
  intros Hf. revert p. induction n as [|n IH]; intros p; [by apply kept_some|]. cbn.
  intros q Hq. apply bind_Some in Hq as (r & Hr & Hq). etrans; [by apply Hf|]. by apply (IH r).
Qed.

Lemma stash_linefeed p : stash_kept p (linefeed p).
Proof. unfold linefeed. destruct (_ =? _); [done|]. by destruct (_ <? _). Qed.

Lemma stash_reverse_index p : stash_kept p (reverse_index p).
Proof. unfold reverse_index. destruct (_ =? _); [done|]. by destruct (_ <? _). Qed.

Lemma stash_wrap_row p : stash_kept p (wrap_row p).
Proof. unfold wrap_row. by etrans; [|apply stash_linefeed]. Qed.

Lemma stash_insert_lines p n : stash_kept p (insert_lines p n).
Proof. unfold insert_lines. destruct (outside_region _); [done|]. by etrans; [|apply stash_repeat]. Qed.

Lemma stash_delete_lines p n : stash_kept p (delete_lines p n).
Proof. unfold delete_lines. destruct (outside_region _); [done|]. by etrans; [|apply stash_repeat]. Qed.

Lemma stash_erase_in_line p mode : stash_kept p (erase_in_line p mode).
Proof.
  unfold erase_in_line. destruct (match mode with 0 => _ | _ => _ end) as [[from to]|]; [|done]. by destruct (_ =? 0).
Qed.

Lemma stash_erase_in_display p mode : stash_kept p (erase_in_display p mode).
Proof.
  unfold erase_in_display. by destruct mode as [|[[]|[]|]].
Qed.

Lemma stash_set_underline p c : stash_kept p (set_underline p c).
Proof. unfold set_underline. by destruct (intern_underline_color _ _). Qed.

Lemma stash_sgr_group p groups (g : list N) : stash_kept p (sgr_group p groups g).1.
Proof.
  unfold sgr_group.
  repeat match goal with |- stash_kept p (if ?b then _ else _).1 => destruct b; [try done|] end; [| |done].
  - by destruct (match g !! 1%nat with Some v => underline_style v | None => Some Single end).
  - destruct (parse_extended_color groups) as [[c|] n]; [|done]. cbn [fst].
    destruct (_ =? 38); [done|]. destruct (_ =? 48); [done|]. apply stash_set_underline.
Qed.

Lemma stash_apply_sgr p groups : stash_kept p (apply_sgr p groups).
Proof.
  unfold apply_sgr. destruct groups as [|g0 gs]; [done|]. generalize (g0 :: gs) as l. intros l.
  generalize (length l) as fuel. intros fuel. clear g0 gs. revert p l.
  induction fuel as [|fuel IH]; intros p l; [done|]. destruct l as [|g l]; [done|]. cbn [sgr_loop].
  pose proof (stash_sgr_group p (g :: l) g) as Hg. destruct (sgr_group p (g :: l) g) as [q n]. by etrans.
Qed.

Lemma stash_load_cursor p c : stash_kept p (load_cursor p c).
Proof.
  unfold load_cursor. set (q := on_st p _). pose proof (stash_set_underline q (sc_underline c)) as Hu.
  assert (stash_kept p q) by done. etrans; [done|]. etrans; [exact Hu|done].
Qed.

Lemma stash_restore_cursor p : stash_kept p (restore_cursor p).
Proof. unfold restore_cursor. destruct (saved (st p)); [apply stash_load_cursor|done]. Qed.

Lemma stash_extend_glyph p x y old c : stash_kept p (extend_glyph p x y old c).
Proof.
  unfold extend_glyph. set (text := _ ++ [c]). destruct (_ && _).
  - set (q := on_grid p _). assert (stash_kept p q) by done. clearbody q. etrans; [done|].
    destruct (autowrap (st p)); [|done]. set (r := set_cx (on_grid q _) 0).
    assert (stash_kept q r) by done. clearbody r. etrans; [done|].
    pose proof (stash_linefeed r) as Hl. etrans; [exact Hl|]. generalize (linefeed r) as l. intros l.
    by destruct (_ =? 2).
  - destruct (append_to_grapheme (grid p) x y c) as [g b]. destruct b; [|done].
    destruct (_ <=? _); [done|]. by destruct (negb _).
Qed.

Lemma stash_print_glyph p c : stash_kept p (print_glyph p c).
Proof.
  unfold print_glyph. destruct (if nclamp _ 0 2 =? 0 then _ else _) as [t0 w0].
  destruct (if (w0 =? 2) && _ then _ else _) as [t1 w1].
  set (q := if wrap_pending (st p) then _ else _).
  assert (stash_kept p q) as Hq.
  { subst q. destruct (wrap_pending _); [|done]. destruct (autowrap _); [|done]. apply (stash_wrap_row p). }
  clearbody q. etrans; [exact Hq|]. set (r := if (w1 =? 2) && _ then _ else _).
  assert (stash_kept q r.1.1) as Hr.
  { subst r. destruct (_ && _); [|done]. destruct (autowrap _); [|done]. apply stash_wrap_row. }
  clearbody r. destruct r as [[r text] w]. etrans; [exact Hr|]. cbn [fst].
  set (m := if insert_mode (st r) then _ else _). assert (stash_kept r m) as Hm by (subst m; by destruct (insert_mode _)).
  clearbody m. etrans; [exact Hm|]. by destruct (_ <=? _).
Qed.

Lemma kept_print p c : kept_by p (print p c).
Proof.
  unfold print. set (c1 := if dec_line_drawing (st p) then _ else c).
  assert (stash_kept p (on_st (print_glyph p c1) (fun s => s <| last_char := Some c |>))) as Hf
    by (etrans; [apply (stash_print_glyph p c1)|done]).
  destruct (previous (st p)) as [[x y]|]; [|by apply kept_some]. intros q Hq.
  apply bind_Some in Hq as ([x1 old] & _ & [= <-]). destruct (grapheme_extends _ _ _); [|done].
  apply stash_extend_glyph.
Qed.

(** ** Control sequences *)

Lemma kept_tab_forward p : kept_by p (tab_forward p).
Proof. intros q Hq. apply bind_Some in Hq as (x & _ & [= <-]). done. Qed.

Lemma kept_tab_back p : kept_by p (tab_back p).
Proof. intros q Hq. apply bind_Some in Hq as (x & _ & [= <-]). done. Qed.

Lemma kept_set_tab p b : kept_by p (set_tab p b).
Proof. unfold set_tab. destruct (_ <? _)%nat; [by apply kept_some|done]. Qed.

Lemma stash_hard_linefeed p : stash_kept p (hard_linefeed p).
Proof. unfold hard_linefeed. set (q := on_grid p _). etrans; [|apply (stash_linefeed q)]. done. Qed.

Lemma kept_execute p b : kept_by p (execute p b).
Proof.
  unfold execute. destruct (_ && _); [apply kept_some, stash_hard_linefeed|].
  destruct (_ =? 13); [by apply kept_some|]. destruct (_ =? 8); [by apply kept_some|].
  destruct (_ =? 9); [apply kept_tab_forward|by apply kept_some].
Qed.

Lemma kept_csi_move p params a r : csi_move p params a = Some r -> kept_by p r.
Proof.
  unfold csi_move.
  repeat match goal with
  | |- (if ?b then _ else _) = _ -> _ => destruct b; [intros [= <-]; apply kept_some; try done|]
  end; [..|done].
  - apply stash_erase_in_display.
  - apply stash_erase_in_line.
Qed.

Lemma kept_csi_edit p params a r : csi_edit p params a = Some r -> kept_by p r.
Proof.
  unfold csi_edit.
  repeat match goal with
  | |- (if ?b then _ else _) = _ -> _ => destruct b; [intros [= <-]; try by apply kept_some|]
  end; [..|done].
  - apply kept_some, stash_insert_lines.
  - apply kept_some, stash_delete_lines.
  - destruct (last_char (st p)); [|by apply kept_some]. apply kept_repeat. intros q. apply kept_print.
  - intros q Hq. apply fmap_Some in Hq as (r1 & Hr & ->).
    apply (kept_repeat _ _ p (fun q => kept_tab_back q)) in Hr. exact Hr.
  - repeat case_match; try by apply kept_some. apply kept_set_tab.
  - apply kept_some. by apply stash_repeat.
  - apply kept_some. by apply stash_repeat.
Qed.

(** ** Actions that switch no screen *)

Definition switches (mode : N) : bool := (mode =? 47) || (mode =? 1047) || (mode =? 1049).

(** Neither a screen switch, a reset, nor a report of a shell or an agent: the
    prompt marks and the agent's exit recover the shell's screen. *)
Definition neutral (a : action) : bool :=
  match a with
  | ACsi params inter final =>
      negb (one_of final "hl" && contains inter "?") || forallb (fun m => negb (switches m)) (params_flat params)
  | AOsc params => let code := default [] (head params) in negb (is_bytes code "777" || is_bytes code "133")
  | AEsc inter b => negb (one_of b "c") || is_bytes inter "("
  | APrint _ | AExecute _ => true
  end.

Lemma stash_private_mode b p mode : switches mode = false -> stash_kept p (private_mode b p mode).
Proof.
  intros Hm. unfold private_mode. destruct (_ =? 2031); [by destruct b|]. unfold set_private_mode.
  unfold switches in Hm.
  repeat match goal with |- stash_kept p (if ?b then _ else _) => destruct b eqn:?; try done end.
  destruct b; [done|]. apply stash_restore_cursor.
Qed.

Lemma stash_modes b p params : forallb (fun m => negb (switches m)) (params_flat params) = true ->
  stash_kept p (foldl (private_mode b) p (params_flat params)).
Proof.
  intros Hf. apply stash_fold. intros q m Hm. apply stash_private_mode.
  apply forallb_forall with (x := m) in Hf; [by apply negb_true_iff|by apply list_elem_of_In].
Qed.

Lemma neutral_modes params inter a s :
  neutral (ACsi params inter a) = true -> s = "h"%string \/ s = "l"%string ->
  one_of a s && contains inter "?" = true ->
  forallb (fun m => negb (switches m)) (params_flat params) = true.
Proof.
  cbn [neutral]. intros Hn Hs Ha. apply andb_true_iff in Ha as [Ha Hi]. rewrite Hi, andb_true_r in Hn.
  assert (one_of a "hl" = true) as E; [|by rewrite E in Hn].
  unfold one_of in *. change (lit "hl") with [104; 108]. clear Hn.
  destruct Hs as [-> | ->]; [change (lit "h") with [104] in Ha|change (lit "l") with [108] in Ha];
    cbn [existsb] in *; by destruct (a =? 104), (a =? 108).
Qed.

Lemma stash_csi_mode p params inter a :
  neutral (ACsi params inter a) = true -> stash_kept p (csi_mode p params inter a).
Proof.
  intros Hn. unfold csi_mode.
  repeat match goal with
  | |- stash_kept p (if ?b then _ else _) => destruct b eqn:?; try done
  end.
  - unfold set_margins. by case_match.
  - apply stash_restore_cursor.
  - unfold stash_kept, device_status. cbn. by repeat case_match.
  - unfold stash_kept, window_report. cbn. by repeat case_match.
  - apply stash_modes. by apply (neutral_modes params inter a "h"); [|left|].
  - apply stash_modes. by apply (neutral_modes params inter a "l"); [|right|].
  - apply stash_fold. intros q m _. unfold ansi_mode. by case_match.
  - apply stash_fold. intros q m _. unfold ansi_mode. by case_match.
Qed.

Lemma kept_csi p params inter a :
  neutral (ACsi params inter a) = true -> kept_by p (csi_dispatch p params inter a).
Proof.
  intros Hn. unfold csi_dispatch. destruct (csi_move p params a) as [r|] eqn:E; [by eapply kept_csi_move|].
  destruct (one_of a "m" && _); [apply kept_some, stash_apply_sgr|].
  destruct (one_of a "m" && _); [by apply kept_some|]. destruct (one_of a "n" && _); [by apply kept_some|].
  destruct (csi_edit p params a) as [r|] eqn:E2; [by eapply kept_csi_edit|].
  by apply kept_some, stash_csi_mode.
Qed.

Lemma stash_osc p params : neutral (AOsc params) = true -> stash_kept p (osc_dispatch p params).
Proof.
  cbn [neutral]. intros Hn. apply negb_true_iff, orb_false_iff in Hn as [E1 E2]. unfold osc_dispatch.
  rewrite E1, E2. cbn [andb].
  destruct (is_bytes _ "0" || _); [done|]. destruct (is_bytes _ "8" && _).
  { unfold set_link. destruct (from_utf8 _); [|done]. by destruct (intern_hyperlink _ _). }
  destruct (is_bytes _ "7"). { destruct (head _ ≫= from_utf8); [|done]. by case_match. }
  destruct (is_bytes _ "52"). { unfold clipboard. by case_match. }
  destruct (palette_query p params) as [q|] eqn:Eq.
  - unfold palette_query in Eq. destruct params as [|? [|? [|? ?]]]; try done.
    destruct (is_bytes l "4" && _); [|done]. by apply bind_Some in Eq as (i & _ & [= <-]).
  - unfold color_query. destruct params as [|? [|? ?]]; try done.
    destruct (is_bytes _ "?"); [|done]. destruct (is_bytes _ "10"); [done|]. by destruct (is_bytes _ "11").
Qed.

Lemma kept_esc p inter b : neutral (AEsc inter b) = true -> kept_by p (esc_dispatch p inter b).
Proof.
  cbn [neutral]. intros Hn. unfold esc_dispatch. destruct (is_bytes inter "(").
  { apply kept_some. destruct (one_of b "0"); [done|]. by destruct (one_of b "B"). }
  rewrite orb_false_r in Hn. apply negb_true_iff in Hn. rewrite Hn.
  destruct (one_of b "M"); [apply kept_some, stash_reverse_index|].
  destruct (one_of b "D"); [apply kept_some, stash_hard_linefeed|].
  destruct (one_of b "E").
  { apply kept_some. set (q := set_cx _ 0). assert (stash_kept p q) as Hq by done. clearbody q.
    etrans; [exact Hq|]. etrans; [apply stash_linefeed|done]. }
  destruct (one_of b "H"); [apply kept_set_tab|]. destruct (one_of b "7"); [by apply kept_some|].
  destruct (one_of b "8"); [apply kept_some, stash_restore_cursor|by apply kept_some].
Qed.

Lemma kept_perform p a : neutral a = true -> kept_by p (perform p a).
Proof.
  intros Hn. destruct a; cbn [perform].
  - apply kept_print.
  - apply kept_execute.
  - by apply kept_csi.
  - by apply kept_some, stash_osc.
  - by apply kept_esc.
Qed.

Lemma kept_perform_all p l q :
  ok limit p -> Forall (fun a => neutral a = true) l -> perform_all p l = Some q -> stash_kept p q /\ ok limit q.
Proof.
  intros Hp Hl. revert p Hp. induction Hl as [|a l Ha _ IH]; intros p Hp; [by intros [= <-]|].
  unfold perform_all in *. cbn [foldl mbind option_bind].
  destruct (fine_perform limit p a Hp) as (r & E & Hr). rewrite E. intros Hq.
  destruct (IH r Hr Hq) as [Hs Hok]. split; [|done]. etrans; [by eapply kept_perform|done].
Qed.

(** ** There and back *)

Definition enter_action : action := ACsi [[1049]] [63] 104.
Definition leave_action : action := ACsi [[1049]] [63] 108.

(** The pen and the cursor. *)
Definition cursor_of s :=
  (cx s, cy s, e_fg s, e_bg s, e_attrs s, Emu.underline_color s, wrap_pending s).

Lemma load_cursor_spec p c : ok limit p ->
  cursor_of (st (load_cursor p c)) = (N.min (sc_x c) (e_width (st p) - 1), N.min (sc_y c) (e_height (st p) - 1),
    sc_fg c, sc_bg c, sc_attrs c, sc_underline c, sc_pending c)
  /\ relooks (grid p) (grid (load_cursor p c)).
Proof.
  intros Hp. pose proof (ok_sound limit p Hp) as Hg. unfold load_cursor, set_underline. cbn.
  pose proof (intern_color_spec (grid p) (sc_underline c) (wf_arena _ (so_wf _ Hg))) as Hi.
  destruct (intern_underline_color (grid p) (sc_underline c)) as [g h]. split; [done|apply Hi].
Qed.

(** C17: the alternate screen gives the primary one back. Whatever a program
    prints, moves, erases, scrolls and sets between entering and leaving, short
    of switching screens itself, resetting, or reporting that it ended, the
    primary grid comes back with the same lines, line identities and history,
    every cell looking the same, everything damaged, and the cursor, pen and
    pending wrap are those of before. *)
Theorem alt_screen_round_trip p acts :
  ok limit p -> alt_backup (st p) = None -> Forall (fun a => neutral a = true) acts ->
  exists q, perform_all p (enter_action :: acts ++ [leave_action]) = Some q
    /\ relooks (mark_all_damaged (grid p)) (grid q) /\ cursor_of (st q) = cursor_of (st p)
    /\ alt_backup (st q) = None.
Proof.
  intros Hp Hnone Hacts. pose proof (ok_enter_alt limit p Hp) as He.
  assert (perform p enter_action = Some (enter_alt p)) as E1 by reflexivity.
  assert (stash (st (enter_alt p)) = (Some (grid p), Some (pen_saved (st p)), e_width (st p), e_height (st p))) as Es.
  { unfold enter_alt. rewrite Hnone. by destruct (intern_underline_color _ _). }
  destruct (fine_perform_all limit (enter_alt p) acts He) as (r & Er & Hr).
  destruct (kept_perform_all _ acts r He Hacts Er) as [Hk _]. unfold stash_kept in Hk. rewrite Es in Hk.
  injection Hk as Hb Hc Hw Hh.
  exists (exit_alt r). split.
  { unfold perform_all in *. cbn [foldl mbind option_bind]. rewrite E1, foldl_app, Er. reflexivity. }
  rewrite (exit_alt_steps r (grid p) (pen_saved (st p)) Hb Hc).
  pose proof (ok_leave_alt limit r (grid p) Hb Hr) as Hl.
  destruct (load_cursor_spec (leave_alt r (grid p)) (pen_saved (st p)) Hl) as [Hcur Hrl].
  pose proof (stash_load_cursor (leave_alt r (grid p)) (pen_saved (st p))) as Hst.
  revert Hcur Hrl Hst. generalize (load_cursor (leave_alt r (grid p)) (pen_saved (st p))) as q. intros q Hcur Hrl Hst.
  split; [exact Hrl|]. split; [|by injection Hst].
  etrans; [exact Hcur|]. change (e_width (st (leave_alt r (grid p)))) with (e_width (st r)).
  change (e_height (st (leave_alt r (grid p)))) with (e_height (st r)).
  destruct (ok_cursor limit p Hp). rewrite Hw, Hh. unfold pen_saved, cursor_of. cbn.
  by rewrite !N.min_l by lia.
Qed.
End AltScreen.

#[local] Instance no_json : Json := fun _ => None.

(** Two glyphs, then a program that paints over the alternate screen. *)
Definition shell_screen : Performer :=
  default (screen (new_terminal 3 2))
    (perform_all (H := sample_unicode) (screen (new_terminal 3 2)) [APrint 97; ACsi [[31]] [] 109; APrint 98]).

Definition program : list action :=
  [ACsi [[2]] [] 74; APrint 0x4e00; ACsi [[2]; [2]] [] 72; APrint 99; AExecute 10; AExecute 10;
   ACsi [[58; 5; 3]] [] 109; AOsc [lit "0"; lit "title"]].

Lemma alt_screen_round_trip_witness :
  ok 20000 shell_screen
  /\ exists q, perform_all (H := sample_unicode) shell_screen (enter_action :: program ++ [leave_action]) = Some q
       /\ relooks (mark_all_damaged (grid shell_screen)) (grid q)
       /\ cursor_of (st q) = cursor_of (st shell_screen) /\ alt_backup (st q) = None.
Proof.
  assert (ok 20000 shell_screen) as H1.
  { destruct (new_terminal_ok 20000 3 2) as [Hn _]; [done|split; vm_compute; done|].
    destruct (fine_perform_all (H := sample_unicode) 20000 _ [APrint 97; ACsi [[31]] [] 109; APrint 98] Hn)
      as (q & E & Hq). unfold shell_screen. by rewrite E. }
  assert (Forall (fun a => neutral a = true) program) as H2 by (repeat constructor; vm_compute; done).
  split; [done|].
  exact (alt_screen_round_trip (H := sample_unicode) 20000 shell_screen program H1 ltac:(vm_compute; done) H2).
Defined.
