(* ===== verification/Text.v ===== *)
(** * Strings

    Operations of Rust's [str] that several components use: prefixes and
    suffixes, search, [split], [split_once] and the order of strings, with their
    laws. *)

From S2P Require Import Prelude Utf8 Agent.

(** [str::starts_with], [ends_with] and [contains] *)
Definition starts_with (p s : str) : bool := bool_decide (is_Some (strip_prefix p s)).
Definition ends_with (p s : str) : bool := starts_with (rev p) (rev s).

Fixpoint contains (p s : str) : bool :=
  starts_with p s || match s with [] => false | _ :: s' => contains p s' end.

Definition to_ascii_lowercase (s : str) : str := map ascii_lower s.

(** [str::split] on the characters [f] accepts. *)
Fixpoint split_on (f : char -> bool) (s : str) : list str :=
  match s with
  | [] => [[]]
  | c :: s' =>
      if f c then [] :: split_on f s'
      else match split_on f s' with [] => [[c]] | w :: ws => (c :: w) :: ws end
  end.

(** [str::split_once] *)
Fixpoint split_once (p s : str) : option (str * str) :=
  match strip_prefix p s with
  | Some rest => Some ([], rest)
  | None => match s with
      | [] => None
      | c :: s' => '(a, b) ← split_once p s'; Some (c :: a, b)
      end
  end.

Definition mem (s : str) (l : list str) : bool := existsb (str_eqb s) l.

Definition is_empty (s : str) : bool := match s with [] => true | _ => false end.

(** [Ord for str]: the bytes in lexicographic order. *)
Fixpoint bytes_leb (a b : list N) : bool :=
  match a, b with
  | [], _ => true
  | _ :: _, [] => false
  | x :: a, y :: b => (x <? y) || ((x =? y) && bytes_leb a b)
  end.

Definition str_leb (a b : str) : bool := bytes_leb (utf8 a) (utf8 b).

(** [join(" ")] *)
Fixpoint spaced (l : list str) : str :=
  match l with
  | [] => []
  | [x] => x
  | x :: l => x ++ 32 :: spaced l
  end.

(** ** Facts *)

Lemma strip_prefix_app p s : strip_prefix p (p ++ s) = Some s.
Proof. induction p as [|a p IH]; simpl; [done|]. by rewrite N.eqb_refl. Qed.

Lemma strip_prefix_some p s r : strip_prefix p s = Some r -> s = p ++ r.
Proof.
  revert s. induction p as [|a p IH]; intros s; simpl; [by intros [= ->]|].
  destruct s as [|b s]; [done|]. case (N.eqb_spec a b) as [->|]; [|done]. by intros ->%IH.
Qed.

Lemma starts_with_spec p s : starts_with p s = true <-> exists r, s = p ++ r.
Proof.
  unfold starts_with. rewrite bool_decide_eq_true. split.
  - intros [r H]. exists r. by apply strip_prefix_some.
  - intros [r ->]. rewrite strip_prefix_app. by eexists.
Qed.

Lemma contains_spec p s : contains p s = true <-> exists a b, s = a ++ p ++ b.
Proof.
  induction s as [|c s IH]; cbn [contains]; rewrite orb_true_iff, starts_with_spec.
  - split; [intros [[r E]|]; [by exists [], r|done]|]. intros (a & b & E). left.
    destruct a; [|done]. by exists b.
  - rewrite IH. split.
    + intros [[r E]|(a & b & ->)]; [by exists [], r|by exists (c :: a), b].
    + intros ([|x a] & b & E); [left; by exists b|right]. injection E as -> ->. by exists a, b.
Qed.

Lemma mem_spec s l : mem s l = true <-> s ∈ l.
Proof.
  unfold mem. rewrite existsb_exists. unfold str_eqb. split.
  - intros (x & Hx & ->%bool_decide_eq_true). by apply list_elem_of_In.
  - intros H. exists s. split; [by apply list_elem_of_In|by apply bool_decide_eq_true].
Qed.

Lemma bytes_leb_total a b : bytes_leb a b = false -> bytes_leb b a = true.
Proof.
  revert b. induction a as [|x a IH]; intros [|y b]; simpl; try done.
  rewrite orb_false_iff, andb_false_iff, N.ltb_ge, N.eqb_neq, orb_true_iff, andb_true_iff, N.ltb_lt, N.eqb_eq.
  intros [Hle [Hne|Hb]]; [left; lia|]. destruct (N.eq_dec x y) as [->|]; [right; auto|left; lia].
Qed.

Lemma bytes_leb_trans a b c : bytes_leb a b = true -> bytes_leb b c = true -> bytes_leb a c = true.
Proof.
  revert b c. induction a as [|x a IH]; intros [|y b] [|z c]; simpl; try done.
  rewrite !orb_true_iff, !andb_true_iff, !N.ltb_lt, !N.eqb_eq.
  intros [H1|[-> H1]] [H2|[-> H2]]; [left; lia..|]. right. eauto.
Qed.

Lemma bytes_leb_antisym a b : bytes_leb a b = true -> bytes_leb b a = true -> a = b.
Proof.
  revert b. induction a as [|x a IH]; intros [|y b]; simpl; try done.
  rewrite !orb_true_iff, !andb_true_iff, !N.ltb_lt, !N.eqb_eq.
  intros [H1|[-> H1]] [H2|[E H2]]; [lia..|]. f_equal. by apply IH.
Qed.

Lemma bytes_leb_refl a : bytes_leb a a = true.
Proof. induction a as [|x a IH]; simpl; [done|]. by rewrite N.eqb_refl, IH, orb_true_r. Qed.

Lemma spaced_cons x l : l <> [] -> spaced (x :: l) = x ++ 32 :: spaced l.
Proof. by destruct l. Qed.
