(* ===== verification/Detect.v ===== *)
(** * Provider evidence

    [uniterm-server/src/providers/mod.rs]: the manifests that say how an agent is
    recognised, the catalog layered from the bundled ones, a cached document and
    a local one, and the evidence read from it: a foreground command, the screen
    and the title of a Pane, a session log. JSON, SHA-256, the clock and Rust's
    [{:?}] are parameters. Errors are values; their messages are left out. *)

From S2P Require Import Prelude Lines Cell Agent Text.

(** ** Manifests *)

Inductive RuleRegion : Set := Bottom | Title.
Inductive RuleAnchor : Set :=
| Anywhere | LineStart | SpinnerLine | AnimatedTitle | SpinnerActivity | SpinnerSuffix.

#[global] Instance RuleRegion_eq_dec : EqDecision RuleRegion.
Proof. solve_decision. Defined.
#[global] Instance RuleAnchor_eq_dec : EqDecision RuleAnchor.
Proof. solve_decision. Defined.

Record Rule : Set := {
  rule_status : AgentStatus; patterns : list str; rule_anchor : RuleAnchor;
  rule_region : RuleRegion; rule_priority : N }.

Record Manifest : Set := { m_id : str; m_executables : list str; m_rules : list Rule }.

Definition SCHEMA_VERSION : N := 1.
Definition MAX_MANIFEST_BYTES : N := 1048576.
Definition MAX_LAST_GOOD_BYTES : N := MAX_MANIFEST_BYTES * 2 + 4096.
Definition MAX_PROVIDERS : N := 128.
Definition MAX_RULES : N := 512.
Definition MAX_ALIASES : N := 64.
Definition MAX_PATTERN_BYTES : N := 512.
Definition BUNDLED_PRECEDENCE : N := 10.
Definition LAST_GOOD_PRECEDENCE : N := 20.
Definition CACHE_PRECEDENCE : N := 30.
Definition LOCAL_PRECEDENCE : N := 40.

Inductive DetectionCapability : Set := CProcess | CScreen | CLog | CConnector.
Inductive DetectionSource : Set := Bundled | LastKnownGood | VerifiedCache | LocalOverride.
Inductive ManifestEvidence : Set := Screen | Log.

#[global] Instance DetectionCapability_eq_dec : EqDecision DetectionCapability.
Proof. solve_decision. Defined.
#[global] Instance DetectionSource_eq_dec : EqDecision DetectionSource.
Proof. solve_decision. Defined.
#[global] Instance ManifestEvidence_eq_dec : EqDecision ManifestEvidence.
Proof. solve_decision. Defined.

(** [ManifestRule] of a document; its status is one of [ManifestStatus], all of
    [AgentStatus] but [Unknown], and [From<ManifestStatus>] is the inclusion. *)
Record ManifestRule : Set := {
  mr_id : str; mr_evidence : ManifestEvidence; mr_status : AgentStatus; mr_pattern : str;
  mr_confidence : N; mr_dwell_ms : option N; mr_anchor : RuleAnchor; mr_region : RuleRegion;
  mr_priority : N }.

Record ProviderDefinition : Set := {
  pd_id : str; executable_aliases : list str; pd_capabilities : list DetectionCapability;
  pd_log_path : option str; pd_rules : list ManifestRule }.

Record ManifestDocument : Set := {
  schema_version : N; manifest_version : str; providers : list ProviderDefinition }.

Record CompiledRule : Set := {
  r_id : str; evidence : ManifestEvidence; status : AgentStatus; pattern : str;
  lower_pattern : str; confidence : N; dwell_ms : option N; anchor : RuleAnchor;
  region : RuleRegion; priority : N }.

Record CompiledManifest : Set := {
  c_id : str; executables : list str; log_path : option str; rules : list CompiledRule;
  capabilities : list DetectionCapability; source : DetectionSource; version : str;
  precedence : N }.

Record DetectionProvenance : Set := {
  p_source : DetectionSource; p_version : option str; matched_rule : option str;
  p_confidence : option N; p_dwell_ms : option N; p_precedence : N;
  p_capabilities : list DetectionCapability; evidence_timestamp_ms : N;
  invocation_pid : option Z }.

Record Match : Set := {
  agent : option str; m_status : option AgentStatus; m_evidence : str;
  provenance_of : DetectionProvenance }.

Definition with_invocation (m : Match) (pid : option Z) : Match :=
  let p := provenance_of m in
  {| agent := agent m; m_status := m_status m; m_evidence := m_evidence m;
     provenance_of := {| p_source := p_source p; p_version := p_version p;
       matched_rule := matched_rule p; p_confidence := p_confidence p;
       p_dwell_ms := p_dwell_ms p; p_precedence := p_precedence p;
       p_capabilities := p_capabilities p;
       evidence_timestamp_ms := evidence_timestamp_ms p; invocation_pid := pid |} |}.

Definition IDLE_DWELL_MS : N := 600.

Definition default_dwell_ms (s : AgentStatus) : N :=
  match s with
  | Permission | Question => 5000
  | Idle => IDLE_DWELL_MS
  | Error | Exited => 2000
  | Unknown | Starting | Working | Tool => 0
  end.

(** [connectors::supports] *)
Definition supports (id : str) : bool :=
  mem id [lit "claude"; lit "codex"; lit "cursor"; lit "gemini"; lit "grok"; lit "kiro"; lit "opencode"; lit "pi"].

(** ** Matching *)

Definition is_spinner_glyph (c : char) : bool :=
  ((10240 <=? c) && (c <=? 10495)) || ((9680 <=? c) && (c <=? 9683))
  || ((9692 <=? c) && (c <=? 9695)) || ((9716 <=? c) && (c <=? 9719))
  || (c =? 11041) || (c =? 11042) || (c =? 10018) || (c =? 10035) || (c =? 10038)
  || (c =? 10043) || (c =? 10045) || (c =? 10022) || (c =? 10023).

(** The glyphs of [AnimatedTitle] and [SpinnerSuffix]. *)
Definition animated_glyph (c : char) : bool :=
  ((10240 <=? c) && (c <=? 10495)) || ((9680 <=? c) && (c <=? 9683)).

(** [glyph.is_some_and(..)] and the rest of the line, by anchor. *)
Definition spinner_of (a : RuleAnchor) (glyph : char) (rest : str) : bool :=
  match a with
  | AnimatedTitle | SpinnerSuffix => animated_glyph glyph
  | SpinnerActivity =>
      (is_spinner_glyph glyph || (glyph =? 42) || (glyph =? 183))
      && (contains [8230] rest || contains (lit "...") rest)
  | _ => is_spinner_glyph glyph
  end.

Definition starts_with_whitespace (s : str) : bool :=
  match s with c :: _ => is_whitespace c | [] => false end.

(** One line under a spinner anchor. *)
Definition spinner_line (a : RuleAnchor) (lower_pattern line : str) : bool :=
  match trim_start line with
  | [] => false
  | glyph :: rest =>
      spinner_of a glyph rest && starts_with_whitespace rest
      && if bool_decide (a = SpinnerSuffix) then ends_with lower_pattern (trim_end rest)
         else starts_with lower_pattern (trim_start rest)
  end.

Definition rule_matches (r : CompiledRule) (lower : str) : bool :=
  match anchor r with
  | Anywhere => negb (is_empty (lower_pattern r)) && contains (lower_pattern r) lower
  | LineStart =>
      negb (is_empty (lower_pattern r))
      && existsb (fun line => starts_with (lower_pattern r) (trim_start line)) (lines lower)
  | a => existsb (spinner_line a (lower_pattern r)) (lines lower)
  end.

(** [command_contains_executable] *)
Definition names (executable name : str) : bool :=
  str_eqb name executable || starts_with (executable ++ [45]) name.

Definition word_end (c : char) : bool := is_whitespace c || (c =? 0).
Definition slash (c : char) : bool := c =? 47.

(** [rsplit('/').next().unwrap_or(s)] *)
Definition basename (s : str) : str := List.last (split_on slash s) s.

Definition dashed (s : str) : bool := match s with c :: _ => c =? 45 | [] => false end.

Definition SHELLS : list str := [lit "sh"; lit "bash"; lit "dash"; lit "zsh"; lit "fish"].
Definition INTERPRETERS : list str :=
  [lit "node"; lit "nodejs"; lit "bun"; lit "deno"; lit "python"; lit "python3"].

Definition command_contains_executable (command executable : str) : bool :=
  match split_on word_end command with
  | [] => false
  | program :: words =>
      let base := basename program in
      if names executable base then true
      else if mem base SHELLS then
        match words with
        | script :: _ => negb (dashed script) && names executable (basename script)
        | [] => false
        end
      else if mem base INTERPRETERS then
        match words with
        | script :: _ => negb (dashed script) && existsb (names executable) (split_on slash script)
        | [] => false
        end
      else false
  end.

(** [safe_evidence] *)
Fixpoint safe_from (len limit : N) (value : str) : str :=
  match value with
  | [] => []
  | c :: value =>
      let c := if is_control c then 32 else c in
      let n := N.of_nat (length (utf8_char c)) in
      if limit <? sadd u64_max len n then [] else c :: safe_from (len + n) limit value
  end.

Definition safe_evidence (value : str) (limit : N) : str := safe_from 0 limit value.
