(* ===== verification/BuiltIns.v ===== *)
(** * The bundled manifests

    [uniterm-server/src/providers/*.rs]: the constant [MANIFEST] of every
    provider, and [BUILT_INS]. *)

From S2P Require Import Prelude Cell Agent Text Detect.

Definition claude_MANIFEST : Manifest := {|
  m_id := lit "claude"; m_executables := [lit "claude"];
  m_rules := [
    {| rule_status := Working; rule_anchor := AnimatedTitle; rule_region := Title; rule_priority := 110;
       patterns := [[]] |};
    {| rule_status := Permission; rule_anchor := Anywhere; rule_region := Bottom; rule_priority := 120;
       patterns := [lit "do you want to proceed?"; lit "would you like to proceed?";
         lit "do you want to make this edit to "; lit "do you want to create ";
         lit "do you want to overwrite ";
         lit "do you want to allow claude to fetch this content?"; lit "allow this tool";
         lit "do you want to allow this connection?"; lit "waiting for permission";
         lit "ctrl+e to explain"; lit "yes, and don't ask again";
         ulit "esc to cancel · tab to amend"] |};
    {| rule_status := Question; rule_anchor := Anywhere; rule_region := Bottom; rule_priority := 115;
       patterns := [lit "enter to select"; lit "type your answer"] |};
    {| rule_status := Error; rule_anchor := Anywhere; rule_region := Bottom; rule_priority := 80;
       patterns := [lit "api error"; lit "authentication failed"; lit "rate limit reached"] |};
    {| rule_status := Working; rule_anchor := SpinnerActivity; rule_region := Bottom; rule_priority := 75;
       patterns := [[]] |};
    {| rule_status := Tool; rule_anchor := LineStart; rule_region := Bottom; rule_priority := 70;
       patterns := [ulit "running…"] |};
    {| rule_status := Tool; rule_anchor := LineStart; rule_region := Bottom; rule_priority := 70;
       patterns := [lit "running..."] |};
    {| rule_status := Idle; rule_anchor := Anywhere; rule_region := Bottom; rule_priority := 20;
       patterns := [lit "what can i help you with?"] |};
    {| rule_status := Idle; rule_anchor := Anywhere; rule_region := Bottom; rule_priority := 10;
       patterns := [lit "claude code"] |}] |}.

Definition codex_MANIFEST : Manifest := {|
  m_id := lit "codex"; m_executables := [lit "codex"];
  m_rules := [
    {| rule_status := Permission; rule_anchor := Anywhere; rule_region := Title; rule_priority := 110;
       patterns := [lit "action required"] |};
    {| rule_status := Working; rule_anchor := SpinnerLine; rule_region := Title; rule_priority := 105;
       patterns := [[]] |};
    {| rule_status := Permission; rule_anchor := Anywhere; rule_region := Bottom; rule_priority := 120;
       patterns := [lit "would you like to run the following command?";
         lit "would you like to make the following edits?";
         lit "would you like to send input to the existing terminal?";
         lit "would you like to send input to terminal ";
         lit "do you want to approve network access to "; lit "press enter to confirm";
         lit "allow codex to"; lit "allow command?"; lit "trust this folder?"] |};
    {| rule_status := Question; rule_anchor := Anywhere; rule_region := Bottom; rule_priority := 115;
       patterns := [lit "waiting for your response"; lit "answer the question";
         lit "enter to submit answer"; lit "enter to submit all"] |};
    {| rule_status := Error; rule_anchor := Anywhere; rule_region := Bottom; rule_priority := 80;
       patterns := [lit "stream disconnected"; lit "usage limit"; lit "failed to"] |};
    {| rule_status := Working; rule_anchor := SpinnerLine; rule_region := Bottom; rule_priority := 75;
       patterns := [lit "working"; lit "thinking"] |};
    {| rule_status := Working; rule_anchor := LineStart; rule_region := Bottom; rule_priority := 60;
       patterns := [lit "running command"] |};
    {| rule_status := Idle; rule_anchor := LineStart; rule_region := Bottom; rule_priority := 20;
       patterns := [lit "codex>"] |};
    {| rule_status := Idle; rule_anchor := Anywhere; rule_region := Bottom; rule_priority := 10;
       patterns := [lit "ask codex"] |}] |}.

Definition opencode_MANIFEST : Manifest := {|
  m_id := lit "opencode"; m_executables := [lit "opencode"];
  m_rules := [
    {| rule_status := Working; rule_anchor := SpinnerLine; rule_region := Title; rule_priority := 105;
       patterns := [[]] |};
    {| rule_status := Permission; rule_anchor := Anywhere; rule_region := Bottom; rule_priority := 120;
       patterns := [lit "permission required"; lit "allow once"; lit "allow always"; lit "deny"] |};
    {| rule_status := Question; rule_anchor := Anywhere; rule_region := Bottom; rule_priority := 115;
       patterns := [lit "type your response"; lit "select an option"] |};
    {| rule_status := Error; rule_anchor := Anywhere; rule_region := Bottom; rule_priority := 80;
       patterns := [lit "provider error"; lit "request failed"; lit "unauthorized"] |};
    {| rule_status := Working; rule_anchor := SpinnerLine; rule_region := Bottom; rule_priority := 75;
       patterns := [lit "thinking"; lit "generating"; lit "running"] |};
    {| rule_status := Idle; rule_anchor := Anywhere; rule_region := Bottom; rule_priority := 20;
       patterns := [lit "type a message"] |}] |}.

Definition gemini_MANIFEST : Manifest := {|
  m_id := lit "gemini"; m_executables := [lit "gemini"];
  m_rules := [
    {| rule_status := Working; rule_anchor := SpinnerLine; rule_region := Title; rule_priority := 105;
       patterns := [[]] |};
    {| rule_status := Permission; rule_anchor := Anywhere; rule_region := Bottom; rule_priority := 120;
       patterns := [lit "allow execution?"; lit "confirm action"; lit "yes, allow";
         ulit "│ apply this change"; ulit "│ allow execution"] |};
    {| rule_status := Question; rule_anchor := Anywhere; rule_region := Bottom; rule_priority := 115;
       patterns := [lit "waiting for input"; lit "choose an option"] |};
    {| rule_status := Error; rule_anchor := Anywhere; rule_region := Bottom; rule_priority := 80;
       patterns := [lit "gemini api error"; lit "quota exceeded"; lit "request failed"] |};
    {| rule_status := Working; rule_anchor := SpinnerLine; rule_region := Bottom; rule_priority := 75;
       patterns := [lit "thinking"; lit "executing tool"] |};
    {| rule_status := Working; rule_anchor := Anywhere; rule_region := Bottom; rule_priority := 60;
       patterns := [lit "esc to cancel"] |};
    {| rule_status := Idle; rule_anchor := Anywhere; rule_region := Bottom; rule_priority := 20;
       patterns := [lit "type your message"] |}] |}.

Definition grok_MANIFEST : Manifest := {|
  m_id := lit "grok"; m_executables := [lit "grok"; lit "agent"];
  m_rules := [
    {| rule_status := Permission; rule_anchor := Anywhere; rule_region := Title; rule_priority := 125;
       patterns := [lit "action required"] |};
    {| rule_status := Working; rule_anchor := AnimatedTitle; rule_region := Title; rule_priority := 105;
       patterns := [[]] |};
    {| rule_status := Permission; rule_anchor := Anywhere; rule_region := Bottom; rule_priority := 120;
       patterns := [lit "approval required"; lit "allow this command"; lit "confirm execution";
         lit "ctrl+o:yolo"; ulit "←/→:scope"] |};
    {| rule_status := Question; rule_anchor := Anywhere; rule_region := Bottom; rule_priority := 115;
       patterns := [lit "waiting for your response"; lit "select an option"; lit "shift+x:dismiss"] |};
    {| rule_status := Error; rule_anchor := Anywhere; rule_region := Bottom; rule_priority := 80;
       patterns := [lit "grok api error"; lit "rate limit"; lit "request failed"] |};
    {| rule_status := Working; rule_anchor := SpinnerSuffix; rule_region := Bottom; rule_priority := 110;
       patterns := [lit "[stop]"] |};
    {| rule_status := Working; rule_anchor := SpinnerLine; rule_region := Bottom; rule_priority := 75;
       patterns := [lit "thinking"; lit "running tool"; lit "generating"] |};
    {| rule_status := Idle; rule_anchor := Anywhere; rule_region := Bottom; rule_priority := 20;
       patterns := [lit "ask grok"; lit "type a message"] |}] |}.

Definition kiro_MANIFEST : Manifest := {|
  m_id := lit "kiro"; m_executables := [lit "kiro"; lit "kiro-cli"];
  m_rules := [
    {| rule_status := Working; rule_anchor := SpinnerLine; rule_region := Title; rule_priority := 105;
       patterns := [[]] |};
    {| rule_status := Permission; rule_anchor := Anywhere; rule_region := Bottom; rule_priority := 120;
       patterns := [lit "approval required"; lit "allow this action"; lit "confirm command";
         lit "yes, single permission"; lit "trust, always allow in this session";
         ulit "requires approval · modify request"] |};
    {| rule_status := Question; rule_anchor := Anywhere; rule_region := Bottom; rule_priority := 115;
       patterns := [lit "waiting for input"; lit "choose an option"] |};
    {| rule_status := Error; rule_anchor := Anywhere; rule_region := Bottom; rule_priority := 80;
       patterns := [lit "kiro error"; lit "request failed"; lit "authentication failed"] |};
    {| rule_status := Working; rule_anchor := SpinnerLine; rule_region := Bottom; rule_priority := 75;
       patterns := [lit "thinking"; lit "executing"; lit "running tool"] |};
    {| rule_status := Idle; rule_anchor := Anywhere; rule_region := Bottom; rule_priority := 20;
       patterns := [lit "ask kiro"; lit "type your message"] |}] |}.

Definition cursor_MANIFEST : Manifest := {|
  m_id := lit "cursor"; m_executables := [lit "agent"; lit "cursor-agent"];
  m_rules := [
    {| rule_status := Working; rule_anchor := SpinnerLine; rule_region := Title; rule_priority := 105;
       patterns := [[]] |};
    {| rule_status := Permission; rule_anchor := Anywhere; rule_region := Bottom; rule_priority := 120;
       patterns := [lit "approval required"; lit "approve this command"; lit "allow this command";
         lit "ask every time"; lit "run everything"; lit "run (once) (y)";
         lit "skip (esc or n)"; lit "write to this file?"; lit "reject & propose changes"] |};
    {| rule_status := Question; rule_anchor := Anywhere; rule_region := Bottom; rule_priority := 115;
       patterns := [lit "answer the question"; lit "select an option"; lit "enter to select"] |};
    {| rule_status := Error; rule_anchor := Anywhere; rule_region := Bottom; rule_priority := 80;
       patterns := [lit "not authenticated"; lit "authentication failed"; lit "usage limit";
         lit "rate limit"; lit "request failed"] |};
    {| rule_status := Working; rule_anchor := SpinnerLine; rule_region := Bottom; rule_priority := 75;
       patterns := [[]] |};
    {| rule_status := Working; rule_anchor := Anywhere; rule_region := Bottom; rule_priority := 60;
       patterns := [lit "ctrl+c to stop"] |};
    {| rule_status := Idle; rule_anchor := Anywhere; rule_region := Bottom; rule_priority := 20;
       patterns := [lit "plan, search, build anything"; lit "add a follow-up"] |};
    {| rule_status := Idle; rule_anchor := Anywhere; rule_region := Bottom; rule_priority := 10;
       patterns := [lit "cursor agent"] |}] |}.

Definition pi_MANIFEST : Manifest := {|
  m_id := lit "pi"; m_executables := [lit "pi"; lit "pi-coding-agent"];
  m_rules := [
    {| rule_status := Working; rule_anchor := SpinnerLine; rule_region := Bottom; rule_priority := 75;
       patterns := [lit "working"] |};
    {| rule_status := Working; rule_anchor := SpinnerLine; rule_region := Title; rule_priority := 105;
       patterns := [[]] |};
    {| rule_status := Permission; rule_anchor := Anywhere; rule_region := Bottom; rule_priority := 120;
       patterns := [lit "project trust"; lit "saved decision:"; lit "current session:"] |};
    {| rule_status := Error; rule_anchor := Anywhere; rule_region := Bottom; rule_priority := 80;
       patterns := [lit "api error"; lit "authentication failed"; lit "rate limit"; lit "request failed";
         lit "no api key"] |};
    {| rule_status := Working; rule_anchor := LineStart; rule_region := Bottom; rule_priority := 60;
       patterns := [lit "working..."; lit "retrying ("; lit "compacting context...";
         lit "auto-compacting..."; lit "summarizing branch..."] |}] |}.

Definition copilot_MANIFEST : Manifest := {|
  m_id := lit "copilot"; m_executables := [lit "copilot"];
  m_rules := [] |}.

Definition kimi_MANIFEST : Manifest := {|
  m_id := lit "kimi"; m_executables := [lit "kimi"];
  m_rules := [] |}.

Definition droid_MANIFEST : Manifest := {|
  m_id := lit "droid"; m_executables := [lit "droid"];
  m_rules := [] |}.

Definition amp_MANIFEST : Manifest := {|
  m_id := lit "amp"; m_executables := [lit "amp"];
  m_rules := [] |}.

Definition hermes_MANIFEST : Manifest := {|
  m_id := lit "hermes"; m_executables := [lit "hermes"];
  m_rules := [] |}.

Definition kilo_MANIFEST : Manifest := {|
  m_id := lit "kilo"; m_executables := [lit "kilo"];
  m_rules := [] |}.

Definition qodercli_MANIFEST : Manifest := {|
  m_id := lit "qodercli"; m_executables := [lit "qodercli"];
  m_rules := [] |}.

Definition qoder_MANIFEST : Manifest := {|
  m_id := lit "qoder"; m_executables := [lit "qoder"];
  m_rules := [] |}.

Definition omp_MANIFEST : Manifest := {|
  m_id := lit "omp"; m_executables := [lit "omp"];
  m_rules := [] |}.

Definition BUILT_INS : list Manifest :=
  [claude_MANIFEST; codex_MANIFEST; opencode_MANIFEST; gemini_MANIFEST; grok_MANIFEST; kiro_MANIFEST; cursor_MANIFEST; pi_MANIFEST; copilot_MANIFEST; kimi_MANIFEST; droid_MANIFEST; amp_MANIFEST; hermes_MANIFEST; kilo_MANIFEST; qodercli_MANIFEST; qoder_MANIFEST; omp_MANIFEST].
