(* ===== verification/Providers.v ===== *)
(** * The provider catalog

    [uniterm-server/src/providers/mod.rs]: documents are validated as a unit and
    layered over the bundled manifests, and the catalog classifies commands,
    screens and logs. A file is what reading it gives; the digest of a cache is
    read from the file beside it. *)

From stdpp Require Import gmap.
From S2P Require Import Privacy Prelude Utf8 Lines Cell Agent Text Detect BuiltIns.

(** What the catalog takes from outside: the build's version, [{:?}] of a
    string, Unicode's alphanumeric characters, the clock, SHA-256 and the JSON of
    documents and of the envelope [{sha256, manifest}]. *)
Class Env : Type := {
  CARGO_PKG_VERSION : str;
  debug : str -> str;
  is_alphanumeric : char -> bool;
  now_ms : N;
  sha256 : list N -> list N;
  document_json : list N -> option ManifestDocument;
  envelope_text : str -> str -> list N;
  envelope_json : list N -> option (str * str) }.

Inductive ManifestError : Set :=
| Io | TooLarge | InvalidJson | UnsupportedSchema (v : N) | BadName (label value : str)
| ProviderCount | DuplicateProvider (id : str) | TooManyAliases (id : str) | BadAlias (alias : str)
| Interpreter (alias : str) | RepeatedAlias (id alias : str) | ClaimedAlias (alias owner id : str)
| RepeatedCapability (id : str) | ConnectorCapability (id : str) | ProcessCapability (id : str)
| BadText (label : str) | EmptyLogPath (id : str) | TooManyRules | RepeatedRule (id rule : str)
| Overbroad (pattern : str) | BadConfidence (rule : str) | LongDwell (rule : str)
| ScreenCapability (id : str) | LogCapability (id : str)
| NoDigest | BadDigest | DigestMismatch | InvalidEnvelope.

Definition bind {A B} (r : result A ManifestError) (k : A -> result B ManifestError) : result B ManifestError :=
  match r with Ok a => k a | Err e => Err e end.

#[local] Notation "x <-! e ; k" := (bind e (fun x => k)) (at level 100, e at next level, right associativity).

Definition ensure (b : bool) (e : ManifestError) : result unit ManifestError :=
  if b then Ok tt else Err e.

(** ** Validation *)

Definition ascii_alphanumeric (c : char) : bool :=
  ((48 <=? c) && (c <=? 57)) || ((65 <=? c) && (c <=? 90)) || ((97 <=? c) && (c <=? 122)).

Definition name_char (c : char) : bool :=
  ascii_alphanumeric c || (c =? 46) || (c =? 95) || (c =? 45).

Definition validate_name (label value : str) (limit : N) : result unit ManifestError :=
  ensure (negb (is_empty value) && (len8 value <=? limit) && forallb name_char value) (BadName label value).

Definition validate_text (label value : str) (limit : N) : result unit ManifestError :=
  ensure ((len8 value <=? limit) && negb (existsb is_control value)) (BadText label).

Definition OVERBROAD : list str :=
  [lit "sh"; lit "bash"; lit "zsh"; lit "fish"; lit "node"; lit "python"; lit "python3"; lit "ruby"; lit "perl"; lit "java"].

Definition validate_alias (alias : str) : result unit ManifestError :=
  _ <-! ensure (negb (is_empty alias || (128 <? len8 alias) || existsb (N.eqb 47) alias || existsb (N.eqb 92) alias
          || existsb (fun c => is_control c || is_whitespace c) alias)) (BadAlias alias);
  ensure (negb (mem (to_ascii_lowercase alias) OVERBROAD)) (Interpreter alias).

(** The loop over a provider's aliases: those seen so far and the owners of all. *)
Fixpoint validate_aliases (id : str) (seen : list str) (owners : list (str * str)) (aliases : list str)
    : result (list (str * str)) ManifestError :=
  match aliases with
  | [] => Ok owners
  | alias :: aliases =>
      _ <-! validate_alias alias;
      let normalized := to_ascii_lowercase alias in
      if mem normalized seen then Err (RepeatedAlias id alias)
      else match list_find (fun o => o.1 = normalized) owners with
      | Some (_, o) => Err (ClaimedAlias alias o.2 id)
      | None => validate_aliases id (normalized :: seen) ((normalized, id) :: owners) aliases
      end
  end.

Definition has (c : DetectionCapability) (l : list DetectionCapability) : bool := bool_decide (c ∈ l).

Section Providers.
Context {E : Env}.

Definition validate_pattern (p : str) : result unit ManifestError :=
  _ <-! validate_text (lit "pattern") p MAX_PATTERN_BYTES;
  let trimmed := trim p in
  ensure (negb ((len8 trimmed <? 4) || (length (filter (fun c => is_alphanumeric c = true) trimmed) <? 3)%nat)) (Overbroad p).

(** The anchors that may stand without a pattern. *)
Definition bare_anchor (a : RuleAnchor) : bool :=
  match a with SpinnerLine | AnimatedTitle | SpinnerActivity => true | _ => false end.

Fixpoint validate_rules (id : str) (seen : list str) (screen log : bool) (rs : list ManifestRule)
    : result (bool * bool) ManifestError :=
  match rs with
  | [] => Ok (screen, log)
  | r :: rs =>
      _ <-! validate_name (lit "rule id") (mr_id r) 96;
      _ <-! ensure (negb (mem (mr_id r) seen)) (RepeatedRule id (mr_id r));
      _ <-! (if bare_anchor (mr_anchor r) && is_empty (mr_pattern r) then Ok tt else validate_pattern (mr_pattern r));
      _ <-! ensure ((1 <=? mr_confidence r) && (mr_confidence r <=? 100)) (BadConfidence (mr_id r));
      _ <-! ensure (match mr_dwell_ms r with Some d => d <=? 60000 | None => true end) (LongDwell (mr_id r));
      match mr_evidence r with
      | Screen => validate_rules id (mr_id r :: seen) true log rs
      | Log => validate_rules id (mr_id r :: seen) screen true rs
      end
  end.

Definition validate_log_path (p : ProviderDefinition) : result unit ManifestError :=
  match pd_log_path p with
  | Some path =>
      _ <-! validate_text (lit "log_path") path 4096;
      ensure (negb (is_empty (trim path))) (EmptyLogPath (pd_id p))
  | None => Ok tt
  end.

(** One provider of the loop; the ids, owners and rules counted so far. *)
Definition validate_provider (ids : list str) (owners : list (str * str)) (total : N) (p : ProviderDefinition)
    : result (list (str * str) * N) ManifestError :=
  let id := pd_id p in
  let caps := pd_capabilities p in
  _ <-! validate_name (lit "provider id") id 64;
  _ <-! ensure (negb (mem id ids)) (DuplicateProvider id);
  _ <-! ensure (N.of_nat (length (executable_aliases p)) <=? MAX_ALIASES) (TooManyAliases id);
  owners <-! validate_aliases id [] owners (executable_aliases p);
  _ <-! ensure (bool_decide (NoDup caps)) (RepeatedCapability id);
  _ <-! ensure (eqb (has CConnector caps) (supports id)) (ConnectorCapability id);
  _ <-! ensure (negb (eqb (has CProcess caps) (bool_decide (executable_aliases p = [])))) (ProcessCapability id);
  _ <-! validate_log_path p;
  let total := sadd u64_max total (N.of_nat (length (pd_rules p))) in
  _ <-! ensure (total <=? MAX_RULES) TooManyRules;
  found <-! validate_rules id [] false false (pd_rules p);
  _ <-! ensure (eqb (has CScreen caps) found.1) (ScreenCapability id);
  _ <-! ensure (eqb (has CLog caps) (found.2 && bool_decide (is_Some (pd_log_path p)))) (LogCapability id);
  Ok (owners, total).

Fixpoint validate_providers (ids : list str) (owners : list (str * str)) (total : N) (ps : list ProviderDefinition)
    : result unit ManifestError :=
  match ps with
  | [] => Ok tt
  | p :: ps =>
      next <-! validate_provider ids owners total p;
      validate_providers (pd_id p :: ids) next.1 next.2 ps
  end.

Definition validate_document (d : ManifestDocument) : result unit ManifestError :=
  _ <-! ensure (schema_version d =? SCHEMA_VERSION) (UnsupportedSchema (schema_version d));
  _ <-! validate_name (lit "manifest_version") (manifest_version d) 64;
  _ <-! ensure (negb (bool_decide (providers d = [])) && (N.of_nat (length (providers d)) <=? MAX_PROVIDERS)) ProviderCount;
  validate_providers [] [] 0 (providers d).

(** ** Sources *)

Inductive FileRead : Set := Missing | Unreadable | Contents (bytes : list N).

Definition read_bounded_limit (f : FileRead) (limit : N) : result (option (list N)) ManifestError :=
  match f with
  | Missing => Ok None
  | Unreadable => Err Io
  | Contents bytes => if limit <? N.of_nat (length bytes) then Err TooLarge else Ok (Some bytes)
  end.

Definition read_bounded (f : FileRead) := read_bounded_limit f MAX_MANIFEST_BYTES.

Definition parse_document (bytes : list N) : result ManifestDocument ManifestError :=
  match document_json bytes with
  | None => Err InvalidJson
  | Some d => _ <-! validate_document d; Ok d
  end.

Definition read_document (f : FileRead) : result (option ManifestDocument) ManifestError :=
  bytes <-! read_bounded f;
  match bytes with
  | None => Ok None
  | Some bytes => d <-! parse_document bytes; Ok (Some d)
  end.

Definition sha256_hex (bytes : list N) : str := hex (sha256 bytes).

Definition is_hexdigit (b : N) : bool :=
  ((48 <=? b) && (b <=? 57)) || ((65 <=? b) && (b <=? 70)) || ((97 <=? b) && (b <=? 102)).

(** A cache file and the digest file beside it. *)
Definition read_verified (f : FileRead * FileRead) : result (option (ManifestDocument * list N)) ManifestError :=
  bytes <-! read_bounded f.1;
  match bytes with
  | None => Ok None
  | Some bytes =>
      expected <-! read_bounded_limit f.2 1024;
      match expected with
      | None => Err NoDigest
      | Some expected =>
          match from_utf8 expected with
          | None => Err BadDigest
          | Some expected =>
              let expected := Prelude.trim expected in
              if negb ((len8 expected =? 64) && forallb is_hexdigit (utf8 expected)) then Err BadDigest
              else if negb (str_eqb (to_ascii_lowercase (sha256_hex bytes)) (to_ascii_lowercase expected)) then Err DigestMismatch
              else d <-! parse_document bytes; Ok (Some (d, bytes))
          end
      end
  end.

Definition read_last_good (f : FileRead) : result (option (ManifestDocument * list N)) ManifestError :=
  bytes <-! read_bounded_limit f MAX_LAST_GOOD_BYTES;
  match bytes with
  | None => Ok None
  | Some bytes =>
      match envelope_json bytes with
      | None => Err InvalidEnvelope
      | Some (digest, manifest) =>
          let bytes := utf8 manifest in
          if negb (str_eqb (sha256_hex bytes) digest) then Err DigestMismatch
          else d <-! parse_document bytes; Ok (Some (d, bytes))
      end
  end.

(** [persist_last_good]: the bytes written to the last-known-good file. *)
Definition persist_last_good (bytes : list N) : option (list N) :=
  manifest ← from_utf8 bytes; Some (envelope_text (sha256_hex bytes) manifest).

(** ** Compilation *)

Definition compile_rule (r : ManifestRule) : CompiledRule := {|
  r_id := mr_id r; evidence := mr_evidence r; status := mr_status r; pattern := mr_pattern r;
  lower_pattern := to_ascii_lowercase (mr_pattern r); confidence := mr_confidence r;
  dwell_ms := mr_dwell_ms r; anchor := mr_anchor r; region := mr_region r; priority := mr_priority r |}.

Definition compile_provider (p : ProviderDefinition) (source : DetectionSource) (version : str) (precedence : N)
    : CompiledManifest := {|
  c_id := pd_id p; executables := map to_ascii_lowercase (executable_aliases p); log_path := pd_log_path p;
  rules := map compile_rule (pd_rules p); capabilities := pd_capabilities p; source := source;
  version := version; precedence := precedence |}.

(** One pattern of a bundled rule; groups and patterns are numbered from 1. *)
Definition bundled_rule (group : nat) (r : Rule) (index : nat) (p : str) : CompiledRule := {|
  r_id := lit "screen." ++ label (rule_status r) ++ lit "." ++ dec (N.of_nat (S group)) ++ lit "." ++ dec (N.of_nat (S index));
  evidence := Screen; status := rule_status r; pattern := p; lower_pattern := to_ascii_lowercase p;
  confidence := if needs_human (rule_status r) then 90 else 75;
  dwell_ms := Some (default_dwell_ms (rule_status r)); anchor := rule_anchor r; region := rule_region r;
  priority := rule_priority r |}.

Definition bundled_rules (rs : list Rule) : list CompiledRule :=
  concat (imap (fun group r => imap (bundled_rule group r) (patterns r)) rs).

Definition bundled_manifest (m : Manifest) : CompiledManifest :=
  let rs := bundled_rules (m_rules m) in {|
  c_id := m_id m; executables := m_executables m; log_path := None; rules := rs;
  capabilities := [CProcess] ++ (if bool_decide (rs = []) then [] else [CScreen])
    ++ (if supports (m_id m) then [CConnector] else []);
  source := Bundled; version := CARGO_PKG_VERSION; precedence := BUNDLED_PRECEDENCE |}.

Definition bundled : list CompiledManifest := map bundled_manifest BUILT_INS.

(** ** The catalog *)

Inductive Diagnostic : Set :=
| SaveFailed | CacheRejected (e : ManifestError) | LastGoodRejected (e : ManifestError) | LocalRejected (e : ManifestError).

Record Catalog : Set := {
  manifests : list CompiledManifest; diagnostics : list Diagnostic; activation_valid : bool }.

Definition insert_document (selected : gmap str CompiledManifest) (d : ManifestDocument)
    (source : DetectionSource) (precedence : N) : gmap str CompiledManifest :=
  foldl (fun m p => <[pd_id p := compile_provider p source (manifest_version d) precedence]> m) selected (providers d).

Definition select_bundled : gmap str CompiledManifest :=
  foldl (fun m c => <[c_id c := c]> m) ∅ bundled.

(** By precedence, the highest first, then by id. *)
Definition before (a b : CompiledManifest) : bool :=
  (precedence b <? precedence a) || ((precedence a =? precedence b) && str_leb (c_id a) (c_id b)).

Definition sorted (selected : gmap str CompiledManifest) : list CompiledManifest :=
  sort_by before (map_to_list selected).*2.

(** What the cache gives: a document, the file the last good document is saved
    to, and what went wrong. [saved] is whether the write succeeded. *)
Definition read_cache (cache : option (FileRead * FileRead)) (last_good : option FileRead) (saved : bool)
    : option (ManifestDocument * DetectionSource * N) * option (list N) * list Diagnostic :=
  match cache with
  | None => (None, None, [])
  | Some f =>
      match read_verified f with
      | Ok (Some (d, bytes)) =>
          let from_cache := Some (d, VerifiedCache, CACHE_PRECEDENCE) in
          match last_good with
          | None => (from_cache, None, [])
          | Some _ =>
              match persist_last_good bytes with
              | Some written => if saved then (from_cache, Some written, []) else (from_cache, None, [SaveFailed])
              | None => (from_cache, None, [SaveFailed])
              end
          end
      | Ok None => (None, None, [])
      | Err e => (None, None, [CacheRejected e])
      end
  end.

Definition or_last_good (cached : option (ManifestDocument * DetectionSource * N)) (last_good : option FileRead)
    : option (ManifestDocument * DetectionSource * N) * list Diagnostic :=
  match cached, last_good with
  | Some c, _ => (Some c, [])
  | None, None => (None, [])
  | None, Some f =>
      match read_last_good f with
      | Ok (Some (d, _)) => (Some (d, LastKnownGood, LAST_GOOD_PRECEDENCE), [])
      | Ok None => (None, [])
      | Err e => (None, [LastGoodRejected e])
      end
  end.

(** [load_from_paths]: the catalog, and what is written to the last-known-good
    file. *)
Definition load_from_paths (local : option FileRead) (cache : option (FileRead * FileRead))
    (last_good : option FileRead) (saved : bool) : Catalog * option (list N) :=
  let '(cached, written, d1) := read_cache cache last_good saved in
  let '(cached, d2) := or_last_good cached last_good in
  let selected := match cached with
    | Some (d, source, precedence) => insert_document select_bundled d source precedence
    | None => select_bundled
    end in
  let '(selected, valid, d3) := match local with
    | None => (selected, true, [])
    | Some f =>
        match read_document f with
        | Ok (Some d) => (insert_document selected d LocalOverride LOCAL_PRECEDENCE, true, [])
        | Ok None => (selected, true, [])
        | Err e => (selected, false, [LocalRejected e])
        end
    end in
  ({| manifests := sorted selected; diagnostics := d1 ++ d2 ++ d3; activation_valid := valid |}, written).

(** ** Evidence *)

Definition provenance (m : CompiledManifest) (rule : option str) (conf dwell : option N) : DetectionProvenance := {|
  p_source := source m; p_version := Some (version m); matched_rule := rule; p_confidence := conf;
  p_dwell_ms := dwell; p_precedence := precedence m; p_capabilities := capabilities m;
  evidence_timestamp_ms := now_ms; invocation_pid := None |}.

Definition find_by {A} (f : A -> bool) (l : list A) : option A := snd <$> list_find (fun x => f x = true) l.

Fixpoint process_in (command lower : str) (ms : list CompiledManifest) : option Match :=
  match ms with
  | [] => None
  | m :: ms =>
      match find_by (command_contains_executable lower) (executables m) with
      | Some exe => Some {|
          agent := Some (c_id m); m_status := None;
          m_evidence := lit "foreground process matched " ++ safe_evidence command 512;
          provenance_of := provenance m (Some (lit "process." ++ exe)) (Some 70) None |}
      | None => process_in command lower ms
      end
  end.

Definition process (c : Catalog) (command : str) : option Match :=
  process_in command (to_ascii_lowercase command) (manifests c).

(** The manifest of an agent. *)
Definition manifest_of (c : Catalog) (id : str) : option CompiledManifest :=
  find_by (fun m => str_eqb (c_id m) id) (manifests c).

Definition region_text (r : CompiledRule) (tail title : str) : str :=
  match region r with Bottom => tail | Title => title end.

(** One round of the loop of [screen]. *)
Definition better (tail title : str) (best : option CompiledRule) (r : CompiledRule) : option CompiledRule :=
  if bool_decide (evidence r = Screen) && rule_matches r (region_text r tail title)
     && match best with Some b => priority b <? priority r | None => true end
  then Some r else best.

Definition best_rule (rs : list CompiledRule) (tail title : str) : option CompiledRule :=
  foldl (better (to_ascii_lowercase tail) (to_ascii_lowercase title)) None rs.

Definition region_label (r : CompiledRule) : str :=
  match region r with Bottom => lit "bottom grid" | Title => lit "window title" end.

Definition rule_match (m : CompiledManifest) (r : CompiledRule) (label : str) : Match := {|
  agent := Some (c_id m); m_status := Some (status r);
  m_evidence := label ++ lit " matched " ++ debug (pattern r);
  provenance_of := provenance m (Some (r_id r)) (Some (confidence r)) (dwell_ms r) |}.

Definition screen (c : Catalog) (id tail title : str) : option Match :=
  m ← manifest_of c id;
  Some match best_rule (rules m) tail title with
  | None => {|
      agent := Some (c_id m); m_status := Some Idle;
      m_evidence := lit "no working or blocked signal on screen";
      provenance_of := provenance m (Some (lit "screen.idle.default")) (Some 50) (Some (default_dwell_ms Idle)) |}
  | Some r => rule_match m r (region_label r)
  end.

(** [max_by_key]: the last of the greatest. *)
Definition last_max (best : option CompiledRule) (r : CompiledRule) : option CompiledRule :=
  match best with Some b => if priority r <? priority b then best else Some r | None => Some r end.

Definition match_rules (m : CompiledManifest) (e : ManifestEvidence) (lower label : str) : option Match :=
  r ← foldl last_max None (filter (fun r => bool_decide (evidence r = e) && rule_matches r lower = true) (rules m));
  Some (rule_match m r label).

(** [log], the tail of the file and its path given. *)
Definition log (c : Catalog) (id : str) (tail : str -> option (list N * str)) : option Match :=
  m ← manifest_of c id;
  raw_path ← log_path m;
  '(bytes, path) ← tail raw_path;
  found ← match_rules m Log (to_ascii_lowercase (from_utf8_lossy bytes)) (lit "session log");
  Some {| agent := agent found; m_status := m_status found;
          m_evidence := m_evidence found ++ lit " in " ++ path; provenance_of := provenance_of found |}.

End Providers.

Definition resume_argv_allowed (id argv0 : str) : bool :=
  if is_empty argv0 || existsb slash argv0 then false
  else match find_by (fun m => str_eqb (m_id m) id) BUILT_INS with
  | Some m => mem argv0 (m_executables m)
  | None => false
  end.
