(* ===== verification/ProvidersSpec.v ===== *)
(** * The provider catalog: what it shows

    The rule that classifies a screen, the layers of the catalog, what a command
    is identified by, and that text typed into an agent's input box does not
    make the agent look busy. *)

From stdpp Require Import gmap.
From S2P Require Import Privacy Prelude Utf8 Lines Cell Agent Text Detect BuiltIns Providers.

Lemma find_by_some {A} (f : A -> bool) l x : find_by f l = Some x -> x ∈ l /\ f x = true.
Proof.
  unfold find_by. intros ([i y] & E & H)%fmap_Some. simpl in H. subst y.
  apply list_find_Some in E as (Hi & Hf & _). split; [by eapply list_elem_of_lookup_2|done].
Qed.

Lemma find_by_none {A} (f : A -> bool) l : find_by f l = None -> forall x, x ∈ l -> f x = false.
Proof.
  unfold find_by. intros H%fmap_None x Hx. rewrite list_find_None in H.
  apply not_true_iff_false. by eapply Forall_forall in H.
Qed.

Lemma find_by_cons {A} (f : A -> bool) x l : find_by f (x :: l) = if f x then Some x else find_by f l.
Proof.
  unfold find_by. cbn [list_find]. destruct (decide (f x = true)) as [E|E].
  - by rewrite E.
  - apply not_true_is_false in E as ->. by destruct (list_find _ l) as [[i y]|].
Qed.

(** ** The winning rule *)

(** The first of the greatest of the rules that [f] accepts. *)
Definition first_best (f : CompiledRule -> bool) (rs : list CompiledRule) (r : CompiledRule) : Prop :=
  exists l1 l2, rs = l1 ++ r :: l2 /\ f r = true
    /\ Forall (fun x => f x = true -> priority x < priority r) l1
    /\ Forall (fun x => f x = true -> priority x <= priority r) l2.

(** The last of the greatest. *)
Definition last_best (f : CompiledRule -> bool) (rs : list CompiledRule) (r : CompiledRule) : Prop :=
  exists l1 l2, rs = l1 ++ r :: l2 /\ f r = true
    /\ Forall (fun x => f x = true -> priority x <= priority r) l1
    /\ Forall (fun x => f x = true -> priority x < priority r) l2.

(** A rule of the screen that matches its text. *)
Definition shown (tail title : str) (r : CompiledRule) : bool :=
  bool_decide (evidence r = Screen) && rule_matches r (region_text r tail title).

Lemma better_shown tail title best r :
  better tail title best r = if shown tail title r && match best with Some b => priority b <? priority r | None => true end
    then Some r else best.
Proof. reflexivity. Qed.

(** The outcome [best] of a loop over [rs]. *)
Definition chosen (P : (CompiledRule -> bool) -> list CompiledRule -> CompiledRule -> Prop)
    (f : CompiledRule -> bool) (rs : list CompiledRule) (best : option CompiledRule) : Prop :=
  match best with Some r => P f rs r | None => Forall (fun x => f x = false) rs end.

Lemma chosen_better f rs best r : chosen first_best f rs best ->
  chosen first_best f (rs ++ [r])
    (if f r && match best with Some b => priority b <? priority r | None => true end then Some r else best).
Proof.
  intros H. destruct (f r) eqn:Hr; cbn [andb].
  - destruct best as [b|]; cbn in *.
    + destruct H as (l1 & l2 & -> & Hb & H1 & H2). destruct (N.ltb_spec (priority b) (priority r)) as [Hlt|Hle].
      * exists (l1 ++ b :: l2), []. split; [done|]. split; [done|]. split; [|constructor].
        apply Forall_app; split; [eapply Forall_impl; [exact H1|]; intros x Hx Hf; specialize (Hx Hf); lia|].
        constructor; [done|]. eapply Forall_impl; [exact H2|]. intros x Hx Hf. specialize (Hx Hf). lia.
      * exists l1, (l2 ++ [r]). split; [by rewrite <- app_assoc|]. split; [done|]. split; [done|].
        apply Forall_app; split; [done|]. by repeat constructor.
    + exists rs, []. split; [done|]. split; [done|]. split; [|constructor].
      eapply Forall_impl; [exact H|]. intros x Hx Hf. cbn in Hx. congruence.
  - destruct best as [b|]; cbn in *.
    + destruct H as (l1 & l2 & -> & Hb & H1 & H2). exists l1, (l2 ++ [r]).
      split; [by rewrite <- app_assoc|]. split; [done|]. split; [done|].
      apply Forall_app; split; [done|]. constructor; [congruence|constructor].
    + apply Forall_app; split; [done|by repeat constructor].
Qed.

Lemma best_rule_chosen rs tail title :
  chosen first_best (shown (to_ascii_lowercase tail) (to_ascii_lowercase title)) rs (best_rule rs tail title).
Proof.
  unfold best_rule. induction rs as [|r rs IH] using rev_ind; [constructor|].
  rewrite foldl_app. cbn [foldl]. rewrite better_shown. by apply chosen_better.
Qed.

(** The first of the greatest is one. *)
Lemma first_best_unique f rs r r' : first_best f rs r -> first_best f rs r' -> r = r'.
Proof.
  intros (l1 & l2 & E & Hr & H1 & H2) (l1' & l2' & E' & Hr' & H1' & H2'). rewrite E in E'. clear E.
  revert l1' E' H1'. induction H1 as [|x l1 Hx H1 IH]; intros l1' E' H1'.
  - destruct l1' as [|y l1']; [by injection E' as ->|]. injection E' as <- ->.
    apply Forall_cons in H1' as [Hy _]. specialize (Hy Hr).
    rewrite Forall_app, Forall_cons in H2. destruct H2 as (_ & H & _). specialize (H Hr'). lia.
  - destruct l1' as [|y l1']; injection E' as -> E'.
    + specialize (Hx Hr'). rewrite <- E', Forall_app, Forall_cons in H2'. destruct H2' as (_ & H & _).
      specialize (H Hr). lia.
    + apply Forall_cons in H1' as [_ H1']. by eapply IH.
Qed.

Lemma last_max_chosen f rs :
  chosen last_best f rs (foldl last_max None (filter (fun r => f r = true) rs)).
Proof.
  induction rs as [|r rs IH] using rev_ind; [constructor|]. rewrite filter_app, foldl_app.
  rewrite filter_cons, filter_nil. destruct (decide (f r = true)) as [Hr|Hr]; cbn [foldl].
  - destruct (foldl last_max None _) as [b|]; cbn in IH |- *.
    + destruct IH as (l1 & l2 & -> & Hb & H1 & H2). destruct (N.ltb_spec (priority r) (priority b)) as [Hlt|Hle].
      * exists l1, (l2 ++ [r]). split; [by rewrite <- app_assoc|]. split; [done|]. split; [done|].
        apply Forall_app; split; [done|]. by repeat constructor.
      * exists (l1 ++ b :: l2), []. split; [done|]. split; [done|]. split; [|constructor].
        apply Forall_app; split; [eapply Forall_impl; [exact H1|]; intros x Hx Hf; specialize (Hx Hf); lia|].
        constructor; [done|]. eapply Forall_impl; [exact H2|]. intros x Hx Hf. specialize (Hx Hf). lia.
    + exists rs, []. split; [done|]. split; [done|]. split; [|constructor].
      eapply Forall_impl; [exact IH|]. intros x Hx Hf. cbn in Hx. congruence.
  - apply not_true_is_false in Hr. destruct (foldl last_max None _) as [b|]; cbn in IH |- *.
    + destruct IH as (l1 & l2 & -> & Hb & H1 & H2). exists l1, (l2 ++ [r]).
      split; [by rewrite <- app_assoc|]. split; [done|]. split; [done|].
      apply Forall_app; split; [done|]. constructor; [congruence|constructor].
    + apply Forall_app; split; [done|by repeat constructor].
Qed.

(** A rule of the log that matches its text. *)
Definition logged (lower : str) (r : CompiledRule) : bool :=
  bool_decide (evidence r = Log) && rule_matches r lower.

Section Verdicts.
Context {E : Env}.

(** A screen is classified by the first rule of the highest priority among those
    that match it, and is idle when none does; a log by the last of the highest,
    and says nothing when none does. *)
Theorem verdicts_exact m c tail title lower label :
  manifest_of c (c_id m) = Some m ->
  (exists v, screen c (c_id m) tail title = Some v /\ agent v = Some (c_id m)
    /\ ((exists r, first_best (shown (to_ascii_lowercase tail) (to_ascii_lowercase title)) (rules m) r
           /\ v = rule_match m r (region_label r))
        \/ (Forall (fun r => shown (to_ascii_lowercase tail) (to_ascii_lowercase title) r = false) (rules m)
            /\ m_status v = Some Idle /\ p_dwell_ms (provenance_of v) = Some IDLE_DWELL_MS)))
  /\ (match match_rules m Log lower label with
      | Some v => exists r, last_best (logged lower) (rules m) r /\ v = rule_match m r label
      | None => Forall (fun r => logged lower r = false) (rules m)
      end).
Proof.
  intros Hm. split.
  - unfold screen. rewrite Hm. cbn [mbind option_bind]. pose proof (best_rule_chosen (rules m) tail title) as H.
    destruct (best_rule _ _ _) as [r|]; eexists; (split; [reflexivity|]); (split; [reflexivity|]); cbn in H; eauto.
  - unfold match_rules. pose proof (last_max_chosen (logged lower) (rules m)) as H. unfold logged in H at 2.
    destruct (foldl last_max None _) as [r|]; cbn in *; eauto.
Qed.

End Verdicts.

(** ** Typed text *)

(** A rule that makes an agent look busy. *)
Definition activity (s : AgentStatus) : bool := match s with Working | Tool => true | _ => false end.

(** The glyphs that may lead an activity line. *)
Definition leads (c : char) : bool := is_spinner_glyph c || (c =? 42) || (c =? 183).

(** Whether no line that starts with [marker] satisfies the rule by what
    follows the marker, if the rule reports activity. *)
Definition inert (marker : char) (r : CompiledRule) : bool :=
  negb (existsb (N.eqb 10) (lower_pattern r)) && negb (leads marker) && negb (is_whitespace marker)
  && match anchor r with
     | Anywhere => negb (activity (status r)) || bool_decide (region r = Title)
     | LineStart =>
         negb (activity (status r)) || bool_decide (region r = Title)
         || negb (bool_decide (head (lower_pattern r) = Some marker))
     | _ => true
     end.

Definition empty_or_line (post : str) : Prop := post = [] \/ exists post', post = 10 :: post'.

Lemma contains_app p a s b : contains p s = true -> contains p (a ++ s ++ b) = true.
Proof.
  rewrite !contains_spec. intros (x & y & ->). exists (a ++ x), (y ++ b). by rewrite <- !app_assoc.
Qed.

(** A pattern of one line found around the end of a line lies on either side. *)
Lemma contains_cut p x post : 10 ∉ p -> empty_or_line post ->
  contains p (x ++ post) = true -> contains p x = true \/ contains p post = true.
Proof.
  intros Hp Hpost. rewrite !contains_spec. intros (a & b & E).
  destruct (decide (length (a ++ p) <= length x)%nat) as [Hle|Hgt].
  - left. exists a, (drop (length (a ++ p)) x). rewrite app_assoc.
    rewrite <- (take_drop (length (a ++ p)) x) at 1. f_equal.
    apply (f_equal (take (length (a ++ p)))) in E. rewrite take_app_le in E by done.
    rewrite (app_assoc a p b), take_app_length in E. done.
  - destruct (decide (length x <= length a)%nat) as [Hge|Hlt].
    + right. exists (drop (length x) a), b. apply (f_equal (drop (length x))) in E.
      rewrite drop_app_length in E. rewrite drop_app_le in E by done. done.
    + exfalso. rewrite length_app in Hgt. destruct Hpost as [->|[post' ->]].
      * apply (f_equal length) in E. rewrite !length_app in E. simpl in E. lia.
      * assert (Hx : (x ++ 10 :: post') !! length x = Some 10) by (rewrite lookup_app_r, Nat.sub_diag by lia; done).
        rewrite E, lookup_app_r, lookup_app_l in Hx by lia. apply Hp. by eapply list_elem_of_lookup_2.
Qed.

Lemma to_lower_app s t : to_ascii_lowercase (s ++ t) = to_ascii_lowercase s ++ to_ascii_lowercase t.
Proof. apply map_app. Qed.

(** A screen above an input box, and the box's line: blanks, the prompt marker
    and what the user typed. *)
Definition typable (text : str) : Prop := 10 ∉ text /\ last text <> Some 13.

Lemma lines_around pre l post : whole_lines pre -> l <> [] -> typable l -> empty_or_line post ->
  lines (pre ++ l ++ post) = lines pre ++ l :: lines (tail post).
Proof.
  intros Hpre Hne [Hl Hlast] Hpost. assert (Hrec : Forall record (chunks pre)).
  { destruct Hpre as [->|[p ->]]; [constructor|apply whole_records]. }
  unfold lines. rewrite <- (concat_chunks pre) at 1. rewrite chunks_records by done.
  rewrite map_app. f_equal. destruct Hpost as [->|[post' ->]].
  - rewrite app_nil_r, chunks_line by done. cbn. unfold chomp, terminated. rewrite bool_decide_eq_false_2; [done|].
    intros H. apply Hl. by apply last_Some_elem_of in H.
  - change (10 :: post') with ([10] ++ post'). rewrite app_assoc, chunks_record_app by done. cbn.
    by rewrite chomp_app.
Qed.

Lemma ascii_lower_neutral k c : k < 65 -> ascii_lower c = k -> c = k.
Proof.
  unfold ascii_lower. destruct ((65 <=? c) && (c <=? 90)) eqn:H; [|done].
  apply andb_true_iff in H as [H _]. apply N.leb_le in H. lia.
Qed.

Lemma lower_not_in k s : k < 65 -> k ∉ s -> k ∉ to_ascii_lowercase s.
Proof.
  intros Hk Hs Hin. apply Hs. unfold to_ascii_lowercase in Hin. apply list_elem_of_In, in_map_iff in Hin as (c & Hc & Hin).
  apply ascii_lower_neutral in Hc as ->; [|done]. by apply list_elem_of_In.
Qed.

Lemma lower_last s : last s <> Some 13 -> last (to_ascii_lowercase s) <> Some 13.
Proof.
  unfold to_ascii_lowercase. intros H. rewrite fmap_last. destruct (last s) as [c|]; [|done]. cbn. intros [= Hc].
  apply H. f_equal. by apply (ascii_lower_neutral 13).
Qed.

Lemma lower_whitespace c : is_whitespace c = true -> ascii_lower c = c.
Proof.
  intros H. unfold ascii_lower. destruct ((65 <=? c) && (c <=? 90)) eqn:E; [|done].
  exfalso. unfold is_whitespace in H. apply andb_true_iff in E as [E1%N.leb_le E2%N.leb_le].
  rewrite !orb_true_iff, !andb_true_iff, !N.eqb_eq, !N.leb_le in H. lia.
Qed.

Lemma lower_whitespaces s : Forall (fun c => is_whitespace c = true) s -> to_ascii_lowercase s = s.
Proof. induction 1 as [|c s Hc _ IH]; [done|]. unfold to_ascii_lowercase in *. cbn. by rewrite lower_whitespace, IH. Qed.

Lemma trim_start_blanks ind c s : Forall (fun c => is_whitespace c = true) ind -> is_whitespace c = false ->
  trim_start (ind ++ c :: s) = c :: s.
Proof. intros Hi Hc. induction Hi as [|b ind Hb _ IH]; cbn; [by rewrite Hc|]. by rewrite Hb. Qed.

Lemma starts_with_longer p s t : starts_with p s = true -> starts_with p (s ++ t) = true.
Proof. rewrite !starts_with_spec. intros [r ->]. exists (r ++ t). by rewrite app_assoc. Qed.

Section Box.
Context (pre ind post : str) (marker : char).
Context (Hpre : whole_lines pre) (Hind : Forall (fun c => is_whitespace c = true) ind) (Hnl : 10 ∉ ind).
Context (Hpost : empty_or_line post) (Hspace : is_whitespace marker = false).

(** The box's line. *)
Definition box (text : str) : str := ind ++ marker :: text.

Lemma box_lines text : typable text ->
  lines (pre ++ box text ++ post) = lines pre ++ box text :: lines (tail post).
Proof.
  intros [Ht Hlast]. apply lines_around; try done; [unfold box; by destruct ind|]. split.
  - unfold box. rewrite not_elem_of_app, not_elem_of_cons. split_and!; [done| |done].
    intros <-. vm_compute in Hspace. discriminate.
  - unfold box. rewrite last_app_cons, last_cons. destruct (last text); [done|]. intros [= ->]. by vm_compute in Hspace.
Qed.

Lemma box_silent a p text : leads marker = false -> spinner_line a p (box text) = false.
Proof.
  intros H. unfold leads in H. apply orb_false_iff in H as [H H3]. apply orb_false_iff in H as [H1 H2].
  unfold spinner_line, box. rewrite trim_start_blanks by done.
  assert (spinner_of a marker text = false) as ->; [|done].
  assert (animated_glyph marker = false).
  { apply not_true_is_false. intros Ha. unfold animated_glyph in Ha. unfold is_spinner_glyph in H1.
    rewrite !orb_false_iff in H1. rewrite orb_true_iff in Ha. destruct H1. intuition congruence. }
  destruct a; cbn; try done. by rewrite H1, H2, H3.
Qed.

Lemma box_activity r text text' : inert marker r = true -> activity (status r) = true -> region r = Bottom ->
  typable text -> typable text' ->
  rule_matches r (pre ++ box text ++ post) = true -> rule_matches r (pre ++ box text' ++ post) = true.
Proof.
  intros Hin Hact Hreg Ht Ht'. unfold inert in Hin. rewrite !andb_true_iff, !negb_true_iff in Hin.
  destruct Hin as [[[_ Hlead] _] Hin]. rewrite Hact, Hreg in Hin. unfold rule_matches.
  rewrite !box_lines by done.
  destruct (anchor r); cbn in Hin; try done;
    try (rewrite !existsb_app; cbn [existsb]; by rewrite !box_silent).
  rewrite !andb_true_iff. intros [Hne H]. split; [done|].
  rewrite existsb_app in H |- *. cbn [existsb] in H |- *. rewrite !orb_true_iff in H |- *.
  destruct H as [H|[Hs|H]]; auto. exfalso. unfold box in Hs. rewrite trim_start_blanks in Hs by done.
  apply starts_with_spec in Hs as [s Hs]. destruct (lower_pattern r) as [|c p]; [done|]. injection Hs as -> _.
  rewrite bool_decide_eq_false_2, bool_decide_eq_true_2 in Hin by done. done.
Qed.

Lemma box_grows r text : inert marker r = true -> typable text ->
  rule_matches r (pre ++ box [] ++ post) = true -> rule_matches r (pre ++ box text ++ post) = true.
Proof.
  intros Hin Ht. unfold inert in Hin. rewrite !andb_true_iff, !negb_true_iff in Hin.
  destruct Hin as [[[Hpat Hlead] _] _]. assert (typable []) as Hnil by (split; [apply not_elem_of_nil|done]).
  unfold rule_matches. rewrite !box_lines by done.
  destruct (anchor r); try (rewrite !existsb_app; cbn [existsb]; by rewrite !box_silent).
  - rewrite !andb_true_iff. intros [Hne H]. split; [done|]. rewrite app_assoc in H.
    assert (10 ∉ lower_pattern r) as Hp.
    { intros Hc. apply not_true_iff_false in Hpat. apply Hpat. apply existsb_exists. exists 10. by split; [apply list_elem_of_In|]. }
    apply contains_cut in H as [H|H]; [| |done|done].
    + unfold box in *. apply (contains_app _ [] _ (text ++ post)) in H. cbn [app] in H.
      rewrite <- !app_assoc in H. rewrite <- !app_assoc. exact H.
    + apply (contains_app _ (pre ++ box text) _ []) in H. rewrite app_nil_r, <- app_assoc in H. done.
  - rewrite !andb_true_iff. intros [Hne H]. split; [done|].
    rewrite existsb_app in H |- *. cbn [existsb] in H |- *. rewrite !orb_true_iff in H |- *.
    destruct H as [H|[H|H]]; auto. right. left. unfold box in *. rewrite trim_start_blanks in H |- * by done.
    by apply (starts_with_longer _ [marker] text) in H.
Qed.
End Box.

(** The prompt markers of the input boxes. *)
Definition PROMPTS : list char := [62; 8250; 10095; 9474; 9475].

Lemma chosen_some P f rs r : (forall r', P f rs r' -> r' = r) -> (exists x, x ∈ rs /\ f x = true) ->
  forall best, chosen P f rs best -> best = Some r.
Proof.
  intros Hu (x & Hx & Hf) [b|] H; cbn in H; [by rewrite (Hu b H)|].
  rewrite Forall_forall in H. specialize (H x Hx). congruence.
Qed.

(** A rule that stays the best when only rules that do not report activity can
    cease to match. *)
Lemma first_best_shrinks f g rs r : (forall x, x ∈ rs -> g x = true -> f x = true) -> g r = true ->
  first_best f rs r -> first_best g rs r.
Proof.
  intros Hfg Hr (l1 & l2 & -> & _ & H1 & H2). exists l1, l2. split; [done|]. split; [done|].
  rewrite !Forall_forall in *. split; intros x Hx Hg; (apply H1 || apply H2); try done;
    apply Hfg; try done; apply elem_of_app; [by left|right; by apply elem_of_cons; right].
Qed.

Section Typed.
Context {E : Env}.

Lemma busy_without_text c id m pre ind marker text post title v :
  manifest_of c id = Some m -> ascii_lower marker = marker ->
  Forall (fun r => inert marker r = true) (rules m) ->
  whole_lines pre -> Forall (fun c => is_whitespace c = true) ind -> 10 ∉ ind ->
  typable text -> empty_or_line post ->
  screen c id (pre ++ box ind marker text ++ post) title = Some v ->
  (exists s, m_status v = Some s /\ activity s = true) ->
  screen c id (pre ++ box ind marker [] ++ post) title = Some v.
Proof.
  intros Hm Hmark Hin Hpre Hind Hnl Ht Hpost. unfold screen. rewrite Hm. cbn [mbind option_bind].
  assert (Hlow : forall t, to_ascii_lowercase (pre ++ box ind marker t ++ post)
    = to_ascii_lowercase pre ++ box ind marker (to_ascii_lowercase t) ++ to_ascii_lowercase post).
  { intros t. unfold box. rewrite !to_lower_app. rewrite (lower_whitespaces ind) by done.
    unfold to_ascii_lowercase at 2. cbn [map]. by rewrite Hmark. }
  assert (whole_lines (to_ascii_lowercase pre)) as Hpre'.
  { destruct Hpre as [->|[p ->]]; [by left|right]. exists (to_ascii_lowercase p). apply to_lower_app. }
  assert (empty_or_line (to_ascii_lowercase post)) as Hpost'.
  { destruct Hpost as [->|[p ->]]; [by left|right]. by exists (to_ascii_lowercase p). }
  assert (typable (to_ascii_lowercase text)) as Ht'.
  { destruct Ht as [H1 H2]. split; [by apply lower_not_in|by apply lower_last]. }
  assert (typable []) as Hnil by (split; [apply not_elem_of_nil|done]).
  pose proof (best_rule_chosen (rules m) (pre ++ box ind marker text ++ post) title) as H1.
  pose proof (best_rule_chosen (rules m) (pre ++ box ind marker [] ++ post) title) as H2.
  rewrite Hlow in H1, H2. destruct (best_rule (rules m) (pre ++ box ind marker text ++ post) title) as [r|];
    cbn [chosen] in H1.
  2:{ intros [= <-] (s & Hs & Ha). cbn in Hs. injection Hs as <-. done. }
  intros [= <-] (s & Hs & Ha). cbn in Hs. injection Hs as <-.
  assert (r ∈ rules m /\ shown (to_ascii_lowercase pre ++ box ind marker (to_ascii_lowercase text) ++ to_ascii_lowercase post)
    (to_ascii_lowercase title) r = true) as [Hr Hshown].
  { destruct H1 as (l1 & l2 & -> & Hf & _). split; [|done]. apply elem_of_app. right. left. }
  assert (Hall : forall x, x ∈ rules m -> inert marker x = true) by (by apply Forall_forall).
  assert (is_whitespace marker = false) as Hsp.
  { specialize (Hall r Hr). unfold inert in Hall. rewrite !andb_true_iff, !negb_true_iff in Hall. tauto. }
  assert (first_best (shown (to_ascii_lowercase pre ++ box ind marker [] ++ to_ascii_lowercase post)
    (to_ascii_lowercase title)) (rules m) r) as H3.
  { eapply first_best_shrinks; [| |exact H1].
    - intros x Hx. unfold shown, region_text. rewrite !andb_true_iff. intros [He Hx']. split; [done|].
      destruct (region x); [|done]. eapply box_grows; eauto.
    - unfold shown, region_text in Hshown |- *. rewrite andb_true_iff in Hshown |- *. destruct Hshown as [He Hx].
      split; [done|]. destruct (region r) eqn:Hreg; [|done].
      exact (box_activity _ _ _ _ Hpre' Hind Hnl Hpost' Hsp r _ [] (Hall r Hr) Ha Hreg Ht' Hnil Hx). }
  eapply (chosen_some first_best _ _ r) in H2 as ->; [done| |].
  - intros r' Hr'. by eapply first_best_unique.
  - exists r. split; [done|]. by destruct H3 as (l1 & l2 & _ & Hf & _).
Qed.

(** Two bundled providers have an activity rule without an anchor. *)
Definition UNANCHORED : list str := [lit "cursor"; lit "gemini"].

Lemma prompts_inert :
  forallb (fun b => mem (m_id b) UNANCHORED
    || forallb (fun marker => (ascii_lower marker =? marker)
         && forallb (inert marker) (bundled_rules (m_rules b))) PROMPTS) BUILT_INS = true.
Proof. vm_compute. reflexivity. Qed.

(** Whatever is typed behind the prompt marker of an input box, a bundled
    provider, but for two of them, does not look busy for it: if it looks busy
    with the text, it is found busy by the same rule without. *)
Theorem typed_text_inert c b pre ind marker text post title v :
  b ∈ BUILT_INS -> mem (m_id b) UNANCHORED = false -> marker ∈ PROMPTS ->
  manifest_of c (m_id b) = Some (bundled_manifest b) ->
  whole_lines pre -> Forall (fun c => is_whitespace c = true) ind -> 10 ∉ ind ->
  typable text -> empty_or_line post ->
  screen c (m_id b) (pre ++ box ind marker text ++ post) title = Some v ->
  (exists s, m_status v = Some s /\ activity s = true) ->
  screen c (m_id b) (pre ++ box ind marker [] ++ post) title = Some v.
Proof.
  intros Hb Hid Hmark Hm. pose proof prompts_inert as H. rewrite forallb_forall in H.
  specialize (H b ltac:(by apply list_elem_of_In)). rewrite Hid, orb_false_l, forallb_forall in H.
  specialize (H marker ltac:(by apply list_elem_of_In)). apply andb_true_iff in H as [Hlow%N.eqb_eq Hin].
  apply (busy_without_text c _ (bundled_manifest b)); try done. apply Forall_forall. intros r Hr.
  rewrite forallb_forall in Hin. apply Hin. by apply list_elem_of_In.
Qed.
End Typed.

(** ** Layers *)

Lemma bind_ok {A B} (r : result A ManifestError) (k : A -> result B ManifestError) b :
  bind r k = Ok b -> exists a, r = Ok a /\ k a = Ok b.
Proof. destruct r as [a|e]; cbn; [|done]. eauto. Qed.

Lemma ensure_ok b e u : ensure b e = Ok u -> b = true.
Proof. by destruct b. Qed.

Section Layers.
Context {E : Env}.

Lemma validate_provider_fresh ids owners total p next :
  validate_provider ids owners total p = Ok next -> pd_id p ∉ ids.
Proof.
  unfold validate_provider. intros (_ & _ & H)%bind_ok. apply bind_ok in H as (u & Hu%ensure_ok & _).
  apply negb_true_iff in Hu. by rewrite <- mem_spec, Hu.
Qed.

Lemma validate_providers_ids ids owners total ps u :
  validate_providers ids owners total ps = Ok u -> NoDup (map pd_id ps) /\ forall p, p ∈ ps -> pd_id p ∉ ids.
Proof.
  revert ids owners total. induction ps as [|p ps IH]; intros ids owners total; cbn [validate_providers].
  - intros _. split; [constructor|]. by intros p ?%elem_of_nil.
  - intros (next & Hp%validate_provider_fresh & H)%bind_ok. apply IH in H as [Hnd Hout]. split.
    + cbn. constructor; [|done]. intros Hin. apply list_elem_of_In, in_map_iff in Hin as (q & Hq & Hin).
      apply (Hout q); [by apply list_elem_of_In|]. rewrite Hq. left.
    + intros q [->|Hq]%elem_of_cons; [done|]. specialize (Hout q Hq). rewrite not_elem_of_cons in Hout. tauto.
Qed.

Lemma validate_document_ids d u : validate_document d = Ok u -> NoDup (map pd_id (providers d)).
Proof.
  unfold validate_document. intros (_ & _ & H)%bind_ok. apply bind_ok in H as (_ & _ & H).
  apply bind_ok in H as (_ & _ & H). by apply validate_providers_ids in H as [? _].
Qed.

Lemma parse_document_ids bytes d : parse_document bytes = Ok d -> NoDup (map pd_id (providers d)).
Proof.
  unfold parse_document. destruct (document_json bytes) as [d'|]; [|done].
  intros (u & H%validate_document_ids & [= <-])%bind_ok. done.
Qed.

(** A document with its source and precedence, and its definition of [id]. *)
Definition layered : Type := ManifestDocument * DetectionSource * N.

Definition layer (l : option layered) (id : str) : option CompiledManifest :=
  '(d, s, n) ← l; p ← find_by (fun p => str_eqb (pd_id p) id) (providers d);
  Some (compile_provider p s (manifest_version d) n).

Definition keyed (m : gmap str CompiledManifest) : Prop := forall k c, m !! k = Some c -> c_id c = k.

Lemma selected_insert m c : keyed m -> keyed (<[c_id c := c]> m).
Proof.
  intros Hm k c'. destruct (decide (c_id c = k)) as [<-|Hk].
  - rewrite lookup_insert_eq. by intros [= <-].
  - rewrite lookup_insert_ne by done. apply Hm.
Qed.

Lemma insert_document_spec m d s n id : NoDup (map pd_id (providers d)) -> keyed m ->
  keyed (insert_document m d s n)
  /\ insert_document m d s n !! id = match layer (Some (d, s, n)) id with Some c => Some c | None => m !! id end.
Proof.
  unfold insert_document, layer. cbn [mbind option_bind]. generalize (providers d) as ps. intros ps.
  revert m. induction ps as [|p ps IH]; intros m; [done|]. cbn [map foldl]. intros [Hp Hnd]%NoDup_cons Hm.
  rewrite find_by_cons. destruct (IH (<[pd_id p := compile_provider p s (manifest_version d) n]> m) Hnd) as [Hk Hl].
  { apply (selected_insert m (compile_provider p s (manifest_version d) n) Hm). }
  split; [done|]. rewrite Hl. unfold str_eqb. case_bool_decide as Hid.
  - subst id. destruct (find_by _ ps) as [q|] eqn:Hq.
    + exfalso. apply find_by_some in Hq as [Hq He%bool_decide_eq_true]. apply Hp.
      apply list_elem_of_In, in_map_iff. exists q. split; [done|by apply list_elem_of_In].
    + cbn. by rewrite lookup_insert_eq.
  - destruct (find_by _ ps) as [q|]; [done|]. cbn. by rewrite lookup_insert_ne.
Qed.

Lemma select_bundled_spec : keyed select_bundled
  /\ forall id, select_bundled !! id = find_by (fun c => str_eqb (c_id c) id) bundled.
Proof.
  unfold select_bundled. assert (NoDup (map c_id bundled)) as Hnd.
  { apply (bool_decide_unpack _). vm_compute. exact I. }
  assert (forall cs m, NoDup (map c_id cs) -> keyed m ->
    keyed (foldl (fun m c => <[c_id c := c]> m) m cs)
    /\ forall id, foldl (fun m c => <[c_id c := c]> m) m cs !! id
       = match find_by (fun c => str_eqb (c_id c) id) cs with Some c => Some c | None => m !! id end) as H.
  { clear Hnd. induction cs as [|c cs IH]; intros m; [by intros _ ?|]. cbn [map foldl]. intros [Hc Hnd]%NoDup_cons Hm.
    destruct (IH (<[c_id c := c]> m) Hnd (selected_insert m c Hm)) as [Hk Hl]. split; [done|]. intros id.
    rewrite Hl, find_by_cons. unfold str_eqb. case_bool_decide as Hid.
    - subst id. destruct (find_by _ cs) as [q|] eqn:Hq.
      + exfalso. apply find_by_some in Hq as [Hq He%bool_decide_eq_true]. apply Hc.
        apply list_elem_of_In, in_map_iff. exists q. split; [done|by apply list_elem_of_In].
      + by rewrite lookup_insert_eq.
    - destruct (find_by _ cs) as [q|]; [done|]. by rewrite lookup_insert_ne. }
  destruct (H bundled ∅ Hnd) as [H1 H2]; [by intros k c; rewrite lookup_empty|]. split; [done|].
  intros id. rewrite H2, lookup_empty. by destruct (find_by _ _).
Qed.

Lemma before_total a b : before a b = false -> before b a = true.
Proof.
  unfold before. rewrite !orb_false_iff, !orb_true_iff, !andb_false_iff, !andb_true_iff, !N.ltb_ge, !N.ltb_lt, !N.eqb_eq, !N.eqb_neq.
  intros [H [Hn|H']]; [left; lia|]. apply bytes_leb_total in H'.
  destruct (N.eq_dec (precedence a) (precedence b)) as [Heq|Hne]; [right; by split|left; lia].
Qed.

Lemma before_trans a b c : before a b = true -> before b c = true -> before a c = true.
Proof.
  unfold before. rewrite !orb_true_iff, !andb_true_iff, !N.ltb_lt, !N.eqb_eq.
  intros [H1|[H1 L1]] [H2|[H2 L2]]; [left; lia..|]. right. split; [congruence|]. by eapply bytes_leb_trans.
Qed.

Lemma sorted_elem m c : keyed m -> c ∈ sorted m <-> m !! c_id c = Some c.
Proof.
  intros Hm. unfold sorted. rewrite sort_by_elem, list_elem_of_fmap. split.
  - intros ([k c'] & -> & Hin%elem_of_map_to_list). cbn. by rewrite (Hm _ _ Hin).
  - intros H. exists (c_id c, c). split; [done|]. by apply elem_of_map_to_list.
Qed.

Lemma sorted_find m id : keyed m -> find_by (fun c => str_eqb (c_id c) id) (sorted m) = m !! id.
Proof.
  intros Hm. destruct (find_by _ _) as [c|] eqn:H.
  - apply find_by_some in H as [Hc <-%bool_decide_eq_true]. symmetry. by apply sorted_elem.
  - destruct (m !! id) as [c|] eqn:Hc; [|done]. pose proof (Hm _ _ Hc) as <-.
    apply (sorted_elem m c Hm), (find_by_none _ _ H), bool_decide_eq_false in Hc. done.
Qed.

Lemma sorted_ids m : keyed m -> NoDup (map c_id (sorted m)).
Proof.
  intros Hm. unfold sorted. rewrite (Permutation_map c_id (sort_by_perm before _)).
  assert (map c_id (map_to_list m).*2 = (map_to_list m).*1) as ->; [|apply NoDup_fst_map_to_list].
  assert (forall l, (forall k c, (k, c) ∈ l -> c_id c = k) -> map c_id (l.*2) = l.*1) as H.
  { induction l as [|[k c] l IH]; intros Hl; [done|]. cbn. f_equal; [apply Hl; left|].
    apply IH. intros k' c' Hin. apply Hl. by right. }
  apply H. intros k c Hin%elem_of_map_to_list. by apply Hm.
Qed.

(** The documents a load accepts. *)
Definition local_layer (local : option FileRead) : option layered :=
  f ← local; match read_document f with Ok (Some d) => Some (d, LocalOverride, LOCAL_PRECEDENCE) | _ => None end.

Definition cached_layer (cache : option (FileRead * FileRead)) (last_good : option FileRead) : option layered :=
  match f ← cache; match read_verified f with Ok (Some (d, _)) => Some (d, VerifiedCache, CACHE_PRECEDENCE) | _ => None end with
  | Some l => Some l
  | None => f ← last_good; match read_last_good f with Ok (Some (d, _)) => Some (d, LastKnownGood, LAST_GOOD_PRECEDENCE) | _ => None end
  end.

Definition sound (l : option layered) : Prop :=
  match l with Some (d, _, _) => NoDup (map pd_id (providers d)) | None => True end.

Lemma local_sound local : sound (local_layer local).
Proof.
  destruct local as [f|]; cbn; [|done]. destruct (read_document f) as [[d|]|] eqn:H; [|done..]. cbn.
  apply bind_ok in H as ([bytes|] & _ & H); [|done]. by apply bind_ok in H as (d' & H%parse_document_ids & [= ->]).
Qed.

Lemma read_verified_sound f d bytes : read_verified f = Ok (Some (d, bytes)) ->
  NoDup (map pd_id (providers d)) /\ parse_document bytes = Ok d.
Proof.
  unfold read_verified. intros ([b|] & _ & H)%bind_ok; [|done]. apply bind_ok in H as ([e|] & _ & H); [|done].
  destruct (from_utf8 e); [|done]. destruct (negb _); [done|]. destruct (negb _); [done|].
  apply bind_ok in H as (d' & Hp & [= -> ->]). split; [by eapply parse_document_ids|done].
Qed.

Lemma read_last_good_sound f d bytes : read_last_good f = Ok (Some (d, bytes)) -> NoDup (map pd_id (providers d)).
Proof.
  unfold read_last_good. intros ([b|] & _ & H)%bind_ok; [|done]. destruct (envelope_json b) as [[dg mf]|]; [|done].
  destruct (negb _); [done|]. by apply bind_ok in H as (d' & Hp%parse_document_ids & [= <- _]).
Qed.

Lemma cached_sound cache last_good : sound (cached_layer cache last_good).
Proof.
  unfold cached_layer. destruct (f ← cache; _) as [[[d s] n]|] eqn:H.
  - destruct cache as [f|]; cbn in H; [|done]. destruct (read_verified f) as [[[d' b]|]|] eqn:Hv; [|done..].
    injection H as -> _ _. by apply read_verified_sound in Hv as [? _].
  - destruct last_good as [f|]; cbn; [|done]. destruct (read_last_good f) as [[[d b]|]|] eqn:Hv; [|done..].
    by apply read_last_good_sound in Hv.
Qed.

Lemma read_cache_layers cache last_good saved :
  (or_last_good (read_cache cache last_good saved).1.1 last_good).1 = cached_layer cache last_good.
Proof.
  unfold read_cache, or_last_good, cached_layer. destruct cache as [f|]; cbn [mbind option_bind].
  - destruct (read_verified f) as [[[d b]|]|e]; cbn.
    + destruct last_good; [|done]. destruct (persist_last_good b), saved; done.
    + destruct last_good as [g|]; [|done]. cbn. by destruct (read_last_good g) as [[[d b]|]|].
    + destruct last_good as [g|]; [|done]. cbn. by destruct (read_last_good g) as [[[d b]|]|].
  - destruct last_good as [g|]; [|done]. cbn. by destruct (read_last_good g) as [[[d b]|]|].
Qed.

(** [insert_document] of a layer that may be missing. *)
Definition put (m : gmap str CompiledManifest) (l : option layered) : gmap str CompiledManifest :=
  match l with Some (d, s, n) => insert_document m d s n | None => m end.

Lemma put_spec m l : sound l -> keyed m ->
  keyed (put m l) /\ forall id, put m l !! id = match layer l id with Some c => Some c | None => m !! id end.
Proof.
  destruct l as [[[d s] n]|]; cbn [put sound]; [|by intros _ ?]. intros Hnd Hm. split.
  - by apply (insert_document_spec m d s n []).
  - intros id. by apply insert_document_spec.
Qed.

Lemma load_manifests local cache last_good saved :
  let c := (load_from_paths local cache last_good saved).1 in
  manifests c = sorted (put (put select_bundled (cached_layer cache last_good)) (local_layer local))
  /\ (activation_valid c = false <-> exists f e, local = Some f /\ read_document f = Err e).
Proof.
  unfold load_from_paths. rewrite <- (read_cache_layers cache last_good saved).
  destruct (read_cache cache last_good saved) as [[cached written] d1]. cbn [fst].
  destruct (or_last_good cached last_good) as [cached' d2]. cbn [fst].
  assert (match cached' with Some (d, s, n) => insert_document select_bundled d s n | None => select_bundled end
    = put select_bundled cached') as -> by done.
  destruct local as [f|]; cbn [local_layer mbind option_bind].
  - destruct (read_document f) as [[d|]|e] eqn:H; cbn; (split; [done|]); split; try done;
      try (intros (f' & e' & [= <-] & He); congruence). intros _. by exists f, e.
  - cbn. split; [done|]. split; [done|]. by intros (f & e & ? & _).
Qed.

(** The catalog takes each provider from the local document, else from the cache
    or, if it has none, the last good one, else from the bundled manifests; a
    document that is rejected counts for nothing, and a local one keeps the
    catalog from being activated. The list is in order and names no provider
    twice. *)
Theorem catalog_layers local cache last_good saved :
  let c := (load_from_paths local cache last_good saved).1 in
  (forall id, manifest_of c id =
    match layer (local_layer local) id with
    | Some m => Some m
    | None => match layer (cached_layer cache last_good) id with
              | Some m => Some m
              | None => find_by (fun m => str_eqb (c_id m) id) bundled
              end
    end)
  /\ NoDup (map c_id (manifests c)) /\ StronglySorted (fun a b => before a b = true) (manifests c)
  /\ (activation_valid c = false <-> exists f e, local = Some f /\ read_document f = Err e).
Proof.
  intros c. destruct (load_manifests local cache last_good saved) as [Hc Hv]. fold c in Hc, Hv.
  destruct select_bundled_spec as [Hk0 Hl0].
  destruct (put_spec _ _ (cached_sound cache last_good) Hk0) as [Hk1 Hl1].
  destruct (put_spec _ _ (local_sound local) Hk1) as [Hk2 Hl2].
  split; [|split; [|split; [|done]]].
  - intros id. unfold manifest_of. rewrite Hc, sorted_find by done. by rewrite Hl2, Hl1, Hl0.
  - rewrite Hc. by apply sorted_ids.
  - rewrite Hc. apply sort_by_sorted; [apply before_total|apply before_trans].
Qed.
End Layers.

(** ** Commands *)

Lemma split_on_word f p c s : Forall (fun x => f x = false) p -> f c = true ->
  split_on f (p ++ c :: s) = p :: split_on f s.
Proof.
  intros Hp Hc. induction Hp as [|x p Hx Hp IH]; cbn; [by rewrite Hc|]. by rewrite Hx, IH.
Qed.

Lemma split_on_one f p : Forall (fun x => f x = false) p -> split_on f p = [p].
Proof. induction 1 as [|x p Hx Hp IH]; cbn; [done|]. by rewrite Hx, IH. Qed.

(** A word of a command. *)
Definition word (s : str) : Prop := Forall (fun c => word_end c = false) s.

Lemma word_lower s : word s -> word (to_ascii_lowercase s).
Proof.
  unfold word, to_ascii_lowercase. rewrite Forall_map. intros H. eapply Forall_impl; [exact H|]. intros c Hc. cbn in *.
  unfold ascii_lower. destruct ((65 <=? c) && (c <=? 90)) eqn:E; [|done].
  apply andb_true_iff in E as [E1%N.leb_le E2%N.leb_le]. apply not_true_is_false. unfold word_end, is_whitespace.
  rewrite !orb_true_iff, !andb_true_iff, !N.eqb_eq, !N.leb_le. lia.
Qed.

Definition interpreter (program : str) : bool :=
  mem (basename program) SHELLS || mem (basename program) INTERPRETERS.

Lemma contains_executable_program program args exe : word program -> interpreter program = false ->
  command_contains_executable (program ++ 32 :: args) exe = command_contains_executable program exe.
Proof.
  unfold word. intros Hw Hi. unfold command_contains_executable. rewrite split_on_word, (split_on_one word_end program) by done.
  unfold interpreter in Hi. apply orb_false_iff in Hi as [-> ->]. by destruct (names _ _).
Qed.

Lemma contains_executable_script program script args exe : word program -> word script ->
  command_contains_executable (program ++ 32 :: script ++ 32 :: args) exe
  = command_contains_executable (program ++ 32 :: script) exe.
Proof.
  unfold word. intros Hp Hs. unfold command_contains_executable. by rewrite !split_on_word, (split_on_one word_end script) by done.
Qed.

Section Process.
Context {E : Env}.

(** Whether a manifest has an executable that the command runs. *)
Definition runs (lower : str) (m : CompiledManifest) : bool :=
  existsb (command_contains_executable lower) (executables m).

Lemma find_by_exists {A} (f : A -> bool) l : existsb f l = bool_decide (is_Some (find_by f l)).
Proof.
  induction l as [|x l IH]; [done|]. rewrite find_by_cons. cbn [existsb]. rewrite IH. by destruct (f x).
Qed.

Lemma process_in_spec command lower ms :
  match process_in command lower ms with
  | Some v => exists l1 m l2, ms = l1 ++ m :: l2 /\ agent v = Some (c_id m) /\ runs lower m = true
      /\ Forall (fun x => runs lower x = false) l1 /\ p_source (provenance_of v) = source m
  | None => Forall (fun x => runs lower x = false) ms
  end.
Proof.
  induction ms as [|m ms IH]; cbn [process_in]; [constructor|].
  assert (runs lower m = bool_decide (is_Some (find_by (command_contains_executable lower) (executables m)))) as Hm
    by apply find_by_exists.
  destruct (find_by _ _) as [exe|].
  - by exists [], m, ms.
  - destruct (process_in _ _ _) as [v|].
    + destruct IH as (l1 & m' & l2 & -> & Ha & Hr & Hl & Hs). exists (m :: l1), m', l2.
      split_and!; try done. by constructor.
    + by constructor.
Qed.

Lemma process_in_agent command command' lower lower' ms :
  (forall exe, command_contains_executable lower exe = command_contains_executable lower' exe) ->
  mbind agent (process_in command lower ms) = mbind agent (process_in command' lower' ms).
Proof.
  intros H. induction ms as [|m ms IH]; cbn [process_in]; [done|].
  assert (find_by (command_contains_executable lower) (executables m)
    = find_by (command_contains_executable lower') (executables m)) as ->; [|by destruct (find_by _ _)].
  induction (executables m) as [|x l IHl]; [done|]. by rewrite !find_by_cons, H, IHl.
Qed.

(** A command is identified by the first manifest of the catalog that names its
    program or, of an interpreter, its script; nothing else of the command
    counts: the arguments of a program are no evidence, nor what follows the
    script of an interpreter. *)
Theorem process_exact c command program script args :
  (match process c command with
   | Some v => exists l1 m l2, manifests c = l1 ++ m :: l2 /\ agent v = Some (c_id m)
       /\ runs (to_ascii_lowercase command) m = true
       /\ Forall (fun x => runs (to_ascii_lowercase command) x = false) l1
       /\ p_source (provenance_of v) = source m
   | None => Forall (fun x => runs (to_ascii_lowercase command) x = false) (manifests c)
   end)
  /\ (word program -> interpreter (to_ascii_lowercase program) = false ->
      mbind agent (process c (program ++ 32 :: args)) = mbind agent (process c program))
  /\ (word program -> word script ->
      mbind agent (process c (program ++ 32 :: script ++ 32 :: args))
      = mbind agent (process c (program ++ 32 :: script))).
Proof.
  assert (Hsp : forall a b, to_ascii_lowercase (a ++ 32 :: b) = to_ascii_lowercase a ++ 32 :: to_ascii_lowercase b).
  { intros a b. by rewrite to_lower_app. }
  split; [apply process_in_spec|]. split.
  - intros Hp%word_lower Hi. apply process_in_agent. intros exe. rewrite Hsp. by apply contains_executable_program.
  - intros Hp%word_lower Hs%word_lower. apply process_in_agent. intros exe. rewrite !Hsp.
    by apply contains_executable_script.
Qed.
End Process.

(** ** The last good document *)

(** What the envelope relies on: a document is UTF-8 text, it is read back,
    JSON escapes no byte of a JSON text to more than two, and a digest has 32
    bytes. *)
Class EnvelopeLaws (E : Env) : Prop := {
  document_text bytes d : document_json bytes = Some d -> is_Some (from_utf8 bytes);
  envelope_read h m : envelope_json (envelope_text h m) = Some (h, m);
  envelope_size h m d : document_json (utf8 m) = Some d ->
    N.of_nat (length (envelope_text h m)) <= 2 * len8 m + len8 h + 32;
  sha256_size bytes : length (sha256 bytes) = 32%nat /\ Forall byte (sha256 bytes) }.

Section LastGood.
Context {E : Env} {L : EnvelopeLaws E}.

Lemma hex_length bytes : length (hex bytes) = (2 * length bytes)%nat.
Proof. induction bytes as [|b bytes IH]; cbn [hex length]; lia. Qed.

Lemma digest_length bytes : len8 (sha256_hex bytes) = 64.
Proof.
  unfold len8, sha256_hex. destruct (sha256_size bytes) as [Hn Hb]. rewrite utf8_ascii; [rewrite hex_length; lia|].
  eapply Forall_impl; [by apply hex_digits|]. intros c Hc%is_hex_small. lia.
Qed.

Lemma read_verified_bound f d bytes : read_verified f = Ok (Some (d, bytes)) ->
  N.of_nat (length bytes) <= MAX_MANIFEST_BYTES.
Proof.
  unfold read_verified, read_bounded, read_bounded_limit.
  destruct f.1 as [| |b]; [done..|]. destruct (N.ltb_spec MAX_MANIFEST_BYTES (N.of_nat (length b))) as [|Hle]; [done|].
  intros ([b'|] & [= <-] & H)%bind_ok. apply bind_ok in H as ([e|] & _ & H); [|done]. destruct (from_utf8 e); [|done].
  destruct (negb _); [done|]. destruct (negb _); [done|]. apply bind_ok in H as (d' & _ & [= _ <-]). done.
Qed.

Lemma last_good_read bytes d : N.of_nat (length bytes) <= MAX_MANIFEST_BYTES -> parse_document bytes = Ok d ->
  exists w, persist_last_good bytes = Some w /\ read_last_good (Contents w) = Ok (Some (d, bytes)).
Proof.
  intros Hlen Hp. assert (exists d', document_json bytes = Some d') as [d' Hd].
  { unfold parse_document in Hp. destruct (document_json bytes) as [d'|]; [by exists d'|done]. }
  destruct (document_text _ _ Hd) as [m Hm]. pose proof (utf8_from_utf8 _ _ Hm) as [Hu _].
  exists (envelope_text (sha256_hex bytes) m). unfold persist_last_good. rewrite Hm. split; [done|].
  unfold read_last_good, read_bounded_limit. rewrite <- Hu in Hd. pose proof (envelope_size (sha256_hex bytes) m d' Hd) as Hs.
  rewrite digest_length in Hs. unfold len8 in Hs. rewrite Hu in Hs.
  destruct (N.ltb_spec MAX_LAST_GOOD_BYTES (N.of_nat (length (envelope_text (sha256_hex bytes) m)))) as [Hlt|_].
  { unfold MAX_LAST_GOOD_BYTES, MAX_MANIFEST_BYTES in *. lia. }
  cbn [bind]. rewrite envelope_read, Hu. unfold str_eqb. rewrite bool_decide_eq_true_2 by done. cbn. by rewrite Hp.
Qed.

(** What a verified cache was is kept: from the file a load saves, a later load
    that finds the cache missing or broken takes the same document, and every
    provider it defines. *)
Theorem last_good_recovers local f old c1 written d bytes cache saved :
  read_verified f = Ok (Some (d, bytes)) ->
  load_from_paths local (Some f) (Some old) true = (c1, written) ->
  (forall f' r, cache = Some f' -> read_verified f' <> Ok (Some r)) ->
  exists w, written = Some w
    /\ forall local id,
      let c := (load_from_paths local cache (Some (Contents w)) saved).1 in
      manifest_of c id = match layer (local_layer local) id with
        | Some m => Some m
        | None => match layer (Some (d, LastKnownGood, LAST_GOOD_PRECEDENCE)) id with
                  | Some m => Some m
                  | None => find_by (fun m => str_eqb (c_id m) id) bundled
                  end
        end.
Proof.
  intros Hv Hload Hbad. destruct (last_good_read bytes d) as (w & Hw & Hr).
  { by eapply read_verified_bound. }
  { by eapply read_verified_sound. }
  exists w. split.
  - unfold load_from_paths, read_cache in Hload. rewrite Hv, Hw in Hload. cbn [or_last_good] in Hload.
    by destruct (match local with Some _ => _ | None => _ end) as [[? ?] ?]; injection Hload as _ <-.
  - intros local' id c. subst c. rewrite (proj1 (catalog_layers local' cache (Some (Contents w)) saved) id).
    assert (cached_layer cache (Some (Contents w)) = Some (d, LastKnownGood, LAST_GOOD_PRECEDENCE)) as ->; [|done].
    unfold cached_layer. destruct cache as [f'|]; cbn [mbind option_bind]; [|by rewrite Hr].
    destruct (read_verified f') as [[[d' b']|]|e] eqn:Hf; [|by rewrite Hr..]. by destruct (Hbad f' (d', b')).
Qed.
End LastGood.

(** ** Concrete runs *)

Definition sample_rule : ManifestRule := {|
  mr_id := lit "r1"; mr_evidence := Screen; mr_status := Permission; mr_pattern := lit "Proceed with it?";
  mr_confidence := 90; mr_dwell_ms := None; mr_anchor := Anywhere; mr_region := Bottom; mr_priority := 50 |}.

(** A document that redefines [claude]. *)
Definition sample_document : ManifestDocument := {|
  schema_version := 1; manifest_version := lit "2026.1";
  providers := [{| pd_id := lit "claude"; executable_aliases := [lit "claude2"];
    pd_capabilities := [CProcess; CScreen; CConnector]; pd_log_path := None; pd_rules := [sample_rule] |}] |}.

#[local] Instance sample_env : Env := {|
  CARGO_PKG_VERSION := lit "1.0.0";
  debug := fun s => 34 :: s ++ [34];
  is_alphanumeric := ascii_alphanumeric;
  now_ms := 7;
  sha256 := fun _ => replicate 32 171;
  document_json := fun bytes => if bool_decide (bytes = lit "{}") then Some sample_document else None;
  envelope_text := fun h m => N.of_nat (length h) :: h ++ m;
  envelope_json := fun l => match l with n :: r => Some (take (N.to_nat n) r, drop (N.to_nat n) r) | [] => None end |}.

Lemma length_utf8 s : (length s <= length (utf8 s))%nat.
Proof.
  induction s as [|c s IH]; [done|]. change (utf8 (c :: s)) with (utf8_char c ++ utf8 s). rewrite length_app.
  pose proof (utf8_char_nonempty c). destruct (utf8_char c); [done|]. cbn. lia.
Qed.

#[local] Instance sample_laws : EnvelopeLaws sample_env.
Proof.
  split.
  - intros bytes d. cbn. case_bool_decide as H; [|done]. intros _. rewrite H. by eexists.
  - intros h m. cbn. rewrite Nat2N.id. by rewrite take_app_length, drop_app_length.
  - intros h m d _. cbn. pose proof (length_utf8 h). pose proof (length_utf8 m). unfold len8. rewrite length_app. lia.
  - intros bytes. cbn. split; [done|]. by repeat constructor.
Qed.

Definition sample_catalog : Catalog := (load_from_paths None None None false).1.

Definition sample_cache : FileRead * FileRead :=
  (Contents (lit "{}"), Contents (sha256_hex (lit "{}") ++ [10])).

(** What a Pane shows: a working line, and the input box. *)
Definition sample_screen : str := ulit "✳ Reading files… (3s)" ++ [10].

Lemma verdicts_exact_witness :
  exists v, screen sample_catalog (lit "claude") sample_screen [] = Some v /\ agent v = Some (lit "claude").
Proof.
  assert (manifest_of sample_catalog (lit "claude") = Some (bundled_manifest claude_MANIFEST)) as Hm by (vm_compute; reflexivity).
  destruct (verdicts_exact (bundled_manifest claude_MANIFEST) sample_catalog sample_screen [] [] [] Hm) as [(v & Hv & Ha & _) _].
  exists v. split; [exact Hv|exact Ha].
Defined.

Lemma typed_text_inert_witness :
  exists v, screen sample_catalog (lit "claude") (sample_screen ++ box [32] 62 (lit "running... now") ++ [10]) [] = Some v
    /\ m_status v = Some Working
    /\ screen sample_catalog (lit "claude") (sample_screen ++ box [32] 62 [] ++ [10]) [] = Some v.
Proof.
  eexists. split; [vm_compute; reflexivity|]. split; [reflexivity|].
  apply (typed_text_inert sample_catalog claude_MANIFEST sample_screen [32] 62 (lit "running... now") [10] []).
  - left.
  - vm_compute. reflexivity.
  - left.
  - vm_compute. reflexivity.
  - right. eexists. unfold sample_screen. reflexivity.
  - by repeat constructor.
  - apply (bool_decide_unpack _). vm_compute. exact I.
  - split; [apply (bool_decide_unpack _); vm_compute; exact I|]. vm_compute. discriminate.
  - right. by exists [].
  - vm_compute. reflexivity.
  - exists Working. split; reflexivity.
Defined.

Lemma process_exact_witness :
  mbind agent (process sample_catalog (lit "/usr/bin/claude" ++ 32 :: lit "codex"))
  = mbind agent (process sample_catalog (lit "/usr/bin/claude")).
Proof.
  destruct (process_exact sample_catalog [] (lit "/usr/bin/claude") [] (lit "codex")) as (_ & H & _).
  apply H; [by repeat constructor|]. vm_compute. reflexivity.
Defined.

Lemma last_good_recovers_witness :
  exists w, (load_from_paths None (Some sample_cache) (Some Missing) true).2 = Some w
    /\ option_map version (manifest_of (load_from_paths None (Some (Unreadable, Missing)) (Some (Contents w)) true).1 (lit "claude"))
       = Some (lit "2026.1").
Proof.
  destruct (load_from_paths None (Some sample_cache) (Some Missing) true) as [c1 written] eqn:Hload.
  destruct (last_good_recovers None sample_cache Missing c1 written sample_document (lit "{}")
    (Some (Unreadable, Missing)) true) as (w & Hw & H).
  - vm_compute. reflexivity.
  - exact Hload.
  - intros f' r [= <-]. vm_compute. discriminate.
  - exists w. split; [exact Hw|]. rewrite (H None (lit "claude")). vm_compute. reflexivity.
Defined.

(** The anchor is not everywhere: what a user types into Gemini's box makes it
    look busy. *)
Example gemini_impersonated :
  mbind m_status (screen sample_catalog (lit "gemini") (box [32] 62 (lit "esc to cancel")) []) = Some Working
  /\ mbind m_status (screen sample_catalog (lit "gemini") (box [32] 62 []) []) = Some Idle.
Proof. vm_compute. split; reflexivity. Qed.

(** Of two rules with one priority a screen takes the first and a log the last. *)
Example ties_differ :
  let rule e s := compile_rule {| mr_id := lit "r"; mr_evidence := e; mr_status := s; mr_pattern := lit "ready";
    mr_confidence := 1; mr_dwell_ms := None; mr_anchor := Anywhere; mr_region := Bottom; mr_priority := 50 |} in
  let m := {| c_id := lit "x"; executables := []; log_path := None; capabilities := []; source := LocalOverride;
    version := []; precedence := 40;
    rules := [rule Screen Permission; rule Screen Idle; rule Log Permission; rule Log Idle] |} in
  mbind m_status (screen {| manifests := [m]; diagnostics := []; activation_valid := true |} (lit "x") (lit "ready") []) = Some Permission
  /\ mbind m_status (match_rules m Log (lit "ready") (lit "session log")) = Some Idle.
Proof. vm_compute. split; reflexivity. Qed.
