(* ===== verification/LaunchSpec.v ===== *)
(** * Launching agents: what it shows

    The shell is specified by the part of POSIX the lines stay in, [posix]: the
    simple commands of a list of words made of single-quoted text, escaped
    characters and lower-case letters, with blanks and [;] between them. *)

From S2P Require Import Prelude Utf8 Lines Cell Agent Orchestrate Text Detect BuiltIns Providers Launch.

(** ** A fragment of the shell's language *)

Inductive mode : Set := Unquoted | Quoted | Escaped.

Record Lex : Set := {
  found : list (list str); argv : list str; word : option str; bare : bool; quoting : mode }.

Definition with_word (s : Lex) (w : str) (b : bool) (m : mode) : Lex :=
  {| found := found s; argv := argv s; word := Some w; bare := b; quoting := m |}.

(** Words with a meaning of their own when they are not quoted. *)
Definition RESERVED : list str :=
  [lit "if"; lit "then"; lit "else"; lit "elif"; lit "fi"; lit "do"; lit "done"; lit "case"; lit "esac"; lit "while";
   lit "until"; lit "for"; lit "in"; lit "function"; lit "select"; lit "time"; lit "coproc"; lit "repeat"; lit "foreach";
   lit "end"; lit "nocorrect"; lit "exit"; lit "exec"; lit "return"; lit "break"; lit "continue"].

Definition end_word (s : Lex) : option Lex :=
  match word s with
  | None => Some s
  | Some w =>
      if bare s && mem w RESERVED then None
      else Some {| found := found s; argv := argv s ++ [w]; word := None; bare := true; quoting := quoting s |}
  end.

Definition end_command (s : Lex) : option Lex :=
  match argv s with
  | [] => None
  | a => Some {| found := found s ++ [a]; argv := []; word := word s; bare := bare s; quoting := quoting s |}
  end.

Definition letter (c : char) : bool := (97 <=? c) && (c <=? 122).

Definition lex_char (s : Lex) (c : char) : option Lex :=
  let w := default [] (word s) in
  if c =? 0 then None
  else match quoting s with
  | Quoted => Some (if c =? 39 then with_word s w false Unquoted else with_word s (w ++ [c]) false Quoted)
  | Escaped => if c =? 10 then None else Some (with_word s (w ++ [c]) false Unquoted)
  | Unquoted =>
      if c =? 39 then Some (with_word s w false Quoted)
      else if c =? 92 then Some (with_word s w false Escaped)
      else if c =? 32 then end_word s
      else if c =? 59 then s ← end_word s; end_command s
      else if letter c then Some (with_word s (w ++ [c]) (bare s) Unquoted)
      else None
  end.

Fixpoint lex (s : Lex) (l : str) : option Lex :=
  match l with [] => Some s | c :: l => s ← lex_char s c; lex s l end.

Definition start : Lex := {| found := []; argv := []; word := None; bare := true; quoting := Unquoted |}.

Definition posix (line : str) : option (list (list str)) :=
  s ← lex start line;
  match quoting s with
  | Unquoted => s ← end_word s; s ← end_command s; Some (found s)
  | _ => None
  end.

Definition octal (d : N) : Prop := 48 <= d < 56.

(** [\ddd] as a byte. *)
Definition octal_byte (a b c : N) : N := (a - 48) * 64 + (b - 48) * 8 + (c - 48).

Fixpoint drop_newlines (l : list N) : list N :=
  match l with 10 :: l' => drop_newlines l' | _ => l end.

Definition strip_newlines (l : list N) : list N := rev (drop_newlines (rev l)).

(** What the lines rely on: [printf] writes a byte as itself and reads the
    escapes used, a substitution drops the newlines at the end of a text without
    NUL, and the shell follows POSIX on the fragment. *)
Class ShellLaws (S : Shell) : Prop := {
  percent_b_nil : percent_b [] = [];
  percent_b_byte b l : b <> 92 -> percent_b (b :: l) = b :: percent_b l;
  percent_b_backslash l : percent_b (92 :: 92 :: l) = 92 :: percent_b l;
  percent_b_octal a b c l : octal a -> octal b -> octal c -> octal_byte a b c < 256 ->
    percent_b (92 :: 48 :: a :: b :: c :: l) = octal_byte a b c :: percent_b l;
  printf_nil : printf_format [] = [];
  printf_byte b l : b <> 92 -> b <> 37 -> printf_format (b :: l) = b :: printf_format l;
  printf_octal a b c l : octal a -> octal b -> octal c -> octal_byte a b c < 256 ->
    printf_format (92 :: a :: b :: c :: l) = octal_byte a b c :: printf_format l;
  substitution_text l : 0 ∉ l -> substitution l = strip_newlines l;
  shell_posix line cs : posix line = Some cs -> commands line = Some cs }.

(** ** Lexing *)

Lemma lex_app s a b : lex s (a ++ b) = lex s a ≫= fun s => lex s b.
Proof.
  revert s. induction a as [|c a IH]; intros s; cbn [lex app]; [done|].
  destruct (lex_char s c) as [s'|]; cbn [mbind option_bind]; [apply IH|done].
Qed.

Definition text (s : str) : Prop := 0 ∉ s.

Lemma text_cons c s : text (c :: s) -> c <> 0 /\ text s.
Proof. unfold text. rewrite not_elem_of_cons. intros [H ?]. split; [congruence|done]. Qed.

(** Characters inside quotes. *)
Lemma lex_quoted s w l : quoting s = Quoted -> word s = Some w -> bare s = false -> text l -> 39 ∉ l ->
  lex s l = Some (with_word s (w ++ l) false Quoted).
Proof.
  revert s w. induction l as [|c l IH]; intros s w Hq Hw Hb Ht Hl.
  - cbn. rewrite app_nil_r. f_equal. destruct s; cbn in *. by subst.
  - apply text_cons in Ht as [Hc Ht]. rewrite not_elem_of_cons in Hl. destruct Hl as [H39 Hl].
    cbn [lex]. unfold lex_char. rewrite Hq, Hw. apply N.eqb_neq in Hc as ->.
    destruct (N.eqb_spec c 39) as [->|_]; [done|]. cbn [mbind option_bind].
    rewrite (IH _ (w ++ [c])) by done. unfold with_word. cbn. by rewrite <- app_assoc.
Qed.

(** The characters of a quoted argument. *)
Lemma lex_quoted_chars s w l : quoting s = Quoted -> word s = Some w -> bare s = false -> text l ->
  lex s (concat (map quoted_char l)) = Some (with_word s (w ++ l) false Quoted).
Proof.
  revert s w. induction l as [|c l IH]; intros s w Hq Hw Hb Ht.
  - cbn. rewrite app_nil_r. f_equal. destruct s; cbn in *. by subst.
  - apply text_cons in Ht as [Hc Ht]. cbn [map concat]. rewrite lex_app.
    assert (lex s (quoted_char c) = Some (with_word s (w ++ [c]) false Quoted)) as ->.
    { unfold quoted_char. apply N.eqb_neq in Hc. destruct (N.eqb_spec c 39) as [->|H39].
      - cbn. unfold lex_char. rewrite Hq, Hw. reflexivity.
      - cbn. unfold lex_char. rewrite Hq, Hw, Hc. apply N.eqb_neq in H39 as ->. reflexivity. }
    cbn [mbind option_bind]. rewrite (IH _ (w ++ [c])) by done. unfold with_word. cbn. by rewrite <- app_assoc.
Qed.

(** A quoted argument where a word may start. *)
Lemma lex_quote s l : quoting s = Unquoted -> word s = None -> text l ->
  lex s (shell_quote l) = Some (with_word s l false Unquoted).
Proof.
  intros Hq Hw Ht. unfold shell_quote. cbn [lex].
  assert (lex_char s 39 = Some (with_word s [] false Quoted)) as -> by (unfold lex_char; rewrite Hq, Hw; reflexivity).
  cbn [mbind option_bind]. rewrite lex_app, (lex_quoted_chars _ []) by done. reflexivity.
Qed.

Lemma lex_spaced s l a : quoting s = Unquoted -> word s = None -> Forall text (l ++ [a]) ->
  lex s (spaced (map shell_quote (l ++ [a])))
  = Some {| found := found s; argv := argv s ++ l; word := Some a; bare := false; quoting := Unquoted |}.
Proof.
  revert s. induction l as [|x l IH]; intros s Hq Hw Ht.
  - cbn [app] in Ht. rewrite Forall_singleton in Ht. cbn [app map spaced]. rewrite lex_quote, app_nil_r by done. reflexivity.
  - apply Forall_cons in Ht as [Hx Ht]. cbn [app map]. rewrite spaced_cons by (destruct l; discriminate).
    rewrite lex_app, lex_quote by done. cbn [mbind option_bind lex].
    assert (lex_char (with_word s x false Unquoted) 32
      = Some {| found := found s; argv := argv s ++ [x]; word := None; bare := true; quoting := Unquoted |}) as -> by reflexivity.
    cbn [mbind option_bind]. rewrite IH by done. cbn. by rewrite <- app_assoc.
Qed.

(** The lifecycle report is one word behind [printf]. *)
Definition plain (s : str) : Prop := text s /\ 39 ∉ s.

Lemma plain_app a b : plain (a ++ b) <-> plain a /\ plain b.
Proof. unfold plain, text. rewrite !not_elem_of_app. tauto. Qed.

Lemma envelope_plain agent event : plain agent -> plain event -> plain (envelope_format agent event).
Proof.
  intros Ha He. unfold envelope_format. rewrite !plain_app.
  split_and!; try done; split; apply (bool_decide_unpack _); vm_compute; exact I.
Qed.

Lemma lex_printf s l : quoting s = Unquoted -> word s = None -> bare s = true -> plain l ->
  lex s (lit "printf '" ++ l ++ [39])
  = Some {| found := found s; argv := argv s ++ [lit "printf"]; word := Some l; bare := false; quoting := Unquoted |}.
Proof.
  intros Hq Hw Hb [Ht Hl]. destruct s as [f a w b q]. cbn in Hq, Hw, Hb. subst w b q. rewrite lex_app.
  assert (lex {| found := f; argv := a; word := None; bare := true; quoting := Unquoted |} (lit "printf '")
    = Some {| found := f; argv := a ++ [lit "printf"]; word := Some []; bare := false; quoting := Quoted |}) as -> by reflexivity.
  cbn [mbind option_bind]. rewrite lex_app, (lex_quoted _ []) by done. reflexivity.
Qed.

(** The wrapped line is three commands. *)
Lemma posix_wrapped id l a : plain id -> Forall text (l ++ [a]) ->
  posix (announce_wrapped id (spaced (map shell_quote (l ++ [a]))))
  = Some [[lit "printf"; envelope_format id (lit "session_start")]; l ++ [a];
          [lit "printf"; envelope_format id (lit "session_end")]].
Proof.
  intros Hid Ht. unfold posix, announce_wrapped, osc777_announce, envelope_printf.
  assert (plain (envelope_format id (lit "session_start")) /\ plain (envelope_format id (lit "session_end"))) as [H1 H2].
  { split; apply envelope_plain; try done; split; apply (bool_decide_unpack _); vm_compute; exact I. }
  rewrite lex_app, lex_printf by done. cbn [mbind option_bind]. rewrite lex_app.
  assert (forall f w, lex {| found := f; argv := [lit "printf"]; word := Some w; bare := false; quoting := Unquoted |} (lit "; ")
    = Some {| found := f ++ [[lit "printf"; w]]; argv := []; word := None; bare := true; quoting := Unquoted |}) as Hsep by done.
  cbn [found argv start app]. rewrite Hsep. cbn [mbind option_bind app].
  rewrite lex_app, lex_spaced by done. cbn [mbind option_bind found argv app]. rewrite lex_app.
  assert (forall f, lex {| found := f; argv := l; word := Some a; bare := false; quoting := Unquoted |} (lit "; ")
    = Some {| found := f ++ [l ++ [a]]; argv := []; word := None; bare := true; quoting := Unquoted |}) as Hsep'.
  { intros f. cbn. by destruct l. }
  rewrite Hsep'. cbn [mbind option_bind]. rewrite lex_printf by done. reflexivity.
Qed.

(** ** Delivery *)

Lemma utf8_text s : Forall scalar s -> text s -> 0 ∉ utf8 s.
Proof.
  induction 1 as [|c s Hc _ IH]; [done|]. intros [Hne Ht]%text_cons.
  change (utf8 (c :: s)) with (utf8_char c ++ utf8 s). rewrite not_elem_of_app. split; [|by apply IH].
  intros Hin. pose proof (utf8_char_bytes c Hc) as H. rewrite Forall_forall in H. specialize (H 0 Hin) as [[?|?] _]; lia.
Qed.

Lemma launch_byte_visible b : b < 256 -> Forall (fun x => is_ascii_control x = false) (launch_byte b).
Proof.
  intros Hb. unfold launch_byte. destruct (N.eqb_spec b 92) as [->|_]; [by repeat constructor|].
  destruct (is_ascii_control b) eqn:H; [|by repeat constructor].
  unfold is_ascii_control in *. rewrite !N.shiftr_div_pow2. change 7 with (N.ones 3). rewrite !N.land_ones.
  change (2 ^ 3) with 8. change (2 ^ 6) with 64.
  assert (b / 64 < 4) by (apply N.div_lt_upper_bound; lia).
  pose proof (N.mod_lt (b / 8) 8 ltac:(lia)). pose proof (N.mod_lt b 8 ltac:(lia)).
  pose proof (N.le_0_l (b / 64)). pose proof (N.le_0_l ((b / 8) mod 8)). pose proof (N.le_0_l (b mod 8)).
  repeat (apply Forall_cons; split; [apply orb_false_iff; rewrite N.ltb_ge, N.eqb_neq; lia|]). constructor.
Qed.

Section Delivery.
Context {S : Shell} {L : ShellLaws S}.

Lemma percent_b_launch b l : b < 256 -> percent_b (launch_byte b ++ l) = b :: percent_b l.
Proof.
  intros Hb. unfold launch_byte. destruct (N.eqb_spec b 92) as [->|Hne]; [apply percent_b_backslash|].
  destruct (is_ascii_control b) eqn:H; [|by apply percent_b_byte]. cbn [app].
  rewrite !N.shiftr_div_pow2. change 7 with (N.ones 3). rewrite !N.land_ones. change (2 ^ 3) with 8. change (2 ^ 6) with 64.
  assert (b / 64 < 4) by (apply N.div_lt_upper_bound; lia).
  pose proof (N.mod_lt (b / 8) 8 ltac:(lia)). pose proof (N.mod_lt b 8 ltac:(lia)).
  pose proof (N.le_0_l (b / 64)). pose proof (N.le_0_l ((b / 8) mod 8)). pose proof (N.le_0_l (b mod 8)).
  assert (octal_byte (48 + b / 64) (48 + (b / 8) mod 8) (48 + b mod 8) = b) as E.
  { unfold octal_byte. pose proof (N.div_mod b 8 ltac:(lia)) as H8. pose proof (N.div_mod (b / 8) 8 ltac:(lia)) as H64.
    rewrite N.Div0.div_div in H64. change (8 * 8) with 64 in H64. lia. }
  rewrite percent_b_octal; [by rewrite E|unfold octal; lia..|by rewrite E].
Qed.

Lemma percent_b_delivery l : Forall (fun b => b < 256) l -> percent_b (concat (map launch_byte l)) = l.
Proof.
  induction 1 as [|b l Hb _ IH]; cbn [map concat]; [apply percent_b_nil|]. by rewrite percent_b_launch, IH.
Qed.

Lemma strip_newlines_id l c : c <> 10 -> strip_newlines (l ++ [c]) = l ++ [c].
Proof.
  intros Hc. unfold strip_newlines. rewrite rev_app_distr. cbn [rev app].
  assert (drop_newlines (c :: rev l) = c :: rev l) as ->; [|by cbn; rewrite rev_involutive].
  cbn. destruct c as [|[[[[]|[]|]|[[]|[]|]|]|[[[]|[]|]|[[]|[]|]|]|]]; done.
Qed.

(** A line is delivered whole: in one line without control characters, which the
    reader decodes to the very command, whatever input follows. *)
Lemma delivery_read command c later :
  Forall scalar (command ++ [c]) -> text (command ++ [c]) -> c < 128 -> c <> 10 ->
  exists line, launch_delivery (command ++ [c]) = line ++ [10]
    /\ Forall (fun x => is_ascii_control x = false) line
    /\ launch_reader (launch_delivery (command ++ [c]) ++ later) = commands (command ++ [c]).
Proof.
  intros Hs Ht Hc Hc10. exists (concat (map launch_byte (utf8 (command ++ [c])))). split; [done|].
  assert (Forall (fun x => is_ascii_control x = false) (concat (map launch_byte (utf8 (command ++ [c]))))) as Hvis.
  { pose proof (utf8_bytes _ Hs) as Hb. induction Hb as [|b l Hb _ IH]; cbn [map concat]; [constructor|].
    apply Forall_app; split; [by apply launch_byte_visible|done]. }
  split; [done|]. unfold launch_reader, launch_delivery. rewrite chunks_record_app.
  - rewrite terminated_app, body_app, percent_b_delivery by (by apply utf8_bytes).
    rewrite substitution_text by (by apply utf8_text). rewrite utf8_app.
    assert (utf8 [c] = [c]) as -> by (apply utf8_ascii; by repeat constructor).
    rewrite strip_newlines_id by done.
    assert (utf8 command ++ [c] = utf8 (command ++ [c])) as ->.
    { rewrite utf8_app. f_equal. symmetry. apply utf8_ascii. by repeat constructor. }
    by rewrite from_utf8_utf8.
  - intros Hin. rewrite Forall_forall in Hvis. specialize (Hvis 10 Hin). done.
Qed.
End Delivery.

(** ** Arguments *)

(** An override that is refused. *)
Definition refused (value flag : option str) : bool :=
  match value with
  | None | Some [] => false
  | Some v => match flag with None => true | Some _ => existsb (N.eqb 0) v end
  end.

Lemma override_spec id value flag label :
  match override id value flag label with
  | Ok _ => refused value flag = false
  | Err _ => refused value flag = true
  end.
Proof. unfold override, refused. destruct value as [[|c v]|]; try done. destruct flag as [f|]; [|done]. by destruct (existsb _ _). Qed.

(** The prompt is one argument, the last, whatever it holds, and no other
    argument depends on it: it is glued to a flag, or it is alone and then, for
    every provider with a manifest, behind [--], so that it cannot be taken for
    an option. The launch fails exactly when a model or a profile is given that
    the provider has no flag for, or that holds NUL. *)
Theorem prompt_is_argument id command model profile :
  let s := launch_spec id in
  if refused model (model_flag s) || refused profile (profile_flag s)
  then exists e, forall prompt, launch_argv id command prompt model profile = Err e
  else exists init lead,
    (forall prompt, launch_argv id command prompt model profile = Ok (command :: init ++ [lead ++ prompt]))
    /\ match prompt_flag s with
       | Some flag => lead = flag ++ [61]
       | None => lead = [] /\ (is_Some (launch_manifest id) -> last init = Some (lit "--"))
       end.
Proof.
  intros s. unfold launch_argv. fold s.
  pose proof (override_spec id model (model_flag s) (lit "model")) as Hm.
  pose proof (override_spec id profile (profile_flag s) (lit "profile")) as Hp.
  destruct (override id model _ _) as [m|e]; [|rewrite Hm; cbn; by exists e].
  destruct (override id profile _ _) as [p|e]; [|rewrite Hm, Hp; cbn; by exists e].
  rewrite Hm, Hp. cbn [orb]. destruct (prompt_flag s) as [flag|].
  - exists (prefix s ++ m ++ p), (flag ++ [61]). split; [|done]. intros prompt. by rewrite <- !app_assoc.
  - exists (prefix s ++ m ++ p ++ (if bool_decide (is_Some (launch_manifest id)) then [lit "--"] else [])), [].
    split; [intros prompt; by rewrite <- !app_assoc|]. split; [done|]. intros H.
    rewrite bool_decide_eq_true_2 by done. by rewrite !app_assoc, last_snoc.
Qed.

(** ** The whole launch *)

(** What a report prints. *)
Definition announcement (agent event : str) : str :=
  27 :: lit "]777;notify;" ++ MARKER ++ lit ";{" ++ [34] ++ lit "agent" ++ [34; 58; 34] ++ agent
  ++ [34; 44; 34] ++ lit "event" ++ [34; 58; 34] ++ event ++ [34] ++ lit "}" ++ [7].

(** Without a meaning of its own in a format. *)
Definition literal (s : str) : Prop := 92 ∉ s /\ 37 ∉ s.

Lemma utf8_literal s : Forall scalar s -> literal s -> literal (utf8 s).
Proof.
  induction 1 as [|c s Hc _ IH]; [done|]. unfold literal in *. rewrite !not_elem_of_cons. intros [[H92 Hs] [H37 Hs']].
  change (utf8 (c :: s)) with (utf8_char c ++ utf8 s). rewrite !not_elem_of_app.
  pose proof (utf8_char_bytes c Hc) as H. rewrite Forall_forall in H.
  split; (split; [|by apply IH]); intros Hin; specialize (H _ Hin) as [[?|?] _]; lia.
Qed.

Section Launch.
Context {S : Shell} {L : ShellLaws S}.

Lemma printf_literal l r : literal l -> printf_format (l ++ r) = l ++ printf_format r.
Proof.
  intros [H1 H2]. induction l as [|b l IH]; [done|]. rewrite not_elem_of_cons in H1, H2.
  destruct H1 as [Hb1 H1], H2 as [Hb2 H2]. cbn [app]. rewrite printf_byte, IH by (done || congruence). done.
Qed.

Lemma printf_announces agent event : Forall scalar agent -> literal agent -> Forall scalar event -> literal event ->
  printf_format (utf8 (envelope_format agent event)) = utf8 (announcement agent event).
Proof.
  intros Ha Hla He Hle. unfold envelope_format, announcement.
  change (27 :: ?x) with ([27] ++ x). change (lit "\033]777;notify;") with ([92; 48; 51; 51] ++ lit "]777;notify;").
  change (lit "}\007") with (lit "}" ++ [92; 48; 48; 55]).
  rewrite <- !app_assoc. rewrite !utf8_app.
  pose proof (utf8_literal _ Ha Hla). pose proof (utf8_literal _ He Hle).
  change (utf8 [92; 48; 51; 51]) with [92; 48; 51; 51]. change (utf8 [92; 48; 48; 55]) with [92; 48; 48; 55].
  cbn [app]. rewrite printf_octal by (unfold octal, octal_byte; lia).
  change (octal_byte 48 51 51 :: ?x) with (utf8 [27] ++ x). f_equal.
  repeat (rewrite printf_literal; [f_equal|first [done|split; apply (bool_decide_unpack _); vm_compute; exact I]]).
  rewrite printf_octal by (unfold octal, octal_byte; lia). by rewrite printf_nil.
Qed.

(** Text of a command line: scalar values other than NUL. *)
Definition good (s : str) : bool :=
  forallb (fun c => negb (c =? 0) && ((c <? 55296) || ((57344 <=? c) && (c <? 1114112)))) s.

Lemma good_spec s : good s = true <-> text s /\ Forall scalar s.
Proof.
  unfold good, text. induction s as [|c s IH].
  - split; [|done]. intros _. split; [apply not_elem_of_nil|constructor].
  - cbn [forallb]. rewrite !andb_true_iff, IH, not_elem_of_cons, Forall_cons. unfold scalar.
    rewrite negb_true_iff, N.eqb_neq, orb_true_iff, andb_true_iff, !N.ltb_lt, N.leb_le. intuition congruence.
Qed.

Lemma good_app a b : good (a ++ b) = good a && good b.
Proof. apply forallb_app. Qed.

Lemma good_cons c s : good (c :: s) = good [c] && good s.
Proof. apply (good_app [c] s). Qed.

Lemma good_quote s : good s = true -> good (shell_quote s) = true.
Proof.
  intros H. unfold shell_quote. rewrite good_cons, good_app. apply andb_true_iff. split; [done|].
  apply andb_true_iff. split; [|done]. induction s as [|c s IH]; [done|]. rewrite good_cons in H.
  apply andb_true_iff in H as [Hc Hs]. cbn [map concat]. rewrite good_app, IH, andb_true_r by done.
  unfold quoted_char. by destruct (c =? 39).
Qed.

Lemma good_spaced l : Forall (fun s => good s = true) l -> good (spaced (map shell_quote l)) = true.
Proof.
  induction 1 as [|s l Hs Hl IH]; [done|]. destruct l as [|t l]; [by apply good_quote|].
  change (spaced (map shell_quote (s :: t :: l))) with (shell_quote s ++ 32 :: spaced (map shell_quote (t :: l))).
  rewrite good_app, good_cons, IH, good_quote by done. done.
Qed.

Lemma spec_good id : Forall (fun s => good s = true) (prefix (launch_spec id))
  /\ match prompt_flag (launch_spec id) with Some f => good f = true | None => True end.
Proof.
  unfold launch_spec. repeat (destruct (str_eqb id _); [split; [by repeat constructor|done]|]). by split; [constructor|].
Qed.

Lemma argv_good id command prompt : good command = true -> good prompt = true ->
  exists l a, launch_argv id command prompt None None = Ok (l ++ [a]) /\ Forall (fun s => good s = true) (l ++ [a]).
Proof.
  intros Hc Hp. unfold launch_argv. cbn [override]. destruct (spec_good id) as [Hpre Hf].
  destruct (prompt_flag (launch_spec id)) as [flag|].
  - exists (command :: prefix (launch_spec id)), (flag ++ 61 :: prompt). split; [done|].
    cbn [app]. constructor; [done|]. apply Forall_app; split; [done|]. apply Forall_singleton.
    rewrite good_app, good_cons, Hf, Hp. done.
  - exists (command :: prefix (launch_spec id) ++ if bool_decide (is_Some (launch_manifest id)) then [lit "--"] else []), prompt.
    split; [by cbn; rewrite <- app_assoc|]. cbn [app]. constructor; [done|].
    repeat apply Forall_app_2; [done| |by apply Forall_singleton]. case_bool_decide; [by repeat constructor|constructor].
Qed.

Lemma good_announce id event : good id = true -> good event = true -> good (osc777_announce id event) = true.
Proof.
  intros Hi He. unfold osc777_announce, envelope_printf, envelope_format. rewrite !good_app, Hi, He. reflexivity.
Qed.

(** A launch runs what it says. Whatever the prompt and the path of the
    executable hold, the line sent to the launch reader is one line without
    control characters, and from it the shell runs three commands: the report
    of the start, the agent with exactly the provider's arguments, and the
    report of the end; and these print the two lifecycle envelopes. The
    provider's id must hold no quote, backslash or percent sign. *)
Theorem launch_exact id command prompt later :
  good id = true -> 39 ∉ id -> literal id -> good command = true -> good prompt = true ->
  exists argv inv line,
    launch_argv id command (prompt ++ 32 :: GUIDANCE) None None = Ok argv
    /\ launch_invocation id command prompt = Some inv
    /\ launch_delivery (announce_wrapped id inv) = line ++ [10]
    /\ Forall (fun b => is_ascii_control b = false) line
    /\ launch_reader (launch_delivery (announce_wrapped id inv) ++ later)
       = Some [[lit "printf"; envelope_format id (lit "session_start")]; argv;
               [lit "printf"; envelope_format id (lit "session_end")]]
    /\ forall event, event ∈ [lit "session_start"; lit "session_end"] ->
         printf_format (utf8 (envelope_format id event)) = utf8 (announcement id event).
Proof.
  intros Hid Hq Hlit Hc Hp. assert (good (prompt ++ 32 :: GUIDANCE) = true) as Hp'.
  { rewrite good_app, Hp. vm_compute. reflexivity. }
  destruct (argv_good id command _ Hc Hp') as (l & a & Hargv & Hgood).
  pose proof Hid as [Htid Hsid]%good_spec.
  assert (launch_invocation id command prompt = Some (spaced (map shell_quote (l ++ [a])))) as Hinv.
  { unfold launch_invocation. rewrite Hargv. f_equal. unfold shell_join. by destruct l. }
  assert (exists w, announce_wrapped id (spaced (map shell_quote (l ++ [a]))) = w ++ [39]) as [w Hw].
  { unfold announce_wrapped, osc777_announce at 2, envelope_printf. rewrite !app_assoc. by eexists. }
  assert (good (announce_wrapped id (spaced (map shell_quote (l ++ [a])))) = true) as Hline.
  { unfold announce_wrapped. rewrite !good_app, !good_announce, good_spaced by done. reflexivity. }
  rewrite Hw in Hline. apply good_spec in Hline as [Ht Hs].
  destruct (delivery_read w 39 later Hs Ht ltac:(lia) ltac:(lia)) as (line & Hd & Hv & Hr).
  exists (l ++ [a]), (spaced (map shell_quote (l ++ [a]))), line. rewrite Hw. split_and!; try done.
  - rewrite Hr, <- Hw. apply shell_posix, posix_wrapped; [by split|].
    eapply Forall_impl; [exact Hgood|]. intros s Hs'%good_spec. by destruct Hs'.
  - intros event Hev. apply printf_announces; try done;
      (apply elem_of_cons in Hev as [->|Hev]; [|apply list_elem_of_singleton in Hev as ->]).
    + apply (bool_decide_unpack _). vm_compute. exact I.
    + apply (bool_decide_unpack _). vm_compute. exact I.
    + split; apply (bool_decide_unpack _); vm_compute; exact I.
    + split; apply (bool_decide_unpack _); vm_compute; exact I.
Qed.
End Launch.

(** The registry's ids may stand in a report. *)
Lemma registry_ids : Forall (fun p => good (p_id p) = true /\ 39 ∉ p_id p /\ literal (p_id p)) PROVIDERS.
Proof.
  repeat (apply Forall_cons; split; [split; [reflexivity|]; repeat split; apply (bool_decide_unpack _); vm_compute; exact I|]).
  constructor.
Qed.

(** ** Resolution *)

Lemma find_map_some {A B} (f : A -> option B) l y : find_map f l = Some y -> exists x, x ∈ l /\ f x = Some y.
Proof.
  induction l as [|x l IH]; cbn; [done|]. destruct (f x) as [z|] eqn:H.
  - intros [= ->]. exists x. split; [left|done].
  - intros (x' & Hx' & Hf)%IH. exists x'. split; [by right|done].
Qed.

Section Identity.
Context {E : Env} {F : Files}.

(** Where a command was found. *)
Definition located (requested command : str) (search_path : list str) : Prop :=
  executable_file command = true
  /\ (command = requested \/ exists directory, directory ∈ search_path /\ command = join_path directory requested).

Lemma executable_located cmd search_path command : executable_on_search_path cmd search_path = Some command ->
  located cmd command search_path.
Proof.
  unfold executable_on_search_path, located. destruct (existsb slash cmd).
  - destruct (executable_file cmd) eqn:H; [|done]. intros [= <-]. auto.
  - intros (d & Hd & H)%find_map_some. destruct (executable_file (join_path d cmd)) eqn:Hx; [|done].
    injection H as <-. eauto.
Qed.

Lemma resolve_id_spec search_path name id command : resolve_id search_path name = Some (id, command) ->
  (exists m p exe, launch_manifest name = Some m /\ provider (m_id m) = Some p /\ id = p_id p
     /\ exe ∈ m_executables m /\ located exe command search_path)
  /\ (launch_identity command = None \/ launch_identity command = Some id).
Proof.
  unfold resolve_id. intros (m & Hm & H)%bind_Some. apply bind_Some in H as (p & Hp & H).
  apply find_map_some in H as (exe & Hexe & H). apply bind_Some in H as (c & Hc & H).
  assert (c = command /\ id = p_id p /\ (launch_identity c = None \/ launch_identity c = Some (p_id p))) as (-> & -> & Hi).
  { destruct (launch_identity c) as [x|]; [|injection H as <- <-; auto].
    destruct (str_eqb x (p_id p)) eqn:Hx; [|done]. apply bool_decide_eq_true in Hx as ->. injection H as <- <-. auto. }
  split; [|done]. exists m, p, exe. split_and!; try done. by apply executable_located.
Qed.

(** A request that is launched as it stands extends the id of a provider. *)
Lemma literal_request search_path n command : resolve_alias search_path (Some n) = None ->
  executable_on_search_path n search_path = Some command -> provider n <> None.
Proof. intros Ha Hc Hn. unfold resolve_alias in Ha. cbn [mbind option_bind] in Ha. by rewrite Hn, Hc in Ha. Qed.

(** A resolved agent is an executable file, a requested path or a file of the
    search path, and it is not launched under another vendor's name: where the
    executable identifies an agent, this is the id of the launch, except for a
    request that extends a provider's id and names no manifest. *)
Theorem resolve_identity requested search_path id command :
  resolve_agent_on_search_path requested search_path = Some (id, command) ->
  (exists name, located name command search_path
    /\ (requested = Some name
        \/ exists m, m ∈ BUILT_INS /\ name ∈ m_executables m /\ exists p, provider (m_id m) = Some p /\ id = p_id p))
  /\ (forall identity, launch_identity command = Some identity ->
      identity = id
      \/ (requested = Some id /\ is_Some (provider id)
          /\ (forall m, launch_manifest id = Some m -> provider (m_id m) = None))).
Proof.
  assert (Hin : forall n m, launch_manifest n = Some m -> m ∈ BUILT_INS).
  { intros n m. unfold launch_manifest. destruct (find_by _ BUILT_INS) as [m'|] eqn:Hf.
    - intros [= <-]. unfold find_by in Hf. apply fmap_Some in Hf as ([i x] & Hf & ->).
      apply list_find_Some in Hf as (Hf & _). by eapply list_elem_of_lookup_2.
    - intros H. assert (forall l b, (forall x, b = Some x -> x ∈ BUILT_INS) -> (forall x, x ∈ l -> x ∈ BUILT_INS) ->
        foldl min_id b l = Some m -> m ∈ BUILT_INS) as Hfold.
      { clear. induction l as [|x l IH]; intros b Hb Hl; cbn; [apply Hb|]. apply IH; [|intros y Hy; apply Hl; by right].
        intros y. unfold min_id. destruct b as [b|]; [destruct (str_leb _ _)|]; intros [= <-]; auto; apply Hl; left. }
      eapply Hfold; [| |exact H]; [done|]. intros x Hx. by apply list_elem_of_filter in Hx as [_ Hx]. }
  assert (Hid : forall n, resolve_id search_path n = Some (id, command) ->
    (exists name, located name command search_path /\ exists m, m ∈ BUILT_INS /\ name ∈ m_executables m
       /\ exists p, provider (m_id m) = Some p /\ id = p_id p)
    /\ (forall identity, launch_identity command = Some identity -> identity = id)).
  { intros n [(m & p & exe & Hm & Hp & Hi & He & Hl) Hident]%resolve_id_spec. split.
    - exists exe. split; [done|]. exists m. split; [by eapply Hin|]. split; [done|]. by exists p.
    - intros identity Hx. destruct Hident; congruence. }
  unfold resolve_agent_on_search_path. destruct (resolve_alias search_path requested) as [[i c]|] eqn:Ha.
  - intros [= <- <-]. unfold resolve_alias in Ha. apply bind_Some in Ha as (alias & -> & Ha).
    destruct (provider alias) as [p|] eqn:Hp; [done|]. apply bind_Some in Ha as (c' & Hc & Ha). injection Ha as <- <-.
    split; [exists alias; split; [by apply executable_located|by left]|]. intros identity ->. by left.
  - destruct requested as [n|].
    + destruct (launch_manifest n) as [m|] eqn:Hm; [case_bool_decide as Hp|].
      * intros [(name & Hloc & Hrest) Hident]%Hid. split; [exists name; auto|]. intros x Hx. left. auto.
      * intros (c & Hc & H)%bind_Some. injection H as <- <-.
        split; [exists n; split; [by apply executable_located|by left]|]. intros x Hx. right. split; [done|].
        pose proof (literal_request _ _ _ Ha Hc) as Hpn.
        split; [by destruct (provider n)|]. intros m' Hm'. rewrite Hm in Hm'. injection Hm' as <-.
        by destruct (provider (m_id m)); [exfalso; apply Hp; eexists|].
      * intros (c & Hc & H)%bind_Some. injection H as <- <-.
        split; [exists n; split; [by apply executable_located|by left]|]. intros x Hx. right. split; [done|].
        pose proof (literal_request _ _ _ Ha Hc) as Hpn.
        split; [by destruct (provider n)|]. intros m' Hm'. congruence.
    + intros (p & Hp & H)%find_map_some. apply Hid in H as [(name & Hloc & Hrest) Hident].
      split; [exists name; auto|]. intros x Hx. left. auto.
Qed.
End Identity.

(** ** Roles *)

Section RoleProviders.
Context (resolve : option str -> option (str * str)).

(** What is asked for the role at [i]: its own selection, else the global one. *)
Definition requested_for (rs : list Role) (ss : list RoleProviderSelection) (global : option str) (i : nat) : option str :=
  match chosen rs ss i with Some p => Some p | None => global end.

Definition bad_global (global : option str) : bool :=
  match global with Some p => is_empty p || (256 <? len8 p) | None => false end.

Definition selections_ok (rs : list Role) (ss : list RoleProviderSelection) : Prop :=
  Forall (selection_ok rs) ss /\ NoDup (map sel_role ss).

Lemma resolve_role_ok global role selected p : resolve_role resolve global role selected = Ok p ->
  resolve (match selected with Some s => Some s | None => global end) = Some (rp_id p, rp_command p)
  /\ Forall (fun c => c = lit "interactive_cli") (Orchestrate.capabilities (provider_requirement role)).
Proof.
  unfold resolve_role. destruct (resolve _) as [[id command]|]; [|done]. destruct (find_by _ _) as [c|] eqn:Hf; [done|].
  intros [= <-]. split; [done|]. apply Forall_forall. intros c Hc. unfold find_by in Hf. apply fmap_None, list_find_None in Hf.
  rewrite Forall_forall in Hf. specialize (Hf c Hc). apply not_true_is_false, negb_false_iff, bool_decide_eq_true in Hf. done.
Qed.

Lemma resolve_roles_spec global rs al : length al = length rs ->
  match resolve_roles resolve global rs al with
  | Ok ps => length ps = length rs /\ forall i r s, rs !! i = Some r -> al !! i = Some s ->
      exists p, ps !! i = Some p /\ resolve_role resolve global r s = Ok p
  | Err e => exists i r s, rs !! i = Some r /\ al !! i = Some s /\ resolve_role resolve global r s = Err e
      /\ forall j r s, (j < i)%nat -> rs !! j = Some r -> al !! j = Some s -> is_ok (resolve_role resolve global r s) = true
  end.
Proof.
  revert al. induction rs as [|r rs IH]; intros [|s al] Hlen; try done; cbn [resolve_roles]. injection Hlen as Hlen.
  destruct (resolve_role resolve global r s) as [p|e] eqn:Hr.
  - specialize (IH al Hlen). destruct (resolve_roles _ _ _ _) as [ps|e].
    + destruct IH as [Hl Hps]. split; [cbn; congruence|]. intros [|i] r' s'; cbn; [|apply Hps].
      intros [= <-] [= <-]. by exists p.
    + destruct IH as (i & r' & s' & H1 & H2 & H3 & H4). exists (S i), r', s'. split_and!; try done.
      intros [|j] r'' s'' Hj; cbn; [|apply H4; lia]. intros [= <-] [= <-]. by rewrite Hr.
  - exists 0%nat, r, s. split_and!; try done. intros j. lia.
Qed.

(** Every role gets the agent its selection asks for, else the global one, else
    the default, and only if it is an interactive agent; otherwise the first
    thing wrong is reported: the global provider, the selections, or the first
    role that cannot be filled, all before it can. *)
Theorem role_providers_exact rs global ss :
  match resolve_role_providers_with resolve rs global ss with
  | Ok ps => bad_global global = false /\ selections_ok rs ss /\ length ps = length rs
      /\ forall i r, rs !! i = Some r -> exists p, ps !! i = Some p
           /\ resolve (requested_for rs ss global i) = Some (rp_id p, rp_command p)
           /\ Forall (fun c => c = lit "interactive_cli") (Orchestrate.capabilities (provider_requirement r))
  | Err BadGlobal => bad_global global = true
  | Err (Selection _) => bad_global global = false /\ ~ selections_ok rs ss
  | Err e => bad_global global = false /\ selections_ok rs ss
      /\ exists i r, rs !! i = Some r /\ resolve_role resolve global r (chosen rs ss i) = Err e
           /\ forall j r, (j < i)%nat -> rs !! j = Some r -> is_ok (resolve_role resolve global r (chosen rs ss j)) = true
  end.
Proof.
  unfold resolve_role_providers_with. fold (bad_global global). destruct (bad_global global); [done|].
  destruct (align_selections_spec rs ss) as [(Hs & Hnd & al & -> & Hlen & Hal)|[Hbad [e ->]]]; [|by split].
  pose proof (resolve_roles_spec global rs al Hlen) as H. destruct (resolve_roles _ _ _ _) as [ps|e].
  - destruct H as [Hl Hps]. split; [done|]. split; [done|]. split; [done|]. intros i r Hi.
    pose proof (lookup_lt_Some _ _ _ Hi) as Hlt. destruct (Hps i r _ Hi (Hal i Hlt)) as (p & Hp & Hr).
    apply resolve_role_ok in Hr as [Hr Hc]. exists p. by split_and!.
  - destruct H as (i & r & s & Hi & Hsi & Hr & Hbefore). pose proof (lookup_lt_Some _ _ _ Hi) as Hlt.
    rewrite (Hal i Hlt) in Hsi. injection Hsi as <-.
    assert (bad_global global = bad_global global /\ selections_ok rs ss
      /\ exists i r, rs !! i = Some r /\ resolve_role resolve global r (chosen rs ss i) = Err e
           /\ forall j r, (j < i)%nat -> rs !! j = Some r -> is_ok (resolve_role resolve global r (chosen rs ss j)) = true) as (_ & H1 & H2).
    { split; [done|]. split; [done|]. exists i, r. split_and!; try done. intros j r' Hj Hr'.
      eapply Hbefore; [done..|]. apply Hal. by eapply lookup_lt_Some. }
    destruct e; try (split; [done|by split]).
    + exfalso. unfold resolve_role in Hr. destruct (resolve _) as [[? ?]|]; [destruct (find_by _ _)|destruct (chosen rs ss i), global]; done.
    + exfalso. unfold resolve_role in Hr. destruct (resolve _) as [[? ?]|]; [destruct (find_by _ _)|destruct (chosen rs ss i), global]; done.
Qed.
End RoleProviders.

(** ** Concrete runs *)

Fixpoint sample_percent_b (l : list N) : list N :=
  match l with
  | [] => []
  | b :: l1 =>
      if b =? 92 then
        match l1 with
        | c :: l2 =>
            if c =? 92 then 92 :: sample_percent_b l2
            else match l2 with
            | x :: y :: z :: l3 => octal_byte x y z :: sample_percent_b l3
            | _ => b :: sample_percent_b l1
            end
        | [] => [b]
        end
      else b :: sample_percent_b l1
  end.

Fixpoint sample_printf (l : list N) : list N :=
  match l with
  | [] => []
  | b :: l1 =>
      if b =? 92 then
        match l1 with
        | x :: y :: z :: l2 => octal_byte x y z :: sample_printf l2
        | _ => [b]
        end
      else b :: sample_printf l1
  end.

#[local] Instance sample_shell : Shell := {|
  percent_b := sample_percent_b; printf_format := sample_printf; substitution := strip_newlines; commands := posix |}.

#[local] Instance sample_shell_laws : ShellLaws sample_shell.
Proof.
  split; try done.
  - intros b l Hb. cbn. by apply N.eqb_neq in Hb as ->.
  - intros b l Hb _. cbn. by apply N.eqb_neq in Hb as ->.
Qed.

Lemma launch_exact_witness :
  exists argv, launch_argv (lit "claude") (lit "/opt/it's/claude") (lit "fix `it`; $HOME" ++ [10] ++ 32 :: GUIDANCE) None None = Ok argv
    /\ exists line, launch_reader (launch_delivery line ++ lit "ls")
       = Some [[lit "printf"; envelope_format (lit "claude") (lit "session_start")]; argv;
               [lit "printf"; envelope_format (lit "claude") (lit "session_end")]].
Proof.
  destruct (launch_exact (lit "claude") (lit "/opt/it's/claude") (lit "fix `it`; $HOME" ++ [10]) (lit "ls"))
    as (argv & inv & line & Ha & _ & _ & _ & Hr & _).
  - reflexivity.
  - apply (bool_decide_unpack _). vm_compute. exact I.
  - split; apply (bool_decide_unpack _); vm_compute; exact I.
  - reflexivity.
  - reflexivity.
  - exists argv. split; [rewrite <- Ha; f_equal; by rewrite <- app_assoc|]. eexists. exact Hr.
Defined.

(** The id of a custom agent is the path it was asked for, and stands unquoted in
    the report: a quote in it ends the string, and the shell runs the rest. *)
Definition quoted_path : str := lit "/tmp/x';reboot;'".

Example unquoted_id_runs :
  exists cs, posix (announce_wrapped quoted_path (shell_quote quoted_path)) = Some cs /\ [lit "reboot"] ∈ cs.
Proof. eexists. split; [vm_compute; reflexivity|]. apply (bool_decide_unpack _). vm_compute. exact I. Qed.

#[local] Instance sample_files : Files := {|
  executable_file := fun path => mem path [quoted_path; lit "/usr/bin/codex"]; canonicalize := fun path => Some path |}.

#[local] Instance plain_env : Env := {|
  CARGO_PKG_VERSION := lit "1.0.0"; debug := fun s => s; is_alphanumeric := ascii_alphanumeric; now_ms := 0;
  sha256 := fun _ => []; document_json := fun _ => None; envelope_text := fun _ _ => []; envelope_json := fun _ => None |}.

Lemma resolve_identity_witness :
  exists name, located name (lit "/usr/bin/codex") [lit "/bin"; lit "/usr/bin"].
Proof.
  destruct (resolve_identity (Some (lit "codex")) [lit "/bin"; lit "/usr/bin"] (lit "codex") (lit "/usr/bin/codex")) as [(n & Hn & _) _].
  - vm_compute. reflexivity.
  - exists n. exact Hn.
Defined.

Example quoted_path_resolves :
  resolve_agent_on_search_path (Some quoted_path) [] = Some (quoted_path, quoted_path).
Proof. vm_compute. reflexivity. Qed.

(** Two roles: one with a selection, one with the global provider. *)
Example roles_resolved :
  resolve_role_providers_with (fun r => resolve_agent_on_search_path r [lit "/usr/bin"])
    [Role_new (lit "builder") false; Role_new (lit "verifier") true] (Some (lit "codex"))
    [{| sel_role := lit "verifier"; sel_provider := quoted_path |}]
  = Ok [{| rp_id := lit "codex"; rp_command := lit "/usr/bin/codex" |}; {| rp_id := quoted_path; rp_command := quoted_path |}].
Proof. vm_compute. reflexivity. Qed.
