(* ===== verification/Xorshift.v ===== *)
(** * The generator of activation tokens

    One round of [next_activation_token] in
    [uniterm-server/src/server/orchestration.rs] is a 64-bit xorshift with
    shifts 13, 7 and 17. It is linear over the field of two elements; its
    characteristic polynomial is primitive, so that from any nonzero state the
    rounds run through all the other nonzero states before one comes back. *)

From S2P Require Import Prelude.

(** [value ^= value << 13; value ^= value >> 7; value ^= value << 17] on [u64] *)
Definition scramble (value : N) : N :=
  let value := N.lxor value (N.shiftl value 13 mod U64) in
  let value := N.lxor value (N.shiftr value 7) in
  N.lxor value (N.shiftl value 17 mod U64).

(** The state after a round: [value.max(1)]. *)
Definition advance (state : N) : N := N.max (scramble state) 1.

(** ** The round is linear *)

Lemma mod_U64 a : a mod U64 = N.land a (N.ones 64).
Proof. by rewrite N.land_ones. Qed.

Lemma lt_U64 a : a < U64 <-> N.land a (N.ones 64) = a.
Proof.
  rewrite N.land_ones. split; [intros H; by apply N.mod_small|]. intros <-. apply N.mod_lt. discriminate.
Qed.

Ltac by_bits :=
  apply N.bits_inj; intros ?;
  repeat first [rewrite N.lxor_spec | rewrite N.land_spec | rewrite N.bits_0];
  repeat match goal with |- context [N.testbit ?a ?i] => destruct (N.testbit a i) end; done.

Lemma land_lxor a b m : N.land (N.lxor a b) m = N.lxor (N.land a m) (N.land b m).
Proof. by_bits. Qed.

Lemma lxor_lt a b : a < U64 -> b < U64 -> N.lxor a b < U64.
Proof. rewrite !lt_U64. intros Ha Hb. by rewrite land_lxor, Ha, Hb. Qed.

(** The definition without division. *)
Lemma scramble_land v : scramble v =
  let v := N.lxor v (N.land (N.shiftl v 13) (N.ones 64)) in
  let v := N.lxor v (N.shiftr v 7) in
  N.lxor v (N.land (N.shiftl v 17) (N.ones 64)).
Proof. unfold scramble. by rewrite !mod_U64. Qed.

Definition shear_l (k v : N) : N := N.lxor v (N.land (N.shiftl v k) (N.ones 64)).
Definition shear_r (k v : N) : N := N.lxor v (N.shiftr v k).

Lemma scramble_shears v : scramble v = shear_l 17 (shear_r 7 (shear_l 13 v)).
Proof. apply scramble_land. Qed.

Lemma shear_l_lxor k a b : shear_l k (N.lxor a b) = N.lxor (shear_l k a) (shear_l k b).
Proof. unfold shear_l. rewrite N.shiftl_lxor, land_lxor. by_bits. Qed.

Lemma shear_r_lxor k a b : shear_r k (N.lxor a b) = N.lxor (shear_r k a) (shear_r k b).
Proof. unfold shear_r. rewrite N.shiftr_lxor. by_bits. Qed.

Lemma scramble_lxor a b : scramble (N.lxor a b) = N.lxor (scramble a) (scramble b).
Proof. by rewrite !scramble_shears, shear_l_lxor, shear_r_lxor, shear_l_lxor. Qed.

Lemma scramble_0 : scramble 0 = 0.
Proof. reflexivity. Qed.

Lemma scramble_lt v : v < U64 -> scramble v < U64.
Proof.
  assert (forall k a, a < U64 -> shear_l k a < U64) as Hl.
  { intros k a Ha. apply lxor_lt; [done|]. rewrite N.land_ones. apply N.mod_lt. discriminate. }
  assert (forall k a, a < U64 -> shear_r k a < U64) as Hr.
  { intros k a Ha. apply lxor_lt; [done|]. rewrite N.shiftr_div_pow2. eapply N.le_lt_trans; [|exact Ha].
    apply N.Div0.div_le_upper_bound. pose proof (N.pow_nonzero 2 k ltac:(done)). nia. }
  intros Hv. rewrite scramble_shears. auto.
Qed.

(** ** Polynomials in the round

    A polynomial over the field of two elements is the number of its
    coefficients; [eval p v] is the sum of the rounds of [v] that it names. *)

Fixpoint eval_pos (p : positive) (v : N) : N :=
  match p with
  | xH => v
  | xO p => eval_pos p (scramble v)
  | xI p => N.lxor v (eval_pos p (scramble v))
  end.

Definition eval (p v : N) : N := match p with N0 => 0 | Npos p => eval_pos p v end.

Lemma eval_double p v : eval (N.double p) v = eval p (scramble v).
Proof. by destruct p. Qed.

Lemma eval_succ_double p v : eval (N.succ_double p) v = N.lxor v (eval p (scramble v)).
Proof. destruct p; simpl; [by rewrite N.lxor_0_r|done]. Qed.

Lemma eval_pos_linear p a b : eval_pos p (N.lxor a b) = N.lxor (eval_pos p a) (eval_pos p b).
Proof.
  revert a b. induction p as [p IH|p IH|]; intros a b; simpl; [|by rewrite scramble_lxor, IH|done].
  rewrite scramble_lxor, IH. generalize (eval_pos p (scramble a)), (eval_pos p (scramble b)). intros. by_bits.
Qed.

Lemma eval_linear p a b : eval p (N.lxor a b) = N.lxor (eval p a) (eval p b).
Proof. destruct p; [done|]. apply eval_pos_linear. Qed.

Lemma eval_0 p : eval p 0 = 0.
Proof. pose proof (eval_linear p 0 0) as H. rewrite N.lxor_nilpotent in H. rewrite H. apply N.lxor_nilpotent. Qed.

Lemma eval_lt p v : v < U64 -> eval p v < U64.
Proof.
  destruct p as [|p]; [done|]. simpl. revert v.
  induction p as [p IH|p IH|]; intros v Hv; simpl; auto using lxor_lt, scramble_lt.
Qed.

Lemma eval_scramble p v : eval p (scramble v) = scramble (eval p v).
Proof.
  destruct p as [|p]; [done|]. simpl. revert v. induction p as [p IH|p IH|]; intros v; simpl; [|apply IH|done].
  by rewrite IH, scramble_lxor.
Qed.

Lemma eval_lxor p q v : eval (N.lxor p q) v = N.lxor (eval p v) (eval q v).
Proof.
  destruct p as [|p]; [by rewrite !N.lxor_0_l|]. destruct q as [|q]; [by rewrite !N.lxor_0_r|].
  change (N.lxor (Npos p) (Npos q)) with (Pos.lxor p q). cbn [eval]. revert q v.
  induction p as [p IH|p IH|]; intros [q|q|] v; cbn [eval_pos];
    try lazymatch goal with
    | |- eval (Pos.lxor ?p ?q) v = _ =>
        let r := eval hnf in (Pos.lxor p q) in
        lazymatch r with
        | context [Pos.lxor ?p' ?q'] =>
            first [change (Pos.lxor p q) with (N.double (Pos.lxor p' q')); rewrite eval_double
                  |change (Pos.lxor p q) with (N.succ_double (Pos.lxor p' q')); rewrite eval_succ_double]; rewrite IH
        | _ => change (Pos.lxor p q) with r; cbn [eval eval_pos]
        end
    end; by_bits.
Qed.

(** ** Multiplication modulo the characteristic polynomial *)

Definition CHARACTERISTIC : N := 0x1013ed4a358913201.

(** Multiplication by the indeterminate, and by a polynomial. *)
Definition times_x (q : N) : N :=
  let q := N.double q in if N.testbit q 64 then N.lxor q CHARACTERISTIC else q.

Fixpoint times_pos (p : positive) (q : N) : N :=
  match p with
  | xH => q
  | xO p => times_pos p (times_x q)
  | xI p => N.lxor q (times_pos p (times_x q))
  end.

Definition times (p q : N) : N := match p with N0 => 0 | Npos p => times_pos p q end.

(** The powers of the indeterminate. *)
Fixpoint x_power (e : positive) : N :=
  match e with
  | xH => 2
  | xO e => let s := x_power e in times s s
  | xI e => let s := x_power e in times_x (times s s)
  end.

(** A linear function that vanishes on the powers of two vanishes on [u64]. *)
Lemma linear_zero (f : N -> N) n :
  (forall a b, f (N.lxor a b) = N.lxor (f a) (f b)) -> f 0 = 0 ->
  (forall i, i < N.of_nat n -> f (2 ^ i) = 0) -> forall v, v < 2 ^ N.of_nat n -> f v = 0.
Proof.
  intros Hf H0. induction n as [|n IH]; intros Hb v Hv; [by replace v with 0 by (cbn in Hv; lia)|].
  assert (N.lxor (N.land v (N.ones (N.of_nat n))) (if N.testbit v (N.of_nat n) then 2 ^ N.of_nat n else 0) = v) as <-.
  { apply N.bits_inj. intros i. rewrite N.lxor_spec, N.land_spec.
    destruct (N.lt_trichotomy i (N.of_nat n)) as [Hi|[->|Hi]].
    - rewrite N.ones_spec_low by done. rewrite andb_true_r.
      destruct (N.testbit v (N.of_nat n)); [rewrite N.pow2_bits_false by lia|rewrite N.bits_0]; by rewrite xorb_false_r.
    - rewrite N.ones_spec_high by lia. rewrite andb_false_r. destruct (N.testbit v (N.of_nat n)); [|by rewrite N.bits_0].
      by rewrite N.pow2_bits_true.
    - rewrite N.ones_spec_high by lia. rewrite andb_false_r.
      assert (N.testbit v i = false) as ->.
      { destruct (N.eq_dec v 0) as [->|Hz]; [apply N.bits_0|]. apply N.bits_above_log2.
        apply N.log2_lt_pow2; [lia|]. eapply N.lt_le_trans; [exact Hv|]. apply N.pow_le_mono_r; lia. }
      destruct (N.testbit v (N.of_nat n)); [rewrite N.pow2_bits_false by lia|rewrite N.bits_0]; done. }
  rewrite Hf. rewrite (IH ltac:(intros; apply Hb; lia)).
  - rewrite N.lxor_0_l. destruct (N.testbit _ _); [apply Hb; lia|done].
  - rewrite N.land_ones. apply N.mod_lt. by apply N.pow_nonzero.
Qed.

(** The rounds satisfy their characteristic polynomial. *)
Definition scramble_fast (v : N) : N := shear_l 17 (shear_r 7 (shear_l 13 v)).

Fixpoint eval_fast (p : positive) (v : N) : N :=
  match p with
  | xH => v
  | xO p => eval_fast p (scramble_fast v)
  | xI p => N.lxor v (eval_fast p (scramble_fast v))
  end.

Lemma eval_fast_eq p v : eval_fast p v = eval_pos p v.
Proof. revert v. induction p as [p IH|p IH|]; intros v; cbn; unfold scramble_fast; rewrite <- ?scramble_shears, ?IH; done. Qed.

Lemma characteristic v : v < U64 -> eval CHARACTERISTIC v = 0.
Proof.
  intros Hv. change U64 with (2 ^ N.of_nat 64) in Hv.
  apply (linear_zero (eval CHARACTERISTIC) 64); [intros; apply eval_linear|done| |done].
  intros i Hi. assert (forallb (fun i => eval_fast 0x1013ed4a358913201 (2 ^ N.of_nat i) =? 0) (seq 0 64) = true) as H by (vm_compute; reflexivity).
  rewrite forallb_forall in H. specialize (H (N.to_nat i)). rewrite in_seq, N2Nat.id, N.eqb_eq in H.
  unfold CHARACTERISTIC, eval. rewrite <- eval_fast_eq. apply H. lia.
Qed.

Lemma eval_times_x q v : v < U64 -> eval (times_x q) v = scramble (eval q v).
Proof.
  intros Hv. unfold times_x. assert (eval (N.double q) v = scramble (eval q v)) as E by (rewrite eval_double; apply eval_scramble).
  cbv zeta. destruct (N.testbit _ _); [|done]. by rewrite eval_lxor, E, characteristic, N.lxor_0_r.
Qed.

Lemma eval_times p q v : v < U64 -> eval (times p q) v = eval p (eval q v).
Proof.
  intros Hv. destruct p as [|p]; [done|]. cbn [times eval]. revert q. induction p as [p IH|p IH|]; intros q; cbn [times_pos eval_pos]; [|by rewrite IH, eval_times_x|done].
  by rewrite eval_lxor, IH, eval_times_x.
Qed.

(** ** Iterated rounds *)

Definition rounds (n v : N) : N := N.iter n scramble v.

Lemma rounds_add a b v : rounds (a + b) v = rounds a (rounds b v).
Proof. apply N.iter_add. Qed.

Lemma rounds_lt n v : v < U64 -> rounds n v < U64.
Proof. intros H. unfold rounds. apply N.iter_invariant; [|done]. intros; by apply scramble_lt. Qed.

Lemma rounds_0_r n : rounds n 0 = 0.
Proof. unfold rounds. apply (N.iter_invariant n N scramble (fun x => x = 0)); [by intros ? ->|done]. Qed.

Lemma eval_x_power e v : v < U64 -> eval (x_power e) v = rounds (Npos e) v.
Proof.
  revert v. induction e as [e IH|e IH|]; intros v Hv; cbn [x_power].
  - rewrite eval_times_x, eval_times, !IH by (done || by apply rounds_lt || (rewrite ?IH by done; by apply rounds_lt)).
    replace (Npos e~1) with (1 + (Npos e + Npos e)) by lia. by rewrite !rounds_add.
  - rewrite eval_times, !IH by (done || (rewrite ?IH by done; by apply rounds_lt)).
    replace (Npos e~0) with (Npos e + Npos e) by lia. by rewrite rounds_add.
  - done.
Qed.

(** ** The period *)

Definition PERIOD : N := 18446744073709551615.

Lemma rounds_period v : v < U64 -> rounds PERIOD v = v.
Proof.
  intros Hv. unfold PERIOD. rewrite <- eval_x_power by done.
  replace (x_power 18446744073709551615) with 1 by (vm_compute; reflexivity). done.
Qed.

(** [(p, q)]: [q] inverts the [PERIOD / p]-th power of the indeterminate, less one. *)
Definition inverses : list (positive * N) := [
  (3%positive, 15511182550047884770); (5%positive, 11814715471047095913); (17%positive, 7202445018898142789);
  (257%positive, 9031751854939573325); (641%positive, 138158124418806406); (65537%positive, 17109817795786126257);
  (6700417%positive, 5204763322158105013)].

Definition cofactor (p : positive) : positive := match PERIOD / Npos p with Npos c => c | N0 => xH end.

Lemma inverses_ok : forallb (fun pq => (Npos (cofactor pq.1) * Npos pq.1 =? PERIOD)
  && (times pq.2 (N.lxor (x_power (cofactor pq.1)) 1) =? 1)) inverses = true.
Proof. vm_compute. reflexivity. Qed.

(** No proper divisor of the period of this form brings a state back. *)
Lemma no_short_period p q v : (p, q) ∈ inverses -> v < U64 -> rounds (PERIOD / Npos p) v = v -> v = 0.
Proof.
  intros Hin Hv Hr. pose proof inverses_ok as H. rewrite forallb_forall in H.
  specialize (H (p, q) ltac:(by apply list_elem_of_In)). cbn [fst snd] in H.
  apply andb_true_iff in H as [H1%N.eqb_eq H2%N.eqb_eq].
  assert (PERIOD / Npos p = Npos (cofactor p)) as E by (rewrite <- H1; by apply N.div_mul). rewrite E in Hr.
  assert (eval 1 v = v) as <- by done. rewrite <- H2, eval_times, eval_lxor, eval_x_power, Hr by done.
  cbn [eval eval_pos]. by rewrite N.lxor_nilpotent, eval_0.
Qed.

(** Divisors by trial. *)
Definition indivisible (p : N) (n : nat) : bool := forallb (fun d => negb (p mod N.of_nat d =? 0)) (seq 2 n).

Lemma divisor_trial p n d : indivisible p n = true -> p < (N.of_nat n + 2) * (N.of_nat n + 2) -> 0 < p -> (d | p) -> d = 1 \/ d = p.
Proof.
  intros Ht Hn Hp [c Hc]. unfold indivisible in Ht. rewrite forallb_forall in Ht.
  assert (forall a b, p = a * b -> 2 <= a -> N.of_nat n + 2 <= a) as Hbig.
  { intros a b E Ha. destruct (N.lt_ge_cases a (N.of_nat n + 2)) as [Hlt|]; [|done]. exfalso.
    specialize (Ht (N.to_nat a)). rewrite in_seq, N2Nat.id, negb_true_iff, N.eqb_neq in Ht. apply Ht; [lia|].
    rewrite E, N.mul_comm. apply N.Div0.mod_mul. }
  destruct (N.eq_dec d 1) as [->|Hd]; [by left|]. destruct (N.eq_dec c 1) as [->|Hc1]; [right; lia|].
  assert (2 <= d) as Hd2 by (destruct (N.eq_dec d 0) as [->|]; lia).
  assert (2 <= c) as Hc2 by (destruct (N.eq_dec c 0) as [->|]; lia).
  pose proof (Hbig d c ltac:(lia) Hd2). pose proof (Hbig c d ltac:(lia) Hc2). nia.
Qed.

Lemma inverses_prime : forallb (fun pq => indivisible (Npos pq.1) (N.to_nat (N.sqrt (Npos pq.1) - 1))) inverses = true.
Proof. vm_compute. reflexivity. Qed.

Lemma prime_factors p q d : (p, q) ∈ inverses -> (d | Npos p) -> d = 1 \/ d = Npos p.
Proof.
  intros Hin. pose proof inverses_prime as H. rewrite forallb_forall in H.
  specialize (H (p, q) ltac:(by apply list_elem_of_In)). cbn [fst] in H. apply (divisor_trial _ _ _ H); [|done].
  rewrite N2Nat.id. destruct (N.sqrt_spec (Npos p) ltac:(done)) as [_ Hs].
  assert (0 < N.sqrt (Npos p)) by (apply N.le_succ_l, N.sqrt_le_square; lia). by replace (_ - 1 + 2) with (N.succ (N.sqrt (Npos p))) by lia.
Qed.

Lemma inverses_product : PERIOD = foldr (fun pq n => Npos pq.1 * n) 1 inverses.
Proof. vm_compute. reflexivity. Qed.

Lemma rounds_mul a n v : rounds n v = v -> rounds (a * n) v = v.
Proof.
  intros H. induction a as [|a IH] using N.peano_ind; [done|]. by rewrite N.mul_succ_l, N.add_comm, rounds_add, IH.
Qed.

(** A state comes back exactly after a multiple of the period. *)
Lemma rounds_divide d v : v < U64 -> v <> 0 -> 0 < d -> rounds d v = v -> (PERIOD | d).
Proof.
  intros Hv Hz Hd Hr. set (g := N.gcd d PERIOD).
  assert (rounds g v = v) as Hg.
  { destruct (N.gcd_bezout_pos d PERIOD Hd) as (a & b & E). fold g in E.
    assert (rounds (a * d) v = v) as Ha by by apply rounds_mul.
    rewrite E, rounds_add, (rounds_mul b) in Ha; [done|by apply rounds_period]. }
  destruct (N.gcd_divide_r d PERIOD) as [m Hm]. fold g in Hm.
  assert (0 < g) as Hg0 by (destruct (N.eq_dec g 0) as [E|]; [rewrite E in Hm; unfold PERIOD in Hm|]; lia).
  assert (forall p q, (p, q) ∈ inverses -> N.gcd m (Npos p) = 1) as Hcop.
  { intros p q Hin. destruct (prime_factors p q (N.gcd m (Npos p)) Hin (N.gcd_divide_r _ _)) as [|E]; [done|]. exfalso.
    destruct (N.gcd_divide_l m (Npos p)) as [k Hk]. rewrite E in Hk. apply Hz, (no_short_period p q v Hin Hv).
    assert (PERIOD / Npos p = k * g) as -> by (rewrite Hm, Hk, <- N.mul_assoc, (N.mul_comm _ g), N.mul_assoc; by apply N.div_mul).
    by apply rounds_mul. }
  assert (forall l : list (positive * N), (forall p q, (p, q) ∈ l -> N.gcd m (Npos p) = 1) ->
    (m | foldr (fun pq n => Npos pq.1 * n) 1 l) -> m = 1) as Hone.
  { induction l as [|[p q] l IH]; intros Hl Hdiv; cbn [foldr fst] in Hdiv.
    - by apply N.divide_1_r.
    - apply IH; [intros p' q' Hin; apply (Hl p' q'); by right|]. eapply N.gauss; [exact Hdiv|]. apply (Hl p q). by left. }
  assert (m = 1) as -> by (apply (Hone inverses Hcop); rewrite <- inverses_product; rewrite Hm; apply N.divide_factor_l).
  rewrite N.mul_1_l in Hm. rewrite Hm. apply N.gcd_divide_l.
Qed.

Lemma rounds_nonzero n v : v < U64 -> v <> 0 -> rounds n v <> 0.
Proof.
  intros Hv Hz H0. apply Hz. rewrite <- (rounds_mul n PERIOD v (rounds_period v Hv)).
  replace (n * PERIOD) with (n * (PERIOD - 1) + n) by (unfold PERIOD; lia). by rewrite rounds_add, H0, rounds_0_r.
Qed.

(** Less than a period apart, states differ. *)
Lemma rounds_distinct i j v : v < U64 -> v <> 0 -> i < j -> j - i < PERIOD -> rounds i v <> rounds j v.
Proof.
  intros Hv Hz Hij Hp E. replace j with (j - i + i) in E by lia. rewrite rounds_add in E.
  destruct (rounds_divide (j - i) (rounds i v)) as [k Hk]; [by apply rounds_lt|by apply rounds_nonzero|lia|done|].
  destruct (N.eq_dec k 0) as [->|]; [lia|]. unfold PERIOD in *. nia.
Qed.

(** A round as the code takes it; from the state 0, which no round leads to, it
    goes on with 1. *)
Lemma advance_rounds v : v <> 0 -> v < U64 -> advance v = rounds 1 v.
Proof.
  intros Hz Hv. unfold advance. pose proof (rounds_nonzero 1 v Hv Hz) as H. change (rounds 1 v) with (scramble v) in *. lia.
Qed.
