(* ===== verification/Turns.v ===== *)
(** * Live orchestrations

    [uniterm-server/src/server/orchestration.rs]: the server owns workflows and
    relays, drives the engine of Orchestrate.v with what it observes, puts a
    fresh token into every turn it opens, delivers the prompts and records what
    happens. The queue of attention, the tasks, the run graph and the artifact
    ledger are the components of Waiting.v, Tasks.v, RunGraph.v and Artifact.v;
    the event log is the list of the events it kept. An [ActiveWorkflow] and an
    [ActiveRelay] are one record with their kind, and the handlers that the code
    writes out for each kind take the kind. Instants are milliseconds. Drawing,
    the names of Tabs and the snapshot are left out. An index out of range,
    which panics, is [None], and so is a loop without fuel. *)

From S2P Require Import Prelude Layout Agent Artifact RunGraph Guardrail Waiting Tasks Orchestrate Events Launch Xorshift.

(** ** The state *)

Definition ORCHESTRATION_STALL_TIMEOUT : N := 10 * 60 * 1000.
Definition ARTIFACT_VALIDATION_TIMEOUT : N := 30 * 1000.

(** [ActiveWorkflow] with its template, [ActiveRelay] with its checkpoints. *)
Record ActiveRun : Set := {
  o_kind : OrchestrationKind; o_state : Orchestrate.State; o_template : option WorkflowTemplate;
  o_goal : str; o_role_providers : list ResolvedRoleProvider; o_role_panes : list N;
  o_started : list bool; o_task_id : N; o_checkpoints : list (N * str); o_started_at_ms : N;
  o_guard_limits : GuardLimits; o_elapsed_guard_triggered : bool;
  o_elapsed_deadline : option N; o_stall_deadline : option N; o_idle_deadline : option N }.

#[global] Instance ActiveRun_fields : Fields ActiveRun := fun r => {|
  o_kind := o_kind r; o_state := o_state r; o_template := o_template r; o_goal := o_goal r;
  o_role_providers := o_role_providers r; o_role_panes := o_role_panes r; o_started := o_started r;
  o_task_id := o_task_id r; o_checkpoints := o_checkpoints r; o_started_at_ms := o_started_at_ms r;
  o_guard_limits := o_guard_limits r; o_elapsed_guard_triggered := o_elapsed_guard_triggered r;
  o_elapsed_deadline := o_elapsed_deadline r; o_stall_deadline := o_stall_deadline r;
  o_idle_deadline := o_idle_deadline r |}.

Record ArtifactClaim : Set := { claim_kind : ArtifactKind; claim_path : str }.

Record PendingOrchestrationSubmission : Set := {
  q_kind : OrchestrationKind; q_task_id : N; q_token : N; q_pane : N; q_status : SubmissionStatus;
  q_verdict : option str; q_summary : str; q_due : N }.

Record PendingPromptDelivery : Set := {
  d_kind : OrchestrationKind; d_task_id : N; d_token : N; d_pane : N; d_bytes : list N;
  d_first_delivery : bool; d_agent_id : str; d_attempts : N; d_due : N }.

#[global] Instance PendingPromptDelivery_fields : Fields PendingPromptDelivery := fun d => {|
  d_kind := d_kind d; d_task_id := d_task_id d; d_token := d_token d; d_pane := d_pane d;
  d_bytes := d_bytes d; d_first_delivery := d_first_delivery d; d_agent_id := d_agent_id d;
  d_attempts := d_attempts d; d_due := d_due d |}.

Record PendingRelayActivation : Set := {
  v_task_id : N; v_role : nat; v_token : N; v_handoff : option str }.

(** The requests to the runtime that orchestrations make. *)
Inductive CoreToAgent : Set :=
| ArtifactValidate (kind : OrchestrationKind) (task_id token : N) (project_root : str)
    (expected reported : list ArtifactClaim)
| RelayCheckpointCreate (task_id token : N) (project_root : str).

(** What orchestrations read of a Pane: the agent bound to it with its process,
    and its foreground process. *)
Record Pane : Set := { p_agent : option (str * option Z); p_foreground_pid : option Z }.

(** The terminals behind the Panes: their input queues, the line discipline set
    up for a launch, the process group in the foreground, and the paste mode the
    program has asked for. *)
Class Ptys : Type := {
  Pty : Type;
  queue_pane_input : Pty -> N -> list N -> Pty * bool;
  prepare_launch_input : Pty -> N -> Pty * bool;
  foreground_process_group : Pty -> N -> option Z;
  bracketed_paste : Pty -> N -> bool }.

(** The state of a run's durable projection. *)
Definition durable (r : ActiveRun) : DurableOrchestration := {|
  do_kind := o_kind r; do_task_id := o_task_id r;
  do_template := match o_kind r with OWorkflow => template_name <$> o_template r | ORelay => None end;
  do_goal := o_goal r;
  do_role_providers := map (fun p => {| rp_provider := rp_id p; Events.rp_command := Launch.rp_command p |}) (o_role_providers r);
  do_agent_id := default [] (rp_id <$> head (o_role_providers r));
  do_agent_cmd := default [] (Launch.rp_command <$> head (o_role_providers r));
  do_role_panes := o_role_panes r; do_started := o_started r; do_state := o_state r;
  do_checkpoints := match o_kind r with OWorkflow => [] | ORelay => o_checkpoints r end;
  do_guardrail := {| dg_started_at_ms := o_started_at_ms r; dg_limits := o_guard_limits r;
    dg_elapsed_triggered := o_elapsed_guard_triggered r |} |}.

Section Server.
Context {P : Ptys}.

Record Server : Type := {
  pty : Pty; panes : gmap N Pane;
  roots : gmap N str; (* [project_root_for_pane] *)
  workflows : list ActiveRun; relays : list ActiveRun;
  orchestration_token_state : N;
  pending_orchestration_submissions : list PendingOrchestrationSubmission;
  pending_prompt_deliveries : list PendingPromptDelivery;
  pending_relay_activations : list PendingRelayActivation;
  waiting : WaitingQueue; tasks : TaskList;
  run_graph : RunGraph.RunGraph; run_graph_sequence : N;
  artifacts : ArtifactLedger; artifact_sequence : N; durability_error : option str;
  event_writes_enabled : bool; log : list LogEvent; next_sequence : N;
  timeline_invocations : gmap N N; sent : list CoreToAgent }.

#[global] Instance Server_fields : Fields Server := fun s => {|
  pty := pty s; panes := panes s; roots := roots s; workflows := workflows s; relays := relays s;
  orchestration_token_state := orchestration_token_state s;
  pending_orchestration_submissions := pending_orchestration_submissions s;
  pending_prompt_deliveries := pending_prompt_deliveries s;
  pending_relay_activations := pending_relay_activations s; waiting := waiting s; tasks := tasks s;
  run_graph := run_graph s; run_graph_sequence := run_graph_sequence s; artifacts := artifacts s;
  artifact_sequence := artifact_sequence s; durability_error := durability_error s;
  event_writes_enabled := event_writes_enabled s; log := log s; next_sequence := next_sequence s;
  timeline_invocations := timeline_invocations s; sent := sent s |}.

Definition runs (kind : OrchestrationKind) (s : Server) : list ActiveRun :=
  match kind with OWorkflow => workflows s | ORelay => relays s end.

Definition with_runs (kind : OrchestrationKind) (s : Server) (l : list ActiveRun) : Server :=
  match kind with OWorkflow => s <| workflows := l |> | ORelay => s <| relays := l |> end.

Definition push_run (s : Server) (r : ActiveRun) : Server := with_runs (o_kind r) s (runs (o_kind r) s ++ [r]).

(** [Vec::swap_remove]: the last element takes the place of the removed one. *)
Definition swap_remove {A} (l : list A) (i : nat) : option (A * list A) :=
  x ← l !! i;
  z ← last l;
  Some (x, if (S i =? length l)%nat then removelast l else <[i := z]> (removelast l)).

(** [runs.swap_remove(index)] *)
Definition take_run (kind : OrchestrationKind) (s : Server) (i : nat) : option (ActiveRun * Server) :=
  '(r, l) ← swap_remove (runs kind s) i; Some (r, with_runs kind s l).

(** [iter().position(..)] *)
Definition position {A} (f : A -> bool) (l : list A) : option nat := fst <$> list_find (fun x => f x = true) l.

Definition waiting_kind (kind : OrchestrationKind) : WaitingKind :=
  match kind with OWorkflow => Waiting.Workflow | ORelay => Waiting.Relay end.

Definition run_kind_of (kind : OrchestrationKind) : RunKind :=
  match kind with OWorkflow => RunGraph.Workflow | ORelay => RunGraph.Relay end.

(** [run.role_panes.get(run.state.cur)] *)
Definition current_pane (r : ActiveRun) : option N := o_role_panes r !! cur (o_state r).

(** ** Events

    [append_event] and [EventLog::record]: an event equal to the last one kept is
    dropped, notes and prompts of the timeline excepted. *)

Definition always_recorded (e : LogEvent) : bool :=
  match e with Log.TimelineNote _ _ | Log.TimelinePrompt _ _ => true | _ => false end.

Definition current_sequence (s : Server) : N := ssub (next_sequence s) 1.

(** What is kept of the event besides, in the order of the code. *)
Definition rebound (e : LogEvent) (s : Server) : Server :=
  match e with
  | Log.AgentResumed pane _ _ _ (Some previous) _ _ _ =>
      s <| tasks := (rebind_invocation (tasks s) pane previous (current_sequence s)).1 |>
  | _ => s
  end.

Definition noted_invocation (e : LogEvent) (s : Server) : Server :=
  match e with
  | Log.AgentBound pane _ _ | Log.AgentResumed pane _ _ _ _ _ _ _ =>
      s <| timeline_invocations := <[pane := current_sequence s]> (timeline_invocations s) |>
  | Log.AgentUnbound pane | Log.PaneClosed pane =>
      s <| timeline_invocations := base.delete pane (timeline_invocations s) |>
  | _ => s
  end.

Definition touched_task (e : LogEvent) (s : Server) : Server :=
  match e with
  | Log.TaskCreated id _ _ | Log.TaskStatusChanged id _ | Log.TaskRetitled id _ | Log.TaskDetailsUpdated id _ _ =>
      s <| tasks := touch (tasks s) id (current_sequence s) |>
  | _ => s
  end.

Definition append_event (s : Server) (e : LogEvent) : Server :=
  if negb (event_writes_enabled s) then s
  else if bool_decide (last (log s) = Some e) && negb (always_recorded e) then s
  else touched_task e (noted_invocation e (rebound e
         (s <| log := log s ++ [e] |> <| next_sequence := sadd u64_max (next_sequence s) 1 |>))).

Definition record_waiting_change (s : Server) (change : WaitingChange) : Server :=
  match change with
  | NoChange => s
  | Waiting.Updated id summary => append_event s (Log.WaitingUpdated id summary)
  | Waiting.Created item => append_event s (Log.WaitingCreated item)
  | Waiting.Replaced resolved created =>
      append_event (append_event s (Log.WaitingResolved resolved AgentAdvanced)) (Log.WaitingCreated created)
  | Waiting.Resolved id resolution => append_event s (Log.WaitingResolved id resolution)
  end.

(** [self.waiting.request(..)] and its record. *)
Definition request_waiting (s : Server) (pane : N) (invocation : option Z) (kind : WaitingKind) (summary : str) : Server :=
  let '(q, change) := request (waiting s) pane invocation kind summary in
  record_waiting_change (s <| waiting := q |>) change.

(** [self.waiting.resolve_pane_kind(..)] and its record. *)
Definition resolve_waiting_kind (s : Server) (pane : N) (kind : WaitingKind) (resolution : WaitingResolution) : Server :=
  let '(q, item) := resolve_pane_kind (waiting s) pane kind in
  let s := s <| waiting := q |> in
  match item with
  | Some item => append_event s (Log.WaitingResolved (w_id item) resolution)
  | None => s
  end.

(** [if self.tasks.set_status(..)] and its record. *)
Definition set_task_status (s : Server) (id : N) (status : TaskStatus) : Server :=
  let '(l, found) := Tasks.set_status (tasks s) id status in
  let s := s <| tasks := l |> in
  if found : bool then append_event s (Log.TaskStatusChanged id status) else s.

Definition create_task (s : Server) (title : str) (status : TaskStatus) : Server * N :=
  let id := Tasks.next_id (tasks s) in
  let s := append_event s (Log.TaskCreated id title status) in
  let s := s <| tasks := Tasks.insert (tasks s) id title status |> in
  (s <| tasks := touch (tasks s) id (current_sequence s) |>, id).

Definition set_task_details (s : Server) (id : N) (notes : str) (context : TaskContext) : Server :=
  if match Tasks.get (tasks s) id with
     | Some task => bool_decide (t_notes task = notes) && bool_decide (t_context task = context)
     | None => true
     end
  then s
  else
    let s := append_event s (Log.TaskDetailsUpdated id notes context) in
    let s := s <| tasks := (set_details (tasks s) id notes context).1 |> in
    s <| tasks := touch (tasks s) id (current_sequence s) |>.

(** ** The run graph *)

Definition record_run_graph_change (s : Server) (change : RunGraphEvent) : Server :=
  match RunGraph.apply (run_graph s) change with
  | (_, Err error) => s <| durability_error := Some (lit "run graph projection rejected: " ++ error) |>
  | (next, Ok _) =>
      let s := append_event s (Log.RunGraph change) <| run_graph := next |> in
      s <| run_graph_sequence := current_sequence s |>
  end.

(** One role of the loop of [create_orchestration_run]. *)
Definition declare_role (run : N) (s : Server) (role : str * N * str) : Server :=
  let '(name, pane, provider) := role in
  record_run_graph_change s
    (EvRoleDeclared run (next_role_id (run_graph s)) (take 256 name) pane (take 256 provider)).

Definition create_orchestration_run (s : Server) (parent : option N) (kind : RunKind) (task_id : N)
    (title : str) (project : N) (roles : list (str * N * str)) : Server * N :=
  let run := next_run_id (run_graph s) in
  let s := record_run_graph_change s (EvCreated run parent project kind task_id (take 16384 title)) in
  (foldl (declare_role run) s roles, run).

Definition record_orchestration_activation (s : Server) (task_id : N) (role_index : nat) : Server :=
  let g := run_graph s in
  match run_for_task g task_id with
  | None => s
  | Some run =>
      match role_at g run role_index with
      | None => s
      | Some role =>
          let activation := next_activation_id g in
          record_run_graph_change s
            match active_role g run with
            | Some from => if negb (from =? role) then EvHandoff run from role activation
                           else EvActivated run role activation
            | None => EvActivated run role activation
            end
      end
  end.

Definition record_orchestration_terminal (s : Server) (task_id : N) (status : RunStatus) (outcome : str) : Server :=
  match run_for_task (run_graph s) task_id with
  | None => s
  | Some run =>
      if match RunGraph.run (run_graph s) run with Some r => terminal (run_status r) | None => false end then s
      else
        let outcome := take 16384 outcome in
        match status with
        | Completed => record_run_graph_change s (EvCompleted run outcome)
        | RunGraph.Failed => record_run_graph_change s (EvFailed run outcome)
        | Canceled => record_run_graph_change s (EvCanceled run outcome)
        | RunGraph.Created | Active => s
        end
  end.

(** ** Tokens *)

(** The tokens that a new one must not be. *)
Definition occupied (s : Server) : list N :=
  map (fun r => token (o_state r)) (workflows s) ++ map (fun r => token (o_state r)) (relays s)
  ++ map q_token (pending_orchestration_submissions s).

(** The loop of [next_activation_token]. At most one round more than there are
    occupied tokens is taken, [mint_fresh] below. *)
Fixpoint mint (fuel : nat) (taken : list N) (state : N) : option N :=
  match fuel with
  | O => None
  | S fuel =>
      let state := advance state in
      if bool_decide (state ∈ taken) then mint fuel taken state else Some state
  end.

Definition next_activation_token (s : Server) : option (Server * N) :=
  token ← mint (S (length (occupied s))) (occupied s) (orchestration_token_state s);
  Some (s <| orchestration_token_state := token |>, token).

Definition with_token (st : Orchestrate.State) (t : N) : Orchestrate.State := {|
  Orchestrate.roles := Orchestrate.roles st; cur := cur st; iteration := iteration st;
  Orchestrate.max_iterations := Orchestrate.max_iterations st; token := t; token_seq := token_seq st;
  last_fix := last_fix st; fix_target := fix_target st; replan_target := replan_target st; phase := phase st |}.

Definition scope_activation_token (s : Server) (st : Orchestrate.State) (a : Action)
    : option (Server * Orchestrate.State * Action) :=
  match a with
  | Inject role _ =>
      '(s, t) ← next_activation_token s;
      Some (s, with_token st t, Inject role t)
  | a => Some (s, st, a)
  end.

(** [decide_workflow_next] and [scope_activation_token], on a run taken out. *)
Definition decide_run (s : Server) (r : ActiveRun) (e : Event) : option (Server * ActiveRun * Action) :=
  '(st, a) ← match o_kind r with
             | OWorkflow => decide_workflow_next (o_state r) e
             | ORelay => decide_relay_next (o_state r) e
             end;
  '(s, st, a) ← scope_activation_token s st a;
  Some (s, r <| o_state := st |>, a).

(** ** Prompts *)

(** The text of a turn; [note] is the verifier's findings or the summary of the
    role before. *)
Definition turn_prompt (r : ActiveRun) (role : nat) (token : N) (note : option str) : option str :=
  match o_kind r with
  | OWorkflow =>
      template ← o_template r;
      spec ← template_roles template !! role;
      let prompt := render_role_prompt spec (o_goal r) token in
      Some match note with
      | Some f => lit "The verifier sent this back. Findings: " ++ f ++ lit ". " ++ prompt
      | None => prompt
      end
  | ORelay =>
      role ← Orchestrate.roles (o_state r) !! role;
      let submit := lit "uniterm relay submit " ++ dec token in
      let handoff := match note with
        | Some summary => if Text.is_empty (trim summary) then []
                          else lit " Previous role summary: " ++ summary ++ lit "."
        | None => []
        end in
      Some (lit "You are the " ++ Orchestrate.role_name role ++ lit " in a Uniterm relay. Goal: " ++ o_goal r
        ++ lit "." ++ handoff ++ lit " Work in the shared Project, then run exactly: " ++ submit)
  end.

(** The first prompt of a role starts its agent; later ones are pasted. *)
Definition turn_bytes (s : Server) (provider : ResolvedRoleProvider) (pane : N) (first : bool) (prompt : str)
    : option (list N) :=
  if first then
    invocation ← launch_invocation (rp_id provider) (Launch.rp_command provider) prompt;
    Some (launch_delivery (announce_wrapped (rp_id provider) invocation))
  else
    let bracketed := bracketed_paste (pty s) pane in
    Some ((if bracketed then 27 :: lit "[200~" else []) ++ utf8 prompt
      ++ (if bracketed then 27 :: lit "[201~" else []) ++ [13]).

(** [(!first || prepare_launch_input().is_ok()) && queue_pane_input(..)] *)
Definition deliver (s : Server) (pane : N) (first : bool) (bytes : list N) : Server * bool :=
  let '(p, ready) := if first then prepare_launch_input (pty s) pane else (pty s, true) in
  if ready : bool then let '(p, accepted) := queue_pane_input p pane bytes in (s <| pty := p |>, accepted)
  else (s <| pty := p |>, false).

Definition rotate_left (v n : N) : N := N.lor (N.shiftl v n mod U64) (N.shiftr v (64 - n)).

Definition schedule_prompt_retry (s : Server) (now : N) (d : PendingPromptDelivery) : Server :=
  let base_ms := N.min (2000 * N.shiftl 1 (ssub (d_attempts d) 1)) u64_max in
  let jitter := rotate_left (d_token d) (d_attempts d) mod 401 in
  let d := d <| d_due := now + sadd u64_max base_ms jitter |> in
  s <| pending_prompt_deliveries :=
    filter (fun p => d_kind p <> d_kind d \/ d_token p <> d_token d) (pending_prompt_deliveries s) ++ [d] |>.

Definition bind_agent (s : Server) (pane : N) (agent_id : str) : Server :=
  match panes s !! pane with
  | None => s
  | Some p =>
      let invocation := foreground_process_group (pty s) pane in
      let s := s <| panes := <[pane := {| p_agent := Some (agent_id, invocation); p_foreground_pid := p_foreground_pid p |}]> (panes s) |> in
      append_event (append_event s (Log.AgentBound pane agent_id invocation)) (Log.AgentStatus pane Agent.Starting)
  end.

(** ** Actions *)

(** [finish_workflow] and [finish_relay]. *)
Definition finish_run (s : Server) (r : ActiveRun) (status : TaskStatus) (outcome : str) : option Server :=
  let s := s <| pending_orchestration_submissions :=
    filter (fun p => q_task_id p <> o_task_id r) (pending_orchestration_submissions s) |> in
  let run_status := if bool_decide (status = Tasks.Done) then Completed
    else if bool_decide (outcome = lit "stopped by human") then Canceled else RunGraph.Failed in
  let s := record_orchestration_terminal s (o_task_id r) run_status outcome in
  let s := append_event s (Log.OrchestrationFinished (o_kind r) (o_task_id r) outcome) in
  let s := set_task_status s (o_task_id r) status in
  _ ← o_role_panes r !! 0%nat;
  Some s.

(** The [Inject] of [apply_workflow_action] and [apply_relay_action]. *)
Definition inject (s : Server) (now : N) (r : ActiveRun) (role : nat) (token : N) (note : option str)
    : option (Server * ActiveRun) :=
  prompt ← turn_prompt r role token note;
  pane ← o_role_panes r !! role;
  let s := record_orchestration_activation s (o_task_id r) role in
  let s := append_event s (Log.OrchestrationActivated (o_kind r) (o_task_id r) role pane token) in
  match panes s !! pane, o_role_providers r !! role with
  | Some _, Some provider =>
      started ← o_started r !! role;
      let first := negb started in
      bytes ← turn_bytes s provider pane first prompt;
      let '(s, accepted) := deliver s pane first bytes in
      let s := append_event s (Log.OrchestrationDelivery (o_kind r) (o_task_id r) token accepted) in
      let r := if accepted then r <| o_stall_deadline := Some (now + ORCHESTRATION_STALL_TIMEOUT) |> else r in
      Some (if accepted && first then
              (bind_agent s pane (rp_id provider), r <| o_started := <[role := true]> (o_started r) |>)
            else if negb accepted then
              (schedule_prompt_retry s now {|
                 d_kind := o_kind r; d_task_id := o_task_id r; d_token := token; d_pane := pane;
                 d_bytes := bytes; d_first_delivery := first; d_agent_id := rp_id provider;
                 d_attempts := 1; d_due := now |}, r)
            else (s, r))
  | _, _ => Some (s, r)
  end.

(** [apply_workflow_action] and [apply_relay_action]. *)
Definition apply_action (s : Server) (now : N) (r : ActiveRun) (a : Action) (note : option str)
    : option (Server * ActiveRun) :=
  match a with
  | Inject role token => inject s now r role token note
  | Complete => s ← finish_run s r Tasks.Done (lit "done"); Some (s, r)
  | Escalate reason =>
      pane ← current_pane r;
      let s := request_waiting s pane None (waiting_kind (o_kind r)) reason in
      Some (set_task_status s (o_task_id r) Blocked, r)
  | AbortRun reason => s ← finish_run s r Blocked reason; Some (s, r)
  | AwaitSubmit | Hold => Some (s, r)
  end.

Definition restartable (r : ActiveRun) : bool :=
  match phase (o_state r) with Awaiting | Paused => true | _ => false end.

Definition finished (r : ActiveRun) : bool :=
  match phase (o_state r) with PDone | Aborted => true | _ => false end.

Definition project_run (s : Server) (r : ActiveRun) : Server :=
  append_event s (Log.OrchestrationProjected (durable r)).

(** ** Submissions *)

Definition clear_deadlines (r : ActiveRun) : ActiveRun := r <| o_stall_deadline := None |> <| o_idle_deadline := None |>.

Definition bounded_claim (c : ArtifactClaim) : ArtifactClaim :=
  {| claim_kind := claim_kind c; claim_path := take 4096 (claim_path c) |}.

(** The artifacts that the current role of a workflow must produce. *)
Definition expected_artifacts_of (r : ActiveRun) : option (list ArtifactClaim) :=
  match o_kind r with
  | OWorkflow =>
      template ← o_template r;
      spec ← template_roles template !! cur (o_state r);
      Some (map (fun a => {| claim_kind := req_kind a; claim_path := req_path a |}) (expected_artifacts spec))
  | ORelay => Some []
  end.

Definition verdict_of (verdict : option str) (summary : str) : option Verdict :=
  v ← verdict;
  Some (if bool_decide (v = lit "approved") then Approved
        else if bool_decide (v = lit "replan") then Replan summary else Fix summary).

Definition submit_status (s : SubmissionStatus) : SubmitStatus :=
  match s with SDone => Orchestrate.Done | SNeedsInput => NeedsInput | SFailed => Orchestrate.Failed end.

(** The process a request for input names. *)
Definition invocation_of (s : Server) (pane : N) : option Z :=
  match p ← panes s !! pane; a ← p_agent p; snd a with
  | Some pid => Some pid
  | None => p ← panes s !! pane; p_foreground_pid p
  end.

(** The role needs a human: the turn stays open. *)
Definition needs_input (s : Server) (r : ActiveRun) (summary : str) : option Server :=
  pane ← current_pane r;
  let summary := if Text.is_empty (trim summary)
    then match o_kind r with OWorkflow => lit "workflow role needs input" | ORelay => lit "relay role needs input" end
    else summary in
  Some (project_run (request_waiting s pane (invocation_of s pane) (waiting_kind (o_kind r)) summary) r).

(** The submission moves the engine: the run is taken out, and kept unless it is
    over. *)
Definition advance_run (s : Server) (now : N) (kind : OrchestrationKind) (index : nat) (tok : N)
    (status : SubmissionStatus) (verdict : option str) (summary : str) : option Server :=
  active ← runs kind s !! index;
  pane ← current_pane active;
  let s := resolve_waiting_kind s pane (waiting_kind kind) AgentAdvanced in
  '(r, s) ← take_run kind s index;
  let verdict := match kind with OWorkflow => verdict_of verdict summary | ORelay => None end in
  '(s, r, a) ← decide_run s r (ESubmit {|
    sub_token := tok; sub_role := cur (o_state r); sub_status := submit_status status; sub_verdict := verdict |});
  '(s, r) ← apply_action s now r a (if Text.is_empty summary then None else Some summary);
  Some (if restartable r then push_run (project_run s r) r else s).

(** The gate of artifacts: a submission with claims waits until the runtime has
    seen them. *)
Definition gate_artifacts (s : Server) (now : N) (r : ActiveRun) (tok : N) (status : SubmissionStatus)
    (verdict : option str) (summary : str) (expected reported : list ArtifactClaim) : option Server :=
  if existsb (fun p => bool_decide (q_kind p = o_kind r) && (q_token p =? tok)) (pending_orchestration_submissions s) then Some s
  else
    pane ← current_pane r;
    Some match roots s !! pane with
    | None => s
    | Some project_root =>
        s <| pending_orchestration_submissions := pending_orchestration_submissions s ++ [{|
               q_kind := o_kind r; q_task_id := o_task_id r; q_token := tok; q_pane := pane; q_status := status;
               q_verdict := verdict; q_summary := summary; q_due := now + ARTIFACT_VALIDATION_TIMEOUT |}] |>
          <| sent := sent s ++ [ArtifactValidate (o_kind r) (o_task_id r) tok project_root expected reported] |>
    end.

(** [position(|run| run.state.token == token && run.state.phase == Awaiting)] *)
Definition awaiting_token (kind : OrchestrationKind) (s : Server) (tok : N) : option nat :=
  position (fun r => (token (o_state r) =? tok) && bool_decide (phase (o_state r) = Awaiting)) (runs kind s).

(** [on_workflow_submit] and [on_relay_submit]; a relay's submission has no
    verdict. *)
Definition on_submit (s : Server) (now : N) (kind : OrchestrationKind) (tok : N) (status : SubmissionStatus)
    (verdict : option str) (summary : str) (claims : list ArtifactClaim) (validated : bool) : option Server :=
  match awaiting_token kind s tok with
  | None => Some s
  | Some index =>
      let verdict := match kind with OWorkflow => verdict | ORelay => None end in
      let summary := take 16384 summary in
      let claims := map bounded_claim (take 64 claims) in
      let s := with_runs kind s (alter clear_deadlines index (runs kind s)) in
      r ← runs kind s !! index;
      let s := if validated then s else append_event s
        (Log.OrchestrationSubmitted kind (o_task_id r) tok status verdict summary (map claim_path claims)) in
      expected ← expected_artifacts_of r;
      if negb validated && bool_decide (status = SDone) && (negb (bool_decide (expected = [])) || negb (bool_decide (claims = [])))
      then gate_artifacts s now r tok status verdict summary expected claims
      else
        let s := if validated then append_event s
          (Log.OrchestrationArtifactsValidated kind (o_task_id r) tok (map claim_path claims)) else s in
        if bool_decide (status = SNeedsInput) then needs_input s r summary
        else advance_run s now kind index tok status verdict summary
  end.

(** ** What the runtime answers *)

Record ArtifactObservation : Set := {
  obs_kind : ArtifactKind; obs_path : str; obs_digest : str; obs_size : N }.

(** A request for the attention of the human about the gate. *)
Definition report_gate (s : Server) (kind : OrchestrationKind) (pane : N) (text : str) : Server :=
  request_waiting s pane None (waiting_kind kind) text.

Definition report_artifact_gate_failure (s : Server) (kind : OrchestrationKind) (tok : N) (error : str) : Server :=
  match r ← snd <$> list_find (fun r => token (o_state r) = tok) (runs kind s); current_pane r with
  | None => s
  | Some pane => report_gate s kind pane (lit "artifact gate failed: " ++ error)
  end.

(** The loop of [record_validated_artifacts]: the ledger with the observations
    and their events, or the error. *)
Fixpoint observe_all (l : ArtifactLedger) (project run role : N) (os : list ArtifactObservation)
    : result (ArtifactLedger * list ArtifactEvent) str :=
  match os with
  | [] => Ok (l, [])
  | o :: os =>
      let change := Observed (next_artifact_id l) project run role (obs_kind o) (obs_path o) (obs_digest o) (obs_size o) in
      match Artifact.apply l change with
      | (_, Err e) => Err e
      | (l, Ok _) => match observe_all l project run role os with
          | Ok (l, es) => Ok (l, change :: es)
          | Err e => Err e
          end
      end
  end.

Definition with_error (s : Server) (e : str) : Server := s <| durability_error := Some e |>.

Definition record_validated_artifacts (s : Server) (task_id : N) (os : list ArtifactObservation) : Server * bool :=
  if bool_decide (is_Some (durability_error s)) then (s, false)
  else match run_for_task (run_graph s) task_id with
  | None => (with_error s (lit "artifact validation for Task " ++ dec task_id ++ lit " had no owning Run"), false)
  | Some run_id =>
      match RunGraph.run (run_graph s) run_id with
      | None => (s, false)
      | Some run =>
          match active_role (run_graph s) run_id with
          | None => (with_error s (lit "artifact validation for Run " ++ dec run_id ++ lit " had no active Role"), false)
          | Some role =>
              match observe_all (artifacts s) (run_project run) run_id role os with
              | Err e => (with_error s (lit "artifact projection rejected: " ++ e), false)
              | Ok (next, changes) =>
                  let s := foldl (fun s change => append_event s (Log.ArtifactLedger change)) s changes in
                  let s := s <| artifacts := next |> in
                  (s <| artifact_sequence := current_sequence s |>, true)
              end
          end
      end
  end.

(** [AgentToCore::ArtifactValidated] *)
Definition artifact_validated (s : Server) (now : N) (kind : OrchestrationKind) (task_id tok : N)
    (os : list ArtifactObservation) (error : option str) : option Server :=
  match position (fun p => bool_decide (q_kind p = kind) && (q_task_id p =? task_id) && (q_token p =? tok))
          (pending_orchestration_submissions s) with
  | None => Some s
  | Some index =>
      '(pending, rest) ← swap_remove (pending_orchestration_submissions s) index;
      let s := s <| pending_orchestration_submissions := rest |> in
      match error with
      | Some error => Some (report_artifact_gate_failure s kind tok error)
      | None =>
          let '(s, recorded) := record_validated_artifacts s task_id os in
          if recorded : bool then
            on_submit s now kind tok (q_status pending) (q_verdict pending) (q_summary pending)
              (map (fun o => {| claim_kind := obs_kind o; claim_path := obs_path o |}) os) true
          else Some (report_artifact_gate_failure s kind tok
            (default (lit "Artifact ownership could not be recorded") (durability_error s)))
      end
  end.

(** [AgentToCore::RelayCheckpointCreated] *)
Definition relay_checkpoint_created (s : Server) (now task_id tok : N) (checkpoint error : option str) : option Server :=
  match position (fun p => (v_task_id p =? task_id) && (v_token p =? tok)) (pending_relay_activations s) with
  | None => Some s
  | Some index =>
      '(pending, rest) ← swap_remove (pending_relay_activations s) index;
      let s := s <| pending_relay_activations := rest |> in
      match position (fun r => (o_task_id r =? task_id) && (token (o_state r) =? tok)) (relays s) with
      | None => Some s
      | Some index =>
          let s := append_event s (Log.RelayCheckpointCreated task_id tok checkpoint error) in
          '(r, s) ← take_run ORelay s index;
          let r := match checkpoint with
            | Some c => r <| o_checkpoints := o_checkpoints r ++ [(tok, c)] |>
            | None => r
            end in
          '(s, r) ← apply_action s now r (Inject (v_role pending) tok) (v_handoff pending);
          Some (push_run (project_run s r) r)
      end
  end.

(** ** Timers *)

(** Deadlines that are over at [now]. *)
Definition due (deadline : option N) (now : N) : bool :=
  match deadline with Some d => d <=? now | None => false end.

(** The turn [tok] of a run is still open in [pane]. *)
Definition turn_open (s : Server) (kind : OrchestrationKind) (task_id tok pane : N) : bool :=
  existsb (fun r => (o_task_id r =? task_id) && (token (o_state r) =? tok) && bool_decide (current_pane r = Some pane))
    (runs kind s).

(** The prompt has arrived: the run's deadline is armed, and the role has
    started if this was its first prompt. *)
Definition delivered (now : N) (first : bool) (r : ActiveRun) : option ActiveRun :=
  let r := r <| o_stall_deadline := Some (now + ORCHESTRATION_STALL_TIMEOUT) |> in
  if first then _ ← o_started r !! cur (o_state r); Some (r <| o_started := <[cur (o_state r) := true]> (o_started r) |>)
  else Some r.

(** One due delivery of [flush_prompt_deliveries_due]. *)
Definition retry_delivery (s : Server) (now : N) (d : PendingPromptDelivery) : option Server :=
  if negb (turn_open s (d_kind d) (d_task_id d) (d_token d) (d_pane d)) then Some s
  else
    let '(p, accepted) := match panes s !! d_pane d with
      | Some _ => queue_pane_input (pty s) (d_pane d) (d_bytes d)
      | None => (pty s, false)
      end in
    let s := s <| pty := p |> in
    let s := append_event s (Log.OrchestrationDelivery (d_kind d) (d_task_id d) (d_token d) accepted) in
    let at_task := position (fun r => o_task_id r =? d_task_id d) in
    if accepted : bool then
      s ← match at_task (runs (d_kind d) s) with
          | Some i =>
              r ← runs (d_kind d) s !! i;
              r ← delivered now (d_first_delivery d) r;
              Some (with_runs (d_kind d) s (<[i := r]> (runs (d_kind d) s)))
          | None => Some s
          end;
      let s := if d_first_delivery d then bind_agent s (d_pane d) (d_agent_id d) else s in
      let s := resolve_waiting_kind s (d_pane d) (waiting_kind (d_kind d)) Resumed in
      match at_task (runs (d_kind d) s) with
      | Some i => r ← runs (d_kind d) s !! i; Some (project_run s r)
      | None => Some s
      end
    else
      let d := d <| d_attempts := sadd 255 (d_attempts d) 1 |> in
      Some (if d_attempts d <? 3 then schedule_prompt_retry s now d
            else report_gate s (d_kind d) (d_pane d) (lit "prompt delivery failed after three bounded attempts")).

(** A loop that may panic. *)
Fixpoint fold_option {A S} (f : S -> A -> option S) (s : S) (l : list A) : option S :=
  match l with
  | [] => Some s
  | x :: l => s ← f s x; fold_option f s l
  end.

Definition flush_prompt_deliveries_due (s : Server) (now : N) : option Server :=
  let ds := pending_prompt_deliveries s in
  fold_option (fun s d => retry_delivery s now d)
    (s <| pending_prompt_deliveries := filter (fun d => ~ d_due d <= now) ds |>)
    (filter (fun d => d_due d <= now) ds).

(** The runs for which [f] holds, by task; [body] is done for each that is still
    there, taken out of the list. *)
Definition for_each_run (kind : OrchestrationKind) (f : ActiveRun -> bool) (body : Server -> ActiveRun -> option Server)
    (s : Server) : option Server :=
  fold_option (fun s task_id =>
    match position (fun r => o_task_id r =? task_id) (runs kind s) with
    | None => Some s
    | Some index => '(r, s) ← take_run kind s index; body s r
    end) s (map o_task_id (filter (fun r => f r = true) (runs kind s))).

(** The body of [flush_orchestration_stalls]. *)
Definition stall_run (now : N) (s : Server) (r : ActiveRun) : option Server :=
  let r := r <| o_stall_deadline := None |> in
  '(st, a) ← match o_kind r with
             | OWorkflow => decide_workflow_next (o_state r) EStall
             | ORelay => decide_relay_next (o_state r) EStall
             end;
  '(s, r) ← apply_action s now (r <| o_state := st |>) a None;
  let s := project_run s r in
  Some (if finished r then s else push_run s r).

Definition flush_orchestration_stalls (s : Server) (now : N) : option Server :=
  let stalled := fun r => due (o_stall_deadline r) now in
  s ← for_each_run OWorkflow stalled (stall_run now) s;
  for_each_run ORelay stalled (stall_run now) s.

Definition elapsed_seconds (started_at_ms now_ms : N) : N := ssub now_ms started_at_ms / 1000.

Definition elapsed_deadline (now now_ms started_at_ms : N) (limits : GuardLimits) (already_triggered : bool) : option N :=
  if already_triggered then None
  else
    let elapsed_ms := ssub now_ms started_at_ms in
    let limit_ms := N.min (max_elapsed_seconds limits * 1000) u64_max in
    Some (now + ssub limit_ms elapsed_ms).

Definition record_guardrail (s : Server) (record : GuardrailRecord) : Server :=
  append_event s (Log.GuardrailDecision record).

(** The body of [flush_orchestration_elapsed_due]. *)
Definition elapse_run (now now_ms : N) (s : Server) (r : ActiveRun) : option Server :=
  let r := clear_deadlines (r <| o_elapsed_deadline := None |> <| o_elapsed_guard_triggered := true |>) in
  let limit := max_elapsed_seconds (o_guard_limits r) in
  let elapsed := N.max (elapsed_seconds (o_started_at_ms r) now_ms) limit in
  let decision := evaluate_elapsed elapsed limit in
  let stable_run := run_for_task (run_graph s) (o_task_id r) in
  let project := id ← stable_run; r ← RunGraph.run (run_graph s) id; Some (run_project r) in
  let s := record_guardrail s {| g_project := project; g_run := stable_run;
    g_action := ElapsedLimit elapsed limit; g_decision := decision |} in
  match decision with
  | Ask reason | Deny reason =>
      '(st, a) ← match o_kind r with
                 | OWorkflow => decide_workflow_next (o_state r) (EGuardrail reason)
                 | ORelay => decide_relay_next (o_state r) (EGuardrail reason)
                 end;
      '(s, r) ← apply_action s now (r <| o_state := st |>) a None;
      Some (push_run (project_run s r) r)
  | Allow =>
      Some (push_run s (r <| o_elapsed_guard_triggered := false |>
        <| o_elapsed_deadline := elapsed_deadline now now_ms (o_started_at_ms r) (o_guard_limits r) false |>))
  end.

Definition flush_orchestration_elapsed_due (s : Server) (now now_ms : N) : option Server :=
  let elapsed := fun r => bool_decide (phase (o_state r) = Awaiting) && due (o_elapsed_deadline r) now in
  s ← for_each_run OWorkflow elapsed (elapse_run now now_ms) s;
  for_each_run ORelay elapsed (elapse_run now now_ms) s.

(** A run that waits for a human or for its artifacts is not idle. *)
Definition disarm_idle (s : Server) (r : ActiveRun) : ActiveRun :=
  if match current_pane r with Some pane => existsb (fun i => w_pane i =? pane) (items (waiting s)) | None => false end
     || existsb (fun p => q_token p =? token (o_state r)) (pending_orchestration_submissions s)
  then r <| o_idle_deadline := None |> else r.

(** The body of [flush_orchestration_idle_due]. *)
Definition idle_run (now : N) (s : Server) (r : ActiveRun) : option Server :=
  let r := clear_deadlines r in
  '(s, r, a) ← decide_run s r (EIdle (cur (o_state r)));
  '(s, r) ← apply_action s now r a None;
  Some (if finished r then s else push_run (project_run s r) r).

Definition flush_orchestration_idle_due (s : Server) (now : N) : option Server :=
  let s := s <| workflows := map (disarm_idle s) (workflows s) |> <| relays := map (disarm_idle s) (relays s) |> in
  let idle := fun r => due (o_idle_deadline r) now in
  s ← for_each_run OWorkflow idle (idle_run now) s;
  for_each_run ORelay idle (idle_run now) s.

(** One due submission of [flush_artifact_validations_due]. *)
Definition expire_validation (s : Server) (p : PendingOrchestrationSubmission) : Server :=
  if turn_open s (q_kind p) (q_task_id p) (q_token p) (q_pane p)
  then report_gate s (q_kind p) (q_pane p) (lit "artifact validation timed out; resume the role and submit again")
  else s.

Definition flush_artifact_validations_due (s : Server) (now : N) : Server :=
  let qs := pending_orchestration_submissions s in
  foldl expire_validation
    (s <| pending_orchestration_submissions := filter (fun p => ~ q_due p <= now) qs |>)
    (filter (fun p => q_due p <= now) qs).

Definition orchestration_idle_allowed (has_waiting_item has_pending_validation verifier has_expected_artifacts : bool) : bool :=
  negb has_waiting_item && negb has_pending_validation && negb verifier && negb has_expected_artifacts.

(** [reconcile_orchestration_idle] on one run; [None] is the index of the
    template's role. *)
Definition reconcile_idle (s : Server) (now pane : N) (status : AgentStatus) (r : ActiveRun) : option ActiveRun :=
  if negb (bool_decide (current_pane r = Some pane)) || negb (bool_decide (phase (o_state r) = Awaiting)) then Some r
  else
    '(verifier, expected) ← match o_kind r with
      | OWorkflow =>
          template ← o_template r;
          spec ← template_roles template !! cur (o_state r);
          Some (spec_verifier spec, negb (bool_decide (expected_artifacts spec = [])))
      | ORelay => Some (false, false)
      end;
    Some (r <| o_idle_deadline :=
      if orchestration_idle_allowed (existsb (fun i => w_pane i =? pane) (items (waiting s)))
           (existsb (fun p => q_token p =? token (o_state r)) (pending_orchestration_submissions s)) verifier expected
      then if bool_decide (status = Agent.Idle) then Some (now + 5 * 1000) else None
      else None |>).

Fixpoint map_option {A B} (f : A -> option B) (l : list A) : option (list B) :=
  match l with
  | [] => Some []
  | x :: l => y ← f x; ys ← map_option f l; Some (y :: ys)
  end.

Definition reconcile_orchestration_idle (s : Server) (now pane : N) (status : AgentStatus) : option Server :=
  ws ← map_option (reconcile_idle s now pane status) (workflows s);
  rs ← map_option (reconcile_idle s now pane status) (relays s);
  Some (s <| workflows := ws |> <| relays := rs |>).

(** [arm_orchestration_deadline] *)
Definition arm_first (now pane : N) (l : list ActiveRun) : list ActiveRun :=
  match position (fun r => bool_decide (current_pane r = Some pane) && bool_decide (phase (o_state r) = Awaiting)) l with
  | Some i => alter (fun r => r <| o_stall_deadline := Some (now + ORCHESTRATION_STALL_TIMEOUT) |>) i l
  | None => l
  end.

Definition arm_orchestration_deadline (s : Server) (now pane : N) : Server :=
  s <| workflows := arm_first now pane (workflows s) |> <| relays := arm_first now pane (relays s) |>.

(** ** Humans *)

(** The body of [resume_waiting_orchestration]: a paused run opens its turn
    again with a new token, an open turn is delivered again as it is. *)
Definition resume_run (now now_ms : N) (s : Server) (r : ActiveRun) : option Server :=
  '(s, r, a) ← if bool_decide (phase (o_state r) = Paused) then
      decide_run s (r <| o_elapsed_deadline :=
        elapsed_deadline now now_ms (o_started_at_ms r) (o_guard_limits r) (o_elapsed_guard_triggered r) |>) EResume
    else Some (s, r, Inject (cur (o_state r)) (token (o_state r)));
  let s := set_task_status s (o_task_id r) Doing in
  '(s, r) ← apply_action s now r a None;
  Some (push_run (project_run s r) r).

Definition resumable (pane : N) (r : ActiveRun) : bool := bool_decide (current_pane r = Some pane) && restartable r.

Definition resume_waiting_orchestration (s : Server) (now now_ms pane : N) : option Server :=
  match position (resumable pane) (workflows s) with
  | Some index => '(r, s) ← take_run OWorkflow s index; resume_run now now_ms s r
  | None =>
      match position (resumable pane) (relays s) with
      | Some index => '(r, s) ← take_run ORelay s index; resume_run now now_ms s r
      | None => Some s
      end
  end.

(** A run whose role lost its Pane, taken out. *)
Definition cancel_run (s : Server) (r : ActiveRun) : Server :=
  let s := s <| pending_orchestration_submissions :=
    filter (fun p => q_task_id p <> o_task_id r) (pending_orchestration_submissions s) |> in
  let s := record_orchestration_terminal s (o_task_id r) Canceled (lit "role Pane closed") in
  let s := append_event s (Log.OrchestrationFinished (o_kind r) (o_task_id r) (lit "role Pane closed")) in
  let s := set_task_status s (o_task_id r) Blocked in
  match o_kind r with
  | OWorkflow => s
  | ORelay => s <| pending_relay_activations :=
      filter (fun p => v_task_id p <> o_task_id r) (pending_relay_activations s) |>
  end.

(** A [while] over an index that grows or a list that shrinks: the fuel is the
    length of the list. *)
Fixpoint cancel_loop (fuel : nat) (kind : OrchestrationKind) (pane : N) (index : nat) (s : Server) : option Server :=
  match fuel with
  | O => Some s
  | S fuel =>
      match runs kind s !! index with
      | None => Some s
      | Some r =>
          if bool_decide (pane ∈ o_role_panes r) then
            '(r, s) ← take_run kind s index; cancel_loop fuel kind pane index (cancel_run s r)
          else cancel_loop fuel kind pane (S index) s
      end
  end.

Definition cancel_orchestrations_for_pane (s : Server) (pane : N) : option Server :=
  s ← cancel_loop (length (workflows s)) OWorkflow pane 0 s;
  cancel_loop (length (relays s)) ORelay pane 0 s.

(** ** Launch

    [launch_workflow_with_parent] and [launch_relay_with_parent] from the point
    where the guardrails have allowed the launch (Guardrail.v), the providers of
    the roles are resolved (Launch.v) and every role has its Pane. *)

Record GuardedLaunch : Set := {
  gl_project : N; gl_project_name : str; gl_limits : GuardLimits; gl_started_at_ms : N }.

Definition relay_roles : list Role :=
  [requiring (lit "builder") false interactive; requiring (lit "reviewer") false interactive].

(** What the kinds of run differ in: the roles, the title and the context of the
    task. *)
Record RunPlan : Set := {
  pl_kind : OrchestrationKind; pl_template : option WorkflowTemplate; pl_roles : list Role }.

Definition workflow_plan (t : WorkflowTemplate) : RunPlan :=
  {| pl_kind := OWorkflow; pl_template := Some t; pl_roles := engine_roles t |}.
Definition relay_plan : RunPlan := {| pl_kind := ORelay; pl_template := None; pl_roles := relay_roles |}.

Definition run_title (p : RunPlan) (g : GuardedLaunch) (goal : str) : str :=
  lit "# project " ++ gl_project_name g ++ lit ": "
  ++ match pl_template p with Some t => lit "workflow " ++ template_name t | None => lit "relay" end
  ++ lit ": " ++ trim goal.

Definition run_context (p : RunPlan) (g : GuardedLaunch) (goal : str) (providers : list ResolvedRoleProvider) : TaskContext := {|
  t_project := Some (gl_project g); t_pane := None; t_invocation := None; t_source_task := None;
  t_provider := None; t_prompt := Some goal; t_model := None; t_profile := None;
  t_workflow := template_name <$> pl_template p;
  t_relay := match pl_kind p with ORelay => true | OWorkflow => false end;
  t_role_providers := zip_with (fun role provider => {|
    sel_role := Orchestrate.role_name role; sel_provider := rp_id provider |}) (pl_roles p) providers |}.

Definition fresh_run (p : RunPlan) (now now_ms : N) (g : GuardedLaunch) (goal : str)
    (providers : list ResolvedRoleProvider) (role_panes : list N) (task_id : N) : ActiveRun := {|
  o_kind := pl_kind p; o_state := State_new (pl_roles p) (Guardrail.max_iterations (gl_limits g));
  o_template := pl_template p; o_goal := goal; o_role_providers := providers; o_role_panes := role_panes;
  o_started := replicate (length role_panes) false; o_task_id := task_id; o_checkpoints := [];
  o_started_at_ms := gl_started_at_ms g; o_guard_limits := gl_limits g; o_elapsed_guard_triggered := false;
  o_elapsed_deadline := elapsed_deadline now now_ms (gl_started_at_ms g) (gl_limits g) false;
  o_stall_deadline := None; o_idle_deadline := None |}.

(** The first builder of a relay waits for a checkpoint of its Project. *)
Definition checkpoint_of (s : Server) (r : ActiveRun) (a : Action) : option (option (nat * N * str)) :=
  match o_kind r, a with
  | ORelay, Inject role tok =>
      spec ← Orchestrate.roles (o_state r) !! role;
      if bool_decide (Orchestrate.role_name spec = lit "builder") then
        pane ← o_role_panes r !! role; Some (root ← roots s !! pane; Some (role, tok, root))
      else Some None
  | _, _ => Some None
  end.

Definition launch_run (s : Server) (now now_ms : N) (p : RunPlan) (parent : option N) (g : GuardedLaunch)
    (goal : str) (providers : list ResolvedRoleProvider) (role_panes : list N) : option (Server * N) :=
  let goal := take 65536 goal in
  let title := run_title p g goal in
  let '(s, task_id) := create_task s title Doing in
  let s := set_task_details s task_id [] (run_context p g goal providers) in
  let r := fresh_run p now now_ms g goal providers role_panes task_id in
  let roles := zip_with (fun role pp => (Orchestrate.role_name role, pp.1, rp_id pp.2)) (pl_roles p) (zip role_panes providers) in
  let '(s, run) := create_orchestration_run s parent (run_kind_of (pl_kind p)) task_id title (gl_project g) roles in
  '(s, r, a) ← decide_run s r EStart;
  checkpoint ← checkpoint_of s r a;
  '(s, r) ← match checkpoint with Some _ => Some (s, r) | None => apply_action s now r a None end;
  let s := project_run s r in
  let s := if restartable r then push_run s r else s in
  let s := match checkpoint with
    | Some (role, tok, root) =>
        s <| pending_relay_activations := pending_relay_activations s ++
               [{| v_task_id := task_id; v_role := role; v_token := tok; v_handoff := None |}] |>
          <| sent := sent s ++ [RelayCheckpointCreate task_id tok root] |>
    | None => s
    end in
  Some (s, run).

(** ** Recovery *)

Definition recovered_run_shape_error (run : DurableOrchestration) (pane_exists : N -> bool) : option str :=
  let st := do_state run in
  let limits := dg_limits (do_guardrail run) in
  let panes := length (do_role_panes run) in
  if negb (match phase st with Awaiting | Paused => true | _ => false end) then Some (lit "run was not in a restartable phase")
  else if negb (is_ok (validate limits)) then Some (lit "run contained invalid guardrail limits")
  else if negb ((1 <=? Orchestrate.max_iterations st) && (Orchestrate.max_iterations st <=? GUARDRAIL_MAX_ITERATIONS))
    then Some (lit "run contained an invalid state-machine iteration limit")
  else if negb (dg_started_at_ms (do_guardrail run) =? 0) && negb (Guardrail.max_iterations limits =? Orchestrate.max_iterations st)
    then Some (lit "run guardrail and state-machine iteration limits disagreed")
  else if token st =? 0 then Some (lit "run had no outstanding activation token")
  else if (length (Orchestrate.roles st) <=? cur st)%nat then Some (lit "current role was outside the role list")
  else if negb (panes =? length (Orchestrate.roles st))%nat || negb (length (do_started run) =? panes)%nat
    then Some (lit "role, Pane, and launch-state lengths disagreed")
  else if negb (bool_decide (do_role_providers run = [])) && negb (length (do_role_providers run) =? length (Orchestrate.roles st))%nat
    then Some (lit "role and provider-selection lengths disagreed")
  else if bool_decide (do_role_providers run = []) && (Text.is_empty (do_agent_id run) || Text.is_empty (do_agent_cmd run))
    then Some (lit "run had no recoverable provider ownership")
  else if existsb (fun p => Text.is_empty (rp_provider p) || Text.is_empty (Events.rp_command p)) (do_role_providers run)
    then Some (lit "one or more role providers were empty")
  else if existsb (fun pane => negb (pane_exists pane)) (do_role_panes run)
    then Some (lit "one or more role Panes could not be restored")
  else match do_kind run with
  | OWorkflow =>
      if match name ← do_template run; workflow_template name with
         | Some t => (length (template_roles t) =? panes)%nat
         | None => false
         end
      then None else Some (lit "workflow template was missing or incompatible")
  | ORelay => if (panes =? 2)%nat then None else Some (lit "relay did not contain exactly two roles")
  end.

Definition recovered_role_providers (run : DurableOrchestration) : list ResolvedRoleProvider :=
  match do_role_providers run with
  | [] => map (fun _ => {| rp_id := do_agent_id run; Launch.rp_command := do_agent_cmd run |}) (Orchestrate.roles (do_state run))
  | ps => map (fun p => {| rp_id := rp_provider p; Launch.rp_command := Events.rp_command p |}) ps
  end.

Definition restored_provider_conflicts (expected : str) (observed : option str) : bool :=
  match observed with Some o => negb (bool_decide (o = expected)) | None => false end.

(** The agent bound to a Pane. *)
Definition bound_agent (s : Server) (pane : N) : option str :=
  p ← panes s !! pane; a ← p_agent p; Some (fst a).

Definition reject_recovered_orchestration (s : Server) (run : DurableOrchestration) (reason : str) : Server :=
  let outcome := lit "recovery rejected: " ++ reason in
  let s := record_orchestration_terminal s (do_task_id run) RunGraph.Failed outcome in
  let s := append_event s (Log.OrchestrationFinished (do_kind run) (do_task_id run) outcome) in
  set_task_status s (do_task_id run) Blocked.

(** The run as it goes on: a migrated one starts its clock now. *)
Definition recovered_run (s : Server) (now now_ms : N) (run : DurableOrchestration) (template : option WorkflowTemplate)
    (started : list bool) (safely_resumed : bool) : ActiveRun :=
  let g := do_guardrail run in
  let fresh := dg_started_at_ms g =? 0 in
  let started_at_ms := if fresh then now_ms else dg_started_at_ms g in
  let l := dg_limits g in
  let limits := if fresh then {| max_active_runs := max_active_runs l; max_role_panes := max_role_panes l;
      Guardrail.max_iterations := Orchestrate.max_iterations (do_state run); max_elapsed_seconds := max_elapsed_seconds l |} else l in
  {| o_kind := do_kind run; o_state := do_state run; o_template := template; o_goal := do_goal run;
     o_role_providers := recovered_role_providers run; o_role_panes := do_role_panes run; o_started := started;
     o_task_id := do_task_id run;
     o_checkpoints := match do_kind run with OWorkflow => [] | ORelay => do_checkpoints run end;
     o_started_at_ms := started_at_ms; o_guard_limits := limits;
     o_elapsed_guard_triggered := dg_elapsed_triggered g;
     o_elapsed_deadline := if bool_decide (phase (do_state run) = Awaiting)
       then elapsed_deadline now now_ms started_at_ms limits (dg_elapsed_triggered g) else None;
     o_stall_deadline := if safely_resumed then Some (now + ORCHESTRATION_STALL_TIMEOUT) else None;
     o_idle_deadline := None |}.

(** One round of [restore_orchestrations], with the tokens seen so far. *)
Definition restore_one (now now_ms : N) (acc : list N * Server) (run : DurableOrchestration) : option (list N * Server) :=
  let '(seen, s) := acc in
  match recovered_run_shape_error run (fun pane => bool_decide (is_Some (panes s !! pane))) with
  | Some reason => Some (seen, reject_recovered_orchestration s run reason)
  | None =>
      let providers := recovered_role_providers run in
      let bound := map (fun pp => (bound_agent s pp.1, rp_id pp.2)) (zip (do_role_panes run) providers) in
      if existsb (fun b => restored_provider_conflicts b.2 b.1) bound then
        Some (seen, reject_recovered_orchestration s run (lit "a restored Pane was owned by a different provider"))
      else if bool_decide (token (do_state run) ∈ seen) then
        Some (seen, reject_recovered_orchestration s run (lit "activation token duplicated another recovered run"))
      else
        let seen := token (do_state run) :: seen in
        current_pane ← do_role_panes run !! cur (do_state run);
        let started := map (fun b => bool_decide (b.1 = Some b.2)) bound in
        safely_resumed ← started !! cur (do_state run);
        template ← match do_kind run with
          | OWorkflow => name ← do_template run; t ← workflow_template name; Some (Some t)
          | ORelay => Some None
          end;
        let s := push_run s (recovered_run s now now_ms run template started safely_resumed) in
        Some (seen,
          if negb safely_resumed && negb (existsb (fun i => w_pane i =? current_pane) (items (waiting s)))
          then request_waiting s current_pane None (waiting_kind (do_kind run))
            (lit "run recovered, but the provider supplied no safe native resume command; resume to start a fresh role invocation")
          else s)
  end.

Definition restore_orchestrations (s : Server) (now now_ms : N) (rs : list DurableOrchestration) : option Server :=
  '(_, s) ← fold_option (restore_one now now_ms) ([], s) rs; Some s.
End Server.
