(* ===== verification/Runs.v ===== *)
(** * The calls behind the handlers of live orchestrations

    What the engine answers, what recovery reads of the events, what the calls
    that the handlers of Turns.v share leave alone, and the lists of runs. *)

From S2P Require Import Prelude Artifact RunGraph Guardrail Waiting Tasks Orchestrate Events EventLog Replay Launch Xorshift Turns.

(** ** The engine, by its answer *)

Definition after (st : State) (a : Action) (st' : State) : Prop :=
  match a with
  | Inject role _ => role = cur st' /\ phase st' = Awaiting
  | Complete => phase st' = PDone /\ token st' = token st
  | AbortRun _ => phase st' = Aborted /\ token st' = token st
  | Escalate _ => phase st' = Paused /\ token st' = token st
  | AwaitSubmit | Hold => st' = st
  end.

Lemma engine_answer st e : Orchestrate.wf st ->
  exists st' a, step st e = Some (st', a) /\ Orchestrate.wf st' /\ Orchestrate.same_shape st st' /\ after st a st'.
Proof.
  intros H. destruct (step_answered st e H) as ([st' a] & Hs & Ha). exists st', a. split; [done|].
  destruct (answered_wf st e (st', a) H Ha) as [Hw Hsh]. split_and!; [done|done|].
  destruct Ha as [[= -> ->]|Ht]; [done|]. cbn in Ht. by destruct Ht.
Qed.

(** The events that no decision of the server's clock answers with a prompt. *)
Lemma engine_pauses st e : Orchestrate.wf st -> e = EStall \/ (exists m, e = EGuardrail m) ->
  exists st' a, step st e = Some (st', a) /\ Orchestrate.wf st' /\ Orchestrate.same_shape st st' /\ token st' = token st
    /\ (phase st = Awaiting \/ phase st = Paused -> phase st' = Paused) /\ (forall r t, a <> Inject r t)
    /\ after st a st' /\ a <> Complete /\ (forall m, a <> AbortRun m).
Proof.
  intros Hw He. destruct (engine_answer st e Hw) as (st' & a & Hs & Hw' & Hsh & Ha). exists st', a.
  assert ((exists m, a = Escalate m) /\ phase st' = Paused \/ a = Hold /\ phase st <> Awaiting /\ st' = st) as H.
  { unfold step in Hs. destruct He as [->|[m ->]]; destruct (phase st) eqn:E; injection Hs as <- <-;
      (left; split; [by eexists|done]) || by right. }
  destruct H as [[[m ->] Hp]|(-> & Hp & ->)]; cbn in Ha; split_and!; try done; try tauto.
Qed.

(** ** What recovery reads *)

(** Events that say nothing about orchestrations to recover. *)
Definition neutral (e : LogEvent) : bool :=
  match e with
  | Log.RecoveryCheckpoint _ | Log.OrchestrationProjected _ | Log.OrchestrationFinished _ _ _ => false
  | _ => true
  end.

(** The orchestrations that recovery reads from a log (Replay.v), from those
    that an earlier process left. *)
Definition replay_event (m : gmap N DurableOrchestration) (e : LogEvent) : gmap N DurableOrchestration :=
  orchestrations_step {| r_sequence := None; r_workspace := None; r_event := e |} m.

Lemma replay_neutral m e : neutral e = true -> replay_event m e = m.
Proof. by destruct e. Qed.

Lemma replay_again m e : (forall st, e <> Log.RecoveryCheckpoint st) -> replay_event (replay_event m e) e = replay_event m e.
Proof.
  intros H. destruct e; try done; [cbn; apply insert_insert_eq|cbn; apply delete_delete_eq].
Qed.

Section Turns.
Context {P : Ptys}.

Definition recoverable (m : gmap N DurableOrchestration) (s : Server) : gmap N DurableOrchestration :=
  foldl replay_event m (log s).

(** The calls leave the runs and the generator of tokens alone, and change what
    recovery reads by [f]. *)
Record changed (f : gmap N DurableOrchestration -> gmap N DurableOrchestration) (s s' : Server) : Prop := {
  ch_workflows : workflows s' = workflows s;
  ch_relays : relays s' = relays s;
  ch_state : orchestration_token_state s' = orchestration_token_state s;
  ch_writes : event_writes_enabled s' = event_writes_enabled s;
  ch_next : Tasks.next_id (tasks s) <= Tasks.next_id (tasks s');
  ch_pending : (length (pending_orchestration_submissions s') <= length (pending_orchestration_submissions s))%nat;
  ch_activations : forall v, v ∈ pending_relay_activations s' -> v ∈ pending_relay_activations s;
  ch_recoverable : forall m, recoverable m s' = f (recoverable m s) }.

Definition kept : Server -> Server -> Prop := changed id.

Lemma changed_trans f g s s1 s2 : changed f s s1 -> changed g s1 s2 -> changed (g ∘ f) s s2.
Proof.
  intros [A1 B1 C1 D1 E1 F1 G1 H1] [A2 B2 C2 D2 E2 F2 G2 H2]. split; try congruence; try lia; [naive_solver|].
  intros m. cbn. by rewrite H2, H1.
Qed.

#[global] Instance kept_preorder : PreOrder kept.
Proof. split; [by intros s; split|]. intros s s1 s2 H1 H2. exact (changed_trans _ _ _ _ _ H1 H2). Qed.

(** A call that leaves recovery alone, before or after. *)
Lemma changed_kept f s s1 s2 : changed f s s1 -> kept s1 s2 -> changed f s s2.
Proof. apply changed_trans. Qed.

Lemma kept_changed f s s1 s2 : kept s s1 -> changed f s1 s2 -> changed f s s2.
Proof. apply (changed_trans id f). Qed.

Lemma changed_runs f s s' kind : changed f s s' -> runs kind s' = runs kind s.
Proof. intros H. destruct kind; apply H. Qed.

Lemma update_next l id f : Tasks.next_id (update l id f).1 = Tasks.next_id l.
Proof. unfold update. by destruct (list_find _ _) as [[i x]|]. Qed.

(** What an event changes besides the log. *)
Definition same_fields (s s' : Server) : Prop :=
  workflows s' = workflows s /\ relays s' = relays s /\ orchestration_token_state s' = orchestration_token_state s
  /\ event_writes_enabled s' = event_writes_enabled s /\ Tasks.next_id (tasks s') = Tasks.next_id (tasks s)
  /\ pending_orchestration_submissions s' = pending_orchestration_submissions s
  /\ pending_relay_activations s' = pending_relay_activations s.

Lemma same_fields_trans s s1 s2 : same_fields s s1 -> same_fields s1 s2 -> same_fields s s2.
Proof. intros (A&B&C&D&E&F&G) (A'&B'&C'&D'&E'&F'&G'). unfold same_fields. split_and!; congruence. Qed.

Lemma rebound_fields e s : same_fields s (rebound e s) /\ log (rebound e s) = log s.
Proof. destruct e; try done. by destruct previous_invocation. Qed.

Lemma noted_fields e s : same_fields s (noted_invocation e s) /\ log (noted_invocation e s) = log s.
Proof. by destruct e. Qed.

Lemma touched_fields e s : same_fields s (touched_task e s) /\ log (touched_task e s) = log s.
Proof. destruct e; try done; (split; [|done]); split_and!; try done; apply update_next. Qed.

Lemma append_fields s e : same_fields s (append_event s e)
  /\ log (append_event s e) = (if event_writes_enabled s && negb (bool_decide (last (log s) = Some e) && negb (always_recorded e))
               then log s ++ [e] else log s).
Proof.
  unfold append_event. destruct (event_writes_enabled s); cbn [negb andb]; [|done].
  destruct (bool_decide _ && _); cbn [negb]; [done|].
  match goal with |- context [rebound e ?x] => set (s0 := x) end.
  destruct (rebound_fields e s0) as [H1 L1], (noted_fields e (rebound e s0)) as [H2 L2],
    (touched_fields e (noted_invocation e (rebound e s0))) as [H3 L3].
  split; [|by rewrite L3, L2, L1]. eapply same_fields_trans; [|exact H3]. eapply same_fields_trans; [|exact H2].
  eapply same_fields_trans; [|exact H1]. done.
Qed.

Lemma append_recoverable s e m : event_writes_enabled s = true -> (forall st, e <> Log.RecoveryCheckpoint st) ->
  recoverable m (append_event s e) = replay_event (recoverable m s) e.
Proof.
  intros Hw He. destruct (append_fields s e) as [_ E]. unfold recoverable. rewrite E, Hw. cbn [andb].
  destruct (bool_decide _) eqn:Hl; cbn [andb negb]; [|by rewrite foldl_snoc].
  destruct (always_recorded e) eqn:Ha; cbn [negb]; [by rewrite foldl_snoc|].
  apply bool_decide_eq_true, last_Some in Hl as [l ->]. rewrite foldl_snoc. by rewrite replay_again.
Qed.

Lemma changed_append s e : event_writes_enabled s = true -> (forall st, e <> Log.RecoveryCheckpoint st) ->
  changed (fun D => replay_event D e) s (append_event s e).
Proof.
  intros Hw He. destruct (append_fields s e) as [(A&B&C&D&E&F&G) L]. split; try done; rewrite ?E, ?F, ?G; try done.
  intros m. by apply append_recoverable.
Qed.

Lemma kept_append s e : neutral e = true -> kept s (append_event s e).
Proof.
  intros He. destruct (append_fields s e) as [(A&B&C&D&E&F&G) L]. split; try done; rewrite ?E, ?F, ?G; try done. intros m. unfold recoverable. rewrite L.
  destruct (_ && _); [|done]. by rewrite foldl_snoc, replay_neutral.
Qed.

Lemma changed_finished s kind t outcome : event_writes_enabled s = true ->
  changed (base.delete t) s (append_event s (Log.OrchestrationFinished kind t outcome)).
Proof. intros Hw. by apply (changed_append s (Log.OrchestrationFinished kind t outcome)). Qed.

Lemma changed_projected s r : event_writes_enabled s = true -> changed <[o_task_id r := durable r]> s (project_run s r).
Proof. intros Hw. by apply (changed_append s (Log.OrchestrationProjected (durable r))). Qed.

Ltac unfold_fields := unfold put_field; cbn.

Lemma kept_waiting s c : kept s (record_waiting_change s c).
Proof. destruct c; cbn; try done; try by apply kept_append. etrans; by apply kept_append. Qed.

Lemma kept_request s pane inv kind text : kept s (request_waiting s pane inv kind text).
Proof.
  unfold request_waiting. destruct (request _ _ _ _ _) as [q c]. etrans; [|apply kept_waiting]. by split.
Qed.

Lemma kept_resolve s pane kind r : kept s (resolve_waiting_kind s pane kind r).
Proof.
  unfold resolve_waiting_kind. destruct (resolve_pane_kind _ _ _) as [q [item|]]; [|by split].
  etrans; [|by apply kept_append]. by split.
Qed.

Lemma kept_status s id st : kept s (set_task_status s id st).
Proof.
  unfold set_task_status, Tasks.set_status. pose proof (update_next (tasks s) id (put_status st)) as H.
  destruct (update _ _ _) as [l b]. assert (kept s (put_field (p := tasks) l s)) as Hk by (split; unfold_fields; try done; cbn in H; lia).
  destruct b; [|done]. etrans; [exact Hk|by apply kept_append].
Qed.

Lemma kept_graph s c : kept s (record_run_graph_change s c).
Proof.
  unfold record_run_graph_change. destruct (RunGraph.apply _ _) as [g [u|e]]; [|by split].
  etrans; [by apply (kept_append s (Log.RunGraph c))|]. by split.
Qed.

Lemma kept_activation s t i : kept s (record_orchestration_activation s t i).
Proof.
  unfold record_orchestration_activation. destruct (run_for_task _ _); [|done]. destruct (role_at _ _ _); [|done]. apply kept_graph.
Qed.

Lemma kept_terminal s t st o : kept s (record_orchestration_terminal s t st o).
Proof.
  unfold record_orchestration_terminal. destruct (run_for_task _ _); [|done].
  destruct (match RunGraph.run _ _ with Some _ => _ | None => _ end); [done|]. destruct st; try done; apply kept_graph.
Qed.

Lemma kept_foldl {A} (f : Server -> A -> Server) l : (forall s x, kept s (f s x)) -> forall s, kept s (foldl f s l).
Proof. intros Hf. induction l as [|x l IH]; intros s; [done|]. cbn. etrans; [apply Hf|apply IH]. Qed.

Lemma kept_create s parent kind t title project roles : kept s (create_orchestration_run s parent kind t title project roles).1.
Proof.
  unfold create_orchestration_run. cbn [fst]. etrans; [|apply kept_foldl; intros s' [[name pane] provider]; apply kept_graph].
  apply kept_graph.
Qed.

Lemma kept_deliver s pane first bytes : kept s (deliver s pane first bytes).1.
Proof.
  unfold deliver. destruct (if first then _ else _) as [p ready]. destruct ready; [|by split].
  destruct (queue_pane_input _ _ _) as [p' b]. by split.
Qed.

Lemma kept_bind s pane id : kept s (bind_agent s pane id).
Proof.
  unfold bind_agent. destruct (panes s !! pane) as [p|]; [|done]. etrans; [|by apply kept_append]. etrans; [|by apply kept_append]. by split.
Qed.

Lemma kept_retry s now d : kept s (schedule_prompt_retry s now d).
Proof. by split. Qed.

Lemma kept_details s id notes c : kept s (set_task_details s id notes c).
Proof.
  unfold set_task_details. destruct (match Tasks.get _ _ with Some _ => _ | None => _ end); [done|].
  etrans; [by apply (kept_append s (Log.TaskDetailsUpdated id notes c))|].
  split; unfold_fields; try done. unfold touch, set_details. by rewrite !update_next.
Qed.

Lemma kept_artifacts s t os : kept s (record_validated_artifacts s t os).1.
Proof.
  unfold record_validated_artifacts. destruct (bool_decide _); [done|]. destruct (run_for_task _ _); [|by split].
  destruct (RunGraph.run _ _); [|done]. destruct (active_role _ _); [|by split]. destruct (observe_all _ _ _ _ _) as [[l es]|e]; [|by split].
  etrans; [apply (kept_foldl (fun s change => append_event s (Log.ArtifactLedger change)) es); intros; by apply kept_append|]. by split.
Qed.

Lemma kept_guardrail s g : kept s (record_guardrail s g).
Proof. by apply kept_append. Qed.

Lemma kept_expire s p : kept s (expire_validation s p).
Proof. unfold expire_validation. destruct (turn_open _ _ _ _ _); [apply kept_request|done]. Qed.

(** ** Lists of runs *)

Definition all_runs (s : Server) : list ActiveRun := workflows s ++ relays s.
Definition run_token (r : ActiveRun) : N := token (o_state r).

(** A well-formed run; one that is live besides. *)
Record shaped (r : ActiveRun) : Prop := {
  sh_state : Orchestrate.wf (o_state r);
  sh_panes : length (o_role_panes r) = length (Orchestrate.roles (o_state r));
  sh_started : length (o_started r) = length (Orchestrate.roles (o_state r));
  sh_providers : length (o_role_providers r) = length (Orchestrate.roles (o_state r));
  sh_template : o_kind r = OWorkflow ->
    exists t, o_template r = Some t /\ length (template_roles t) = length (Orchestrate.roles (o_state r)) }.

Definition live (kind : OrchestrationKind) (r : ActiveRun) : Prop :=
  o_kind r = kind /\ shaped r /\ restartable r = true.

(** What recovery depends on. *)
Definition same_run (r r' : ActiveRun) : Prop :=
  o_kind r' = o_kind r /\ o_task_id r' = o_task_id r /\ o_goal r' = o_goal r /\ o_role_panes r' = o_role_panes r
  /\ o_template r' = o_template r /\ o_role_providers r' = o_role_providers r /\ o_checkpoints r' = o_checkpoints r
  /\ o_state r' = o_state r /\ length (o_started r') = length (o_started r).

#[global] Instance same_run_preorder : PreOrder same_run.
Proof. split; [by intros r|]. intros r r1 r2 (A1&B1&C1&D1&E1&F1&G1&H1&I1) (A2&B2&C2&D2&E2&F2&G2&H2&I2). unfold same_run. split_and!; congruence. Qed.

Lemma same_shaped r r' : same_run r r' -> shaped r -> shaped r'.
Proof.
  intros (A&B&C&D&E&F&G&H&I) [H1 H2 H3 H4 H5]. split; rewrite ?H, ?D, ?I, ?F; try done. rewrite A. intros Hk. rewrite E. by apply H5.
Qed.

Lemma same_live kind r r' : same_run r r' -> live kind r -> live kind r'.
Proof.
  intros Hs (H1 & H2 & H3). pose proof Hs as (A&_&_&_&_&_&_&H&_). split_and!; [congruence|by eapply same_shaped|].
  unfold restartable in *. by rewrite H.
Qed.

Lemma swap_remove_spec {A} (l : list A) i x : l !! i = Some x ->
  exists l', swap_remove l i = Some (x, l') /\ l ≡ₚ x :: l'.
Proof.
  intros Hi. unfold swap_remove. rewrite Hi. cbn [mbind option_bind].
  destruct l as [|y l _] using rev_ind; [done|]. rewrite last_snoc, length_app, removelast_last. cbn [mbind option_bind length].
  destruct (Nat.eqb_spec (S i) (length l + 1)) as [E|Hne]; eexists; (split; [done|]).
  - rewrite lookup_app_r in Hi by lia. replace (i - length l)%nat with 0%nat in Hi by lia. injection Hi as ->.
    by rewrite Permutation_app_comm.
  - rewrite lookup_app_l in Hi by (apply lookup_lt_Some in Hi; rewrite length_app in Hi; cbn in Hi; lia).
    rewrite (Permutation_app_comm l [y]). cbn. pose proof (delete_Permutation l i x Hi) as Hp.
    rewrite Hp at 1. rewrite (delete_Permutation (<[i:=y]> l) i y) by (by apply list_lookup_insert_eq; eapply lookup_lt_Some).
    assert (delete i (<[i:=y]> l) = delete i l) as ->; [|constructor].
    apply list_eq. intros j. destruct (decide (j < i)%nat).
    + rewrite !list_lookup_delete_lt, list_lookup_insert_ne by lia. done.
    + rewrite !list_lookup_delete_ge, list_lookup_insert_ne by lia. done.
Qed.

Lemma position_spec {A} (f : A -> bool) (l : list A) i : position f l = Some i ->
  exists x, l !! i = Some x /\ f x = true.
Proof. unfold position. intros ([j x] & H & ->)%fmap_Some. apply list_find_Some in H as (H & Hf & _). by exists x. Qed.

Lemma runs_with kind s l : runs kind (with_runs kind s l) = l.
Proof. by destruct kind. Qed.

Lemma with_runs_fields kind s l : let s' := with_runs kind s l in
  orchestration_token_state s' = orchestration_token_state s /\ event_writes_enabled s' = event_writes_enabled s
  /\ tasks s' = tasks s /\ log s' = log s /\ pending_orchestration_submissions s' = pending_orchestration_submissions s
  /\ pending_relay_activations s' = pending_relay_activations s /\ panes s' = panes s /\ roots s' = roots s.
Proof. by destruct kind. Qed.

Definition other (kind : OrchestrationKind) : OrchestrationKind := match kind with OWorkflow => ORelay | ORelay => OWorkflow end.

Lemma runs_with_other kind s l : runs (other kind) (with_runs kind s l) = runs (other kind) s.
Proof. by destruct kind. Qed.

Lemma all_runs_split kind s : all_runs s ≡ₚ runs kind s ++ runs (other kind) s.
Proof. destruct kind; [done|apply Permutation_app_comm]. Qed.

(** Taking a run out, putting one in. *)
Lemma take_run_spec kind s i r : runs kind s !! i = Some r ->
  exists s', take_run kind s i = Some (r, s') /\ s' = with_runs kind s (runs kind s') /\ runs kind s ≡ₚ r :: runs kind s'
    /\ all_runs s ≡ₚ r :: all_runs s'.
Proof.
  intros Hi. destruct (swap_remove_spec _ _ _ Hi) as (l & E & Hp). unfold take_run. rewrite E. cbn [mbind option_bind].
  exists (with_runs kind s l). rewrite runs_with. split_and!; [done|done|done|].
  rewrite (all_runs_split kind s), (all_runs_split kind (with_runs kind s l)), runs_with, runs_with_other, Hp. done.
Qed.

Lemma push_run_all s r : all_runs (push_run s r) ≡ₚ r :: all_runs s.
Proof.
  unfold push_run. rewrite (all_runs_split (o_kind r) (with_runs _ _ _)), (all_runs_split (o_kind r) s), runs_with, runs_with_other.
  rewrite <- app_assoc. cbn. by rewrite <- Permutation_middle.
Qed.
End Turns.
