(* ===== verification/TurnsInv.v ===== *)
(** * Every handler of live orchestrations answers and keeps the runs sound

    A fresh token is found; the invariant of the server and of a run taken out
    of it; and, for each handler of Turns.v, that it answers, keeps the
    invariant, and brings no token to life but a round of the generator. *)

From S2P Require Import Prelude Agent Artifact RunGraph Guardrail Waiting Tasks Orchestrate Events EventLog Replay ReplaySpec Launch Xorshift Turns Runs.

(** ** Minting *)

Lemma mint_cases fuel taken v : v <> 0 -> v < U64 ->
  (exists k, mint fuel taken v = Some (rounds k v) /\ 1 <= k <= N.of_nat fuel /\ rounds k v ∉ taken)
  \/ forall i, 1 <= i <= N.of_nat fuel -> rounds i v ∈ taken.
Proof.
  revert v. induction fuel as [|fuel IH]; intros v Hv Hlt; [right; lia|]. cbn [mint]. rewrite advance_rounds by done.
  case_bool_decide as Hin.
  - destruct (IH (rounds 1 v)) as [(k & E & Hk & Hn)|Hall]; [by apply rounds_nonzero|by apply rounds_lt| |].
    + left. exists (k + 1). rewrite rounds_add, E. split_and!; [done|lia|lia|done].
    + right. intros i Hi. destruct (decide (i = 1)) as [->|Hne]; [done|].
      replace i with (i - 1 + 1) by lia. rewrite rounds_add. apply Hall. lia.
  - left. exists 1. split_and!; [done|lia|lia|done].
Qed.

(** The loop of [next_activation_token] ends after at most one round more than
    there are occupied tokens, with one that is free: the generator does not come
    back to a state before it has been through all the others. *)
Lemma mint_fresh taken v : v <> 0 -> v < U64 -> N.of_nat (length taken) < PERIOD ->
  exists k, mint (S (length taken)) taken v = Some (rounds k v)
    /\ 1 <= k <= N.of_nat (S (length taken)) /\ rounds k v ∉ taken.
Proof.
  intros Hv Hlt Hlen. destruct (mint_cases (S (length taken)) taken v Hv Hlt) as [H|Hall]; [done|exfalso].
  assert (NoDup (map (fun i => rounds (N.of_nat i) v) (seq 1 (S (length taken))))) as Hnd.
  { apply NoDup_fmap_2_strong; [|apply NoDup_seq]. intros i j Hi%elem_of_seq Hj%elem_of_seq E.
    destruct (Nat.lt_trichotomy i j) as [H|[H|H]]; [|done|]; exfalso; revert E; [|intros E; symmetry in E; revert E];
      apply rounds_distinct; try done; lia. }
  assert (map (fun i => rounds (N.of_nat i) v) (seq 1 (S (length taken))) ⊆+ taken) as Hsub.
  { apply NoDup_submseteq; [done|]. intros x (i & -> & Hi%elem_of_seq)%list_elem_of_fmap. apply Hall. lia. }
  apply submseteq_length in Hsub. rewrite length_map, length_seq in Hsub. lia.
Qed.

Lemma launch_invocation_some provider command prompt : is_Some (launch_invocation provider command prompt).
Proof. unfold launch_invocation, launch_argv. by eexists. Qed.

Section Turns.
Context {P : Ptys} (m : gmap N DurableOrchestration).

(** ** The invariant *)

Definition recovers (d : DurableOrchestration) (r : ActiveRun) : Prop :=
  do_kind d = o_kind r /\ do_task_id d = o_task_id r /\ do_goal d = o_goal r /\ do_role_panes d = o_role_panes r
  /\ do_state d = o_state r /\ recovered_role_providers d = o_role_providers r
  /\ match o_kind r with
     | OWorkflow => do_template d = template_name <$> o_template r
     | ORelay => do_checkpoints d = o_checkpoints r
     end.

Lemma durable_recovers r : shaped r -> recovers (durable r) r.
Proof.
  intros [[Hc _ _] _ _ Hp _]. unfold recovers, durable, recovered_role_providers. cbn. split_and!; try done.
  - destruct (o_role_providers r) as [|p ps]; cbn in *; [lia|]. f_equal; [by destruct p|].
    clear. induction ps as [|[a b] ps IH]; cbn; congruence.
  - by destruct (o_kind r).
Qed.

Lemma same_recovers d r r' : same_run r r' -> recovers d r -> recovers d r'.
Proof.
  intros (A&B&C&D&E&F&G&H&I) (A'&B'&C'&D'&E'&F'&G'). unfold recovers. rewrite A, B, C, D, E, F, G, H. split_and!; done.
Qed.

(** What recovery reads is about exactly these runs, [t] excepted. *)
Definition agrees (t : option N) (D : gmap N DurableOrchestration) (rs : list ActiveRun) : Prop :=
  forall id, t <> Some id ->
    (forall d, D !! id = Some d -> exists r, r ∈ rs /\ o_task_id r = id /\ recovers d r)
    /\ (forall r, r ∈ rs -> o_task_id r = id -> exists d, D !! id = Some d /\ recovers d r).

Definition live_tokens (s : Server) : list N := map run_token (all_runs s).
Definition live_tasks (s : Server) : list N := map o_task_id (all_runs s).

(** More turns than this are never open at a time: each has a Pane. *)
Definition ROOM : N := 2 ^ 31.

Definition crowd (s : Server) : N :=
  N.of_nat (length (all_runs s) + length (pending_orchestration_submissions s)).

(** The server is sound; with a task [t], its run has been taken out. *)
Record part (t : option N) (s : Server) : Prop := {
  pa_live : forall kind r, r ∈ runs kind s -> live kind r;
  pa_writes : event_writes_enabled s = true;
  pa_state : 0 < orchestration_token_state s < U64;
  pa_tokens : NoDup (live_tokens s);
  pa_range : forall x, x ∈ live_tokens s -> 0 < x < U64;
  pa_tasks : NoDup (live_tasks s);
  pa_bound : forall id, id ∈ live_tasks s -> id < Tasks.next_id (Turns.tasks s);
  pa_out : forall id, t = Some id -> id ∉ live_tasks s /\ id < Tasks.next_id (Turns.tasks s);
  pa_agrees : agrees t (recoverable m s) (all_runs s);
  pa_roles : forall v, v ∈ pending_relay_activations s -> v_role v = 0%nat;
  pa_room : crowd s + (if t then 1 else 0) <= ROOM }.

Definition sound : Server -> Prop := part None.

(** A run that has been taken out. *)
Definition held (s : Server) (r : ActiveRun) : Prop :=
  shaped r /\ run_token r ∉ live_tokens s /\ 0 < run_token r < U64.

(** The generator has gone on by at most [b] searches, and every live token was
    live before or is one of its rounds since. *)
Definition evolves (b : N) (s : Server) (hs : list N) (s' : Server) (hs' : list N) : Prop :=
  exists k, k <= b * (ROOM + 1) /\ orchestration_token_state s' = rounds k (orchestration_token_state s)
    /\ forall x, x ∈ hs' ++ live_tokens s' ->
       x ∈ hs ++ live_tokens s \/ exists j, 1 <= j <= k /\ x = rounds j (orchestration_token_state s).

Lemma evolves_trans b1 b2 s hs s1 hs1 s2 hs2 :
  evolves b1 s hs s1 hs1 -> evolves b2 s1 hs1 s2 hs2 -> evolves (b1 + b2) s hs s2 hs2.
Proof.
  intros (k1 & L1 & E1 & T1) (k2 & L2 & E2 & T2). exists (k2 + k1). split_and!; [lia|by rewrite rounds_add, <- E1|].
  intros x Hx. destruct (T2 x Hx) as [H|(j & Hj & ->)].
  - destruct (T1 x H) as [?|(j & Hj & ->)]; [by left|]. right. exists j. split; [lia|done].
  - right. exists (j + k1). split; [lia|]. by rewrite rounds_add, <- E1.
Qed.

Lemma evolves_same b s hs s' hs' : orchestration_token_state s' = orchestration_token_state s ->
  (forall x, x ∈ hs' ++ live_tokens s' -> x ∈ hs ++ live_tokens s) -> evolves b s hs s' hs'.
Proof. intros E T. exists 0. split_and!; [lia|done|]. intros x Hx. left. by apply T. Qed.

Lemma evolves_weaken b b' s hs s' hs' : b <= b' -> evolves b s hs s' hs' -> evolves b' s hs s' hs'.
Proof. intros Hb (k & L & E & T). exists k. split_and!; [|done|done]. etrans; [exact L|]. by apply N.mul_le_mono_r. Qed.

Lemma changed_all f s s' : changed f s s' -> all_runs s' = all_runs s.
Proof. intros [A B _ _ _ _ _ _]. unfold all_runs. by rewrite A, B. Qed.

Lemma evolves_changed f s hs s' : changed f s s' -> evolves 0 s hs s' hs.
Proof. intros H. apply evolves_same; [apply H|]. unfold live_tokens. by rewrite (changed_all _ _ _ H). Qed.

(** ** Moves of the invariant *)

Lemma crowd_changed f s s' : changed f s s' -> crowd s' <= crowd s.
Proof. intros H. unfold crowd. rewrite (changed_all _ _ _ H). pose proof (ch_pending _ _ _ H). lia. Qed.

Lemma part_changed f t t' s s' : changed f s s' -> part t s ->
  (forall id, t' = Some id -> t = Some id) ->
  (forall id, t' <> Some id -> t = Some id -> f (recoverable m s) !! id = None) ->
  (forall id, t <> Some id -> f (recoverable m s) !! id = recoverable m s !! id) -> part t' s'.
Proof.
  intros H Hp Ht Hnone Hf. pose proof (changed_all _ _ _ H) as Hall. pose proof (crowd_changed _ _ _ H) as Hc.
  destruct Hp as [A B C D E F G I J K L]. destruct H as [H1 H2 H3 H4 H5 H6 H7 H8].
  split; unfold live_tokens, live_tasks in *; rewrite ?Hall, ?H3, ?H4; try done.
  - intros kind. specialize (A kind). destruct kind; cbn in *; by rewrite ?H1, ?H2.
  - intros id Hid. specialize (G id Hid). lia.
  - intros id Hid. destruct (I id (Ht id Hid)) as [I1 I2]. split; [done|lia].
  - rewrite H8. intros id Hid. destruct (decide (t = Some id)) as [->|Hne].
    + rewrite Hnone by done. split; [done|]. intros r Hr E1. destruct (I id eq_refl) as [Hn _]. destruct Hn.
      rewrite <- E1. by apply list_elem_of_fmap_2.
    + rewrite Hf by done. by apply J.
  - intros v Hv. apply K. by apply H7.
  - destruct t as [i|], t' as [i'|]; try lia. by specialize (Ht i' eq_refl).
Qed.

Lemma part_kept t s s' : kept s s' -> part t s -> part t s'.
Proof. intros H Hp. by apply (part_changed id t t s s'). Qed.

(** The run is over, and recovery knows. *)
Lemma part_finished t s s' : changed (base.delete t) s s' -> part (Some t) s -> sound s'.
Proof.
  intros H Hp. apply (part_changed _ (Some t) None s s' H Hp); [done| |].
  - intros id _ [= ->]. apply lookup_delete_eq.
  - intros id Hne. apply lookup_delete_ne. congruence.
Qed.

Lemma held_kept f s s' r : changed f s s' -> held s r -> held s' r.
Proof. intros H. unfold held, live_tokens. by rewrite (changed_all _ _ _ H). Qed.

Lemma part_take s kind i r : sound s -> runs kind s !! i = Some r ->
  exists s', take_run kind s i = Some (r, s') /\ s' = with_runs kind s (runs kind s')
    /\ part (Some (o_task_id r)) s' /\ held s' r /\ live kind r /\ evolves 0 s [] s' [run_token r].
Proof.
  intros [A B C D E F G I J K L] Hi. destruct (take_run_spec kind s i r Hi) as (s' & E1 & E2 & P1 & P2).
  destruct (with_runs_fields kind s (runs kind s')) as (X1&X2&X3&X4&X5&X6&X7&X8). rewrite <- E2 in X1, X2, X3, X4, X5, X6, X7, X8.
  assert (live_tokens s ≡ₚ run_token r :: live_tokens s') as Pt by (unfold live_tokens; by rewrite P2).
  assert (live_tasks s ≡ₚ o_task_id r :: live_tasks s') as Pi by (unfold live_tasks; by rewrite P2).
  rewrite Pt in D. apply NoDup_cons in D as [D1 D2]. rewrite Pi in F. apply NoDup_cons in F as [F1 F2].
  exists s'. split_and!; [done|done| | | |].
  - split; rewrite ?X1, ?X2, ?X3, ?X6; try done.
    + intros k' r' Hr. apply A. destruct (decide (k' = kind)) as [->|Hne].
      * rewrite P1. by right.
      * assert (k' = other kind) as -> by (by destruct k', kind). rewrite E2, runs_with_other in Hr. done.
    + intros x Hx. apply E. rewrite Pt. by right.
    + intros id Hid. apply G. rewrite Pi. by right.
    + intros id [= <-]. split; [done|]. apply G. rewrite Pi. by left.
    + unfold recoverable. rewrite X4. intros id Hne. destruct (J id) as [J1 J2]; [done|]. split.
      * intros d Hd. destruct (J1 d Hd) as (r' & Hr & Ht & Hrec). exists r'. split; [|done]. rewrite P2 in Hr.
        apply elem_of_cons in Hr as [->|Hr]; [congruence|done].
      * intros r' Hr Ht. apply J2; [|done]. rewrite P2. by right.
    + unfold crowd in *. rewrite P2 in L. rewrite X5. cbn [length] in L. lia.
  - split_and!; [|done|apply E; rewrite Pt; by left..].
    destruct (A kind r) as (_ & H & _); [by eapply list_elem_of_lookup_2|done].
  - apply A. by eapply list_elem_of_lookup_2.
  - apply evolves_same; [done|]. intros x Hx. cbn. by rewrite Pt.
Qed.

Lemma push_run_fields s r : let s' := push_run s r in
  orchestration_token_state s' = orchestration_token_state s /\ event_writes_enabled s' = event_writes_enabled s
  /\ Turns.tasks s' = Turns.tasks s /\ log s' = log s /\ pending_orchestration_submissions s' = pending_orchestration_submissions s
  /\ pending_relay_activations s' = pending_relay_activations s.
Proof. unfold push_run. by destruct (o_kind r). Qed.

(** A run is put back, and what recovery reads is about it. *)
Lemma part_push s r : part (Some (o_task_id r)) s -> held s r -> restartable r = true ->
  (exists d, recoverable m s !! o_task_id r = Some d /\ recovers d r) ->
  sound (push_run s r) /\ evolves 0 s [run_token r] (push_run s r) [].
Proof.
  intros [A B C D E F G I J K L] (Hsh & Ht & Hr1) Hre (d & Hd & Hrec). destruct (push_run_fields s r) as (X1&X2&X3&X4&X5&X6).
  pose proof (push_run_all s r) as P2.
  assert (live_tokens (push_run s r) ≡ₚ run_token r :: live_tokens s) as Pt by (unfold live_tokens; by rewrite P2).
  assert (live_tasks (push_run s r) ≡ₚ o_task_id r :: live_tasks s) as Pi by (unfold live_tasks; by rewrite P2).
  destruct (I _ eq_refl) as [I1 I2]. split.
  - split; rewrite ?X1, ?X2, ?X3, ?X6, ?Pt, ?Pi; try done.
    + intros k' r' Hr. destruct (decide (k' = o_kind r)) as [->|Hne].
      * unfold push_run in Hr. rewrite runs_with in Hr. apply elem_of_app in Hr as [Hr|Hr]; [by apply A|].
        apply list_elem_of_singleton in Hr as ->. done.
      * assert (k' = other (o_kind r)) as -> by (by destruct k', (o_kind r)). unfold push_run in Hr. rewrite runs_with_other in Hr.
        by apply A.
    + by constructor.
    + intros x Hx. rewrite Pt in Hx. apply elem_of_cons in Hx as [->|Hx]; [done|by apply E].
    + by constructor.
    + intros id Hid. rewrite Pi in Hid. apply elem_of_cons in Hid as [->|Hid]; [done|by apply G].
    + unfold recoverable. rewrite X4. fold (recoverable m s). intros id _. destruct (decide (id = o_task_id r)) as [->|Hne].
      * split.
        -- intros d' Hd'. exists r. split; [rewrite P2; by left|]. split; [done|]. congruence.
        -- intros r' Hr Hid. rewrite P2 in Hr. apply elem_of_cons in Hr as [->|Hr]; [by exists d|].
           destruct I1. rewrite <- Hid. by apply list_elem_of_fmap_2.
      * destruct (J id) as [J1 J2]; [congruence|]. split.
        -- intros d' Hd'. destruct (J1 d' Hd') as (r' & Hr & Hrest). exists r'. split; [rewrite P2; by right|done].
        -- intros r' Hr Hid. rewrite P2 in Hr. apply elem_of_cons in Hr as [->|Hr]; [congruence|by apply J2].
    + unfold crowd in *. rewrite P2, X5. cbn [length]. lia.
  - apply evolves_same; [done|]. intros x Hx. cbn in *. by rewrite <- Pt.
Qed.

(** ** Actions *)

(** What the engine can have answered, by the state of its run. *)
Definition fits (a : Action) (r : ActiveRun) : Prop :=
  match a with
  | Inject role _ => (role < length (Orchestrate.roles (o_state r)))%nat /\ restartable r = true
  | Complete | AbortRun _ => finished r = true
  | Escalate _ | AwaitSubmit | Hold => restartable r = true
  end.

Lemma roles_nonempty r : shaped r -> (0 < length (Orchestrate.roles (o_state r)))%nat.
Proof. intros H. pose proof (wf_cur _ (sh_state _ H)). lia. Qed.

Lemma current_pane_some r : shaped r -> is_Some (current_pane r).
Proof. intros H. apply lookup_lt_is_Some_2. rewrite (sh_panes _ H). apply H. Qed.

Lemma finish_ok s r status outcome : event_writes_enabled s = true -> shaped r ->
  exists s', finish_run s r status outcome = Some s' /\ changed (base.delete (o_task_id r)) s s'.
Proof.
  intros Hw Hs. unfold finish_run. destruct (lookup_lt_is_Some_2 (o_role_panes r) 0) as [p ->].
  { rewrite (sh_panes _ Hs). by apply roles_nonempty. }
  cbn [mbind option_bind]. eexists. split; [done|].
  match goal with |- context [record_orchestration_terminal ?x _ ?y _] => set (s0 := x); set (st := y) end.
  assert (kept s (record_orchestration_terminal s0 (o_task_id r) st outcome)) as Hk.
  { etrans; [|apply kept_terminal]. split; try done. apply length_filter. }
  eapply changed_kept; [|apply kept_status]. eapply kept_changed; [exact Hk|]. apply changed_finished. by rewrite (ch_writes _ _ _ Hk).
Qed.

Lemma turn_bytes_some s provider pane first prompt : is_Some (turn_bytes s provider pane first prompt).
Proof.
  unfold turn_bytes. destruct first; [|by eexists]. destruct (launch_invocation_some (rp_id provider) (Launch.rp_command provider) prompt) as [i ->].
  by eexists.
Qed.

Lemma turn_prompt_some r role tok note : shaped r -> (role < length (Orchestrate.roles (o_state r)))%nat ->
  is_Some (turn_prompt r role tok note).
Proof.
  intros Hs Hr. unfold turn_prompt. destruct (o_kind r) eqn:Hk.
  - destruct (sh_template _ Hs Hk) as (t & -> & Hl). rewrite <- Hl in Hr. apply lookup_lt_is_Some_2 in Hr as [spec Hr].
    cbn [mbind option_bind]. rewrite Hr. by eexists.
  - apply lookup_lt_is_Some_2 in Hr as [spec Hr]. rewrite Hr. by eexists.
Qed.

Lemma same_run_started r b role : same_run r (r <| o_started := <[role := b]> (o_started r) |>).
Proof. split_and!; try done. apply length_insert. Qed.

Lemma inject_ok s now r role tok note : shaped r -> (role < length (Orchestrate.roles (o_state r)))%nat ->
  exists s' r', inject s now r role tok note = Some (s', r') /\ same_run r r' /\ kept s s'.
Proof.
  intros Hs Hr. unfold inject. destruct (turn_prompt_some r role tok note Hs Hr) as [prompt ->]. cbn [mbind option_bind].
  destruct (lookup_lt_is_Some_2 (o_role_panes r) role) as [pane ->]; [by rewrite (sh_panes _ Hs)|]. cbn [mbind option_bind].
  set (s1 := record_orchestration_activation s (o_task_id r) role).
  set (s2 := append_event s1 _).
  assert (kept s s2) as Hk by (etrans; [apply kept_activation|by apply kept_append]).
  destruct (panes s2 !! pane) as [p|]; [|by eexists _, _].
  destruct (o_role_providers r !! role) as [provider|]; [|by eexists _, _].
  destruct (lookup_lt_is_Some_2 (o_started r) role) as [started ->]; [by rewrite (sh_started _ Hs)|]. cbn [mbind option_bind].
  destruct (turn_bytes_some s2 provider pane (negb started) prompt) as [bytes ->]. cbn [mbind option_bind].
  pose proof (kept_deliver s2 pane (negb started) bytes) as Hd. destruct (deliver s2 pane (negb started) bytes) as [s3 accepted].
  cbn [fst] in Hd. set (s4 := append_event s3 _).
  assert (kept s s4) as Hk4 by (etrans; [exact Hk|]; etrans; [exact Hd|by apply kept_append]).
  destruct accepted; cbn [negb andb]; [|eexists _, _; split; [done|]; split; [done|]; etrans; [exact Hk4|apply kept_retry]].
  destruct started; cbn [negb]; [by eexists _, _|]. eexists _, _. split; [done|].
  split; [|etrans; [exact Hk4|apply kept_bind]].
  etrans; [|apply same_run_started]. done.
Qed.

Lemma apply_action_ok s now r a note : event_writes_enabled s = true -> shaped r -> fits a r ->
  exists s' r', apply_action s now r a note = Some (s', r') /\ same_run r r' /\ finished r' = negb (restartable r')
    /\ (if restartable r' then kept s s' else changed (base.delete (o_task_id r)) s s').
Proof.
  intros Hw Hs Hf.
  assert (restartable r = true -> finished r = negb (restartable r)) as H1 by (unfold restartable, finished; by destruct (phase _)).
  assert (finished r = true -> restartable r = false) as H2 by (unfold restartable, finished; by destruct (phase _)).
  destruct a as [role tok| | |reason|reason|]; cbn [apply_action].
  - destruct Hf as [Hr Hre]. destruct (inject_ok s now r role tok note Hs Hr) as (s' & r' & -> & Hsame & Hk).
    eexists _, _. split; [done|]. split; [done|]. pose proof Hsame as (_&_&_&_&_&_&_&E&_). revert Hre. unfold restartable, finished. rewrite E.
    intros Hre. by destruct (phase (o_state r)).
  - eexists _, _. split; [done|]. cbn in Hf. rewrite Hf in *. by rewrite H1.
  - destruct (finish_ok s r Tasks.Done (lit "done") Hw Hs) as (s' & -> & Hc). eexists _, _. split; [done|].
    cbn in Hf. by rewrite H2, Hf.
  - destruct (current_pane_some r Hs) as [pane ->]. eexists _, _. split; [done|]. cbn in Hf. rewrite H1, Hf by done. split_and!; [done|done|].
    etrans; [apply kept_request|apply kept_status].
  - destruct (finish_ok s r Blocked reason Hw Hs) as (s' & -> & Hc). eexists _, _. split; [done|].
    cbn in Hf. by rewrite H2, Hf.
  - eexists _, _. split; [done|]. cbn in Hf. rewrite Hf in *. by rewrite H1.
Qed.

(** ** Putting a run back *)

Lemma same_held s r r' : same_run r r' -> held s r -> held s r'.
Proof.
  intros Hs (H1 & H2). split; [by eapply same_shaped|]. unfold run_token in *. destruct Hs as (_&_&_&_&_&_&_&E&_). by rewrite E.
Qed.

Lemma put_back s r : part (Some (o_task_id r)) s -> held s r -> restartable r = true ->
  sound (push_run (project_run s r) r) /\ evolves 0 s [run_token r] (push_run (project_run s r) r) [].
Proof.
  intros Hp Hh Hre. pose proof (changed_projected s r (pa_writes _ _ Hp)) as Hc.
  assert (part (Some (o_task_id r)) (project_run s r)) as Hp'.
  { apply (part_changed _ (Some (o_task_id r)) (Some (o_task_id r)) s _ Hc Hp); [done|congruence|].
    intros id Hne. apply lookup_insert_ne. congruence. }
  destruct (part_push _ r Hp') as [H1 H2]; [by eapply held_kept|done| |].
  - exists (durable r). split; [|apply durable_recovers; apply Hh]. rewrite (ch_recoverable _ _ _ Hc). apply lookup_insert_eq.
  - split; [done|]. apply (evolves_trans 0 0 _ _ _ _ _ _ (evolves_changed _ _ _ _ Hc) H2).
Qed.

(** An action done on a run, which is put back unless it is over. *)
Lemma settle s now r a note : part (Some (o_task_id r)) s -> held s r -> fits a r ->
  exists s' r', apply_action s now r a note = Some (s', r') /\ same_run r r' /\ finished r' = negb (restartable r')
    /\ (let out := if restartable r' then push_run (project_run s' r') r' else s' in
        sound out /\ evolves 0 s [run_token r] out []).
Proof.
  intros Hp Hh Hf. destruct (apply_action_ok s now r a note (pa_writes _ _ Hp) (proj1 Hh) Hf) as (s' & r' & E & Hs & Hfin & Hc).
  exists s', r'. split; [done|]. split; [done|]. split; [done|]. cbn zeta. pose proof Hs as (_&Et&_&_&_&_&_&Est&_).
  destruct (restartable r') eqn:Hre.
  - destruct (put_back s' r') as [H1 H2]; [rewrite Et; by eapply part_kept|eapply held_kept; [exact Hc|by eapply same_held]|done|].
    split; [done|]. replace (run_token r) with (run_token r') by (unfold run_token; by rewrite Est).
    apply (evolves_trans 0 0 _ _ _ _ _ _ (evolves_changed _ _ _ _ Hc) H2).
  - split; [by eapply part_finished|]. apply (evolves_trans 0 0 _ _ s' [run_token r] _ _ (evolves_changed _ _ _ _ Hc)).
    apply evolves_same; [done|]. intros x Hx. cbn in *. by right.
Qed.

(** ** Decisions *)

Lemma with_state_shaped r st : shaped r -> Orchestrate.wf st -> Orchestrate.same_shape (o_state r) st -> shaped (r <| o_state := st |>).
Proof. intros [A B C D E] Hw (H & _). by split; cbn; rewrite ?H. Qed.

Lemma next_token_ok t s : part t s -> exists k, next_activation_token s = Some (s <| orchestration_token_state := rounds k (orchestration_token_state s) |>, rounds k (orchestration_token_state s))
  /\ 1 <= k <= ROOM + 1 /\ rounds k (orchestration_token_state s) ∉ live_tokens s /\ 0 < rounds k (orchestration_token_state s) < U64.
Proof.
  intros Hp. pose proof (pa_state _ _ Hp) as Hst. pose proof (pa_room _ _ Hp) as Hroom.
  assert (N.of_nat (length (occupied s)) = crowd s) as Hlen.
  { unfold occupied, crowd, all_runs. rewrite !length_app, !length_map. lia. }
  destruct (mint_fresh (occupied s) (orchestration_token_state s)) as (k & E & Hk & Hn); [lia|lia| |].
  { rewrite Hlen. assert (ROOM < PERIOD) by done. lia. }
  exists k. unfold next_activation_token. rewrite E. cbn [mbind option_bind]. split_and!; [done|lia|lia| |..].
  - intros Hin. apply Hn. unfold occupied. rewrite !elem_of_app. unfold live_tokens, all_runs in Hin. rewrite map_app, elem_of_app in Hin. tauto.
  - pose proof (rounds_nonzero k (orchestration_token_state s)). lia.
  - apply rounds_lt. lia.
Qed.

Lemma part_state t s v : part t s -> 0 < v < U64 -> part t (s <| orchestration_token_state := v |>).
Proof. intros [A B C D E F G I J K L] Hv. by split. Qed.

Lemma scoped_ok s r st a hs : part (Some (o_task_id r)) s -> shaped r -> Orchestrate.wf st -> Orchestrate.same_shape (o_state r) st ->
  fits a (r <| o_state := st |>) ->
  ((exists role t, a = Inject role t) \/ token st = run_token r /\ held s r /\ hs = [run_token r]) ->
  exists s' st' a', scope_activation_token s st a = Some (s', st', a')
    /\ (let r' := r <| o_state := st' |> in
        phase st' = phase st /\ (forall role t, a = Inject role t -> exists t', a' = Inject role t') /\ part (Some (o_task_id r)) s' /\ held s' r' /\ fits a' r' /\ evolves 1 s hs s' [run_token r']).
Proof.
  intros Hp Hs Hw Hsh Hf Hcase.
  assert ((exists role t, a = Inject role t) \/ ~ exists role t, a = Inject role t) as [(role & t & ->)|Hne] by (destruct a; naive_solver).
  2:{ destruct Hcase as [|(Ht & Hh & ->)]; [done|]. assert (scope_activation_token s st a = Some (s, st, a)) as -> by (destruct a; naive_solver).
      eexists _, _, _. split; [done|]. split_and!; [done|intros role t ->; by eexists|done| |done|].
      - split; [by apply with_state_shaped|]. destruct Hh as (_ & H1 & H2). unfold run_token in *. cbn. by rewrite Ht.
      - apply evolves_same; [done|]. unfold run_token in *. cbn. by rewrite Ht. }
  cbn [scope_activation_token]. destruct (next_token_ok _ s Hp) as (k & -> & Hk & Hn & Hr). cbn [mbind option_bind].
  eexists _, _, _. split; [done|]. split_and!; [done|intros role' t' [= -> ->]; by eexists|by apply part_state| |done|].
  - split; [|done]. by apply with_state_shaped; [|destruct Hw; split|].
  - exists k. split_and!; [lia|done|]. cbn. intros x Hx. apply elem_of_cons in Hx as [->|Hx].
    + right. exists k. split; [lia|done].
    + left. apply elem_of_app. by right.
Qed.

(** A turn that is open or paused, and what the engine answers for it. *)
Lemma after_fits r st a : shaped r -> Orchestrate.wf st -> restartable r = true -> after (o_state r) a st ->
  fits a (r <| o_state := st |>) /\ ((exists role t, a = Inject role t) \/ token st = run_token r).
Proof.
  intros Hs Hw Hre Ha. unfold fits, restartable, finished in *. cbn. destruct a as [role t| | |m'|m'|]; cbn in Ha.
  - destruct Ha as [-> ->]. split; [|left; by eexists _, _]. split; [|done]. apply Hw.
  - subst. split; [done|by right].
  - destruct Ha as [-> ?]. split; [done|by right].
  - destruct Ha as [-> ?]. split; [done|by right].
  - destruct Ha as [-> ?]. split; [done|by right].
  - subst. split; [done|by right].
Qed.

Lemma decide_ok s r e : part (Some (o_task_id r)) s -> held s r -> restartable r = true ->
  exists s' r' a, decide_run s r e = Some (s', r', a) /\ o_task_id r' = o_task_id r
    /\ (exists st a0, step (o_state r) e = Some (st, a0) /\ phase (o_state r') = phase st)
    /\ part (Some (o_task_id r)) s' /\ held s' r' /\ fits a r' /\ evolves 1 s [run_token r] s' [run_token r'].
Proof.
  intros Hp Hh Hre. destruct (engine_answer (o_state r) e) as (st & a & E & Hw & Hsh & Ha); [apply Hh|].
  destruct (after_fits r st a) as [Hf Ht]; [apply Hh|done..|].
  destruct (scoped_ok s r st a [run_token r] Hp (proj1 Hh) Hw Hsh Hf) as (s' & st' & a' & E' & Hph & _ & H1 & H2 & H3 & H4); [tauto|].
  exists s', (r <| o_state := st' |>), a'. split; [|split_and!; [done|by exists st, a|done..]].
  unfold decide_run, decide_workflow_next, decide_relay_next. destruct (o_kind r); rewrite E; cbn [mbind option_bind]; by rewrite E'.
Qed.

(** The same, and the action done. *)
Lemma decide_settle s r e now note : part (Some (o_task_id r)) s -> held s r -> restartable r = true ->
  exists s1 r1 a s' r', decide_run s r e = Some (s1, r1, a) /\ apply_action s1 now r1 a note = Some (s', r')
    /\ finished r' = negb (restartable r')
    /\ (let out := if restartable r' then push_run (project_run s' r') r' else s' in
        sound out /\ evolves 1 s [run_token r] out []).
Proof.
  intros Hp Hh Hre. destruct (decide_ok s r e Hp Hh Hre) as (s1 & r1 & a & E & Et & _ & Hp1 & Hh1 & Hf & Hv).
  destruct (settle s1 now r1 a note) as (s' & r' & E' & _ & Hfin & Hs & Hv'); [by rewrite Et|done..|].
  exists s1, r1, a, s', r'. split_and!; try done. cbn zeta. split; [done|].
  exact (evolves_trans 1 0 _ _ _ _ _ _ Hv Hv').
Qed.

(** ** The bodies of the loops over runs *)

Definition body_ok (b : N) (body : Server -> ActiveRun -> option Server) : Prop :=
  forall kind s r, part (Some (o_task_id r)) s -> held s r -> live kind r ->
    exists s', body s r = Some s' /\ sound s' /\ evolves b s [run_token r] s' [].

Lemma fold_option_ok {A} (b : N) (f : Server -> A -> option Server) :
  (forall s x, sound s -> exists s', f s x = Some s' /\ sound s' /\ evolves b s [] s' []) ->
  forall l s, sound s -> exists s', fold_option f s l = Some s' /\ sound s' /\ evolves (b * N.of_nat (length l)) s [] s' [].
Proof.
  intros Hf l. induction l as [|x l IH]; intros s Hs; cbn [fold_option length].
  - exists s. split_and!; [done|done|]. by apply evolves_same.
  - destruct (Hf s x Hs) as (s1 & -> & H1 & V1). destruct (IH s1 H1) as (s2 & E & H2 & V2). exists s2. split_and!; [done|done|].
    replace (b * N.of_nat (S (length l))) with (b + b * N.of_nat (length l)) by lia. by eapply evolves_trans.
Qed.

Lemma taken_ok b body kind s i : body_ok b body -> sound s -> (i < length (runs kind s))%nat ->
  exists s', ('(r, s) ← take_run kind s i; body s r) = Some s' /\ sound s' /\ evolves b s [] s' [].
Proof.
  intros Hb Hs Hi. apply lookup_lt_is_Some_2 in Hi as [r Hi].
  destruct (part_take s kind i r Hs Hi) as (s1 & -> & _ & Hp & Hh & Hl & V). cbn [mbind option_bind].
  destruct (Hb kind s1 r Hp Hh Hl) as (s2 & E & H2 & V2). exists s2. split_and!; [done|done|].
  exact (evolves_trans 0 b _ _ _ _ _ _ V V2).
Qed.

Lemma for_each_run_ok b body kind f s : body_ok b body -> sound s ->
  exists s', for_each_run kind f body s = Some s' /\ sound s' /\ evolves (b * ROOM) s [] s' [].
Proof.
  intros Hb Hs. unfold for_each_run.
  match goal with |- context [fold_option ?g _ ?l] => set (step_ := g); set (ids := l) end.
  assert (forall s x, sound s -> exists s', step_ s x = Some s' /\ sound s' /\ evolves b s [] s' []) as Hstep.
  { intros s1 id H1. unfold step_. destruct (position _ _) as [i|] eqn:E.
    - apply position_spec in E as (r & Hi & _). apply (taken_ok b body kind s1 i Hb H1). by eapply lookup_lt_Some.
    - exists s1. split_and!; [done|done|]. by apply evolves_same. }
  destruct (fold_option_ok b step_ Hstep ids s Hs) as (s' & E & H & V). exists s'. split_and!; [done|done|].
  eapply evolves_weaken; [|exact V]. apply N.mul_le_mono_l. unfold ids. rewrite length_map.
  pose proof (pa_room _ _ Hs) as Hr. unfold crowd in Hr. rewrite (all_runs_split kind s), length_app in Hr.
  pose proof (length_filter (fun r => f r = true) (runs kind s)). lia.
Qed.

Lemma same_restartable r r' : same_run r r' -> restartable r' = restartable r.
Proof. intros (_&_&_&_&_&_&_&E&_). unfold restartable. by rewrite E. Qed.

Lemma same_token r r' : same_run r r' -> run_token r' = run_token r.
Proof. intros (_&_&_&_&_&_&_&E&_). unfold run_token. by rewrite E. Qed.

(** The clock pauses a run. *)
Lemma pause_settle s r e now : part (Some (o_task_id r)) s -> held s r -> restartable r = true ->
  e = EStall \/ (exists text, e = EGuardrail text) ->
  exists st a s' r', step (o_state r) e = Some (st, a) /\ apply_action s now (r <| o_state := st |>) a None = Some (s', r')
    /\ finished r' = false /\ sound (push_run (project_run s' r') r')
    /\ evolves 0 s [run_token r] (push_run (project_run s' r') r') [].
Proof.
  intros Hp Hh Hre He. destruct (engine_pauses (o_state r) e) as (st & a & E & Hw & Hsh & Ht & Hph & Hni & Ha & Hnc & Hna); [apply Hh|done|].
  set (r1 := r <| o_state := st |>).
  assert (restartable r1 = true) as Hre1.
  { unfold restartable in *. cbn. rewrite Hph; [done|]. destruct (phase (o_state r)); try done; tauto. }
  assert (fits a r1) as Hf by (destruct a; try done; naive_solver).
  assert (run_token r1 = run_token r) as Htok by done.
  destruct (settle s now r1 a None) as (s' & r' & E' & Hsame & Hfin & Hs & Hv); [done| |done|].
  { destruct Hh as (H1 & H2). split; [by apply with_state_shaped|]. by rewrite Htok. }
  rewrite (same_restartable _ _ Hsame), Hre1 in *. rewrite Htok in Hv. by exists st, a, s', r'.
Qed.

Lemma stall_ok now : body_ok 0 (stall_run now).
Proof.
  intros kind s r Hp Hh (_ & _ & Hre). unfold stall_run. set (r1 := r <| o_stall_deadline := None |>).
  assert (held s r1) as Hh1 by exact (same_held s r r1 ltac:(done) Hh).
  destruct (pause_settle s r1 EStall now Hp Hh1 Hre) as (st & a & s' & r' & E & E' & Hfin & Hs & Hv); [by left|].
  unfold decide_workflow_next, decide_relay_next. exists (push_run (project_run s' r') r'). split; [|done].
  destruct (o_kind r1); rewrite E; cbn [mbind option_bind]; rewrite E'; cbn [mbind option_bind]; by rewrite Hfin.
Qed.

Lemma idle_ok now : body_ok 1 (idle_run now).
Proof.
  intros kind s r Hp Hh (_ & _ & Hre). unfold idle_run. set (r1 := clear_deadlines r).
  assert (held s r1) as Hh1 by exact (same_held s r r1 ltac:(done) Hh).
  destruct (decide_settle s r1 (EIdle (cur (o_state r1))) now None Hp Hh1 Hre) as (s1 & r2 & a & s' & r' & E & E' & Hfin & Hs & Hv).
  rewrite E. cbn [mbind option_bind]. rewrite E'. cbn [mbind option_bind]. eexists. split; [done|]. rewrite Hfin.
  destruct (restartable r'); done.
Qed.

Lemma elapse_ok now now_ms : body_ok 0 (elapse_run now now_ms).
Proof.
  intros kind s r Hp Hh (_ & _ & Hre). unfold elapse_run.
  set (r1 := clear_deadlines _). assert (held s r1) as Hh1 by exact (same_held s r r1 ltac:(done) Hh).
  cbv zeta. set (limit := max_elapsed_seconds (o_guard_limits r1)). set (elapsed := N.max _ limit).
  unfold evaluate_elapsed. destruct (N.ltb_spec elapsed limit) as [H|_]; [unfold elapsed in H; lia|].
  set (reason := lit _ ++ _). set (s1 := record_guardrail s _).
  assert (kept s s1) as Hk by apply kept_guardrail.
  destruct (pause_settle s1 r1 (EGuardrail reason) now) as (st & a & s' & r' & E & E' & Hfin & Hs & Hv);
    [by eapply part_kept|by eapply held_kept|done|right; by eexists|].
  unfold decide_workflow_next, decide_relay_next. exists (push_run (project_run s' r') r').
  split; [|split; [done|exact (evolves_trans 0 0 _ _ _ _ _ _ (evolves_changed _ _ _ _ Hk) Hv)]].
  destruct (o_kind r1); rewrite E; cbn [mbind option_bind]; by rewrite E'.
Qed.

(** ** The loops of the clock *)

Lemma both_kinds b body f s : body_ok b body -> sound s ->
  exists s', (s ← for_each_run OWorkflow f body s; for_each_run ORelay f body s) = Some s'
    /\ sound s' /\ evolves (b * (2 * ROOM)) s [] s' [].
Proof.
  intros Hb Hs. destruct (for_each_run_ok b body OWorkflow f s Hb Hs) as (s1 & -> & H1 & V1). cbn [mbind option_bind].
  destruct (for_each_run_ok b body ORelay f s1 Hb H1) as (s2 & -> & H2 & V2). exists s2. split_and!; [done|done|].
  replace (b * (2 * ROOM)) with (b * ROOM + b * ROOM) by lia. by eapply evolves_trans.
Qed.

(** Runs that are changed where they stand. *)
Lemma same_keys l l' : Forall2 same_run l l' -> map run_token l' = map run_token l /\ map o_task_id l' = map o_task_id l.
Proof.
  induction 1 as [|r r' l l' Hr _ [IH1 IH2]]; [done|]. cbn. rewrite IH1, IH2, (same_token _ _ Hr). by destruct Hr as (_&->&_).
Qed.

Lemma sound_update s s' : sound s ->
  Forall2 same_run (workflows s) (workflows s') -> Forall2 same_run (relays s) (relays s') ->
  orchestration_token_state s' = orchestration_token_state s -> event_writes_enabled s' = event_writes_enabled s ->
  Turns.tasks s' = Turns.tasks s -> log s' = log s ->
  pending_orchestration_submissions s' = pending_orchestration_submissions s ->
  pending_relay_activations s' = pending_relay_activations s -> sound s' /\ evolves 0 s [] s' [].
Proof.
  intros [A B C D E F G I J K L] HW HR X1 X2 X3 X4 X5 X6.
  assert (Forall2 same_run (all_runs s) (all_runs s')) as HA by (apply Forall2_app; done).
  destruct (same_keys _ _ HA) as [Ht Hi]. fold (live_tokens s) (live_tokens s') in Ht. fold (live_tasks s) (live_tasks s') in Hi.
  split.
  - split; rewrite ?X1, ?X2, ?X3, ?X6, ?Ht, ?Hi; try done.
    + intros kind r' Hr. assert (Forall2 same_run (runs kind s) (runs kind s')) as Hk by (by destruct kind).
      apply list_elem_of_lookup in Hr as [i Hr]. destruct (Forall2_lookup_r _ _ _ _ _ Hk Hr) as (r & Hr0 & Hs).
      eapply same_live; [done|]. apply A. by eapply list_elem_of_lookup_2.
    + unfold recoverable. rewrite X4. intros id Hne. destruct (J id Hne) as [J1 J2]. split.
      * intros d Hd. destruct (J1 d Hd) as (r & Hr & Hid & Hrec). apply list_elem_of_lookup in Hr as [i Hr].
        destruct (Forall2_lookup_l _ _ _ _ _ HA Hr) as (r' & Hr' & Hs). exists r'. split; [by eapply list_elem_of_lookup_2|].
        split; [|by eapply same_recovers]. by destruct Hs as (_&->&_).
      * intros r' Hr' Hid. apply list_elem_of_lookup in Hr' as [i Hr'].
        destruct (Forall2_lookup_r _ _ _ _ _ HA Hr') as (r & Hr & Hs). destruct (J2 r) as (d & Hd & Hrec).
        { by eapply list_elem_of_lookup_2. } { by destruct Hs as (_&<-&_). }
        exists d. split; [done|by eapply same_recovers].
    + unfold crowd in *. rewrite X5, <- (Forall2_length _ _ _ HA). done.
  - apply evolves_same; [done|]. cbn. by rewrite Ht.
Qed.

Lemma same_all l : Forall2 same_run l l.
Proof. induction l; by constructor. Qed.

Lemma with_runs_update kind s l : sound s -> Forall2 same_run (runs kind s) l ->
  sound (with_runs kind s l) /\ evolves 0 s [] (with_runs kind s l) [].
Proof.
  intros Hs Hl. destruct kind; apply sound_update; first [done|apply same_all].
Qed.

Lemma alter_same f i l : (forall r, same_run r (f r)) -> Forall2 same_run l (alter f i l).
Proof.
  intros Hf. revert i. induction l as [|r l IH]; intros [|i]; cbn; constructor; first [done|apply same_all|apply IH].
Qed.

Lemma insert_same i r r' l : l !! i = Some r -> same_run r r' -> Forall2 same_run l (<[i := r']> l).
Proof.
  intros Hi Hs. rewrite <- (list_insert_id l i r Hi) at 1. apply Forall2_insert; [apply same_all|done].
Qed.

Lemma map_inj {A B} (f : A -> B) l x y : NoDup (map f l) -> x ∈ l -> y ∈ l -> f x = f y -> x = y.
Proof.
  induction l as [|z l IH]; intros Hnd Hx Hy E; [by apply not_elem_of_nil in Hx|]. cbn in Hnd. apply NoDup_cons in Hnd as [Hz Hnd].
  apply elem_of_cons in Hx as [->|Hx], Hy as [->|Hy]; [done| | |by apply IH].
  - destruct Hz. rewrite E. by apply list_elem_of_fmap_2.
  - destruct Hz. rewrite <- E. by apply list_elem_of_fmap_2.
Qed.

(** A live run is projected as it is. *)
Lemma project_live kind s r : sound s -> r ∈ runs kind s -> sound (project_run s r).
Proof.
  intros Hs Hr. pose proof (changed_projected s r (pa_writes _ _ Hs)) as Hc. pose proof (changed_all _ _ _ Hc) as Hall.
  pose proof (crowd_changed _ _ _ Hc) as Hcr. assert (r ∈ all_runs s) as Hra by (rewrite (all_runs_split kind); apply elem_of_app; by left).
  destruct (pa_live _ _ Hs kind r Hr) as (_ & Hsh & _). destruct Hs as [A B C D E F G I J K L], Hc as [H1 H2 H3 H4 H5 H6 H7 H8].
  split; unfold live_tokens, live_tasks in *; rewrite ?Hall, ?H3, ?H4; try done.
  - intros k'. specialize (A k'). destruct k'; cbn in *; by rewrite ?H1, ?H2.
  - intros id Hid. specialize (G id Hid). lia.
  - rewrite H8. intros id _. destruct (decide (id = o_task_id r)) as [->|Hne].
    + rewrite lookup_insert_eq. split.
      * intros d [= <-]. exists r. split_and!; [done..|by apply durable_recovers].
      * intros r' Hr' Hid. rewrite (map_inj o_task_id (all_runs s) r' r F Hr' Hra Hid). eexists. split; [done|by apply durable_recovers].
    + rewrite lookup_insert_ne by done. by apply J.
  - intros v Hv. apply K. by apply H7.
  - lia.
Qed.

Lemma evolves_project s r : event_writes_enabled s = true -> evolves 0 s [] (project_run s r) [].
Proof. intros Hw. eapply evolves_changed. by apply changed_projected. Qed.

(** ** Submissions *)

Lemma needs_input_ok kind s r text : sound s -> r ∈ runs kind s ->
  exists s', needs_input s r text = Some s' /\ sound s' /\ evolves 0 s [] s' [].
Proof.
  intros Hs Hr. unfold needs_input. destruct (pa_live _ _ Hs kind r Hr) as (_ & Hsh & _). destruct (current_pane_some r Hsh) as [pane ->].
  cbn [mbind option_bind]. eexists. split; [done|]. set (s1 := request_waiting _ _ _ _ _).
  assert (kept s s1) as Hk by apply kept_request. assert (sound s1) as H1 by by eapply part_kept.
  split.
  - apply (project_live kind); [done|]. by rewrite (changed_runs _ _ _ kind Hk).
  - exact (evolves_trans 0 0 _ _ _ _ _ _ (evolves_changed _ _ _ _ Hk) (evolves_project s1 r (pa_writes _ _ H1))).
Qed.

Lemma advance_ok kind s now i tok status verdict text : sound s -> (i < length (runs kind s))%nat ->
  exists s', advance_run s now kind i tok status verdict text = Some s' /\ sound s' /\ evolves 1 s [] s' [].
Proof.
  intros Hs Hi. unfold advance_run. destruct (lookup_lt_is_Some_2 _ _ Hi) as [active Ha]. rewrite Ha. cbn [mbind option_bind].
  destruct (pa_live _ _ Hs kind active) as (_ & Hsh & _); [by eapply list_elem_of_lookup_2|].
  destruct (current_pane_some active Hsh) as [pane ->]. cbn [mbind option_bind]. set (s1 := resolve_waiting_kind _ _ _ _).
  assert (kept s s1) as Hk by apply kept_resolve. assert (sound s1) as H1 by by eapply part_kept.
  destruct (part_take s1 kind i active H1) as (s2 & -> & _ & Hp & Hh & (_ & _ & Hre) & V); [by rewrite (changed_runs _ _ _ kind Hk)|].
  cbn [mbind option_bind].
  match goal with |- context [decide_run s2 active ?e] => set (ev := e) end.
  destruct (decide_settle s2 active ev now (if Text.is_empty text then None else Some text) Hp Hh Hre)
    as (s3 & r3 & a & s' & r' & -> & E' & _ & Hs' & V').
  cbn [mbind option_bind]. rewrite E'. cbn [mbind option_bind]. eexists. split; [done|]. split; [done|].
  exact (evolves_trans 0 1 _ _ _ _ _ _ (evolves_changed _ _ _ _ Hk) (evolves_trans 0 1 _ _ _ _ _ _ V V')).
Qed.

(** Pending submissions are no part of the invariant, but for their number. *)
Lemma sound_pending s l sent' : sound s -> N.of_nat (length (all_runs s) + length l) <= ROOM ->
  sound (s <| pending_orchestration_submissions := l |> <| sent := sent' |>).
Proof. intros [A B C D E F G I J K L] Hl. split; try done. rewrite N.add_0_r. exact Hl. Qed.

Lemma gate_ok kind s now r tok status verdict text expected reported : sound s -> crowd s + 1 <= ROOM -> r ∈ runs kind s ->
  exists s', gate_artifacts s now r tok status verdict text expected reported = Some s' /\ sound s' /\ evolves 0 s [] s' [].
Proof.
  intros Hs Hroom Hr. unfold gate_artifacts. destruct (existsb _ _); [exists s; split_and!; [done|done|by apply evolves_same]|].
  destruct (pa_live _ _ Hs kind r Hr) as (_ & Hsh & _). destruct (current_pane_some r Hsh) as [pane ->]. cbn [mbind option_bind].
  eexists. split; [done|]. destruct (roots s !! pane) as [root|]; [|split; [done|by apply evolves_same]].
  split; [|by apply evolves_same]. apply sound_pending; [done|]. unfold crowd in Hroom. rewrite length_app. cbn [length]. lia.
Qed.

Lemma awaiting_spec kind s tok i : awaiting_token kind s tok = Some i -> exists r, runs kind s !! i = Some r /\ run_token r = tok.
Proof.
  intros (r & Hi & H)%position_spec. exists r. split; [done|]. apply andb_prop in H as [H _]. by apply N.eqb_eq in H.
Qed.

Lemma expected_some kind r : live kind r -> is_Some (expected_artifacts_of r).
Proof.
  intros (_ & Hs & _). unfold expected_artifacts_of. destruct (o_kind r) eqn:Hk; [|by eexists].
  destruct (sh_template _ Hs Hk) as (t & -> & Hl). cbn [mbind option_bind].
  destruct (lookup_lt_is_Some_2 (template_roles t) (cur (o_state r))) as [spec ->]; [rewrite Hl; apply Hs|]. by eexists.
Qed.

Lemma submit_ok s now kind tok status verdict text claims validated : sound s -> (validated = false -> crowd s + 1 <= ROOM) ->
  exists s', on_submit s now kind tok status verdict text claims validated = Some s' /\ sound s' /\ evolves 1 s [] s' [].
Proof.
  intros Hs Hroom. unfold on_submit. destruct (awaiting_token kind s tok) as [i|] eqn:Hi; [|exists s; split_and!; [done|done|by apply evolves_same]].
  apply awaiting_spec in Hi as (r0 & Hi & _). cbv zeta. set (s1 := with_runs kind s _).
  destruct (with_runs_update kind s (alter clear_deadlines i (runs kind s)) Hs) as [H1 V1]; [by apply alter_same|]. fold s1 in H1, V1.
  assert (runs kind s1 !! i = Some (clear_deadlines r0)) as Hi1 by (unfold s1; rewrite runs_with, list_lookup_alter, decide_True, Hi by done; done).
  assert (crowd s1 = crowd s) as Hc1.
  { unfold crowd, s1. rewrite (all_runs_split kind), (all_runs_split kind s), runs_with, runs_with_other, !length_app, length_alter. by destruct kind. }
  rewrite Hi1. cbn [mbind option_bind]. set (r := clear_deadlines r0).
  match goal with |- context [if validated then s1 else ?x] => set (s2 := if validated then s1 else x) end.
  assert (kept s1 s2) as Hk2 by (unfold s2; destruct validated; [done|by apply kept_append]).
  assert (sound s2) as H2 by by eapply part_kept. assert (r ∈ runs kind s2) as Hr2.
  { rewrite (changed_runs _ _ _ kind Hk2). by eapply list_elem_of_lookup_2. }
  pose proof (crowd_changed _ _ _ Hk2) as Hc2.
  destruct (expected_some kind r) as [expected ->]; [by apply (pa_live _ _ H2)|]. cbn [mbind option_bind].
  assert (evolves 0 s [] s2 []) as V2 by exact (evolves_trans 0 0 _ _ _ _ _ _ V1 (evolves_changed _ _ _ _ Hk2)).
  destruct (negb validated && _ && _) eqn:Hgate.
  - destruct (gate_ok kind s2 now r tok status (match kind with OWorkflow => verdict | ORelay => None end) (take 16384 text) expected
      (map bounded_claim (take 64 claims)) H2) as (s3 & -> & H3 & V3); [|done|].
    + destruct validated; [done|]. specialize (Hroom eq_refl). lia.
    + exists s3. split_and!; [done|done|]. apply (evolves_weaken (0 + 0)); [done|]. by eapply evolves_trans.
  - match goal with |- context [if validated then ?x else s2] => set (s3 := if validated then x else s2) end.
    assert (kept s2 s3) as Hk3 by (unfold s3; destruct validated; [by apply kept_append|done]).
    assert (sound s3) as H3 by by eapply part_kept.
    assert (evolves 0 s [] s3 []) as V3 by exact (evolves_trans 0 0 _ _ _ _ _ _ V2 (evolves_changed _ _ _ _ Hk3)).
    destruct (bool_decide (status = SNeedsInput)).
    + destruct (needs_input_ok kind s3 r (take 16384 text) H3) as (s4 & -> & H4 & V4); [by rewrite (changed_runs _ _ _ kind Hk3)|].
      exists s4. split_and!; [done|done|]. apply (evolves_weaken (0 + 0)); [done|]. by eapply evolves_trans.
    + destruct (advance_ok kind s3 now i tok status (match kind with OWorkflow => verdict | ORelay => None end) (take 16384 text) H3) as (s4 & -> & H4 & V4).
      { rewrite (changed_runs _ _ _ kind Hk3), (changed_runs _ _ _ kind Hk2). by eapply lookup_lt_Some. }
      exists s4. split_and!; [done|done|exact (evolves_trans 0 1 _ _ _ _ _ _ V3 V4)].
Qed.

(** ** What the runtime answers *)

Lemma gate_failure_kept s kind tok error : kept s (report_artifact_gate_failure s kind tok error).
Proof. unfold report_artifact_gate_failure. destruct (_ ≫= _); [apply kept_request|done]. Qed.

Lemma kept_ok s s' b : sound s -> kept s s' -> exists s1, Some s' = Some s1 /\ sound s1 /\ evolves b s [] s1 [].
Proof.
  intros Hs Hk. exists s'. split_and!; [done|by eapply part_kept|]. eapply evolves_weaken; [|by eapply evolves_changed]. lia.
Qed.

Lemma validated_ok s now kind task_id tok os error : sound s ->
  exists s', artifact_validated s now kind task_id tok os error = Some s' /\ sound s' /\ evolves 1 s [] s' [].
Proof.
  intros Hs. unfold artifact_validated. destruct (position _ _) as [i|] eqn:Hi; [|exists s; split_and!; [done|done|by apply evolves_same]].
  apply position_spec in Hi as (q & Hi & _). destruct (swap_remove_spec _ _ _ Hi) as (rest & -> & Hp). cbn [mbind option_bind].
  set (s1 := s <| pending_orchestration_submissions := rest |>).
  assert (kept s s1) as Hk by (split; try done; cbn; rewrite Hp; cbn; lia).
  assert (sound s1) as H1 by by eapply part_kept.
  destruct error as [error|].
  - apply kept_ok; [done|]. etrans; [exact Hk|apply gate_failure_kept].
  - pose proof (kept_artifacts s1 task_id os) as Hk2. destruct (record_validated_artifacts s1 task_id os) as [s2 recorded]. cbn [fst] in Hk2.
    destruct recorded.
    + edestruct (submit_ok s2 now kind tok) as (s3 & -> & H3 & V3); [by eapply part_kept|done|]. exists s3. split_and!; [done|done|].
      exact (evolves_trans 0 1 _ _ _ _ _ _ (evolves_changed _ _ _ _ (transitivity Hk Hk2)) V3).
    + apply kept_ok; [done|]. etrans; [exact Hk|]. etrans; [exact Hk2|apply gate_failure_kept].
Qed.

Lemma checkpoint_ok s now task_id tok checkpoint error : sound s ->
  exists s', relay_checkpoint_created s now task_id tok checkpoint error = Some s' /\ sound s' /\ evolves 0 s [] s' [].
Proof.
  intros Hs. unfold relay_checkpoint_created. destruct (position _ (pending_relay_activations s)) as [i|] eqn:Hi;
    [|exists s; split_and!; [done|done|by apply evolves_same]].
  apply position_spec in Hi as (v & Hi & _). destruct (swap_remove_spec _ _ _ Hi) as (rest & -> & Hperm). cbn [mbind option_bind].
  set (s1 := s <| pending_relay_activations := rest |>).
  assert (v_role v = 0%nat) as Hv by (apply (pa_roles _ _ Hs); by eapply list_elem_of_lookup_2).
  assert (kept s s1) as Hk1 by (split; try done; cbn; intros x Hx; rewrite Hperm; by right).
  assert (sound s1) as H1 by by eapply part_kept.
  destruct (position _ (relays s1)) as [j|] eqn:Hj; [|by apply kept_ok].
  apply position_spec in Hj as (r & Hj & _). set (s2 := append_event s1 _).
  assert (kept s1 s2) as Hk2 by by apply kept_append. assert (sound s2) as H2 by by eapply part_kept.
  destruct (part_take s2 ORelay j r H2) as (s3 & -> & _ & Hp & Hh & (_ & Hsh & Hre) & V); [by rewrite (changed_runs _ _ _ ORelay Hk2)|].
  cbn [mbind option_bind]. cbv zeta.
  set (r1 := match checkpoint with Some c => _ | None => r end).
  assert (o_task_id r1 = o_task_id r /\ o_state r1 = o_state r /\ held s3 r1 /\ restartable r1 = true) as (Et & Est & Hh1 & Hre1).
  { unfold r1. destruct checkpoint; [|done]. split_and!; try done. destruct Hh as ([] & ?). by split. }
  destruct (settle s3 now r1 (Inject (v_role v) tok) (v_handoff v)) as (s' & r' & -> & Hsame & _ & Hs' & V'); [by rewrite Et|done| |].
  { rewrite Hv. split; [|done]. rewrite Est. by apply roles_nonempty. }
  rewrite (same_restartable _ _ Hsame), Hre1 in Hs', V'. cbn [mbind option_bind]. eexists. split; [done|]. split; [done|].
  replace (run_token r1) with (run_token r) in V' by (unfold run_token; by rewrite Est).
  apply (evolves_trans 0 0 _ _ _ _ _ _ (evolves_changed _ _ _ _ (transitivity Hk1 Hk2)) (evolves_trans 0 0 _ _ _ _ _ _ V V')).
Qed.

(** ** Deliveries *)

Lemma delivered_same now first r : shaped r -> exists r', delivered now first r = Some r' /\ same_run r r'.
Proof.
  intros Hs. unfold delivered. destruct first; [|by eexists].
  destruct (lookup_lt_is_Some_2 (o_started r) (cur (o_state r))) as [b Hb]; [rewrite (sh_started _ Hs); apply Hs|].
  cbn. rewrite Hb. eexists. split; [done|]. split_and!; try done. apply length_insert.
Qed.

Lemma kept_pty s p : kept s (s <| pty := p |>).
Proof. by split. Qed.

Lemma retry_ok now s d : sound s -> exists s', retry_delivery s now d = Some s' /\ sound s' /\ evolves 0 s [] s' [].
Proof.
  intros Hs. unfold retry_delivery. destruct (negb _); [by apply kept_ok|].
  destruct (match panes s !! d_pane d with Some _ => _ | None => _ end) as [p accepted].
  set (kind := d_kind d). set (s1 := append_event (s <| pty := p |>) _).
  assert (kept s s1) as Hk1 by (etrans; [apply (kept_pty s p)|by apply kept_append]).
  assert (sound s1) as H1 by by eapply part_kept.
  destruct accepted; cbv zeta.
  2:{ apply kept_ok; [done|]. etrans; [exact Hk1|]. destruct (_ <? 3); [apply kept_retry|apply kept_request]. }
  set (find := position _).
  assert (exists s2, match find (runs kind s1) with
      | Some i => r ← runs kind s1 !! i; r ← delivered now (d_first_delivery d) r; Some (with_runs kind s1 (<[i := r]> (runs kind s1)))
      | None => Some s1 end = Some s2 /\ sound s2 /\ evolves 0 s1 [] s2 []) as (s2 & -> & H2 & V2).
  { destruct (find (runs kind s1)) as [i|] eqn:Hi; [|exists s1; split_and!; [done|done|by apply evolves_same]].
    apply position_spec in Hi as (r & Hi & _). rewrite Hi. cbn [mbind option_bind].
    destruct (pa_live _ _ H1 kind r) as (_ & Hsh & _); [by eapply list_elem_of_lookup_2|].
    destruct (delivered_same now (d_first_delivery d) r Hsh) as (r' & -> & Hsame). cbn [mbind option_bind]. eexists. split; [done|].
    apply with_runs_update; [done|by eapply insert_same]. }
  cbn [mbind option_bind]. set (s3 := if d_first_delivery d then _ else s2). set (s4 := resolve_waiting_kind s3 _ _ _).
  assert (kept s2 s4) as Hk4 by (etrans; [|apply kept_resolve]; unfold s3; destruct (d_first_delivery d); [apply kept_bind|done]).
  assert (sound s4) as H4 by by eapply part_kept.
  assert (evolves 0 s [] s4 []) as V4.
  { exact (evolves_trans 0 0 _ _ _ _ _ _ (evolves_changed _ _ _ _ Hk1) (evolves_trans 0 0 _ _ _ _ _ _ V2 (evolves_changed _ _ _ _ Hk4))). }
  destruct (find (runs kind s4)) as [i|] eqn:Hi; [|by exists s4].
  apply position_spec in Hi as (r & Hi & _). rewrite Hi. cbn [mbind option_bind]. eexists. split; [done|]. split.
  - apply (project_live kind); [done|]. by eapply list_elem_of_lookup_2.
  - exact (evolves_trans 0 0 _ _ _ _ _ _ V4 (evolves_project _ _ (pa_writes _ _ H4))).
Qed.

Lemma deliveries_ok s now : sound s -> exists s', flush_prompt_deliveries_due s now = Some s' /\ sound s' /\ evolves 0 s [] s' [].
Proof.
  intros Hs. unfold flush_prompt_deliveries_due. set (s1 := s <| pending_prompt_deliveries := _ |>). set (ds := filter _ _).
  assert (kept s s1) as Hk by by split.
  destruct (fold_option_ok 0 (fun s d => retry_delivery s now d) (fun s d => retry_ok now s d) ds s1 (part_kept _ _ _ Hk Hs)) as (s' & -> & H' & V').
  exists s'. split_and!; [done|done|exact (evolves_trans 0 0 _ _ _ _ _ _ (evolves_changed _ _ _ _ Hk) V')].
Qed.

Lemma kept_validations s now : kept s (flush_artifact_validations_due s now).
Proof.
  unfold flush_artifact_validations_due. etrans; [|apply kept_foldl; intros; apply kept_expire].
  split; try done. apply length_filter.
Qed.

(** ** Idle Panes, deadlines, humans *)

Lemma idles_ok s now : sound s -> exists s', flush_orchestration_idle_due s now = Some s' /\ sound s' /\ evolves (2 * ROOM) s [] s' [].
Proof.
  intros Hs. unfold flush_orchestration_idle_due.
  assert (forall l, Forall2 same_run l (map (disarm_idle s) l)) as Hd.
  { intros l. induction l as [|r l IH]; cbn; constructor; [|done]. unfold disarm_idle. by destruct (_ || _). }
  set (s1 := s <| workflows := map (disarm_idle s) (workflows s) |> <| relays := map (disarm_idle s) (relays s) |>). cbv zeta.
  destruct (sound_update s s1 Hs) as [H1 V1]; try done; [apply Hd..|].
  destruct (both_kinds 1 (idle_run now) (fun r => due (o_idle_deadline r) now) s1 (idle_ok now) H1) as (s2 & E & H2 & V2).
  exists s2. split_and!; [exact E|done|]. exact (evolves_trans 0 _ _ _ _ _ _ _ V1 V2).
Qed.

Lemma reconcile_same s now pane status r : live (o_kind r) r -> exists r', reconcile_idle s now pane status r = Some r' /\ same_run r r'.
Proof.
  intros (_ & Hs & _). unfold reconcile_idle. destruct (negb _ || negb _); [by eexists|].
  destruct (o_kind r) eqn:Hk; cbn [mbind option_bind]; [|by eexists]. destruct (sh_template _ Hs Hk) as (t & -> & Hl). cbn [mbind option_bind].
  destruct (lookup_lt_is_Some_2 (template_roles t) (cur (o_state r))) as [spec ->]; [rewrite Hl; apply Hs|]. by eexists.
Qed.

Lemma reconcile_all s now pane status l : (forall r, r ∈ l -> live (o_kind r) r) ->
  exists l', map_option (reconcile_idle s now pane status) l = Some l' /\ Forall2 same_run l l'.
Proof.
  induction l as [|r l IH]; intros Hl; cbn; [by eexists|].
  destruct (reconcile_same s now pane status r) as (r' & -> & Hr); [apply Hl; by left|]. cbn [mbind option_bind].
  destruct IH as (l' & -> & H); [intros x Hx; apply Hl; by right|]. eexists. split; [done|by constructor].
Qed.

Lemma live_kind kind s r : sound s -> r ∈ runs kind s -> live (o_kind r) r.
Proof. intros Hs Hr. destruct (pa_live _ _ Hs kind r Hr) as (<- & H). done. Qed.

Lemma reconcile_ok s now pane status : sound s ->
  exists s', reconcile_orchestration_idle s now pane status = Some s' /\ sound s' /\ evolves 0 s [] s' [].
Proof.
  intros Hs. unfold reconcile_orchestration_idle.
  destruct (reconcile_all s now pane status (workflows s)) as (ws & -> & Hw); [intros r; apply (live_kind OWorkflow s r Hs)|]. cbn [mbind option_bind].
  destruct (reconcile_all s now pane status (relays s)) as (rs & -> & Hr); [intros r; apply (live_kind ORelay s r Hs)|]. cbn [mbind option_bind].
  eexists. split; [done|]. by apply sound_update.
Qed.

Lemma arm_ok s now pane : sound s -> sound (arm_orchestration_deadline s now pane) /\ evolves 0 s [] (arm_orchestration_deadline s now pane) [].
Proof.
  intros Hs. assert (forall l, Forall2 same_run l (arm_first now pane l)) as Ha.
  { intros l. unfold arm_first. destruct (position _ _); [by apply alter_same|apply same_all]. }
  apply sound_update; try done; apply Ha.
Qed.

Lemma resume_body now now_ms : body_ok 1 (resume_run now now_ms).
Proof.
  intros kind s r Hp Hh (_ & Hsh & Hre). unfold resume_run.
  assert (exists s1 r1 a, (if bool_decide (phase (o_state r) = Paused) then
      decide_run s (r <| o_elapsed_deadline :=
        elapsed_deadline now now_ms (o_started_at_ms r) (o_guard_limits r) (o_elapsed_guard_triggered r) |>) EResume
      else Some (s, r, Inject (cur (o_state r)) (token (o_state r)))) = Some (s1, r1, a) /\ o_task_id r1 = o_task_id r
    /\ restartable r1 = true /\ part (Some (o_task_id r)) s1 /\ held s1 r1 /\ fits a r1 /\ evolves 1 s [run_token r] s1 [run_token r1])
    as (s1 & r1 & a & -> & Et & Hre1 & Hp1 & Hh1 & Hf & V1).
  { case_bool_decide as Hph.
    - set (r0 := r <| o_elapsed_deadline := _ |>). assert (held s r0) as Hh0 by exact (same_held s r r0 ltac:(done) Hh).
      destruct (decide_ok s r0 EResume Hp Hh0 Hre) as (s1 & r1 & a & E & Et & (st & a0 & Est & Hph1) & H1 & H2 & H3 & H4).
      exists s1, r1, a. split_and!; try done. unfold step in Est. change (o_state r0) with (o_state r) in Est. rewrite Hph in Est.
      injection Est as <- _. unfold restartable. by rewrite Hph1.
    - exists s, r, (Inject (cur (o_state r)) (token (o_state r))). split_and!; try done; [split; [apply Hsh|done]|by apply evolves_same]. }
  cbn [mbind option_bind]. cbv zeta. set (s2 := set_task_status s1 _ _). assert (kept s1 s2) as Hk by apply kept_status.
  destruct (settle s2 now r1 a None) as (s' & r' & -> & Hsame & _ & Hs' & V'); [rewrite Et; by eapply part_kept|by eapply held_kept|done|].
  rewrite (same_restartable _ _ Hsame), Hre1 in Hs', V'. cbn [mbind option_bind]. eexists. split; [done|]. split; [done|].
  exact (evolves_trans 1 0 _ _ _ _ _ _ V1 (evolves_trans 0 0 _ _ _ _ _ _ (evolves_changed _ _ _ _ Hk) V')).
Qed.

Lemma resume_ok s now now_ms pane : sound s ->
  exists s', resume_waiting_orchestration s now now_ms pane = Some s' /\ sound s' /\ evolves 1 s [] s' [].
Proof.
  intros Hs. unfold resume_waiting_orchestration. destruct (position _ (workflows s)) as [i|] eqn:Hi.
  - apply position_spec in Hi as (r & Hi & _). apply (taken_ok 1 _ OWorkflow s i (resume_body now now_ms) Hs). by eapply lookup_lt_Some.
  - destruct (position _ (relays s)) as [j|] eqn:Hj; [|by apply kept_ok].
    apply position_spec in Hj as (r & Hj & _). apply (taken_ok 1 _ ORelay s j (resume_body now now_ms) Hs). by eapply lookup_lt_Some.
Qed.

Lemma cancel_changed s r : event_writes_enabled s = true -> changed (base.delete (o_task_id r)) s (cancel_run s r).
Proof.
  intros Hw. unfold cancel_run. match goal with |- context [record_orchestration_terminal ?x _ _ _] => set (s0 := x) end. cbv zeta.
  set (s1 := record_orchestration_terminal s0 _ _ _). set (s2 := append_event s1 _). set (s3 := set_task_status s2 _ _).
  assert (kept s s1) as H1 by (etrans; [|apply kept_terminal]; split; try done; apply length_filter).
  assert (changed (base.delete (o_task_id r)) s s3) as H3.
  { eapply changed_kept; [|apply kept_status]. eapply kept_changed; [exact H1|]. apply changed_finished. by rewrite (ch_writes _ _ _ H1). }
  destruct (o_kind r); [done|]. eapply changed_kept; [exact H3|]. split; try done. cbn. intros v Hv. by apply list_elem_of_filter in Hv as [_ Hv].
Qed.

Lemma cancel_loop_ok kind pane fuel : forall i s, sound s ->
  exists s', cancel_loop fuel kind pane i s = Some s' /\ sound s' /\ evolves 0 s [] s' [].
Proof.
  induction fuel as [|fuel IH]; intros i s Hs; cbn [cancel_loop]; [by apply kept_ok|].
  destruct (runs kind s !! i) as [r|] eqn:Hi; [|by apply kept_ok]. case_bool_decide; [|by apply IH].
  destruct (part_take s kind i r Hs Hi) as (s1 & -> & _ & Hp & Hh & _ & V1). cbn [mbind option_bind].
  pose proof (cancel_changed s1 r (pa_writes _ _ Hp)) as Hc.
  destruct (IH i (cancel_run s1 r)) as (s2 & -> & H2 & V2); [by eapply part_finished|]. exists s2. split_and!; [done|done|].
  refine (evolves_trans 0 0 _ _ _ _ _ _ V1 (evolves_trans 0 0 _ _ _ [] _ _ _ V2)).
  apply evolves_same; [apply Hc|]. intros x Hx. cbn. unfold live_tokens in *. rewrite (changed_all _ _ _ Hc) in Hx. by right.
Qed.

Lemma cancel_ok s pane : sound s -> exists s', cancel_orchestrations_for_pane s pane = Some s' /\ sound s' /\ evolves 0 s [] s' [].
Proof.
  intros Hs. unfold cancel_orchestrations_for_pane.
  destruct (cancel_loop_ok OWorkflow pane (length (workflows s)) 0 s Hs) as (s1 & -> & H1 & V1). cbn [mbind option_bind].
  destruct (cancel_loop_ok ORelay pane (length (relays s1)) 0 s1 H1) as (s2 & -> & H2 & V2). exists s2. split_and!; [done|done|].
  exact (evolves_trans 0 0 _ _ _ _ _ _ V1 V2).
Qed.

(** ** Launches *)

Definition planned (p : RunPlan) : Prop :=
  p = relay_plan \/ exists name t, workflow_template name = Some t /\ p = workflow_plan t.

Lemma workflow_template_spec name t : workflow_template name = Some t -> template_name t = name /\ template_roles t <> [].
Proof.
  unfold workflow_template. intros ([i t'] & H & ->)%fmap_Some. apply list_find_Some in H as (H & Hn & _).
  split; [done|]. apply list_elem_of_lookup_2 in H. cbn [snd]. unfold WORKFLOW_TEMPLATES in H.
  rewrite !elem_of_cons in H. destruct H as [->|[->|[->|H]]]; try done. by apply not_elem_of_nil in H.
Qed.

Lemma planned_roles p : planned p -> pl_roles p <> []
  /\ (pl_kind p = OWorkflow -> exists t, pl_template p = Some t /\ length (template_roles t) = length (pl_roles p)).
Proof.
  intros [->|(name & t & H & ->)]; [done|]. apply workflow_template_spec in H as [_ H]. cbn. unfold engine_roles. split.
  - by destruct (template_roles t).
  - intros _. exists t. by rewrite length_map.
Qed.

Lemma kept_create_task s title st : kept s (create_task s title st).1.
Proof.
  unfold create_task. cbv zeta. cbn [fst]. set (s1 := append_event s _). assert (kept s s1) as H1 by by apply kept_append.
  etrans; [exact H1|]. split; try done. cbn. unfold touch. rewrite update_next. unfold Tasks.insert.
  match goal with |- context [update ?l ?i ?f] => pose proof (update_next l i f) as Hn; destruct (update l i f) as [l2 []] end;
    cbn in *; lia.
Qed.

Lemma create_task_id s title st : (create_task s title st).2 = Tasks.next_id (Turns.tasks s).
Proof. done. Qed.

Lemma create_task_next s title st : Tasks.next_id (Turns.tasks s) + 1 < U64 ->
  Tasks.next_id (Turns.tasks s) < Tasks.next_id (Turns.tasks (create_task s title st).1).
Proof.
  intros Hb. unfold create_task. cbv zeta. cbn [fst]. set (s1 := append_event s _).
  unfold put_field. cbn. unfold touch. rewrite update_next. unfold Tasks.insert. rewrite wadd_small by done.
  match goal with |- context [update ?l ?i ?f] => pose proof (update_next l i f) as Hn; destruct (update l i f) as [l2 []] end;
    cbn in *; lia.
Qed.

Lemma part_new s t : sound s -> crowd s + 1 <= ROOM -> t ∉ live_tasks s -> t < Tasks.next_id (Turns.tasks s) -> part (Some t) s.
Proof.
  intros [A B C D E F G I J K L] Hc Ht Hb. split; try done.
  - intros id [= <-]. done.
  - intros id Hne. by apply J.
Qed.

Lemma sound_activation s v sent' : sound s -> v_role v = 0%nat ->
  sound (s <| pending_relay_activations := pending_relay_activations s ++ [v] |> <| sent := sent' |>).
Proof.
  intros [A B C D E F G I J K L] Hv. split; try done.
  cbn. intros x Hx. apply elem_of_app in Hx as [Hx|Hx%list_elem_of_singleton]; [by apply K|by subst].
Qed.

Lemma fresh_shaped p now now_ms g goal providers role_panes id : planned p ->
  length providers = length (pl_roles p) -> length role_panes = length (pl_roles p) ->
  shaped (fresh_run p now now_ms g goal providers role_panes id).
Proof.
  intros Hp H1 H2. destruct (planned_roles p Hp) as [Hne Ht]. split; try done.
  - by apply State_new_wf.
  - cbn. by rewrite length_replicate.
Qed.

Lemma checkpoint_some s r a : shaped r -> fits a r -> is_Some (checkpoint_of s r a).
Proof.
  intros Hs Hf. unfold checkpoint_of. destruct (o_kind r); [by eexists|]. destruct a; try by eexists.
  destruct Hf as [Hr _]. destruct (lookup_lt_is_Some_2 _ _ Hr) as [spec ->]. cbn [mbind option_bind]. case_bool_decide; [|by eexists].
  destruct (lookup_lt_is_Some_2 (o_role_panes r) role) as [pane ->]; [by rewrite (sh_panes _ Hs)|]. by eexists.
Qed.

Lemma checkpoint_role s r role tok x t root : checkpoint_of s r (Inject role tok) = Some (Some (x, t, root)) -> x = role.
Proof.
  unfold checkpoint_of. destruct (o_kind r); [done|]. destruct (Orchestrate.roles _ !! role); [|done]. cbn [mbind option_bind].
  case_bool_decide; [|done]. destruct (o_role_panes r !! role); [|done]. cbn [mbind option_bind]. destruct (roots s !! n); [|done]. by intros [= <- _ _].
Qed.

Lemma launch_ok s now now_ms p parent g goal providers role_panes : sound s -> crowd s + 1 <= ROOM ->
  Tasks.next_id (Turns.tasks s) + 1 < U64 -> planned p ->
  length providers = length (pl_roles p) -> length role_panes = length (pl_roles p) ->
  exists s' run, launch_run s now now_ms p parent g goal providers role_panes = Some (s', run) /\ sound s' /\ evolves 1 s [] s' [].
Proof.
  intros Hs Hroom Hid Hp Hl1 Hl2. unfold launch_run. cbv zeta. set (goal' := take 65536 goal). set (title := run_title p g goal').
  pose proof (kept_create_task s title Doing) as Hk1. pose proof (create_task_id s title Doing) as Eid.
  pose proof (create_task_next s title Doing Hid) as Hnext.
  destruct (create_task s title Doing) as [s1 id]. cbn [fst snd] in Hk1, Eid, Hnext. subst id. set (id := Tasks.next_id (Turns.tasks s)) in *.
  set (s2 := set_task_details s1 id _ _). assert (kept s1 s2) as Hk2 by apply kept_details.
  set (roles := zip_with _ _ _). pose proof (kept_create s2 parent (run_kind_of (pl_kind p)) id title (gl_project g) roles) as Hk3.
  destruct (create_orchestration_run s2 _ _ _ _ _ _) as [s3 run]. cbn [fst] in Hk3.
  assert (kept s s3) as Hk by (etrans; [exact Hk1|]; etrans; [exact Hk2|exact Hk3]).
  assert (part (Some id) s3) as Hp3.
  { apply part_new; [by eapply part_kept|pose proof (crowd_changed _ _ _ Hk); lia| |].
    - unfold live_tasks. rewrite (changed_all _ _ _ Hk). intros Hin. apply (pa_bound _ _ Hs) in Hin. unfold id in Hin. lia.
    - pose proof (ch_next _ _ _ Hk2). pose proof (ch_next _ _ _ Hk3). lia. }
  set (r := fresh_run p now now_ms g goal' providers role_panes id).
  assert (shaped r) as Hsh by by apply fresh_shaped.
  set (st := (open_turn (with_cur (o_state r) 0)).1).
  destruct (engine_answer (o_state r) EStart (sh_state _ Hsh)) as (st' & a0 & Est & Hw & Hss & _).
  assert (step (o_state r) EStart = Some (st, Inject 0 (token st))) as Est' by done. rewrite Est' in Est. injection Est as <- <-.
  destruct (scoped_ok s3 r st (Inject 0 (token st)) [] Hp3 Hsh Hw Hss) as (s4 & st4 & a & E & Hph & Ha & Hp4 & Hh4 & Hf4 & V4);
    [split; [exact (roles_nonempty r Hsh)|done]|left; by eexists _, _|].
  destruct (Ha 0%nat (token st) eq_refl) as [tok ->]. clear Ha. set (r4 := r <| o_state := st4 |>) in *.
  assert (restartable r4 = true) as Hre4 by (unfold restartable; cbn; by rewrite Hph).
  assert (decide_run s3 r EStart = Some (s4, r4, Inject 0 tok)) as ->.
  { unfold decide_run, decide_workflow_next, decide_relay_next. destruct (o_kind r); rewrite Est'; cbn [mbind option_bind]; by rewrite E. }
  cbn [mbind option_bind]. destruct (checkpoint_some s4 r4 (Inject 0 tok) (proj1 Hh4) Hf4) as [checkpoint Ec]. rewrite Ec. cbn [mbind option_bind].
  assert (evolves 1 s [] s4 [run_token r4]) as V by exact (evolves_trans 0 1 _ _ _ _ _ _ (evolves_changed _ _ _ _ Hk) V4).
  destruct checkpoint as [[[x t] root]|]; cbn [mbind option_bind].
  - rewrite Hre4. destruct (put_back s4 r4 Hp4 Hh4 Hre4) as [H5 V5]. eexists _, _. split; [done|]. split.
    + apply sound_activation; [done|]. by apply checkpoint_role in Ec.
    + exact (evolves_trans 1 0 _ _ _ _ _ _ V V5).
  - destruct (settle s4 now r4 (Inject 0 tok) None Hp4 Hh4 Hf4) as (s5 & r5 & -> & Hsame & _ & H5 & V5). cbn [mbind option_bind].
    rewrite (same_restartable _ _ Hsame), Hre4 in *. eexists _, _. split; [done|]. split; [done|].
    exact (evolves_trans 1 0 _ _ _ _ _ _ V V5).
Qed.
End Turns.
