(* ===== verification/TurnsSpec.v ===== *)
(** * What the server promises of live orchestrations

    What is taken up of the log of an earlier process is sound, and stays so
    through the calls of the server's loop: every handler answers, no two live
    runs share a token, a token that is no longer a live run's never is again,
    and the events recorded recover exactly the live runs. *)

From S2P Require Import Prelude Agent Artifact RunGraph Guardrail Waiting Tasks Orchestrate Events EventLog Replay ReplaySpec Launch Xorshift Turns Runs TurnsInv.

(** ** Recovery *)

Section Recovery.
Context {P : Ptys}.

Lemma reject_changed s run reason : event_writes_enabled s = true ->
  changed (base.delete (do_task_id run)) s (reject_recovered_orchestration s run reason).
Proof.
  intros Hw. unfold reject_recovered_orchestration. eapply changed_kept; [|apply kept_status].
  set (s1 := record_orchestration_terminal _ _ _ _). assert (kept s s1) as Hk by apply kept_terminal.
  eapply kept_changed; [exact Hk|]. apply changed_finished. by rewrite (ch_writes _ _ _ Hk).
Qed.

(** What an accepted run is known to be. *)
Lemma shape_ok run f : recovered_run_shape_error run f = None ->
  let st := do_state run in let n := length (Orchestrate.roles st) in
  (phase st = Awaiting \/ phase st = Paused) /\ token st <> 0 /\ (cur st < n)%nat /\ length (do_role_panes run) = n
  /\ length (recovered_role_providers run) = n
  /\ (do_kind run = OWorkflow -> exists name t, do_template run = Some name /\ workflow_template name = Some t
        /\ length (template_roles t) = n).
Proof.
  unfold recovered_run_shape_error. cbv zeta. intros H.
  repeat match type of H with (if ?b then Some _ else _) = None => let E := fresh "E" in destruct b eqn:E; [discriminate H|] end.
  apply negb_false_iff in E. apply orb_false_iff in E5 as [E5 E5']. apply negb_false_iff, Nat.eqb_eq in E5.
  apply N.eqb_neq in E3. apply Nat.leb_gt in E4.
  split_and!; [by destruct (phase (do_state run)); auto|done|done|done| |].
  - unfold recovered_role_providers. apply andb_false_iff in E6. destruct (do_role_providers run) as [|p ps]; rewrite length_map; [done|].
    destruct E6 as [E6|E6]; apply negb_false_iff in E6; [discriminate|]. by apply Nat.eqb_eq in E6.
  - intros Hk. rewrite Hk in H. destruct (do_template run) as [name|]; [|discriminate]. cbn [mbind option_bind] in H.
    destruct (workflow_template name) as [t|] eqn:Et; [|discriminate]. destruct (Nat.eqb_spec (length (template_roles t)) (length (do_role_panes run)));
      [|discriminate]. exists name, t. split_and!; [done|done|congruence].
Qed.

(** The log of an earlier process is one that this program can have written. *)
Record recordable (s : Server) (d : DurableOrchestration) : Prop := {
  re_task : do_task_id d < Tasks.next_id (Turns.tasks s);
  re_token : token (do_state d) < U64;
  re_fix : (fix_target (do_state d) < length (Orchestrate.roles (do_state d)))%nat;
  re_replan : (replan_target (do_state d) < length (Orchestrate.roles (do_state d)))%nat }.

(** A server before it has recovered anything. *)
Record fresh (s : Server) : Prop := {
  fr_workflows : workflows s = []; fr_relays : relays s = [];
  fr_pending : pending_orchestration_submissions s = []; fr_activations : pending_relay_activations s = [];
  fr_writes : event_writes_enabled s = true; fr_state : 0 < orchestration_token_state s < U64;
  fr_log : Forall (fun e => neutral e = true) (log s) }.

(** The events recorded so far are not about the runs that are still to do. *)
Definition untouched (ds : list DurableOrchestration) (s : Server) : Prop :=
  forall m id d, id ∉ map do_task_id ds -> recoverable (<[id := d]> m) s = <[id := d]> (recoverable m s).

Lemma untouched_changed ds ids s s' f : changed f s s' -> untouched ds s ->
  (forall m id (d : DurableOrchestration), id ∉ map do_task_id (ds ++ ids) -> f (<[id := d]> m) = <[id := d]> (f m)) -> untouched (ds ++ ids) s'.
Proof.
  intros Hc Hu Hf m id d Hid. rewrite !(ch_recoverable _ _ _ Hc), Hu; [by apply Hf|].
  intros Hin. apply Hid. rewrite map_app. apply elem_of_app. by left.
Qed.

Record restoring (ds : list DurableOrchestration) (todo : nat) (seen : list N) (s0 s : Server) : Prop := {
  rt_sound : sound (by_task ds) s;
  rt_untouched : untouched ds s;
  rt_seen : forall t, t ∈ live_tokens s -> t ∈ seen;
  rt_tasks : forall t, t ∈ live_tasks s -> t ∈ map do_task_id ds;
  rt_next : Tasks.next_id (Turns.tasks s0) <= Tasks.next_id (Turns.tasks s);
  rt_room : crowd s + N.of_nat todo <= ROOM }.

Lemma by_task_snoc ds d : by_task (ds ++ [d]) = <[do_task_id d := d]> (by_task ds).
Proof. unfold by_task. by rewrite foldl_snoc. Qed.

(** The next run is to be recovered. *)
Lemma restoring_next ds d todo seen s0 s : restoring ds (S todo) seen s0 s -> do_task_id d ∉ map do_task_id ds ->
  do_task_id d < Tasks.next_id (Turns.tasks s0) ->
  part (by_task (ds ++ [d])) (Some (do_task_id d)) s /\ recoverable (by_task (ds ++ [d])) s !! do_task_id d = Some d.
Proof.
  intros [Hs Hu Hseen Htasks Hnext Hroom] Hd Hid. rewrite by_task_snoc. pose proof (Hu (by_task ds) _ d Hd) as E.
  destruct Hs as [A B C D E' F G I J K L]. split; [|rewrite E; apply lookup_insert_eq].
  split; try done.
  - intros id [= <-]. split; [|lia]. intros Hin. by apply Hd, Htasks.
  - intros id Hne. rewrite E. assert (id <> do_task_id d) as Hne' by congruence. rewrite lookup_insert_ne by done. by apply J.
  - cbn in L. lia.
Qed.

Lemma rejected ds d todo seen s0 s reason : restoring ds (S todo) seen s0 s -> do_task_id d ∉ map do_task_id ds ->
  do_task_id d < Tasks.next_id (Turns.tasks s0) ->
  restoring (ds ++ [d]) todo seen s0 (reject_recovered_orchestration s d reason).
Proof.
  intros Hr Hd Hid. destruct (restoring_next ds d todo seen s0 s Hr Hd Hid) as [Hp Hl]. destruct Hr as [Hs Hu Hseen Htasks Hnext Hroom].
  pose proof (reject_changed s d reason (pa_writes _ _ _ Hs)) as Hc. pose proof (changed_all _ _ _ Hc) as Hall.
  split.
  - by eapply part_finished.
  - eapply untouched_changed; [done..|]. intros m id x Hin. apply delete_insert_ne. intros <-. apply Hin.
    rewrite map_app. apply elem_of_app. right. by left.
  - unfold live_tokens. by rewrite Hall.
  - unfold live_tasks. rewrite Hall. intros t Ht. rewrite map_app. apply elem_of_app. left. by apply Htasks.
  - pose proof (ch_next _ _ _ Hc). lia.
  - pose proof (crowd_changed _ _ _ Hc). lia.
Qed.

Lemma restoring_kept ds todo seen s0 s s' : kept s s' -> restoring ds todo seen s0 s -> restoring ds todo seen s0 s'.
Proof.
  intros Hk [Hs Hu Hseen Htasks Hnext Hroom]. pose proof (changed_all _ _ _ Hk) as Hall. split.
  - by eapply part_kept.
  - intros m id d Hid. by rewrite !(ch_recoverable _ _ _ Hk), Hu.
  - unfold live_tokens. by rewrite Hall.
  - unfold live_tasks. by rewrite Hall.
  - pose proof (ch_next _ _ _ Hk). lia.
  - pose proof (crowd_changed _ _ _ Hk). lia.
Qed.

Lemma accepted ds d todo seen s0 s f now now_ms template started resumed : restoring ds (S todo) seen s0 s ->
  do_task_id d ∉ map do_task_id ds -> recordable s0 d -> recovered_run_shape_error d f = None -> token (do_state d) ∉ seen ->
  length started = length (Orchestrate.roles (do_state d)) ->
  (do_kind d = OWorkflow -> exists name t, do_template d = Some name /\ workflow_template name = Some t /\ template = Some t) ->
  restoring (ds ++ [d]) todo (token (do_state d) :: seen) s0 (push_run s (recovered_run s now now_ms d template started resumed)).
Proof.
  intros Hr Hd [R1 R2 R3 R4] Hsh Hseen Hst Ht. destruct (shape_ok d f Hsh) as (Hph & Htok & Hcur & Hpanes & Hprov & Htem).
  destruct (restoring_next ds d todo seen s0 s Hr Hd R1) as [Hp Hl]. destruct Hr as [Hs Hu Hseen' Htasks Hnext Hroom].
  set (r := recovered_run s now now_ms d template started resumed).
  assert (held s r) as Hh.
  { split; [split; try done|].
    - intros Hk. destruct (Ht Hk) as (name & t & E1 & E2 & ->). destruct (Htem Hk) as (name' & t' & E1' & E2' & E3). exists t. split; [done|].
      cbn. congruence.
    - change (run_token r) with (token (do_state d)). split; [|lia]. intros Hin. by apply Hseen, Hseen'. }
  assert (restartable r = true) as Hre by (unfold restartable; cbn; by destruct Hph as [->| ->]).
  assert (recovers d r) as Hrec.
  { unfold recovers, r. cbn. split_and!; try done. destruct (do_kind d); [|done]. destruct (Ht eq_refl) as (name & t & E1 & E2 & ->).
    apply workflow_template_spec in E2 as [<- _]. done. }
  destruct (part_push (by_task (ds ++ [d])) s r Hp Hh Hre) as [Hs' _]; [by exists d|].
  destruct (push_run_fields s r) as (_&_&X3&X4&X5&_). pose proof (push_run_all s r) as Hall. split.
  - done.
  - intros m id x Hid. unfold recoverable. rewrite X4. apply Hu. intros Hin. apply Hid. rewrite map_app. apply elem_of_app. by left.
  - intros t. unfold live_tokens. rewrite Hall. cbn. rewrite !elem_of_cons. intros [->|Hin]; [by left|right; by apply Hseen'].
  - intros t. unfold live_tasks. rewrite Hall. cbn. rewrite map_app, elem_of_cons, elem_of_app. intros [->|Hin]; [right; by left|left; by apply Htasks].
  - by rewrite X3.
  - unfold crowd in *. rewrite Hall, X5. cbn [length]. lia.
Qed.

Lemma restore_step ds d todo seen s0 s now now_ms : restoring ds (S todo) seen s0 s -> do_task_id d ∉ map do_task_id ds ->
  recordable s0 d ->
  exists seen' s', restore_one now now_ms (seen, s) d = Some (seen', s') /\ restoring (ds ++ [d]) todo seen' s0 s'.
Proof.
  intros Hr Hd Hrec. pose proof (re_task _ _ Hrec) as Hid. unfold restore_one.
  destruct (recovered_run_shape_error d _) as [reason|] eqn:Hsh; [eexists _, _; split; [done|by apply rejected]|]. cbv zeta.
  set (bound := map _ _). destruct (existsb _ bound); [eexists _, _; split; [done|by apply rejected]|].
  case_bool_decide as Hseen; [eexists _, _; split; [done|by apply rejected]|].
  destruct (shape_ok d _ Hsh) as (Hph & Htok & Hcur & Hpanes & Hprov & Htem).
  destruct (lookup_lt_is_Some_2 (do_role_panes d) (cur (do_state d))) as [pane ->]; [by rewrite Hpanes|]. cbn [mbind option_bind].
  set (started := map _ bound). assert (length started = length (Orchestrate.roles (do_state d))) as Hst.
  { unfold started, bound. rewrite !length_map, length_zip_with. lia. }
  destruct (lookup_lt_is_Some_2 started (cur (do_state d))) as [resumed Hres]; [by rewrite Hst|]. rewrite Hres. cbn [mbind option_bind].
  assert (exists template, match do_kind d with
      | OWorkflow => name ← do_template d; t ← workflow_template name; Some (Some t)
      | ORelay => Some None end = Some template
    /\ (do_kind d = OWorkflow -> exists name t, do_template d = Some name /\ workflow_template name = Some t /\ template = Some t))
    as (template & -> & Ht).
  { destruct (do_kind d); [|by exists None]. destruct (Htem eq_refl) as (name & t & -> & E & _). cbn [mbind option_bind]. rewrite E.
    exists (Some t). split; [done|]. intros _. by exists name, t. }
  cbn [mbind option_bind]. eexists _, _. split; [done|].
  pose proof (accepted ds d todo seen s0 s _ now now_ms template started resumed Hr Hd Hrec Hsh Hseen Hst Ht) as Ha.
  destruct (negb resumed && _); [|done]. eapply restoring_kept; [apply kept_request|done].
Qed.

Lemma restore_all now now_ms s0 todo : forall ds seen s, restoring ds (length todo) seen s0 s ->
  NoDup (map do_task_id (ds ++ todo)) -> Forall (recordable s0) todo ->
  exists seen' s', fold_option (restore_one now now_ms) (seen, s) todo = Some (seen', s') /\ restoring (ds ++ todo) 0 seen' s0 s'.
Proof.
  induction todo as [|d todo IH]; intros ds seen s Hr Hnd Hf; cbn [fold_option length].
  - exists seen, s. by rewrite app_nil_r.
  - inversion Hf as [|? ? Hd Hf']; subst. destruct (restore_step ds d (length todo) seen s0 s now now_ms Hr) as (seen1 & s1 & -> & Hr1); [|done|].
    + rewrite map_app in Hnd. cbn in Hnd. apply NoDup_app in Hnd as (_ & Hdis & _). intros Hin. apply (Hdis _ Hin). by left.
    + cbn [mbind option_bind]. destruct (IH (ds ++ [d]) seen1 s1 Hr1) as (seen2 & s2 & -> & Hr2); [by rewrite <- app_assoc|done|].
      exists seen2, s2. by rewrite <- app_assoc in Hr2.
Qed.

Lemma neutral_recoverable l (m : gmap N DurableOrchestration) : Forall (fun e => neutral e = true) l -> foldl replay_event m l = m.
Proof. intros H. revert m. induction H as [|e l He _ IH]; intros m; [done|]. cbn. by rewrite replay_neutral. Qed.

(** Whatever the log of an earlier process says, what is taken up of it is
    sound. *)
Lemma restore_sound m s now now_ms : fresh s -> keyed m -> (forall id d, m !! id = Some d -> recordable s d) ->
  N.of_nat (length (values m)) <= ROOM ->
  exists s', restore_orchestrations s now now_ms (values m) = Some s' /\ sound m s'.
Proof.
  intros [A B C D E F G] Hkey Hrec Hroom.
  assert (Forall (recordable s) (values m)) as Hf.
  { apply Forall_forall. intros d (id & Hd)%values_elem. by eapply Hrec. }
  assert (NoDup (map do_task_id (values m))) as Hnd by by apply keyed_values_nodup.
  assert (all_runs s = []) as Hall by (unfold all_runs; by rewrite A, B).
  destruct (restore_all now now_ms s (values m) [] [] s) as (seen & s' & E' & Hr); [|done|done|].
  - split; try done.
    + split; unfold live_tokens, live_tasks; rewrite ?Hall, ?D; try done; try (by apply NoDup_nil_2); try (intros x Hx; by apply not_elem_of_nil in Hx).
      * intros kind r Hr. destruct kind; cbn in Hr; rewrite ?A, ?B in Hr; by apply not_elem_of_nil in Hr.
      * unfold recoverable. rewrite neutral_recoverable by done. intros id _. split; [done|]. intros r Hr. by apply not_elem_of_nil in Hr.
      * unfold crowd. rewrite Hall, C. cbn. lia.
    + intros m' id d _. unfold recoverable. by rewrite !neutral_recoverable.
    + unfold live_tokens. by rewrite Hall.
    + unfold live_tasks. by rewrite Hall.
    + unfold crowd. rewrite Hall, C. cbn. lia.
  - exists s'. unfold restore_orchestrations. rewrite E'. split; [done|]. destruct Hr as [Hs _ _ _ _ _]. cbn in Hs. by rewrite by_task_values in Hs.
Qed.
End Recovery.

(** ** The life of a server *)

Section Life.
Context {P : Ptys}.

(** The calls of the server's loop on live orchestrations. *)
Inductive Op : Type :=
| OpLaunch (now now_ms : N) (p : RunPlan) (parent : option N) (g : GuardedLaunch) (goal : str)
    (providers : list ResolvedRoleProvider) (role_panes : list N)
| OpSubmit (now : N) (kind : OrchestrationKind) (tok : N) (status : SubmissionStatus) (verdict : option str)
    (summary : str) (claims : list ArtifactClaim)
| OpValidated (now : N) (kind : OrchestrationKind) (task_id tok : N) (os : list ArtifactObservation) (error : option str)
| OpCheckpoint (now task_id tok : N) (checkpoint error : option str)
| OpDeliveries (now : N) | OpStalls (now : N) | OpElapsed (now now_ms : N) | OpIdles (now : N) | OpValidations (now : N)
| OpReconcile (now pane : N) (status : AgentStatus)
| OpArm (now pane : N)
| OpResume (now now_ms pane : N)
| OpPaneClosed (pane : N)
| OpOutside (s' : Server).

Definition run_op (s : Server) (o : Op) : option Server :=
  match o with
  | OpLaunch now now_ms p parent g goal providers role_panes =>
      fst <$> launch_run s now now_ms p parent g goal providers role_panes
  | OpSubmit now kind tok status verdict summary claims => on_submit s now kind tok status verdict summary claims false
  | OpValidated now kind task_id tok os error => artifact_validated s now kind task_id tok os error
  | OpCheckpoint now task_id tok checkpoint error => relay_checkpoint_created s now task_id tok checkpoint error
  | OpDeliveries now => flush_prompt_deliveries_due s now
  | OpStalls now => flush_orchestration_stalls s now
  | OpElapsed now now_ms => flush_orchestration_elapsed_due s now now_ms
  | OpIdles now => flush_orchestration_idle_due s now
  | OpValidations now => Some (flush_artifact_validations_due s now)
  | OpReconcile now pane status => reconcile_orchestration_idle s now pane status
  | OpArm now pane => Some (arm_orchestration_deadline s now pane)
  | OpResume now now_ms pane => resume_waiting_orchestration s now now_ms pane
  | OpPaneClosed pane => cancel_orchestrations_for_pane s pane
  | OpOutside s' => Some s'
  end.

(** What a call may rely on: there is room for one more turn; a launch is of a
    template of the program or a relay, with a Pane and a provider for every
    role; what the rest of the server does leaves the runs alone. *)
Definition op_ok (s : Server) (o : Op) : Prop :=
  crowd s + 1 <= ROOM /\
  match o with
  | OpLaunch _ _ p _ _ _ providers role_panes =>
      Tasks.next_id (Turns.tasks s) + 1 < U64 /\ planned p
      /\ length providers = length (pl_roles p) /\ length role_panes = length (pl_roles p)
  | OpOutside s' => kept s s'
  | _ => True
  end.

(** [life s n s']: the server goes from [s] to [s'], and the generator of tokens
    through [n] rounds. *)
Inductive life (s : Server) : N -> Server -> Prop :=
| life_nil : life s 0 s
| life_step n s1 o s2 k : life s n s1 -> op_ok s1 o -> run_op s1 o = Some s2 ->
    orchestration_token_state s2 = rounds k (orchestration_token_state s1) -> k < PERIOD -> life s (k + n) s2.

Lemma op_sound m s o : sound m s -> op_ok s o ->
  exists s', run_op s o = Some s' /\ sound m s' /\ evolves (2 * ROOM) s [] s' [].
Proof.
  intros Hs [Hroom Ho].
  assert (forall b s', b <= 2 * ROOM -> sound m s' /\ evolves b s [] s' [] -> sound m s' /\ evolves (2 * ROOM) s [] s' []) as Hb.
  { intros b s' Hb [H V]. split; [done|by eapply evolves_weaken]. }
  assert (forall b x, b <= 2 * ROOM -> (exists s', x = Some s' /\ sound m s' /\ evolves b s [] s' []) ->
    exists s', x = Some s' /\ sound m s' /\ evolves (2 * ROOM) s [] s' []) as Hx.
  { intros b x Hb' (s' & -> & H). exists s'. split; [done|by eapply Hb]. }
  destruct o; cbn [run_op].
  - destruct Ho as (H1 & H2 & H3 & H4).
    destruct (launch_ok m s now now_ms p parent g goal providers role_panes Hs Hroom H1 H2 H3 H4) as (s' & run & -> & H).
    exists s'. split; [done|by apply (Hb 1)].
  - apply (Hx 1); [done|]. by apply submit_ok.
  - apply (Hx 1); [done|]. by apply validated_ok.
  - apply (Hx 0); [done|]. by apply checkpoint_ok.
  - apply (Hx 0); [done|]. by apply deliveries_ok.
  - apply (Hx (0 * (2 * ROOM))); [done|]. apply both_kinds; [apply stall_ok|done].
  - apply (Hx (0 * (2 * ROOM))); [done|]. apply both_kinds; [apply elapse_ok|done].
  - by apply idles_ok.
  - apply kept_ok; [done|apply kept_validations].
  - apply (Hx 0); [done|]. by apply reconcile_ok.
  - eexists. split; [done|]. apply (Hb 0); [done|]. by apply arm_ok.
  - apply (Hx 1); [done|]. by apply resume_ok.
  - apply (Hx 0); [done|]. by apply cancel_ok.
  - by apply kept_ok.
Qed.

Lemma rounds_inj i j v : v < U64 -> v <> 0 -> i < PERIOD -> j < PERIOD -> rounds i v = rounds j v -> i = j.
Proof.
  intros Hv H0 Hi Hj E. destruct (N.lt_trichotomy i j) as [H|[H|H]]; [|done|]; exfalso.
  - apply (rounds_distinct i j v); [done|done|done|lia|done].
  - apply (rounds_distinct j i v); [done|done|done|lia|done].
Qed.

Lemma life_sound m s n s' : life s n s' -> sound m s ->
  sound m s' /\ orchestration_token_state s' = rounds n (orchestration_token_state s)
  /\ forall x, x ∈ live_tokens s' -> x ∈ live_tokens s \/ exists j, 1 <= j <= n /\ x = rounds j (orchestration_token_state s).
Proof.
  intros H Hs. induction H as [|n s1 o s2 k _ IH Ho E Ek Hk]; [split_and!; [done|done|by left]|].
  destruct IH as (H1 & E1 & T1). destruct (op_sound m s1 o H1 Ho) as (s2' & E2 & H2 & k' & Hk' & Ek' & T2).
  rewrite E in E2. injection E2 as <-. pose proof (pa_state _ _ _ H1) as Hv.
  assert (k = k') as <-.
  { apply (rounds_inj k k' (orchestration_token_state s1)); [lia|lia|done| |congruence].
    eapply N.le_lt_trans; [exact Hk'|]. by vm_compute. }
  split; [done|]. split; [by rewrite Ek, E1, rounds_add|]. intros x Hx. destruct (T2 x Hx) as [H|(j & Hj & ->)].
  - destruct (T1 x H) as [?|(j & Hj & ->)]; [by left|]. right. exists j. split; [lia|done].
  - right. exists (j + n). split; [lia|]. by rewrite rounds_add, <- E1.
Qed.

(** Nobody awaits this token. *)
Lemma submit_stranger s now kind tok status verdict text claims validated : tok ∉ live_tokens s ->
  on_submit s now kind tok status verdict text claims validated = Some s.
Proof.
  intros Hn. unfold on_submit. destruct (awaiting_token kind s tok) as [i|] eqn:Hi; [|done]. exfalso. apply Hn.
  apply awaiting_spec in Hi as (r & Hi & <-). unfold live_tokens. rewrite (all_runs_split kind).
  apply list_elem_of_fmap_2, elem_of_app. left. by eapply list_elem_of_lookup_2.
Qed.

(** C21: from whatever runs a server takes up from the log of an earlier one and
    through whatever calls follow, every handler answers, no two live runs have
    the same token and none has 0, and what recovery would read of the log now
    is exactly the live runs. A token comes to life only as a round of the
    generator; one that this process has given out and that is no longer a live
    run's never is again, and a submission that quotes it changes nothing. The
    process is one in which the generator has not gone through all of its
    2^64-1 states. *)
Theorem tokens_never_return m s now now_ms s0 n1 s1 n2 s2 :
  fresh s -> keyed m -> (forall id d, m !! id = Some d -> recordable s d) -> N.of_nat (length (values m)) <= ROOM ->
  restore_orchestrations s now now_ms (values m) = Some s0 ->
  life s0 n1 s1 -> life s1 n2 s2 -> n1 + n2 < PERIOD ->
  NoDup (live_tokens s2) /\ 0 ∉ live_tokens s2
  /\ agrees None (recoverable m s2) (all_runs s2)
  /\ (forall o, op_ok s2 o -> is_Some (run_op s2 o))
  /\ (forall t, t ∈ live_tokens s2 -> t ∈ live_tokens s1 \/ exists j, n1 < j <= n1 + n2 /\ t = rounds j (orchestration_token_state s0))
  /\ (forall j, 1 <= j <= n1 -> let t := rounds j (orchestration_token_state s0) in t ∉ live_tokens s1 ->
      t ∉ live_tokens s2
      /\ forall now kind status verdict text claims validated, on_submit s2 now kind t status verdict text claims validated = Some s2).
Proof.
  intros Hf Hk Hr Hroom E L1 L2 Hn. destruct (restore_sound m s now now_ms Hf Hk Hr Hroom) as (s0' & E' & H0).
  rewrite E in E'. injection E' as <-. destruct (life_sound m s0 n1 s1 L1 H0) as (H1 & S1 & _).
  destruct (life_sound m s1 n2 s2 L2 H1) as (H2 & _ & T2). pose proof (pa_state _ _ _ H0) as Hv.
  assert (forall t, t ∈ live_tokens s2 -> t ∈ live_tokens s1 \/ exists j, n1 < j <= n1 + n2 /\ t = rounds j (orchestration_token_state s0)) as T.
  { intros t Ht. destruct (T2 t Ht) as [?|(j & Hj & ->)]; [by left|]. right. exists (j + n1). split; [lia|]. by rewrite S1, rounds_add. }
  split_and!; [apply H2| |apply H2| |done|].
  - intros H. pose proof (pa_range _ _ _ H2 0 H). lia.
  - intros o Ho. destruct (op_sound m s2 o H2 Ho) as (s3 & -> & _). by eexists.
  - intros j Hj t Ht. assert (t ∉ live_tokens s2) as Hdead.
    { intros H. destruct (T t H) as [?|(i & Hi & Et)]; [done|]. apply rounds_inj in Et; lia. }
    split; [done|]. intros. by apply submit_stranger.
Qed.
End Life.

(** ** A life *)

(** Terminals that take every delivery and keep it. *)
#[local] Instance kept_ptys : Ptys := {|
  Pty := list (N * list N);
  queue_pane_input l pane bytes := (l ++ [(pane, bytes)], true);
  prepare_launch_input l _ := (l, true);
  foreground_process_group _ _ := None;
  bracketed_paste _ _ := false |}.

Definition codex : ResolvedRoleProvider := {| rp_id := lit "codex"; Launch.rp_command := lit "codex" |}.
Definition two_limits : GuardLimits := {| max_active_runs := 8; max_role_panes := 32; Guardrail.max_iterations := 3; max_elapsed_seconds := 600 |}.
Definition pair_template : WorkflowTemplate := {|
  template_name := lit "pair"; summary := lit "builder implements, verifier reviews"; template_roles := [builder_spec; verifier_spec] |}.

(** A run of two roles that an earlier process left with the token 77. *)
Definition left_run : DurableOrchestration := {|
  do_kind := OWorkflow; do_task_id := 5; do_template := Some (lit "pair"); do_goal := lit "tests";
  do_role_providers := [{| rp_provider := lit "codex"; Events.rp_command := lit "codex" |}; {| rp_provider := lit "codex"; Events.rp_command := lit "codex" |}];
  do_agent_id := lit "codex"; do_agent_cmd := lit "codex"; do_role_panes := [1; 2]; do_started := [true; false];
  do_state := with_token (open_turn (State_new (engine_roles pair_template) 3)).1 77;
  do_checkpoints := []; do_guardrail := {| dg_started_at_ms := 1; dg_limits := two_limits; dg_elapsed_triggered := false |} |}.

Definition SEED : N := 88172645463325252.

Definition first_server : Server := {|
  pty := []; panes := list_to_map (map (fun p => (p, {| p_agent := None; p_foreground_pid := None |})) [1; 2; 3; 4]); roots := ∅;
  workflows := []; relays := []; orchestration_token_state := SEED; pending_orchestration_submissions := [];
  pending_prompt_deliveries := []; pending_relay_activations := []; waiting := Waiting.new; Turns.tasks := {| Tasks.tasks := []; Tasks.next_id := 6 |};
  run_graph := RunGraph.new; run_graph_sequence := 0; artifacts := Artifact.new; artifact_sequence := 0; durability_error := None;
  event_writes_enabled := true; log := []; next_sequence := 1; timeline_invocations := ∅; sent := [] |}.

Definition restored : Server := default first_server (restore_orchestrations first_server 0 1000 (values {[5 := left_run]})).

Definition a_launch : GuardedLaunch := {| gl_project := 1; gl_project_name := lit "uniterm"; gl_limits := two_limits; gl_started_at_ms := 1000 |}.

Definition launch_call : Op := OpLaunch 10 1010 (workflow_plan pair_template) None a_launch (lit "docs") [codex; codex] [3; 4].
Definition built_call : Op := OpSubmit 20 OWorkflow (rounds 1 SEED) SDone None (lit "built") [].
Definition fix_call : Op := OpSubmit 30 OWorkflow (rounds 2 SEED) SDone (Some (lit "fix")) (lit "no tests") [].
Definition closed_call : Op := OpPaneClosed 1.

Definition later (s : Server) (o : Op) : Server := default s (run_op s o).
Definition launched : Server := later restored launch_call.
Definition handed_off : Server := later launched built_call.
Definition sent_back : Server := later handed_off fix_call.
Definition closed : Server := later sent_back closed_call.

(** A run that is launched beside the recovered one, its builder's and its
    verifier's turns, and the end of the recovered run. *)
Example turns_of_a_life : live_tokens restored = [77] /\ live_tokens launched = [77; rounds 1 SEED]
  /\ live_tokens handed_off = [77; rounds 2 SEED] /\ live_tokens sent_back = [77; rounds 3 SEED] /\ live_tokens closed = [rounds 3 SEED]
  /\ map fst (pty closed) = [3; 4; 3].
Proof. vm_compute. done. Qed.

Lemma first_life : life restored 2 handed_off.
Proof.
  apply (life_step _ 1 launched built_call _ 1); [|by vm_compute|by vm_compute..].
  apply (life_step _ 0 restored launch_call _ 1); [by constructor| |by vm_compute..].
  split; [by vm_compute|]. split_and!; [by vm_compute| |done|done]. right. by exists (lit "pair"), pair_template.
Qed.

Lemma second_life : life handed_off 1 closed.
Proof.
  apply (life_step _ 1 sent_back closed_call _ 0); [|by vm_compute|by vm_compute..].
  by apply (life_step _ 0 handed_off fix_call _ 1); [constructor|vm_compute..].
Qed.

Lemma left_recordable id d : ({[5 := left_run]} : gmap N DurableOrchestration) !! id = Some d -> do_task_id d = id /\ recordable first_server d.
Proof. intros [<- <-]%lookup_singleton_Some. split; [done|].
  split; [by vm_compute|by vm_compute|apply Nat.ltb_lt; by vm_compute..].
Qed.

Lemma first_retired : rounds 1 SEED ∉ live_tokens handed_off.
Proof. apply (bool_decide_unpack _). by vm_compute. Qed.

Lemma tokens_never_return_witness : rounds 1 SEED ∉ live_tokens closed /\ life restored 2 handed_off /\ life handed_off 1 closed
  /\ forall now kind status verdict text claims validated,
       on_submit closed now kind (rounds 1 SEED) status verdict text claims validated = Some closed.
Proof.
  destruct (tokens_never_return {[5 := left_run]} first_server 0 1000 restored 2 handed_off 1 closed) as (_ & _ & _ & _ & _ & H).
  - split; [done|done|done|done|done|by vm_compute|constructor].
  - intros id d H. by apply left_recordable.
  - intros id d H. apply left_recordable in H as [_ H]. done.
  - by vm_compute.
  - by vm_compute.
  - exact first_life.
  - exact second_life.
  - done.
  - destruct (H 1 ltac:(lia) first_retired) as [H1 H2]. exact (conj H1 (conj first_life (conj second_life H2))).
Defined.

(** Recovery takes up a run whose loop would send a fix to a role that it does
    not have, and the verdict then panics. *)
Definition astray : DurableOrchestration :=
  let st := do_state left_run in {|
  do_kind := OWorkflow; do_task_id := 5; do_template := do_template left_run; do_goal := do_goal left_run;
  do_role_providers := do_role_providers left_run; do_agent_id := do_agent_id left_run; do_agent_cmd := do_agent_cmd left_run;
  do_role_panes := [1; 2]; do_started := [true; true];
  do_state := {| Orchestrate.roles := Orchestrate.roles st; cur := 1; iteration := 0; Orchestrate.max_iterations := 3; token := 77; token_seq := 2;
    last_fix := None; fix_target := 9; replan_target := 0; phase := Awaiting |};
  do_checkpoints := []; do_guardrail := do_guardrail left_run |}.

Example unchecked_fix_target :
  live_tokens (default first_server (restore_orchestrations first_server 0 1000 [astray])) = [77]
  /\ (s ← restore_orchestrations first_server 0 1000 [astray];
      on_submit s 10 OWorkflow 77 SDone (Some (lit "fix")) (lit "no tests") [] false) = None.
Proof. split; by vm_compute. Qed.
